(* ===== verification/_CoqProject ===== *)
-Q . S2P
Prelude.v
CString.v
DateTime.v
DateFormat.v
Text.v
Bitset.v
BitsetSpec.v
Dump.v
Debug.v
Threads.v
Monitor.v
Semaphore.v
CountDownSemaphore.v
Barrier.v
BarrierSpec.v
Properties.v
Configurator.v
Channel.v
ObjectRef.v
Adapters.v
FutureResult.v
Gestalt.v
ServiceLoader.v
HandOff.v
HandOffOnce.v
TaskExecutor.v
Executors.v
Rendezvous.v
Shutdown.v
Signals.v
SynchValue.v
SynchValueSpec.v
ConfigLoad.v
Naming.v
NamingList.v
Ldbc.v
LdbcSpec.v
Cdr.v
Discovery.v
DiscoveryNet.v
Binders.v
StubRefs.v
Resolver.v
Services.v
PropertyServer.v
OrbContexts.v
Startup.v
OrbLife.v
ServerLife.v
Tty.v
TtyWrite.v
TtyRead.v
TtyConfig.v
TtyDevice.v
Dds.v
DdsEntities.v
Idl.v
IdlEnum.v
IdlTaf.v
TafServer.v
PropertyList.v
Security.v
