(* ===== verification/Prelude.v ===== *)
(** * LASAGNE-Core: a verification library

    LASAGNE-Core is a C++ framework over ACE and TAO.  Its core is the library under
    src/daf: dates, bit sequences, text handling, properties and configuration
    files, the synchronisation objects and the services built from them.  On it
    stand src/TAF, CORBA servers with naming, discovery and remote control of their
    services, src/LDBC, access to SQLite databases, and src/TTY_Asynch, asynchronous
    terminals.  This library models daf, and of the others the parts that have logic of
    their own, and proves what their operations promise.

    ** Files and the code they model

    - [Prelude] (this file): notations, the exceptions of daf/Exception.h with the
      base-class relation that decides which [catch] clause takes one, the
      [result] monad for code that returns or throws, machine integers ([to_int],
      [to_size]), the class [AceMinMax] of ACE's comparison macros, shared lemmas
      and tactics.
    - [CString]: std::string and the C functions on characters and numbers that
      the code uses (find_first_of, substr, erase, sscanf and printf conversions).
    - [DateTime], [DateFormat]: daf/DateTime.  A [date_time] is the record of
      the class's fields; the Julian-day conversions, day arithmetic, comparison,
      weekday search and time-value conversions are functions to [result].
      [DateFormat] has the printers and the constructor from text.
    - [Text]: the string functions of daf/DAF.cpp (trim_string, parse_esc,
      parse_argv, hex_dump_data) and the elapsed-time functions.  [Dump]: the dumps of
      memory and bits, the texts of errors, and the clock with an offset of daf/OS.cpp.
    - [Debug]: the debug levels of daf/DAFDebug.cpp and TAF/taf/TAFDebug.cpp and the objects
      that set them for a time.
    - [Bitset], [BitsetSpec]: daf/Bitset.  The object is a bit count and a byte
      buffer; the operations run in a monad with a thrown exception and a fault
      for an access outside the buffer.  The specification is a list of booleans.
    - [Threads], [Monitor]: interleaved threads over a shared state, and
      daf/Monitor with daf/SYNCHCondition_T.h: mutex, condition, waiter count and
      interruption, one step per access to the shared state.
    - [Semaphore], [CountDownSemaphore], [Barrier], [BarrierSpec]: the objects of
      the same name, on top of [Monitor]; a thread is a program counter in the
      code of the operation it has called.
    - [Rendezvous]: daf/Rendezvous_T, the barrier's protocol with an item per party
      and a command on all of them.
    - [Channel]: daf/Channel_T with daf/SemaphoreControlledChannel_T and its two
      containers, the queue and the priority queue, behind the class [Container].
    - [HandOff], [HandOffOnce]: daf/SynchronousChannel_T, a queue of nodes each with a monitor
      of its own; [HandOffOnce] follows each call of put and take through its nodes.
    - [FutureResult]: daf/FutureResult_T.
    - [Shutdown]: daf/ShutdownHandler, the flag a process shuts down by.  [Signals]:
      daf/SignalHandler over event descriptors, the reactor of daf/WFMOSignalReactor.cpp, and
      daf/TerminateRepository.
    - [TaskExecutor]: daf/TaskExecutor: callers, pool threads and the closing of the
      pool, with a step that adds threads.  [Executors]: daf/DirectExecutor.h,
      daf/LockedExecutor.h and daf/ConstrainedExecutor on any executor.
    - [ObjectRef]: daf/RefCount and daf/ObjectRef_T over a store of objects whose
      members are references themselves.  [Adapters]: daf/ServiceAdapter, daf/RefCountHandler_T
      and the holders of publishers and subscribers.
    - [Gestalt], [ServiceLoader]: daf/ServiceGestalt and daf/ServiceGestaltLoader.
      ACE's service repository and its interpreter of directives are the class
      [AceGestalt] with the laws [AceGestaltLaws]; [table_gestalt] is an instance.  An activity is one
      step where nothing else runs, and [advance] takes it apart for callers that give up and for
      activities that overlap under the read lock.
    - [Properties]: daf/PropertyManager and format_args of daf/DAF.cpp: the map of
      properties, the formatting of their values and the recursion between both.
    - [Configurator]: daf/Configurator: profile arguments, the file format and the
      loading of sections into a property map.  [ConfigLoad]: what Configurator::load and
      ServiceGestaltLoader::load_config_args make of a command line, over ACE's scanner of
      arguments, the class [ArgShifter].
    - [SynchValue], [SynchValueSpec]: daf/SynchValue_T, a value that threads set and wait
      for, and what setters and waiters may rely on.
    - [Naming]: TAF/taf/NamingContext, path names over the CORBA naming service
      ([CosNaming], [CosNamingLaws]).  [NamingList]: the graph of a context, from the chunks
      of bindings that the service's iterators give.  [OrbContexts]: rootContext and
      baseContext of TAF/taf/ORBManager.
    - [Cdr]: TAF/taf/CDRStream.  [Discovery]: TAF/taf/extensions/discovery,
      IORQueryRepository and IORQueryServant; the generated encoders are the class
      [DiscoveryStubs].  [DiscoveryNet]: the addresses its handlers join, the start and the
      end of the service.
    - [Binders]: TAF/taf/IORBinder, ObjectStubRef_T and CORBAInterfaceHandler_T over the
      class [Orb]; [SmallOrb] is an instance.  [StubRefs]: the references of ObjectStubRef_T, which
      activate their servant.  [Resolver]: TAF/taf/IORResolver_T, the
      resolvers and the chain that runs them.
    - [Services]: TAF/taf/GestaltService_impl, the gestalt as a CORBA servant.
      [PropertyServer]: TAF/taf/PropertyServer_impl.  [PropertyList]: list_properties and
      print_properties of daf/PropertyManager and the servant's list.  [Startup]:
      TAF/taf/PropertyLoader, the arguments of ORB::init and those of _init_TAFServer.
      [OrbLife]: the initialisation of the ORB, its threads and its end, and POAPolicyList.
      [ServerLife]: the names of the server and its ORB, the server object's start and end.  [TafServer]:
      TAF/taf/TAFServer_impl, the server object, its threads, and the hand-shake by which a
      process that is not the library's starts it.
    - [Security]: TAF/TAFSecurity, the arguments of the SSL factory and the protection of
      servants, and the entry points of TAF/orbsvcs/NamingService.
    - [Dds], [DdsEntities]: TAF/dds, the shared participants, types and topics with the
      factories that keep them, and the publishers, subscribers, writers and readers.
    - [Idl], [IdlEnum], [IdlTaf]: TAF/idl, the back end of the IDL compiler.  [Idl] writes
      the helpers of enumerations over a tree of declarations, [IdlEnum] reads that text back
      and runs it, [IdlTaf] has the data support of topics, the options and the files.
    - [Ldbc], [LdbcSpec]: LDBC/SQLite, connections, queries and parameters in a store of
      shared objects, over the class [SQLite].
    - [Tty]: TTY_Asynch/TTY_Stream, the circular buffer.  [TtyWrite],
      [TtyRead]: TTY_WriteStream and TTY_ReadStream with the result handlers of TTY_Handler,
      as moves of a caller and the proactor.  [TtyConfig]: the configuration TTY_Device reads;
      [TtyDevice]: its options, time-outs and status, opening and closing.

    [Configurator] calls [Properties], which calls [Text]; the synchronisation
    objects call [Monitor] through its lock discipline ([lock_inv], proved once
    from [respects_lock]) and the class [Waits] that tells which program counters
    a signal can wake.  An object that another one uses is taken as what its own file
    proves of it: the gates of [Barrier], [Rendezvous], [Channel] and [Executors] are the
    counter of [semaphore_refines_counter], the latch of [TaskExecutor] is that of
    [countdown_latch], its channel the hand-off of [handoff_once] with the losses of
    [interrupt_drops_item], and its [shutdown] flag is [Shutdown]'s.  The servants compose
    what lies below them: [Services] joins [Configurator], [ServiceLoader] and [Gestalt],
    [PropertyServer] answers with the outcomes of [Properties] and [PropertyList] with their texts, [Startup] loads through
    [ConfigLoad] into [Properties], [Binders] registers with [Discovery] and binds through
    [Naming], [Resolver] reads what [Binders] wrote, [TtyWrite] and [TtyRead] use [Tty]
    through the list of its characters, [Dump] prints the buffer that [BitsetSpec] describes,
    [NamingList] resolves through [Naming]'s service, and [IdlTaf], [TafServer] and [Security]
    scan their arguments with [ConfigLoad]'s scanner.

    ** What the theorems show

    - Dates: the two directions of the Julian-day conversion are inverse on every
      date the class accepts, [JUGDay] counts days from a reference calendar,
      comparison is the order of absolute time, adding days and searching weekdays
      give the date they name, and printing and parsing are inverse; every text
      fits the buffer it is printed to; every operation gives a value in range or
      throws.
    - Bit sequences: every operation refines the obvious operation on the list of
      bits and keeps the unused bits of the last byte zero; the exceptions are
      thrown exactly outside the documented ranges.
    - Synchronisation, for any number of threads and every interleaving: the
      semaphore conserves permits, refines an abstract counter with the same calls and results, loses no wake-up
      and has no deadlock of its own; the count-down semaphore opens once and lets
      all through; a barrier lets a party leave normally only when all have
      arrived, holds at most its parties and is reset by the last to leave; a rendezvous
      gives each party what the command left at its place; channels respect their
      capacity and order, hand each item over once and miss no partner; a future wakes
      all that wait for it; a shutdown reaches every waiter.
    - The pool: a command is run at most once, never after it was refused, and while
      the pool is available an accepted one can always still be run; while no spawn has failed
      halfway [thr_count_] counts the threads; when the pool has been closed no thread is left
      but those the thread manager gave up, and none starts.
    - References: the operations of ObjectRef keep the counts, so that an object lives
      exactly as long as something refers to it.
    - Services: the descriptors mirror the repository while suspensions and resumptions do not
      overlap and none was given up midway, an operation that returns 0 has
      taken effect, the errors are the documented ones, and the loader processes every
      entry once and cuts it as it was written.
    - Properties: in a repository without cycles a lookup terminates and equals a
      one-pass reference expansion, where no text that is put in has a percent sign; reading never
      changes an entry, adds variables of the environment only, and throws only
      the two documented exceptions; a listing has every property with its text, in order.
    - Configuration: cutting of arguments, the precedence among sections, the
      round trip of the file format, what a command line loads, and how the arguments of
      a server are divided between the ORB and the service.
    - Synchronised values: in calm executions no waiter misses a value, and a setter that
      waits is owed what it waits for.
    - Naming and binding: a name that is bound resolves to its object and the
      operations on paths return; binding a handler and unbinding it restores the tables; a
      file binding is what the resolver reads; a chain returns only what a resolver found; the
      graph of a context is the text its bindings give, and leaves no iterator behind.
    - Discovery: the repository is a map, and a query reaches exactly the servants it is
      for and brings their references back.
    - Remote requests: each failure of the gestalt or the repository is answered with
      the exception the code has for it.
    - Servers: the caller of a server that runs in a thread of its own learns its result, and
      no other; every thread that the properties ask for is started, within the bounds.
    - Publishing: threads that ask for the same entity share one holder, which lives as long
      as it is held; every valid sample is given to the client once, in order.
    - Generated code: the functions that the back end writes for an enumeration are inverse
      to each other and count its values.
    - Debugging: objects that set levels for a time restore them; dumps hold the bytes and
      the bits they print.
    - Databases: parameters are numbered, a value that is bound reads back (a NaN does not), and a
      connection knows its queries and finalizes them when it is closed, but for those it was
      opened again under.
    - Terminals: the buffer is a bounded queue; what the terminal gets is a prefix of
      what was accepted, in order, and all of it when transfers succeed; what readers get is
      what arrived; the parameters of a configuration are set in order.

    - Defects: where the code does not do what it means to, a lemma shows an execution
      ([jammed_forever], [throwing_command_closes_gate], [interrupt_wakes_nobody],
      [refusal_blocks_executor], [arguments_lost], [service_jammed], [signal_before_wait],
      [put_hangs], [failed_transfer_is_the_last], [dying_throws], [refused_access_loops],
      [second_init_empty], [orb_level_misplaced], [closed_before_removed],
      [throwing_service_loops], [shared_servant_cut] and others).

    ** Bounds and fuel

    Loops whose recursion is not structural take a [fuel] (a [nat]) with the bound
    the caller passes: the length of the text for the scanning loops, the number
    of bits for the byte loops.  The theorems are about the functions with that
    fuel, so they include that it suffices.  Property lookups take their fuel as
    an argument and return [None] when it is used up; [get_property_meaning] bounds it
    by the depth of the references plus the length of the longest argument, and
    [self_reference_diverges] shows that no fuel is enough for a cycle.  [put] of a terminal's
    stream takes its number of characters as fuel; [put_spec] shows that this is enough where
    the loop ends and [put_hangs] that no fuel is where it does not.  The loop over the chunks of a naming context takes more than the number
    of its bindings ([graph_printed]), its recursion the depth that is left of ten; [hex_rows]
    the length of the buffer.  Integers are
    [Z], with [to_int] and [to_size] where the code narrows a value.

    ** What is not modelled

    Wrappers of ACE and the operating system (daf/OS but for the clock, Event_Handler,
    debugging output), and the floating-point code (daf/Conversion,
    GCRoute).  Of SignalHandler: its timers, which are the reactor's, and Windows events.  Of
    TAF: the getters of the server's interface and the messages it prints; the macros of TAF/dds that name a
    vendor's types, its builders of QoS and listeners without a body; what TAO's security
    manager does with its arguments; the syntax tree of TAO's IDL compiler, of which the tree
    here has what the visitors look at; the console program MulticastDiscoveryUtility.  Of
    TTY_Asynch: the proactor.  The SQLite library itself is third-party code.  ACE's
    tokenizer, the environment, the clock and file contents are parameters.  Tests, examples
    and build files are left aside. *)

From stdpp Require Export base list numbers strings gmap relations.
From Stdlib Require Export ZArith Lia Bool.

(** ** Exceptions

    The exception types of daf/Exception.h.  [derives] is the C++ base-class
    relation restricted to the library's own types, which is what a
    [catch (const DAF::X &)] clause tests. *)

(** daf/Exception.h:43-161 [exception_types]. *)
Inductive daf_exn :=
| InternalException
| InitializationException
| TimeoutException
| ClassCastException
| IndexOutOfRange
| ObjectNotExistException
| DateTimeException
| IllegalStateException
| InvocationTargetException
| IllegalArgumentException
| IllegalLengthException
| InterruptedException
| LockFailureException
| BrokenBarrierException
| IllegalThreadStateException
| ResourceExhaustionException
| NotFoundException
| IllegalPropertyException.

#[export] Instance daf_exn_eq_dec : EqDecision daf_exn.
Proof. solve_decision. Defined.

(** daf/Exception.h:190-289 [exception_bases]. The immediate base of an exception type, when it is one of the library's. *)
Definition exn_base (e : daf_exn) : option daf_exn :=
  match e with
  | InterruptedException | LockFailureException
  | IllegalThreadStateException | ResourceExhaustionException => Some InternalException
  | BrokenBarrierException => Some InterruptedException
  | NotFoundException | IllegalPropertyException => Some IllegalArgumentException
  | _ => None
  end.

(** [catches h e]: a handler for [h] catches a thrown [e].  The hierarchy is
    three levels deep (BrokenBarrier < Interrupted < Internal). *)
Definition catches (h e : daf_exn) : bool :=
  bool_decide (e = h)
  || match exn_base e with
     | None => false
     | Some b => bool_decide (b = h)
                 || match exn_base b with
                    | None => false
                    | Some b' => bool_decide (b' = h)
                    end
     end.

(** ** Results: a value or a thrown exception *)

Inductive result (A : Type) :=
| Ok (a : A)
| Throw (e : daf_exn).
Arguments Ok {A} a.
Arguments Throw {A} e.

#[export] Instance result_eq_dec {A} `{EqDecision A} : EqDecision (result A).
Proof. solve_decision. Defined.

#[export] Instance result_ret : MRet result := fun A a => Ok a.
#[export] Instance result_bind : MBind result := fun A B k m =>
  match m with
  | Ok a => k a
  | Throw e => Throw e
  end.
#[export] Instance result_fmap : FMap result := fun A B f m =>
  match m with
  | Ok a => Ok (f a)
  | Throw e => Throw e
  end.

(** [rcatch h m k]: [try { m } catch (const h &) { k }]. *)
Definition rcatch {A} (h : daf_exn) (m k : result A) : result A :=
  match m with
  | Ok a => Ok a
  | Throw e => if catches h e then k else Throw e
  end.

Lemma rbind_Ok {A B} (m : result A) (k : A -> result B) b :
  (m ≫= k) = Ok b <-> exists a, m = Ok a /\ k a = Ok b.
Proof.
  destruct m as [a|e]; simpl; split.
  - intros H. eauto.
  - intros (a' & [= <-] & H). exact H.
  - discriminate.
  - intros (a' & [=] & _).
Qed.

Lemma rbind_Throw {A B} (m : result A) (k : A -> result B) e :
  (m ≫= k) = Throw e <-> m = Throw e \/ exists a, m = Ok a /\ k a = Throw e.
Proof.
  destruct m as [a|e']; simpl; split.
  - intros H. right. eauto.
  - intros [[=]|(a' & [= <-] & H)]. exact H.
  - intros [= ->]. auto.
  - intros [[= ->]|(a' & [=] & _)]. reflexivity.
Qed.

Lemma rbind_assoc {A B C} (m : result A) (k : A -> result B) (h : B -> result C) :
  ((m ≫= k) ≫= h) = (m ≫= (fun a => k a ≫= h)).
Proof. destruct m; reflexivity. Qed.

(** ** Machine integers *)

Open Scope Z_scope.

Definition INT_MAX : Z := 2147483647.
Definition SIZE_MOD : Z := 2 ^ 64.

(** Conversion of an integer value to [int] (32 bits, two's complement). *)
Definition to_int (z : Z) : Z := (z + 2 ^ 31) mod 2 ^ 32 - 2 ^ 31.

(** Conversion of an integer value to [size_t] (64 bits). *)
Definition to_size (z : Z) : Z := z mod SIZE_MOD.

(** An 8-bit unsigned value. *)
Definition is_byte (b : Z) : Prop := 0 <= b < 256.

(** A decidable property of bytes holds when it holds of the 256 of them. *)
Lemma forall_byte (P : Z -> bool) b :
  forallb (fun n => P (Z.of_nat n)) (seq 0 256) = true -> is_byte b -> P b = true.
Proof.
  intros H Hb. rewrite forallb_forall in H.
  specialize (H (Z.to_nat b)). rewrite Z2Nat.id in H by (unfold is_byte in *; lia).
  apply H, in_seq. unfold is_byte in *. lia.
Qed.

Lemma to_int_range z : - 2 ^ 31 <= to_int z <= INT_MAX.
Proof.
  unfold to_int, INT_MAX. pose proof (Z.mod_pos_bound (z + 2 ^ 31) (2 ^ 32)). lia.
Qed.

Lemma to_int_small z : - 2 ^ 31 <= z <= INT_MAX -> to_int z = z.
Proof. unfold to_int, INT_MAX. intros H. rewrite Z.mod_small; lia. Qed.

Lemma to_size_small z : 0 <= z < SIZE_MOD -> to_size z = z.
Proof. apply Z.mod_small. Qed.

(** ** The ACE helpers the code uses from <ace/Min_Max.h>

    ACE is not part of this repository: its helpers are parameters of the
    definitions that call them, with their documented behaviour as the laws of
    a class of its own, so that a theorem that relies on them says so. *)

Class AceMinMax := {
  ace_min : Z -> Z -> Z;
  ace_max : Z -> Z -> Z;
  ace_range : Z -> Z -> Z -> Z;
}.

Class AceMinMaxLaws `{AceMinMax} : Prop := {
  ace_min_spec : forall a b, ace_min a b = Z.min a b;
  ace_max_spec : forall a b, ace_max a b = Z.max a b;
  ace_range_spec : forall lo hi v, ace_range lo hi v = Z.min (Z.max lo v) hi;
}.

(** A concrete instance, for the witnesses. *)
Definition ace_min_max_std : AceMinMax := {|
  ace_min := Z.min;
  ace_max := Z.max;
  ace_range := fun lo hi v => Z.min (Z.max lo v) hi;
|}.

Lemma ace_min_max_std_laws : @AceMinMaxLaws ace_min_max_std.
Proof. split; reflexivity. Qed.

(** [x == ace_range(lo, hi, x)], the code's idiom for a range test. *)
Definition in_range `{AceMinMax} (lo hi v : Z) : bool := v =? ace_range lo hi v.

Lemma in_range_spec `{AceMinMaxLaws} lo hi v :
  lo <= hi -> in_range lo hi v = (lo <=? v) && (v <=? hi).
Proof.
  intros Hle. unfold in_range. rewrite ace_range_spec.
  destruct (Z.leb_spec lo v), (Z.leb_spec v hi); simpl; lia.
Qed.

(** ** Tactics shared by the components *)

(** Case analysis on the boolean tests of the goal and the hypotheses. *)
Ltac bcase :=
  repeat match goal with
  | H : context [?a =? ?b] |- _ => destruct (Z.eqb_spec a b); simpl in H
  | H : context [?a <? ?b] |- _ => destruct (Z.ltb_spec a b); simpl in H
  | H : context [?a <=? ?b] |- _ => destruct (Z.leb_spec a b); simpl in H
  | |- context [?a =? ?b] => destruct (Z.eqb_spec a b); simpl
  | |- context [?a <? ?b] => destruct (Z.ltb_spec a b); simpl
  | |- context [?a <=? ?b] => destruct (Z.leb_spec a b); simpl
  end.

(** Linear arithmetic with division and modulo by constants. *)
Ltac zdm := Z.to_euclidean_division_equations; lia.

Create HintDb daf discriminated.
Create Rewrite HintDb daf_rw.
