(* ===== verification/CString.v ===== *)
(** * C and C++ strings

    The string operations the code takes from the C and C++ standard libraries
    ([std::string], [<cctype>] in the "C" locale, the integer conversions of
    [sprintf] and [sscanf]).  A string is a [list ascii]; positions are [nat];
    an out-of-range position throws [std::out_of_range], modelled by [None]. *)

From S2P Require Import Prelude.
From Stdlib Require Import Ascii.

(** A literal. *)
Definition str (s : string) : list ascii := String.list_ascii_of_string s.

(** ** Character classes *)

Definition code (c : ascii) : Z := Z.of_nat (nat_of_ascii c).

Definition isspace (c : ascii) : bool :=
  (9 <=? code c) && (code c <=? 13) || (code c =? 32).
Definition iscntrl (c : ascii) : bool := (code c <? 32) || (code c =? 127).
Definition isdigit (c : ascii) : bool := (48 <=? code c) && (code c <=? 57).
Definition tolower (c : ascii) : ascii :=
  if (65 <=? code c) && (code c <=? 90) then ascii_of_nat (nat_of_ascii c + 32) else c.

(** ** std::string *)

(** [find_first_of(c, pos)]; [None] is [npos]. *)
Fixpoint find_char (c : ascii) (s : list ascii) : option nat :=
  match s with
  | [] => None
  | x :: s => if decide (x = c) then Some O else S <$> find_char c s
  end.

Definition find_from (c : ascii) (s : list ascii) (pos : nat) : option nat :=
  (Nat.add pos) <$> find_char c (drop pos s).

(** [int(s.find_first_of(c, pos))]: [npos] converts to -1. *)
Definition find_int (c : ascii) (s : list ascii) (pos : nat) : Z :=
  match find_from c s pos with Some i => Z.of_nat i | None => -1 end.

(** [find_first_of(chars)], the first position of any of [chars]. *)
Fixpoint find_any (chars s : list ascii) : option nat :=
  match s with
  | [] => None
  | x :: s => if decide (x ∈ chars) then Some O else S <$> find_any chars s
  end.

Definition substr (s : list ascii) (pos len : nat) : option (list ascii) :=
  if decide (pos <= length s)%nat then Some (take len (drop pos s)) else None.

Definition erase (s : list ascii) (pos n : nat) : option (list ascii) :=
  if decide (pos <= length s)%nat then Some (take pos s ++ drop (pos + n) s) else None.

(** [c_str()] as a C function reads it: up to the first NUL. *)
Fixpoint c_str (s : list ascii) : list ascii :=
  match s with
  | [] => []
  | c :: s => if decide (code c = 0) then [] else c :: c_str s
  end.

(** ** Integer conversions of sprintf *)

Definition digit (n : Z) : ascii := ascii_of_nat (48 + Z.to_nat n).

(** The [w] low decimal digits of [n]. *)
Fixpoint digits_w (w : nat) (n : Z) : list ascii :=
  match w with
  | O => []
  | S w => digits_w w (n / 10) ++ [digit (n mod 10)]
  end.

(** Number of decimal digits; 20 covers every 64-bit value. *)
Fixpoint ndigits (fuel : nat) (n : Z) : nat :=
  match fuel with
  | O => 1
  | S fuel => if n <? 10 then 1 else S (ndigits fuel (n / 10))
  end.

Definition fmt_nat (w : nat) (n : Z) : list ascii :=
  digits_w (Nat.max w (ndigits 20 n)) n.

(** ["%0<w>d"]; ["%d"] is width 0. *)
Definition fmt_int (w : nat) (n : Z) : list ascii :=
  if n <? 0 then ascii_of_nat 45 :: fmt_nat (w - 1) (- n) else fmt_nat w n.

(** ** sscanf *)

Inductive directive :=
| DInt (w : option nat)  (** [%d] or [%<w>d] *)
| DLit (c : ascii)
| DSpace.

Fixpoint skip_space (s : list ascii) : list ascii :=
  match s with
  | [] => []
  | c :: s' => if isspace c then skip_space s' else s
  end.

(** Up to [w] digits; [None] when there is not a single one. *)
Fixpoint scan_digits (w : nat) (s : list ascii) (acc : option Z) : option Z * list ascii :=
  match w, s with
  | S w, c :: s' =>
      if isdigit c
      then scan_digits w s' (Some (default 0 acc * 10 + (code c - 48)))
      else (acc, s)
  | _, _ => (acc, s)
  end.

Definition scan_int (w : option nat) (s : list ascii) : option (Z * list ascii) :=
  let s := skip_space s in
  let w := default (length s) w in
  match s with
  | c :: s' =>
      let signed := decide (c = ascii_of_nat 43 \/ c = ascii_of_nat 45) in
      let '(v, rest) :=
        if signed then scan_digits (w - 1) s' None else scan_digits w s None in
      match v with
      | Some v => Some (if decide (c = ascii_of_nat 45) then - v else v, rest)
      | None => None
      end
  | [] => None
  end.

(** The values assigned, in order; scanning stops at the first mismatch. *)
Fixpoint sscanf (s : list ascii) (fmt : list directive) : list Z :=
  match fmt with
  | [] => []
  | DInt w :: fmt =>
      match scan_int w s with
      | Some (v, rest) => v :: sscanf rest fmt
      | None => []
      end
  | DLit c :: fmt =>
      match s with
      | c' :: rest => if decide (c' = c) then sscanf rest fmt else []
      | [] => []
      end
  | DSpace :: fmt => sscanf (skip_space s) fmt
  end.

(** ** Lemmas *)

Lemma code_digit n : 0 <= n <= 9 -> code (digit n) = 48 + n.
Proof. intros Hn. unfold code, digit. rewrite nat_ascii_embedding; lia. Qed.

Lemma isdigit_digit n : 0 <= n <= 9 -> isdigit (digit n) = true.
Proof. intros Hn. unfold isdigit. rewrite code_digit by lia. lia. Qed.

Lemma isspace_digit n : 0 <= n <= 9 -> isspace (digit n) = false.
Proof. intros Hn. unfold isspace. rewrite code_digit by lia. lia. Qed.

Lemma digits_w_length w n : length (digits_w w n) = w.
Proof. revert n; induction w as [|w IH]; intros n; simpl; [done|]. rewrite length_app, IH. simpl. lia. Qed.

Lemma digits_w_digits w n : 0 <= n -> Forall (fun c => isdigit c = true) (digits_w w n).
Proof.
  revert n; induction w as [|w IH]; intros n Hn; simpl; [constructor|].
  apply Forall_app. split; [apply IH; zdm|].
  constructor; [|constructor]. apply isdigit_digit. zdm.
Qed.

(** Scanning exactly the digits of a string followed by anything. *)
Lemma scan_digits_app l rest acc :
  Forall (fun c => isdigit c = true) l ->
  scan_digits (length l) (l ++ rest) acc =
  (foldl (fun a c => Some (default 0 a * 10 + (code c - 48))) acc l, rest).
Proof.
  revert acc. induction l as [|c l IH]; intros acc Hl; simpl; [by destruct rest|].
  inversion_clear Hl as [|? ? Hc Hl']. rewrite Hc. by apply IH.
Qed.

Lemma digits_value w n :
  0 <= n < 10 ^ Z.of_nat (S w) ->
  foldl (fun a c => Some (default 0 a * 10 + (code c - 48))) None (digits_w (S w) n)
  = Some n.
Proof.
  revert n. induction w as [|w IH]; intros n Hn.
  - cbn in *. rewrite code_digit by zdm. f_equal. zdm.
  - remember (S w) as w' eqn:Hw. cbn [digits_w]. rewrite foldl_app, IH.
    + cbn. rewrite code_digit by zdm. f_equal. zdm.
    + rewrite Nat2Z.inj_succ, Z.pow_succ_r in Hn by lia. zdm.
Qed.

Lemma skip_space_digits w n rest :
  0 <= n -> skip_space (digits_w (S w) n ++ rest) = digits_w (S w) n ++ rest.
Proof.
  intros Hn. pose proof (digits_w_digits (S w) n Hn) as Hd.
  pose proof (digits_w_length (S w) n) as Hlen.
  destruct (digits_w (S w) n) as [|c l]; [done|]. simpl.
  inversion_clear Hd as [|? ? Hc _].
  assert (isspace c = false) as -> by (unfold isdigit in Hc; unfold isspace; lia).
  done.
Qed.

Lemma scan_int_digits w n rest :
  0 <= n < 10 ^ Z.of_nat (S w) ->
  scan_int (Some (S w)) (digits_w (S w) n ++ rest) = Some (n, rest).
Proof.
  intros Hn. pose proof (digits_w_digits (S w) n ltac:(lia)) as Hd.
  pose proof (digits_value w n Hn) as Hv.
  pose proof (digits_w_length (S w) n) as Hlen.
  unfold scan_int. rewrite skip_space_digits by lia. cbn [from_option id].
  destruct (digits_w (S w) n) as [|c l] eqn:E; [done|]. cbn [app].
  change (c :: l ++ rest) with ((c :: l) ++ rest).
  assert (Hc : isdigit c = true) by (by inversion_clear Hd).
  assert (c <> ascii_of_nat 43 /\ c <> ascii_of_nat 45) as [H1 H2] by (split; intros ->; discriminate).
  rewrite decide_False by tauto. rewrite <- Hlen, scan_digits_app, Hv by done.
  by rewrite decide_False.
Qed.

Lemma ndigits_small fuel w n : (1 <= w)%nat -> 0 <= n < 10 ^ Z.of_nat w -> (ndigits fuel n <= w)%nat.
Proof.
  revert w n. induction fuel as [|fuel IH]; intros w n Hw Hn; simpl; [lia|].
  destruct (Z.ltb_spec n 10); [lia|].
  destruct w as [|[|w]]; [lia|cbn in Hn; lia|].
  rewrite Nat2Z.inj_succ, Z.pow_succ_r in Hn by lia.
  specialize (IH (S w) (n / 10) ltac:(lia)). enough (ndigits fuel (n / 10) <= S w)%nat by lia.
  apply IH. zdm.
Qed.

(** A zero-padded field wide enough for its value has exactly its width. *)
Lemma fmt_int_width w n :
  0 <= n < 10 ^ Z.of_nat (S w) -> fmt_int (S w) n = digits_w (S w) n.
Proof.
  intros Hn. unfold fmt_int, fmt_nat. rewrite (proj2 (Z.ltb_ge n 0)) by lia.
  pose proof (ndigits_small 20 (S w) n). f_equal. lia.
Qed.

Lemma fmt_int_length w k n :
  (w <= k)%nat -> (1 <= k)%nat -> 0 <= n < 10 ^ Z.of_nat k -> (length (fmt_int w n) <= k)%nat.
Proof.
  intros Hw Hk Hn. unfold fmt_int, fmt_nat. rewrite (proj2 (Z.ltb_ge n 0)) by lia.
  rewrite digits_w_length. pose proof (ndigits_small 20 k n). lia.
Qed.

Lemma find_char_absent c s : c ∉ s -> find_char c s = None.
Proof.
  induction s as [|x s IH]; [done|]. intros [Hx Hs]%not_elem_of_cons. cbn [find_char].
  by rewrite decide_False, IH by done.
Qed.

Lemma find_char_cut c s1 s2 : c ∉ s1 -> find_char c (s1 ++ c :: s2) = Some (length s1).
Proof.
  induction s1 as [|x s IH]; cbn [app find_char]; [by rewrite decide_True|].
  intros [Hx Hs]%not_elem_of_cons. by rewrite decide_False, IH by done.
Qed.

(** Text before a NUL, and before any text without one. *)
Lemma c_str_app s1 s2 : Forall (fun c => code c <> 0) s1 -> c_str (s1 ++ s2) = s1 ++ c_str s2.
Proof. induction 1 as [|c s1 Hc _ IHs]; [done|]. cbn [app c_str]. by rewrite decide_False, IHs. Qed.
