(* ===== verification/DateTime.v ===== *)
(** * Calendar dates and times: daf/DateTime.h, daf/DateTime.cpp

    [date_time] holds the fields of the ACE_Date_Time base of DAF::Date_Time.
    [JUGDay] and [JUGDate] are the two directions of Algorithm 199; [long] is
    an unbounded integer with C's truncating [/] and [%] ([Z.quot], [Z.rem]):
    the dates the code accepts have years up to 3000, so that no intermediate
    value leaves the 32-bit range.  Everything that can throw returns a
    [result]. *)

From S2P Require Import Prelude.

(** ** Data *)

(** daf/DateTime.h:63-115 [Date_Time]. *)
Record date_time := mkDT {
  dt_day : Z;
  dt_month : Z;
  dt_year : Z;
  dt_hour : Z;
  dt_minute : Z;
  dt_second : Z;
  dt_microsec : Z;
  dt_weekday : Z;
}.

#[export] Instance date_time_eq_dec : EqDecision date_time.
Proof. solve_decision. Defined.

(** daf/DateTime.h:48-56 [WeekDayTy]. *)
Definition SUNDAY : Z := 0.
Definition SATURDAY : Z := 6.
(** daf/DateTime.h:33-46 [MonthTy]. *)
Definition JANUARY : Z := 1.
Definition FEBRUARY : Z := 2.
Definition DECEMBER : Z := 12.

(** Conversion of a [long] to one of the two enumerations and back: both have
    an unsigned 32-bit representation. *)
Definition enum_of_long (d : Z) : Z := d mod 2 ^ 32.

(** daf/DateTime.cpp:44-45 [daysInCalanderMonth]. *)
Definition daysInCalanderMonth : list Z :=
  [0; 31; 28; 31; 30; 31; 30; 31; 31; 30; 31; 30; 31].
(** daf/DateTime.cpp:47-48 [firstDayOfEachMonth]. *)
Definition firstDayOfEachMonth : list Z :=
  [0; 1; 32; 60; 91; 121; 152; 182; 213; 244; 274; 305; 335].

(** Array subscript, for an index the code has range checked. *)
Definition table_at (t : list Z) (i : Z) : Z := t !!! Z.to_nat i.

(** ** Operations *)

Section ops.
Context `{AceMinMax}.

(** daf/DateTime.cpp:50-53 [assertWeekDayRange]. *)
Definition assertWeekDayRange (d : Z) : bool :=
  d =? ace_range SUNDAY SATURDAY (enum_of_long d).
(** daf/DateTime.cpp:55-58 [assertDayRange]. *)
Definition assertDayRange (d : Z) : bool := in_range 1 31 d.
(** daf/DateTime.cpp:60-63 [assertMonthRange]. *)
Definition assertMonthRange (m : Z) : bool :=
  m =? ace_range JANUARY DECEMBER (enum_of_long m).
(** daf/DateTime.cpp:65-68 [assertYearRange]. *)
Definition assertYearRange (y : Z) : bool := in_range 1 3000 y.
(** daf/DateTime.cpp:70-73 [assertHourRange]. *)
Definition assertHourRange (h : Z) : bool := in_range 0 23 h.
(** daf/DateTime.cpp:75-78 [assertMinuteRange]. *)
Definition assertMinuteRange (m : Z) : bool := in_range 0 59 m.
(** daf/DateTime.cpp:80-83 [assertSecondRange]. *)
Definition assertSecondRange (s : Z) : bool := in_range 0 59 s.
(** daf/DateTime.cpp:85-88 [assertMicrosecRange]. *)
Definition assertMicrosecRange (m : Z) : bool := in_range 0 999999 m.

(** daf/DateTime.h:165-169 [Date_Time::isLeapYear]. *)
Definition isLeapYear (year : Z) : bool :=
  if negb (Z.rem year 4 =? 0) then false
  else if negb (Z.rem year 400 =? 0) then negb (Z.rem year 100 =? 0)
  else true.

(** daf/DateTime.h:171-175 [Date_Time::daysInYear]. *)
Definition daysInYear (year : Z) : Z := if isLeapYear year then 366 else 365.

(** daf/DateTime.cpp:327-340 [Date_Time::daysInMonth]. *)
Definition daysInMonth (year month : Z) : result Z :=
  if assertMonthRange month then
    if assertYearRange year then
      let dy := table_at daysInCalanderMonth month in
      if (month =? FEBRUARY) && isLeapYear year then Ok (dy + 1) else Ok dy
    else Throw IllegalArgumentException
  else Throw IllegalArgumentException.

(** daf/DateTime.cpp:342-354 [Date_Time::isDayWithinMonth]. *)
Definition isDayWithinMonth (day month year : Z) : result bool :=
  if assertDayRange day then
    dy ← daysInMonth year month;
    if 0 <? dy then Ok (day <=? dy) else Ok false
  else Ok false.

(** daf/DateTime.cpp:90-105 [assertDateRange]. *)
Definition assertDateRange (dt : date_time) : result bool :=
  within ← isDayWithinMonth (dt_day dt) (dt_month dt) (dt_year dt);
  Ok (if (within : bool) then
        if assertHourRange (dt_hour dt) then
          if assertMinuteRange (dt_minute dt) then
            if assertSecondRange (dt_second dt) then
              assertMicrosecRange (dt_microsec dt)
            else false
          else false
        else false
      else false).

(** daf/DateTime.cpp:191-206 [JUGDay]. Gregorian calendar date to Julian reference day number. *)
Definition JUGDay (d m y : Z) : Z :=
  let '(ma, y) := if 2 <? m then (m - 3, y) else (m + 9, y - 1) in
  let ca := Z.quot y 100 in
  let ya := y - ca * 100 in
  let d := d + Z.quot (ca * 146097) 4 in
  let d := d + Z.quot (ya * 1461) 4 in
  let d := d + Z.quot (ma * 153 + 2) 5 in
  d + 1721119.

(** daf/DateTime.cpp:210-210 [WEEKDay]. *)
Definition abs_long (t : Z) : Z := if 0 <? t then t else - t.

(** daf/DateTime.cpp:208-211 [WEEKDay]. *)
Definition WEEKDay (d : Z) : Z := Z.rem (Z.rem (abs_long (d + 1)) 7 + 7) 7.

(** daf/DateTime.cpp:213-216 [WEEKDay]. *)
Definition WEEKDay3 (d m y : Z) : Z := WEEKDay (JUGDay d m y).

Definition with_weekday (dt : date_time) (w : Z) : date_time :=
  mkDT (dt_day dt) (dt_month dt) (dt_year dt) (dt_hour dt) (dt_minute dt)
       (dt_second dt) (dt_microsec dt) w.

(** daf/DateTime.cpp:221-228 [Date_Time::Date_Time]. The common tail of the constructors: range check, then set the weekday. *)
Definition validated (dt : date_time) : result date_time :=
  ok ← assertDateRange dt;
  if (ok : bool)
  then Ok (with_weekday dt (WEEKDay3 (dt_day dt) (dt_month dt) (dt_year dt)))
  else Throw DateTimeException.

(** daf/DateTime.cpp:253-260 [Date_Time::Date_Time]. *)
Definition Date_Time (d m y hh mm sec usec : Z) : result date_time :=
  validated (mkDT d m y hh mm sec usec 0).

(** The C library's broken-down time, as far as the code reads it. *)
Record tm := mkTm {
  tm_sec : Z; tm_min : Z; tm_hour : Z; tm_mday : Z; tm_mon : Z; tm_year : Z;
}.

(** daf/DateTime.cpp:262-275 [Date_Time::Date_Time]. *)
Definition Date_Time_of_tm (s : tm) (microsec : Z) : result date_time :=
  validated (mkDT (tm_mday s) (tm_mon s + 1) (tm_year s + 1900)
                  (tm_hour s) (tm_min s) (tm_sec s) microsec 0).

(** daf/DateTime.cpp:230-251 [Date_Time::Date_Time]. From a time value; the
    C library's [gmtime], null for a time it cannot represent, is an argument. *)
Definition Date_Time_of_time_value (gmtime : Z -> option tm) (sec usec : Z) : result date_time :=
  match gmtime sec with
  | Some gmt => validated (mkDT (tm_mday gmt) (tm_mon gmt + 1) (tm_year gmt + 1900)
                                (tm_hour gmt) (tm_min gmt) (tm_sec gmt) usec 0)
  | None => Throw DateTimeException
  end.

(** daf/DateTime.cpp:172-186 [JUGDate]. The arithmetic of the inverse algorithm: (day, month, year). *)
Definition jug_civil (jj : Z) : Z * Z * Z :=
  let j := jj - 1721119 in
  let y := Z.quot (j * 4 - 1) 146097 in
  let j := (j * 4 - 1) - y * 146097 in
  let d := Z.quot j 4 in
  let j := Z.quot (d * 4 + 3) 1461 in
  let d := (d * 4 + 3) - j * 1461 in
  let d := Z.quot (d + 4) 4 in
  let m := Z.quot (d * 5 - 3) 153 in
  let d := (d * 5 - 3) - m * 153 in
  let y := 100 * y + j in
  let d := Z.quot (d + 5) 5 in
  let '(m, y) := if m <? 10 then (m + 3, y) else (m - 9, y + 1) in
  (d, m, y).

(** daf/DateTime.cpp:166-189 [JUGDate]. Julian reference day number to Gregorian calendar date. *)
Definition JUGDate (jj hh mm ss us : Z) : result date_time :=
  let '(d, m, y) := jug_civil jj in
  Date_Time d m y hh mm ss us.

Definition jday (dt : date_time) : Z := JUGDay (dt_day dt) (dt_month dt) (dt_year dt).

(** daf/DateTime.cpp:356-373 [Date_Time::operator=]. [operator = (const ACE_Date_Time &)]: the right-hand side's fields, the
    weekday computed again. *)
Definition assign (dt : date_time) : result date_time :=
  ok ← assertDateRange dt;
  if (ok : bool)
  then Ok (with_weekday dt (WEEKDay3 (dt_day dt) (dt_month dt) (dt_year dt)))
  else Throw IllegalArgumentException.

(** daf/DateTime.cpp:375-383 [Date_Time::operator+=]. [operator += (long)] and [operator -= (long)].  The right-hand side is a
    DAF::Date_Time, so [*this = ...] is the implicit copy assignment.  The sum is that of two longs; where it would
    overflow C++ leaves it undefined, and the model is of the other calls. *)
Definition add_days (dt : date_time) (days : Z) : result date_time :=
  JUGDate (jday dt + days) (dt_hour dt) (dt_minute dt) (dt_second dt) (dt_microsec dt).

(** daf/DateTime.cpp:385-393 [Date_Time::operator-=]. *)
Definition sub_days (dt : date_time) (days : Z) : result date_time :=
  JUGDate (jday dt - days) (dt_hour dt) (dt_minute dt) (dt_second dt) (dt_microsec dt).

(** daf/DateTime.h:187-190 [operator_plus]. *)
Definition date_plus (dt : date_time) (days : Z) : result date_time :=
  dt ← validated dt; add_days dt days.

(** daf/DateTime.h:192-195 [operator_minus]. *)
Definition date_minus (dt : date_time) (days : Z) : result date_time :=
  dt ← validated dt; sub_days dt days.

(** daf/DateTime.cpp:416-427 [Date_Time::next]. *)
Definition next (dt : date_time) (d : Z) : result date_time :=
  let jDay := jday dt in
  if assertWeekDayRange d then
    JUGDate (jDay + Z.rem (6 + d - WEEKDay jDay) 7 + 1)
            (dt_hour dt) (dt_minute dt) (dt_second dt) (dt_microsec dt)
  else Throw IllegalArgumentException.

(** daf/DateTime.cpp:429-440 [Date_Time::prev]. *)
Definition prev (dt : date_time) (d : Z) : result date_time :=
  let jDay := jday dt in
  if assertWeekDayRange d then
    JUGDate (jDay - Z.rem (6 + WEEKDay jDay - d) 7 - 1)
            (dt_hour dt) (dt_minute dt) (dt_second dt) (dt_microsec dt)
  else Throw IllegalArgumentException.

(** daf/DateTime.cpp:312-319 [Date_Time::operator_ACE_Time_Value]. [operator ACE_Time_Value]: seconds since the epoch and microseconds. *)
Definition to_time_value (dt : date_time) : Z * Z :=
  let jd := jday dt - 2440588 in
  let ds := 86400 * jd in
  let hs := 3600 * dt_hour dt in
  let ms := 60 * dt_minute dt in
  (ds + hs + ms + dt_second dt, dt_microsec dt).

(** daf/DateTime.cpp:321-325 [Date_Time::julianDay]. *)
Definition julianDay (dt : date_time) : Z :=
  jday dt - JUGDay 31 DECEMBER (dt_year dt - 1).

(** daf/DateTime.cpp:442-457 [Date_Time::firstDayOfMonth]. *)
Definition firstDayOfMonth (dt : date_time) (month : Z) : result Z :=
  if assertMonthRange month then
    let dy := table_at firstDayOfEachMonth month in
    if (FEBRUARY <? month) && isLeapYear (dt_year dt) then Ok (dy + 1) else Ok dy
  else Throw IllegalArgumentException.

(** daf/DateTime.cpp:401-410 [Date_Time::compare_to]. One arm of the switch of [compare_to]. *)
Definition compare_field (a b : Z) : Z :=
  if a <? b then -1 else if b <? a then 1 else 0.

(** daf/DateTime.cpp:400-413 [Date_Time::compare_to]. The do-while loop: the first arm with a non-zero result, or case 7. *)
Fixpoint compare_loop (arms : list Z) : Z :=
  match arms with
  | [] => 0
  | rtn :: arms => if rtn =? 0 then compare_loop arms else rtn
  end.

(** daf/DateTime.cpp:395-414 [Date_Time::compare_to]. *)
Definition compare_to (a b : date_time) : Z :=
  compare_loop
    [ compare_field (dt_year a) (dt_year b);
      compare_field (dt_month a) (dt_month b);
      compare_field (dt_day a) (dt_day b);
      compare_field (dt_hour a) (dt_hour b);
      compare_field (dt_minute a) (dt_minute b);
      compare_field (dt_second a) (dt_second b);
      compare_field (dt_microsec a) (dt_microsec b) ].

(** daf/DateTime.cpp:459-463 [Date_Time::msecs]. *)
Definition msecs (dt : date_time) : Z :=
  let '(sec, usec) := to_time_value dt in
  sec * 1000 + Z.quot usec 1000.
End ops.

(** ** Reference calendar *)

(** Leap years and month lengths as a calendar states them. *)
Definition leap (y : Z) : bool :=
  (y mod 4 =? 0) && (negb (y mod 100 =? 0) || (y mod 400 =? 0)).

Definition month_len (y m : Z) : Z :=
  if m =? 2 then if leap y then 29 else 28
  else if (m =? 4) || (m =? 6) || (m =? 9) || (m =? 11) then 30 else 31.

(** A date of the proleptic Gregorian calendar, from year 1 on; the code
    restricts itself to the years up to 3000. *)
Definition calendar (d m y : Z) : bool :=
  (1 <=? y) && (1 <=? m) && (m <=? 12) && (1 <=? d) && (d <=? month_len y m).

Definition valid_date (d m y : Z) : bool := calendar d m y && (y <=? 3000).

Definition valid_time (hh mm ss us : Z) : bool :=
  (0 <=? hh) && (hh <=? 23) && (0 <=? mm) && (mm <=? 59)
  && (0 <=? ss) && (ss <=? 59) && (0 <=? us) && (us <=? 999999).

Definition valid (dt : date_time) : bool :=
  valid_date (dt_day dt) (dt_month dt) (dt_year dt)
  && valid_time (dt_hour dt) (dt_minute dt) (dt_second dt) (dt_microsec dt).

(** Days of the months before [m], and of the years before [y]. *)
Fixpoint days_before_month (y : Z) (k : nat) : Z :=
  match k with
  | O => 0
  | S k => days_before_month y k + month_len y (Z.of_nat (S k))
  end.

Fixpoint days_before_year (k : nat) : Z :=
  match k with
  | O => 0
  | S k => days_before_year k + (if leap (Z.of_nat (S k)) then 366 else 365)
  end.

(** The day number of a date by counting days from 1 January of year 1. *)
Definition ref_day (d m y : Z) : Z :=
  days_before_year (Z.to_nat (y - 1)) + days_before_month y (Z.to_nat (m - 1)) + d.

(** Closed forms of the two sums, used by the proofs below. *)
Definition year_start (y : Z) : Z :=
  365 * (y - 1) + (y - 1) / 4 - (y - 1) / 100 + (y - 1) / 400.

Definition month_start (y m : Z) : Z :=
  table_at firstDayOfEachMonth m - 1 + (if (2 <? m) && leap y then 1 else 0).

(** Julian day number of 31 December of the year before year 1. *)
Definition EPOCH : Z := 1721425.

(** ** The calendar arithmetic *)

Lemma leap_true y : leap y = true <-> y mod 4 = 0 /\ (y mod 100 <> 0 \/ y mod 400 = 0).
Proof. unfold leap. bcase; simpl; split; intros; try easy; lia. Qed.

Lemma leap_false y : leap y = false <-> y mod 4 <> 0 \/ (y mod 100 = 0 /\ y mod 400 <> 0).
Proof. unfold leap. bcase; simpl; split; intros; try easy; lia. Qed.

Lemma isLeapYear_spec y : 0 <= y -> isLeapYear y = leap y.
Proof.
  intros Hy. unfold isLeapYear, leap.
  rewrite !Z.rem_mod_nonneg by lia.
  destruct (Z.eqb_spec (y mod 4) 0), (Z.eqb_spec (y mod 100) 0), (Z.eqb_spec (y mod 400) 0);
    simpl; try reflexivity; exfalso; zdm.
Qed.

Lemma calendar_iff d m y :
  calendar d m y = true <-> 1 <= y /\ 1 <= m <= 12 /\ 1 <= d <= month_len y m.
Proof. unfold calendar. rewrite !andb_true_iff, !Z.leb_le. lia. Qed.

Lemma valid_date_iff d m y :
  valid_date d m y = true <-> 1 <= y <= 3000 /\ 1 <= m <= 12 /\ 1 <= d <= month_len y m.
Proof. unfold valid_date. rewrite andb_true_iff, calendar_iff, Z.leb_le. lia. Qed.

Lemma valid_date_calendar d m y : valid_date d m y = true -> calendar d m y = true.
Proof. unfold valid_date. rewrite andb_true_iff. tauto. Qed.

(** Case analysis on a month. *)
Lemma month_cases m (P : Z -> Prop) :
  P 1 -> P 2 -> P 3 -> P 4 -> P 5 -> P 6 -> P 7 -> P 8 -> P 9 -> P 10 -> P 11 -> P 12 ->
  1 <= m <= 12 -> P m.
Proof.
  intros. assert (m = 1 \/ m = 2 \/ m = 3 \/ m = 4 \/ m = 5 \/ m = 6 \/ m = 7 \/ m = 8
    \/ m = 9 \/ m = 10 \/ m = 11 \/ m = 12) as Hm by lia.
  repeat destruct Hm as [->|Hm]; try assumption. subst m. assumption.
Qed.

Ltac by_month m :=
  pattern m; apply month_cases;
  cbn -[Z.quot Z.mul Z.add Z.sub leap]; [..|assumption || lia].

Lemma month_len_bounds y m : 28 <= month_len y m <= 31.
Proof. unfold month_len. bcase; try destruct (leap y); simpl; lia. Qed.

(** Algorithm 199 counts years from March.  [civil_year] and [civil_rest]
    recover the century, the year of the century and the day [D] of the March
    year; [civil_month] recovers month and day from [D]. *)
Lemma civil_year ca ya D :
  0 <= ca -> 0 <= ya < 100 -> 1 <= D <= 366 ->
  (D = 366 -> leap (100 * ca + ya + 1) = true) ->
  let j := Z.quot (ca * 146097) 4 + Z.quot (ya * 1461) 4 + D in
  Z.quot (j * 4 - 1) 146097 = ca.
Proof.
  intros Hca Hya HD Hl j. subst j. rewrite leap_true in Hl.
  rewrite !Z.quot_div_nonneg by (zdm || lia).
  zdm.
Qed.

Lemma civil_rest ca ya D :
  0 <= ca -> 0 <= ya < 100 -> 1 <= D <= 366 ->
  (D = 366 -> leap (100 * ca + ya + 1) = true) ->
  let j := Z.quot (ca * 146097) 4 + Z.quot (ya * 1461) 4 + D in
  let d1 := Z.quot (j * 4 - 1 - ca * 146097) 4 in
  Z.quot (d1 * 4 + 3) 1461 = ya /\ Z.quot (d1 * 4 + 3 - ya * 1461 + 4) 4 = D.
Proof.
  intros Hca Hya HD Hl j d1. subst d1 j. rewrite leap_true in Hl.
  rewrite (Z.quot_div_nonneg (ca * 146097)), (Z.quot_div_nonneg (ya * 1461)) by lia.
  split; zdm.
Qed.

Definition march_month (m : Z) : Z := if 2 <? m then m - 3 else m + 9.
Definition march_year (m y : Z) : Z := if 2 <? m then y else y - 1.
Definition march_day (d m : Z) : Z := Z.quot (march_month m * 153 + 2) 5 + d.

Lemma civil_month d m y :
  1 <= m <= 12 -> 1 <= d <= month_len y m ->
  1 <= march_day d m <= 366
  /\ (march_day d m = 366 -> leap (march_year m y + 1) = true)
  /\ Z.quot (march_day d m * 5 - 3) 153 = march_month m
  /\ Z.quot (march_day d m * 5 - 3 - march_month m * 153 + 5) 5 = d
  /\ (if march_month m <? 10
      then (march_month m + 3, march_year m y)
      else (march_month m - 9, march_year m y + 1)) = (m, y).
Proof.
  intros Hm [Hd1 Hd2]. revert Hd2. unfold march_day, march_month, march_year.
  by_month m; rewrite ?Z.sub_add; destruct (leap y); intros Hd;
    (split; [zdm|]); (split; [try zdm; intros; try reflexivity|]);
    (split; [zdm|]); (split; [zdm|f_equal; lia]).
Qed.

Lemma jug_civil_JUGDay d m y :
  calendar d m y = true -> jug_civil (JUGDay d m y) = (d, m, y).
Proof.
  rewrite calendar_iff. intros (Hy & Hm & Hd).
  destruct (civil_month d m y Hm Hd) as (HD1 & HD2 & HD3 & HD4 & HD5).
  set (y' := march_year m y) in *. set (ma := march_month m) in *. set (D := march_day d m) in *.
  set (ca := Z.quot y' 100). set (ya := y' - ca * 100).
  assert (Hjug : JUGDay d m y
    = Z.quot (ca * 146097) 4 + Z.quot (ya * 1461) 4 + D + 1721119).
  { unfold JUGDay, D, march_day, ya, ca, y', march_year, march_month.
    destruct (2 <? m); cbv zeta; lia. }
  assert (0 <= y') by (unfold y', march_year; bcase; lia).
  assert (0 <= ca) by (unfold ca; zdm).
  assert (0 <= ya < 100) by (unfold ya, ca; zdm).
  replace (y' + 1) with (100 * ca + ya + 1) in HD2 by (unfold ya; lia).
  pose proof (civil_year ca ya D) as E1. pose proof (civil_rest ca ya D) as E2.
  cbv zeta in E1, E2. unfold jug_civil. rewrite Hjug, Z.add_simpl_r. cbv zeta.
  rewrite E1 by auto. destruct E2 as [-> ->]; auto.
  rewrite HD3, HD4. replace (100 * ca + ya) with y' by (unfold ya; lia).
  destruct (ma <? 10); injection HD5 as -> ->; reflexivity.
Qed.

(** Evaluate the table entries at a concrete index. *)
Ltac eval_tables :=
  repeat match goal with
  | |- context [table_at ?t ?i] =>
      let v := eval vm_compute in (table_at t i) in
      match v with Zpos _ => change (table_at t i) with v | Z0 => change (table_at t i) with v end
  end.
(** The first two terms of Algorithm 199 count the days of the March years. *)
Lemma march_start_closed y' :
  0 <= y' ->
  let ca := Z.quot y' 100 in
  Z.quot (ca * 146097) 4 + Z.quot ((y' - ca * 100) * 1461) 4
  = 365 * y' + y' / 4 - y' / 100 + y' / 400.
Proof.
  intros Hy ca. subst ca.
  rewrite (Z.quot_div_nonneg y') by lia.
  rewrite !Z.quot_div_nonneg by zdm. zdm.
Qed.

(** Algorithm 199 in closed form. *)
Lemma JUGDay_closed d m y :
  1 <= y -> 1 <= m <= 12 ->
  JUGDay d m y = EPOCH + year_start y + month_start y m + d.
Proof.
  intros Hy Hm.
  assert (JUGDay d m y = 1721119 + (365 * march_year m y + march_year m y / 4
    - march_year m y / 100 + march_year m y / 400) + march_day d m) as ->.
  { rewrite <- march_start_closed by (unfold march_year; bcase; lia).
    unfold JUGDay, march_year, march_day, march_month. destruct (2 <? m); cbv zeta; lia. }
  unfold month_start, year_start, EPOCH, march_year, march_day, march_month.
  by_month m; destruct (leap y) eqn:Hl;
    (rewrite leap_true in Hl || rewrite leap_false in Hl); eval_tables; zdm.
Qed.
(** Consecutive year starts differ by the length of the year. *)
Lemma year_start_succ y : 1 <= y -> year_start (y + 1) = year_start y + (if leap y then 366 else 365).
Proof.
  intros Hy. unfold year_start. destruct (leap y) eqn:Hl;
    (rewrite leap_true in Hl || rewrite leap_false in Hl); zdm.
Qed.

Lemma year_start_lt y1 y2 : 1 <= y1 -> y1 < y2 -> year_start (y1 + 1) <= year_start y2.
Proof. intros. unfold year_start. zdm. Qed.

Lemma month_start_succ y m :
  1 <= m < 12 -> month_start y (m + 1) = month_start y m + month_len y m.
Proof.
  intros Hm. unfold month_start.
  assert (m < 12) as H12 by lia. revert H12. by_month m; eval_tables; destruct (leap y); simpl; lia.
Qed.

Lemma month_start_lt y m1 m2 :
  1 <= m1 -> m1 < m2 -> m2 <= 12 -> month_start y m1 + month_len y m1 <= month_start y m2.
Proof.
  intros H1 H2 H3. assert (1 <= m1 <= 12) as Hm1 by lia.
  assert (1 <= m2 <= 12) as Hm2 by lia. unfold month_start. revert H2.
  by_month m1; by_month m2; eval_tables; destruct (leap y); lia.
Qed.

Lemma month_start_bounds y m :
  1 <= m <= 12 ->
  0 <= month_start y m /\ month_start y m + month_len y m <= (if leap y then 366 else 365).
Proof.
  intros Hm. unfold month_start. by_month m; eval_tables; destruct (leap y); lia.
Qed.

(** The day after a calendar date. *)
Definition next_day (d m y : Z) : Z * Z * Z :=
  if d <? month_len y m then (d + 1, m, y)
  else if m <? 12 then (1, m + 1, y)
  else (1, 1, y + 1).

Lemma next_day_calendar d m y :
  calendar d m y = true ->
  let '(d', m', y') := next_day d m y in
  calendar d' m' y' = true /\ JUGDay d' m' y' = JUGDay d m y + 1.
Proof.
  rewrite calendar_iff. intros (Hy & Hm & Hd). unfold next_day.
  assert (Hlen := month_len_bounds y (m + 1)). assert (Hlen1 := month_len_bounds (y + 1) 1).
  destruct (Z.ltb_spec d (month_len y m)); [|destruct (Z.ltb_spec m 12)];
    rewrite calendar_iff, !JUGDay_closed by lia; (split; [lia|]).
  - lia.
  - rewrite month_start_succ by lia. lia.
  - assert (m = 12) as -> by lia. rewrite year_start_succ by lia.
    assert (d = 31) as -> by (change (month_len y 12) with 31 in *; lia).
    unfold month_start. eval_tables. simpl. destruct (leap y); lia.
Qed.

(** Every day number from 1 January of year 1 on is that of a date. *)
Lemma JUGDay_onto jj :
  EPOCH + 1 <= jj ->
  exists d m y, calendar d m y = true /\ JUGDay d m y = jj.
Proof.
  intros H. replace jj with (EPOCH + 1 + Z.of_nat (Z.to_nat (jj - (EPOCH + 1)))) by lia.
  induction (Z.to_nat (jj - (EPOCH + 1))) as [|n (d & m & y & Hc & Hj)].
  - exists 1, 1, 1. split; reflexivity.
  - pose proof (next_day_calendar d m y Hc) as Hn.
    destruct (next_day d m y) as [[d' m'] y']. exists d', m', y'.
    destruct Hn as [? ->]. split; [assumption|lia].
Qed.

Lemma JUGDay_jug_civil jj d m y :
  EPOCH + 1 <= jj -> jug_civil jj = (d, m, y) ->
  calendar d m y = true /\ JUGDay d m y = jj.
Proof.
  intros Hjj Hc. destruct (JUGDay_onto jj Hjj) as (d' & m' & y' & Hcal & Hj).
  rewrite <- Hj, jug_civil_JUGDay in Hc by assumption. injection Hc as <- <- <-. auto.
Qed.

(** A date lies within its year. *)
Lemma JUGDay_year d m y :
  calendar d m y = true ->
  EPOCH + year_start y + 1 <= JUGDay d m y <= EPOCH + year_start (y + 1).
Proof.
  rewrite calendar_iff. intros (Hy & Hm & Hd).
  rewrite JUGDay_closed, year_start_succ by lia.
  pose proof (month_start_bounds y m Hm). destruct (leap y); lia.
Qed.

Lemma calendar_epoch d m y : calendar d m y = true -> EPOCH + 1 <= JUGDay d m y.
Proof.
  intros Hc. pose proof (JUGDay_year d m y Hc). apply calendar_iff in Hc as [Hy _].
  assert (0 <= year_start y) by (unfold year_start; zdm). lia.
Qed.

(** The last day of the supported range, 31 December 3000. *)
Definition LAST_DAY : Z := JUGDay 31 12 3000.

Lemma JUGDay_last d m y :
  calendar d m y = true -> (JUGDay d m y <= LAST_DAY <-> y <= 3000).
Proof.
  intros Hc. pose proof (JUGDay_year d m y Hc) as Hb. apply calendar_iff in Hc as [Hy _].
  change LAST_DAY with (EPOCH + year_start 3001).
  split; intros H.
  - destruct (Z.le_gt_cases y 3000); [assumption|].
    destruct (Z.eq_dec y 3001) as [->|]; [lia|].
    pose proof (year_start_lt 3001 y). unfold year_start in *. zdm.
  - destruct (Z.eq_dec y 3000) as [->|]; [change (3000 + 1) with 3001 in Hb; lia|].
    pose proof (year_start_lt y 3001). lia.
Qed.

(** The day number orders the dates as year, month, day do. *)
Lemma JUGDay_lt d1 m1 y1 d2 m2 y2 :
  calendar d1 m1 y1 = true -> calendar d2 m2 y2 = true ->
  y1 < y2 \/ (y1 = y2 /\ (m1 < m2 \/ (m1 = m2 /\ d1 < d2))) ->
  JUGDay d1 m1 y1 < JUGDay d2 m2 y2.
Proof.
  intros H1 H2 [Hy|[-> [Hm|[-> Hd]]]].
  - pose proof (JUGDay_year _ _ _ H1). pose proof (JUGDay_year _ _ _ H2).
    apply calendar_iff in H1. pose proof (year_start_lt y1 y2). lia.
  - apply calendar_iff in H1, H2. rewrite !JUGDay_closed by lia.
    pose proof (month_start_lt y2 m1 m2). lia.
  - apply calendar_iff in H1, H2. rewrite !JUGDay_closed by lia. lia.
Qed.

(** ** The weekday *)

Lemma WEEKDay_spec j : -1 <= j -> WEEKDay j = (j + 1) mod 7.
Proof.
  intros Hj. unfold WEEKDay. assert (abs_long (j + 1) = j + 1) as ->.
  { unfold abs_long. bcase; lia. }
  rewrite (Z.rem_mod_nonneg (j + 1)) by lia.
  pose proof (Z.mod_pos_bound (j + 1) 7 ltac:(lia)).
  rewrite (Z.rem_mod_nonneg ((j + 1) mod 7 + 7)) by lia.
  replace ((j + 1) mod 7 + 7) with ((j + 1) mod 7 + 1 * 7) by lia.
  rewrite Z.mod_add by discriminate. apply Z.mod_mod. discriminate.
Qed.

Lemma WEEKDay_range j : -1 <= j -> 0 <= WEEKDay j <= 6.
Proof. intros Hj. rewrite WEEKDay_spec by lia.
  pose proof (Z.mod_pos_bound (j + 1) 7 ltac:(lia)). lia. Qed.

(** ** The reference sums *)

Lemma days_before_year_closed k : days_before_year k = year_start (Z.of_nat k + 1).
Proof.
  induction k as [|k IH]; [reflexivity|].
  cbn [days_before_year]. rewrite IH.
  replace (Z.of_nat (S k) + 1) with (Z.of_nat k + 1 + 1) by lia.
  rewrite (year_start_succ (Z.of_nat k + 1)) by lia. rewrite Nat2Z.inj_succ. unfold Z.succ. reflexivity.
Qed.

Lemma days_before_month_closed y k :
  (k < 12)%nat -> days_before_month y k = month_start y (Z.of_nat k + 1).
Proof.
  induction k as [|k IH]; intros Hk; [reflexivity|].
  cbn [days_before_month]. rewrite IH by lia.
  replace (Z.of_nat (S k) + 1) with (Z.of_nat k + 1 + 1) by lia.
  rewrite (month_start_succ y (Z.of_nat k + 1)) by lia.
  rewrite Nat2Z.inj_succ. unfold Z.succ. reflexivity.
Qed.

(** ** Checks, constructors and the operations on days *)

Section laws.
Context `{AceMinMaxLaws}.

Lemma assertMonthRange_spec m : assertMonthRange m = (1 <=? m) && (m <=? 12).
Proof.
  unfold assertMonthRange, JANUARY, DECEMBER, enum_of_long. rewrite ace_range_spec.
  bcase; simpl; zdm.
Qed.

Lemma assertWeekDayRange_spec d : assertWeekDayRange d = (0 <=? d) && (d <=? 6).
Proof.
  unfold assertWeekDayRange, SUNDAY, SATURDAY, enum_of_long. rewrite ace_range_spec.
  bcase; simpl; zdm.
Qed.

Lemma daysInMonth_spec y m :
  daysInMonth y m =
  if (1 <=? m) && (m <=? 12) && (1 <=? y) && (y <=? 3000)
  then Ok (month_len y m) else Throw IllegalArgumentException.
Proof.
  unfold daysInMonth, assertYearRange. rewrite assertMonthRange_spec, in_range_spec by lia.
  destruct (Z.leb_spec 1 m), (Z.leb_spec m 12), (Z.leb_spec 1 y), (Z.leb_spec y 3000);
    simpl; try reflexivity.
  rewrite isLeapYear_spec by lia. unfold month_len, FEBRUARY.
  assert (Hm : 1 <= m <= 12) by lia. by_month m; try destruct (leap y); reflexivity.
Qed.

(** Whether the date part of a value passes the range check, and what the
    check throws when the day is plausible but month or year are not. *)
Definition date_check (d m y : Z) : result bool :=
  if (1 <=? d) && (d <=? 31) then
    if (1 <=? m) && (m <=? 12) && (1 <=? y) && (y <=? 3000)
    then Ok (d <=? month_len y m) else Throw IllegalArgumentException
  else Ok false.

Lemma isDayWithinMonth_spec d m y : isDayWithinMonth d m y = date_check d m y.
Proof.
  unfold isDayWithinMonth, date_check, assertDayRange.
  rewrite in_range_spec, daysInMonth_spec by lia.
  destruct ((1 <=? d) && (d <=? 31)); [|reflexivity].
  destruct ((1 <=? m) && (m <=? 12) && (1 <=? y) && (y <=? 3000)); [|reflexivity].
  simpl. pose proof (month_len_bounds y m). bcase; reflexivity || lia.
Qed.

Lemma date_check_valid d m y : date_check d m y = Ok true <-> valid_date d m y = true.
Proof.
  rewrite valid_date_iff. unfold date_check.
  pose proof (month_len_bounds y m).
  destruct (Z.leb_spec 1 d), (Z.leb_spec d 31), (Z.leb_spec 1 m), (Z.leb_spec m 12),
    (Z.leb_spec 1 y), (Z.leb_spec y 3000), (Z.leb_spec d (month_len y m)); simpl;
    split; intros; try easy; lia.
Qed.

Lemma assertDateRange_spec dt :
  assertDateRange dt =
  (within ← date_check (dt_day dt) (dt_month dt) (dt_year dt);
   Ok (within && valid_time (dt_hour dt) (dt_minute dt) (dt_second dt) (dt_microsec dt))).
Proof.
  unfold assertDateRange. rewrite isDayWithinMonth_spec.
  destruct (date_check _ _ _) as [[]|]; simpl; try reflexivity. f_equal.
  unfold assertHourRange, assertMinuteRange, assertSecondRange, assertMicrosecRange, valid_time.
  rewrite !in_range_spec by lia. bcase; reflexivity.
Qed.

Lemma assertDateRange_valid dt : assertDateRange dt = Ok true <-> valid dt = true.
Proof.
  rewrite assertDateRange_spec, rbind_Ok. unfold valid.
  rewrite andb_true_iff, <- date_check_valid. split.
  - intros ([] & Ha & [= Ht]); auto.
  - intros [Hd Ht]. exists true. rewrite Ht. auto.
Qed.

Lemma Date_Time_valid d m y hh mm ss us :
  valid_date d m y = true -> valid_time hh mm ss us = true ->
  Date_Time d m y hh mm ss us = Ok (mkDT d m y hh mm ss us (WEEKDay (JUGDay d m y))).
Proof.
  intros Hd Ht. unfold Date_Time, validated.
  rewrite (proj2 (assertDateRange_valid _)); [reflexivity|].
  unfold valid. simpl. rewrite Hd, Ht. reflexivity.
Qed.

Lemma validated_Ok dt r :
  validated dt = Ok r <->
  valid dt = true /\ r = with_weekday dt (WEEKDay3 (dt_day dt) (dt_month dt) (dt_year dt)).
Proof.
  unfold validated. rewrite rbind_Ok, <- assertDateRange_valid. split.
  - intros ([] & Ha & [= <-]); auto.
  - intros [Ha ->]. exists true. auto.
Qed.
End laws.

(** A valid date-time whose weekday is the one the constructors set. *)
Definition well_formed (dt : date_time) : Prop :=
  valid dt = true /\ dt_weekday dt = WEEKDay (jday dt).

(** The time-of-day fields. *)
Definition time_of (dt : date_time) : Z * Z * Z * Z :=
  (dt_hour dt, dt_minute dt, dt_second dt, dt_microsec dt).

Lemma valid_calendar dt :
  valid dt = true -> calendar (dt_day dt) (dt_month dt) (dt_year dt) = true.
Proof. unfold valid. rewrite andb_true_iff. intros [Hd _]. by apply valid_date_calendar. Qed.

Lemma valid_time_of dt :
  valid dt = true ->
  valid_time (dt_hour dt) (dt_minute dt) (dt_second dt) (dt_microsec dt) = true.
Proof. unfold valid. rewrite andb_true_iff. tauto. Qed.

Lemma valid_epoch dt : valid dt = true -> EPOCH + 1 <= jday dt.
Proof. intros Hv. apply calendar_epoch, valid_calendar, Hv. Qed.

Lemma valid_last dt : valid dt = true -> jday dt <= LAST_DAY.
Proof.
  intros Hv. pose proof (valid_calendar dt Hv) as Hc. apply (JUGDay_last _ _ _ Hc).
  unfold valid in Hv. rewrite andb_true_iff, valid_date_iff in Hv. lia.
Qed.

Section days.
Context `{AceMinMaxLaws}.

(** What a day number turns into, on both sides of the year limit. *)
Lemma JUGDate_spec jj hh mm ss us :
  EPOCH + 1 <= jj -> valid_time hh mm ss us = true ->
  match JUGDate jj hh mm ss us with
  | Ok r => jj <= LAST_DAY /\ well_formed r /\ jday r = jj /\ time_of r = (hh, mm, ss, us)
  | Throw e => LAST_DAY < jj /\ e = IllegalArgumentException
  end.
Proof.
  intros Hjj Ht. unfold JUGDate.
  destruct (jug_civil jj) as [[d m] y] eqn:Hc.
  destruct (JUGDay_jug_civil _ _ _ _ Hjj Hc) as [Hcal Hj].
  pose proof (JUGDay_last d m y Hcal) as Hlast. rewrite Hj in Hlast.
  destruct (Z.le_gt_cases y 3000) as [Hy|Hy].
  - assert (Hv : valid_date d m y = true).
    { unfold valid_date. rewrite Hcal. simpl. by apply Z.leb_le. }
    rewrite Date_Time_valid by assumption. unfold well_formed, jday, time_of, valid. simpl.
    rewrite Hv, Ht. intuition lia.
  - unfold Date_Time, validated. rewrite assertDateRange_spec. simpl. unfold date_check.
    apply calendar_iff in Hcal. pose proof (month_len_bounds y m).
    rewrite (proj2 (Z.leb_le 1 d)), (proj2 (Z.leb_le d 31)), (proj2 (Z.leb_le 1 m)),
      (proj2 (Z.leb_le m 12)), (proj2 (Z.leb_le 1 y)), (proj2 (Z.leb_gt y 3000)) by lia.
    simpl. split; [|reflexivity]. destruct Hlast as [Hl _]. lia.
Qed.

Lemma well_formed_eq r dt :
  well_formed r -> well_formed dt -> jday r = jday dt -> time_of r = time_of dt -> r = dt.
Proof.
  intros [Hr Hrw] [Hd Hdw] Hj Ht.
  pose proof (jug_civil_JUGDay _ _ _ (valid_calendar r Hr)) as E1.
  pose proof (jug_civil_JUGDay _ _ _ (valid_calendar dt Hd)) as E2.
  rewrite <- Hj in Hdw. unfold jday in *. rewrite Hj, E2 in E1.
  destruct r, dt; unfold time_of in Ht; simpl in *. congruence.
Qed.
End days.

(** The steps of [next] and [prev]: the distance to the weekday [d]. *)
Lemma weekday_after j d :
  0 <= j -> 0 <= d -> d <= 6 ->
  let k := Z.rem (6 + d - WEEKDay j) 7 + 1 in
  1 <= k <= 7 /\ WEEKDay (j + k) = d /\ (forall i, j < i < j + k -> WEEKDay i <> d).
Proof.
  intros Hj Hd1 Hd2 k. pose proof (WEEKDay_range j ltac:(lia)) as HW.
  assert (Hk : 1 <= k <= 7)
    by (unfold k; pose proof (Z.rem_bound_pos (6 + d - WEEKDay j) 7); lia).
  split; [assumption|]. unfold k in *. rewrite !WEEKDay_spec in * by lia.
  split; [zdm|]. intros i Hi. rewrite WEEKDay_spec by lia. zdm.
Qed.

Lemma weekday_before j d :
  7 <= j -> 0 <= d -> d <= 6 ->
  let k := Z.rem (6 + WEEKDay j - d) 7 + 1 in
  1 <= k <= 7 /\ WEEKDay (j - k) = d /\ (forall i, j - k < i < j -> WEEKDay i <> d).
Proof.
  intros Hj Hd1 Hd2 k. pose proof (WEEKDay_range j ltac:(lia)) as HW.
  assert (Hk : 1 <= k <= 7)
    by (unfold k; pose proof (Z.rem_bound_pos (6 + WEEKDay j - d) 7); lia).
  split; [assumption|]. unfold k in *. rewrite !WEEKDay_spec in * by lia.
  split; [zdm|]. intros i Hi. rewrite WEEKDay_spec by lia. zdm.
Qed.

Lemma compare_loop_cons a b arms :
  compare_loop (compare_field a b :: arms) =
  if a <? b then -1 else if b <? a then 1 else compare_loop arms.
Proof. unfold compare_field. destruct (a <? b), (b <? a); reflexivity. Qed.

(** The absolute time in microseconds that [operator ACE_Time_Value] denotes. *)
Definition total_usec (dt : date_time) : Z :=
  let '(sec, usec) := to_time_value dt in sec * 1000000 + usec.

Lemma valid_time_iff hh mm ss us :
  valid_time hh mm ss us = true <->
  0 <= hh <= 23 /\ 0 <= mm <= 59 /\ 0 <= ss <= 59 /\ 0 <= us <= 999999.
Proof. unfold valid_time. rewrite !andb_true_iff, !Z.leb_le. lia. Qed.

(** Day numbers compare as the dates do. *)
Lemma JUGDay_compare d1 m1 y1 d2 m2 y2 :
  calendar d1 m1 y1 = true -> calendar d2 m2 y2 = true ->
  (y1 < y2 -> JUGDay d1 m1 y1 < JUGDay d2 m2 y2)
  /\ (y2 < y1 -> JUGDay d2 m2 y2 < JUGDay d1 m1 y1)
  /\ (y1 = y2 -> m1 < m2 -> JUGDay d1 m1 y1 < JUGDay d2 m2 y2)
  /\ (y1 = y2 -> m2 < m1 -> JUGDay d2 m2 y2 < JUGDay d1 m1 y1)
  /\ (y1 = y2 -> m1 = m2 -> JUGDay d1 m1 y1 - JUGDay d2 m2 y2 = d1 - d2).
Proof.
  intros H1 H2.
  split_and!; intros; try (apply JUGDay_lt; auto; lia).
  subst. apply calendar_iff in H1, H2. rewrite !JUGDay_closed by lia. lia.
Qed.

(** 31 December of the year before. *)
Lemma JUGDay_year_end y : 1 <= y -> JUGDay 31 DECEMBER (y - 1) = EPOCH + year_start y.
Proof.
  intros Hy. destruct (Z.eq_dec y 1) as [->|]; [reflexivity|].
  unfold DECEMBER. rewrite JUGDay_closed by lia.
  pose proof (year_start_succ (y - 1) ltac:(lia)) as E. rewrite Z.sub_add in E. rewrite E.
  unfold month_start. eval_tables. simpl. destruct (leap (y - 1)); lia.
Qed.

(** The day number against the count of days, and its injectivity. *)
Lemma JUGDay_ref_day d m y :
  calendar d m y = true -> JUGDay d m y = EPOCH + ref_day d m y.
Proof.
  rewrite calendar_iff. intros (Hy & Hm & Hd). rewrite JUGDay_closed by lia.
  unfold ref_day. rewrite days_before_year_closed, days_before_month_closed by lia.
  replace (Z.of_nat (Z.to_nat (y - 1)) + 1) with y by lia.
  replace (Z.of_nat (Z.to_nat (m - 1)) + 1) with m by lia. lia.
Qed.

Lemma ref_day_inj d1 m1 y1 d2 m2 y2 :
  calendar d1 m1 y1 = true -> calendar d2 m2 y2 = true ->
  ref_day d1 m1 y1 = ref_day d2 m2 y2 -> (d1, m1, y1) = (d2, m2, y2).
Proof.
  intros H1 H2 E. pose proof (JUGDay_ref_day _ _ _ H1). pose proof (JUGDay_ref_day _ _ _ H2).
  rewrite <- (jug_civil_JUGDay _ _ _ H1), <- (jug_civil_JUGDay _ _ _ H2). f_equal. lia.
Qed.

(** The day count of 1 January 1970. *)
Definition UNIX_DAY : Z := 719163.

(** What the C library documents of [gmtime]: the broken-down UTC time, whose
    fields are in range and denote the seconds since the epoch. *)
Definition gmtime_law (gmtime : Z -> option tm) : Prop := forall t r,
  gmtime t = Some r ->
  calendar (tm_mday r) (tm_mon r + 1) (tm_year r + 1900) = true
  /\ 0 <= tm_hour r <= 23 /\ 0 <= tm_min r <= 59 /\ 0 <= tm_sec r <= 59
  /\ t = 86400 * (ref_day (tm_mday r) (tm_mon r + 1) (tm_year r + 1900) - UNIX_DAY)
         + 3600 * tm_hour r + 60 * tm_min r + tm_sec r.

Section properties.
Context `{AceMinMaxLaws}.

(** C1 (roundtrip). For every well-formed date-time, converting its date to a Julian
    day number and back through [JUGDate] gives the same value in every field,
    weekday included: the two directions of Algorithm 199 are inverse on the
    whole range of dates the code accepts. *)
Theorem jug_roundtrip dt :
  well_formed dt ->
  JUGDate (jday dt) (dt_hour dt) (dt_minute dt) (dt_second dt) (dt_microsec dt) = Ok dt.
Proof.
  intros Hwf. pose proof Hwf as [Hv _]. pose proof (valid_last dt Hv).
  pose proof (JUGDate_spec (jday dt) _ _ _ _ (valid_epoch dt Hv) (valid_time_of dt Hv)) as Hs.
  destruct (JUGDate _ _ _ _ _) as [r|e]; [|lia].
  destruct Hs as (_ & Hr & Hj & Ht). f_equal. by apply well_formed_eq.
Qed.

(** [JUGDay] counts days: on every calendar date from year 1 on it is
    the epoch plus the number of days a calendar counts (the lengths of the
    years before, of the months before, and the day). *)
Theorem JUGDay_reference d m y :
  calendar d m y = true -> JUGDay d m y = EPOCH + ref_day d m y.
Proof. apply JUGDay_ref_day. Qed.

(** [operator +=] moves the date by exactly the number of days given,
    keeps the time of day and gives a well-formed value, or throws
    IllegalArgumentException when the target is beyond 31 December 3000 (and
    only then). *)
Theorem add_days_spec dt n :
  well_formed dt -> EPOCH < jday dt + n ->
  match add_days dt n with
  | Ok r => well_formed r /\ jday r = jday dt + n /\ time_of r = time_of dt
            /\ jday dt + n <= LAST_DAY
  | Throw e => e = IllegalArgumentException /\ LAST_DAY < jday dt + n
  end.
Proof.
  intros [Hv _] Hn. unfold add_days.
  pose proof (JUGDate_spec (jday dt + n) _ _ _ _ ltac:(lia) (valid_time_of dt Hv)) as Hs.
  destruct (JUGDate _ _ _ _ _); intuition.
Qed.

(** [next] gives the nearest later date that falls on the weekday
    asked for: it has that weekday, the same time of day, and no day strictly
    between has it.  It throws IllegalArgumentException only for a bad weekday or at
    the end of the supported range. *)
Theorem next_weekday dt d :
  well_formed dt ->
  match next dt d with
  | Ok r => 0 <= d <= 6 /\ well_formed r /\ dt_weekday r = d /\ time_of r = time_of dt
            /\ jday dt < jday r /\ (forall j, jday dt < j < jday r -> WEEKDay j <> d)
  | Throw e => e = IllegalArgumentException
               /\ (~ 0 <= d <= 6 \/ LAST_DAY < jday dt + 7)
  end.
Proof.
  intros [Hv _]. pose proof (valid_epoch dt Hv) as He.
  unfold next. rewrite assertWeekDayRange_spec.
  destruct ((0 <=? d) && (d <=? 6)) eqn:Hd; [apply andb_true_iff in Hd|apply andb_false_iff in Hd];
    rewrite ?Z.leb_le, ?Z.leb_gt in Hd; [destruct Hd|split; [reflexivity|lia]].
  destruct (weekday_after (jday dt) d) as (Hk & Hw & Hbetween); [unfold EPOCH in *; lia..|].
  set (k := Z.rem (6 + d - WEEKDay (jday dt)) 7 + 1) in *.
  rewrite <- Z.add_assoc. fold k. clearbody k.
  pose proof (JUGDate_spec (jday dt + k) _ _ _ _ ltac:(lia) (valid_time_of dt Hv)) as Hs.
  destruct (JUGDate _ _ _ _ _) as [r|e]; [|intuition lia].
  destruct Hs as (_ & Hwf & Hj & Ht). destruct (Hwf) as [_ ->]. rewrite Hj.
  intuition lia.
Qed.

(** [prev] gives the nearest earlier date that falls on the weekday
    asked for, and throws IllegalArgumentException only for a bad weekday. *)
Theorem prev_weekday dt d :
  well_formed dt -> EPOCH + 7 < jday dt ->
  match prev dt d with
  | Ok r => 0 <= d <= 6 /\ well_formed r /\ dt_weekday r = d /\ time_of r = time_of dt
            /\ jday r < jday dt /\ (forall j, jday r < j < jday dt -> WEEKDay j <> d)
  | Throw e => e = IllegalArgumentException /\ ~ 0 <= d <= 6
  end.
Proof.
  intros [Hv _] He. pose proof (valid_last dt Hv) as Hl.
  unfold prev. rewrite assertWeekDayRange_spec.
  destruct ((0 <=? d) && (d <=? 6)) eqn:Hd; [apply andb_true_iff in Hd|apply andb_false_iff in Hd];
    rewrite ?Z.leb_le, ?Z.leb_gt in Hd; [destruct Hd|split; [reflexivity|lia]].
  destruct (weekday_before (jday dt) d) as (Hk & Hw & Hbetween); [unfold EPOCH in *; lia..|].
  set (k := Z.rem (6 + WEEKDay (jday dt) - d) 7 + 1) in *.
  rewrite <- Z.sub_add_distr. fold k. clearbody k.
  pose proof (JUGDate_spec (jday dt - k) _ _ _ _ ltac:(lia) (valid_time_of dt Hv)) as Hs.
  destruct (JUGDate _ _ _ _ _) as [r|e]; [|lia].
  destruct Hs as (_ & Hwf & Hj & Ht). destruct (Hwf) as [_ ->]. rewrite Hj.
  intuition lia.
Qed.

(** [compare_to] orders valid date-times as their absolute times in
    microseconds ([operator ACE_Time_Value]) are ordered: the field-by-field loop
    is the sign of the difference. *)
Theorem compare_to_spec a b :
  valid a = true -> valid b = true ->
  compare_to a b = Z.sgn (total_usec a - total_usec b).
Proof.
  intros Ha Hb. unfold total_usec, to_time_value.
  pose proof (JUGDay_compare _ _ _ _ _ _ (valid_calendar a Ha) (valid_calendar b Hb)) as Hj.
  fold (jday a) (jday b) in Hj.
  apply valid_time_of, valid_time_iff in Ha, Hb.
  unfold compare_to. rewrite !compare_loop_cons. cbn [compare_loop].
  repeat match goal with
  | |- (if ?x <? ?y then _ else _) = _ =>
      destruct (Z.ltb_spec x y);
      [symmetry; (apply Z.sgn_pos_iff || apply Z.sgn_neg_iff); lia|]
  end.
  symmetry. apply Z.sgn_null_iff. lia.
Qed.

(** The day in the year that [julianDay] computes from Julian day
    numbers is the table's first day of the month plus the day of the month, and
    lies between 1 and the length of the year. *)
Theorem julianDay_firstDayOfMonth dt :
  valid dt = true ->
  exists first, firstDayOfMonth dt (dt_month dt) = Ok first
    /\ julianDay dt = first + dt_day dt - 1
    /\ 1 <= julianDay dt <= daysInYear (dt_year dt).
Proof.
  intros Hv. pose proof (valid_calendar dt Hv) as Hc. apply calendar_iff in Hc as (Hy & Hm & Hd).
  unfold firstDayOfMonth, daysInYear. rewrite assertMonthRange_spec, isLeapYear_spec by lia.
  rewrite (proj2 (Z.leb_le 1 _)), (proj2 (Z.leb_le _ 12)) by lia. cbn [andb].
  pose proof (month_start_bounds (dt_year dt) (dt_month dt) Hm) as Hb.
  unfold julianDay, jday. rewrite JUGDay_closed, JUGDay_year_end by lia.
  unfold month_start, FEBRUARY in *. destruct ((2 <? dt_month dt) && leap (dt_year dt));
    eexists; (split; [reflexivity|]); lia.
Qed.
(** Converting a well-formed date-time to a time value and building
    a date-time from it gives the value back, for any [gmtime] that does what the C
    library documents and can represent that time. *)
Theorem time_value_roundtrip gmtime dt :
  gmtime_law gmtime -> well_formed dt ->
  is_Some (gmtime (fst (to_time_value dt))) ->
  Date_Time_of_time_value gmtime (fst (to_time_value dt)) (snd (to_time_value dt)) = Ok dt.
Proof.
  intros Hlaw Hwf [r Hr]. pose proof Hwf as [Hv Hw]. pose proof (valid_calendar dt Hv) as Hc.
  unfold Date_Time_of_time_value. rewrite Hr.
  destruct (Hlaw _ _ Hr) as (Hrc & Hh & Hm & Hs & Ht).
  unfold to_time_value, jday in Ht. cbn [fst] in Ht.
  rewrite (JUGDay_ref_day _ _ _ Hc) in Ht.
  pose proof (valid_time_of dt Hv) as Hvt. apply valid_time_iff in Hvt.
  change 2440588 with (EPOCH + UNIX_DAY) in Ht.
  assert (ref_day (tm_mday r) (tm_mon r + 1) (tm_year r + 1900)
          = ref_day (dt_day dt) (dt_month dt) (dt_year dt)) as E by lia.
  pose proof (ref_day_inj _ _ _ _ _ _ Hrc Hc E) as [= E1 E2 E3].
  rewrite E1, E2, E3. replace (tm_hour r) with (dt_hour dt) by lia.
  replace (tm_min r) with (dt_minute dt) by lia. replace (tm_sec r) with (dt_second dt) by lia.
  apply validated_Ok. unfold to_time_value. cbn [snd]. split; [exact Hv|].
  unfold well_formed in Hw. destruct dt as [d m y hh mm ss us w]. unfold with_weekday; simpl in *.
  by rewrite Hw.
Qed.
End properties.

(** ** The theorems at concrete inputs *)

(** Thursday, 8th October 2015 1:15:35PM, the example of the source's formats. *)
Definition sample : date_time := mkDT 8 10 2015 13 15 35 0 4.
Definition sample2 : date_time := mkDT 29 2 2016 0 0 0 999999 1.

#[local] Existing Instance ace_min_max_std.
#[local] Existing Instance ace_min_max_std_laws.

Lemma sample_well_formed : well_formed sample.
Proof. split; vm_compute; reflexivity. Qed.

(** A [gmtime] for the times from the epoch on. *)
Definition gmtime_ref (t : Z) : option tm :=
  if 0 <=? t then
    let '(d, m, y) := jug_civil (t / 86400 + 2440588) in
    Some (mkTm (t mod 60) (t / 60 mod 60) (t / 3600 mod 24) d (m - 1) (y - 1900))
  else None.

Lemma gmtime_ref_law : gmtime_law gmtime_ref.
Proof.
  intros t r. unfold gmtime_ref. destruct (Z.leb_spec 0 t) as [Ht|]; [|done].
  destruct (jug_civil (t / 86400 + 2440588)) as [[d m] y] eqn:E. intros [= <-].
  apply JUGDay_jug_civil in E as [Hc Hj]; [|unfold EPOCH; zdm].
  cbn [tm_mday tm_mon tm_year tm_hour tm_min tm_sec].
  replace (m - 1 + 1) with m by lia. replace (y - 1900 + 1900) with y by lia.
  split; [exact Hc|]. rewrite (JUGDay_ref_day _ _ _ Hc) in Hj.
  unfold EPOCH, UNIX_DAY in *. revert Hj. generalize (ref_day d m y). intros rd Hj.
  repeat split; zdm.
Qed.

Lemma jug_roundtrip_witness :
  well_formed sample
  /\ JUGDate (jday sample) (dt_hour sample) (dt_minute sample) (dt_second sample) (dt_microsec sample)
     = Ok sample.
Proof.
  assert (well_formed sample) as H by (split; vm_compute; reflexivity).
  split; [exact H|apply (jug_roundtrip sample H)].
Defined.

Lemma JUGDay_reference_witness :
  calendar 8 10 2015 = true /\ JUGDay 8 10 2015 = EPOCH + ref_day 8 10 2015.
Proof. split; [reflexivity|apply (JUGDay_reference 8 10 2015); reflexivity]. Defined.

Lemma add_days_spec_witness :
  well_formed sample /\ EPOCH < jday sample + 365
  /\ match add_days sample 365 with
     | Ok r => well_formed r /\ jday r = jday sample + 365 /\ time_of r = time_of sample
               /\ jday sample + 365 <= LAST_DAY
     | Throw e => e = IllegalArgumentException /\ LAST_DAY < jday sample + 365
     end.
Proof.
  assert (well_formed sample) as H by (split; vm_compute; reflexivity).
  assert (EPOCH < jday sample + 365) as H' by (vm_compute; reflexivity).
  split; [exact H|]. split; [exact H'|apply (add_days_spec sample 365 H H')].
Defined.

Lemma next_weekday_witness :
  well_formed sample
  /\ match next sample 4 with
     | Ok r => 0 <= 4 <= 6 /\ well_formed r /\ dt_weekday r = 4 /\ time_of r = time_of sample
               /\ jday sample < jday r /\ (forall j, jday sample < j < jday r -> WEEKDay j <> 4)
     | Throw e => e = IllegalArgumentException /\ (~ 0 <= 4 <= 6 \/ LAST_DAY < jday sample + 7)
     end.
Proof.
  assert (well_formed sample) as H by (split; vm_compute; reflexivity).
  split; [exact H|apply (next_weekday sample 4 H)].
Defined.

Lemma prev_weekday_witness :
  well_formed sample /\ EPOCH + 7 < jday sample
  /\ match prev sample 0 with
     | Ok r => 0 <= 0 <= 6 /\ well_formed r /\ dt_weekday r = 0 /\ time_of r = time_of sample
               /\ jday r < jday sample /\ (forall j, jday r < j < jday sample -> WEEKDay j <> 0)
     | Throw e => e = IllegalArgumentException /\ ~ 0 <= 0 <= 6
     end.
Proof.
  assert (well_formed sample) as H by (split; vm_compute; reflexivity).
  assert (EPOCH + 7 < jday sample) as H' by (vm_compute; reflexivity).
  split; [exact H|]. split; [exact H'|apply (prev_weekday sample 0 H H')].
Defined.

Lemma compare_to_spec_witness :
  valid sample = true /\ valid sample2 = true
  /\ compare_to sample sample2 = Z.sgn (total_usec sample - total_usec sample2).
Proof. split; [reflexivity|split; [reflexivity|apply (compare_to_spec sample sample2); reflexivity]]. Defined.

Lemma julianDay_firstDayOfMonth_witness :
  valid sample2 = true
  /\ exists first, firstDayOfMonth sample2 (dt_month sample2) = Ok first
     /\ julianDay sample2 = first + dt_day sample2 - 1
     /\ 1 <= julianDay sample2 <= daysInYear (dt_year sample2).
Proof. split; [reflexivity|apply (julianDay_firstDayOfMonth sample2); reflexivity]. Defined.

Lemma time_value_roundtrip_witness :
  gmtime_law gmtime_ref /\ well_formed sample
  /\ Date_Time_of_time_value gmtime_ref (fst (to_time_value sample)) (snd (to_time_value sample))
     = Ok sample.
Proof.
  assert (well_formed sample) as H by (split; vm_compute; reflexivity).
  split; [exact gmtime_ref_law|split; [exact H|]].
  apply (time_value_roundtrip gmtime_ref sample gmtime_ref_law H).
  vm_compute. eexists. reflexivity.
Defined.
