(* ===== verification/DateFormat.v ===== *)
(** * Printing and parsing dates: daf/DateTime.cpp

    [toDateString], [toDTGString], the name tables and the constructor of
    DAF::Date_Time from a string.  [sprintf] and [sscanf] are the models of
    CString; the code prints into [char s[64]]. *)

From S2P Require Import Prelude CString DateTime.
From Stdlib Require Import Ascii.

(** ** Name tables *)

(** daf/DateTime.cpp:149-151 [weekdayNAME]. *)
Definition weekday_names : list (list ascii) :=
  str <$> ["Sunday"; "Monday"; "Tuesday"; "Wednesday"; "Thursday"; "Friday"; "Saturday"]%string.
(** daf/DateTime.cpp:109-122 [monthNAME]. *)
Definition month_names : list (list ascii) :=
  str <$> [""; "January"; "February"; "March"; "April"; "May"; "June"; "July"; "August";
           "September"; "October"; "November"; "December"]%string.
(** daf/DateTime.cpp:129-142 [monthDTGNAME]. *)
Definition month_dtg_names : list (list ascii) :=
  str <$> [""; "JAN"; "FEB"; "MAR"; "APR"; "MAY"; "JUN"; "JUL"; "AUG";
           "SEP"; "OCT"; "NOV"; "DEC"]%string.
(** daf/DateTime.cpp:158-160 [dayACRONIUM]. *)
Definition day_acronyms : list (list ascii) :=
  str <$> ["th"; "st"; "nd"; "rd"; "th"; "th"; "th"; "th"; "th"; "th"]%string.

(** Subscript of a table of strings, at an index the code has range checked. *)
Definition name_at (t : list (list ascii)) (i : Z) : list ascii := default [] (t !! Z.to_nat i).

Section ops.
Context `{AceMinMax}.

(** daf/DateTime.cpp:147-154 [weekdayNAME]. *)
Definition weekdayNAME (d : Z) : list ascii :=
  if assertWeekDayRange d then name_at weekday_names d else [].
(** daf/DateTime.cpp:107-125 [monthNAME]. *)
Definition monthNAME (m : Z) : list ascii :=
  if assertMonthRange m then name_at month_names m else [].
(** daf/DateTime.cpp:127-145 [monthDTGNAME]. *)
Definition monthDTGNAME (m : Z) : list ascii :=
  if assertMonthRange m then name_at month_dtg_names m else [].
(** daf/DateTime.cpp:156-163 [dayACRONIUM]. *)
Definition dayACRONIUM (d : Z) : list ascii :=
  if assertDayRange d
  then name_at day_acronyms (if (d <? 11) || (13 <? d) then Z.rem d 10 else 0)
  else [].

(** daf/DateTime.cpp:474-480 [toDateString]. The 12-hour clock of the verbose format. *)
Definition hour12 (h : Z) : Z := if negb (Z.rem h 12 =? 0) then Z.rem h 12 else 12.

(** daf/DateTime.cpp:488-494 [toDateString]. ["%04d-%02d-%02d %02d:%02d:%02d"] *)
Definition default_text (dt : date_time) : list ascii :=
  fmt_int 4 (dt_year dt) ++ str "-" ++ fmt_int 2 (dt_month dt) ++ str "-"
  ++ fmt_int 2 (dt_day dt) ++ str " " ++ fmt_int 2 (dt_hour dt) ++ str ":"
  ++ fmt_int 2 (dt_minute dt) ++ str ":" ++ fmt_int 2 (dt_second dt).

(** daf/DateTime.cpp:472-486 [toDateString]. ["%s, %d%s %s %04d %d:%02d:%02d%s"] *)
Definition verbose_text (dt : date_time) : list ascii :=
  weekdayNAME (dt_weekday dt) ++ str ", " ++ fmt_int 0 (dt_day dt)
  ++ dayACRONIUM (dt_day dt) ++ str " " ++ monthNAME (dt_month dt) ++ str " "
  ++ fmt_int 4 (dt_year dt) ++ str " " ++ fmt_int 0 (hour12 (dt_hour dt)) ++ str ":"
  ++ fmt_int 2 (dt_minute dt) ++ str ":" ++ fmt_int 2 (dt_second dt)
  ++ (if 12 <=? dt_hour dt then str "PM" else str "AM").

(** daf/DateTime.cpp:512-522 [toDTGString]. ["%02d%02d%02dZ %s %02d"] *)
Definition dtg_text (dt : date_time) : list ascii :=
  fmt_int 2 (dt_day dt) ++ fmt_int 2 (dt_hour dt) ++ fmt_int 2 (dt_minute dt) ++ str "Z "
  ++ monthDTGNAME (dt_month dt) ++ str " " ++ fmt_int 2 (Z.rem (dt_year dt) 100).

(** daf/DateTime.cpp:465-504 [toDateString]. What [sprintf] writes into the buffer of the two functions.  Its result
    is the (positive) length, so the [break] on [0 >= sprintf(...)] is taken
    only for an empty text. *)
Definition toDateString (dt : date_time) (verbose : bool) : result (list ascii) :=
  ok ← assertDateRange dt;
  if (ok : bool) then
    let s := if verbose then verbose_text dt else default_text dt in
    if 0 <? Z.of_nat (length s) then Ok s else Throw IllegalArgumentException
  else Throw IllegalArgumentException.

(** daf/DateTime.cpp:506-530 [toDTGString]. *)
Definition toDTGString (dt : date_time) : result (list ascii) :=
  ok ← assertDateRange dt;
  if (ok : bool) then
    let s := dtg_text dt in
    if 0 <? Z.of_nat (length s) then Ok s else Throw IllegalArgumentException
  else Throw IllegalArgumentException.

(** daf/DateTime.cpp:34-34 [DAF_DATE_TIME_DEFAULT_FORMAT]. The format of the parser: the default format followed by [".%d"]. *)
Definition scan_format : list directive :=
  [ DInt (Some 4%nat); DLit "-"; DInt (Some 2%nat); DLit "-"; DInt (Some 2%nat); DSpace;
    DInt (Some 2%nat); DLit ":"; DInt (Some 2%nat); DLit ":"; DInt (Some 2%nat);
    DLit "."; DInt None ]%char.

(** daf/DateTime.cpp:277-290 [Date_Time::Date_Time]. [Date_Time(const std::string &)].  [y], [m] and [d] are not initialised
    before [sscanf]: [junk] is what the stack holds for the last two. *)
Definition Date_Time_of_string (junk : Z * Z) (s : list ascii) : result date_time :=
  if decide (s = []) then Throw DateTimeException
  else
    let v := sscanf (c_str s) scan_format in
    let field i dflt := to_int (default dflt (v !! i)) in
    if (0 <? length v)%nat then
      let dt := mkDT (field 2%nat (snd junk)) (field 1%nat (fst junk)) (field 0%nat 0)
                     (field 3%nat 0) (field 4%nat 0) (field 5%nat 0)
                     (field 6%nat 0 * 1000) 0 in
      ok ← assertDateRange dt;
      if (ok : bool)
      then Ok (with_weekday dt (WEEKDay3 (dt_day dt) (dt_month dt) (dt_year dt)))
      else Throw DateTimeException
    else Throw DateTimeException.
End ops.

(** ** Lemmas *)

(** The text without the fraction has no NUL: [c_str] leaves it alone. *)
Lemma c_str_id s : Forall (fun c => code c <> 0) s -> c_str s = s.
Proof.
  induction 1 as [|c s Hc _ IH]; simpl; [done|]. by rewrite decide_False, IH.
Qed.

Lemma digits_w_nonzero w n : 0 <= n -> Forall (fun c => code c <> 0) (digits_w w n).
Proof.
  intros Hn. eapply Forall_impl; [exact (digits_w_digits w n Hn)|].
  intros c Hc. unfold isdigit in Hc. lia.
Qed.

(** One directive of the scanner against the field that was printed for it. *)
Lemma sscanf_field w n rest fmt :
  0 <= n < 10 ^ Z.of_nat (S w) ->
  sscanf (fmt_int (S w) n ++ rest) (DInt (Some (S w)) :: fmt) = n :: sscanf rest fmt.
Proof. intros Hn. rewrite fmt_int_width by done. cbn [sscanf]. by rewrite scan_int_digits. Qed.

Lemma sscanf_field_end w n fmt :
  0 <= n < 10 ^ Z.of_nat (S w) ->
  sscanf (fmt_int (S w) n) (DInt (Some (S w)) :: fmt) = n :: sscanf [] fmt.
Proof. intros Hn. rewrite <- (app_nil_r (fmt_int _ _)). by apply sscanf_field. Qed.

Lemma sscanf_lit c rest fmt : sscanf (c :: rest) (DLit c :: fmt) = sscanf rest fmt.
Proof. cbn [sscanf]. by rewrite decide_True. Qed.

Lemma fmt_int_nonzero w n : 0 <= n -> Forall (fun c => code c <> 0) (fmt_int w n).
Proof.
  intros Hn. unfold fmt_int, fmt_nat. rewrite (proj2 (Z.ltb_ge n 0)) by lia.
  by apply digits_w_nonzero.
Qed.

Lemma skip_space_field w n rest :
  0 <= n < 10 ^ Z.of_nat (S w) ->
  skip_space (" "%char :: fmt_int (S w) n ++ rest) = fmt_int (S w) n ++ rest.
Proof.
  intros Hn. rewrite fmt_int_width by done. cbn [skip_space].
  change (isspace " ") with true. cbn iota. apply skip_space_digits. lia.
Qed.

Lemma sscanf_space w n rest fmt :
  0 <= n < 10 ^ Z.of_nat (S w) ->
  sscanf (" "%char :: fmt_int (S w) n ++ rest) (DSpace :: fmt)
  = sscanf (fmt_int (S w) n ++ rest) fmt.
Proof. intros Hn. cbn [sscanf]. by rewrite skip_space_field. Qed.

Lemma valid_ranges dt :
  valid dt = true ->
  1 <= dt_year dt <= 3000 /\ 1 <= dt_month dt <= 12 /\ 1 <= dt_day dt <= 31
  /\ 0 <= dt_hour dt <= 23 /\ 0 <= dt_minute dt <= 59 /\ 0 <= dt_second dt <= 59.
Proof.
  intros Hv. pose proof (valid_time_of dt Hv) as Ht. apply valid_time_iff in Ht.
  unfold valid in Hv. apply andb_true_iff in Hv as [Hd _]. apply valid_date_iff in Hd.
  pose proof (month_len_bounds (dt_year dt) (dt_month dt)). lia.
Qed.

Lemma default_text_nonzero dt :
  valid dt = true -> Forall (fun c => code c <> 0) (default_text dt).
Proof.
  intros Hv. pose proof (valid_ranges dt Hv). unfold default_text.
  rewrite !Forall_app. split_and!; try (apply fmt_int_nonzero; lia);
    repeat constructor; vm_compute; discriminate.
Qed.

(** Scanning the default text reads the six fields back. *)
Lemma sscanf_default_text dt :
  valid dt = true ->
  sscanf (default_text dt) scan_format =
  [dt_year dt; dt_month dt; dt_day dt; dt_hour dt; dt_minute dt; dt_second dt].
Proof.
  intros Hv. pose proof (valid_ranges dt Hv) as (Hy & Hm & Hd & Hh & Hmi & Hs).
  unfold default_text, scan_format, str. cbn [String.list_ascii_of_string app].
  rewrite sscanf_field, sscanf_lit, sscanf_field, sscanf_lit, sscanf_field by (cbn; lia).
  rewrite sscanf_space, sscanf_field, sscanf_lit, sscanf_field, sscanf_lit, sscanf_field_end
    by (cbn; lia).
  reflexivity.
Qed.

(** Longest entry of a name table. *)
Lemma name_at_length t i k :
  forallb (fun s => (length s <=? k)%nat) t = true -> (length (name_at t i) <= k)%nat.
Proof.
  intros Ht. unfold name_at. destruct (t !! Z.to_nat i) as [s|] eqn:E; simpl; [|lia].
  rewrite forallb_forall in Ht. apply Nat.leb_le, Ht, list_elem_of_In.
  by eapply list_elem_of_lookup_2.
Qed.

Section bounds.
Context `{AceMinMax}.

Lemma weekdayNAME_length d : (length (weekdayNAME d) <= 9)%nat.
Proof. unfold weekdayNAME. case_match; [by apply name_at_length|simpl; lia]. Qed.
Lemma monthNAME_length d : (length (monthNAME d) <= 9)%nat.
Proof. unfold monthNAME. case_match; [by apply name_at_length|simpl; lia]. Qed.
Lemma monthDTGNAME_length d : (length (monthDTGNAME d) <= 3)%nat.
Proof. unfold monthDTGNAME. case_match; [by apply name_at_length|simpl; lia]. Qed.
Lemma dayACRONIUM_length d : (length (dayACRONIUM d) <= 2)%nat.
Proof. unfold dayACRONIUM. case_match; [by apply name_at_length|simpl; lia]. Qed.

Lemma hour12_bounds h : 0 <= h <= 23 -> 1 <= hour12 h <= 12.
Proof.
  intros Hh. unfold hour12. rewrite Z.rem_mod_nonneg by lia.
  pose proof (Z.mod_pos_bound h 12 ltac:(lia)). bcase; simpl; lia.
Qed.

Lemma default_text_length dt : valid dt = true -> length (default_text dt) = 19%nat.
Proof.
  intros Hv. pose proof (valid_ranges dt Hv). unfold default_text.
  rewrite !fmt_int_width by (cbn; lia). rewrite !length_app, !digits_w_length. reflexivity.
Qed.

Lemma verbose_text_length dt :
  valid dt = true -> (11 <= length (verbose_text dt) <= 45)%nat.
Proof.
  intros Hv. pose proof (valid_ranges dt Hv) as (?&?&?&?&?&?). unfold verbose_text.
  pose proof (weekdayNAME_length (dt_weekday dt)). pose proof (monthNAME_length (dt_month dt)).
  pose proof (dayACRONIUM_length (dt_day dt)).
  pose proof (hour12_bounds (dt_hour dt) ltac:(lia)).
  pose proof (fmt_int_length 0 2 (dt_day dt) ltac:(lia) ltac:(lia) ltac:(cbn; lia)).
  pose proof (fmt_int_length 0 2 (hour12 (dt_hour dt)) ltac:(lia) ltac:(lia) ltac:(cbn; lia)).
  rewrite (fmt_int_width 3), (fmt_int_width 1), (fmt_int_width 1) by (cbn; lia).
  rewrite !length_app, !digits_w_length.
  assert (length (if 12 <=? dt_hour dt then str "PM" else str "AM") = 2%nat) as ->
    by (case_match; reflexivity).
  change (length (str ", ")) with 2%nat. change (length (str " ")) with 1%nat.
  change (length (str ":")) with 1%nat. lia.
Qed.

Lemma dtg_text_length dt :
  valid dt = true -> (10 <= length (dtg_text dt) <= 14)%nat.
Proof.
  intros Hv. pose proof (valid_ranges dt Hv) as (?&?&?&?&?&?). unfold dtg_text.
  pose proof (monthDTGNAME_length (dt_month dt)).
  rewrite Z.rem_mod_nonneg by lia. pose proof (Z.mod_pos_bound (dt_year dt) 100 ltac:(lia)).
  rewrite !(fmt_int_width 1) by (cbn; lia).
  rewrite !length_app, !digits_w_length.
  change (length (str "Z ")) with 2%nat. change (length (str " ")) with 1%nat. lia.
Qed.
End bounds.

(** ** Properties *)

Section properties.
Context `{AceMinMaxLaws}.

(** Every way the class has to make a value. *)
Inductive date_op :=
| OpFields (d m y hh mm sec usec : Z)
| OpBrokenDown (s : tm) (microsec : Z)
| OpTimeValue (sec usec : Z)
| OpText (s : list ascii)
| OpAssign (dt : date_time)
| OpAdd (dt : date_time) (days : Z)
| OpSub (dt : date_time) (days : Z)
| OpPlus (dt : date_time) (days : Z)
| OpMinus (dt : date_time) (days : Z)
| OpNext (dt : date_time) (d : Z)
| OpPrev (dt : date_time) (d : Z).

Definition make_date (gmtime : Z -> option tm) (junk : Z * Z) (o : date_op) : result date_time :=
  match o with
  | OpFields d m y hh mm sec usec => Date_Time d m y hh mm sec usec
  | OpBrokenDown s us => Date_Time_of_tm s us
  | OpTimeValue sec usec => Date_Time_of_time_value gmtime sec usec
  | OpText s => Date_Time_of_string junk s
  | OpAssign dt => assign dt
  | OpAdd dt n => add_days dt n
  | OpSub dt n => sub_days dt n
  | OpPlus dt n => date_plus dt n
  | OpMinus dt n => date_minus dt n
  | OpNext dt d => next dt d
  | OpPrev dt d => prev dt d
  end.

Definition typed (r : result date_time) : Prop :=
  match r with Ok dt => well_formed dt | Throw e => e = DateTimeException \/ e = IllegalArgumentException end.

(** The range check either passes, on a valid value, fails, or throws for month or year. *)
Lemma check_typed dt e : e = DateTimeException \/ e = IllegalArgumentException ->
  typed (ok ← assertDateRange dt;
         if (ok : bool) then Ok (with_weekday dt (WEEKDay3 (dt_day dt) (dt_month dt) (dt_year dt))) else Throw e).
Proof.
  intros He. destruct (assertDateRange dt) as [[]|e'] eqn:E; simpl; [|done|].
  - apply assertDateRange_valid in E. by split.
  - rewrite assertDateRange_spec in E. apply rbind_Throw in E as [E|(b & _ & [=])].
    unfold date_check in E. repeat case_match; simplify_eq. by right.
Qed.

Lemma validated_typed dt : typed (validated dt).
Proof. apply check_typed. by left. Qed.

Lemma JUGDate_typed jj hh mm ss us : typed (JUGDate jj hh mm ss us).
Proof. unfold JUGDate. destruct (jug_civil jj) as [[d m] y]. apply validated_typed. Qed.

Lemma typed_bind r k : typed r -> (forall dt, typed (k dt)) -> typed (r ≫= k).
Proof. destruct r; simpl; auto. Qed.

(** C39 (type). The class invariant: whatever the arguments, every constructor, assignment and
    operator of the class either gives a value whose fields are all in range, whose day
    exists in its month and whose weekday is that of the date, or throws
    DateTimeException or IllegalArgumentException. *)
Theorem date_operations_typed gmtime junk o : typed (make_date gmtime junk o).
Proof.
  destruct o as [d m y hh mm sec us|t us|sec us|text|dt|dt n|dt n|dt n|dt n|dt d|dt d]; cbn [make_date].
  - apply validated_typed.
  - apply validated_typed.
  - unfold Date_Time_of_time_value. destruct (gmtime sec); [apply validated_typed|by left].
  - unfold Date_Time_of_string. destruct (decide (text = [])); [by left|].
    generalize (sscanf (c_str text) scan_format). intros v. cbv zeta.
    destruct (0 <? _)%nat; [apply check_typed|]; by left.
  - apply check_typed. by right.
  - unfold add_days. apply JUGDate_typed.
  - unfold sub_days. apply JUGDate_typed.
  - apply typed_bind; [apply validated_typed|]. intros r. unfold add_days. apply JUGDate_typed.
  - apply typed_bind; [apply validated_typed|]. intros r. unfold sub_days. apply JUGDate_typed.
  - unfold next. destruct (assertWeekDayRange d); [apply JUGDate_typed|by right].
  - unfold prev. destruct (assertWeekDayRange d); [apply JUGDate_typed|by right].
Qed.

Lemma date_string_text junk dt :
  well_formed dt ->
  toDateString dt false = Ok (default_text dt)
    /\ Date_Time_of_string junk (default_text dt)
       = Ok (mkDT (dt_day dt) (dt_month dt) (dt_year dt) (dt_hour dt) (dt_minute dt)
                  (dt_second dt) 0 (dt_weekday dt)).
Proof.
  intros [Hv Hw].
  pose proof (valid_ranges dt Hv) as (Hy & Hm & Hd & Hh & Hmi & Hs).
  pose proof (default_text_length dt Hv) as Hlen. split.
  - unfold toDateString. rewrite (proj2 (assertDateRange_valid dt) Hv). simpl.
    by rewrite Hlen.
  - unfold Date_Time_of_string. rewrite decide_False by (intros E; by rewrite E in Hlen).
    rewrite c_str_id by (by apply default_text_nonzero).
    rewrite sscanf_default_text by done. cbn -[to_int assertDateRange WEEKDay3].
    rewrite !to_int_small by (unfold INT_MAX; lia).
    rewrite (proj2 (assertDateRange_valid _)).
    + rewrite Hw. reflexivity.
    + pose proof (valid_time_of dt Hv) as Ht. unfold valid in *. simpl.
      apply andb_true_iff in Hv as [-> _]. apply valid_time_iff. apply valid_time_iff in Ht. lia.
Qed.

(** Printing a well-formed date-time in the default format and building
    a date-time from the text gives the value back, except that the microseconds, which
    the format does not print, become 0; it does not depend on the uninitialised
    variables of the parser. *)
Theorem date_string_roundtrip junk dt :
  well_formed dt ->
  exists s, toDateString dt false = Ok s
    /\ Date_Time_of_string junk s
       = Ok (mkDT (dt_day dt) (dt_month dt) (dt_year dt) (dt_hour dt) (dt_minute dt)
                  (dt_second dt) 0 (dt_weekday dt)).
Proof. intros Hw. exists (default_text dt). by apply date_string_text. Qed.

(** C40 (bounds). Every text the printers build for a valid date-time (default, verbose
    and DTG format), with its terminating NUL, fits the 64-byte buffer it is printed
    into, and printing succeeds. *)
Theorem date_text_fits_buffer dt verbose :
  valid dt = true ->
  (exists s, toDateString dt verbose = Ok s /\ (length s + 1 <= 64)%nat)
  /\ (exists s, toDTGString dt = Ok s /\ (length s + 1 <= 64)%nat).
Proof.
  intros Hv. pose proof (default_text_length dt Hv). pose proof (verbose_text_length dt Hv).
  pose proof (dtg_text_length dt Hv).
  unfold toDateString, toDTGString. rewrite (proj2 (assertDateRange_valid dt) Hv). simpl.
  split; [destruct verbose|]; eexists;
    (split; [rewrite (proj2 (Z.ltb_lt _ _)) by lia; reflexivity|lia]).
Qed.
End properties.

(** ** The theorems at concrete inputs *)

#[local] Existing Instance ace_min_max_std.
#[local] Existing Instance ace_min_max_std_laws.

(** A text with less than a full date is accepted or rejected by whatever the
    uninitialised month and day happen to hold. *)
Lemma partial_date_uses_junk :
  Date_Time_of_string (7, 14) (str "2015") = Date_Time 14 7 2015 0 0 0 0
  /\ Date_Time_of_string (7, 99) (str "2015") = Throw DateTimeException.
Proof. split; vm_compute; reflexivity. Qed.

Lemma date_string_roundtrip_witness :
  well_formed sample
  /\ exists s, toDateString sample false = Ok s
     /\ Date_Time_of_string (0, 0) s
        = Ok (mkDT (dt_day sample) (dt_month sample) (dt_year sample) (dt_hour sample)
                   (dt_minute sample) (dt_second sample) 0 (dt_weekday sample)).
Proof.
  assert (well_formed sample) as H by (split; vm_compute; reflexivity).
  split; [exact H|apply (date_string_roundtrip (0, 0) sample H)].
Defined.

Lemma date_text_fits_buffer_witness :
  valid sample2 = true
  /\ (exists s, toDateString sample2 true = Ok s /\ (length s + 1 <= 64)%nat)
  /\ (exists s, toDTGString sample2 = Ok s /\ (length s + 1 <= 64)%nat).
Proof. split; [reflexivity|apply (date_text_fits_buffer sample2 true); reflexivity]. Defined.

Lemma date_operations_typed_witness :
  @AceMinMaxLaws ace_min_max_std
  /\ (exists dt, @make_date ace_min_max_std gmtime_ref (0, 0) (OpFields 29 2 2016 12 0 0 0) = Ok dt /\ well_formed dt)
  /\ @make_date ace_min_max_std gmtime_ref (0, 0) (OpFields 29 2 2015 12 0 0 0) = Throw DateTimeException.
Proof.
  split; [exact ace_min_max_std_laws|]. split; [|vm_compute; reflexivity].
  pose proof (@date_operations_typed ace_min_max_std ace_min_max_std_laws gmtime_ref (0, 0) (OpFields 29 2 2016 12 0 0 0)) as H.
  destruct (@make_date ace_min_max_std gmtime_ref (0, 0) (OpFields 29 2 2016 12 0 0 0)) as [dt|e] eqn:E.
  - exists dt. split; [reflexivity|exact H].
  - vm_compute in E. discriminate E.
Defined.
