(* ===== verification/Text.v ===== *)
(** * String manipulation and dumps: daf/DAF.cpp

    [trim_string], [parse_esc], [parse_argv], [hex_dump_data] and the
    high-resolution clock arithmetic.  Each loop keeps the position variable
    the code keeps; the fuel of [trim_loop] is the length of the string, which
    every iteration shortens. *)

From S2P Require Import Prelude CString.
From Stdlib Require Import Ascii.

Definition NUL : ascii := ascii_of_nat 0.
Definition SPACE : ascii := ascii_of_nat 32.
Definition QUOTE : ascii := ascii_of_nat 39.
Definition DQUOTE : ascii := ascii_of_nat 34.
Definition BACKSLASH : ascii := ascii_of_nat 92.

(** [s[i]]; [s[s.size()]] is the terminating NUL. *)
Definition char_at (s : list ascii) (i : nat) : ascii := default NUL (s !! i).

(** ** trim_string *)

(** daf/DAF.cpp:268-268 [trim_string]. *)
Definition blank (c : ascii) : bool := isspace c || iscntrl c.

(** daf/DAF.cpp:275-275 [trim_string]. The do-while at the end: control characters inside become spaces. *)
Definition uncontrol (c : ascii) : ascii := if iscntrl c then SPACE else c.

(** daf/DAF.cpp:267-277 [trim_string]. *)
Fixpoint trim_loop (fuel : nat) (c : ascii) (arg : list ascii) (pos : nat) : list ascii :=
  match fuel, pos with
  | S fuel, S pos =>
      if blank (char_at arg pos) then trim_loop fuel c (delete pos arg) pos
      else if blank (char_at arg 0) then trim_loop fuel c (delete 0%nat arg) pos
      else if bool_decide (char_at arg 0 = c /\ char_at arg pos = c) then
        match pos with
        | S pos' => trim_loop fuel c (delete 0%nat (delete pos arg)) pos'
        | O => trim_loop fuel c (delete 0%nat arg) pos
        end
      else uncontrol <$> arg
  | _, _ => arg
  end.

(** daf/DAF.cpp:263-279 [trim_string]. *)
Definition trim_string (param : list ascii) (c : ascii) : list ascii :=
  trim_loop (length param) c param (length param).

(** The default argument. *)
Definition trim (param : list ascii) : list ascii := trim_string param SPACE.

(** ** parse_esc *)

(** daf/DAF.cpp:285-286 [parse_esc]. One round per backslash found from [pos] on. *)
Fixpoint parse_esc_loop (fuel : nat) (param : list ascii) (pos : nat) : list ascii :=
  match fuel with
  | O => param
  | S fuel =>
      match find_from BACKSLASH param pos with
      | Some p => parse_esc_loop fuel (delete p param) (S p)
      | None => param
      end
  end.

(** daf/DAF.cpp:281-288 [parse_esc]. *)
Definition parse_esc (arg : list ascii) (offset : nat) : list ascii :=
  parse_esc_loop (length arg) arg offset.

(** ** parse_argv *)

(** daf/DAF.cpp:301-303 [parse_argv]. *)
Definition quote_arg (quote_args : bool) (arg : list ascii) : list ascii :=
  if quote_args && (0 <? find_int SPACE arg 0) then QUOTE :: arg ++ [QUOTE] else arg.

(** daf/DAF.cpp:296-305 [parse_argv]. *)
Definition parse_argv_step (quote_args : bool) (params arg : list ascii) : list ascii :=
  let arg := trim arg in
  if (0 <? length arg)%nat then
    let params := if (0 <? length params)%nat then params ++ [SPACE] else params in
    params ++ quote_arg quote_args arg
  else params.

(** daf/DAF.cpp:290-309 [parse_argv]. [argv] is the argument vector an ACE_ARGV holds. *)
Definition parse_argv (argv : list (list ascii)) (quote_args : bool) : list ascii :=
  foldl (parse_argv_step quote_args) [] argv.

(** ** hex_dump_data *)

(** daf/DAF.cpp:46-48 [hex_dump_data]. *)
Definition h_char : list ascii := str "0123456789ABCDEF".

(** daf/DAF.cpp:49-59 [hex_dump_data]. *)
Definition c_char : list ascii :=
  replicate 32 (ascii_of_nat 46)
  ++ str " !" ++ [DQUOTE] ++ str "#$%&'()*+,-./"
  ++ str "0123456789:;<=>?" ++ str "@ABCDEFGHIJKLMNO" ++ str "PQRSTUVWXYZ[\]^_"
  ++ str "`abcdefghijklmno" ++ str "pqrstuvwxyz{|}~" ++ [ascii_of_nat 46].

(** daf/DAF.cpp:78-78 [hex_dump_data]. The bytes of the buffer are [char]s: 8-bit values, taken here unsigned; the
    code masks every use of the sign. *)
Definition hex_hi (b : Z) : ascii := char_at h_char (Z.to_nat (Z.land (Z.shiftr b 4) 15)).
(** daf/DAF.cpp:78-78 [hex_dump_data]. *)
Definition hex_lo (b : Z) : ascii := char_at h_char (Z.to_nat (Z.land b 15)).
(** daf/DAF.cpp:77-77 [hex_dump_data]. *)
Definition dump_char (b : Z) : ascii :=
  if negb (Z.land b 128 =? 0) then ascii_of_nat 46
  else char_at c_char (Z.to_nat (Z.land b 127)).

(** daf/DAF.cpp:68-82 [hex_dump_data]. The loop over [j < w]; [p] is the rest of the buffer, [l] its remaining
    length, [ss] and [sc] the two streams. *)
Fixpoint dump_loop (n : nat) (j l : Z) (p : list Z) (ss sc : list ascii)
    : list ascii * list ascii :=
  match n with
  | O => (ss, sc)
  | S n =>
      let ss := if Z.rem j 4 =? 0 then ss ++ [SPACE] else ss in
      if 0 <? l then
        let sc := if negb (j =? 0) && (Z.rem j 8 =? 0) then sc ++ [SPACE] else sc in
        let sx := default 0 (head p) in
        dump_loop n (j + 1) (l - 1) (tail p)
                  (ss ++ [hex_hi sx; hex_lo sx]) (sc ++ [dump_char sx])
      else dump_loop n (j + 1) (l - 1) p (ss ++ [SPACE; SPACE]) sc
  end.

(** daf/DAF.cpp:43-87 [hex_dump_data]. *)
Definition hex_dump_data (buf : list Z) (len width : nat) : list ascii :=
  let w := to_int (Z.of_nat width) in
  if (0 <? len)%nat then
    let '(ss, sc) := dump_loop (Z.to_nat w) 0 (to_int (Z.of_nat len)) buf [] [] in
    ss ++ [SPACE; DQUOTE] ++ sc ++ [DQUOTE]
  else [].

(** ** High-resolution clock *)

Definition U64 : Z := 2 ^ 64.

(** daf/DAF.cpp:462-468 [elapsed_hrtime]. [ACE_hrtime_t] is an unsigned 64-bit integer. *)
Definition elapsed_hrtime (start stop : Z) : Z :=
  if start <? stop then (stop - start) mod U64
  else (((U64 - 1 - start) + 1) mod U64 + stop) mod U64.

(** daf/DAF.cpp:478-488 [elapsed_hrtime_usecs]. [scale] is ACE_High_Res_Timer::global_scale_factor(), ticks per microsecond. *)
Definition elapsed_hrtime_usecs (scale start stop : Z) : Z := elapsed_hrtime start stop / scale.
(** daf/DAF.cpp:471-475 [elapsed_hrtime_msecs]. *)
Definition elapsed_hrtime_msecs (scale start stop : Z) : Z :=
  elapsed_hrtime_usecs scale start stop / 1000.
(** daf/DAF.cpp:491-501 [elapsed_hrtime_nsecs]. *)
Definition elapsed_hrtime_nsecs (scale start stop : Z) : Z :=
  Z.shiftr ((elapsed_hrtime start stop * (1024000 / scale)) mod U64) 10.

(** ** Lemmas on trim_string *)

(** What the loop leaves alone: no blank at either end, and not the quote
    character at both. *)
Definition trimmed (c : ascii) (s : list ascii) : Prop :=
  s = [] \/ (blank (char_at s 0) = false /\ blank (char_at s (length s - 1)) = false
             /\ ~ (char_at s 0 = c /\ char_at s (length s - 1) = c)).

(** Characters the loop may remove at the ends. *)
Definition removable (c x : ascii) : Prop := blank x = true \/ x = c.

Lemma char_at_head x s : char_at (x :: s) 0 = x.
Proof. done. Qed.

Lemma char_at_last x s : char_at (s ++ [x]) (length s) = x.
Proof. unfold char_at. by rewrite lookup_app_r, Nat.sub_diag. Qed.

Lemma delete_last (x : ascii) s : delete (length s) (s ++ [x]) = s.
Proof. induction s; simpl; congruence. Qed.

Lemma blank_uncontrol x : blank x = false -> uncontrol x = x.
Proof. unfold blank, uncontrol. destruct (iscntrl x); [|done]. by rewrite orb_true_r. Qed.

Lemma trim_loop_spec c fuel arg :
  (length arg <= fuel)%nat ->
  exists pre mid post, arg = pre ++ mid ++ post
    /\ trim_loop fuel c arg (length arg) = uncontrol <$> mid
    /\ trimmed c mid
    /\ Forall (removable c) pre /\ Forall (removable c) post.
Proof.
  revert arg. induction fuel as [|fuel IH]; intros arg Hf.
  { destruct arg; [|simpl in Hf; lia]. exists [], [], []. repeat split; auto. by left. }
  destruct arg as [|x arg'] using rev_ind; [exists [], [], []; repeat split; auto; by left|].
  clear IHarg'. rewrite length_app in *. simpl in Hf.
  replace (length arg' + length [x])%nat with (S (length arg')) by (simpl; lia).
  cbn [trim_loop]. rewrite char_at_last, delete_last.
  destruct (blank x) eqn:Hx.
  { destruct (IH arg' ltac:(lia)) as (pre & mid & post & -> & E & Ht & H1 & H2).
    exists pre, mid, (post ++ [x]). rewrite E. repeat split; auto.
    - by rewrite <- !app_assoc.
    - apply Forall_app. split; [done|]. constructor; [by left|done]. }
  destruct arg' as [|y arg'].
  { cbn [app length]. rewrite char_at_head, Hx. cbn [delete list_delete]. case_bool_decide as Hc.
    - destruct fuel; exists [x], [], []; (repeat split; auto; [by left|]);
        (constructor; [right; by destruct Hc|done]).
    - exists [], [x], []. repeat split; auto. right. change (char_at [x] 0) with x. auto. }
  cbn [app length]. rewrite char_at_head.
  destruct (blank y) eqn:Hy.
  { cbn [delete list_delete]. destruct (IH (arg' ++ [x])) as (pre & mid & post & E1 & E & Ht & H1 & H2).
    { rewrite length_app. simpl in *. lia. }
    rewrite length_app, Nat.add_1_r in E. rewrite E.
    exists (y :: pre), mid, post. repeat split; auto; [cbn; by rewrite E1|].
    constructor; [by left|done]. }
  case_bool_decide as Hc.
  { cbn [delete list_delete]. destruct (IH arg') as (pre & mid & post & E1 & E & Ht & H1 & H2).
    { simpl in *. lia. }
    exists (y :: pre), mid, (post ++ [x]). rewrite E. repeat split; auto.
    - cbn. rewrite E1 at 1. by rewrite <- !app_assoc.
    - constructor; [right; by destruct Hc|done].
    - apply Forall_app. split; [done|]. constructor; [right; by destruct Hc|done]. }
  exists [], (y :: arg' ++ [x]), []. repeat split; auto; [by rewrite app_nil_r|].
  right. replace (length (y :: arg' ++ [x]) - 1)%nat with (length (y :: arg'))
    by (simpl; rewrite length_app; simpl; lia).
  change (y :: arg' ++ [x]) with ((y :: arg') ++ [x]). rewrite char_at_last. auto.
Qed.

Lemma uncontrol_idem x : uncontrol (uncontrol x) = uncontrol x.
Proof. unfold uncontrol at 2 3. destruct (iscntrl x) eqn:E; [done|]. unfold uncontrol. by rewrite E. Qed.

Lemma char_at_fmap s i :
  (i < length s)%nat -> char_at (uncontrol <$> s) i = uncontrol (char_at s i).
Proof.
  intros Hi. unfold char_at. rewrite list_lookup_fmap.
  destruct (lookup_lt_is_Some_2 s i Hi) as [x ->]. done.
Qed.

(** The loop stops at once on a trimmed string. *)
Lemma trim_string_trimmed c s : trimmed c s -> trim_string s c = uncontrol <$> s.
Proof.
  intros [->|(H1 & H2 & H3)]; [done|]. unfold trim_string.
  destruct (length s) as [|n] eqn:Hn; [by destruct s|]. cbn [trim_loop].
  replace (S n - 1)%nat with n in * by lia. rewrite H1, H2. by case_bool_decide.
Qed.

Lemma trimmed_uncontrol c s : trimmed c s -> trimmed c (uncontrol <$> s).
Proof.
  intros [->|(H1 & H2 & H3)]; [by left|].
  destruct s as [|x s]; [by left|]. right. rewrite length_fmap.
  rewrite !char_at_fmap by (simpl; lia).
  rewrite !blank_uncontrol by done. auto.
Qed.

(** A text that trimming leaves alone. *)
Definition tidy (s : list ascii) : Prop :=
  s <> [] /\ blank (char_at s 0) = false /\ blank (char_at s (length s - 1)) = false
  /\ forall c, c ∈ s -> iscntrl c = false.

Lemma tidy_trim s : tidy s -> trim s = s.
Proof.
  intros (Hne & H1 & H2 & Hc). unfold trim. rewrite trim_string_trimmed.
  - rewrite <- (list_fmap_id s) at 2. apply list_fmap_ext. intros i c Hi. unfold uncontrol.
    by rewrite Hc by (by eapply list_elem_of_lookup_2).
  - right. split; [done|]. split; [done|]. intros [E _]. by rewrite E in H1.
Qed.

Lemma trim_tidy s : s <> [] -> trim s = s -> tidy s.
Proof.
  unfold trim. destruct (trim_loop_spec SPACE (length s) s ltac:(lia)) as (pre & mid & post & E & El & Ht & _).
  unfold trim_string. rewrite El. intros Hne Hs.
  assert (pre = [] /\ post = []) as [-> ->].
  { apply (f_equal length) in E. rewrite !length_app in E. rewrite <- Hs, length_fmap in E.
    split; [destruct pre|destruct post]; simpl in *; done || lia. }
  rewrite app_nil_r in E. cbn [app] in E. subst mid. destruct Ht as [|(H1 & H2 & _)]; [done|].
  split; [done|]. split; [done|]. split; [done|]. rewrite <- Hs.
  intros c (x & -> & _)%list_elem_of_fmap. unfold uncontrol. by destruct (iscntrl x) eqn:Ex.
Qed.

Lemma trim_space s : tidy s -> trim (SPACE :: s) = s.
Proof.
  intros Ht. rewrite <- (tidy_trim s Ht) at 2. destruct Ht as (Hne & _ & H2 & _). unfold trim, trim_string.
  cbn [length trim_loop]. replace (char_at (SPACE :: s) (length s)) with (char_at s (length s - 1)).
  - by rewrite H2.
  - destruct s; [done|]. cbn [length]. by rewrite Nat.sub_succ, Nat.sub_0_r.
Qed.

(** Tidy texts with anything but control characters between them. *)
Lemma tidy_app s1 m s2 : tidy s1 -> tidy s2 -> (forall c, c ∈ m -> iscntrl c = false) -> tidy (s1 ++ m ++ s2).
Proof.
  intros (Hn1 & H1 & _ & Hc1) (Hn2 & _ & H2 & Hc2) Hm. split; [by destruct s1|].
  assert (0 < length s2)%nat by (destruct s2; [done|simpl; lia]).
  split; [by destruct s1|]. split.
  - rewrite app_assoc. unfold char_at. rewrite length_app, lookup_app_r by lia.
    by replace (length (s1 ++ m) + length s2 - 1 - length (s1 ++ m))%nat with (length s2 - 1)%nat by lia.
  - intros c. rewrite !elem_of_app. naive_solver.
Qed.

(** ** parse_esc against a reference *)

(** Remove each unescaped backslash and keep the character after it. *)
Fixpoint unescape (s : list ascii) : list ascii :=
  match s with
  | [] => []
  | x :: s => if decide (x = BACKSLASH)
              then match s with [] => [] | y :: s => y :: unescape s end
              else x :: unescape s
  end.

Definition escape (s : list ascii) : list ascii := s ≫= (fun x => [BACKSLASH; x]).

Lemma unescape_escape_app s t : unescape (escape s ++ t) = s ++ unescape t.
Proof. induction s as [|x s IH]; simpl; [done|]. by rewrite <- IH. Qed.

Lemma unescape_skip s1 s2 : BACKSLASH ∉ s1 -> unescape (s1 ++ s2) = s1 ++ unescape s2.
Proof.
  induction s1 as [|x s IH]; simpl; [done|]. intros [Hx Hs]%not_elem_of_cons.
  by rewrite decide_False, IH by auto.
Qed.

Lemma find_char_Some c s i :
  find_char c s = Some i -> exists s1 s2, s = s1 ++ c :: s2 /\ length s1 = i /\ c ∉ s1.
Proof.
  revert i. induction s as [|x s IH]; intros i; simpl; [done|].
  destruct (decide (x = c)) as [->|Hne].
  - intros [= <-]. exists [], s. repeat split. apply not_elem_of_nil.
  - destruct (find_char c s) as [j|]; [|done]. intros [= <-].
    destruct (IH j eq_refl) as (s1 & s2 & -> & <- & Hn).
    exists (x :: s1), s2. repeat split. rewrite not_elem_of_cons. auto.
Qed.

Lemma find_char_None c s : find_char c s = None -> c ∉ s.
Proof.
  induction s as [|x s IH]; simpl; [intros _; apply not_elem_of_nil|].
  destruct (decide (x = c)); [done|]. destruct (find_char c s); [done|].
  intros _. rewrite not_elem_of_cons. auto.
Qed.

Lemma find_from_app c pre s : find_from c (pre ++ s) (length pre) = Nat.add (length pre) <$> find_char c s.
Proof. unfold find_from. by rewrite drop_app_length. Qed.

Lemma parse_esc_loop_spec fuel pre s :
  (length s <= fuel)%nat ->
  parse_esc_loop fuel (pre ++ s) (length pre) = pre ++ unescape s.
Proof.
  revert pre s. induction fuel as [|fuel IH]; intros pre s Hf.
  { destruct s; [|simpl in Hf; lia]. simpl. done. }
  cbn [parse_esc_loop]. rewrite find_from_app.
  destruct (find_char BACKSLASH s) as [i|] eqn:E; cbn [fmap option_fmap option_map].
  - apply find_char_Some in E as (s1 & s2 & -> & <- & Hn).
    rewrite unescape_skip by done. rewrite length_app in Hf. simpl in Hf.
    replace (delete (length pre + length s1)%nat (pre ++ s1 ++ BACKSLASH :: s2)) with ((pre ++ s1) ++ s2)
      by (rewrite <- length_app, app_assoc; clear; induction (pre ++ s1); simpl; congruence).
    cbn [unescape]. rewrite decide_True by done. destruct s2 as [|y s2].
    + rewrite !app_nil_r. destruct fuel as [|fuel]; [done|]. cbn [parse_esc_loop].
      unfold find_from. by rewrite drop_ge by (rewrite length_app; lia).
    + replace (S (length pre + length s1)) with (length ((pre ++ s1) ++ [y]))
        by (rewrite !length_app; simpl; lia).
      change (y :: s2) with ([y] ++ s2). rewrite app_assoc.
      rewrite IH by (simpl in Hf; lia). by rewrite <- !app_assoc.
  - apply find_char_None in E. f_equal.
    rewrite <- (app_nil_r s) at 2. rewrite unescape_skip by done. simpl. by rewrite app_nil_r.
Qed.

(** ** hex_dump_data *)

Definition hex_val (c : ascii) : Z :=
  if isdigit c then code c - 48 else code c - 55.

(** Read a sequence of hexadecimal digits back as bytes. *)
Fixpoint hex_decode (s : list ascii) : list Z :=
  match s with
  | h :: l :: s => hex_val h * 16 + hex_val l :: hex_decode s
  | _ => []
  end.

Definition no_space (s : list ascii) : list ascii := filter (fun c => c <> SPACE) s.

Lemma hex_pair b :
  is_byte b -> hex_val (hex_hi b) * 16 + hex_val (hex_lo b) = b.
Proof.
  intros Hb. apply Z.eqb_eq.
  by apply (forall_byte (fun b => hex_val (hex_hi b) * 16 + hex_val (hex_lo b) =? b)).
Qed.

Lemma hex_not_space b : is_byte b -> hex_hi b <> SPACE /\ hex_lo b <> SPACE.
Proof.
  intros Hb. apply (forall_byte (fun b => bool_decide (hex_hi b <> SPACE /\ hex_lo b <> SPACE))) in Hb.
  - by apply bool_decide_eq_true in Hb.
  - by vm_compute.
Qed.

Lemma no_space_app s t : no_space (s ++ t) = no_space s ++ no_space t.
Proof. apply filter_app. Qed.

Lemma hex_decode_app s t :
  Nat.even (length s) = true -> hex_decode (s ++ t) = hex_decode s ++ hex_decode t.
Proof.
  revert s. fix IH 1. intros [|a [|b s]] He; [done|done|].
  cbn [app hex_decode length] in *. f_equal. by apply IH.
Qed.

(** Past the end of the data a row is padded with blanks. *)
Lemma dump_loop_pad n j l p ss sc :
  l <= 0 -> no_space (fst (dump_loop n j l p ss sc)) = no_space ss.
Proof.
  revert j l p ss. induction n as [|n IH]; intros j l p ss Hl; [done|]. cbn [dump_loop].
  rewrite (proj2 (Z.ltb_ge 0 l)) by lia. rewrite IH, no_space_app by lia.
  case_match; rewrite ?no_space_app; simpl; by rewrite !app_nil_r.
Qed.

(** The hexadecimal column holds the bytes, whatever the padding. *)
Lemma dump_loop_hex n j p ss sc :
  Forall is_byte p -> 0 <= j ->
  no_space (fst (dump_loop n j (Z.of_nat (length p)) p ss sc))
  = no_space ss ++ (take n p ≫= (fun b => [hex_hi b; hex_lo b])).
Proof.
  revert j p ss sc. induction n as [|n IH]; intros j p ss sc Hp Hj.
  { simpl. by rewrite app_nil_r. }
  destruct p as [|b p].
  { rewrite dump_loop_pad by done. simpl. by rewrite app_nil_r. }
  inversion_clear Hp as [|? ? Hb Hp']. cbn [dump_loop].
  set (ss' := if Z.rem j 4 =? 0 then ss ++ [SPACE] else ss).
  assert (no_space ss' = no_space ss) as Hss.
  { unfold ss'. case_match; [|done]. rewrite no_space_app. simpl. by rewrite app_nil_r. }
  rewrite (proj2 (Z.ltb_lt 0 _)) by (simpl; lia).
  replace (Z.of_nat (length (b :: p)) - 1) with (Z.of_nat (length p)) by (simpl length; lia).
  cbn [tail head default]. rewrite IH by (auto; lia). rewrite no_space_app, Hss, <- app_assoc. f_equal.
  destruct (hex_not_space b Hb) as [H1 H2]. unfold no_space.
  rewrite filter_cons_True, filter_cons_True by done. done.
Qed.

Lemma dump_loop_length n j l p ss sc :
  0 <= j ->
  Z.of_nat (length (fst (dump_loop n j l p ss sc)))
  = Z.of_nat (length ss) + 2 * Z.of_nat n + (j + Z.of_nat n + 3) / 4 - (j + 3) / 4.
Proof.
  revert j l p ss sc. induction n as [|n IH]; intros j l p ss sc Hj; cbn [dump_loop].
  { simpl fst. change (Z.of_nat 0) with 0. rewrite (Z.add_0_r j). lia. }
  destruct (0 <? l); rewrite IH by lia; rewrite length_app; simpl length;
    (destruct (Z.eqb_spec (Z.rem j 4) 0) as [E|E]; [rewrite length_app; simpl length|]);
    rewrite Z.rem_mod_nonneg in E by lia; zdm.
Qed.

Lemma hex_decode_bytes p :
  Forall is_byte p -> hex_decode (p ≫= (fun b => [hex_hi b; hex_lo b])) = p.
Proof.
  induction 1 as [|b p Hb _ IH]; [done|].
  cbn [mbind list_bind app hex_decode]. by rewrite hex_pair, IH.
Qed.

(** ** Properties *)

(** [trim_string] keeps one contiguous piece of its argument: what it
    removes at both ends is blank or the trimmed character, what is left has no blank at
    either end and is not wrapped in the trimmed character on both sides, and control
    characters inside become spaces. *)
Theorem trim_string_spec s c :
  exists pre mid post, s = pre ++ mid ++ post
    /\ trim_string s c = uncontrol <$> mid
    /\ trimmed c mid
    /\ Forall (removable c) pre /\ Forall (removable c) post.
Proof. apply trim_loop_spec. lia. Qed.

(** Trimming a trimmed string changes nothing. *)
Theorem trim_string_idempotent s c :
  trim_string (trim_string s c) c = trim_string s c.
Proof.
  unfold trim_string at 2 3.
  destruct (trim_loop_spec c (length s) s ltac:(lia)) as (pre & mid & post & _ & -> & Ht & _).
  rewrite trim_string_trimmed by (by apply trimmed_uncontrol).
  rewrite <- list_fmap_compose. apply list_fmap_ext. intros i x _. apply uncontrol_idem.
Qed.

(** The find-and-erase loop of [parse_esc] removes each unescaped
    backslash and keeps the character after it, so that it undoes putting a backslash
    before every character. *)
Theorem parse_esc_unescape s : parse_esc s 0 = unescape s /\ parse_esc (escape s) 0 = s.
Proof.
  unfold parse_esc. pose proof (parse_esc_loop_spec (length s) [] s ltac:(lia)) as E1.
  pose proof (parse_esc_loop_spec (length (escape s)) [] (escape s) ltac:(lia)) as E2.
  simpl in E1, E2. rewrite E1, E2. split; [done|].
  rewrite <- (app_nil_r (escape s)), unescape_escape_app. apply app_nil_r.
Qed.

(** The hexadecimal column of a dump that fits the row is the data: with
    the separators removed its digit pairs decode to the bytes given, and its width
    depends on the row width only. *)
Theorem hex_dump_data_roundtrip buf width :
  Forall is_byte buf -> buf <> [] -> Z.of_nat width <= INT_MAX -> (length buf <= width)%nat ->
  exists hex text,
    hex_dump_data buf (length buf) width = hex ++ [SPACE; DQUOTE] ++ text ++ [DQUOTE]
    /\ hex_decode (no_space hex) = buf
    /\ Z.of_nat (length hex) = 2 * Z.of_nat width + (Z.of_nat width + 3) / 4.
Proof.
  intros Hb Hne Hw Hl. unfold hex_dump_data.
  rewrite !to_int_small by (unfold INT_MAX in *; lia). rewrite Nat2Z.id.
  rewrite (proj2 (Nat.ltb_lt _ _)) by (destruct buf; [done|simpl; lia]).
  pose proof (dump_loop_hex width 0 buf [] [] Hb ltac:(lia)) as Hx.
  pose proof (dump_loop_length width 0 (Z.of_nat (length buf)) buf [] [] ltac:(lia)) as Hlen.
  destruct (dump_loop _ _ _ _ _ _) as [hex text]. exists hex, text.
  cbn [fst] in *. rewrite Hx, take_ge by done. split; [done|]. split.
  - by apply hex_decode_bytes.
  - rewrite Hlen. simpl length. zdm.
Qed.

(** The elapsed time of the 64-bit clock is the difference modulo 2^64,
    so that one wrap-around of the counter between the two readings is measured
    correctly. *)
Theorem elapsed_hrtime_modular start stop :
  0 <= start < U64 -> 0 <= stop < U64 ->
  elapsed_hrtime start stop = (stop - start) mod U64.
Proof.
  intros H1 H2. unfold elapsed_hrtime. destruct (start <? stop); [done|].
  rewrite Z.add_mod_idemp_l by done.
  replace (U64 - 1 - start + 1 + stop) with (stop - start + 1 * U64) by lia.
  by rewrite Z.mod_add.
Qed.

(** ** The theorems at concrete inputs *)

Lemma hex_dump_data_roundtrip_witness :
  Forall is_byte [72; 105; 255]
  /\ exists hex text,
       hex_dump_data [72; 105; 255] 3 16 = hex ++ [SPACE; DQUOTE] ++ text ++ [DQUOTE]
       /\ hex_decode (no_space hex) = [72; 105; 255]
       /\ Z.of_nat (length hex) = 2 * Z.of_nat 16 + (Z.of_nat 16 + 3) / 4.
Proof.
  assert (Forall is_byte [72; 105; 255]) as H by (repeat constructor; unfold is_byte; lia).
  split; [exact H|]. apply (hex_dump_data_roundtrip [72; 105; 255] 16 H).
  - discriminate.
  - vm_compute. discriminate.
  - simpl. lia.
Defined.

(** A counter that wraps: 5 ticks before the wrap, 7 after. *)
Lemma elapsed_hrtime_modular_witness :
  0 <= U64 - 5 < U64 /\ 0 <= 7 < U64
  /\ elapsed_hrtime (U64 - 5) 7 = (7 - (U64 - 5)) mod U64.
Proof.
  split; [unfold U64; lia|]. split; [unfold U64; lia|].
  apply (elapsed_hrtime_modular (U64 - 5) 7); unfold U64; lia.
Defined.
