(* ===== verification/Bitset.v ===== *)
(** * Sequences of bits: daf/Bitset.h, daf/Bitset.cpp

    A [Bitset] is the pair of members of DAF::Bitset: the number of bits and the
    byte buffer, which may be null and, after [erase], longer than [size].  Bit
    [i] is bit [7 - i mod 8] of byte [i / 8].  Operations that change the object
    are written in the monad [M]: a state, a thrown exception, and [None] for an
    access outside the buffer (undefined behaviour in the source).  [alloc n]
    says whether [new BIT_BYTE_type[n]] succeeds.  The right-hand side of a
    binary operation may be the object itself ([Self]).

    The specification is a list of booleans ([contents]); the theorems show that
    on well-formed bitsets every operation runs without a fault and does to the
    list what its documentation says. *)

From S2P Require Import Prelude.

(** ** Data *)

(** daf/Bitset.h:38-92 [Bitset]. *)
Record Bitset := mkBitset {
  bits_ : Z;
  bit_buffer_ : option (list Z);
}.

#[export] Instance bitset_eq_dec : EqDecision Bitset.
Proof. solve_decision. Defined.

(** The argument of a binary operation. *)
Inductive operand := Self | Other (b : Bitset).

(** ** State, exceptions and faults *)

Definition M (A : Type) : Type := Bitset -> option (Bitset * result A).

#[export] Instance M_ret : MRet M := fun A a b => Some (b, Ok a).
#[export] Instance M_bind : MBind M := fun A B k m b =>
  match m b with
  | Some (b, Ok a) => k a b
  | Some (b, Throw e) => Some (b, Throw e)
  | None => None
  end.

Definition throw {A} (e : daf_exn) : M A := fun b => Some (b, Throw e).
Definition fault {A} : M A := fun _ => None.
Definition this : M Bitset := fun b => Some (b, Ok b).
Definition set_this (b : Bitset) : M unit := fun _ => Some (b, Ok tt).
Definition lift {A} (m : option (result A)) : M A := fun b =>
  match m with
  | Some r => Some (b, r)
  | None => None
  end.
Definition deref (o : operand) : M Bitset :=
  match o with
  | Self => this
  | Other r => mret r
  end.

(** ** Operations *)

(** daf/Bitset.cpp:34-37 [bit_bytes]. *)
Definition bit_bytes (bits : Z) : Z := bits / 8 + (if bits mod 8 =? 0 then 0 else 1).

(** daf/Bitset.cpp:39-47 [bit_mask]. *)
Definition bit_mask (bit : Z) : Z :=
  [128; 64; 32; 16; 8; 4; 2; 1] !!! Z.to_nat (bit mod 8).

(** daf/Bitset.cpp:106-110 [Bitset::size]. *)
Definition size (b : Bitset) : Z := bit_bytes (bits_ b).

(** A pointer into the buffer is an offset. *)
(** daf/Bitset.cpp:88-104 [Bitset::bit_buffer]. *)
Definition bit_buffer (b : Bitset) (off : Z) : result (option Z) :=
  if negb (bits_ b =? 0) then
    match bit_buffer_ b with
    | Some _ => if size b <=? off then Throw IndexOutOfRange else Ok (Some off)
    | None => Ok None
    end
  else Throw IndexOutOfRange.

(** daf/Bitset.h:113-117 [Bitset::operator_const_void]. The conversion to a pointer, as a condition: it is
    null without bits or without a buffer. *)
Definition nonnull (b : Bitset) : bool :=
  negb (bits_ b =? 0) && bool_decide (bit_buffer b 0 = Ok (Some 0)).

(** The byte at an offset of the buffer; [None] outside of it. *)
Definition byte_at (b : Bitset) (off : Z) : option Z :=
  l ← bit_buffer_ b; if 0 <=? off then l !! Z.to_nat off else None.

Definition set_byte (b : Bitset) (off v : Z) : Bitset :=
  mkBitset (bits_ b) ((fun l => <[Z.to_nat off := v]> l) <$> bit_buffer_ b).

(** [this->bit_buffer_[off] = f (this->bit_buffer_[off])]. *)
Definition update_byte (off : Z) (f : Z -> Z) : M unit := fun b =>
  match byte_at b off with
  | Some y => Some (set_byte b off (f y), Ok tt)
  | None => None
  end.

(** The operators of [bitraits], on a byte and the mask of one of its bits. *)
(** daf/Bitset.cpp:359-366 [bitraits::operator_and]. *)
Definition traits_and (val : bool) (byte mask : Z) : Z :=
  if val then byte else Z.land byte (Z.lnot mask).
(** daf/Bitset.cpp:368-375 [bitraits::operator_or]. *)
Definition traits_or (val : bool) (byte mask : Z) : Z :=
  if val then Z.lor byte mask else byte.
(** daf/Bitset.cpp:377-388 [bitraits::operator_xor]. *)
Definition traits_xor (val : bool) (byte mask : Z) : Z :=
  if val then Z.lxor byte mask
  else if negb (Z.land byte mask =? 0) then byte
  else Z.land byte (Z.lnot mask).
(** daf/Bitset.cpp:390-399 [bitraits::operator_assign]. *)
Definition traits_set (val : bool) (byte mask : Z) : Z :=
  if val then Z.lor byte mask else Z.land byte (Z.lnot mask).
(** daf/Bitset.cpp:401-405 [bitraits::operator_not]. *)
Definition traits_not (byte mask : Z) : Z := Z.lxor byte mask.

(** daf/Bitset.cpp:343-355 [Bitset::trim_bits]. The mask of the first [n] bits of a byte. *)
Fixpoint block_mask (n : nat) : Z :=
  match n with
  | O => 0
  | S n => Z.lor (block_mask n) (bit_mask (Z.of_nat n))
  end.

(** daf/Bitset.cpp:343-355 [Bitset::trim_bits]. *)
Definition trim_bits : M unit :=
  b ← this;
  let bits := bits_ b in
  if negb (bits mod 8 =? 0) then
    update_byte (to_int (bits / 8)) (fun y => Z.land y (block_mask (Z.to_nat (bits mod 8))))
  else mret tt.

Section ops.
Context `{AceMinMax} (alloc : Z -> bool).

(** Whether the code's test accepts a bit count: the count is converted to
    [int] first. *)
Definition count_ok (bits : Z) : bool := ace_range 0 INT_MAX (to_int bits) =? to_int bits.

(** Whether a position is one of the bits. *)
Definition bit_ok (b : Bitset) (bit : Z) : bool :=
  nonnull b && (ace_range 0 (bits_ b - 1) bit =? bit).

(** daf/Bitset.cpp:310-317 [Bitset::operator_subscript]. *)
Definition at_ (b : Bitset) (bit : Z) : option (result bool) :=
  if bit_ok b bit then
    y ← byte_at b (to_int (bit / 8)); Some (Ok (negb (Z.land y (bit_mask bit) =? 0)))
  else Some (Throw IndexOutOfRange).

(** daf/Bitset.cpp:301-308 [Bitset::operator_subscript]. An operator of [bitraits] applied to
    the bit [bit] of the object. *)
Definition with_bit (bit : Z) (f : Z -> Z -> Z) : M unit :=
  b ← this;
  if bit_ok b bit then update_byte (to_int (bit / 8)) (fun y => f y (bit_mask bit))
  else throw IndexOutOfRange.

(** [this->bit_buffer_.reset(p)], with the check of [p] that follows. *)
Definition new_buffer (len : Z) (p : list Z) : M unit :=
  b ← this;
  if alloc len then set_this (mkBitset (bits_ b) (Some p))
  else _ ← set_this (mkBitset (bits_ b) None); throw ResourceExhaustionException.

(** [memcpy] of the first [len] bytes of a bitset's buffer. *)
Definition bytes_of (b : Bitset) (len : Z) : option (list Z) :=
  l ← bit_buffer_ b; if Z.of_nat (length l) <? len then None else Some (take (Z.to_nat len) l).

Definition filled (len : Z) (val : bool) : list Z :=
  replicate (Z.to_nat len) (if val then 255 else 0).

(** What a constructor leaves: the object, unless it threw. *)
Definition constructed (m : option (Bitset * result unit)) : option (result Bitset) :=
  '(b, r) ← m; Some (_ ← r; Ok b).

(** daf/Bitset.cpp:53-73 [Bitset::Bitset]. *)
Definition construct (bits : Z) (val : bool) : option (result Bitset) :=
  constructed (
    (if count_ok bits then
       let len := bit_bytes bits in
       if negb (len =? 0) then
         _ ← new_buffer len (filled len val);
         if val then trim_bits else mret tt
       else mret tt
     else throw IllegalArgumentException) (mkBitset bits None)).

(** daf/Bitset.cpp:75-86 [Bitset::Bitset]. *)
Definition copy (r : Bitset) : option (result Bitset) :=
  constructed (
    (let len := bit_bytes (bits_ r) in
     if negb (len =? 0) then
       p ← lift (Ok <$> bytes_of r len); new_buffer len p
     else mret tt) (mkBitset (bits_ r) None)).

(** daf/Bitset.cpp:133-155 [Bitset::operator_assign]. *)
Definition assign (o : operand) : M unit :=
  match o with
  | Self => mret tt
  | Other r =>
      b ← this;
      _ ← set_this (mkBitset (bits_ r) (bit_buffer_ b));
      let len := bit_bytes (bits_ r) in
      if negb (len =? 0) then
        if alloc len then p ← lift (Ok <$> bytes_of r len); new_buffer len p
        else new_buffer len []
      else set_this (mkBitset (bits_ r) None)
  end.

(** daf/Bitset.cpp:319-341 [Bitset::reset]. *)
Definition reset (bits : Z) (val : bool) : M unit :=
  if count_ok bits then
    let len := bit_bytes bits in
    b ← this;
    _ ← set_this (mkBitset 0 (bit_buffer_ b));
    if negb (len =? 0) then
      _ ← new_buffer len (filled len val);
      b ← this;
      _ ← set_this (mkBitset bits (bit_buffer_ b));
      if val then trim_bits else mret tt
    else set_this (mkBitset 0 None)
  else throw IllegalArgumentException.

(** daf/Bitset.cpp:292-299 [Bitset::flip]. The loop over [i = this->size(); i--;]. *)
Fixpoint flip_loop (i : nat) : M unit :=
  match i with
  | O => mret tt
  | S i => _ ← update_byte (to_int (Z.of_nat i)) (fun y => Z.lxor y 255); flip_loop i
  end.

(** daf/Bitset.cpp:292-299 [Bitset::flip]. *)
Definition flip : M unit :=
  b ← this; _ ← flip_loop (Z.to_nat (size b)); trim_bits.

(** daf/Bitset.cpp:196-204 [Bitset::operator_and_assign]. The loop shared by [&=], [|=] and [^=]: single bits down to a
    byte boundary, then whole bytes. *)
Fixpoint span_loop (fuel : nat) (traits : bool -> Z -> Z -> Z) (bytes : Z -> Z -> Z)
    (r : Bitset) (bit : Z) : M unit :=
  match fuel with
  | O => fault
  | S fuel =>
      if bit =? 0 then mret tt
      else if negb (Z.rem bit 8 =? 0) then
        let bit := bit - 1 in
        v ← lift (at_ r bit);
        _ ← with_bit bit (traits v);
        span_loop fuel traits bytes r bit
      else if 0 <? Z.quot bit 8 then
        let i := Z.quot bit 8 - 1 in
        b ← this;
        q ← lift (Some (bit_buffer r i));
        p ← lift (Some (bit_buffer b i));
        match p, q ≫= byte_at r with
        | Some p, Some y => _ ← update_byte p (fun x => bytes x y);
                            span_loop fuel traits bytes r (bit - 8)
        | _, _ => fault
        end
      else mret tt
  end.

Definition span_op (traits : bool -> Z -> Z -> Z) (bytes : Z -> Z -> Z) (o : operand) : M unit :=
  match o with
  | Self => mret tt
  | Other r =>
      b ← this;
      let bit := to_int (ace_min (bits_ b) (bits_ r)) in
      span_loop (S (Z.to_nat bit)) traits bytes r bit
  end.

(** daf/Bitset.cpp:191-208 [Bitset::operator_and]. *)
Definition op_and : operand -> M unit := span_op traits_and Z.land.
(** daf/Bitset.cpp:210-227 [Bitset::operator_or]. *)
Definition op_or : operand -> M unit := span_op traits_or Z.lor.
(** daf/Bitset.cpp:229-246 [Bitset::operator_xor]. *)
Definition op_xor : operand -> M unit := span_op traits_xor Z.lxor.

(** C's [memcmp], as far as its sign. *)
Fixpoint memcmp (a b : list Z) : Z :=
  match a, b with
  | x :: a, y :: b => if x <? y then -1 else if y <? x then 1 else memcmp a b
  | _, _ => 0
  end.

(** daf/Bitset.cpp:248-264 [Bitset::compare_to]. *)
Definition compare_to (a : Bitset) (o : operand) : option Z :=
  match o with
  | Self => Some 0
  | Other b =>
      if (bits_ a =? bits_ b) && negb (size a =? 0) then
        x ← bytes_of a (size a); y ← bytes_of b (size a); Some (memcmp x y)
      else Some (to_int (to_size (bits_ a - bits_ b)))
  end.

(** daf/Bitset.cpp:117-127 [Bitset::operator_eq]. *)
Fixpoint eq_loop (fuel : nat) (a b : Bitset) (bit : Z) : option (result bool) :=
  match fuel with
  | O => None
  | S fuel =>
      if bit =? 0 then Some (Ok true)
      else if negb (Z.rem bit 8 =? 0) then
        let bit := bit - 1 in
        x ← at_ a bit;
        y ← at_ b bit;
        match x, y with
        | Ok x, Ok y => if eqb x y then eq_loop fuel a b bit else Some (Ok false)
        | Throw e, _ | _, Throw e => Some (Throw e)
        end
      else if 0 <? Z.quot bit 8 then
        x ← bytes_of a (Z.quot bit 8);
        y ← bytes_of b (Z.quot bit 8);
        Some (Ok (memcmp x y =? 0))
      else Some (Ok true)
  end.

(** daf/Bitset.cpp:112-131 [Bitset::operator_eq]. *)
Definition op_eq (a : Bitset) (o : operand) : option (result bool) :=
  c ← compare_to a o;
  match o with
  | Other b =>
      if negb (c =? 0) then
        let bit := to_int (ace_min (bits_ a) (bits_ b)) in
        eq_loop (S (Z.to_nat bit)) a b bit
      else Some (Ok true)
  | Self => Some (Ok true)
  end.

(** daf/Bitset.cpp:184-186 [Bitset::operator_plus]. [n] bits left to copy. *)
Fixpoint append_loop (n : nat) (o : operand) (pos i : Z) : M unit :=
  match n with
  | O => mret tt
  | S n =>
      r ← deref o;
      v ← lift (at_ r i);
      _ ← with_bit pos (traits_set v);
      append_loop n o (pos + 1) (i + 1)
  end.

(** daf/Bitset.cpp:170-178 [Bitset::operator_plus]. A larger, zeroed buffer that starts with the old bytes. *)
Definition grow (len : Z) : M unit :=
  b ← this;
  if size b <? len then
    if alloc len then
      p ← lift (Ok <$> (if negb (bits_ b =? 0) then bytes_of b (size b) else Some []));
      set_this (mkBitset (bits_ b) (Some (p ++ replicate (Z.to_nat len - length p) 0)))
    else throw ResourceExhaustionException
  else mret tt.

(** daf/Bitset.cpp:157-189 [Bitset::operator_plus]. *)
Definition op_append (o : operand) : M unit :=
  b ← this;
  let pos := bits_ b in
  r ← deref o;
  if nonnull r then
    let bits := to_size (pos + bits_ r) in
    if count_ok bits then
      _ ← grow (bit_bytes bits);
      b ← this;
      _ ← set_this (mkBitset bits (bit_buffer_ b));
      r ← deref o;
      _ ← append_loop (Z.to_nat (bits_ r)) o pos 0;
      trim_bits
    else throw IllegalArgumentException
  else mret tt.

(** daf/Bitset.cpp:272-272 [Bitset::subits]. [n] bits left to copy from [src] at [pos]. *)
Fixpoint subits_loop (n : nat) (src : Bitset) (pos i : Z) : M unit :=
  match n with
  | O => mret tt
  | S n =>
      v ← lift (at_ src pos);
      _ ← with_bit i (traits_set v);
      subits_loop n src (pos + 1) (i + 1)
  end.

(** daf/Bitset.cpp:266-277 [Bitset::subits]. *)
Definition subits (b : Bitset) (pos len : Z) : option (result Bitset) :=
  if nonnull b && (ace_range 0 (to_int (bits_ b - 1)) pos =? pos) then
    let bits := ace_min (bits_ b - pos) (to_size len) in
    c ← construct bits false;
    match c with
    | Ok c => constructed (subits_loop (Z.to_nat bits) b pos 0 c)
    | Throw e => Some (Throw e)
    end
  else Some (Throw IndexOutOfRange).

(** daf/Bitset.cpp:284-286 [Bitset::erase]. The final position. *)
Fixpoint erase_loop (fuel : nat) (pos epos : Z) : M Z :=
  match fuel with
  | O => fault
  | S fuel =>
      b ← this;
      if to_size epos <? bits_ b then
        v ← lift (at_ b epos);
        _ ← with_bit pos (traits_set v);
        erase_loop fuel (pos + 1) (epos + 1)
      else mret pos
  end.

(** daf/Bitset.cpp:279-290 [Bitset::erase]. *)
Definition erase (pos len : Z) : M unit :=
  b ← this;
  if nonnull b && (ace_range 0 (to_int (bits_ b - 1)) pos =? pos) then
    let bits := ace_min (bits_ b - pos) (to_size len) in
    pos ← erase_loop (S (Z.to_nat (bits_ b))) pos (to_int (pos + bits));
    b ← this;
    _ ← set_this (mkBitset pos (bit_buffer_ b));
    trim_bits
  else throw IndexOutOfRange.

(** A free operator: a copy of its left operand, changed in place. *)
Definition on_copy (b : Bitset) (m : M unit) : option (result Bitset) :=
  c ← copy b;
  match c with
  | Ok c => constructed (m c)
  | Throw e => Some (Throw e)
  end.

(** daf/Bitset.h:205-208 [operator_and]. *)
Definition bits_and (a b : Bitset) : option (result Bitset) := on_copy a (op_and (Other b)).
(** daf/Bitset.h:210-213 [operator_or]. *)
Definition bits_or (a b : Bitset) : option (result Bitset) := on_copy a (op_or (Other b)).
(** daf/Bitset.h:215-218 [operator_xor]. *)
Definition bits_xor (a b : Bitset) : option (result Bitset) := on_copy a (op_xor (Other b)).
(** daf/Bitset.h:220-223 [operator_plus]. *)
Definition bits_plus (a b : Bitset) : option (result Bitset) := on_copy a (op_append (Other b)).
(** daf/Bitset.h:225-228 [operator_complement]. *)
Definition bits_not (b : Bitset) : option (result Bitset) :=
  c ← construct (bits_ b) true;
  match c with
  | Ok c => constructed (op_xor (Other b) c)
  | Throw e => Some (Throw e)
  end.
(** daf/Bitset.h:230-233 [operator_bang]. *)
Definition is_clear (b : Bitset) : option (result bool) :=
  c ← construct (bits_ b) false;
  match c with
  | Ok c => op_eq c (Other b)
  | Throw e => Some (Throw e)
  end.
End ops.
