(* ===== verification/BitsetSpec.v ===== *)
(** * Bitsets as lists of booleans

    [bitf b i] is bit [i] of a bitset's buffer; every operation is described by
    what it does to that function, and from there as an operation on the list
    [contents b]. *)

From S2P Require Import Prelude Bitset.

(** ** Specification *)

Definition buf (b : Bitset) : list Z := default [] (bit_buffer_ b).

Definition bitl (l : list Z) (i : Z) : bool :=
  Z.testbit (default 0 (l !! Z.to_nat (i / 8))) (7 - i mod 8).

Definition bitf (b : Bitset) (i : Z) : bool := bitl (buf b) i.

(** The bits fit the buffer. *)
Definition fits (b : Bitset) : Prop :=
  0 <= bits_ b <= INT_MAX
  /\ (bits_ b <> 0 -> bit_buffer_ b <> None)
  /\ size b <= Z.of_nat (length (buf b))
  /\ Forall is_byte (buf b).

(** The unused bits of the last byte are zero, as [trim_bits] leaves them. *)
Definition trimmed (b : Bitset) : Prop :=
  forall i, bits_ b <= i < 8 * size b -> bitf b i = false.

(** The object invariant. *)
Definition wf (b : Bitset) : Prop := fits b /\ trimmed b.

(** The bits, first one first. *)
Definition contents (b : Bitset) : list bool :=
  (fun k => bitf b (Z.of_nat k)) <$> seq 0 (Z.to_nat (bits_ b)).

Lemma contents_length b : length (contents b) = Z.to_nat (bits_ b).
Proof. unfold contents. by rewrite length_fmap, length_seq. Qed.

Lemma contents_lookup b k :
  contents b !! k = if bool_decide (k < Z.to_nat (bits_ b))%nat then Some (bitf b (Z.of_nat k)) else None.
Proof.
  unfold contents. rewrite list_lookup_fmap. case_bool_decide.
  - by rewrite lookup_seq_lt.
  - by rewrite lookup_seq_ge by lia.
Qed.

Lemma contents_ext b l :
  Z.of_nat (length l) = bits_ b ->
  (forall k x, l !! k = Some x -> bitf b (Z.of_nat k) = x) -> contents b = l.
Proof.
  intros Hl Hb. apply list_eq. intros k. rewrite contents_lookup. case_bool_decide as Hk.
  - destruct (lookup_lt_is_Some_2 l k) as [x Hx]; [lia|]. by rewrite Hx, (Hb k x Hx).
  - symmetry. apply lookup_ge_None_2. lia.
Qed.

(** ** The monad *)

Lemma bind_this {A} (k : Bitset -> M A) b : (this ≫= k) b = k b b.
Proof. done. Qed.

Lemma bind_set {A} b' (k : unit -> M A) b : (set_this b' ≫= k) b = k tt b'.
Proof. done. Qed.

Lemma bind_ret {A B} (a : A) (k : A -> M B) b : (mret a ≫= k) b = k a b.
Proof. done. Qed.

Lemma bind_lift {A B} (a : A) (k : A -> M B) b : (lift (Some (Ok a)) ≫= k) b = k a b.
Proof. done. Qed.

Lemma bind_throw {A B} e (k : A -> M B) b : (throw e ≫= k) b = Some (b, Throw e).
Proof. done. Qed.

Lemma bind_Ok {A B} (m : M A) (k : A -> M B) b b' a :
  m b = Some (b', Ok a) -> (m ≫= k) b = k a b'.
Proof. intros E. unfold mbind, M_bind. by rewrite E. Qed.

Lemma bind_Throw {A B} (m : M A) (k : A -> M B) b b' e :
  m b = Some (b', Throw e) -> (m ≫= k) b = Some (b', Throw e).
Proof. intros E. unfold mbind, M_bind. by rewrite E. Qed.

#[export] Hint Rewrite @bind_this @bind_set @bind_ret @bind_lift @bind_throw : daf_rw.

(** Run the steps of a program in [M] that need no lemma. *)
Ltac run := autorewrite with daf_rw; cbn beta iota zeta.

(** ** Bytes and masks *)

Lemma bit_mask_pow bit : bit_mask bit = 2 ^ (7 - bit mod 8).
Proof.
  unfold bit_mask. pose proof (Z.mod_pos_bound bit 8 ltac:(lia)) as H.
  generalize dependent (bit mod 8). intros m H.
  assert (m = 0 \/ m = 1 \/ m = 2 \/ m = 3 \/ m = 4 \/ m = 5 \/ m = 6 \/ m = 7) as Hm by lia.
  by repeat destruct Hm as [->|Hm]; [..|subst].
Qed.

(** The effect of an update of one bit of a byte, checked on all bytes. *)
Definition traits_ok (f : Z -> Z -> Z) (g : bool -> bool) (y : Z) : bool :=
  forallb (fun k =>
    (0 <=? f y (2 ^ Z.of_nat k)) && (f y (2 ^ Z.of_nat k) <? 256) &&
    forallb (fun j =>
      eqb (Z.testbit (f y (2 ^ Z.of_nat k)) (Z.of_nat j))
          (if (j =? k)%nat then g (Z.testbit y (Z.of_nat j)) else Z.testbit y (Z.of_nat j)))
      (seq 0 8)) (seq 0 8).

Definition good_traits (f : Z -> Z -> Z) (g : bool -> bool) : Prop := forall y k,
  is_byte y -> 0 <= k < 8 ->
  is_byte (f y (2 ^ k))
  /\ forall j, 0 <= j < 8 ->
     Z.testbit (f y (2 ^ k)) j = if j =? k then g (Z.testbit y j) else Z.testbit y j.

Lemma good_traits_check f g :
  forallb (fun n => traits_ok f g (Z.of_nat n)) (seq 0 256) = true -> good_traits f g.
Proof.
  intros H y k Hy Hk. apply (forall_byte _ y) in H; [|done].
  unfold traits_ok in H. rewrite forallb_forall in H.
  specialize (H (Z.to_nat k)). rewrite Z2Nat.id in H by lia.
  specialize (H ltac:(apply in_seq; lia)). rewrite !andb_true_iff in H.
  destruct H as [[H1 H2] H3]. split; [unfold is_byte; lia|]. intros j Hj.
  rewrite forallb_forall in H3. specialize (H3 (Z.to_nat j) ltac:(apply in_seq; lia)).
  rewrite Z2Nat.id in H3 by lia. apply eqb_prop in H3. rewrite H3.
  destruct (Z.eqb_spec j k), (Nat.eqb_spec (Z.to_nat j) (Z.to_nat k)); try done; lia.
Qed.

Lemma good_and v : good_traits (traits_and v) (fun x => x && v).
Proof. apply good_traits_check. destruct v; vm_compute; reflexivity. Qed.
Lemma good_or v : good_traits (traits_or v) (fun x => x || v).
Proof. apply good_traits_check. destruct v; vm_compute; reflexivity. Qed.
Lemma good_xor v : good_traits (traits_xor v) (fun x => xorb x v).
Proof. apply good_traits_check. destruct v; vm_compute; reflexivity. Qed.
Lemma good_set v : good_traits (traits_set v) (fun _ => v).
Proof. apply good_traits_check. destruct v; vm_compute; reflexivity. Qed.
Lemma good_not : good_traits traits_not negb.
Proof. apply good_traits_check. vm_compute; reflexivity. Qed.
#[export] Hint Resolve good_and good_or good_xor good_set good_not : daf.

(** A boolean operation on bytes, bit by bit. *)
Definition good_bytes (h : Z -> Z -> Z) (g : bool -> bool -> bool) : Prop :=
  (forall x y, is_byte x -> is_byte y -> is_byte (h x y))
  /\ forall x y j, Z.testbit (h x y) j = g (Z.testbit x j) (Z.testbit y j).

Lemma byte_bits z : is_byte z <-> 0 <= z /\ forall j, 8 <= j -> Z.testbit z j = false.
Proof.
  unfold is_byte. split.
  - intros H. split; [lia|]. intros j Hj. apply Z.bits_above_log2; [lia|].
    destruct (Z.eq_dec z 0) as [->|]; [simpl; lia|]. apply Z.log2_lt_pow2; [lia|].
    apply Z.lt_le_trans with (2 ^ 8); [lia|]. apply Z.pow_le_mono_r; lia.
  - intros [Hz Hj]. split; [done|]. destruct (Z.lt_ge_cases z 256) as [|Hge]; [done|].
    assert (8 <= Z.log2 z) by (apply Z.log2_le_pow2; lia).
    specialize (Hj (Z.log2 z)). rewrite Z.bit_log2 in Hj by lia. discriminate Hj. done.
Qed.

Lemma good_bytes_and : good_bytes Z.land andb.
Proof.
  split; [|intros; apply Z.land_spec]. intros x y [Hx Hx']%byte_bits [Hy Hy']%byte_bits.
  apply byte_bits. split; [apply Z.land_nonneg; auto|]. intros j Hj. by rewrite Z.land_spec, Hx'.
Qed.
Lemma good_bytes_or : good_bytes Z.lor orb.
Proof.
  split; [|intros; apply Z.lor_spec]. intros x y [Hx Hx']%byte_bits [Hy Hy']%byte_bits.
  apply byte_bits. split; [apply Z.lor_nonneg; auto|]. intros j Hj. by rewrite Z.lor_spec, Hx', Hy'.
Qed.
Lemma good_bytes_xor : good_bytes Z.lxor xorb.
Proof.
  split; [|intros; apply Z.lxor_spec]. intros x y [Hx Hx']%byte_bits [Hy Hy']%byte_bits.
  apply byte_bits. split; [apply Z.lxor_nonneg; lia|]. intros j Hj. by rewrite Z.lxor_spec, Hx', Hy'.
Qed.
#[export] Hint Resolve good_bytes_and good_bytes_or good_bytes_xor : daf.

Lemma block_mask_spec n j :
  (n <= 8)%nat -> 0 <= j < 8 -> Z.testbit (block_mask n) (7 - j) = (j <? Z.of_nat n).
Proof.
  intros Hn Hj.
  assert (forallb (fun n => forallb (fun j => eqb (Z.testbit (block_mask n) (7 - Z.of_nat j))
            (Z.of_nat j <? Z.of_nat n)) (seq 0 8)) (seq 0 9) = true) as H by (vm_compute; done).
  rewrite forallb_forall in H. specialize (H n ltac:(apply in_seq; lia)).
  rewrite forallb_forall in H. specialize (H (Z.to_nat j) ltac:(apply in_seq; lia)).
  rewrite Z2Nat.id in H by lia. by apply eqb_prop in H.
Qed.

Lemma block_mask_nonneg n : 0 <= block_mask n.
Proof.
  induction n as [|n IH]; simpl; [lia|]. apply Z.lor_nonneg. split; [done|].
  rewrite bit_mask_pow. apply Z.pow_nonneg. lia.
Qed.

(** ** Updates of the buffer *)

Lemma bitl_insert l k v i :
  0 <= i -> (k < length l)%nat ->
  bitl (<[k := v]> l) i
  = if i / 8 =? Z.of_nat k then Z.testbit v (7 - i mod 8) else bitl l i.
Proof.
  intros Hi Hk. unfold bitl. destruct (Z.eqb_spec (i / 8) (Z.of_nat k)) as [->|Hne].
  - by rewrite Nat2Z.id, list_lookup_insert_eq.
  - rewrite list_lookup_insert_ne; [done|]. pose proof (Z.div_pos i 8). lia.
Qed.

Lemma bit_bytes_bounds n : 0 <= n -> n <= 8 * bit_bytes n <= n + 7.
Proof. intros Hn. unfold bit_bytes. destruct (Z.eqb_spec (n mod 8) 0); zdm. Qed.

Lemma bit_bytes_lt n i : 0 <= i < n -> i / 8 < bit_bytes n.
Proof. intros Hi. pose proof (bit_bytes_bounds n). zdm. Qed.

Lemma bit_bytes_mono n m : 0 <= n <= m -> bit_bytes n <= bit_bytes m.
Proof.
  intros H. unfold bit_bytes. destruct (Z.eqb_spec (n mod 8) 0), (Z.eqb_spec (m mod 8) 0); zdm.
Qed.

Lemma fits_null b : fits b -> bits_ b <> 0 -> bit_buffer_ b = Some (buf b).
Proof. intros (_ & Hn & _) Hb. unfold buf. destruct (bit_buffer_ b); [done|]. exfalso. by apply Hn. Qed.

Lemma nonnull_fits b : fits b -> nonnull b = negb (bits_ b =? 0).
Proof.
  intros Hf. unfold nonnull, bit_buffer. destruct (Z.eqb_spec (bits_ b) 0) as [|Hb]; [done|].
  cbn [negb]. rewrite (fits_null b Hf Hb). destruct Hf as (Hr & _).
  pose proof (bit_bytes_bounds (bits_ b)). unfold size.
  rewrite (proj2 (Z.leb_gt _ _)) by lia. by rewrite bool_decide_true.
Qed.

(** [b'] has the size and the capacity of [b], and the bits [g]. *)
Definition becomes (b b' : Bitset) (g : Z -> bool) : Prop :=
  fits b' /\ bits_ b' = bits_ b /\ length (buf b') = length (buf b)
  /\ forall i, 0 <= i -> bitf b' i = g i.

Lemma byte_at_fits b k :
  fits b -> bits_ b <> 0 -> 0 <= k < Z.of_nat (length (buf b)) ->
  byte_at b k = Some (default 0 (buf b !! Z.to_nat k)) /\ is_byte (default 0 (buf b !! Z.to_nat k)).
Proof.
  intros Hf Hb Hk. unfold byte_at. rewrite (fits_null b Hf Hb). cbn [mbind option_bind].
  rewrite (proj2 (Z.leb_le 0 k)) by lia.
  destruct (lookup_lt_is_Some_2 (buf b) (Z.to_nat k)) as [y Hy]; [lia|]. rewrite Hy. split; [done|].
  destruct Hf as (_ & _ & _ & Hby). by apply (Forall_lookup_1 _ _ _ _ Hby Hy).
Qed.

Lemma update_byte_spec b k f :
  fits b -> bits_ b <> 0 -> 0 <= k < Z.of_nat (length (buf b)) ->
  (forall y, is_byte y -> is_byte (f y)) ->
  exists b', update_byte k f b = Some (b', Ok tt)
    /\ becomes b b' (fun i => if i / 8 =? k
                              then Z.testbit (f (default 0 (buf b !! Z.to_nat k))) (7 - i mod 8)
                              else bitf b i).
Proof.
  intros Hf Hb Hk Hbyte. destruct (byte_at_fits b k Hf Hb Hk) as [E Hy].
  unfold update_byte. rewrite E. eexists. split; [reflexivity|].
  set (v := f _) in *. assert (buf (set_byte b k v) = <[Z.to_nat k := v]> (buf b)) as Eb.
  { unfold buf, set_byte. simpl. rewrite (fits_null b Hf Hb). done. }
  destruct Hf as (H1 & H2 & H3 & H4). unfold becomes, fits, bitf, size in *. rewrite Eb, length_insert.
  cbn [set_byte bits_ bit_buffer_]. repeat split; try (lia || done).
  - intros _. destruct (bit_buffer_ b); [done|]. simpl in *. by destruct H2.
  - apply Forall_insert; [done|]. by apply Hbyte.
  - intros i Hi. rewrite bitl_insert by lia. by rewrite Z2Nat.id by lia.
Qed.

Lemma becomes_refl b : fits b -> becomes b b (bitf b).
Proof. by repeat split; apply H || intros; apply H. Qed.

Lemma becomes_trans b b1 b2 g1 g2 : becomes b b1 g1 -> becomes b1 b2 g2 -> becomes b b2 g2.
Proof. intros (F1 & E1 & L1 & G1) (F2 & E2 & L2 & G2). repeat split; try apply F2; [congruence..|done]. Qed.

Lemma becomes_ext b b' g h :
  becomes b b' g -> (forall i, 0 <= i -> g i = h i) -> becomes b b' h.
Proof. intros (F & E & L & G) Hh. split; [done|]. repeat split; [done..|]. intros i Hi. by rewrite G, Hh. Qed.

(** ** trim_bits *)

Lemma trim_bits_spec b :
  fits b ->
  exists b', trim_bits b = Some (b', Ok tt)
    /\ becomes b b' (fun i => bitf b i && negb ((bits_ b <=? i) && (i <? 8 * size b))).
Proof.
  intros Hf. pose proof Hf as (Hr & _ & Hs & _). unfold trim_bits. run.
  destruct (Z.eqb_spec (bits_ b mod 8) 0) as [E|E]; cbn [negb].
  - exists b. split; [done|]. apply (becomes_ext _ _ _ _ (becomes_refl b Hf)). intros i Hi.
    assert (8 * size b = bits_ b) as ->.
    { unfold size, bit_bytes. rewrite E. simpl. zdm. }
    destruct (Z.leb_spec (bits_ b) i), (Z.ltb_spec i (bits_ b)); simpl; try lia; by rewrite andb_true_r.
  - assert (size b = bits_ b / 8 + 1) as Es.
    { unfold size, bit_bytes. by rewrite (proj2 (Z.eqb_neq _ _) E). }
    rewrite to_int_small by (unfold INT_MAX in *; zdm).
    destruct (update_byte_spec b (bits_ b / 8) (fun y => Z.land y (block_mask (Z.to_nat (bits_ b mod 8)))))
      as (b' & Eb & Hb'); [done|intros H0; by rewrite H0 in E|zdm| |].
    + intros y [Hy0 Hy]%byte_bits. apply byte_bits. split; [apply Z.land_nonneg; auto|].
      intros j Hj. by rewrite Z.land_spec, Hy.
    + exists b'. split; [exact Eb|]. apply (becomes_ext _ _ _ _ Hb'). intros i Hi.
      destruct (Z.eqb_spec (i / 8) (bits_ b / 8)) as [Hd|Hd].
      * rewrite Z.land_spec, block_mask_spec by zdm. unfold bitf, bitl. rewrite Hd. f_equal.
        rewrite Z2Nat.id by zdm. rewrite Es.
        destruct (Z.ltb_spec (i mod 8) (bits_ b mod 8)), (Z.leb_spec (bits_ b) i),
          (Z.ltb_spec i (8 * (bits_ b / 8 + 1))); simpl; try done; zdm.
      * rewrite Es. destruct (Z.leb_spec (bits_ b) i), (Z.ltb_spec i (8 * (bits_ b / 8 + 1)));
          simpl; rewrite ?andb_true_r; try done. zdm.
Qed.

(** Trimming establishes the invariant and keeps the contents. *)
Lemma trim_bits_wf b :
  fits b ->
  exists b', trim_bits b = Some (b', Ok tt) /\ wf b' /\ bits_ b' = bits_ b /\ contents b' = contents b.
Proof.
  intros Hf. destruct (trim_bits_spec b Hf) as (b' & E & Hf' & Eb & El & G).
  exists b'. split; [done|]. split; [|split; [done|]].
  - split; [done|]. intros i Hi. unfold size in Hi. rewrite Eb in Hi.
    rewrite G by (destruct Hf; lia). unfold size.
    rewrite (proj2 (Z.leb_le _ _)), (proj2 (Z.ltb_lt _ _)) by lia. apply andb_false_r.
  - apply contents_ext; [rewrite contents_length, Eb; destruct Hf; lia|].
    intros k x. rewrite contents_lookup. case_bool_decide; [|done]. intros [= <-].
    rewrite G by lia. destruct (Z.leb_spec (bits_ b) (Z.of_nat k)); [lia|]. simpl. by rewrite andb_true_r.
Qed.

(** ** Single bits *)

Section laws.
Context `{AceMinMaxLaws}.

Lemma bit_ok_fits b i : fits b -> bit_ok b i = (0 <=? i) && (i <? bits_ b).
Proof.
  intros Hf. unfold bit_ok. rewrite nonnull_fits, ace_range_spec by done. destruct Hf as (Hr & _).
  destruct (Z.eqb_spec (bits_ b) 0), (Z.leb_spec 0 i), (Z.ltb_spec i (bits_ b)); simpl; lia.
Qed.

Lemma at_fits b i :
  fits b -> at_ b i = Some (if (0 <=? i) && (i <? bits_ b) then Ok (bitf b i) else Throw IndexOutOfRange).
Proof.
  intros Hf. unfold at_. rewrite bit_ok_fits by done. pose proof Hf as (Hr & _ & Hs & _).
  destruct (Z.leb_spec 0 i), (Z.ltb_spec i (bits_ b)); simpl; try done.
  pose proof (bit_bytes_lt (bits_ b) i). unfold size in Hs.
  rewrite to_int_small by (unfold INT_MAX in *; zdm).
  destruct (byte_at_fits b (i / 8) Hf) as [-> _]; [lia|zdm|]. simpl. do 2 f_equal.
  unfold bitf, bitl. rewrite bit_mask_pow. set (y := default 0 _). set (k := 7 - i mod 8).
  assert (0 <= k) by (subst k; zdm).
  rewrite <- (Z.mul_1_l (2 ^ k)), <- Z.shiftl_mul_pow2 by done.
  destruct (Z.eqb_spec (Z.land y (Z.shiftl 1 k)) 0) as [E|E]; simpl.
  - symmetry. apply (f_equal (fun z => Z.testbit z k)) in E.
    rewrite Z.land_spec, Z.shiftl_spec, Z.sub_diag, Z.bits_0, andb_true_r in E by done. done.
  - symmetry. destruct (Z.testbit y k) eqn:Ey; [done|]. destruct E. apply Z.bits_inj_0. intros j.
    rewrite Z.land_spec. destruct (Z.eq_dec j k) as [->|]; [by rewrite Ey|].
    destruct (Z.lt_ge_cases j 0); [by rewrite Z.testbit_neg_r|].
    rewrite Z.shiftl_spec by done. destruct (Z.lt_ge_cases j k).
    + by rewrite (Z.testbit_neg_r 1), andb_false_r by lia.
    + rewrite (Z.bits_above_log2 1), andb_false_r by (simpl; lia). done.
Qed.

Lemma with_bit_spec b i f g :
  fits b -> good_traits f g -> 0 <= i < bits_ b ->
  exists b', with_bit i f b = Some (b', Ok tt)
    /\ becomes b b' (fun j => if j =? i then g (bitf b i) else bitf b j).
Proof.
  intros Hf Hg Hi. pose proof Hf as (Hr & _ & Hs & _). unfold with_bit. run.
  rewrite bit_ok_fits by done. rewrite (proj2 (Z.leb_le 0 i)), (proj2 (Z.ltb_lt i _)) by lia. cbn [andb].
  pose proof (bit_bytes_lt (bits_ b) i). unfold size in Hs.
  rewrite to_int_small, bit_mask_pow by (unfold INT_MAX in *; zdm).
  assert (0 <= 7 - i mod 8 < 8) as Hk by zdm.
  destruct (update_byte_spec b (i / 8) (fun y => f y (2 ^ (7 - i mod 8)))) as (b' & E & Hb');
    [done|lia|zdm|intros y Hy; by apply (Hg y _ Hy Hk)|].
  exists b'. split; [exact E|]. apply (becomes_ext _ _ _ _ Hb'). intros j Hj.
  destruct (byte_at_fits b (i / 8) Hf) as [_ Hy]; [lia|zdm|].
  destruct (Hg _ _ Hy Hk) as [_ Hbit]. unfold bitf, bitl.
  destruct (Z.eqb_spec (j / 8) (i / 8)) as [Ed|Ed].
  - rewrite Hbit, Ed by zdm. destruct (Z.eqb_spec j i) as [->|Hne]; [by rewrite Z.eqb_refl|].
    rewrite (proj2 (Z.eqb_neq _ _)) by zdm. done.
  - destruct (Z.eqb_spec j i) as [->|]; [lia|done].
Qed.

(** ** The loops *)

Lemma becomes_fits b b' g : becomes b b' g -> fits b'.
Proof. by intros [Hf _]. Qed.

Lemma span_loop_spec fuel traits h g r bit b :
  (forall v, good_traits (traits v) (fun x => g x v)) -> good_bytes h g ->
  fits b -> fits r -> 0 <= bit <= Z.min (bits_ b) (bits_ r) -> (Z.to_nat bit < fuel)%nat ->
  exists b', span_loop fuel traits h r bit b = Some (b', Ok tt)
    /\ becomes b b' (fun i => if i <? bit then g (bitf b i) (bitf r i) else bitf b i).
Proof.
  intros Ht Hh. revert bit b. induction fuel as [|fuel IH]; intros bit b Hb Hr Hbit Hf; [lia|].
  cbn [span_loop]. destruct (Z.eqb_spec bit 0) as [->|Hne].
  { exists b. split; [done|]. apply (becomes_ext _ _ _ _ (becomes_refl b Hb)). intros i Hi.
    by rewrite (proj2 (Z.ltb_ge i 0)) by lia. }
  rewrite Z.rem_mod_nonneg, Z.quot_div_nonneg by lia.
  destruct (Z.eqb_spec (bit mod 8) 0) as [E|E]; cbn [negb].
  - rewrite (proj2 (Z.ltb_lt 0 _)) by zdm. run.
    pose proof Hb as (Hb1 & _ & Hb2 & _). pose proof Hr as (Hr1 & _ & Hr2 & _).
    pose proof (bit_bytes_lt (bits_ b) (bit - 1) ltac:(lia)).
    pose proof (bit_bytes_lt (bits_ r) (bit - 1) ltac:(lia)).
    assert (forall c, fits c -> bit <= bits_ c -> bit_buffer c (bit / 8 - 1) = Ok (Some (bit / 8 - 1))) as Hbuf.
    { intros c Hc Hcb. unfold bit_buffer. rewrite (proj2 (Z.eqb_neq _ _)) by lia. cbn [negb].
      rewrite (fits_null c Hc) by lia. pose proof (bit_bytes_lt (bits_ c) (bit - 1) ltac:(lia)).
      unfold size. rewrite (proj2 (Z.leb_gt _ _)) by zdm. done. }
    rewrite (Hbuf b), (Hbuf r) by (done || lia). run. cbn [mbind option_bind].
    unfold size in *.
    destruct (byte_at_fits r (bit / 8 - 1) Hr) as [-> Hy]; [lia|zdm|].
    set (y := default 0 _) in *.
    destruct (update_byte_spec b (bit / 8 - 1) (fun x => h x y)) as (b1 & E1 & F1 & B1 & L1 & G1);
      [done|lia|zdm|intros; by apply Hh|].
    rewrite (bind_Ok _ _ _ _ _ E1).
    destruct (IH (bit - 8) b1) as (b2 & E2 & Hb2'); [done..|rewrite B1; zdm|lia|].
    exists b2. split; [exact E2|].
    eapply becomes_ext; [eapply becomes_trans; [exact (conj F1 (conj B1 (conj L1 G1)))|exact Hb2']|].
    intros i Hi. cbv beta. rewrite (G1 i Hi).
    destruct (Z.ltb_spec i (bit - 8)), (Z.ltb_spec i bit), (Z.eqb_spec (i / 8) (bit / 8 - 1)) as [Ei|Ei];
      try zdm; try done.
    rewrite (proj2 Hh). subst y. unfold bitf, bitl. by rewrite Ei.
  - run. pose proof Hb as (Hb1 & _). rewrite at_fits by done.
    rewrite (proj2 (Z.leb_le 0 _)), (proj2 (Z.ltb_lt _ _)) by lia. cbn [andb]. run.
    destruct (with_bit_spec b (bit - 1) (traits (bitf r (bit - 1))) (fun x => g x (bitf r (bit - 1))))
      as (b1 & E1 & F1 & B1 & L1 & G1); [done|apply Ht|lia|].
    rewrite (bind_Ok _ _ _ _ _ E1).
    destruct (IH (bit - 1) b1) as (b2 & E2 & Hb2'); [done..|rewrite B1; lia|lia|].
    exists b2. split; [exact E2|].
    eapply becomes_ext; [eapply becomes_trans; [exact (conj F1 (conj B1 (conj L1 G1)))|exact Hb2']|].
    intros i Hi. cbv beta. rewrite (G1 i Hi).
    destruct (Z.ltb_spec i (bit - 1)), (Z.ltb_spec i bit), (Z.eqb_spec i (bit - 1)) as [->|];
      try lia; done.
Qed.

(** Copying [n] bits of [r] from [i] on to [pos] on. *)
Lemma append_loop_spec n r pos i b :
  fits b -> fits r -> 0 <= pos -> pos + Z.of_nat n <= bits_ b -> 0 <= i -> i + Z.of_nat n <= bits_ r ->
  exists b', append_loop n (Other r) pos i b = Some (b', Ok tt)
    /\ becomes b b' (fun j => if (pos <=? j) && (j <? pos + Z.of_nat n)
                              then bitf r (i + (j - pos)) else bitf b j).
Proof.
  intros Hb Hr. revert pos i b Hb. induction n as [|n IH]; intros pos i b Hb Hp1 Hp2 Hi1 Hi2.
  { exists b. split; [done|]. apply (becomes_ext _ _ _ _ (becomes_refl b Hb)). intros j Hj.
    destruct (Z.leb_spec pos j), (Z.ltb_spec j (pos + Z.of_nat 0)); simpl; try done; lia. }
  cbn [append_loop deref]. run. rewrite at_fits by done.
  rewrite (proj2 (Z.leb_le 0 _)), (proj2 (Z.ltb_lt _ _)) by lia. cbn [andb]. run.
  destruct (with_bit_spec b pos (traits_set (bitf r i)) (fun _ => bitf r i))
    as (b1 & E1 & F1 & B1 & L1 & G1); [done|apply good_set|lia|].
  rewrite (bind_Ok _ _ _ _ _ E1).
  destruct (IH (pos + 1) (i + 1) b1) as (b2 & E2 & Hb2); [done|rewrite ?B1; lia..|].
  exists b2. split; [exact E2|].
  eapply becomes_ext; [eapply becomes_trans; [exact (conj F1 (conj B1 (conj L1 G1)))|exact Hb2]|].
  intros j Hj. cbv beta. rewrite (G1 j Hj).
  destruct (Z.leb_spec (pos + 1) j), (Z.leb_spec pos j), (Z.ltb_spec j (pos + 1 + Z.of_nat n)),
    (Z.ltb_spec j (pos + Z.of_nat (S n))), (Z.eqb_spec j pos); simpl; try lia; try done.
  - f_equal. lia.
  - subst. f_equal. lia.
Qed.

Lemma subits_loop_append n src pos i b :
  subits_loop n src pos i b = append_loop n (Other src) i pos b.
Proof.
  revert pos i b. induction n as [|n IH]; intros pos i b; [done|].
  cbn [subits_loop append_loop deref]. run. unfold mbind, M_bind.
  destruct (lift _ b) as [[b1 [v|e]]|]; try done.
  destruct (with_bit _ _ b1) as [[b2 [[]|e]]|]; done.
Qed.

Lemma erase_loop_spec fuel pos epos b :
  fits b -> 0 <= pos <= epos -> epos <= bits_ b -> (Z.to_nat (bits_ b - epos) < fuel)%nat ->
  exists b', erase_loop fuel pos epos b = Some (b', Ok (pos + (bits_ b - epos)))
    /\ becomes b b' (fun j => if (pos <=? j) && (j <? pos + (bits_ b - epos))
                              then bitf b (epos + (j - pos)) else bitf b j).
Proof.
  revert pos epos b. induction fuel as [|fuel IH]; intros pos epos b Hb Hp He Hf; [lia|].
  cbn [erase_loop]. run. pose proof Hb as (Hr & _).
  rewrite to_size_small by (unfold INT_MAX, SIZE_MOD in *; lia).
  destruct (Z.ltb_spec epos (bits_ b)) as [Hlt|Hge].
  - rewrite at_fits by done.
    rewrite (proj2 (Z.leb_le 0 _)), (proj2 (Z.ltb_lt _ _)) by lia. cbn [andb]. run.
    destruct (with_bit_spec b pos (traits_set (bitf b epos)) (fun _ => bitf b epos))
      as (b1 & E1 & F1 & B1 & L1 & G1); [done|apply good_set|lia|].
    rewrite (bind_Ok _ _ _ _ _ E1).
    destruct (IH (pos + 1) (epos + 1) b1) as (b2 & E2 & Hb2); [done|rewrite ?B1; lia..|].
    rewrite B1 in *. exists b2. split; [rewrite E2; do 3 f_equal; lia|].
    eapply becomes_ext; [eapply becomes_trans; [exact (conj F1 (conj B1 (conj L1 G1)))|exact Hb2]|].
    intros j Hj. cbv beta. rewrite (G1 j Hj).
    destruct (Z.leb_spec (pos + 1) j), (Z.leb_spec pos j), (Z.ltb_spec j (pos + 1 + (bits_ b - (epos + 1)))),
      (Z.ltb_spec j (pos + (bits_ b - epos))), (Z.eqb_spec j pos); simpl; try lia; try done.
    + rewrite G1 by lia. rewrite (proj2 (Z.eqb_neq _ _)) by lia. f_equal. lia.
    + subst. f_equal. lia.
  - exists b. split; [unfold mret, M_ret; do 3 f_equal; lia|].
    apply (becomes_ext _ _ _ _ (becomes_refl b Hb)). intros j Hj.
    destruct (Z.leb_spec pos j), (Z.ltb_spec j (pos + (bits_ b - epos))); simpl; try done; lia.
Qed.

Lemma flip_loop_spec n b :
  fits b -> bits_ b <> 0 -> Z.of_nat n <= size b ->
  exists b', flip_loop n b = Some (b', Ok tt)
    /\ becomes b b' (fun j => if j / 8 <? Z.of_nat n then negb (bitf b j) else bitf b j).
Proof.
  revert b. induction n as [|n IH]; intros b Hb Hne Hn.
  { exists b. split; [done|]. apply (becomes_ext _ _ _ _ (becomes_refl b Hb)). intros j Hj.
    rewrite (proj2 (Z.ltb_ge _ _)); [done|]. zdm. }
  cbn [flip_loop]. pose proof Hb as (Hr & _ & Hs & _).
  pose proof (bit_bytes_bounds (bits_ b)). unfold size in *.
  rewrite to_int_small by (unfold INT_MAX in *; lia).
  destruct (update_byte_spec b (Z.of_nat n) (fun y => Z.lxor y 255)) as (b1 & E1 & F1 & B1 & L1 & G1);
    [done..|lia| |].
  { intros y Hy. by apply good_bytes_xor. }
  rewrite (bind_Ok _ _ _ _ _ E1).
  destruct (IH b1) as (b2 & E2 & Hb2); [done|congruence|rewrite B1; lia|].
  exists b2. split; [exact E2|].
  eapply becomes_ext; [eapply becomes_trans; [exact (conj F1 (conj B1 (conj L1 G1)))|exact Hb2]|].
  intros j Hj. cbv beta. rewrite (G1 j Hj).
  assert (forall k, 0 <= k < 8 -> Z.testbit 255 k = true) as H255.
  { intros k Hk. change 255 with (Z.ones 8). by apply Z.ones_spec_low. }
  destruct (Z.ltb_spec (j / 8) (Z.of_nat n)), (Z.ltb_spec (j / 8) (Z.of_nat (S n))),
    (Z.eqb_spec (j / 8) (Z.of_nat n)) as [Ej|]; try lia; try done.
  rewrite Z.lxor_spec, H255, xorb_true_r by zdm. unfold bitf, bitl. by rewrite Ej.
Qed.

(** ** Sizes, buffers and construction *)

Lemma count_ok_spec n : 0 <= n < 2 ^ 32 -> count_ok n = (n <=? INT_MAX).
Proof.
  intros Hn. unfold count_ok. rewrite ace_range_spec. unfold INT_MAX.
  destruct (Z.leb_spec n 2147483647) as [Hle|Hgt].
  - rewrite to_int_small by (unfold INT_MAX; lia). lia.
  - assert (to_int n = n - 2 ^ 32) as ->; [|lia]. unfold to_int. zdm.
Qed.

Lemma filled_bits n val i :
  0 <= i < 8 * n -> bitl (filled n val) i = val.
Proof.
  intros Hi. unfold bitl, filled. rewrite lookup_replicate_2 by zdm. cbn [default].
  destruct val; [|apply Z.bits_0]. change 255 with (Z.ones 8). apply Z.ones_spec_low. zdm.
Qed.

Lemma filled_bytes n val : Forall is_byte (filled n val).
Proof. apply Forall_replicate. destruct val; unfold is_byte; lia. Qed.

Lemma fits_mk n p :
  0 <= n <= INT_MAX -> bit_bytes n <= Z.of_nat (length p) -> Forall is_byte p ->
  fits (mkBitset n (Some p)).
Proof. intros Hn Hl Hp. split; [exact Hn|]. split; [done|]. by split. Qed.

Lemma fits_0 o : Forall is_byte (default [] o) -> fits (mkBitset 0 o).
Proof. intros Ho. repeat split; simpl; try done. unfold size, buf. simpl. change (bit_bytes 0) with 0. lia. Qed.

Lemma wf_0 o : Forall is_byte (default [] o) -> wf (mkBitset 0 o).
Proof. split; [by apply fits_0|]. intros i. unfold size. simpl. change (bit_bytes 0) with 0. lia. Qed.

(** A buffer of equal bytes, trimmed when they are not zero. *)
Lemma fill_spec n (v : bool) :
  0 <= n <= INT_MAX ->
  exists b, (if v then trim_bits else mret tt : M unit) (mkBitset n (Some (filled (bit_bytes n) v))) = Some (b, Ok tt)
    /\ wf b /\ contents b = replicate (Z.to_nat n) v.
Proof.
  intros Hn. pose proof (bit_bytes_bounds n ltac:(lia)) as Hbb.
  set (b := mkBitset n _). assert (fits b) as Hf.
  { apply fits_mk; [done| |apply filled_bytes]. unfold filled. rewrite length_replicate. lia. }
  assert (forall i, 0 <= i < 8 * bit_bytes n -> bitf b i = v) as Hv by apply filled_bits.
  assert (contents b = replicate (Z.to_nat n) v) as Hc.
  { apply contents_ext; [rewrite length_replicate; simpl; lia|].
    intros k x [-> Hk]%lookup_replicate. apply Hv. lia. }
  destruct v.
  - destruct (trim_bits_wf b Hf) as (b' & E & Hw & _ & Ec). exists b'. by rewrite Ec.
  - exists b. split; [done|]. split; [|done]. split; [done|]. intros i Hi. apply Hv. simpl in Hi. unfold size in Hi. simpl in Hi. lia.
Qed.

(** After [grow] the buffer is large enough and starts with the old bits. *)
Lemma bitl_take l n i :
  0 <= i < 8 * n -> bitl (take (Z.to_nat n) l) i = bitl l i.
Proof. intros Hi. unfold bitl. rewrite lookup_take_lt by zdm. done. Qed.

Lemma bitl_app l l' i :
  0 <= i < 8 * Z.of_nat (length l) -> bitl (l ++ l') i = bitl l i.
Proof. intros Hi. unfold bitl. rewrite lookup_app_l by zdm. done. Qed.

(** The single bits of the contents. *)
Lemma contents_at b k : 0 <= k < bits_ b -> contents b !! Z.to_nat k = Some (bitf b k).
Proof. intros Hk. rewrite contents_lookup, bool_decide_true, Z2Nat.id by lia. done. Qed.

Lemma becomes_trimmed b b' g :
  becomes b b' g -> (forall i, bits_ b <= i < 8 * size b -> g i = false) -> 0 <= bits_ b -> wf b'.
Proof.
  intros (Hf & Eb & _ & G) Hg Hb. split; [done|]. intros i. unfold size. rewrite Eb. intros Hi.
  rewrite G by lia. apply Hg. exact Hi.
Qed.
End laws.

Section building.
Context `{AceMinMaxLaws} (alloc : Z -> bool).

Lemma new_buffer_Ok len p b :
  alloc len = true -> new_buffer alloc len p b = Some (mkBitset (bits_ b) (Some p), Ok tt).
Proof. intros Ha. unfold new_buffer. run. by rewrite Ha. Qed.

Lemma new_buffer_Throw len p b :
  alloc len = false ->
  new_buffer alloc len p b = Some (mkBitset (bits_ b) None, Throw ResourceExhaustionException).
Proof. intros Ha. unfold new_buffer. run. by rewrite Ha. Qed.

Lemma construct_spec n v :
  0 <= n <= INT_MAX -> alloc (bit_bytes n) = true ->
  exists b, construct alloc n v = Some (Ok b) /\ wf b /\ contents b = replicate (Z.to_nat n) v.
Proof.
  intros Hn Ha. unfold construct. rewrite count_ok_spec by (unfold INT_MAX in *; lia).
  rewrite (proj2 (Z.leb_le _ _)) by lia.
  pose proof (bit_bytes_bounds n ltac:(lia)) as Hbb.
  destruct (Z.eqb_spec (bit_bytes n) 0) as [E0|E0]; cbn [negb].
  - assert (n = 0) as -> by lia. exists (mkBitset 0 None). split; [done|]. split; [by apply wf_0|done].
  - destruct (fill_spec n v Hn) as (b & Eb & Hw & Hc). exists b. split; [|done].
    rewrite (bind_Ok _ _ _ _ _ (new_buffer_Ok _ _ _ Ha)). cbn [bits_]. by rewrite Eb.
Qed.

End building.

Section growing.
Context `{AceMinMaxLaws} (alloc : Z -> bool).

(** After [grow] the buffer is large enough and starts with the old bits. *)
Lemma grow_spec b len :
  fits b -> (bits_ b <> 0 \/ 0 < len) -> size b <= len -> (size b < len -> alloc len = true) ->
  exists p, grow alloc len b = Some (mkBitset (bits_ b) (Some p), Ok tt)
    /\ len <= Z.of_nat (length p) /\ Forall is_byte p
    /\ forall i, 0 <= i < bits_ b -> bitl p i = bitf b i.
Proof.
  intros Hf Hne Hle Hal. pose proof Hf as (Hr & Hn & Hs & Hby).
  pose proof (bit_bytes_bounds (bits_ b) ltac:(lia)) as Hbb. fold (size b) in Hbb.
  unfold grow. run. destruct (Z.ltb_spec (size b) len) as [Hlt|Hge].
  - rewrite Hal by done.
    assert (exists q, (if negb (bits_ b =? 0) then bytes_of b (size b) else Some []) = Some q
      /\ Z.of_nat (length q) = size b /\ Forall is_byte q
      /\ forall i, 0 <= i < 8 * size b -> bitl q i = bitf b i) as (q & -> & Hl & Hq & Hb).
    { destruct (Z.eqb_spec (bits_ b) 0) as [E|E]; cbn [negb].
      - exists []. repeat split; [simpl; lia|constructor|]. lia.
      - unfold bytes_of. rewrite (fits_null b Hf E). cbn [mbind option_bind].
        rewrite (proj2 (Z.ltb_ge _ _)) by lia. eexists. split; [reflexivity|].
        rewrite length_take. repeat split; [lia|by apply Forall_take|]. intros i Hi.
        by apply bitl_take. }
    cbn [fmap option_fmap option_map]. run. eexists. split; [reflexivity|].
    rewrite length_app, length_replicate. split; [lia|]. split.
    + apply Forall_app. split; [done|]. apply Forall_replicate. unfold is_byte. lia.
    + intros i Hi. rewrite bitl_app by lia. apply Hb. lia.
  - exists (buf b). assert (bits_ b <> 0) as Hnz.
    { destruct Hne as [|Hpos]; [done|]. intros E. assert (size b = 0); [|lia]. unfold size. by rewrite E. }
    split; [|split; [lia|by split]]. rewrite <- (fits_null b Hf Hnz). by destruct b.
Qed.
End growing.

Section copying.
Context `{AceMinMaxLaws} (alloc : Z -> bool).

Lemma copy_spec r :
  wf r -> alloc (size r) = true ->
  exists c, copy alloc r = Some (Ok c) /\ wf c /\ contents c = contents r.
Proof.
  intros [Hf Ht] Hal. pose proof Hf as (Hr & Hn & Hs & Hby). unfold copy. fold (size r).
  pose proof (bit_bytes_bounds (bits_ r) ltac:(lia)) as Hbb. fold (size r) in Hbb.
  destruct (Z.eqb_spec (size r) 0) as [E0|E0]; cbn [negb].
  - exists (mkBitset (bits_ r) None). replace (bits_ r) with 0 by lia. split; [done|].
    split; [by apply wf_0|]. unfold contents. by replace (bits_ r) with 0 by lia.
  - unfold bytes_of. rewrite (fits_null r Hf) by lia. cbn [mbind option_bind].
    rewrite (proj2 (Z.ltb_ge _ _)) by lia. cbn [fmap option_fmap option_map]. run.
    rewrite new_buffer_Ok by done. cbn [bits_]. eexists. split; [reflexivity|].
    set (p := take _ _). assert (Z.of_nat (length p) = size r) as Hp.
    { unfold p. rewrite length_take. lia. }
    assert (forall i, 0 <= i < 8 * size r -> bitf (mkBitset (bits_ r) (Some p)) i = bitf r i) as Hb.
    { intros i Hi. by apply bitl_take. }
    assert (fits (mkBitset (bits_ r) (Some p))) as Hfp.
    { apply fits_mk; [done|unfold size in *; lia|by apply Forall_take]. }
    split.
    + split; [done|]. intros i Hi. unfold size in *. simpl in *. rewrite Hb by lia. by apply Ht.
    + apply contents_ext; [rewrite contents_length; simpl; lia|]. intros k x Hk.
      rewrite contents_lookup in Hk. case_bool_decide; [|done]. injection Hk as <-. apply Hb. lia.
Qed.

(** Assignment gives what the copy constructor gives. *)
Lemma assign_copy r b :
  wf r -> alloc (size r) = true ->
  exists c, copy alloc r = Some (Ok c) /\ assign alloc (Other r) b = Some (c, Ok tt).
Proof.
  intros [Hf _] Hal. pose proof Hf as (Hr & Hn & Hs & Hby). unfold copy, assign. run. fold (size r).
  pose proof (bit_bytes_bounds (bits_ r) ltac:(lia)) as Hbb. fold (size r) in Hbb.
  destruct (Z.eqb_spec (size r) 0) as [E0|E0]; cbn [negb].
  - by eexists.
  - rewrite Hal. unfold bytes_of. rewrite (fits_null r Hf) by lia. cbn [mbind option_bind].
    rewrite (proj2 (Z.ltb_ge _ _)) by lia. cbn [fmap option_fmap option_map]. run.
    rewrite !new_buffer_Ok by done. by eexists.
Qed.

Lemma reset_spec n v b :
  wf b -> 0 <= n <= INT_MAX -> alloc (bit_bytes n) = true ->
  exists b', reset alloc n v b = Some (b', Ok tt) /\ wf b' /\ contents b' = replicate (Z.to_nat n) v.
Proof.
  intros _ Hn Ha. unfold reset. rewrite count_ok_spec by (unfold INT_MAX in *; lia).
  rewrite (proj2 (Z.leb_le _ _)) by lia. run. pose proof (bit_bytes_bounds n ltac:(lia)) as Hbb.
  destruct (Z.eqb_spec (bit_bytes n) 0) as [E0|E0]; cbn [negb].
  - exists (mkBitset 0 None). split; [done|]. split; [by apply wf_0|]. by replace n with 0 by lia.
  - rewrite (bind_Ok _ _ _ _ _ (new_buffer_Ok alloc _ _ _ Ha)). run. cbn [bit_buffer_].
    by apply fill_spec.
Qed.
End copying.

(** ** Comparison

    [memcmp] on the bytes is the lexicographic order of the bits. *)

Fixpoint lexb (l r : list bool) : Z :=
  match l, r with
  | x :: l, y :: r => if eqb x y then lexb l r else if y then -1 else 1
  | _, _ => 0
  end.

Definition byte_list (y : Z) : list bool := (fun k => Z.testbit y (7 - Z.of_nat k)) <$> seq 0 8.
Definition bits_of (l : list Z) : list bool := l ≫= byte_list.

Lemma lexb_app l1 l2 r1 r2 :
  length l1 = length r1 ->
  lexb (l1 ++ l2) (r1 ++ r2) = if lexb l1 r1 =? 0 then lexb l2 r2 else lexb l1 r1.
Proof.
  revert r1. induction l1 as [|x l1 IH]; intros [|y r1]; simpl; try done. intros [= Hl].
  destruct (eqb x y); [by apply IH|]. by destruct y.
Qed.

Lemma lexb_refl l : lexb l l = 0.
Proof. induction l as [|x l IH]; simpl; [done|]. by rewrite eqb_reflx. Qed.

Lemma lexb_sgn l r : Z.sgn (lexb l r) = lexb l r.
Proof.
  revert r. induction l as [|x l IH]; intros [|y r]; simpl; try done.
  destruct (eqb x y); [apply IH|by destruct y].
Qed.

Lemma lexb_eq l r : length l = length r -> lexb l r = 0 -> l = r.
Proof.
  revert r. induction l as [|x l IH]; intros [|y r]; simpl; try done. intros [= Hl].
  destruct (eqb x y) eqn:E; [|by destruct y]. apply eqb_prop in E as ->. intros H. f_equal. by apply IH.
Qed.

Lemma lexb_bytes x y :
  is_byte x -> is_byte y ->
  lexb (byte_list x) (byte_list y) = if x <? y then -1 else if y <? x then 1 else 0.
Proof.
  intros Hx Hy. apply Z.eqb_eq.
  apply (forall_byte (fun y => lexb (byte_list x) (byte_list y)
                               =? (if x <? y then -1 else if y <? x then 1 else 0)) y); [|done].
  apply (forall_byte (fun x => forallb (fun n => lexb (byte_list x) (byte_list (Z.of_nat n))
           =? (if x <? Z.of_nat n then -1 else if Z.of_nat n <? x then 1 else 0)) (seq 0 256)) x); [|done].
  vm_compute. reflexivity.
Qed.

Lemma memcmp_lexb l r :
  length l = length r -> Forall is_byte l -> Forall is_byte r ->
  memcmp l r = lexb (bits_of l) (bits_of r).
Proof.
  intros Hl Hx Hy. revert r Hl Hy. induction Hx as [|x l Hx _ IH]; intros [|y r]; try done.
  intros [= Hl] Hy. inversion_clear Hy. cbn [memcmp bits_of mbind list_bind].
  rewrite lexb_app, lexb_bytes by done.
  destruct (Z.ltb_spec x y), (Z.ltb_spec y x); try done. by apply IH.
Qed.

Lemma bits_of_length l : length (bits_of l) = (8 * length l)%nat.
Proof.
  induction l as [|y l IH]; [done|]. change (bits_of (y :: l)) with (byte_list y ++ bits_of l).
  rewrite length_app, IH. simpl. lia.
Qed.

Lemma bits_of_lookup l k :
  (k < 8 * length l)%nat -> bits_of l !! k = Some (bitl l (Z.of_nat k)).
Proof.
  revert k. induction l as [|y l IH]; intros k Hk; [simpl in Hk; lia|].
  change (bits_of (y :: l)) with (byte_list y ++ bits_of l).
  assert (length (byte_list y) = 8%nat) as Hy by done.
  destruct (Nat.lt_ge_cases k 8) as [Hlt|Hge].
  - rewrite lookup_app_l by lia. unfold byte_list. rewrite list_lookup_fmap, lookup_seq_lt by done.
    cbn [fmap option_fmap option_map]. unfold bitl. rewrite Z.div_small, Z.mod_small by lia.
    simpl. do 2 f_equal. 
  - rewrite lookup_app_r, Hy by lia.
    rewrite IH by (simpl in Hk; lia). f_equal. unfold bitl.
    replace (Z.of_nat k) with (Z.of_nat (k - 8) + 1 * 8) by (rewrite Nat2Z.inj_sub by done; lia).
    rewrite Z.div_add, Z.mod_add by lia.
    rewrite Z2Nat.inj_add by zdm. rewrite Nat.add_comm. done.
Qed.

(** The bytes [compare_to] reads are the contents and the zero padding. *)
Lemma bits_of_contents b :
  wf b -> bits_of (take (Z.to_nat (size b)) (buf b))
          = contents b ++ replicate (Z.to_nat (8 * size b - bits_ b)) false.
Proof.
  intros [(Hr & _ & Hs & _) Ht]. pose proof (bit_bytes_bounds (bits_ b) ltac:(lia)) as Hbb.
  fold (size b) in Hbb. apply list_eq. intros k.
  destruct (Nat.lt_ge_cases k (Z.to_nat (8 * size b))) as [Hk|Hk].
  - rewrite bits_of_lookup, bitl_take by (rewrite ?length_take; lia).
    destruct (Nat.lt_ge_cases k (Z.to_nat (bits_ b))).
    + rewrite lookup_app_l, contents_lookup, bool_decide_true by (rewrite ?contents_length; lia). done.
    + rewrite lookup_app_r, lookup_replicate_2 by (rewrite contents_length; lia).
      f_equal. apply Ht. lia.
  - rewrite !lookup_ge_None_2; [done|..].
    + rewrite length_app, contents_length, length_replicate. lia.
    + rewrite bits_of_length, length_take. lia.
Qed.

(** The reference order: by length, then lexicographic. *)
Definition bit_order (l r : list bool) : Z :=
  if decide (length l = length r) then lexb l r
  else Z.sgn (Z.of_nat (length l) - Z.of_nat (length r)).

Lemma bytes_of_fits b n :
  fits b -> bits_ b <> 0 -> 0 <= n <= Z.of_nat (length (buf b)) ->
  bytes_of b n = Some (take (Z.to_nat n) (buf b)).
Proof.
  intros Hf Hne Hn. unfold bytes_of. rewrite (fits_null b Hf Hne). cbn [mbind option_bind].
  by rewrite (proj2 (Z.ltb_ge _ _)) by lia.
Qed.

Lemma compare_bit_order a b :
  wf a -> wf b ->
  exists c, compare_to a (Other b) = Some c /\ Z.sgn c = bit_order (contents a) (contents b).
Proof.
  intros Ha Hb. pose proof Ha as [Ha' _]. pose proof Hb as [Hb' _].
  pose proof Ha' as (Ha1 & _ & Ha3 & Ha4). pose proof Hb' as (Hb1 & _ & Hb3 & Hb4).
  unfold compare_to, bit_order. rewrite !contents_length.
  pose proof (bit_bytes_bounds (bits_ a) ltac:(lia)) as Hbb. fold (size a) in Hbb.
  destruct (Z.eqb_spec (bits_ a) (bits_ b)) as [E|E].
  - rewrite decide_True by lia. destruct (Z.eqb_spec (size a) 0) as [E0|E0]; cbn [andb negb].
    + rewrite E, Z.sub_diag. exists 0. split; [done|]. unfold contents.
      replace (bits_ b) with 0 by lia. replace (bits_ a) with 0 by lia. done.
    + assert (size b = size a) as Es by (unfold size; by rewrite E).
      rewrite !bytes_of_fits by (done || lia). cbn [mbind option_bind].
      eexists. split; [reflexivity|].
      rewrite memcmp_lexb by (rewrite ?length_take; lia || by apply Forall_take).
      rewrite (bits_of_contents a Ha), <- Es, (bits_of_contents b Hb), Es, E.
      rewrite lexb_app by (rewrite !contents_length; lia). rewrite lexb_refl.
      destruct (Z.eqb_spec (lexb (contents a) (contents b)) 0) as [->|]; [done|apply lexb_sgn].
  - rewrite decide_False by lia. cbn [andb]. eexists. split; [reflexivity|].
    rewrite !Z2Nat.id by lia. f_equal. unfold to_int, to_size, INT_MAX, SIZE_MOD in *. zdm.
Qed.

(** Whether two bitsets agree on their first [n] bits. *)
Lemma agree_take a b n :
  0 <= n <= bits_ a -> n <= bits_ b ->
  take (Z.to_nat n) (contents a) = take (Z.to_nat n) (contents b)
  <-> forall i, 0 <= i < n -> bitf a i = bitf b i.
Proof.
  intros H1 H2. split.
  - intros E i Hi. apply (f_equal (fun l => l !! Z.to_nat i)) in E.
    rewrite !lookup_take_lt, !contents_at in E by lia. by injection E.
  - intros Hb. apply list_eq. intros k. destruct (Nat.lt_ge_cases k (Z.to_nat n)).
    + rewrite !lookup_take_lt, !contents_lookup, !bool_decide_true by lia. f_equal. apply Hb. lia.
    + rewrite !lookup_take_ge by lia. done.
Qed.

Section equality.
Context `{AceMinMaxLaws}.

Lemma eq_loop_spec fuel a b bit :
  fits a -> fits b -> 0 <= bit <= Z.min (bits_ a) (bits_ b) -> (Z.to_nat bit < fuel)%nat ->
  exists v, eq_loop fuel a b bit = Some (Ok v)
    /\ (v = true <-> forall i, 0 <= i < bit -> bitf a i = bitf b i).
Proof.
  intros Ha Hb. pose proof Ha as (Ha1 & _ & Ha3 & Ha4). pose proof Hb as (Hb1 & _ & Hb3 & Hb4).
  revert bit. induction fuel as [|fuel IH]; intros bit Hbit Hf; [lia|].
  cbn [eq_loop]. destruct (Z.eqb_spec bit 0) as [->|Hne].
  { exists true. split; [done|]. split; [intros _ i Hi; lia|done]. }
  rewrite Z.rem_mod_nonneg, Z.quot_div_nonneg by lia.
  destruct (Z.eqb_spec (bit mod 8) 0) as [E|E]; cbn [negb].
  - rewrite (proj2 (Z.ltb_lt 0 _)) by zdm.
    pose proof (bit_bytes_lt (bits_ a) (bit - 1) ltac:(lia)).
    pose proof (bit_bytes_lt (bits_ b) (bit - 1) ltac:(lia)). unfold size in *.
    rewrite !bytes_of_fits by (done || zdm). cbn [mbind option_bind].
    eexists. split; [reflexivity|]. rewrite Z.eqb_eq.
    rewrite memcmp_lexb by (rewrite ?length_take; zdm || by apply Forall_take).
    set (x := take _ (buf a)). set (y := take _ (buf b)).
    assert (length (bits_of x) = Z.to_nat bit) as Hx.
    { rewrite bits_of_length. unfold x. rewrite length_take. zdm. }
    assert (length (bits_of y) = Z.to_nat bit) as Hy.
    { rewrite bits_of_length. unfold y. rewrite length_take. zdm. }
    assert (forall c l k, l = take (Z.to_nat (bit / 8)) (buf c) -> length (bits_of l) = Z.to_nat bit ->
      (k < Z.to_nat bit)%nat -> bits_of l !! k = Some (bitf c (Z.of_nat k))) as Hk.
    { intros c l k -> Hl Hlt. rewrite bits_of_lookup by (rewrite bits_of_length in Hl; lia).
      rewrite bitl_take by zdm. done. }
    split.
    + intros Hl0 i Hi. apply lexb_eq in Hl0; [|congruence].
      assert (Some (bitf a (Z.of_nat (Z.to_nat i))) = Some (bitf b (Z.of_nat (Z.to_nat i)))) as Es.
      { rewrite <- (Hk a x), <- (Hk b y) by (done || lia). by rewrite Hl0. }
      rewrite Z2Nat.id in Es by lia. by injection Es.
    + intros Hi. assert (bits_of x = bits_of y) as ->; [|apply lexb_refl].
      apply list_eq. intros k. destruct (Nat.lt_ge_cases k (Z.to_nat bit)).
      * rewrite (Hk a x), (Hk b y) by done. f_equal. apply Hi. lia.
      * rewrite !lookup_ge_None_2 by lia. done.
  - rewrite !at_fits by done.
    rewrite (proj2 (Z.leb_le 0 _)), !(proj2 (Z.ltb_lt _ _)) by lia. cbn [andb mbind option_bind].
    destruct (eqb (bitf a (bit - 1)) (bitf b (bit - 1))) eqn:Eb.
    + apply eqb_prop in Eb. destruct (IH (bit - 1)) as (v & -> & Hv); [lia..|].
      exists v. split; [done|]. rewrite Hv. split; intros Hi i Hr; [|apply Hi; lia].
      destruct (Z.eq_dec i (bit - 1)) as [->|]; [done|]. apply Hi. lia.
    + exists false. split; [done|]. split; [done|]. intros Hi. rewrite Hi, eqb_reflx in Eb by lia. done.
Qed.
End equality.

(** ** Properties *)

Section properties.
Context `{AceMinMaxLaws} (alloc : Z -> bool).

(** C2 (refinement). On well-formed bitsets the in-place operators [&=], [|=] and [^=],
    which mix single bits and whole bytes, apply the boolean operation with another bitset to
    every bit of the common span, leave the rest of the left operand alone, keep the
    invariant and never touch a byte outside the buffers.  With the object itself as the
    operand all three leave it as it is: for [&=] and [|=] that is the operation too, while
    [^=] should have cleared it ([self_xor_not_cleared]). *)
Theorem bitops_spec op f a o :
  In (op, f) [(op_and, andb); (op_or, orb); (op_xor, xorb)] -> wf a -> (forall r, o = Other r -> wf r) ->
  exists a', op o a = Some (a', Ok tt) /\ wf a'
    /\ contents a' = match o with
                     | Other r => zip_with f (contents a) (contents r) ++ drop (length (contents r)) (contents a)
                     | Self => contents a
                     end.
Proof.
  intros Hop Hwa Ho. destruct o as [|r].
  { exists a. split; [|done]. by destruct Hop as [[= <- _]|[[= <- _]|[[= <- _]|[]]]]. }
  destruct Hwa as [Ha Hta]. destruct (Ho r eq_refl) as [Hr Htr]. clear Ho.
  assert (exists traits h, op = span_op traits h
    /\ (forall v, good_traits (traits v) (fun x => f x v)) /\ good_bytes h f) as (traits & h & -> & Ht & Hh).
  { destruct Hop as [[= <- <-]|[[= <- <-]|[[= <- <-]|[]]]]; do 2 eexists; (split; [reflexivity|auto with daf]). }
  pose proof Ha as (Ha1 & _). pose proof Hr as (Hr1 & _).
  unfold span_op. run. rewrite ace_min_spec, to_int_small by (unfold INT_MAX in *; lia).
  set (n := Z.min (bits_ a) (bits_ r)).
  destruct (span_loop_spec (S (Z.to_nat n)) traits h f r n a Ht Hh Ha Hr) as (a' & E & Hb); [lia..|].
  exists a'. split; [exact E|]. split.
  - apply (becomes_trimmed _ _ _ Hb); [|lia]. intros i Hi.
    rewrite (proj2 (Z.ltb_ge i n)) by lia. by apply Hta.
  - destruct Hb as (_ & Eb & _ & G). apply contents_ext.
    { rewrite Eb, length_app, length_zip_with, length_drop, !contents_length. lia. }
    intros k x. destruct (decide (Z.of_nat k < n)) as [Hk|Hk].
    + rewrite lookup_app_l by (rewrite length_zip_with, !contents_length; lia).
      rewrite lookup_zip_with, !contents_lookup, !bool_decide_true by lia. intros [= <-].
      rewrite G, (proj2 (Z.ltb_lt _ _)) by lia. done.
    + rewrite lookup_app_r by (rewrite length_zip_with, !contents_length; lia).
      rewrite lookup_drop, length_zip_with, !contents_length, contents_lookup.
      case_bool_decide; [|done]. intros [= <-]. rewrite G, (proj2 (Z.ltb_ge _ _)) by lia. f_equal. lia.
Qed.

(** A bitset that is combined with itself by [^=] keeps its bits. *)
Lemma self_xor_not_cleared a : contents a !! 0%nat = Some true ->
  exists a', op_xor Self a = Some (a', Ok tt) /\ contents a' !! 0%nat = Some true /\ zip_with xorb (contents a) (contents a) !! 0%nat = Some false.
Proof. intros E. exists a. split; [done|]. split; [done|]. by rewrite lookup_zip_with, E. Qed.

(** [+=] with another bitset appends its bits, whatever the alignment
    and whether or not the buffer has to grow, and keeps the invariant; when the total
    would exceed INT_MAX it throws IllegalArgumentException and changes nothing. *)
Theorem append_spec a r :
  wf a -> wf r -> (forall n, 0 < n -> alloc n = true) ->
  if bits_ a + bits_ r <=? INT_MAX
  then exists a', op_append alloc (Other r) a = Some (a', Ok tt) /\ wf a'
         /\ contents a' = contents a ++ contents r
  else op_append alloc (Other r) a = Some (a, Throw IllegalArgumentException).
Proof.
  intros [Ha Hta] [Hr Htr] Hal. pose proof Ha as (Ha1 & Ha2 & Ha3 & Ha4). pose proof Hr as (Hr1 & _).
  unfold op_append. cbn [deref]. run. rewrite nonnull_fits by done.
  destruct (Z.eqb_spec (bits_ r) 0) as [E0|E0]; cbn [negb].
  { rewrite E0, (proj2 (Z.leb_le _ _)) by lia. exists a. split; [done|]. split; [done|].
    unfold contents at 3. rewrite E0. simpl. by rewrite app_nil_r. }
  rewrite to_size_small by (unfold INT_MAX, SIZE_MOD in *; lia).
  rewrite count_ok_spec by (unfold INT_MAX in *; lia).
  destruct (Z.leb_spec (bits_ a + bits_ r) INT_MAX) as [Hle|]; [|done].
  set (n := bits_ a + bits_ r) in *.
  assert (exists p, grow alloc (bit_bytes n) a = Some (mkBitset (bits_ a) (Some p), Ok tt)
    /\ bit_bytes n <= Z.of_nat (length p) /\ Forall is_byte p
    /\ forall i, 0 <= i < bits_ a -> bitl p i = bitf a i) as (p & E & Hl & Hp & Hb).
  { pose proof (bit_bytes_bounds n ltac:(lia)). apply grow_spec; [done|lia|apply bit_bytes_mono; lia|]. intros _. apply Hal. lia. }
  rewrite (bind_Ok _ _ _ _ _ E). run. cbn [bit_buffer_].
  destruct (append_loop_spec (Z.to_nat (bits_ r)) r (bits_ a) 0 (mkBitset n (Some p)))
    as (b & Eb & Fb & Bb & Lb & Gb); [by apply fits_mk; (done || lia)|done|simpl; lia..|].
  rewrite (bind_Ok _ _ _ _ _ Eb). destruct (trim_bits_wf b Fb) as (a' & Et & Hw & Eb' & Ec).
  exists a'. split; [exact Et|]. split; [exact Hw|]. rewrite Ec. apply contents_ext.
  { rewrite length_app, !contents_length, Bb. simpl. lia. }
  intros k x Hk. rewrite Gb by lia. destruct (Z.leb_spec (bits_ a) (Z.of_nat k)) as [Hge|Hlt]; cbn [andb].
  - rewrite lookup_app_r, contents_length in Hk by (rewrite contents_length; lia).
    rewrite contents_lookup in Hk. case_bool_decide; [|done]. injection Hk as <-.
    rewrite (proj2 (Z.ltb_lt _ _)) by lia. f_equal. lia.
  - rewrite lookup_app_l, contents_lookup, bool_decide_true in Hk by (rewrite ?contents_length; lia).
    injection Hk as <-. by apply Hb; lia.
Qed.

(** [subits] gives the bits of a range and [erase] removes them, with
    the default length (-1) meaning the rest; both throw IndexOutOfRange, and [erase]
    changes nothing, exactly when the position is not a bit of the set. *)
Theorem subits_erase_spec b pos len :
  wf b -> (forall n, alloc n = true) -> - 2 ^ 31 <= len <= INT_MAX ->
  let n := if len <? 0 then bits_ b else len in
  if (0 <=? pos) && (pos <? bits_ b)
  then (exists c, subits alloc b pos len = Some (Ok c) /\ wf c
          /\ contents c = take (Z.to_nat n) (drop (Z.to_nat pos) (contents b)))
       /\ exists b', erase pos len b = Some (b', Ok tt) /\ wf b'
          /\ contents b' = take (Z.to_nat pos) (contents b)
                           ++ drop (Z.to_nat pos + Z.to_nat n) (contents b)
  else subits alloc b pos len = Some (Throw IndexOutOfRange)
       /\ erase pos len b = Some (b, Throw IndexOutOfRange).
Proof.
  intros [Hb Htb] Hal Hlen n. pose proof Hb as (Hb1 & _).
  assert (nonnull b && (ace_range 0 (to_int (bits_ b - 1)) pos =? pos)
          = (0 <=? pos) && (pos <? bits_ b)) as Eg.
  { rewrite nonnull_fits, ace_range_spec, to_int_small by (done || unfold INT_MAX in *; lia).
    destruct (Z.eqb_spec (bits_ b) 0), (Z.leb_spec 0 pos), (Z.ltb_spec pos (bits_ b)); simpl; lia. }
  unfold subits, erase. run. rewrite Eg. destruct (Z.leb_spec 0 pos) as [Hp0|]; [|done].
  destruct (Z.ltb_spec pos (bits_ b)) as [Hp1|]; [|done]. cbn [andb].
  assert (ace_min (bits_ b - pos) (to_size len) = Z.min (bits_ b - pos) n) as ->.
  { rewrite ace_min_spec. subst n. destruct (Z.ltb_spec len 0).
    - replace (to_size len) with (len + SIZE_MOD); [unfold SIZE_MOD, INT_MAX in *; lia|].
      unfold to_size, SIZE_MOD, INT_MAX in *. zdm.
    - by rewrite to_size_small by (unfold SIZE_MOD, INT_MAX in *; lia). }
  assert (0 <= n <= INT_MAX) as Hn by (subst n; destruct (Z.ltb_spec len 0); lia).
  clearbody n. set (m := Z.min (bits_ b - pos) n). split.
  - destruct (construct_spec alloc m false) as (c & -> & [Hc Htc] & Ec); [lia|done|]. cbn [mbind option_bind].
    assert (bits_ c = m) as Em.
    { apply (f_equal length) in Ec. rewrite contents_length, length_replicate in Ec. destruct Hc; lia. }
    rewrite subits_loop_append.
    destruct (append_loop_spec (Z.to_nat m) b 0 pos c) as (c' & -> & Hb'); [done|done|lia..|].
    exists c'. split; [done|]. pose proof Hb' as (Fc & Bc & _ & Gc).
    assert (contents c' = take (Z.to_nat n) (drop (Z.to_nat pos) (contents b))) as Econt.
    { apply contents_ext; [rewrite length_take, length_drop, contents_length; lia|].
      intros k x Hk. apply lookup_take_Some in Hk as [Hk Hkn].
      rewrite lookup_drop, contents_lookup in Hk. case_bool_decide; [|done]. injection Hk as <-.
      rewrite Gc, (proj2 (Z.leb_le _ _)), (proj2 (Z.ltb_lt _ _)) by lia. cbn [andb]. f_equal. lia. }
    split; [|done]. apply (becomes_trimmed _ _ _ Hb'); [|lia]. intros i Hi.
    rewrite (proj2 (Z.ltb_ge _ _)), andb_false_r by lia.
    by apply Htc.
  - rewrite to_int_small by (unfold INT_MAX in *; lia).
    destruct (erase_loop_spec (S (Z.to_nat (bits_ b))) pos (pos + m) b) as (b1 & E1 & F1 & B1 & L1 & G1);
      [done|lia..|].
    rewrite (bind_Ok _ _ _ _ _ E1). run.
    set (e := pos + (bits_ b - (pos + m))) in *.
    destruct (trim_bits_wf (mkBitset e (bit_buffer_ b1))) as (b' & E' & Hw & Eb' & Ec).
    { pose proof (becomes_fits _ _ _ (conj F1 (conj B1 (conj L1 G1)))) as (Hr1 & Hn1 & Hs1 & Hy1).
      pose proof (bit_bytes_mono e (bits_ b1) ltac:(lia)). unfold size in Hs1.
      split; [simpl; lia|]. split; [|split; [unfold size, buf in *; simpl; lia|exact Hy1]].
      intros _. apply Hn1. lia. }
    exists b'. split; [exact E'|]. split; [exact Hw|]. rewrite Ec. apply contents_ext.
    { rewrite length_app, length_take, length_drop, contents_length. simpl. lia. }
    intros k x Hk. change (bitf (mkBitset e (bit_buffer_ b1)) (Z.of_nat k)) with (bitf b1 (Z.of_nat k)).
    rewrite G1 by lia. destruct (Z.leb_spec pos (Z.of_nat k)) as [Hge|Hlt]; cbn [andb].
    + rewrite lookup_app_r in Hk by (rewrite length_take, contents_length; lia).
      rewrite lookup_drop, length_take, contents_length, contents_lookup in Hk.
      case_bool_decide; [|done]. injection Hk as <-.
      rewrite (proj2 (Z.ltb_lt _ _)) by lia. f_equal. lia.
    + rewrite lookup_app_l in Hk by (rewrite length_take, contents_length; lia).
      rewrite lookup_take_lt, contents_lookup, bool_decide_true in Hk by lia. by injection Hk as <-.
Qed.
(** [compare_to] is the order of the bit lists by length and then
    lexicographically, zero exactly on equal contents; [operator ==] says whether the
    two agree on their common span, which is what its documentation restricts it to. *)
Theorem bitset_compare_spec a b :
  wf a -> wf b ->
  (exists c, compare_to a (Other b) = Some c
     /\ Z.sgn c = bit_order (contents a) (contents b)
     /\ (c = 0 <-> contents a = contents b))
  /\ (let n := Nat.min (length (contents a)) (length (contents b)) in
      op_eq a (Other b)
      = Some (Ok (bool_decide (take n (contents a) = take n (contents b))))).
Proof.
  intros Ha Hb. destruct (compare_bit_order a b Ha Hb) as (c & E & Hc).
  pose proof (proj1 Ha) as Ha'. pose proof (proj1 Hb) as Hb'.
  pose proof Ha' as (Ha1 & _). pose proof Hb' as (Hb1 & _).
  assert (c = 0 <-> contents a = contents b) as Hc0.
  { rewrite <- Z.sgn_null_iff, Hc. unfold bit_order. split.
    - case_decide as Hl; [by apply lexb_eq|]. intros E0%Z.sgn_null_iff. lia.
    - intros ->. rewrite decide_True by done. apply lexb_refl. }
  split; [by exists c|]. unfold op_eq. rewrite E. cbn [mbind option_bind].
  assert (Nat.min (length (contents a)) (length (contents b)) = Z.to_nat (Z.min (bits_ a) (bits_ b))) as ->.
  { rewrite !contents_length. lia. }
  destruct (Z.eqb_spec c 0) as [Ec|Ec]; cbn [negb].
  - apply Hc0 in Ec. rewrite bool_decide_true; [done|]. by rewrite Ec.
  - rewrite ace_min_spec, to_int_small by (unfold INT_MAX in *; lia).
    destruct (eq_loop_spec (S (Z.to_nat (Z.min (bits_ a) (bits_ b)))) a b (Z.min (bits_ a) (bits_ b)))
      as (v & -> & Hv); [done|done|lia..|]. do 2 f_equal.
    rewrite <- agree_take in Hv by lia. destruct v; symmetry.
    + apply bool_decide_true. by apply Hv.
    + apply bool_decide_false. intros Ht. by apply Hv in Ht.
Qed.

(** [flip] negates every bit in place, and [operator ~] builds the
    negated bitset; the unused bits of the last byte stay zero. *)
Theorem flip_complement_spec b :
  wf b -> alloc (size b) = true ->
  (exists b', flip b = Some (b', Ok tt) /\ wf b' /\ contents b' = negb <$> contents b)
  /\ (exists c, bits_not alloc b = Some (Ok c) /\ wf c /\ contents c = negb <$> contents b).
Proof.
  intros [Hb Hbt] Hal. pose proof Hb as (Hr & _).
  pose proof (bit_bytes_bounds (bits_ b) ltac:(lia)) as Hbb. fold (size b) in Hbb. split.
  - unfold flip. run. destruct (Z.eq_dec (bits_ b) 0) as [E0|E0].
    + assert (size b = 0) as -> by (unfold size; by rewrite E0). cbn [Z.to_nat flip_loop]. run.
      destruct (trim_bits_wf b Hb) as (b' & E & Hw & _ & Ec). exists b'. rewrite Ec.
      split; [exact E|]. split; [exact Hw|]. unfold contents. by rewrite E0.
    + destruct (flip_loop_spec (Z.to_nat (size b)) b Hb E0) as (b1 & E1 & F1 & B1 & L1 & G1); [lia|].
      rewrite (bind_Ok _ _ _ _ _ E1). destruct (trim_bits_wf b1 F1) as (b' & E & Hw & Eb & Ec).
      exists b'. split; [exact E|]. split; [exact Hw|]. rewrite Ec. apply contents_ext.
      { rewrite length_fmap, contents_length, B1. lia. }
      intros k x. rewrite list_lookup_fmap, contents_lookup. case_bool_decide; [|done]. intros [= <-].
      rewrite G1, (proj2 (Z.ltb_lt _ _)) by zdm. done.
  - unfold bits_not. destruct (construct_spec alloc (bits_ b) true Hr Hal) as (c & -> & [Hc Htc] & Ec).
    cbn [mbind option_bind].
    assert (bits_ c = bits_ b) as Em.
    { apply (f_equal length) in Ec. rewrite contents_length, length_replicate in Ec. destruct Hc; lia. }
    unfold op_xor, span_op. run.
    rewrite ace_min_spec, to_int_small by (unfold INT_MAX in *; lia).
    destruct (span_loop_spec (S (Z.to_nat (Z.min (bits_ c) (bits_ b)))) traits_xor Z.lxor xorb b
                (Z.min (bits_ c) (bits_ b)) c) as (c' & -> & Hb'); [auto with daf..|lia|lia|].
    exists c'. split; [done|]. split.
    + apply (becomes_trimmed _ _ _ Hb'); [|lia]. intros i Hi.
      rewrite (proj2 (Z.ltb_ge _ _)) by lia. by apply Htc.
    + destruct Hb' as (_ & Eb & _ & G). apply contents_ext.
      { rewrite length_fmap, contents_length. lia. }
      intros k x. rewrite list_lookup_fmap, contents_lookup. case_bool_decide as Hk; [|done]. intros [= <-].
      rewrite G, (proj2 (Z.ltb_lt _ _)) by lia.
      assert (contents c !! k = Some true) as Hck by (rewrite Ec; by apply lookup_replicate_2).
      rewrite contents_lookup, bool_decide_true in Hck by lia. injection Hck as ->. done.
Qed.
(** Copying and assigning give the same object, with the contents of
    the source; the constructor and [reset] give n copies of the initial value, and
    reject a count between INT_MAX and 2^32 without changing the object. *)
Theorem bitset_build_spec r b n v :
  wf r -> wf b -> (forall k, alloc k = true) -> 0 <= n < 2 ^ 32 ->
  (exists c, copy alloc r = Some (Ok c) /\ assign alloc (Other r) b = Some (c, Ok tt)
     /\ wf c /\ contents c = contents r)
  /\ if n <=? INT_MAX
     then (exists c, construct alloc n v = Some (Ok c) /\ wf c /\ contents c = replicate (Z.to_nat n) v)
          /\ exists c, reset alloc n v b = Some (c, Ok tt) /\ wf c
               /\ contents c = replicate (Z.to_nat n) v
     else construct alloc n v = Some (Throw IllegalArgumentException)
          /\ reset alloc n v b = Some (b, Throw IllegalArgumentException).
Proof.
  intros Hr Hb Hal Hn. split.
  - destruct (assign_copy alloc r b Hr (Hal _)) as (c & Ec & Ea).
    destruct (copy_spec alloc r Hr (Hal _)) as (c' & Ec' & Hw & Hc).
    assert (c' = c) as -> by congruence. by exists c.
  - pose proof (count_ok_spec n Hn) as E. destruct (Z.leb_spec n INT_MAX) as [Hle|Hgt].
    + split; [by apply construct_spec; [lia|]|by apply reset_spec; [|lia|]].
    + unfold construct, reset. rewrite E. done.
Qed.
End properties.

(** ** Limits of the checks *)

#[local] Existing Instance ace_min_max_std.
#[local] Existing Instance ace_min_max_std_laws.

(** Appending a bitset to itself reads the argument's size after it has grown:
    the loop runs off the end, and the object keeps the doubled size. *)
Lemma self_append_throws :
  op_append (fun _ => true) Self (mkBitset 3 (Some [160]))
  = Some (mkBitset 6 (Some [180]), Throw IndexOutOfRange).
Proof. vm_compute. reflexivity. Qed.

(** The bit count is range checked after conversion to [int]. *)
Lemma count_check_wraps : count_ok (2 ^ 32 + 8) = true.
Proof. vm_compute. reflexivity. Qed.

(** An assignment whose allocation fails leaves bits without a buffer, and
    [flip] then goes through the null pointer. *)
Lemma failed_assignment_dangles :
  assign (fun _ => false) (Other (mkBitset 3 (Some [160]))) (mkBitset 0 None)
  = Some (mkBitset 3 None, Throw ResourceExhaustionException)
  /\ flip (mkBitset 3 None) = None.
Proof. split; vm_compute; reflexivity. Qed.

(** ** The theorems at concrete inputs *)

Definition bits10 : Bitset := mkBitset 10 (Some [165; 64]).
Definition bits3 : Bitset := mkBitset 3 (Some [96; 7]).

(** The invariant of a bitset given by its bytes, by evaluation. *)
Definition wf_check (b : Bitset) : bool :=
  (0 <=? bits_ b) && (bits_ b <=? INT_MAX)
  && match bit_buffer_ b with Some _ => true | None => bits_ b =? 0 end
  && (size b <=? Z.of_nat (length (buf b)))
  && forallb (fun y => (0 <=? y) && (y <? 256)) (buf b)
  && forallb (fun k => negb (bits_ b <=? Z.of_nat k) || negb (bitf b (Z.of_nat k)))
       (seq 0 (Z.to_nat (8 * size b))).

Lemma wf_by_check b : wf_check b = true -> wf b.
Proof.
  unfold wf_check. rewrite !andb_true_iff. intros (((((H1 & H2) & H3) & H4) & H5) & H6).
  split; [split; [lia|split; [|split; [lia|]]]|].
  - intros Hb E. rewrite E in H3. lia.
  - rewrite forallb_forall in H5. apply Forall_forall. intros y Hy%list_elem_of_In.
    specialize (H5 y Hy). unfold is_byte. lia.
  - intros i Hi. rewrite forallb_forall in H6. specialize (H6 (Z.to_nat i) ltac:(apply in_seq; lia)).
    rewrite Z2Nat.id in H6 by lia. destruct (bitf b i); [|done].
    apply orb_true_iff in H6 as [H6|H6]; [|done]. lia.
Qed.

Lemma bitops_spec_witness :
  wf bits10 /\ wf bits3
  /\ exists a', op_xor (Other bits3) bits10 = Some (a', Ok tt) /\ wf a'
       /\ contents a' = zip_with xorb (contents bits10) (contents bits3)
                         ++ drop (length (contents bits3)) (contents bits10).
Proof.
  assert (wf bits10) as H1 by (apply wf_by_check; vm_compute; reflexivity).
  assert (wf bits3) as H2 by (apply wf_by_check; vm_compute; reflexivity).
  split; [exact H1|]. split; [exact H2|].
  apply (bitops_spec op_xor xorb bits10 (Other bits3)); [simpl; tauto|exact H1|intros r E; injection E as <-; exact H2].
Defined.

Lemma append_spec_witness :
  wf bits10 /\ wf bits3
  /\ exists a', op_append (fun _ => true) (Other bits3) bits10 = Some (a', Ok tt) /\ wf a'
       /\ contents a' = contents bits10 ++ contents bits3.
Proof.
  assert (wf bits10) as H1 by (apply wf_by_check; vm_compute; reflexivity).
  assert (wf bits3) as H2 by (apply wf_by_check; vm_compute; reflexivity).
  split; [exact H1|]. split; [exact H2|].
  apply (append_spec (fun _ => true) bits10 bits3 H1 H2). reflexivity.
Defined.

Lemma subits_erase_spec_witness :
  wf bits10
  /\ (exists c, subits (fun _ => true) bits10 2 (-1) = Some (Ok c) /\ wf c
        /\ contents c = take 10 (drop 2 (contents bits10)))
  /\ exists b', erase 2 (-1) bits10 = Some (b', Ok tt) /\ wf b'
       /\ contents b' = take 2 (contents bits10) ++ drop 12 (contents bits10).
Proof.
  assert (wf bits10) as H1 by (apply wf_by_check; vm_compute; reflexivity).
  split; [exact H1|].
  apply (subits_erase_spec (fun _ => true) bits10 2 (-1) H1); [reflexivity|unfold INT_MAX; lia].
Defined.

Lemma bitset_compare_spec_witness :
  wf bits10 /\ wf bits3
  /\ (exists c, compare_to bits10 (Other bits3) = Some c
        /\ Z.sgn c = bit_order (contents bits10) (contents bits3)
        /\ (c = 0 <-> contents bits10 = contents bits3))
  /\ (let n := Nat.min (length (contents bits10)) (length (contents bits3)) in
      op_eq bits10 (Other bits3)
      = Some (Ok (bool_decide (take n (contents bits10) = take n (contents bits3))))).
Proof.
  assert (wf bits10) as H1 by (apply wf_by_check; vm_compute; reflexivity).
  assert (wf bits3) as H2 by (apply wf_by_check; vm_compute; reflexivity).
  split; [exact H1|]. split; [exact H2|apply (bitset_compare_spec bits10 bits3 H1 H2)].
Defined.

Lemma flip_complement_spec_witness :
  wf bits10
  /\ (exists b', flip bits10 = Some (b', Ok tt) /\ wf b' /\ contents b' = negb <$> contents bits10)
  /\ (exists c, bits_not (fun _ => true) bits10 = Some (Ok c) /\ wf c
        /\ contents c = negb <$> contents bits10).
Proof.
  assert (wf bits10) as H1 by (apply wf_by_check; vm_compute; reflexivity).
  split; [exact H1|apply (flip_complement_spec (fun _ => true) bits10 H1); reflexivity].
Defined.

Lemma bitset_build_spec_witness :
  wf bits10 /\ wf bits3
  /\ (exists c, copy (fun _ => true) bits10 = Some (Ok c)
        /\ assign (fun _ => true) (Other bits10) bits3 = Some (c, Ok tt)
        /\ wf c /\ contents c = contents bits10)
  /\ (exists c, construct (fun _ => true) 13 true = Some (Ok c) /\ wf c
        /\ contents c = replicate 13 true)
  /\ exists c, reset (fun _ => true) 13 true bits3 = Some (c, Ok tt) /\ wf c
       /\ contents c = replicate 13 true.
Proof.
  assert (wf bits10) as H1 by (apply wf_by_check; vm_compute; reflexivity).
  assert (wf bits3) as H2 by (apply wf_by_check; vm_compute; reflexivity).
  split; [exact H1|]. split; [exact H2|].
  apply (bitset_build_spec (fun _ => true) bits10 bits3 13 true H1 H2); [reflexivity|lia].
Defined.
