(* ===== verification/Dump.v ===== *)
(** * Dumps of memory and texts of errors: daf/DAF.cpp, and the output of a Bitset

    [hex_dump] cuts a buffer into rows, [bit_dump] prints its bits, and Bitset's output operator prints its buffer with the
    latter.  A number that no error has is given the text Unknown.  The address, which the code prints with %p, is a parameter; the
    numbers of the errors are the platform's. *)

From S2P Require Import Prelude CString Text Bitset BitsetSpec.
From Stdlib Require Import Ascii.

Abbreviation text := (list ascii).

Definition NEWLINE : ascii := ascii_of_nat 10.

(** ** "%04X" *)

Fixpoint hex_w (w : nat) (n : Z) : text :=
  match w with
  | O => []
  | S w => hex_w w (n / 16) ++ [char_at h_char (Z.to_nat (n mod 16))]
  end.

(** How many digits a number below 2^32 has. *)
Fixpoint nhex (fuel : nat) (n : Z) : nat :=
  match fuel with
  | O => 1
  | S fuel => if n <? 16 then 1 else S (nhex fuel (n / 16))
  end.

Definition U32 : Z := 2 ^ 32.

(** [sprintf("%04X", unsigned(n))]. *)
Definition fmt_04X (n : Z) : text := hex_w (Nat.max 4 (nhex 7 (n mod U32))) (n mod U32).

Definition hex_value (s : text) : Z := foldl (fun a c => a * 16 + hex_val c) 0 s.

(** ** hex_dump *)

Section dump.
Context `{AceMinMax}.

(** daf/DAF.cpp:37-41 [hex_dump_width]. [width]: the property DAFHexDumpWidth as a number, 16 if there is none. *)
Definition hex_dump_width (width : Z) : Z := ace_range 1 1024 width.

(** daf/DAF.cpp:100-105 [hex_dump]. [None]: the fuel is used up. *)
Fixpoint hex_rows (fuel : nat) (i : Z) (len width : nat) (p : list Z) : option text :=
  if decide (len = 0%nat) then Some []
  else match fuel with
  | O => None
  | S fuel =>
      let l_len := Nat.min width len in
      rest ← hex_rows fuel (i + 1) (len - l_len) width (drop l_len p);
      Some (NEWLINE :: str "0x" ++ fmt_04X (i * Z.of_nat width) ++ str " -" ++ hex_dump_data p l_len width ++ rest)
  end.

(** daf/DAF.cpp:89-110 [hex_dump]. [buf]: [None] for a null pointer. *)
Definition hex_dump (fuel : nat) (address : text) (buf : option (list Z)) (len width : nat) : option text :=
  let ss := NEWLINE :: str "DAF_DUMP: Address = 0x" ++ address ++ str ", Length = " ++ fmt_int 0 (to_int (Z.of_nat len)) in
  rows ← match buf with Some p => hex_rows fuel 0 len width p | None => Some [] end;
  Some (ss ++ rows ++ [NEWLINE; NUL]).

(** ** bit_dump *)

(** daf/DAF.cpp:115-118 [bit_dump]. *)
Definition bit_masks : list Z := [128; 64; 32; 16; 8; 4; 2; 1].

(** daf/DAF.cpp:132-144 [bit_dump]. What comes before bit [i]. *)
Definition bit_label (width i : nat) : text :=
  if negb (i =? 0)%nat && negb (i mod width =? 0)%nat then
    if (i mod 8 =? 0)%nat then [SPACE] else []
  else NEWLINE :: str "0x" ++ fmt_04X (Z.of_nat (i / 8)) ++ str " - ".

(** daf/DAF.cpp:146-146 [bit_dump]. *)
Definition bit_char (p : list Z) (i : nat) : ascii :=
  if negb (Z.land (default 0 (p !! (i / 8)%nat)) (bit_masks !!! (i mod 8)%nat) =? 0) then "1"%char else "0"%char.

(** daf/DAF.cpp:130-147 [bit_dump]. *)
Fixpoint bit_loop (n : nat) (i width : nat) (p : list Z) (ss : text) : text :=
  match n with
  | O => ss
  | S n => bit_loop n (S i) width p (ss ++ bit_label width i ++ [bit_char p i])
  end.

(** daf/DAF.cpp:128-128 [bit_dump]. *)
Definition bit_width (width : Z) : Z := ace_max 8 (hex_dump_width width / 4 * 8).

(** daf/DAF.cpp:112-152 [bit_dump]. *)
Definition bit_dump (width : Z) (address : text) (buf : option (list Z)) (bits : Z) : text :=
  let ss := NEWLINE :: str "DAF_BitDump: Address = 0x" ++ address ++ str ", Length = " ++ fmt_int 0 (to_int bits) ++ str " bits" in
  let ss := match buf with
            | Some p => if 0 <? to_int bits then bit_loop (Z.to_nat bits) 0 (Z.to_nat (bit_width width)) p ss else ss
            | None => ss
            end in
  ss ++ [NEWLINE; NUL].

(** daf/Bitset.cpp:27-30 [operator_shl]. *)
Definition print_bitset (width : Z) (address : text) (bs : Bitset) : text := bit_dump width address (bit_buffer_ bs) (bits_ bs).
End dump.

(** ** Texts of errors *)

(** daf/DAF.cpp:155-233 [get_errno_text]. *)
Definition errno_names : list text := str <$>
  ["EPERM"; "ENOENT"; "ESRCH"; "EINTR"; "EIO"; "ENXIO"; "E2BIG"; "ENOEXEC"; "EBADF"; "ECHILD"; "EAGAIN"; "ENOMEM"; "EACCES"; "EFAULT";
   "EBUSY"; "EEXIST"; "EXDEV"; "ENODEV"; "ENOTDIR"; "EISDIR"; "ENFILE"; "EMFILE"; "ENOTTY"; "EFBIG"; "ENOSPC"; "ESPIPE"; "EROFS"; "EMLINK";
   "EPIPE"; "EDOM"; "EDEADLK"; "ENAMETOOLONG"; "ENOLCK"; "ENOSYS"; "ENOTEMPTY"; "EINVAL"; "ERANGE"; "EILSEQ"; "EADDRINUSE";
   "EADDRNOTAVAIL"; "EAFNOSUPPORT"; "EALREADY"; "EBADMSG"; "ECANCELED"; "ECONNABORTED"; "ECONNREFUSED"; "ECONNRESET"; "EDESTADDRREQ";
   "EHOSTUNREACH"; "EIDRM"; "EINPROGRESS"; "EISCONN"; "ELOOP"; "EMSGSIZE"; "ENETDOWN"; "ENETRESET"; "ENETUNREACH"; "ENOBUFS"; "ENODATA";
   "ENOLINK"; "ENOMSG"; "ENOPROTOOPT"; "ENOSR"; "ENOSTR"; "ENOTCONN"; "ENOTRECOVERABLE"; "ENOTSOCK"; "ENOTSUP"; "EOVERFLOW"; "EOWNERDEAD";
   "EPROTO"; "EPROTONOSUPPORT"; "EPROTOTYPE"; "ETIME"; "ETIMEDOUT"; "ETXTBSY"]%string.

Section errno.
(** The numbers of the platform; a switch needs them to be different, and 0 is a case of its own. *)
Context (errno_of : text -> Z).

(** daf/DAF.cpp:153-236 [get_errno_text]. *)
Definition get_errno_text (error : Z) : option text :=
  if error =? 0 then None
  else Some (default (str "Unknown") (List.find (fun n => errno_of n =? error) errno_names)).

(** daf/DAF.cpp:238-250 [last_error_text]. *)
Definition last_error_text (error : Z) : text :=
  match get_errno_text error with
  | Some t => str "[Error=" ++ fmt_int 0 error ++ str " (" ++ t ++ str ")]"
  | None => []
  end.
End errno.

(** ** What the dumps say *)

Lemma hex_digit_val d : 0 <= d < 16 -> hex_val (char_at h_char (Z.to_nat d)) = d.
Proof. intros H. assert (Forall (fun k => hex_val (char_at h_char k) = Z.of_nat k) (seq 0 16)) as Hall by (repeat constructor; reflexivity).
  rewrite Forall_forall in Hall. rewrite Hall by (apply elem_of_seq; lia). lia. Qed.

Lemma hex_w_value w : forall n, 0 <= n < 16 ^ Z.of_nat w -> hex_value (hex_w w n) = n.
Proof.
  induction w as [|w IH]; intros n Hn; [by replace n with 0 by (cbn in Hn; lia)|].
  cbn [hex_w]. unfold hex_value in *. rewrite foldl_app. cbn. replace (16 ^ Z.of_nat (S w)) with (16 * 16 ^ Z.of_nat w) in Hn by (rewrite Nat2Z.inj_succ, Z.pow_succ_r by lia; done).
  rewrite IH, hex_digit_val by zdm. zdm.
Qed.

Lemma nhex_enough fuel : forall n, 0 <= n < 16 ^ (Z.of_nat fuel + 1) -> n < 16 ^ Z.of_nat (nhex fuel n).
Proof.
  induction fuel as [|fuel IH]; intros n Hn; [cbn in *; lia|]. cbn [nhex]. destruct (Z.ltb_spec n 16); [done|].
  replace (16 ^ (Z.of_nat (S fuel) + 1)) with (16 * 16 ^ (Z.of_nat fuel + 1)) in Hn by (rewrite <- Z.pow_succ_r by lia; f_equal; lia).
  rewrite Nat2Z.inj_succ, Z.pow_succ_r by lia. specialize (IH (n / 16) ltac:(zdm)). zdm.
Qed.

(** The offset of a row, modulo 2^32. *)
Lemma fmt_04X_value n : hex_value (fmt_04X n) = n mod U32.
Proof.
  unfold fmt_04X. pose proof (Z.mod_pos_bound n U32 ltac:(done)) as Hn. apply hex_w_value. split; [lia|].
  pose proof (nhex_enough 7 (n mod U32) Hn) as Hk. eapply Z.lt_le_trans; [exact Hk|]. apply Z.pow_le_mono_r; lia.
Qed.

Lemma dump_loop_take n : forall j l p ss sc, dump_loop n j l p ss sc = dump_loop n j l (take (Z.to_nat l) p) ss sc.
Proof.
  induction n as [|n IH]; intros j l p ss sc; [done|]. cbn [dump_loop]. destruct (Z.ltb_spec 0 l) as [Hl|Hl].
  - replace (Z.to_nat l) with (S (Z.to_nat (l - 1))) by lia. destruct p as [|x p]; cbn [head tail default take].
    + done.
    + apply IH.
  - rewrite (IH (j + 1) (l - 1) p), (IH (j + 1) (l - 1) (take (Z.to_nat l) p)), take_take.
    by replace (Z.to_nat (l - 1) `min` Z.to_nat l)%nat with (Z.to_nat (l - 1)) by lia.
Qed.

Lemma hex_dump_data_take p l w : Z.of_nat l <= INT_MAX -> hex_dump_data p l w = hex_dump_data (take l p) l w.
Proof. intros Hl. unfold hex_dump_data. rewrite dump_loop_take, (to_int_small (Z.of_nat l)), Nat2Z.id by (unfold INT_MAX in *; lia). done. Qed.

Section rows.
Context (width : nat).

(** A row: its offset, its hexadecimal column and its characters. *)
Definition dump_row (i : Z) (h t : text) : text :=
  NEWLINE :: str "0x" ++ fmt_04X (i * Z.of_nat width) ++ str " -" ++ h ++ [SPACE; DQUOTE] ++ t ++ [DQUOTE].

Fixpoint dump_rows (i : Z) (rows : list (text * text)) : text :=
  match rows with [] => [] | r :: rows => dump_row i (fst r) (snd r) ++ dump_rows (i + 1) rows end.

(** With a width the rows come to an end and hold the buffer, [width] bytes each but for the last; their columns are all as wide. *)
Lemma hex_rows_roundtrip fuel : forall i p, (0 < width)%nat -> Z.of_nat width <= INT_MAX -> Forall is_byte p -> (length p <= fuel)%nat ->
  exists rows, hex_rows fuel i (length p) width p = Some (dump_rows i rows)
    /\ (rows ≫= (fun r => hex_decode (no_space (fst r)))) = p
    /\ length rows = ((length p + width - 1) / width)%nat
    /\ Forall (fun r => Z.of_nat (length (fst r)) = 2 * Z.of_nat width + (Z.of_nat width + 3) / 4) rows.
Proof.
  induction fuel as [|fuel IH]; intros i p Hw Hi Hb Hl; cbn [hex_rows]; destruct (decide (length p = 0%nat)) as [E|E].
  1, 3: exists []; destruct p; [|done]; cbn; rewrite Nat.div_small by lia; done.
  { lia. }
  set (l := Nat.min width (length p)). destruct (IH (i + 1) (drop l p)) as (rows & Er & Ed & En & Ef); [done|done|by apply Forall_drop|rewrite length_drop; lia|].
  destruct (hex_dump_data_roundtrip (take l p) width) as (h & t & Ht & Hd & Hlen); [by apply Forall_take|destruct p, l eqn:El; try done; cbn in *; lia|done|rewrite length_take; lia|].
  rewrite length_drop in Er, En. rewrite Er, hex_dump_data_take by lia. replace (length (take l p)) with l in Ht by (rewrite length_take; lia). rewrite Ht.
  exists ((h, t) :: rows). split; [|split; [|split]].
  - cbn [option_bind mbind dump_rows fst snd]. f_equal. unfold dump_row. by repeat (rewrite <- ?app_assoc; cbn [app]).
  - cbn [mbind list_bind fst]. fold (mbind (M := list) (fun r : text * text => hex_decode (no_space (fst r)))). rewrite Ed, Hd. apply take_drop.
  - cbn [length]. rewrite En. destruct (Nat.le_gt_cases width (length p)).
    + replace (length p + width - 1)%nat with ((length p - l + width - 1) + 1 * width)%nat by lia. rewrite Nat.div_add by lia. lia.
    + replace (length p - l + width - 1)%nat with (width - 1)%nat by lia. rewrite Nat.div_small by lia.
      replace (length p + width - 1)%nat with ((length p - 1) + 1 * width)%nat by lia. rewrite Nat.div_add, Nat.div_small by lia. done.
  - by constructor.
Qed.
End rows.

(** With width 0 a row takes nothing off the buffer: the loop goes on for ever. *)
Lemma hex_dump_zero_width address p len : (0 < len)%nat -> forall fuel, hex_dump fuel address (Some p) len 0 = None.
Proof.
  intros Hl fuel. unfold hex_dump. assert (forall i, hex_rows fuel i len 0 p = None) as E; [|by rewrite E].
  induction fuel as [|fuel IH]; intros i; cbn [hex_rows]; rewrite decide_False by lia; [done|].
  cbn [Nat.min drop]. by rewrite Nat.sub_0_r, IH.
Qed.

Lemma bit_loop_spec n : forall i w p ss, bit_loop n i w p ss = ss ++ concat ((fun k => bit_label w k ++ [bit_char p k]) <$> seq i n).
Proof.
  induction n as [|n IH]; intros i w p ss; cbn [bit_loop seq]; [by rewrite app_nil_r|].
  rewrite IH. cbn. by rewrite <- !app_assoc.
Qed.

Lemma bit_char_spec p i : bit_char p i = if bitl p (Z.of_nat i) then "1"%char else "0"%char.
Proof.
  unfold bit_char, bitl. replace (bit_masks !!! (i mod 8)%nat) with (bit_mask (Z.of_nat i)).
  - rewrite bit_mask_pow, <- (Nat2Z.id (i / 8)), Nat2Z.inj_div. set (y := default 0 _). set (k := 7 - _).
    assert (0 <= k) as Hk by (subst k; pose proof (Z.mod_pos_bound (Z.of_nat i) 8 ltac:(lia)); lia).
    replace (Z.land y (2 ^ k)) with (if Z.testbit y k then 2 ^ k else 0); [destruct (Z.testbit y k); [|done]; destruct (Z.eqb_spec (2 ^ k) 0) as [E|]; [|done]; pose proof (Z.pow_pos_nonneg 2 k); lia|].
    apply Z.bits_inj'. intros n Hn. rewrite Z.land_spec, Z.pow2_bits_eqb by done. destruct (Z.eqb_spec k n) as [<-|Hne].
    + rewrite andb_true_r. destruct (Z.testbit y k) eqn:E; [by rewrite Z.pow2_bits_true|apply Z.bits_0].
    + rewrite andb_false_r. destruct (Z.testbit y k); [by rewrite Z.pow2_bits_false|apply Z.bits_0].
  - unfold bit_mask. change 8 with (Z.of_nat 8). by rewrite <- Nat2Z.inj_mod, Nat2Z.id.
Qed.

(** Printing a bit sequence shows its bits, first one first. *)
Lemma print_bitset_shows `{AceMinMax} width address bs : fits bs -> 0 < bits_ bs -> exists head w,
  print_bitset width address bs = head ++ concat (imap (fun k (x : bool) => bit_label w k ++ [if x then "1"%char else "0"%char]) (contents bs)) ++ [NEWLINE; NUL].
Proof.
  intros (Hr & Hn & _) Hp. unfold print_bitset, bit_dump. destruct (bit_buffer_ bs) as [p|] eqn:Ep; [|destruct Hn; [lia|done]].
  rewrite to_int_small by (unfold INT_MAX in *; lia). rewrite (proj2 (Z.ltb_lt _ _) Hp), bit_loop_spec, <- app_assoc. eexists _, _. f_equal. f_equal. f_equal. unfold contents. apply list_eq. intros k. rewrite list_lookup_imap, !list_lookup_fmap.
  destruct (seq 0 _ !! k) as [j|] eqn:Ej; [|done]. cbn. apply lookup_seq in Ej as [-> _]. cbn. unfold bitf, BitsetSpec.buf. rewrite Ep, bit_char_spec. done.
Qed.

(** Where the numbers are different, the text of an error's number is its name. *)
Lemma errno_text_names (errno_of : text -> Z) n : (forall m, m ∈ errno_names -> errno_of m = errno_of n -> m = n) -> errno_of n <> 0 -> n ∈ errno_names ->
  get_errno_text errno_of (errno_of n) = Some n.
Proof.
  intros Hinj Hne Hin. unfold get_errno_text. rewrite (proj2 (Z.eqb_neq _ _) Hne). f_equal. destruct (List.find _ _) as [m|] eqn:E.
  - apply find_some in E as [Hm E%Z.eqb_eq]. apply Hinj; [by apply list_elem_of_In|done].
  - apply list_elem_of_In in Hin. pose proof (find_none _ _ E n Hin) as Hf%Z.eqb_neq. done.
Qed.

(** The buffer of 64 characters holds every text with the NUL behind it. *)
Lemma last_error_text_fits errno_of error : - 2 ^ 31 <= error < 2 ^ 31 -> (length (last_error_text errno_of error) < 64)%nat.
Proof.
  intros He. unfold last_error_text, get_errno_text. destruct (error =? 0); [cbn; lia|]. rewrite !length_app.
  assert (length (fmt_int 0 error) <= 11)%nat as Hd.
  { destruct (Z.ltb_spec error 0) as [Hn|Hn].
    - unfold fmt_int. rewrite (proj2 (Z.ltb_lt _ _) Hn). pose proof (fmt_int_length 0 10 (- error)) as Hl. unfold fmt_int in Hl.
      rewrite (proj2 (Z.ltb_ge _ _)) in Hl by lia. cbn. specialize (Hl ltac:(lia) ltac:(lia) ltac:(lia)). change (0 - 1)%nat with 0%nat. lia.
    - pose proof (fmt_int_length 0 10 error ltac:(lia) ltac:(lia) ltac:(lia)). lia. }
  set (name := default (str "Unknown") _). assert (length name <= 15)%nat as Hn.
  { unfold name. assert (Forall (fun n : text => (length n <= 15)%nat) errno_names) as Hall by (repeat constructor; cbn; lia).
    destruct (List.find _ _) as [m|] eqn:E; [|cbn; lia]. apply find_some in E as [Hm _]. rewrite Forall_forall in Hall. apply Hall, list_elem_of_In, Hm. }
  cbn [length str String.list_ascii_of_string]. lia.
Qed.

(** ** The clock *)

(** daf/OS.cpp:95-106 [gettimeofday]. [now]: the clock, in microseconds; seconds and microseconds of the offset are those of an ACE_Time_Value. *)
Definition gettimeofday_offset (now msec : Z) : Z :=
  if msec =? 0 then now
  else let offset := Z.quot msec 1000 * 1000000 + Z.rem msec 1000 * 1000 in
       if 0 <? msec then now + offset else now - offset.

(** An offset into the past gives a time in the future: it is taken off although it is negative already. *)
Lemma offset_never_back now msec : gettimeofday_offset now msec = now + Z.abs msec * 1000.
Proof. unfold gettimeofday_offset. destruct (Z.eqb_spec msec 0) as [->|]; [cbn; lia|]. pose proof (Z.quot_rem' msec 1000). destruct (Z.ltb_spec 0 msec); lia. Qed.
