(* ===== verification/Debug.v ===== *)
(** * Debug levels: daf/DAFDebug and TAF/taf/TAFDebug

    Each layer has a level that is read and set, the first read taking it from a property, and a class whose object sets the level
    for as long as it lives.  The levels of TAO and of its ORB are TAO's variables.  A property is given as its number, if it has
    one; the time in the printed lines is left out. *)

From stdpp Require Import functions.
From S2P Require Import Prelude CString Text.
From Stdlib Require Import Ascii.

Abbreviation text := (list ascii).

Inductive layer := DAF | TAF | TAO | ORB.

#[export] Instance layer_eq_dec : EqDecision layer.
Proof. solve_decision. Defined.

(** daf/DAFDebug.cpp:70-72 [_daf_debug]. And those of the other layers, whether each has been read, and the lines that were printed. *)
Record levels := Levels { level : layer -> Z; was_read : layer -> bool; printed : list text }.

Definition with_level (l : layer) (n : Z) (s : levels) : levels := Levels (<[l := n]> (level s)) (was_read s) (printed s).
Definition with_read (l : layer) (s : levels) : levels := Levels (level s) (<[l := true]> (was_read s)) (printed s).

(** daf/Constants.h:124-131 [DEBUGGING]. With daf/Constants.h:85. *)
Definition id_of (l : layer) : text :=
  match l with DAF => str "DAFDebug" | TAF => str "TAFDebug" | TAO => str "TAODebug" | ORB => str "TAOrbDebug" end.

Section debug.
Context `{AceMinMax}.
(** get_numeric_property<int> of a property that is there. *)
Context (number : text -> option Z).

(** ** Reading and setting *)

(** daf/DAFDebug.cpp:74-74 [debug]. [std::abs] of the least int is not defined. *)
Definition in_levels (onoff : Z) : Z := ace_range 0 99 (Z.abs onoff).

(** TAF/taf/TAFDebug.cpp:43-43 [debug]. The others, at lines 78 and 117, are the same. *)
Definition set_debug (l : layer) (onoff : Z) (s : levels) : levels := with_level l (in_levels onoff) s.

(** daf/DAFDebug.cpp:77-81 [DAFDebugging]. What the first read does: [to] is the layer whose level is set. *)
Definition first_read (l to : layer) (s : levels) : levels :=
  if was_read s l then s else set_debug to (default (level s l) (number (id_of l))) (with_read l s).

(** daf/DAFDebug.cpp:75-84 [debug]. *)
Definition daf_debug (s : levels) : levels * Z := let s := first_read DAF DAF s in (s, level s DAF).
(** TAF/taf/TAFDebug.cpp:118-127 [debug]. *)
Definition taf_debug (s : levels) : levels * Z := let s := first_read TAF TAF s in (s, level s TAF).
(** TAF/taf/TAFDebug.cpp:44-53 [debug]. *)
Definition tao_debug (s : levels) : levels * Z := let s := first_read TAO TAO s in (s, level s TAO).
(** TAF/taf/TAFDebug.cpp:79-88 [debug_orb]. *)
Definition debug_orb (s : levels) : levels * Z := let s := first_read ORB TAO s in (s, level s ORB).

Definition debug (l : layer) : levels -> levels * Z :=
  match l with DAF => daf_debug | TAF => taf_debug | TAO => tao_debug | ORB => debug_orb end.

(** daf/DAFDebug.cpp:34-39 [daf_print_debug]. The text in the buffer of 32 characters. *)
Definition on_off (dbug : Z) : text := if dbug =? 0 then str "OFF" else str "ON[" ++ fmt_int 0 dbug ++ str "]".

(** TAF/taf/TAFDebug.cpp:29-38 [taf_print_debug]. *)
Definition print_level (id : text) (dbug : Z) (s : levels) : levels := Levels (level s) (was_read s) (printed s ++ [id ++ str "=" ++ on_off dbug]).

(** daf/DAFDebug.cpp:101-105 [DAF_Debug::print_debug]. *)
Definition print_debug (l : layer) (s : levels) : levels := let '(s, d) := debug l s in print_level (id_of l) d s.

(** ** Levels for a time *)

(** daf/DAFDebug.cpp:87-92 [DAF_Debug::DAF_Debug]. Of every layer (TAFDebug.cpp:56, 91, 130); gives the level that was found. *)
Definition enter (l : layer) (dbug : Z) (s : levels) : levels * Z :=
  let '(s, debug_) := debug l s in
  let '(s, d) := debug l (set_debug l dbug s) in
  ((if debug_ =? d then s else print_debug l s), debug_).

(** daf/DAFDebug.cpp:94-99 [DAF_Debug::destructor]. Also TAFDebug.cpp:63 and 137. *)
Definition restore (l : layer) (debug_ : Z) (s : levels) : levels :=
  let '(s, d) := debug l s in
  if debug_ =? d then s else print_debug l (set_debug l debug_ s).

(** TAF/taf/TAFDebug.cpp:98-103 [TAO_ORBDebug::destructor]. *)
Definition orb_restore (debug_ : Z) (s : levels) : levels := restore TAO debug_ s.

Definition leave (l : layer) : Z -> levels -> levels := match l with ORB => orb_restore | l => restore l end.

(** What a thread does with the levels: objects of these classes, well nested. *)
Inductive use :=
| Nothing
| Ask (l : layer)
| Then (a b : use)
| Within (l : layer) (dbug : Z) (u : use).

Fixpoint run (u : use) (s : levels) : levels :=
  match u with
  | Nothing => s
  | Ask l => fst (debug l s)
  | Then a b => run b (run a s)
  | Within l dbug u => let '(s, debug_) := enter l dbug s in leave l debug_ (run u s)
  end.

Fixpoint without_orb (u : use) : Prop :=
  match u with Nothing => True | Ask l => l <> ORB | Then a b => without_orb a /\ without_orb b | Within l _ u => l <> ORB /\ without_orb u end.

(** ** What they give *)

Context `{!AceMinMaxLaws}.

Definition bounded (s : levels) : Prop := forall l, 0 <= level s l <= 99.

Lemma in_levels_spec n : 0 <= in_levels n <= 99 /\ (0 <= n <= 99 -> in_levels n = n).
Proof. unfold in_levels. rewrite ace_range_spec. lia. Qed.

(** The level that a layer shows to the next reader. *)
Definition shown (l : layer) (s : levels) : Z := if was_read s l then level s l else in_levels (default (level s l) (number (id_of l))).

(** Reading a layer other than the ORB's shows what it shows and keeps what every layer shows. *)
Lemma debug_shown l s : l <> ORB -> snd (debug l s) = shown l s /\ was_read (fst (debug l s)) l = true /\ level (fst (debug l s)) l = shown l s /\
  forall k, shown k (fst (debug l s)) = shown k s.
Proof.
  intros Hl. assert (debug l s = (first_read l l s, level (first_read l l s) l)) as -> by (by destruct l). cbn [fst snd].
  unfold first_read, set_debug, with_level, with_read. destruct (was_read s l) eqn:E; cbn; [unfold shown; rewrite E; done|].
  rewrite !fn_lookup_insert. split; [unfold shown; by rewrite E|]. split; [done|]. split; [unfold shown; by rewrite E|].
  intros k. unfold shown. cbn. destruct (decide (l = k)) as [<-|Hk].
  - by rewrite !fn_lookup_insert, E.
  - by rewrite !fn_lookup_insert_ne.
Qed.

Lemma set_shown l n s k : l <> ORB -> was_read s l = true -> shown k (set_debug l n s) = if decide (k = l) then in_levels n else shown k s.
Proof.
  intros Hl E. unfold shown, set_debug, with_level. cbn. destruct (decide (k = l)) as [->|Hk]; [by rewrite E, fn_lookup_insert|by rewrite fn_lookup_insert_ne].
Qed.

Lemma print_shown l s k : l <> ORB -> shown k (print_debug l s) = shown k s.
Proof.
  intros Hl. unfold print_debug. pose proof (debug_shown l s Hl) as (_ & _ & _ & Hk). destruct (debug l s) as [s' d]. cbn [fst snd] in *. rewrite <- Hk. done.
Qed.

Lemma enter_shown l n s : l <> ORB -> snd (enter l n s) = shown l s /\ forall k, shown k (fst (enter l n s)) = if decide (k = l) then in_levels n else shown k s.
Proof.
  intros Hl. unfold enter. pose proof (debug_shown l s Hl) as (E1 & Hr1 & _ & Hk1). destruct (debug l s) as [s1 d1]. cbn [fst snd] in *.
  pose proof (debug_shown l (set_debug l n s1) Hl) as (_ & _ & _ & Hk2). destruct (debug l (set_debug l n s1)) as [s2 d2]. cbn [fst snd] in *.
  split; [done|]. intros k. transitivity (shown k s2); [by destruct (d1 =? d2); [|apply print_shown]|]. rewrite Hk2, set_shown by done. by rewrite Hk1.
Qed.

Lemma restore_shown l n s k : l <> ORB -> 0 <= n <= 99 -> shown k (restore l n s) = if decide (k = l) then n else shown k s.
Proof.
  intros Hl Hn. unfold restore. pose proof (debug_shown l s Hl) as (E1 & Hr1 & _ & Hk1). destruct (debug l s) as [s1 d1]. cbn [fst snd] in *.
  destruct (Z.eqb_spec n d1) as [->|Hne].
  - rewrite Hk1. destruct (decide (k = l)) as [->|]; done.
  - rewrite print_shown, set_shown by done. rewrite Hk1, (proj2 (in_levels_spec n)) by done. done.
Qed.

(** Objects that set levels for a time, nested in any way, leave every level as they found it - but for the ORB's class. *)
Lemma levels_restored u s : without_orb u -> (forall l, 0 <= shown l s <= 99) -> forall k, shown k (run u s) = shown k s.
Proof.
  revert s. induction u as [|l|a IHa b IHb|l n u IH]; intros s Hu Hb k; cbn [run without_orb] in *; [done|by apply debug_shown| |].
  - rewrite IHb; [apply IHa; [apply Hu|done]|apply Hu|]. intros l. rewrite IHa; [apply Hb|apply Hu|done].
  - destruct Hu as [Hl Hu]. pose proof (enter_shown l n s Hl) as [E Hk]. destruct (enter l n s) as [s1 d]. cbn [fst snd] in *. subst d.
    assert (leave l = restore l) as -> by (by destruct l). rewrite restore_shown by (apply Hb || done). destruct (decide (k = l)) as [->|Hne]; [done|].
    rewrite IH, Hk; [by rewrite decide_False|done|]. intros j. rewrite Hk. destruct (decide (j = l)); [apply in_levels_spec|apply Hb].
Qed.

Lemma debug_read l s : was_read s l = true -> debug l s = (s, level s l).
Proof. intros E. by destruct l; cbn; unfold daf_debug, taf_debug, tao_debug, debug_orb, first_read; rewrite E. Qed.

Lemma print_read l s : was_read s l = true -> level (print_debug l s) = level s /\ was_read (print_debug l s) = was_read s.
Proof. intros E. unfold print_debug. by rewrite debug_read. Qed.

Lemma enter_read l n s : was_read s l = true -> exists s', enter l n s = (s', level s l) /\ level s' = <[l := in_levels n]> (level s) /\ was_read s' = was_read s.
Proof.
  intros E. unfold enter. rewrite debug_read by done. rewrite debug_read by done. eexists. split; [done|].
  case_match; [done|]. by apply (print_read l (set_debug l n s)).
Qed.

Lemma restore_read l n s : was_read s l = true -> level (restore l n s) = if n =? level s l then level s else <[l := in_levels n]> (level s).
Proof. intros E. unfold restore. rewrite debug_read by done. case_match; [done|]. by apply (print_read l (set_debug l n s)). Qed.

(** The object for the ORB's level does not restore it: it gives its old value to TAO instead. *)
Lemma orb_level_misplaced n s : was_read s ORB = true -> was_read s TAO = true -> bounded s ->
  level (run (Within ORB n Nothing) s) ORB = in_levels n /\ level (run (Within ORB n Nothing) s) TAO = level s ORB.
Proof.
  intros E1 E2 Hb. cbn [run]. destruct (enter_read ORB n s E1) as (s1 & -> & El & Er). cbn [leave]. unfold orb_restore.
  rewrite restore_read by (by rewrite Er). rewrite El. rewrite (fn_lookup_insert_ne (level s) ORB TAO) by done. destruct (Z.eqb_spec (level s ORB) (level s TAO)) as [E|E].
  - by rewrite fn_lookup_insert, fn_lookup_insert_ne.
  - rewrite fn_lookup_insert, fn_lookup_insert_ne, fn_lookup_insert by done. by rewrite (proj2 (in_levels_spec (level s ORB)) (Hb ORB)).
Qed.

(** The first read of the ORB's level gives the value of its property to TAO. *)
Lemma orb_property_misplaced n s : was_read s ORB = false -> number (id_of ORB) = Some n ->
  level (fst (debug_orb s)) TAO = in_levels n /\ snd (debug_orb s) = level s ORB.
Proof.
  intros E1 E2. unfold debug_orb, first_read. rewrite E1, E2. cbn. rewrite fn_lookup_insert, fn_lookup_insert_ne by done. done.
Qed.

(** A level that was set before the first read gives way to the property. *)
Lemma first_read_wins n m s : was_read s DAF = false -> number (id_of DAF) = Some m -> snd (daf_debug (set_debug DAF n s)) = in_levels m.
Proof. intros E1 E2. unfold daf_debug, first_read. cbn [was_read set_debug with_level]. rewrite E1, E2. cbn. by rewrite fn_lookup_insert. Qed.

(** The text of a level fits its buffer. *)
Lemma on_off_fits n : 0 <= n <= 99 -> (length (on_off n) < 32)%nat.
Proof.
  intros Hn. unfold on_off. destruct (n =? 0); [cbn; lia|]. rewrite !length_app. pose proof (fmt_int_length 0 2 n ltac:(lia) ltac:(lia) ltac:(lia)). cbn. lia.
Qed.
End debug.

Lemma levels_restored_witness : let s := Levels (fun _ => 0) (fun _ => false) [] in
  let u := Within DAF 3 (Then (Within TAO 7 (Ask TAF)) (Within DAF (-200) Nothing)) in
  without_orb u /\ printed (run (H := ace_min_max_std) (fun _ => None) u s) =
    str <$> ["DAFDebug=ON[3]"; "TAODebug=ON[7]"; "TAODebug=OFF"; "DAFDebug=ON[99]"; "DAFDebug=ON[3]"; "DAFDebug=OFF"]%string
  /\ shown (H := ace_min_max_std) (fun _ => None) DAF (run (H := ace_min_max_std) (fun _ => None) u s) = 0.
Proof.
  split; [done|]. split; [vm_compute; reflexivity|].
  apply (levels_restored (H := ace_min_max_std) (fun _ => None) (H0 := ace_min_max_std_laws) (Within DAF 3 (Then (Within TAO 7 (Ask TAF)) (Within DAF (-200) Nothing)))); [done|].
  intros l. vm_compute. by split.
Defined.
