(* ===== verification/Threads.v ===== *)
(** * Interleaving of threads

    A configuration is a shared state and the list of the threads' program
    counters.  A component gives an executable function [next]: what thread [t]
    does next, given a choice that resolves its nondeterminism (which call to make,
    which waiter a signal wakes, whether a wait times out).  [step] is the
    relation of one move of any thread, [run] executes a schedule, and the sums
    [tsum] over the threads express counting invariants. *)

From S2P Require Import Prelude.

Record conf (St P : Type) := mkConf { shared : St; threads : list P }.
Arguments mkConf {St P} shared threads.
Arguments shared {St P} c.
Arguments threads {St P} c.

Section system.
Context {St P Ch : Type} (next : Ch -> nat -> conf St P -> option (conf St P)).

Definition step (c c' : conf St P) : Prop := exists ch t, next ch t c = Some c'.
Definition reachable (c c' : conf St P) : Prop := rtc step c c'.

Fixpoint run (sched : list (Ch * nat)) (c : conf St P) : option (conf St P) :=
  match sched with
  | [] => Some c
  | (ch, t) :: sched => c' ← next ch t c; run sched c'
  end.

Lemma run_reachable sched c c' : run sched c = Some c' -> reachable c c'.
Proof.
  revert c. induction sched as [|[ch t] sched IH]; intros c; simpl.
  - intros [= <-]. apply rtc_refl.
  - destruct (next ch t c) as [c1|] eqn:E; [|done]. intros H.
    apply rtc_l with c1; [by exists ch, t|]. by apply IH.
Qed.

Lemma reachable_run c c' : reachable c c' -> exists sched, run sched c = Some c'.
Proof.
  induction 1 as [c|c c1 c2 (ch & t & E) _ [sched IH]].
  - by exists [].
  - exists ((ch, t) :: sched). simpl. by rewrite E.
Qed.

(** An invariant of the initial configuration and of every move holds in
    every reachable configuration. *)
Lemma invariant (I : conf St P -> Prop) c0 c :
  I c0 -> (forall c1 c2, I c1 -> step c1 c2 -> I c2) -> reachable c0 c -> I c.
Proof. intros H0 Hs. induction 1; eauto. Qed.

(** A relation to the start that every move preserves. *)
Lemma reachable_trans c1 c2 c3 : reachable c1 c2 -> reachable c2 c3 -> reachable c1 c3.
Proof. unfold reachable. intros H1 H2. by trans c2. Qed.

Lemma reachable_step c1 c2 c3 : reachable c1 c2 -> step c2 c3 -> reachable c1 c3.
Proof. intros H1 H2. eapply rtc_r; eauto. Qed.
End system.

(** ** Sums over the threads *)

Definition tsum {P} (f : P -> Z) (l : list P) : Z := foldr (fun p n => f p + n) 0 l.

(** The number of threads with a property. *)
Definition b2z (b : bool) : Z := if b then 1 else 0.
Definition tcount {P} (f : P -> bool) (l : list P) : Z := tsum (fun p => b2z (f p)) l.

Section sums.
Context {P : Type}.
Implicit Types (l : list P) (f g : P -> Z).

Lemma tsum_insert f l i x y :
  l !! i = Some x -> tsum f (<[i := y]> l) = tsum f l - f x + f y.
Proof.
  revert i. induction l as [|z l IH]; intros [|i]; simpl; try done.
  - intros [= ->]. lia.
  - intros Hi. rewrite IH by done. lia.
Qed.

Lemma tsum_fmap f l (h : P -> P) : tsum f (h <$> l) = tsum (fun p => f (h p)) l.
Proof. induction l as [|z l IH]; [done|]. exact (f_equal (Z.add (f (h z))) IH). Qed.

Lemma tsum_ext f g l :
  (forall i x, l !! i = Some x -> f x = g x) -> tsum f l = tsum g l.
Proof.
  induction l as [|z l IH]; intros H; simpl; [done|].
  rewrite (H 0%nat z eq_refl). f_equal. apply IH. intros i x Hi. by apply (H (S i)).
Qed.

Lemma tsum_le f g l :
  (forall i x, l !! i = Some x -> f x <= g x) -> tsum f l <= tsum g l.
Proof.
  induction l as [|z l IH]; intros H; simpl; [lia|].
  pose proof (H 0%nat z eq_refl). assert (tsum f l <= tsum g l); [|lia].
  apply IH. intros i x Hi. by apply (H (S i)).
Qed.

Lemma tsum_add f g l : tsum (fun p => f p + g p) l = tsum f l + tsum g l.
Proof. induction l as [|z l IH]; simpl; lia. Qed.

Lemma tsum_sub f g l : tsum (fun p => f p - g p) l = tsum f l - tsum g l.
Proof. induction l as [|z l IH]; simpl; lia. Qed.

Lemma tsum_zero f l : (forall i x, l !! i = Some x -> f x = 0) -> tsum f l = 0.
Proof.
  intros H. rewrite (tsum_ext f (fun _ => 0)) by done. induction l as [|z l IH]; simpl; [done|].
  rewrite IH; [done|]. intros i x Hi. by apply (H (S i)).
Qed.

Lemma tsum_nonneg f l : (forall p, 0 <= f p) -> 0 <= tsum f l.
Proof.
  intros H. induction l as [|z l IH]; simpl; [lia|]. specialize (H z). lia.
Qed.

Lemma tsum_le_one f l i x : (forall p, 0 <= f p) -> l !! i = Some x -> f x <= tsum f l.
Proof.
  intros H. revert i. induction l as [|z l IH]; intros [|i]; simpl; try done.
  - intros [= ->]. pose proof (tsum_nonneg f l H). lia.
  - intros Hi. specialize (IH i Hi). specialize (H z). lia.
Qed.

Lemma tsum_one f l i x :
  l !! i = Some x -> (forall j y, l !! j = Some y -> j <> i -> f y = 0) -> tsum f l = f x.
Proof.
  revert i. induction l as [|z l IH]; intros [|i]; simpl; try done.
  - intros [= ->] H. rewrite tsum_zero; [lia|]. intros j y Hj. by apply (H (S j)).
  - intros Hi H. rewrite (IH i Hi), (H 0%nat z); [lia|done|done|].
    intros j y Hj Hne. apply (H (S j)); [done|congruence].
Qed.

Lemma tcount_exists (f : P -> bool) l :
  0 < tcount f l <-> exists i x, l !! i = Some x /\ f x = true.
Proof.
  unfold tcount. split.
  - induction l as [|z l IH]; simpl; [lia|]. destruct (f z) eqn:E; simpl.
    + intros _. by exists 0%nat, z.
    + intros H. destruct IH as (i & x & Hi & Hx); [lia|]. by exists (S i), x.
  - intros (i & x & Hi & Hx).
    assert (forall p, 0 <= b2z (f p)) as Hp by (intros p; destruct (f p); simpl; lia).
    pose proof (tsum_le_one (fun p => b2z (f p)) l i x Hp Hi) as H. cbv beta in H.
    rewrite Hx in H. simpl in H. lia.
Qed.
End sums.

Lemma b2z_bounds b : 0 <= b2z b <= 1.
Proof. destruct b; simpl; lia. Qed.

Lemma tcount_nonneg {P} (f : P -> bool) (l : list P) : 0 <= tcount f l.
Proof. apply tsum_nonneg. intros p. apply b2z_bounds. Qed.

Lemma tcount_le_one {P} (f : P -> bool) (l : list P) t p : l !! t = Some p -> b2z (f p) <= tcount f l.
Proof. intros Hp. apply (tsum_le_one (fun p => b2z (f p)) l t p); [intros q; apply b2z_bounds|done]. Qed.

Lemma tcount_insert {P} (f : P -> bool) (l : list P) t p p' :
  l !! t = Some p -> tcount f (<[t := p']> l) = tcount f l - b2z (f p) + b2z (f p').
Proof. apply (tsum_insert (fun q => b2z (f q))). Qed.

(** Threads that are added. *)
Lemma tsum_app {P} (f : P -> Z) (l1 l2 : list P) : tsum f (l1 ++ l2) = tsum f l1 + tsum f l2.
Proof. induction l1 as [|x l1 IH]; simpl; lia. Qed.

Lemma tsum_replicate {P} (f : P -> Z) n p : tsum f (replicate n p) = Z.of_nat n * f p.
Proof. induction n as [|n IH]; cbn [replicate tsum foldr]; [lia|]. unfold tsum in IH. lia. Qed.

Lemma tcount_app {P} (f : P -> bool) (l1 l2 : list P) : tcount f (l1 ++ l2) = tcount f l1 + tcount f l2.
Proof. apply tsum_app. Qed.

Lemma tcount_cons {P} (f : P -> bool) x (l : list P) : tcount f (x :: l) = b2z (f x) + tcount f l.
Proof. reflexivity. Qed.

Lemma tcount_nil {P} (f : P -> bool) : tcount f [] = 0.
Proof. reflexivity. Qed.

(** Two threads with a property. *)
Lemma tcount_two {P} (f : P -> bool) (l : list P) i j x y :
  l !! i = Some x -> l !! j = Some y -> i <> j -> f x = true -> f y = true -> 2 <= tcount f l.
Proof.
  revert i j. induction l as [|z l IH]; intros i j Hi Hj Hne Hx Hy; [done|].
  change (tcount f (z :: l)) with (b2z (f z) + tcount f l). pose proof (b2z_bounds (f z)).
  destruct i as [|i], j as [|j]; simpl in Hi, Hj; [done|..].
  - injection Hi as ->. pose proof (tcount_le_one f l j y Hj) as H1. rewrite Hx. rewrite Hy in H1. simpl in *. lia.
  - injection Hj as ->. pose proof (tcount_le_one f l i x Hi) as H1. rewrite Hy. rewrite Hx in H1. simpl in *. lia.
  - specialize (IH i j Hi Hj ltac:(congruence) Hx Hy). lia.
Qed.
