(* ===== verification/Monitor.v ===== *)
(** * Monitors: daf/Monitor.h, daf/SYNCHCondition_T.h

    A monitor is a mutex and an interruptible condition.  [wait_next] and
    [intr_next] are the steps of [SYNCHCondition::wait] and [interrupt], which
    the operations of a monitor's client run as part of their own.  The mutex and
    the condition variable of the operating system are modelled by what POSIX
    documents: waiting releases the mutex and blocks in one step; [signal] wakes
    one blocked thread if there is one, [broadcast] all; a wait may also end by
    its timeout or for no reason; a woken thread takes the mutex again before it
    goes on.  A valid mutex can always be taken when it is free, so the
    LockFailureException branches of the clients are not modelled.

    A component gives the steps of one thread ([local]), with the effect it has
    on the threads that wait; [next] is the system of all threads. *)

From S2P Require Import Prelude Threads.

(** daf/SYNCHCondition_T.h:47-124 [SYNCHCondition]. *)
Record monitor := mkMon {
  owner : option nat;
  interrupted_ : bool;
  waiters_ : Z;
}.

(** daf/Monitor.h:37-66 [Monitor::Monitor]. *)
Definition mon_init : monitor := mkMon None false 0.

(** The mutex: taking it blocks unless it is free. *)
Definition lock (t : nat) (m : monitor) : option monitor :=
  match owner m with
  | None => Some (mkMon (Some t) (interrupted_ m) (waiters_ m))
  | Some _ => None
  end.

Definition unlock (m : monitor) : monitor := mkMon None (interrupted_ m) (waiters_ m).

Definition add_waiters (n : Z) (m : monitor) : monitor :=
  mkMon (owner m) (interrupted_ m) (waiters_ m + n).

(** ** Waiting *)

(** How a wait on the operating system's condition ends: result 0, or -1 with
    errno ETIME. *)
Inductive wake := WOk | WTime.

(** daf/SYNCHCondition_T.h:178-209 [SYNCHCondition::wait]. Where a thread is in it. *)
Inductive wait_pc :=
| WTest              (* if (!this->interrupted()) *)
| WInc               (* ++this->waiters_ *)
| WBlock             (* this->condition_mutex_.wait(abstime): release the mutex and block *)
| Waiting            (* blocked *)
| Woken (r : wake)   (* woken, the mutex not taken yet *)
| WDec (r : wake)    (* --this->waiters_ *)
| WLeave (r : wake). (* if (this->interrupted()) throw; return result *)

Inductive wait_out := WGo (w : wait_pc) | WReturn (r : wake) | WInterrupted.

(** Nondeterminism of a blocked thread: its timeout, a wake-up for no reason. *)
Inductive wait_choice := Timeout | Spurious.

(** daf/SYNCHCondition_T.h:178-209 [SYNCHCondition::wait]. [timed]: an absolute time was given. *)
Definition wait_next (ch : wait_choice) (t : nat) (timed : bool) (w : wait_pc) (m : monitor)
    : option (monitor * wait_out) :=
  match w with
  | WTest => Some (m, if interrupted_ m then WInterrupted else WGo WInc)
  | WInc => Some (add_waiters 1 m, WGo WBlock)
  | WBlock => Some (unlock m, WGo Waiting)
  | Waiting => match ch with
               | Timeout => if timed then Some (m, WGo (Woken WTime)) else None
               | Spurious => Some (m, WGo (Woken WOk))
               end
  | Woken r => m ← lock t m; Some (m, WGo (WDec r))
  | WDec r => Some (add_waiters (-1) m, WGo (WLeave r))
  | WLeave r => Some (m, if interrupted_ m then WInterrupted else WReturn r)
  end.

(** ** Effects on the waiting threads *)

(** daf/Monitor.h:86-108 [Monitor::signal]. [ESignal] is signal and notify, [EBroadcast] broadcast and notifyAll. *)
Inductive effect := ENone | ESignal | EBroadcast.

(** ** Interrupting *)

(** daf/Monitor.h:116-123 [Monitor::interrupt]. Where a thread is in it. *)
Inductive intr_pc :=
| IStart             (* if (this->interrupted() ? this->waiters() > 0 : true) *)
| ISet               (* this->interrupted_ = true *)
| ILoop (i : nat)    (* for (int i = 3; i--; ) if (this->waiters() > 0) *)
| ILock (i : nat)
| IBroadcast (i : nat)
| IUnlock (i : nat).

Inductive intr_out := IGo (i : intr_pc) | IReturn (r : Z).

Definition REMOVE_RETRY_MAXIMUM : nat := 3.

(** daf/SYNCHCondition_T.h:149-176 [SYNCHCondition::interrupt]. *)
Definition intr_next (t : nat) (i : intr_pc) (m : monitor) : option (monitor * intr_out * effect) :=
  match i with
  | IStart => Some (m, if (if interrupted_ m then 0 <? waiters_ m else true)
                       then IGo ISet else IReturn 0, ENone)
  | ISet => Some (mkMon (owner m) true (waiters_ m), IGo (ILoop REMOVE_RETRY_MAXIMUM), ENone)
  | ILoop O => Some (m, IReturn (-1), ENone)
  | ILoop (S i) => Some (m, if 0 <? waiters_ m then IGo (ILock i) else IReturn 0, ENone)
  | ILock i => m ← lock t m; Some (m, IGo (IBroadcast i), ENone)
  | IBroadcast i => Some (m, IGo (IUnlock i), EBroadcast)
  | IUnlock i => Some (unlock m, IGo (ILoop i), ENone)
  end.

(** Program counters that hold the mutex. *)
Definition wait_holds (w : wait_pc) : bool :=
  match w with
  | WTest | WInc | WBlock | WDec _ | WLeave _ => true
  | Waiting | Woken _ => false
  end.
Definition intr_holds (i : intr_pc) : bool :=
  match i with
  | IBroadcast _ | IUnlock _ => true
  | _ => false
  end.

(** Program counters counted in [waiters_]. *)
Definition wait_counts (w : wait_pc) : Z :=
  match w with
  | WBlock | Waiting | Woken _ | WDec _ => 1
  | _ => 0
  end.

(** ** Clients *)

(** What the program counters of a client say about waiting. *)
Class Waits (P : Type) := {
  waiting : P -> bool;
  awaken : P -> P;
}.

Class WaitsLaws (P : Type) `{Waits P} : Prop := {
  waiting_awaken : forall p, waiting (awaken p) = false;
  awaken_id : forall p, waiting p = false -> awaken p = p;
}.

(** daf/SYNCHCondition_T.h:97-107 [SYNCHCondition::signal]. The waiter woken by a signal is chosen by [k]; there is no
    choice to make when nobody waits. *)
Definition apply_effect {P} `{Waits P} (e : effect) (k : option nat) (ts : list P) : option (list P) :=
  match e, k with
  | ENone, _ => Some ts
  | EBroadcast, _ => Some (awaken <$> ts)
  | ESignal, Some k => p ← ts !! k; if waiting p then Some (<[k := awaken p]> ts) else None
  | ESignal, None => if forallb (fun p => negb (waiting p)) ts then Some ts else None
  end.

Section client.
Context {St P Ch : Type} `{WaitsLaws P}.
Context (local : Ch -> nat -> St -> P -> option (St * P * effect)).

Definition next (ch : Ch * option nat) (t : nat) (c : conf St P) : option (conf St P) :=
  p ← threads c !! t;
  '(s, p, e) ← local (fst ch) t (shared c) p;
  ts ← apply_effect e (snd ch) (<[t := p]> (threads c));
  Some (mkConf s ts).

Lemma next_inv ch t c c' :
  next ch t c = Some c' ->
  exists p s p' e ts, threads c !! t = Some p /\ local (fst ch) t (shared c) p = Some (s, p', e)
    /\ apply_effect e (snd ch) (<[t := p']> (threads c)) = Some ts /\ c' = mkConf s ts.
Proof.
  unfold next. destruct (threads c !! t) as [p|] eqn:E1; [|done]. cbn [mbind option_bind].
  destruct (local _ _ _ p) as [[[s p'] e]|] eqn:E2; [|done]. cbn [mbind option_bind].
  destruct (apply_effect _ _ _) as [ts|] eqn:E3; [|done]. intros [= <-]. by exists p, s, p', e, ts.
Qed.

(** What an effect does to a sum over the threads, for a function [f] that
    waking changes by [g]. *)
Lemma effect_lookup e k (ts ts' : list P) i q :
  apply_effect e k ts = Some ts' -> ts' !! i = Some q ->
  exists p, ts !! i = Some p /\ (q = p \/ (waiting p = true /\ q = awaken p)).
Proof.
  destruct e; simpl.
  - intros [= <-]. eauto.
  - destruct k as [k|].
    + destruct (ts !! k) as [p|] eqn:Ek; [|done]. cbn [mbind option_bind].
      destruct (waiting p) eqn:Ew; [|done]. intros [= <-].
      destruct (decide (i = k)) as [->|Hne].
      * rewrite list_lookup_insert_eq by (by eapply lookup_lt_Some). intros [= <-]. eauto.
      * rewrite list_lookup_insert_ne by done. eauto.
    + destruct (forallb _ ts); [|done]. intros [= <-]. eauto.
  - intros [= <-]. rewrite list_lookup_fmap. intros (p & -> & ->)%fmap_Some.
    exists p. split; [done|]. destruct (waiting p) eqn:Ew; [by right|]. left. by apply awaken_id.
Qed.

Lemma effect_length e k (ts ts' : list P) : apply_effect e k ts = Some ts' -> length ts' = length ts.
Proof.
  destruct e; simpl.
  - by intros [= <-].
  - destruct k as [k|].
    + destruct (ts !! k) as [p|]; [|done]. cbn [mbind option_bind].
      destruct (waiting p); [|done]. intros [= <-]. by rewrite length_insert.
    + destruct (forallb _ ts); [|done]. by intros [= <-].
  - intros [= <-]. by rewrite length_fmap.
Qed.

Lemma effect_sum_same (f : P -> Z) e k ts ts' :
  (forall p, waiting p = true -> f (awaken p) = f p) ->
  apply_effect e k ts = Some ts' -> tsum f ts' = tsum f ts.
Proof.
  intros Hf. destruct e; simpl.
  - by intros [= <-].
  - destruct k as [k|].
    + destruct (ts !! k) as [p|] eqn:Ek; [|done]. cbn [mbind option_bind].
      destruct (waiting p) eqn:Ew; [|done]. intros [= <-].
      rewrite (tsum_insert _ _ _ _ _ Ek), Hf by done. lia.
    + destruct (forallb _ ts); [|done]. by intros [= <-].
  - intros [= <-]. rewrite tsum_fmap. apply tsum_ext. intros i p _.
    destruct (waiting p) eqn:Ew; [by apply Hf|]. by rewrite awaken_id.
Qed.

(** A count that waking does not change, over a whole step. *)
Lemma step_count (f : P -> bool) e k l t p p' ts :
  l !! t = Some p -> apply_effect e k (<[t := p']> l) = Some ts ->
  (forall q, waiting q = true -> f (awaken q) = f q) ->
  tcount f ts = tcount f l - b2z (f p) + b2z (f p').
Proof.
  intros Hp He Hf. unfold tcount.
  rewrite (effect_sum_same (fun q => b2z (f q)) _ _ _ _ (fun q Hq => f_equal b2z (Hf q Hq)) He).
  apply (tcount_insert f _ _ _ _ Hp).
Qed.

(** A signal either finds nobody waiting, or moves one thread from the waiting
    to those counted by [f]. *)
Lemma signal_sum (f : P -> Z) k ts ts' :
  (forall p, waiting p = true -> f (awaken p) = f p + 1) ->
  apply_effect ESignal k ts = Some ts' ->
  (tcount waiting ts = 0 /\ ts' = ts)
  \/ (tcount waiting ts' = tcount waiting ts - 1 /\ tsum f ts' = tsum f ts + 1).
Proof.
  intros Hf. simpl. destruct k as [k|].
  - destruct (ts !! k) as [p|] eqn:Ek; [|done]. cbn [mbind option_bind].
    destruct (waiting p) eqn:Ew; [|done]. intros [= <-]. right. unfold tcount.
    rewrite !(tsum_insert _ _ _ _ _ Ek), Hf, waiting_awaken, Ew by done. simpl. lia.
  - destruct (forallb _ ts) eqn:Eb; [|done]. intros [= <-]. left. split; [|done].
    apply tsum_zero. intros i p Hi. rewrite forallb_forall in Eb.
    apply list_elem_of_lookup_2, list_elem_of_In in Hi. apply Eb in Hi.
    destruct (waiting p); [done|]. reflexivity.
Qed.

(** Some choice always lets an effect happen. *)
Lemma effect_total e (ts : list P) : exists k ts', apply_effect e k ts = Some ts'.
Proof.
  destruct e.
  - by exists None, ts.
  - destruct (forallb (fun p => negb (waiting p)) ts) eqn:E.
    + exists None, ts. simpl. by rewrite E.
    + apply not_true_iff_false in E. rewrite forallb_forall in E.
      assert (exists p, p ∈ ts /\ waiting p = true) as (p & Hp & Hw).
      { clear -E. induction ts as [|q ts IH]; [by destruct E|].
        destruct (waiting q) eqn:Eq; [exists q; split; [by left|done]|].
        destruct IH as (p & Hp & Hw); [|exists p; split; [by right|done]].
        intros Hall. apply E. intros x [->|Hx]; [by rewrite Eq|by apply Hall]. }
      apply list_elem_of_lookup in Hp as [k Hk]. exists (Some k). simpl. rewrite Hk. simpl.
      rewrite Hw. eauto.
  - by exists None, (awaken <$> ts).
Qed.

Lemma broadcast_count k ts ts' :
  apply_effect EBroadcast k ts = Some ts' -> tcount waiting ts' = 0.
Proof.
  intros [= <-]. unfold tcount. rewrite tsum_fmap. apply tsum_zero. intros i p _.
  by rewrite waiting_awaken.
Qed.
End client.

(** ** The mutex *)

(** Thread [t], which owned the mutex if [h], owns it afterwards if [h']. *)
Definition lock_step (t : nat) (h h' : bool) (m m' : monitor) : Prop :=
  (h = h' /\ owner m' = owner m)
  \/ (h = false /\ h' = true /\ owner m = None /\ owner m' = Some t)
  \/ (h = true /\ h' = false /\ owner m' = None).

Lemma lock_step_same t h m : lock_step t h h m m.
Proof. by left. Qed.

Lemma lock_step_take t m m' : lock t m = Some m' -> lock_step t false true m m'.
Proof. unfold lock. destruct (owner m) eqn:E; [done|]. intros [= <-]. right. left. by rewrite E. Qed.

Lemma lock_step_give t m : lock_step t true false m (unlock m).
Proof. by right; right. Qed.

Lemma lock_step_keep t h m m' : owner m' = owner m -> lock_step t h h m m'.
Proof. by left. Qed.
#[export] Hint Resolve lock_step_same lock_step_take lock_step_give lock_step_keep : daf.

Lemma wait_next_lock ch t tm w m m' o :
  wait_next ch t tm w m = Some (m', o) ->
  lock_step t (wait_holds w) (match o with WGo w' => wait_holds w' | _ => true end) m m'.
Proof.
  destruct w; simpl; [intros [= <- <-]..| | | |].
  - destruct (interrupted_ m); auto with daf.
  - auto with daf.
  - auto with daf.
  - destruct ch, tm; intros [= <- <-]; auto with daf.
  - destruct (lock t m) eqn:E; [|done]. intros [= <- <-]. auto with daf.
  - intros [= <- <-]. auto with daf.
  - intros [= <- <-]. destruct (interrupted_ m); auto with daf.
Qed.

Lemma intr_next_lock t i m m' o e :
  intr_next t i m = Some (m', o, e) ->
  lock_step t (intr_holds i) (match o with IGo i' => intr_holds i' | IReturn _ => false end) m m'.
Proof.
  destruct i as [| |[|i]|i|i|i]; simpl; try (intros [= <- <- <-]).
  - by destruct (interrupted_ m); [destruct (0 <? waiters_ m)|]; apply lock_step_same.
  - auto with daf.
  - auto with daf.
  - by destruct (0 <? waiters_ m); apply lock_step_same.
  - destruct (lock t m) eqn:E; [|done]. intros [= <- <- <-]. auto with daf.
  - auto with daf.
  - auto with daf.
Qed.

(** What a client must show of its steps for the mutex to work: [holds] says
    which program counters own it. *)
Lemma lock_counts t m m' :
  lock t m = Some m' ->
  waiters_ m' = waiters_ m /\ interrupted_ m' = interrupted_ m /\ owner m = None.
Proof. unfold lock. destruct (owner m); [done|]. by intros [= <-]. Qed.

Lemma wait_next_counts ch t tm w m m' o :
  wait_next ch t tm w m = Some (m', o) ->
  interrupted_ m' = interrupted_ m
  /\ waiters_ m' = waiters_ m - wait_counts w + match o with WGo w' => wait_counts w' | _ => 0 end.
Proof.
  destruct w; simpl; try (intros [= <- <-]; simpl; split; [done|]; try destruct (interrupted_ m); simpl; lia).
  - destruct ch, tm; intros [= <- <-]; simpl; split; (done || lia).
  - unfold lock. destruct (owner m); [done|]. intros [= <- <-]. simpl. split; [done|lia].
Qed.

(** A wait throws only when the monitor is interrupted. *)
Lemma wait_next_interrupted ch t tm w m m' :
  wait_next ch t tm w m = Some (m', WInterrupted) -> interrupted_ m' = true.
Proof.
  destruct w; simpl.
  - destruct (interrupted_ m) eqn:E; intros [= <-]. done.
  - done.
  - done.
  - by destruct ch, tm.
  - by destruct (lock t m).
  - done.
  - destruct (interrupted_ m) eqn:E; intros [= <-]. done.
Qed.

Lemma intr_next_counts t i m m' o e :
  intr_next t i m = Some (m', o, e) ->
  waiters_ m' = waiters_ m /\ (interrupted_ m = true -> interrupted_ m' = true) /\ e <> ESignal.
Proof.
  destruct i as [| |[|i]|i|i|i]; simpl; try (by intros [= <- <- <-]).
  unfold lock. destruct (owner m); [done|]. by intros [= <- <- <-].
Qed.

Section mutex.
Context {St P Ch : Type} `{WaitsLaws P}.
Context (local : Ch -> nat -> St -> P -> option (St * P * effect)).
Context (mon : St -> monitor) (holds : P -> bool).

(** Exactly the threads at a program counter that owns the mutex own it. *)
Definition lock_inv (c : conf St P) : Prop := forall t,
  owner (mon (shared c)) = Some t <-> exists p, threads c !! t = Some p /\ holds p = true.

(** A step of one thread against the mutex: it keeps it, takes it when it is
    free, or gives it up. *)
Definition respects_lock : Prop := forall ch t s p s' p' e,
  local ch t s p = Some (s', p', e) -> lock_step t (holds p) (holds p') (mon s) (mon s').

(** The invariant after a step of thread [t], whatever it does to the other threads as
    long as it leaves alone who holds the mutex. *)
Lemma lock_inv_update c t p s' p' ts :
  threads c !! t = Some p -> lock_step t (holds p) (holds p') (mon (shared c)) (mon s') ->
  (forall u, holds <$> ts !! u = holds <$> <[t := p']> (threads c) !! u) ->
  lock_inv c -> lock_inv (mkConf s' ts).
Proof.
  intros Hp Hstep Hts Hi u. cbn [shared threads].
  assert (holds p = true -> owner (mon (shared c)) = Some t) as Hown by (intros Hh; apply Hi; by exists p).
  assert ((exists q, ts !! u = Some q /\ holds q = true)
          <-> holds <$> <[t := p']> (threads c) !! u = Some true) as ->.
  { rewrite <- Hts, fmap_Some. split; intros (q & ? & ?); eauto. }
  destruct (decide (u = t)) as [->|Hne].
  - rewrite list_lookup_insert_eq by (by eapply lookup_lt_Some). cbn.
    destruct Hstep as [[Hh Ho]|[(Hh & Hh' & Ho & Ho')|(Hh & Hh' & Ho')]].
    + rewrite Ho, (Hi t), Hp. split; [intros (q & [= <-] & E); congruence|intros [= E]; exists p; split; congruence].
    + rewrite Ho', Hh'. done.
    + rewrite Ho', Hh'. done.
  - rewrite list_lookup_insert_ne by done. rewrite fmap_Some.
    assert ((exists q, threads c !! u = Some q /\ true = holds q) <-> owner (mon (shared c)) = Some u) as ->.
    { rewrite (Hi u). split; intros (q & ? & ?); eauto. }
    destruct Hstep as [[Hh Ho]|[(Hh & Hh' & Ho & Ho')|(Hh & Hh' & Ho')]].
    + by rewrite Ho.
    + rewrite Ho', Ho. split; [congruence|done].
    + rewrite Ho', (Hown Hh). split; [done|congruence].
Qed.

Lemma lock_inv_step c c' :
  respects_lock -> (forall p, holds (awaken p) = holds p) ->
  lock_inv c -> step (next local) c c' -> lock_inv c'.
Proof.
  intros Hr Ha Hi (ch & t & Hn). apply next_inv in Hn as (p & s & p' & e & ts & Hp & Hl & He & ->).
  apply (lock_inv_update c t p s p' ts Hp (Hr _ _ _ _ _ _ _ Hl)); [|done]. intros u.
  destruct (ts !! u) as [q|] eqn:Eq.
  - destruct (effect_lookup _ _ _ _ _ _ He Eq) as (q' & -> & [->|[_ ->]]); cbn; by rewrite ?Ha.
  - apply lookup_ge_None in Eq. rewrite (effect_length _ _ _ _ He) in Eq. apply lookup_ge_None in Eq. by rewrite Eq.
Qed.

(** A property that only the owner can have: it is counted at most there. *)
Lemma lock_inv_count (f : P -> bool) c t p :
  lock_inv c -> threads c !! t = Some p -> holds p = true -> (forall q, f q = true -> holds q = true) ->
  tcount f (threads c) = b2z (f p).
Proof.
  intros Hi Hp Hh Hf. apply (tsum_one (fun p => b2z (f p)) _ _ _ Hp). intros j q Hq Hne.
  destruct (f q) eqn:Eq; [|done]. destruct Hne.
  assert (owner (mon (shared c)) = Some t) by (apply Hi; eauto).
  assert (owner (mon (shared c)) = Some j) by (apply Hi; eauto). congruence.
Qed.

(** With the invariant, two threads cannot both own the mutex. *)
Lemma lock_inv_unique c t u p q :
  lock_inv c -> threads c !! t = Some p -> holds p = true -> threads c !! u = Some q ->
  holds q = true -> u = t.
Proof.
  intros Hi Hp Hhp Hq Hhq.
  assert (owner (mon (shared c)) = Some t) by (apply Hi; eauto).
  assert (owner (mon (shared c)) = Some u) by (apply Hi; eauto). congruence.
Qed.
End mutex.

(** ** Tactics for the clients *)

(** Case analysis on a step [H] of a thread: its choice, its program counter and
    the tests of the code. *)
Ltac local_cases H :=
  match type of H with
  | _ ?ch _ _ ?p = _ => destruct ch, p; simpl in H; try discriminate H
  end;
  simplify_option_eq; repeat (case_match; simplify_option_eq).

(** The monitor's lemmas about the part of a step that is its own. *)
Ltac monitor_facts :=
  repeat match goal with
  | H : lock _ _ = Some _ |- _ => apply lock_counts in H as (? & ? & ?)
  | H : wait_next _ _ _ _ _ = Some _ |- _ => apply wait_next_counts in H as [? ?]
  | H : intr_next _ _ _ = Some _ |- _ => apply intr_next_counts in H as (? & ? & ?)
  end.

(** Close a goal about the mutex from the monitor's own steps. *)
Ltac lock_facts :=
  first [ match goal with H : wait_next _ _ _ _ _ = _ |- _ => exact (wait_next_lock _ _ _ _ _ _ _ H) end
        | match goal with H : intr_next _ _ _ = _ |- _ => exact (intr_next_lock _ _ _ _ _ _ H) end ].
