(* ===== verification/Semaphore.v ===== *)
(** * The waiter-preference semaphore: daf/Semaphore.h, daf/Semaphore.cpp

    The steps of a thread inside [acquire], [release] and [interrupt], one per
    access to the shared state; each program counter is a point of the source.
    [granted] and [posted] count the permits handed out and added since the
    start: they are auxiliary and no step reads them. *)

From S2P Require Import Prelude Threads Monitor.

(** ** State *)

(** daf/Semaphore.h:60-103 [Semaphore]. *)
Record sem := mkSem {
  sem_mon : monitor;
  permits_ : Z;
  granted : Z;
  posted : Z;
}.

(** daf/Semaphore.h:99-103 [Semaphore::Semaphore]. *)
Definition sem_init (permits : Z) : sem := mkSem mon_init permits 0 0.

Definition with_mon (s : sem) (m : monitor) : sem := mkSem m (permits_ s) (granted s) (posted s).

(** daf/Semaphore.cpp:63-63 [Semaphore::acquire]. One permit fewer, one acquire more. *)
Definition take_permit (s : sem) : sem :=
  mkSem (sem_mon s) (permits_ s - 1) (granted s + 1) (posted s).
(** daf/Semaphore.cpp:96-96 [Semaphore::release]. One permit more. *)
Definition add_permit (s : sem) : sem :=
  mkSem (sem_mon s) (permits_ s + 1) (granted s) (posted s + 1).

(** daf/Semaphore.cpp:55-103 [Semaphore]. Program counters. *)
Inductive pc :=
| Idle
| ATest (timed : bool)                 (* while (this->interrupted() ? false : true) *)
| ALock (timed : bool)                 (* the guard takes the mutex *)
| ACheck (timed : bool)                (* if (this->permits() > this->waiters()) *)
| AWait (timed : bool) (w : wait_pc)   (* this->wait(abstime) *)
| APost (timed : bool) (r : wake)      (* after the wait *)
| AAgain (timed : bool)                (* the guard gives the mutex up, then loop *)
| RLock (n : Z)
| RLoop (n : Z)                        (* while (permits-- > 0) *)
| Exit (r : result Z)                  (* the guard gives the mutex up, then return *)
| Done (r : result Z)                  (* returned *)
| Intr (i : intr_pc).

(** The nondeterminism of a step: which operation an idle thread calls, how a
    wait ends. *)
Inductive choice :=
| CallAcquire (timed : bool)
| CallRelease (n : Z)
| CallInterrupt
| Go (w : wait_choice).

(** ** Operations *)

(** daf/Semaphore.cpp:55-84 [Semaphore::acquire]. *)
Definition acquire_next (ch : wait_choice) (t : nat) (s : sem) (p : pc) : option (sem * pc) :=
  match p with
  | ATest tm => Some (s, if interrupted_ (sem_mon s) then Done (Throw InterruptedException) else ALock tm)
  | ALock tm => m ← lock t (sem_mon s); Some (with_mon s m, ACheck tm)
  | ACheck tm =>
      if waiters_ (sem_mon s) <? permits_ s then Some (take_permit s, Exit (Ok 0))
      else Some (s, AWait tm WTest)
  | AWait tm w =>
      '(m, o) ← wait_next ch t tm w (sem_mon s);
      Some (with_mon s m, match o with
                          | WGo w => AWait tm w
                          | WReturn r => APost tm r
                          | WInterrupted => Exit (Throw InterruptedException)
                          end)
  | APost tm WTime =>
      if interrupted_ (sem_mon s) then Some (s, AAgain tm)
      else if 0 <? permits_ s then Some (take_permit s, Exit (Ok 0))
      else Some (s, Exit (Ok (-1)))
  | APost tm WOk =>
      if 0 <? permits_ s then Some (take_permit s, Exit (Ok 0)) else Some (s, AAgain tm)
  | AAgain tm => Some (with_mon s (unlock (sem_mon s)), ATest tm)
  | _ => None
  end.

(** daf/Semaphore.cpp:86-103 [Semaphore::release]. *)
Definition release_next (t : nat) (s : sem) (p : pc) : option (sem * pc * effect) :=
  match p with
  | RLock n => m ← lock t (sem_mon s); Some (with_mon s m, RLoop n, ENone)
  | RLoop n => if 0 <? n then Some (add_permit s, RLoop (n - 1), ESignal)
               else Some (s, Exit (Ok 0), ENone)
  | _ => None
  end.

(** daf/Semaphore.cpp:49-103 [Semaphore]. One step of a thread. *)
Definition sem_local (ch : choice) (t : nat) (s : sem) (p : pc) : option (sem * pc * effect) :=
  match ch, p with
  | CallAcquire tm, Idle => Some (s, ATest tm, ENone)
  | CallRelease n, Idle => Some (s, if 0 <? n then RLock n else Done (Ok 0), ENone)
  | CallInterrupt, Idle => Some (s, Intr IStart, ENone)
  | Go w, (ATest _ | ALock _ | ACheck _ | AWait _ _ | APost _ _ | AAgain _) =>
      '(s, p) ← acquire_next w t s p; Some (s, p, ENone)
  | Go _, (RLock _ | RLoop _) => release_next t s p
  | Go _, Exit r => Some (with_mon s (unlock (sem_mon s)), Done r, ENone)
  | Go _, Done _ => Some (s, Idle, ENone)
  | Go _, Intr i =>
      '(m, o, e) ← intr_next t i (sem_mon s);
      Some (with_mon s m, match o with IGo i => Intr i | IReturn r => Done (Ok r) end, e)
  | _, _ => None
  end.

#[export] Instance sem_waits : Waits pc := {|
  waiting := fun p => match p with AWait _ Waiting => true | _ => false end;
  awaken := fun p => match p with AWait tm Waiting => AWait tm (Woken WOk) | _ => p end;
|}.

#[export] Instance sem_waits_laws : WaitsLaws pc.
Proof.
  split; intros []; try done; match goal with w : wait_pc |- _ => by destruct w end.
Qed.

Definition sem_next := next sem_local.

(** [n] threads that have not called anything yet. *)
Definition sem_start (permits : Z) (n : nat) : conf sem pc := mkConf (sem_init permits) (replicate n Idle).

(** ** Invariants *)

Definition holds (p : pc) : bool :=
  match p with
  | ACheck _ | APost _ _ | AAgain _ | RLoop _ | Exit _ => true
  | AWait _ w => wait_holds w
  | Intr i => intr_holds i
  | _ => false
  end.

Definition counts (p : pc) : Z := match p with AWait _ w => wait_counts w | _ => 0 end.

(** Woken threads on their way to a permit. *)
Definition in_transit (p : pc) : bool :=
  match p with
  | AWait _ (Woken _ | WDec _ | WLeave _) | APost _ _ => true
  | _ => false
  end.

(** Threads between the test for permits and the block. *)
Definition blocking (p : pc) : bool :=
  match p with
  | AWait _ (WTest | WInc | WBlock) => true
  | _ => false
  end.

(** Threads past the point of [interrupt] that sets the flag. *)
Definition interrupting (p : pc) : bool :=
  match p with
  | Intr (ILoop _ | ILock _ | IBroadcast _ | IUnlock _) => true
  | _ => false
  end.

Lemma sem_respects_lock : respects_lock sem_local sem_mon holds.
Proof.
  intros ch t s p s' p' e Hl. local_cases Hl; simpl; auto with daf.
  all: lock_facts.
Qed.

Record sem_inv (init : Z) (c : conf sem pc) : Prop := {
  inv_lock : lock_inv sem_mon holds c;
  inv_waiters : waiters_ (sem_mon (shared c)) = tsum counts (threads c);
  inv_intr : 0 < tcount interrupting (threads c) -> interrupted_ (sem_mon (shared c)) = true;
  inv_permits : permits_ (shared c) + granted (shared c) = init + posted (shared c)
    /\ 0 <= granted (shared c) /\ 0 <= posted (shared c) /\ Z.min 0 init <= permits_ (shared c);
  (** While nobody has interrupted the semaphore: if a thread is blocked, the
      permits do not exceed the threads on their way to one; and a thread that is
      about to block saw no more permits than threads before it. *)
  inv_wake : interrupted_ (sem_mon (shared c)) = false ->
    (0 < tcount waiting (threads c) -> permits_ (shared c) <= tcount in_transit (threads c))
    /\ (0 < tcount blocking (threads c) ->
        permits_ (shared c) <= tcount waiting (threads c) + tcount in_transit (threads c));
}.

Lemma sem_inv_start permits n : sem_inv permits (sem_start permits n).
Proof.
  assert (forall f : pc -> Z, f Idle = 0 -> tsum f (replicate n Idle) = 0) as H0.
  { intros f Hf. apply tsum_zero. intros i x [-> _]%lookup_replicate. done. }
  split; cbn [sem_start shared threads sem_init sem_mon mon_init owner waiters_ permits_ granted posted].
  - intros t. simpl. split; [done|]. intros (p & [-> _]%lookup_replicate & Hp). done.
  - by rewrite H0.
  - unfold tcount. by rewrite H0.
  - lia.
  - intros _. unfold tcount. rewrite !H0 by done. lia.
Qed.

(** A thread about to test for permits sees at least the blocked and woken
    threads counted as waiters, and no others. *)
Lemma waiters_bound c t p :
  lock_inv sem_mon holds c -> threads c !! t = Some p -> holds p = true -> counts p = 0 ->
  tsum counts (threads c) <= tcount waiting (threads c) + tcount in_transit (threads c).
Proof.
  intros Hi Hp Hh Hc. unfold tcount. rewrite <- tsum_add. apply tsum_le. intros i q Hq.
  destruct (decide (i = t)) as [->|Hne].
  - assert (q = p) as -> by congruence. rewrite Hc.
    pose proof (b2z_bounds (waiting p)). pose proof (b2z_bounds (in_transit p)). lia.
  - destruct (holds q) eqn:Eh; [destruct Hne; by eapply lock_inv_unique|].
    destruct q as [| | | |tm w| | | | | | |]; simpl in *; try lia. destruct w; simpl in *; try done; lia.
Qed.

Lemma sem_local_monitor ch t s p s' p' e :
  sem_local ch t s p = Some (s', p', e) ->
  waiters_ (sem_mon s') = waiters_ (sem_mon s) - counts p + counts p'
  /\ (interrupted_ (sem_mon s) = true -> interrupted_ (sem_mon s') = true)
  /\ (interrupting p = false -> interrupting p' = true -> interrupted_ (sem_mon s') = true).
Proof.
  intros Hl. local_cases Hl; monitor_facts; simpl in *; repeat split; try done; try lia; try congruence.
Qed.

Lemma sem_local_permits ch t s p s' p' e :
  sem_local ch t s p = Some (s', p', e) ->
  (permits_ s' = permits_ s /\ granted s' = granted s /\ posted s' = posted s)
  \/ (s' = take_permit s /\ p' = Exit (Ok 0) /\ Z.min 0 (waiters_ (sem_mon s)) < permits_ s)
  \/ s' = add_permit s.
Proof.
  intros Hl. local_cases Hl; simpl; auto; rewrite ?Z.ltb_lt in *; right; left;
    (split; [done|]); (split; [done|]); lia.
Qed.

(** Waking moves a thread from the blocked to those on their way. *)
Lemma awaken_transit p : waiting p = true -> b2z (in_transit (awaken p)) = b2z (in_transit p) + 1.
Proof. by destruct p as [| | | |? []| | | | | | |]. Qed.

Definition wake_ok (s : sem) (W V B : Z) : Prop :=
  interrupted_ (sem_mon s) = false -> (0 < W -> permits_ s <= V) /\ (0 < B -> permits_ s <= W + V).

(** The numeric core of the absence of lost wake-ups, for one step without its
    effect on others: [W], [V] and [B] count the blocked threads, those in
    transit and those about to block. *)
Lemma sem_local_wake ch t s p s' p' e W V B :
  sem_local ch t s p = Some (s', p', e) ->
  wake_ok s W V B ->
  b2z (waiting p) <= W -> b2z (in_transit p) <= V -> b2z (blocking p) <= B ->
  (holds p = true -> B = b2z (blocking p)) ->
  (holds p = true -> counts p = 0 -> waiters_ (sem_mon s) <= W + V) ->
  (interrupting p = true -> interrupted_ (sem_mon s) = true) ->
  let W' := W - b2z (waiting p) + b2z (waiting p') in
  let V' := V - b2z (in_transit p) + b2z (in_transit p') in
  let B' := B - b2z (blocking p) + b2z (blocking p') in
  match e with
  | ENone => wake_ok s' W' V' B'
  | ESignal => wake_ok s' (W' - 1) (V' + 1) B' /\ (W' = 0 -> wake_ok s' W' V' B')
  | EBroadcast => interrupted_ (sem_mon s') = true
  end.
Proof.
  unfold wake_ok. intros Hl Hok HW HV HB Hhold Hwait Hint.
  pose proof (b2z_bounds (waiting p)). pose proof (b2z_bounds (in_transit p)). pose proof (b2z_bounds (blocking p)).
  local_cases Hl; monitor_facts; simpl in *; rewrite ?Z.ltb_lt, ?Z.ltb_ge in *.
  all: try match goal with |- _ /\ _ => split end; intros; try (destruct Hok as [Hok1 Hok2]; [congruence|]).
  all: try lia; try congruence; auto.
Qed.

Lemma sem_inv_step init c c' : sem_inv init c -> step sem_next c c' -> sem_inv init c'.
Proof.
  intros [Hlock Hwait Hintr Hperm Hwake] Hstep.
  pose proof (lock_inv_step _ _ _ c c' sem_respects_lock ltac:(by intros [| | | |? []| | | | | | |]) Hlock Hstep) as Hlock'.
  destruct Hstep as ([ch k] & t & Hn). apply next_inv in Hn as (p & s & p' & e & ts & Hp & Hl & He & ->).
  cbn [fst snd shared threads] in *.
  pose proof (sem_local_monitor _ _ _ _ _ _ _ Hl) as (Hw & Hmono & Hset).
  pose proof (sem_local_permits _ _ _ _ _ _ _ Hl) as Hpe.
  pose proof (fun f => step_count f _ _ _ _ _ _ _ Hp He) as Hsame.
  assert (forall f : pc -> Z, tsum f (<[t := p']> (threads c)) = tsum f (threads c) - f p + f p') as Hins
    by (intros f; by apply tsum_insert).
  pose proof (tsum_nonneg counts (threads c) ltac:(by intros [| | | |? []| | | | | | |])) as Hnn.
  split; cbn [shared threads]; [exact Hlock'|..].
  - rewrite (effect_sum_same counts _ _ _ _ ltac:(by intros [| | | |? []| | | | | | |]) He), Hins. lia.
  - rewrite (Hsame interrupting) by (by intros [| | | |? []| | | | | | |]).
    pose proof (tcount_le_one interrupting _ _ _ Hp).
    destruct (interrupting p) eqn:E, (interrupting p') eqn:E'; simpl in *; intros; auto;
      apply Hmono, Hintr; lia.
  - destruct Hpe as [(-> & -> & ->)|[(-> & -> & Hlt)| ->]]; simpl; lia.
  - pose proof (sem_local_wake _ _ _ _ _ _ _ (tcount waiting (threads c)) (tcount in_transit (threads c))
      (tcount blocking (threads c)) Hl Hwake) as Hcore.
    specialize (Hcore (tcount_le_one waiting _ _ _ Hp) (tcount_le_one in_transit _ _ _ Hp)
      (tcount_le_one blocking _ _ _ Hp)).
    specialize (Hcore ltac:(intros Hh; apply (lock_inv_count _ holds blocking c t p Hlock Hp Hh);
      by intros [| | | |? []| | | | | | |])).
    specialize (Hcore ltac:(intros Hh Hc; rewrite Hwait; by apply (waiters_bound c t p))).
    specialize (Hcore ltac:(intros Hi; apply Hintr; pose proof (tcount_le_one interrupting _ _ _ Hp) as Hone;
      rewrite Hi in Hone; simpl in Hone; lia)).
    cbv zeta in Hcore. change (wake_ok s (tcount waiting ts) (tcount in_transit ts) (tcount blocking ts)).
    rewrite (Hsame blocking) by (by intros [| | | |? []| | | | | | |]).
    destruct e.
    + simpl in He. injection He as <-. unfold tcount in *. by rewrite !Hins.
    + destruct Hcore as [H1 H0].
      destruct (signal_sum (fun q => b2z (in_transit q)) _ _ _ awaken_transit He) as [[Hz ->]|[Hw' Hv']].
      * unfold tcount in *. rewrite !Hins in *. by apply H0.
      * unfold tcount in *. rewrite Hw', Hv', !Hins. exact H1.
    + intros Hi. congruence.
Qed.

Lemma sem_inv_reachable init n c : reachable sem_next (sem_start init n) c -> sem_inv init c.
Proof. apply invariant; [apply sem_inv_start|intros c1 c2; apply sem_inv_step]. Qed.

(** A thread inside an operation, neither blocked nor returned. *)
Definition running (p : pc) : bool :=
  match p with
  | Idle | Done _ => false
  | _ => negb (waiting p)
  end.

(** A running thread can take its next step when it owns the mutex or the mutex
    is free. *)
Lemma sem_local_enabled t s p :
  running p = true -> (holds p = true \/ owner (sem_mon s) = None) ->
  exists r, sem_local (Go Spurious) t s p = Some r.
Proof.
  intros Hr Ho. assert (holds p = false -> exists m, lock t (sem_mon s) = Some m) as Hl.
  { intros Hh. destruct Ho as [Ho|Ho]; [congruence|]. unfold lock. rewrite Ho. eauto. }
  destruct p as [| | | |? []|? []| | | | | |[| |[]| | |]]; simpl in *; try done;
    try (destruct Hl as [m ->]; [done|]; simpl); eauto;
    repeat case_match; simplify_eq; eauto.
Qed.

(** ** The abstract semaphore *)

(** A number of permits, and whether it has been interrupted. *)
Record counter := Counter { value : Z; broken : bool }.

(** What a thread's call asks of it, and how the call ends. *)
Inductive call :=
| Out
| Acquiring (timed : bool)
| Releasing (left : Z)
| Interrupting
| Ended (r : result Z).

(** The moves of a thread: it calls; an acquire takes a permit and ends with 0, ends with -1 if it has a deadline and there is
    no permit, or ends with an exception after an interruption; a release adds the permits it was called with, one at a time, and ends with 0;
    an interruption ends after the semaphore is interrupted; and between these nothing changes. *)
Inductive counter_step : choice -> counter * call -> counter * call -> Prop :=
| counter_acquire tm s : counter_step (CallAcquire tm) (s, Out) (s, Acquiring tm)
| counter_release n s : 0 < n -> counter_step (CallRelease n) (s, Out) (s, Releasing n)
| counter_release_none n s : n <= 0 -> counter_step (CallRelease n) (s, Out) (s, Ended (Ok 0))
| counter_interrupt s : counter_step CallInterrupt (s, Out) (s, Interrupting)
| counter_stutter w s a : counter_step (Go w) (s, a) (s, a)
| counter_take w n b tm : 0 < n -> counter_step (Go w) (Counter n b, Acquiring tm) (Counter (n - 1) b, Ended (Ok 0))
| counter_give_up w n : n <= 0 -> counter_step (Go w) (Counter n false, Acquiring true) (Counter n false, Ended (Ok (-1)))
| counter_interrupted w n tm :
    counter_step (Go w) (Counter n true, Acquiring tm) (Counter n true, Ended (Throw InterruptedException))
| counter_add w n b k : 0 < k -> counter_step (Go w) (Counter n b, Releasing k) (Counter (n + 1) b, Releasing (k - 1))
| counter_released w s k : k <= 0 -> counter_step (Go w) (s, Releasing k) (s, Ended (Ok 0))
| counter_break w n b : counter_step (Go w) (Counter n b, Interrupting) (Counter n true, Interrupting)
| counter_broken w n r : counter_step (Go w) (Counter n true, Interrupting) (Counter n true, Ended (Ok r))
| counter_return w s r : counter_step (Go w) (s, Ended r) (s, Out).

(** The counter that a semaphore is, and the call that a program counter stands for. *)
Definition counter_of (s : sem) : counter := Counter (permits_ s) (interrupted_ (sem_mon s)).
Definition call_of (p : pc) : call :=
  match p with
  | Idle => Out
  | ATest tm | ALock tm | ACheck tm | AWait tm _ | APost tm _ | AAgain tm => Acquiring tm
  | RLock n | RLoop n => Releasing n
  | Exit r | Done r => Ended r
  | Intr _ => Interrupting
  end.

Lemma call_of_awaken p : call_of (awaken p) = call_of p.
Proof. by destruct p as [| | | |? []| | | | | | |]. Qed.

(** Only a wait with a deadline ends by it. *)
Definition in_time (p : pc) : bool :=
  match p with
  | AWait tm (Woken WTime | WDec WTime | WLeave WTime) | APost tm WTime => tm
  | _ => true
  end.

Lemma wait_next_ends ch t tm w m m' o : wait_next ch t tm w m = Some (m', o) ->
  (o = WInterrupted -> interrupted_ m' = true) /\ (forall r, o = WReturn r -> w = WLeave r)
  /\ (forall w', o = WGo w' -> in_time (AWait tm w) = true -> in_time (AWait tm w') = true).
Proof.
  destruct w as [| | | |r|r|r]; simpl; [intros [= <- <-]..| | | |].
  - by destruct (interrupted_ m) eqn:E; split_and!; intros; simplify_eq.
  - by split_and!; intros; simplify_eq.
  - by split_and!; intros; simplify_eq.
  - by destruct ch, tm; intros [= <- <-]; split_and!; intros; simplify_eq.
  - destruct (lock t m); [|done]. intros [= <- <-]. by split_and!; intros; simplify_eq.
  - intros [= <- <-]. by split_and!; intros; simplify_eq.
  - intros [= <- <-]. by destruct (interrupted_ m) eqn:E; split_and!; intros; simplify_eq.
Qed.

Lemma sem_local_in_time ch t s p s' p' e : sem_local ch t s p = Some (s', p', e) -> in_time p = true -> in_time p' = true.
Proof.
  intros Hl Ht. local_cases Hl; try done.
  all: match goal with H : wait_next _ _ _ _ _ = Some _ |- _ => apply wait_next_ends in H as (_ & Hr & Hg) end.
  all: first [by apply Hg|by rewrite (Hr _ eq_refl) in Ht].
Qed.

Lemma in_time_reachable init n c : reachable sem_next (sem_start init n) c -> forall t p, threads c !! t = Some p -> in_time p = true.
Proof.
  apply (invariant _ (fun c => forall t p, threads c !! t = Some p -> in_time p = true)).
  - by intros t p [-> _]%lookup_replicate.
  - intros c1 c2 IH ([ch k] & t & Hn) u q Hu. apply next_inv in Hn as (p & s & p' & e & ts & Hp & Hl & He & ->).
    destruct (effect_lookup _ _ _ _ _ _ He Hu) as (q' & Hq & Hqq). assert (in_time q' = true) as Hq'.
    { destruct (decide (u = t)) as [->|Hne]; [|rewrite list_lookup_insert_ne in Hq by done; eauto].
      rewrite list_lookup_insert_eq in Hq by (by eapply lookup_lt_Some). injection Hq as <-. eapply sem_local_in_time; eauto. }
    destruct Hqq as [->|[_ ->]]; [done|]. by destruct q' as [| | | |? []| | | | | | |].
Qed.

(** A step of a thread is a move of the abstract semaphore. *)
Lemma sem_local_counter ch t s p s' p' e : sem_local ch t s p = Some (s', p', e) -> in_time p = true ->
  (holds p = true -> 0 <= waiters_ (sem_mon s)) -> (interrupting p = true -> interrupted_ (sem_mon s) = true) ->
  counter_step ch (counter_of s, call_of p) (counter_of s', call_of p').
Proof.
  intros Hl Ht Hw Hi. unfold counter_of. local_cases Hl; simpl in *; rewrite ?Z.ltb_lt, ?Z.ltb_ge in *; try (by constructor).
  all: try match goal with H : interrupted_ _ = _ |- _ => rewrite ?H in * end.
  all: try match goal with H : wait_next _ _ _ _ _ = Some _ |- _ =>
    pose proof (wait_next_ends _ _ _ _ _ _ _ H) as (He & _ & _); apply wait_next_counts in H as [H _] end.
  all: try match goal with H : lock _ _ = Some _ |- _ => apply lock_counts in H as (_ & H & _); rewrite H end.
  all: try (by constructor).
  all: try (constructor; first [done|lia|specialize (Hw eq_refl); lia]).
  all: repeat match goal with H : (if _ then _ else _) = _ |- _ => case_match; simplify_eq | H : interrupted_ _ = _ |- _ => rewrite H end.
  all: try rewrite (Hi eq_refl); constructor.
Qed.

(** ** Properties *)

(** In every reachable state of any number of threads the permits held
    back and handed out add up: permits plus acquires that succeeded is the initial
    count plus the permits released. The count never goes below zero (or below a
    negative initial value), so no more acquires succeed than there were permits. *)
Theorem semaphore_conservation init n c :
  reachable sem_next (sem_start init n) c ->
  permits_ (shared c) + granted (shared c) = init + posted (shared c)
  /\ Z.min 0 init <= permits_ (shared c)
  /\ granted (shared c) <= Z.max 0 init + posted (shared c).
Proof. intros Hc. destruct (sem_inv_reachable _ _ _ Hc) as [_ _ _ Hp _]. lia. Qed.

(** C3 (refinement). The semaphore of mutex, condition and waiter count implements an
    abstract counter of permits: every step of a thread, in every reachable state, is a move
    [counter_step] of its call on the counter and leaves the calls of the others as they are.  So an acquire
    ends with 0 exactly by taking a permit that is there, with -1 only with a deadline and no
    permit, with InterruptedException only after an interruption; a release adds the permits it was
    called with, one by one, and then returns 0; and nothing else changes the number of permits. *)
Theorem semaphore_refines_counter init n c ch k t c' :
  reachable sem_next (sem_start init n) c -> sem_next (ch, k) t c = Some c' ->
  exists p p', threads c !! t = Some p /\ threads c' !! t = Some p'
    /\ counter_step ch (counter_of (shared c), call_of p) (counter_of (shared c'), call_of p')
    /\ forall u, u <> t -> call_of <$> threads c' !! u = call_of <$> threads c !! u.
Proof.
  intros Hc Hn. pose proof (sem_inv_reachable _ _ _ Hc) as [_ Hw Hi _ _].
  apply next_inv in Hn as (p & s & p' & e & ts & Hp & Hl & He & ->). cbn [fst snd] in *.
  assert (counter_step ch (counter_of (shared c), call_of p) (counter_of s, call_of p')) as Hcs.
  { apply (sem_local_counter _ _ _ _ _ _ _ Hl); [by eapply in_time_reachable| |].
    - intros _. rewrite Hw. apply tsum_nonneg. by intros [| | | |? []| | | | | | |].
    - intros Hint. apply Hi. pose proof (tcount_le_one interrupting _ _ _ Hp) as H1. rewrite Hint in H1. cbn in H1. lia. }
  assert (forall u, call_of <$> ts !! u = call_of <$> <[t := p']> (threads c) !! u) as Hcalls.
  { intros u. destruct (ts !! u) as [q|] eqn:Eq.
    - destruct (effect_lookup _ _ _ _ _ _ He Eq) as (q' & -> & [->|[_ ->]]); [done|apply (f_equal Some), call_of_awaken].
    - apply lookup_ge_None in Eq. rewrite (effect_length _ _ _ _ He) in Eq. apply lookup_ge_None in Eq. by rewrite Eq. }
  pose proof (Hcalls t) as Ht. rewrite list_lookup_insert_eq in Ht by (by eapply lookup_lt_Some). cbn in Ht.
  apply fmap_Some in Ht as (q & Hq & Eq). exists p, q. split; [done|]. split; [done|]. split; [cbn [shared]; congruence|].
  intros u Hne. cbn [threads]. by rewrite Hcalls, list_lookup_insert_ne.
Qed.

(** C5 (liveness). No wake-up is lost: as long as the semaphore is not interrupted,
    while a thread is blocked there are at most as many permits as woken threads on
    their way to take one. So when nobody is on the way, a blocked thread means there is
    no permit. *)
Theorem semaphore_no_lost_wakeup init n c t p :
  reachable sem_next (sem_start init n) c -> interrupted_ (sem_mon (shared c)) = false ->
  threads c !! t = Some p -> waiting p = true ->
  permits_ (shared c) <= tcount in_transit (threads c).
Proof.
  intros Hc Hi Hp Hw. destruct (sem_inv_reachable _ _ _ Hc) as [_ _ _ _ Hwake].
  apply Hwake; [done|]. apply tcount_exists. by exists t, p.
Qed.

(** The preference for waiters: when a newly entering thread finds more
    permits than waiters and takes one, no thread is blocked in the semaphore, and the
    permits left cover every woken thread that has not resumed yet. *)
Theorem semaphore_no_barging init n c t tm :
  reachable sem_next (sem_start init n) c -> interrupted_ (sem_mon (shared c)) = false ->
  threads c !! t = Some (ACheck tm) -> waiters_ (sem_mon (shared c)) < permits_ (shared c) ->
  (forall u p, threads c !! u = Some p -> waiting p = false)
  /\ tcount in_transit (threads c) <= permits_ (shared c) - 1.
Proof.
  intros Hc Hi Hp Hlt. destruct (sem_inv_reachable _ _ _ Hc) as [Hlock Hw _ _ Hwake].
  assert (tcount in_transit (threads c) <= tsum counts (threads c)) as Hle.
  { apply tsum_le. intros u q Hq. destruct (decide (u = t)) as [->|Hne].
    - assert (q = ACheck tm) as -> by congruence. done.
    - destruct (holds q) eqn:Eh.
      + destruct Hne. by apply (lock_inv_unique _ _ _ _ _ (ACheck tm) q Hlock).
      + destruct q as [| | | |? []| | | | | | |]; simpl in *; done || lia. }
  split; [|lia]. intros u p Hu. destruct (waiting p) eqn:Ew; [|done].
  destruct (Hwake Hi) as [Hwk _]. pose proof (tcount_le_one waiting _ _ _ Hu) as H1.
  rewrite Ew in H1. cbn [b2z] in H1. specialize (Hwk ltac:(lia)). lia.
Qed.

(** There is no deadlock inside the semaphore: whenever a thread is in an
    operation and neither blocked in the condition nor returned, some thread can take a
    step. *)
Theorem semaphore_progress init n c t p :
  reachable sem_next (sem_start init n) c -> threads c !! t = Some p -> running p = true ->
  exists u k c', sem_next (Go Spurious, k) u c = Some c'.
Proof.
  intros Hc Hp Hr. destruct (sem_inv_reachable _ _ _ Hc) as [Hlock _ _ _ _].
  assert (exists u q, threads c !! u = Some q /\ running q = true
    /\ (holds q = true \/ owner (sem_mon (shared c)) = None)) as (u & q & Hq & Hrq & Ho).
  { destruct (owner (sem_mon (shared c))) as [u|] eqn:Eo; [|eauto 10].
    apply Hlock in Eo as (q & Hq & Hh). exists u, q. split; [done|]. split; [|by left].
    by destruct q as [| | | |? []| | | | | | |[]]. }
  destruct (sem_local_enabled u (shared c) q Hrq Ho) as ([[s' p'] e] & El).
  destruct (effect_total e (<[u := p']> (threads c))) as (k & ts & Ee).
  exists u, k, (mkConf s' ts). unfold sem_next, next. rewrite Hq. simpl in *. rewrite El. simpl. by rewrite Ee.
Qed.

(** ** Schedules *)

Definition go (t : nat) : (choice * option nat) * nat := ((Go Spurious, None), t).

(** A thread acquires the only permit; a second one blocks; the first releases
    and the signal wakes the second. *)
Definition hand_over : list ((choice * option nat) * nat) :=
  [((CallAcquire false, None), 0%nat); go 0; go 0; go 0; go 0; go 0;
   ((CallAcquire false, None), 1%nat); go 1; go 1; go 1; go 1; go 1; go 1;
   ((CallRelease 1, None), 0%nat); go 0; ((Go Spurious, Some 1%nat), 0%nat)].

Definition after (c : conf sem pc) sched : conf sem pc := default c (run sem_next sched c).

Lemma after_reachable c sched : is_Some (run sem_next sched c) -> reachable sem_next c (after c sched).
Proof. intros [c' E]. unfold after. rewrite E. by apply run_reachable with sched. Qed.

(** An interruption that comes between a thread's test of the flag and its block
    finds no waiter, reports success, and leaves the thread blocked. *)
Definition lost_interrupt : list ((choice * option nat) * nat) :=
  [((CallAcquire false, None), 0%nat); go 0; go 0; go 0; go 0;
   ((CallInterrupt, None), 1%nat); go 1; go 1; go 1;
   go 0; go 0].

Lemma interrupt_can_be_lost :
  run sem_next lost_interrupt (sem_start 0 2)
  = Some (mkConf (mkSem (mkMon None true 1) 0 0 0) [AWait false Waiting; Done (Ok 0)]).
Proof. vm_compute. reflexivity. Qed.

(** ** The theorems at concrete inputs *)

Lemma semaphore_conservation_witness :
  let c := after (sem_start 1 2) hand_over in
  reachable sem_next (sem_start 1 2) c
  /\ permits_ (shared c) + granted (shared c) = 1 + posted (shared c)
  /\ Z.min 0 1 <= permits_ (shared c)
  /\ granted (shared c) <= Z.max 0 1 + posted (shared c).
Proof.
  intros c. assert (reachable sem_next (sem_start 1 2) c) as H
    by (apply after_reachable; vm_compute; eexists; reflexivity).
  split; [exact H|]. apply (semaphore_conservation 1 2 c H).
Defined.

Lemma semaphore_refines_counter_witness :
  let c := after (sem_start 1 2) (take 15 hand_over) in
  let c' := after (sem_start 1 2) hand_over in
  reachable sem_next (sem_start 1 2) c /\ sem_next (Go Spurious, Some 1%nat) 0 c = Some c'
  /\ exists p p', threads c !! 0%nat = Some p /\ threads c' !! 0%nat = Some p'
    /\ counter_step (Go Spurious) (counter_of (shared c), call_of p) (counter_of (shared c'), call_of p')
    /\ forall u, u <> 0%nat -> call_of <$> threads c' !! u = call_of <$> threads c !! u.
Proof.
  intros c c'. assert (reachable sem_next (sem_start 1 2) c) as H
    by (apply after_reachable; vm_compute; eexists; reflexivity).
  assert (sem_next (Go Spurious, Some 1%nat) 0 c = Some c') as Hs by (vm_compute; reflexivity).
  split; [exact H|]. split; [exact Hs|]. exact (semaphore_refines_counter 1 2 c (Go Spurious) (Some 1%nat) 0 c' H Hs).
Defined.

(** The permit of the first thread is taken and the second is blocked: nothing
    is left over. *)
Lemma semaphore_no_lost_wakeup_witness :
  let c := after (sem_start 1 2) (take 13 hand_over) in
  reachable sem_next (sem_start 1 2) c
  /\ threads c !! 1%nat = Some (AWait false Waiting)
  /\ permits_ (shared c) <= tcount in_transit (threads c).
Proof.
  intros c. assert (reachable sem_next (sem_start 1 2) c) as H
    by (apply after_reachable; vm_compute; eexists; reflexivity).
  split; [exact H|]. split; [vm_compute; reflexivity|].
  apply (semaphore_no_lost_wakeup 1 2 c 1 (AWait false Waiting) H); vm_compute; reflexivity.
Defined.

Lemma semaphore_no_barging_witness :
  let c := after (sem_start 1 2) (take 3 hand_over) in
  reachable sem_next (sem_start 1 2) c /\ threads c !! 0%nat = Some (ACheck false)
  /\ (forall u p, threads c !! u = Some p -> waiting p = false)
  /\ tcount in_transit (threads c) <= permits_ (shared c) - 1.
Proof.
  intros c. assert (reachable sem_next (sem_start 1 2) c) as H
    by (apply after_reachable; vm_compute; eexists; reflexivity).
  split; [exact H|]. split; [vm_compute; reflexivity|].
  apply (semaphore_no_barging 1 2 c 0 false H); vm_compute; reflexivity.
Defined.

Lemma semaphore_progress_witness :
  let c := after (sem_start 1 2) hand_over in
  reachable sem_next (sem_start 1 2) c /\ threads c !! 0%nat = Some (RLoop 0)
  /\ exists u k c', sem_next (Go Spurious, k) u c = Some c'.
Proof.
  intros c. assert (reachable sem_next (sem_start 1 2) c) as H
    by (apply after_reachable; vm_compute; eexists; reflexivity).
  split; [exact H|]. split; [vm_compute; reflexivity|].
  apply (semaphore_progress 1 2 c 0 (RLoop 0) H); vm_compute; reflexivity.
Defined.
