(* ===== verification/CountDownSemaphore.v ===== *)
(** * The count-down semaphore: daf/CountDownSemaphore.h, daf/CountDownSemaphore.cpp

    The steps of a thread inside [acquire], [release] and [interrupt], as for
    the Semaphore.  [released] counts the decrements since the start; no step reads
    it. *)

From S2P Require Import Prelude Threads Monitor.

(** ** State *)

(** daf/CountDownSemaphore.h:47-89 [CountDownSemaphore]. *)
Record cds := mkCds {
  cds_mon : monitor;
  count_ : Z;
  released : Z;
}.

(** daf/CountDownSemaphore.h:91-95 [CountDownSemaphore::CountDownSemaphore]. *)
Definition cds_init `{AceMinMax} (count : Z) : cds := mkCds mon_init (ace_max 0 count) 0.

Definition cds_with_mon (s : cds) (m : monitor) : cds := mkCds m (count_ s) (released s).

(** daf/CountDownSemaphore.cpp:79-79 [CountDownSemaphore::release]. One fewer to count down. *)
Definition count_down (s : cds) : cds := mkCds (cds_mon s) (count_ s - 1) (released s + 1).

(** daf/CountDownSemaphore.cpp:48-86 [CountDownSemaphore]. Program counters. *)
Inductive cpc :=
| CIdle
| CLock (timed : bool)                (* the guard takes the mutex *)
| CTest (timed : bool)                (* while (this->interrupted() || this->count() > 0) *)
| CEnter (timed : bool)               (* this->interrupted() ? last_error(EINTR) : this->wait(abstime) *)
| CWait (timed : bool) (w : wait_pc)
| CPost (timed : bool) (r : wake)     (* after the wait *)
| CExit (r : result Z)                (* [acquire] gives the mutex up *)
| CDone (r : result Z)                (* [acquire] returned *)
| CRLock (n : Z)
| CRTest (n : Z)                      (* if (this->count() > 0) *)
| CRLoop (n : Z)                      (* while (count-- > 0) *)
| CRExit                              (* [release] gives the mutex up, then returns 0 *)
| CIntr (i : intr_pc).

Inductive cchoice :=
| CCallAcquire (timed : bool)
| CCallRelease (n : Z)
| CCallInterrupt
| CGo (w : wait_choice).

(** ** Operations *)

(** daf/CountDownSemaphore.cpp:48-70 [CountDownSemaphore::acquire]. *)
Definition cds_acquire (ch : wait_choice) (t : nat) (s : cds) (p : cpc) : option (cds * cpc) :=
  match p with
  | CLock tm => m ← lock t (cds_mon s); Some (cds_with_mon s m, CTest tm)
  | CTest tm =>
      Some (s, if interrupted_ (cds_mon s) || (0 <? count_ s) then CEnter tm else CExit (Ok 0))
  | CEnter tm =>
      Some (s, if interrupted_ (cds_mon s) then CExit (Throw InterruptedException)
               else CWait tm WTest)
  | CWait tm w =>
      '(m, o) ← wait_next ch t tm w (cds_mon s);
      Some (cds_with_mon s m, match o with
                              | WGo w => CWait tm w
                              | WReturn r => CPost tm r
                              | WInterrupted => CExit (Throw InterruptedException)
                              end)
  | CPost tm WOk => Some (s, CTest tm)
  | CPost tm WTime => Some (s, if count_ s <=? 0 then CTest tm else CExit (Ok (-1)))
  | _ => None
  end.

(** daf/CountDownSemaphore.cpp:72-86 [CountDownSemaphore::release]. *)
Definition cds_release (t : nat) (s : cds) (p : cpc) : option (cds * cpc * effect) :=
  match p with
  | CRLock n => m ← lock t (cds_mon s); Some (cds_with_mon s m, CRTest n, ENone)
  | CRTest n => Some (s, if 0 <? count_ s then CRLoop n else CRExit, ENone)
  | CRLoop n =>
      if 0 <? n then
        let s := count_down s in
        if count_ s =? 0 then Some (s, CRExit, EBroadcast) else Some (s, CRLoop (n - 1), ENone)
      else Some (s, CRExit, ENone)
  | _ => None
  end.

(** daf/CountDownSemaphore.cpp:42-86 [CountDownSemaphore]. One step of a thread. *)
Definition cds_local (ch : cchoice) (t : nat) (s : cds) (p : cpc) : option (cds * cpc * effect) :=
  match ch, p with
  | CCallAcquire tm, CIdle => Some (s, CLock tm, ENone)
  | CCallRelease n, CIdle => Some (s, CRLock n, ENone)
  | CCallInterrupt, CIdle => Some (s, CIntr IStart, ENone)
  | CGo w, (CLock _ | CTest _ | CEnter _ | CWait _ _ | CPost _ _) =>
      '(s, p) ← cds_acquire w t s p; Some (s, p, ENone)
  | CGo _, (CRLock _ | CRTest _ | CRLoop _) => cds_release t s p
  | CGo _, CExit r => Some (cds_with_mon s (unlock (cds_mon s)), CDone r, ENone)
  | CGo _, CRExit => Some (cds_with_mon s (unlock (cds_mon s)), CIdle, ENone)
  | CGo _, CDone _ => Some (s, CIdle, ENone)
  | CGo _, CIntr i =>
      '(m, o, e) ← intr_next t i (cds_mon s);
      Some (cds_with_mon s m, match o with IGo i => CIntr i | IReturn _ => CIdle end, e)
  | _, _ => None
  end.

#[export] Instance cds_waits : Waits cpc := {|
  waiting := fun p => match p with CWait _ Waiting => true | _ => false end;
  awaken := fun p => match p with CWait tm Waiting => CWait tm (Woken WOk) | _ => p end;
|}.

#[export] Instance cds_waits_laws : WaitsLaws cpc.
Proof.
  split; intros []; try done; match goal with w : wait_pc |- _ => by destruct w end.
Qed.

Definition cds_next := next cds_local.

Definition cds_start `{AceMinMax} (count : Z) (n : nat) : conf cds cpc :=
  mkConf (cds_init count) (replicate n CIdle).

(** ** Invariants *)

Definition cds_holds (p : cpc) : bool :=
  match p with
  | CTest _ | CEnter _ | CPost _ _ | CExit _ | CRTest _ | CRLoop _ | CRExit => true
  | CWait _ w => wait_holds w
  | CIntr i => intr_holds i
  | _ => false
  end.

(** Threads past the test for a positive count, up to the block. *)
Definition entering (p : cpc) : bool :=
  match p with
  | CWait _ (WTest | WInc | WBlock) => true
  | _ => false
  end.

(** Threads between [while (...)] and [wait]. *)
Definition deciding (p : cpc) : bool := match p with CEnter _ => true | _ => false end.

(** A [release] inside its loop. *)
Definition releasing (p : cpc) : bool := match p with CRLoop _ => true | _ => false end.

(** An [acquire] that has passed the latch. *)
Definition passed (p : cpc) : bool :=
  match p with
  | CExit (Ok r) | CDone (Ok r) => r =? 0
  | _ => false
  end.

Record cds_inv (init : Z) (c : conf cds cpc) : Prop := {
  cinv_lock : lock_inv cds_mon cds_holds c;
  cinv_count : count_ (shared c) + released (shared c) = Z.max 0 init
    /\ 0 <= released (shared c) /\ 0 <= count_ (shared c);
  (** A thread that decided to wait did so on a positive count, or will see that
      it was interrupted. *)
  cinv_deciding : 0 < tcount deciding (threads c) ->
    0 < count_ (shared c) \/ interrupted_ (cds_mon (shared c)) = true;
  cinv_entering : 0 < tcount entering (threads c) -> 0 < count_ (shared c);
  cinv_releasing : 0 < tcount releasing (threads c) -> 0 < count_ (shared c);
  cinv_waiting : 0 < tcount waiting (threads c) -> 0 < count_ (shared c);
  cinv_passed : 0 < tcount passed (threads c) -> count_ (shared c) = 0;
}.

Lemma cds_respects_lock : respects_lock cds_local cds_mon cds_holds.
Proof.
  intros ch t s p s' p' e Hl. local_cases Hl; simpl; auto with daf.
  all: lock_facts.
Qed.

(** The numeric core of one step: the counts [W], [N], [D], [L] and [A] of the
    threads blocked, entering, deciding, releasing and passed. *)
Lemma cds_local_counts ch t s p s' p' e W N D L A :
  cds_local ch t s p = Some (s', p', e) ->
  0 <= count_ s ->
  (0 < D -> 0 < count_ s \/ interrupted_ (cds_mon s) = true) ->
  (0 < N -> 0 < count_ s) -> (0 < L -> 0 < count_ s) -> (0 < W -> 0 < count_ s) ->
  (0 < A -> count_ s = 0) ->
  b2z (waiting p) <= W -> b2z (entering p) <= N -> b2z (deciding p) <= D ->
  b2z (releasing p) <= L -> b2z (passed p) <= A ->
  (cds_holds p = true -> N = b2z (entering p) /\ D = b2z (deciding p) /\ L = b2z (releasing p)) ->
  let W' := W - b2z (waiting p) + b2z (waiting p') in
  let N' := N - b2z (entering p) + b2z (entering p') in
  let D' := D - b2z (deciding p) + b2z (deciding p') in
  let L' := L - b2z (releasing p) + b2z (releasing p') in
  let A' := A - b2z (passed p) + b2z (passed p') in
  count_ s' + released s' = count_ s + released s /\ released s <= released s' /\ 0 <= count_ s'
  /\ (0 < D' -> 0 < count_ s' \/ interrupted_ (cds_mon s') = true)
  /\ (0 < N' -> 0 < count_ s') /\ (0 < L' -> 0 < count_ s') /\ (0 < A' -> count_ s' = 0)
  /\ (e <> EBroadcast -> 0 < W' -> 0 < count_ s') /\ e <> ESignal.
Proof.
  intros Hl H0 HD HN HL HW HA H1 H2 H3 H4 H5 Hh.
  local_cases Hl; monitor_facts; simpl in *; rewrite ?Z.ltb_lt, ?Z.ltb_ge in *.
  all: try (destruct Hh as (? & ? & ?); [done|]).
  all: repeat split; try done; try lia.
  all: try (intros Hpos; first [left; lia | destruct HD as [?|?]; [lia|left; lia|right; auto; congruence]]).
  - apply orb_true_iff in H as [?|?%Z.ltb_lt]; auto.
  - intros Hpos. apply HA. pose proof (b2z_bounds (a =? 0)). lia.
Qed.

Lemma cds_inv_start `{AceMinMaxLaws} count n : cds_inv count (cds_start count n).
Proof.
  assert (forall f : cpc -> Z, f CIdle = 0 -> tsum f (replicate n CIdle) = 0) as H0'.
  { intros f Hf. apply tsum_zero. intros i x [-> _]%lookup_replicate. done. }
  split; cbn [cds_start shared threads cds_init cds_mon mon_init owner count_ released]; unfold tcount;
    rewrite ?ace_max_spec, ?H0' by done; try lia.
  intros t. simpl. split; [done|]. intros (p & [-> _]%lookup_replicate & Hp). done.
Qed.

Lemma cds_inv_step init c c' : cds_inv init c -> step cds_next c c' -> cds_inv init c'.
Proof.
  intros [Hlock Hcount Hd He Hr Hw Hpa] Hstep.
  pose proof (lock_inv_step _ _ _ c c' cds_respects_lock ltac:(by intros [| | | |? []| | | | | | | |]) Hlock Hstep) as Hlock'.
  destruct Hstep as ([ch k] & t & Hn). apply next_inv in Hn as (p & s & p' & e & ts & Hp & Hl & Hts & ->).
  cbn [fst snd shared threads] in *.
  pose proof (fun f => step_count f _ _ _ _ _ _ _ Hp Hts) as Hsame.
  pose proof (cds_local_counts _ _ _ _ _ _ _ (tcount waiting (threads c)) (tcount entering (threads c))
    (tcount deciding (threads c)) (tcount releasing (threads c)) (tcount passed (threads c)) Hl
    ltac:(lia) Hd He Hr Hw Hpa (tcount_le_one _ _ _ _ Hp) (tcount_le_one _ _ _ _ Hp)
    (tcount_le_one _ _ _ _ Hp) (tcount_le_one _ _ _ _ Hp) (tcount_le_one _ _ _ _ Hp)) as Hcore.
  destruct Hcore as (Hc1 & Hc2 & Hc3 & Hc4 & Hc5 & Hc6 & Hc7 & Hc8 & Hc9).
  { intros Hh. repeat split; eapply (lock_inv_count _ cds_holds); eauto; by intros [| | | |? []| | | | | | | |]. }
  split; cbn [shared threads]; [exact Hlock'|lia|..];
    try (rewrite Hsame by (by intros [| | | |? []| | | | | | | |]); assumption).
  destruct e; [|done|].
  - simpl in Hts. injection Hts as <-. unfold tcount. rewrite (tsum_insert _ _ _ _ _ Hp). by apply Hc8.
  - rewrite (broadcast_count _ _ _ Hts). lia.
Qed.

Lemma cds_inv_reachable `{AceMinMaxLaws} count n c :
  reachable cds_next (cds_start count n) c -> cds_inv count c.
Proof. apply invariant; [apply cds_inv_start|intros c1 c2; apply cds_inv_step]. Qed.

(** ** Properties *)

Section properties.
Context `{AceMinMaxLaws}.

(** An acquire of the count-down semaphore that returned 0 returned it with
    the count at zero, and the count is still zero: the semaphore is a latch that opens
    once and is never closed again. *)
Theorem countdown_latch count n c t r :
  reachable cds_next (cds_start count n) c -> threads c !! t = Some (CDone (Ok r)) ->
  r = 0 -> count_ (shared c) = 0.
Proof.
  intros Hc Ht ->. destruct (cds_inv_reachable _ _ _ Hc) as [_ _ _ _ _ _ Hp].
  apply Hp, tcount_exists. by exists t, (CDone (Ok 0)).
Qed.

(** The count never goes below zero: it is the initial value less the
    decrements made. Once it is zero no thread is blocked: the release that reaches zero
    wakes every waiter, and nobody can block afterwards. *)
Theorem countdown_releases_all count n c :
  reachable cds_next (cds_start count n) c ->
  count_ (shared c) + released (shared c) = Z.max 0 count /\ 0 <= count_ (shared c)
  /\ (count_ (shared c) = 0 -> forall t p, threads c !! t = Some p -> waiting p = false).
Proof.
  intros Hc. destruct (cds_inv_reachable _ _ _ Hc) as [_ Hcount _ _ _ Hw _].
  split; [lia|]. split; [lia|]. intros H0' t p Ht. destruct (waiting p) eqn:Ep; [|done].
  assert (0 < tcount waiting (threads c)) as Hpos by (apply tcount_exists; by exists t, p).
  specialize (Hw Hpos). lia.
Qed.
End properties.

(** ** The theorems at concrete inputs *)

#[local] Existing Instance ace_min_max_std.
#[local] Existing Instance ace_min_max_std_laws.

Definition cgo (t : nat) : (cchoice * option nat) * nat := ((CGo Spurious, None), t).

(** Thread 0 waits for a count of one; thread 1 releases it and thread 0 passes. *)
Definition open_latch : list ((cchoice * option nat) * nat) :=
  [((CCallAcquire false, None), 0%nat); cgo 0; cgo 0; cgo 0; cgo 0; cgo 0; cgo 0;
   ((CCallRelease 1, None), 1%nat); cgo 1; cgo 1; cgo 1; cgo 1;
   cgo 0; cgo 0; cgo 0; cgo 0; cgo 0; cgo 0].

Definition cds_after (c : conf cds cpc) sched : conf cds cpc := default c (run cds_next sched c).

Lemma cds_after_reachable c sched :
  is_Some (run cds_next sched c) -> reachable cds_next c (cds_after c sched).
Proof. intros [c' E]. unfold cds_after. rewrite E. by apply run_reachable with sched. Qed.

Lemma countdown_latch_witness :
  let c := cds_after (cds_start 1 2) open_latch in
  reachable cds_next (cds_start 1 2) c /\ threads c !! 0%nat = Some (CDone (Ok 0))
  /\ count_ (shared c) = 0.
Proof.
  intros c. assert (reachable cds_next (cds_start 1 2) c) as H
    by (apply cds_after_reachable; vm_compute; eexists; reflexivity).
  split; [exact H|]. split; [vm_compute; reflexivity|].
  apply (countdown_latch 1 2 c 0 0 H); vm_compute; reflexivity.
Defined.

Lemma countdown_releases_all_witness :
  let c := cds_after (cds_start 1 2) (take 11 open_latch) in
  reachable cds_next (cds_start 1 2) c
  /\ count_ (shared c) + released (shared c) = Z.max 0 1 /\ 0 <= count_ (shared c)
  /\ (count_ (shared c) = 0 -> forall t p, threads c !! t = Some p -> waiting p = false).
Proof.
  intros c. assert (reachable cds_next (cds_start 1 2) c) as H
    by (apply cds_after_reachable; vm_compute; eexists; reflexivity).
  split; [exact H|]. apply (countdown_releases_all 1 2 c H).
Defined.
