(* ===== verification/Barrier.v ===== *)
(** * The cyclic barrier: daf/Barrier.h, daf/Barrier.cpp

    The steps of a thread inside [barrier] (with and without a deadline),
    [waitReset] and the destructor.  The entry gate is the counter that the
    Semaphore implements ([semaphore_refines_counter]): acquiring takes a permit
    when there is one, an attempt may also time out, releasing adds permits.
    Everything else happens under the barrier's mutex. *)

From S2P Require Import Prelude Threads Monitor.

(** ** State *)

(** daf/Barrier.h:65-161 [Barrier]. [entry_gate] is the number of permits of [entryGate_]. *)
Record bar := mkBar {
  bar_mon : monitor;
  entry_gate : Z;
  parties_ : Z;
  synch_ : Z;
  bar_count : Z;
  resets_ : Z;
  broken_ : bool;
  shutdown_ : bool;
  triggered_ : bool;
  has_command : bool;
}.

(** daf/Barrier.cpp:60-68 [Barrier::Barrier]. *)
Definition bar_new (parties : Z) (command : bool) : bar :=
  mkBar mon_init (to_int parties) parties 0 0 0 false false false command.

(** daf/Barrier.cpp:59-73 [Barrier::Barrier]. *)
Definition bar_init (parties : Z) (command : bool) : result bar :=
  if parties =? 0 then Throw InitializationException else Ok (bar_new parties command).

Definition bar_with_mon (s : bar) (m : monitor) : bar :=
  mkBar m (entry_gate s) (parties_ s) (synch_ s) (bar_count s) (resets_ s) (broken_ s)
        (shutdown_ s) (triggered_ s) (has_command s).
Definition set_gate (n : Z) (s : bar) : bar :=
  mkBar (bar_mon s) n (parties_ s) (synch_ s) (bar_count s) (resets_ s) (broken_ s)
        (shutdown_ s) (triggered_ s) (has_command s).
Definition set_counts (count resets : Z) (s : bar) : bar :=
  mkBar (bar_mon s) (entry_gate s) (parties_ s) (synch_ s) count resets (broken_ s)
        (shutdown_ s) (triggered_ s) (has_command s).
Definition set_flags (broken shutdown triggered : bool) (s : bar) : bar :=
  mkBar (bar_mon s) (entry_gate s) (parties_ s) (synch_ s) (bar_count s) (resets_ s) broken
        shutdown triggered (has_command s).

Definition set_broken (s : bar) : bar := set_flags true (shutdown_ s) (triggered_ s) s.
Definition set_triggered (s : bar) : bar := set_flags (broken_ s) (shutdown_ s) true s.

(** daf/Barrier.cpp:122-126 [Barrier::barrier]. The last thread to leave opens the gate for the next cycle. *)
Definition leave (s : bar) : bar :=
  let s := set_counts (bar_count s) (resets_ s - 1) s in
  if resets_ s =? 0 then
    mkBar (bar_mon s) (entry_gate s + bar_count s) (parties_ s) (synch_ s + 1) 0 (resets_ s)
          false (shutdown_ s) false (has_command s)
  else s.

(** daf/Barrier.cpp:89-135 [Barrier::barrier]. Program counters. *)
Inductive bpc :=
| BIdle
| BGate (timed : bool)                        (* this->entryGate_.acquire() *)
| BLock (timed : bool)                        (* the guard takes the mutex *)
| BEnter (timed : bool)                       (* index = count_; resets_ = ++count_ *)
| BTest (timed : bool) (index : Z) (timeout : bool)  (* while (broken_ || triggered_ ? false : true) *)
| BBody (timed : bool) (index : Z) (timeout : bool)  (* the try block *)
| BWait (timed : bool) (index : Z) (timeout : bool) (w : wait_pc)
| BCatch (e : daf_exn)                        (* catch (...): broken, one reset fewer, broadcast, rethrow *)
| BLeave (index : Z) (timeout : bool)         (* flags onto the stack, broadcast *)
| BReset (r : result Z)                       (* if (--this->resets_ == 0) ... *)
| BExit (r : result Z)                        (* the guard gives the mutex up *)
| BDone (r : result Z)
| RsLock | RsTest (synch : Z) | RsWait (synch : Z) (w : wait_pc) | RsFail  (* waitReset *)
| DtLock | DtTest | DtWait (w : wait_pc)      (* ~Barrier *)
| BIntr (i : intr_pc).                        (* Monitor::interrupt *)

(** [flag] resolves what the surroundings decide: whether an attempt on the gate
    gets its permit before the deadline, whether the deadline is still ahead,
    whether the barrier command returns (or throws). *)
Inductive bchoice :=
| BCall (timed : bool)
| BCallReset
| BCallDelete
| BCallInterrupt
| BGo (w : wait_choice) (flag : bool).

(** daf/Barrier.cpp:183-191 [Barrier::barrier]. The exception a thread leaves with, or its index. *)
Definition outcome (timeout shutdown broken : bool) (index : Z) : result Z :=
  if timeout then Throw TimeoutException
  else if shutdown then Throw IllegalThreadStateException
  else if broken then Throw BrokenBarrierException
  else Ok index.

(** ** Operations *)

(** daf/Barrier.cpp:89-192 [Barrier::barrier]. Both overloads: without a deadline ([timed] false) and
    with one. *)
Definition barrier_next (w : wait_choice) (flag : bool) (t : nat) (s : bar) (p : bpc)
    : option (bar * bpc * effect) :=
  match p with
  | BGate timed =>
      if flag then
        if 0 <? entry_gate s then Some (set_gate (entry_gate s - 1) s, BLock timed, ENone) else None
      else if timed then Some (s, BDone (Throw TimeoutException), ENone) else None
  | BLock timed => m ← lock t (bar_mon s); Some (bar_with_mon s m, BEnter timed, ENone)
  | BEnter timed =>
      let index := bar_count s in
      Some (set_counts (index + 1) (index + 1) s, BTest timed index false, ENone)
  | BTest timed index timeout =>
      Some (s, if broken_ s || triggered_ s then BLeave index timeout else BBody timed index timeout, ENone)
  | BBody timed index timeout =>
      if shutdown_ s then Some (set_broken s, BTest timed index timeout, ENone)
      else if negb (bar_count s =? parties_ s) then
        if negb timed || flag then Some (s, BWait timed index timeout WTest, ENone)
        else Some (set_broken s, BTest timed index true, ENone)
      else if negb (has_command s) then Some (set_triggered s, BTest timed index timeout, ENone)
      else if flag then Some (set_triggered s, BTest timed index timeout, ENone)
      else Some (s, BCatch InternalException, ENone)
  | BWait timed index timeout w' =>
      '(m, o) ← wait_next w t timed w' (bar_mon s);
      Some (bar_with_mon s m, match o with
                              | WGo w' => BWait timed index timeout w'
                              | WReturn _ => BTest timed index timeout
                              | WInterrupted => BCatch InterruptedException
                              end, ENone)
  | BCatch e =>
      Some (set_counts (bar_count s) (resets_ s - 1) (set_broken s), BExit (Throw e), EBroadcast)
  | BLeave index timeout =>
      Some (s, BReset (outcome timeout (shutdown_ s) (broken_ s) index), EBroadcast)
  | BReset r => Some (leave s, BExit r, ENone)
  | _ => None
  end.

(** daf/Barrier.cpp:194-212 [Barrier::waitReset]. The result is 1 for true, 0 for false. *)
Definition wait_reset_next (w : wait_choice) (t : nat) (s : bar) (p : bpc) : option (bar * bpc * effect) :=
  match p with
  | RsLock => m ← lock t (bar_mon s); Some (bar_with_mon s m, RsTest (synch_ s), ENone)
  | RsTest synch =>
      if 0 <? bar_count s then
        if shutdown_ s then Some (s, BExit (Throw IllegalThreadStateException), ENone)
        else if synch_ s =? synch then
          Some (s, RsWait synch WTest, if triggered_ s || broken_ s then EBroadcast else ENone)
        else Some (s, BExit (Ok 1), ENone)
      else Some (s, BExit (Ok 1), ENone)
  | RsWait synch w' =>
      '(m, o) ← wait_next w t true w' (bar_mon s);
      Some (bar_with_mon s m, match o with
                              | WGo w' => RsWait synch w'
                              | WReturn WOk => RsTest synch
                              | WReturn WTime => RsFail
                              | WInterrupted => BExit (Throw InterruptedException)
                              end, ENone)
  | RsFail => Some (set_broken s, BExit (Ok 0), EBroadcast)
  | _ => None
  end.

(** daf/Barrier.cpp:75-87 [Barrier::destructor]. *)
Definition delete_next (w : wait_choice) (t : nat) (s : bar) (p : bpc) : option (bar * bpc * effect) :=
  match p with
  | DtLock =>
      m ← lock t (bar_mon s);
      Some (set_flags (broken_ s) true (triggered_ s) (bar_with_mon s m), DtTest, ENone)
  | DtTest =>
      if 0 <? bar_count s then Some (s, DtWait WTest, EBroadcast) else Some (s, BExit (Ok 0), ENone)
  | DtWait w' =>
      '(m, o) ← wait_next w t true w' (bar_mon s);
      let s := bar_with_mon s m in
      match o with
      | WGo w' => Some (s, DtWait w', ENone)
      | WReturn WOk => Some (s, DtTest, ENone)
      | WReturn WTime =>
          if broken_ s then Some (set_gate (entry_gate s + bar_count s) s, BExit (Ok 0), ENone)
          else Some (set_broken s, DtTest, ENone)
      | WInterrupted => Some (s, BExit (Throw InterruptedException), ENone)
      end
  | _ => None
  end.

(** daf/Barrier.cpp:75-212 [Barrier]. One step of a thread. *)
Definition bar_local (ch : bchoice) (t : nat) (s : bar) (p : bpc) : option (bar * bpc * effect) :=
  match ch, p with
  | BCall timed, BIdle => Some (s, BGate timed, ENone)
  | BCallReset, BIdle => Some (s, RsLock, ENone)
  | BCallDelete, BIdle => Some (s, DtLock, ENone)
  | BCallInterrupt, BIdle => Some (s, BIntr IStart, ENone)
  | BGo w flag, (BGate _ | BLock _ | BEnter _ | BTest _ _ _ | BBody _ _ _ | BWait _ _ _ _
                | BCatch _ | BLeave _ _ | BReset _) => barrier_next w flag t s p
  | BGo w _, (RsLock | RsTest _ | RsWait _ _ | RsFail) => wait_reset_next w t s p
  | BGo w _, (DtLock | DtTest | DtWait _) => delete_next w t s p
  | BGo _ _, BExit r => Some (bar_with_mon s (unlock (bar_mon s)), BDone r, ENone)
  | BGo _ _, BDone _ => Some (s, BIdle, ENone)
  | BGo _ _, BIntr i =>
      '(m, o, e) ← intr_next t i (bar_mon s);
      Some (bar_with_mon s m, match o with IGo i => BIntr i | IReturn _ => BIdle end, e)
  | _, _ => None
  end.

Definition bar_waiting (p : bpc) : bool :=
  match p with BWait _ _ _ Waiting | RsWait _ Waiting | DtWait Waiting => true | _ => false end.

#[export] Instance bar_waits : Waits bpc := {|
  waiting := bar_waiting;
  awaken := fun p => match p with
                     | BWait tm i to Waiting => BWait tm i to (Woken WOk)
                     | RsWait n Waiting => RsWait n (Woken WOk)
                     | DtWait Waiting => DtWait (Woken WOk)
                     | _ => p
                     end;
|}.

#[export] Instance bar_waits_laws : WaitsLaws bpc.
Proof.
  split; intros []; try done; match goal with w : wait_pc |- _ => by destruct w end.
Qed.

Definition bar_next := next bar_local.

(** [n] threads in front of a new barrier. *)
Definition bar_start (b : bar) (n : nat) : conf bar bpc := mkConf b (replicate n BIdle).

(** ** Invariants *)

Definition bar_holds (p : bpc) : bool :=
  match p with
  | BEnter _ | BTest _ _ _ | BBody _ _ _ | BCatch _ | BLeave _ _ | BReset _ | BExit _
  | RsTest _ | RsFail | DtTest => true
  | BWait _ _ _ w | RsWait _ w | DtWait w => wait_holds w
  | BIntr i => intr_holds i
  | _ => false
  end.

(** Past the gate and not counted yet. *)
Definition gated (p : bpc) : bool := match p with BLock _ | BEnter _ => true | _ => false end.

(** Counted, and the reset count not yet taken down. *)
Definition inside (p : bpc) : bool :=
  match p with
  | BTest _ _ _ | BBody _ _ _ | BWait _ _ _ _ | BCatch _ | BLeave _ _ | BReset _ => true
  | _ => false
  end.

(** The arrival index a thread inside the barrier will return. *)
Definition index_of (p : bpc) : option Z :=
  match p with
  | BTest _ i _ | BBody _ i _ | BWait _ i _ _ | BLeave i _ | BReset (Ok i) => Some i
  | _ => None
  end.

(** Past the loop; and about to return an index. *)
Definition past_loop (p : bpc) : bool := match p with BLeave _ _ => true | _ => false end.
(** In the destructor, past the point that sets [shutdown_]. *)
Definition deleting (p : bpc) : bool := match p with DtTest | DtWait _ => true | _ => false end.
Definition returning (p : bpc) : bool := match p with BReset (Ok _) => true | _ => false end.

Record bar_inv (c : conf bar bpc) : Prop := {
  binv_lock : lock_inv bar_mon bar_holds c;
  binv_parties : 0 < parties_ (shared c);
  (** Until the barrier is being deleted, the permits of the gate, the threads past
      it and the threads counted add up to the parties. *)
  binv_gate : shutdown_ (shared c) = false ->
    entry_gate (shared c) + tcount gated (threads c) + bar_count (shared c) = parties_ (shared c)
    /\ 0 <= entry_gate (shared c);
  binv_inside : tcount inside (threads c) <= bar_count (shared c)
    /\ tcount inside (threads c) <= resets_ (shared c);
  binv_index : forall t p i, threads c !! t = Some p -> index_of p = Some i -> 0 <= i < bar_count (shared c);
  binv_distinct : forall t u p q i j, threads c !! t = Some p -> threads c !! u = Some q ->
    index_of p = Some i -> index_of q = Some j -> t <> u -> i <> j;
  binv_triggered : shutdown_ (shared c) = false -> triggered_ (shared c) = true ->
    bar_count (shared c) = parties_ (shared c);
  binv_deleting : 0 < tcount deleting (threads c) -> shutdown_ (shared c) = true;
  binv_past : 0 < tcount past_loop (threads c) -> broken_ (shared c) || triggered_ (shared c) = true;
  binv_returning : 0 < tcount returning (threads c) ->
    triggered_ (shared c) = true /\ broken_ (shared c) = false /\ shutdown_ (shared c) = false;
}.

Lemma leave_mon s : bar_mon (leave s) = bar_mon s.
Proof. unfold leave. by case_match. Qed.

Lemma bar_respects_lock : respects_lock bar_local bar_mon bar_holds.
Proof.
  intros ch t s p s' p' e Hl. local_cases Hl; simpl; auto with daf.
  all: try lock_facts. rewrite leave_mon. auto with daf.
Qed.

(** What one step does to the numbers: [G], [N], [L] and [R] count the threads
    gated, inside, past the loop and returning an index. *)
Lemma bar_local_counts ch t s p s' p' e G N D L R :
  bar_local ch t s p = Some (s', p', e) ->
  (shutdown_ s = false -> entry_gate s + G + bar_count s = parties_ s /\ 0 <= entry_gate s) ->
  N <= bar_count s -> N <= resets_ s ->
  (shutdown_ s = false -> triggered_ s = true -> bar_count s = parties_ s) ->
  (0 < D -> shutdown_ s = true) ->
  (0 < L -> broken_ s || triggered_ s = true) ->
  (0 < R -> triggered_ s = true /\ broken_ s = false /\ shutdown_ s = false) ->
  b2z (gated p) <= G -> b2z (inside p) <= N -> b2z (deleting p) <= D -> b2z (past_loop p) <= L -> b2z (returning p) <= R ->
  (bar_holds p = true -> L = b2z (past_loop p) /\ R = b2z (returning p)) ->
  (owner (bar_mon s) = None -> R = 0) ->
  let G' := G - b2z (gated p) + b2z (gated p') in
  let N' := N - b2z (inside p) + b2z (inside p') in
  let D' := D - b2z (deleting p) + b2z (deleting p') in
  let L' := L - b2z (past_loop p) + b2z (past_loop p') in
  let R' := R - b2z (returning p) + b2z (returning p') in
  parties_ s' = parties_ s
  /\ (shutdown_ s' = false -> entry_gate s' + G' + bar_count s' = parties_ s' /\ 0 <= entry_gate s')
  /\ N' <= bar_count s' /\ N' <= resets_ s'
  /\ (shutdown_ s' = false -> triggered_ s' = true -> bar_count s' = parties_ s')
  /\ (0 < D' -> shutdown_ s' = true) /\ (0 < L' -> broken_ s' || triggered_ s' = true)
  /\ (0 < R' -> triggered_ s' = true /\ broken_ s' = false /\ shutdown_ s' = false)
  /\ e <> ESignal.
Proof.
  intros Hl HG HN1 HN2 HT HD HL HR H1 H2 H3 H4 H5 Hh Ho.
  destruct s as [m g P sy n rs br sd tr hc]. cbn in HG, HN1, HN2, HT, HD, HL, HR, Ho.
  local_cases Hl; monitor_facts; unfold leave in *; simpl in *;
    rewrite ?Z.ltb_lt, ?Z.ltb_ge, ?Z.eqb_eq, ?Z.eqb_neq, ?negb_true_iff, ?negb_false_iff in *; subst.
  all: try (destruct Hh as (? & ?); [done|]).
  all: try destruct br; try destruct sd; try destruct tr; simpl in *; try discriminate.
  all: try (specialize (HG eq_refl)); try (specialize (HT eq_refl eq_refl)).
  all: try (case_match; simpl in *).
  all: try (specialize (HD ltac:(lia)); discriminate).
  all: try (specialize (HL ltac:(lia)); discriminate).
  all: try match goal with H : outcome ?b _ _ _ = Ok _ |- _ => destruct b; discriminate end.
  all: repeat split; intros; try done; try lia.
  specialize (Ho ltac:(assumption)). lia.
Qed.
