(* ===== verification/BarrierSpec.v ===== *)
(** * The cyclic barrier: invariants and properties *)

From S2P Require Import Prelude Threads Monitor Barrier.

(** Indices are handed out in order of arrival. *)
Lemma bar_local_index ch t s p s' p' e i :
  bar_local ch t s p = Some (s', p', e) -> index_of p' = Some i ->
  index_of p = Some i \/ (i = bar_count s /\ bar_count s' = bar_count s + 1).
Proof.
  intros Hl. local_cases Hl; simpl; intros Hi; simplify_eq; auto.
  all: try (unfold outcome in *; repeat case_match; simplify_eq; by auto).
  all: destruct p'; simpl in *; simplify_eq; auto.
Qed.

(** The count only goes down when the last thread leaves. *)
Lemma bar_local_count ch t s p s' p' e :
  bar_local ch t s p = Some (s', p', e) ->
  bar_count s <= bar_count s' \/ (resets_ s = 1 /\ inside p = true /\ inside p' = false).
Proof.
  intros Hl. local_cases Hl; simpl; try (left; lia).
  unfold leave. simpl. destruct (Z.eqb_spec (resets_ s - 1) 0); simpl; [right; split; [lia|done]|left; lia].
Qed.

Lemma bar_inv_start P cmd n :
  0 < P <= INT_MAX -> bar_inv (bar_start (bar_new P cmd) n).
Proof.
  intros HP. assert (forall f : bpc -> bool, f BIdle = false -> tcount f (replicate n BIdle) = 0) as H0.
  { intros f Hf. apply tsum_zero. intros i x [-> _]%lookup_replicate. by rewrite Hf. }
  assert (forall t p i, replicate n BIdle !! t = Some p -> index_of p = Some i -> False) as Hi.
  { intros t p i [-> _]%lookup_replicate. done. }
  split; cbn [bar_start bar_new shared threads bar_mon parties_ shutdown_ entry_gate bar_count resets_
              triggered_ broken_]; rewrite ?H0 by done; try lia; try done.
  - intros t. simpl. split; [done|]. intros (p & [-> _]%lookup_replicate & Hp). done.
  - intros _. rewrite to_int_small by (unfold INT_MAX in *; lia). lia.
  - intros t p i Ht Hx. by destruct (Hi t p i).
  - intros t u p q i j Ht _ Hx. by destruct (Hi t p i).
Qed.

Ltac bpc_cases := by intros [| | | | | |? ? ? []| | | | | | | |? []| | | |[]|].

Lemma index_awaken p : index_of (awaken p) = index_of p.
Proof. revert p. bpc_cases. Qed.

(** A thread with an index is inside. *)
Lemma index_inside p i : index_of p = Some i -> inside p = true.
Proof. by destruct p as [| | | | | | | | |[]| | | | | | | | | |]. Qed.

Lemma bar_inv_step c c' : bar_inv c -> step bar_next c c' -> bar_inv c'.
Proof.
  intros [Hlock HP Hg [Hi1 Hi2] Hix Hdist Htr Hdel Hpast Hret] Hstep.
  pose proof (lock_inv_step _ _ _ c c' bar_respects_lock ltac:(bpc_cases) Hlock Hstep) as Hlock'.
  destruct Hstep as ([ch k] & t & Hn). apply next_inv in Hn as (p & s & p' & e & ts & Hp & Hl & Hts & ->).
  cbn [fst snd shared threads] in *.
  pose proof (fun f => step_count f _ _ _ _ _ _ _ Hp Hts) as Hsame.
  assert (owner (bar_mon (shared c)) = None -> tcount returning (threads c) = 0) as Hfree.
  { intros Ho. apply tsum_zero. intros u q Hu. destruct (returning q) eqn:E; [|done].
    assert (owner (bar_mon (shared c)) = Some u); [|congruence]. apply Hlock. exists q. split; [done|].
    by destruct q as [| | | | | | | | |[]| | | | | | | | | |]. }
  pose proof (bar_local_counts _ _ _ _ _ _ _ (tcount gated (threads c)) (tcount inside (threads c))
    (tcount deleting (threads c)) (tcount past_loop (threads c)) (tcount returning (threads c)) Hl
    Hg Hi1 Hi2 Htr Hdel Hpast Hret (tcount_le_one _ _ _ _ Hp) (tcount_le_one _ _ _ _ Hp)
    (tcount_le_one _ _ _ _ Hp) (tcount_le_one _ _ _ _ Hp) (tcount_le_one _ _ _ _ Hp)) as Hcore.
  destruct Hcore as (C1 & C2 & C3 & C4 & C5 & C6 & C7 & C8 & C9).
  { intros Hh. split; eapply (lock_inv_count _ bar_holds); eauto; bpc_cases. }
  { exact Hfree. }
  (* the program counters with an index, before the step *)
  assert (forall u q i, ts !! u = Some q -> index_of q = Some i ->
    exists q0, <[t := p']> (threads c) !! u = Some q0 /\ index_of q0 = Some i) as Hback.
  { intros u q i Hu Hq. destruct (effect_lookup _ _ _ _ _ _ Hts Hu) as (q0 & Hq0 & [->|[_ ->]]); eauto.
    exists q0. split; [done|]. by rewrite index_awaken in Hq. }
  assert (forall u q0 i, <[t := p']> (threads c) !! u = Some q0 -> index_of q0 = Some i ->
    bar_count (shared c) <= bar_count s
    /\ ((exists q, threads c !! u = Some q /\ index_of q = Some i)
        \/ (u = t /\ i = bar_count (shared c) /\ bar_count s = bar_count (shared c) + 1))) as Hfrom.
  { intros u q0 i Hu Hq. assert (bar_count (shared c) <= bar_count s) as Hmono.
    { destruct (bar_local_count _ _ _ _ _ _ _ Hl) as [|(Hr & Hin & Hin')]; [done|]. exfalso.
      assert (tcount inside (<[t := p']> (threads c)) <= 0) as Hz.
      { rewrite (tcount_insert inside _ _ _ _ Hp), Hin, Hin'. simpl. lia. }
      pose proof (tcount_le_one inside _ _ _ Hu) as H1. rewrite (index_inside _ _ Hq) in H1.
      simpl in H1. lia. }
    split; [done|]. destruct (decide (u = t)) as [->|Hne].
    - rewrite list_lookup_insert_eq in Hu by (by eapply lookup_lt_Some). injection Hu as <-.
      destruct (bar_local_index _ _ _ _ _ _ _ _ Hl Hq) as [Hi|[-> Hc]]; eauto.
    - rewrite list_lookup_insert_ne in Hu by done. left. by exists q0. }
  split; cbn [shared threads]; [exact Hlock'|congruence|..];
    try (rewrite !Hsame by bpc_cases; done).
  - intros u q i Hu Hq. destruct (Hback _ _ _ Hu Hq) as (q0 & Hu0 & Hq0).
    destruct (Hfrom _ _ _ Hu0 Hq0) as [Hmono [(q1 & Hu1 & Hq1)|(-> & -> & Hc)]].
    + pose proof (Hix _ _ _ Hu1 Hq1). lia.
    + pose proof (tcount_nonneg inside (threads c)). lia.
  - intros u v q r i j Hu Hv Hq Hr Hne.
    destruct (Hback _ _ _ Hu Hq) as (q0 & Hu0 & Hq0). destruct (Hback _ _ _ Hv Hr) as (r0 & Hv0 & Hr0).
    destruct (Hfrom _ _ _ Hu0 Hq0) as [_ [(q1 & Hu1 & Hq1)|(-> & -> & Hc)]],
      (Hfrom _ _ _ Hv0 Hr0) as [_ [(r1 & Hv1 & Hr1)|(-> & -> & Hc')]].
    + by apply (Hdist u v q1 r1).
    + pose proof (Hix _ _ _ Hu1 Hq1). lia.
    + pose proof (Hix _ _ _ Hv1 Hr1). lia.
    + done.
  - exact C5.
Qed.

Lemma bar_inv_reachable P cmd n c :
  0 < P <= INT_MAX -> reachable bar_next (bar_start (bar_new P cmd) n) c -> bar_inv c.
Proof.
  intros HP. apply invariant; [by apply bar_inv_start|intros c1 c2; apply bar_inv_step].
Qed.

(** ** Properties *)

(** At most [parties] threads are in the barrier at a time: until it is
    deleted, the permits of the entry gate, the threads past the gate and the arrivals
    of the current cycle add up to the number of parties, and every thread inside is one
    of those arrivals. *)
Theorem barrier_capacity P cmd n c :
  0 < P <= INT_MAX -> reachable bar_next (bar_start (bar_new P cmd) n) c ->
  shutdown_ (shared c) = false ->
  entry_gate (shared c) + tcount gated (threads c) + bar_count (shared c) = parties_ (shared c)
  /\ 0 <= entry_gate (shared c)
  /\ tcount inside (threads c) <= bar_count (shared c) <= parties_ (shared c).
Proof.
  intros HP Hc Hs. destruct (bar_inv_reachable _ _ _ _ HP Hc) as [_ _ Hg [Hi _] _ _ _ _ _ _].
  destruct (Hg Hs) as [H1 H2]. pose proof (tcount_nonneg gated (threads c)).
  pose proof (tcount_nonneg inside (threads c)). lia.
Qed.

(** C4 (safety). A thread returns normally only from a complete cycle: when it is about
    to return its index, all parties have arrived, the barrier was triggered and not
    broken, the index is between 0 and parties - 1, and no other thread of the cycle has
    the same one. *)
Theorem barrier_all_or_none P cmd n c t i :
  0 < P <= INT_MAX -> reachable bar_next (bar_start (bar_new P cmd) n) c ->
  threads c !! t = Some (BReset (Ok i)) ->
  triggered_ (shared c) = true /\ broken_ (shared c) = false
  /\ bar_count (shared c) = parties_ (shared c) /\ 0 <= i < parties_ (shared c)
  /\ (forall u q j, threads c !! u = Some q -> index_of q = Some j -> t <> u -> i <> j).
Proof.
  intros HP Hc Ht. destruct (bar_inv_reachable _ _ _ _ HP Hc) as [_ _ _ _ Hix Hdist Htr _ _ Hret].
  destruct Hret as (H1 & H2 & H3).
  { apply tcount_exists. by exists t, (BReset (Ok i)). }
  pose proof (Htr H3 H1) as Hcount. split; [done|]. split; [done|]. split; [done|]. split.
  - rewrite <- Hcount. by apply (Hix t (BReset (Ok i))).
  - intros u q j Hu Hq Hne. by apply (Hdist t u (BReset (Ok i)) q i j).
Qed.

(** The arrival count is only ever reset by the last thread to leave:
    nobody is inside after the reset, the gate again admits one thread per party, and
    the barrier is neither broken nor triggered. *)
Theorem barrier_reset_when_empty P cmd n c c' :
  0 < P <= INT_MAX -> reachable bar_next (bar_start (bar_new P cmd) n) c -> step bar_next c c' ->
  bar_count (shared c') < bar_count (shared c) ->
  bar_count (shared c') = 0 /\ tcount inside (threads c') = 0
  /\ (shutdown_ (shared c') = false ->
      entry_gate (shared c') + tcount gated (threads c') = parties_ (shared c'))
  /\ broken_ (shared c') = false /\ triggered_ (shared c') = false.
Proof.
  intros HP Hc Hs Hlt. pose proof (bar_inv_reachable _ _ _ _ HP Hc) as Hinv.
  pose proof (bar_inv_step _ _ Hinv Hs) as [_ _ Hg [Hi _] _ _ _ _ _ _].
  destruct Hs as ([ch k] & t & Hn). apply next_inv in Hn as (p & s & p' & e & ts & Hp & Hl & Hts & ->).
  cbn [shared threads fst snd] in *. pose proof (tcount_nonneg inside ts).
  assert (bar_count s = 0 /\ broken_ s = false /\ triggered_ s = false) as (E1 & E2 & E3).
  { clear -Hl Hlt. local_cases Hl; simpl in Hlt; try lia. unfold leave in *. simpl in *.
    case_match; simpl in *; [done|lia]. }
  split; [done|]. split; [lia|]. split; [|done]. intros Hsd. destruct (Hg Hsd). lia.
Qed.

(** ** Schedules *)

Definition bgo (t : nat) : (bchoice * option nat) * nat := ((BGo Spurious true, None), t).
Definition bmany (n t : nat) := replicate n (bgo t).

(** Three threads meet at a barrier for three. *)
Definition meeting : list ((bchoice * option nat) * nat) :=
  [((BCall false, None), 0%nat)] ++ bmany 8 0 ++ [((BCall false, None), 1%nat)] ++ bmany 8 1
  ++ [((BCall false, None), 2%nat)] ++ bmany 7 2.

Definition bar_after (c : conf bar bpc) sched : conf bar bpc := default c (run bar_next sched c).

Lemma bar_after_reachable c sched :
  is_Some (run bar_next sched c) -> reachable bar_next c (bar_after c sched).
Proof. intros [c' E]. unfold bar_after. rewrite E. by apply run_reachable with sched. Qed.

(** ** A jammed barrier

    Thread 0 gives up at its deadline while thread 1 waits; thread 2 arrives
    before thread 1 has left.  Its arrival overwrites [resets_] with 3 although
    thread 0 has already counted itself out, so the last thread to leave finds 1
    instead of 0 and nobody opens the gate again. *)

Definition jam : list ((bchoice * option nat) * nat) :=
  [((BCall true, None), 0%nat)] ++ bmany 8 0 ++ [((BCall false, None), 1%nat)] ++ bmany 8 1
  ++ [((BGo Timeout true, None), 0%nat)] ++ bmany 4 0
  ++ [((BGo Spurious false, None), 0%nat)] ++ bmany 2 0
  ++ [((BCall false, None), 2%nat)] ++ bmany 1 2 ++ bmany 3 0
  ++ bmany 7 2 ++ bmany 8 1.

Lemma barrier_jams :
  run bar_next jam (bar_start (bar_new 3 false) 3)
  = Some (mkConf (mkBar (mkMon None false 0) 0 3 0 3 1 true false false false) [BIdle; BIdle; BIdle]).
Proof. vm_compute. reflexivity. Qed.

(** The gate is closed and nobody is there to open it. *)
Definition jammed (c : conf bar bpc) : Prop :=
  entry_gate (shared c) = 0 /\ tcount gated (threads c) = 0 /\ tcount inside (threads c) = 0
  /\ tcount deleting (threads c) = 0.

(** As long as the barrier is not deleted it stays so: no thread ever passes the
    gate again. *)
Lemma jammed_step c c' :
  jammed c -> step bar_next c c' -> shutdown_ (shared c') = false -> jammed c'.
Proof.
  intros (H1 & H2 & H3 & H4) ([ch k] & t & Hn) Hs.
  apply next_inv in Hn as (p & s & p' & e & ts & Hp & Hl & Hts & ->). cbn [shared threads fst snd] in *.
  pose proof (fun f => step_count f _ _ _ _ _ _ _ Hp Hts) as Hsame.
  pose proof (tcount_le_one gated _ _ _ Hp) as G1. pose proof (tcount_le_one inside _ _ _ Hp) as G2.
  pose proof (tcount_le_one deleting _ _ _ Hp) as G3.
  unfold jammed. cbn [shared threads]. rewrite !Hsame, H2, H3, H4 in * by bpc_cases.
  clear -H1 Hl Hs G1 G2 G3. revert H1 Hl. generalize (shared c). intros s0 H1 Hl.
  destruct s0 as [m g P sy n rs br sd tr hc]. cbn in H1.
  local_cases Hl; simpl in *; rewrite ?Z.ltb_lt in *; try discriminate; lia.
Qed.

Lemma jammed_forever c c' :
  jammed c -> reachable bar_next c c' -> shutdown_ (shared c') = false -> jammed c'.
Proof.
  intros Hj Hr. assert (forall c1 c2, step bar_next c1 c2 -> shutdown_ (shared c2) = false ->
    shutdown_ (shared c1) = false) as Hmono.
  { intros c1 c2 ([ch k] & t & Hn). apply next_inv in Hn as (p & s & p' & e & ts & _ & Hl & _ & ->).
    cbn [shared]. local_cases Hl; simpl; try done; try congruence; unfold leave; simpl;
      by destruct (resets_ _ - 1 =? 0). }
  revert Hj. induction Hr as [c|c c1 c2 Hs Hr IH]; intros Hj Hsd; [done|]. apply IH; [|done].
  apply (jammed_step c c1 Hj Hs). clear -Hr Hsd Hmono. induction Hr; eauto.
Qed.

(** ** The theorems at concrete inputs *)

Lemma barrier_capacity_witness :
  let c := bar_after (bar_start (bar_new 3 false) 3) (take 18 meeting) in
  reachable bar_next (bar_start (bar_new 3 false) 3) c
  /\ entry_gate (shared c) + tcount gated (threads c) + bar_count (shared c) = parties_ (shared c)
  /\ 0 <= entry_gate (shared c)
  /\ tcount inside (threads c) <= bar_count (shared c) <= parties_ (shared c).
Proof.
  intros c. assert (reachable bar_next (bar_start (bar_new 3 false) 3) c) as H
    by (apply bar_after_reachable; vm_compute; eexists; reflexivity).
  split; [exact H|]. apply (barrier_capacity 3 false 3 c); [unfold INT_MAX; lia|exact H|vm_compute; reflexivity].
Defined.

Lemma barrier_all_or_none_witness :
  let c := bar_after (bar_start (bar_new 3 false) 3) meeting in
  reachable bar_next (bar_start (bar_new 3 false) 3) c
  /\ threads c !! 2%nat = Some (BReset (Ok 2))
  /\ triggered_ (shared c) = true /\ broken_ (shared c) = false
  /\ bar_count (shared c) = parties_ (shared c) /\ 0 <= 2 < parties_ (shared c)
  /\ (forall u q j, threads c !! u = Some q -> index_of q = Some j -> 2%nat <> u -> 2 <> j).
Proof.
  intros c. assert (reachable bar_next (bar_start (bar_new 3 false) 3) c) as H
    by (apply bar_after_reachable; vm_compute; eexists; reflexivity).
  split; [exact H|]. split; [vm_compute; reflexivity|].
  apply (barrier_all_or_none 3 false 3 c 2 2); [unfold INT_MAX; lia|exact H|vm_compute; reflexivity].
Defined.

(** A barrier for one: its only thread comes and goes. *)
Definition solo : list ((bchoice * option nat) * nat) := [((BCall false, None), 0%nat)] ++ bmany 8 0.

Lemma barrier_reset_when_empty_witness :
  let c := bar_after (bar_start (bar_new 1 false) 1) (take 8 solo) in
  let c' := bar_after (bar_start (bar_new 1 false) 1) solo in
  reachable bar_next (bar_start (bar_new 1 false) 1) c /\ step bar_next c c'
  /\ bar_count (shared c') = 0 /\ tcount inside (threads c') = 0
  /\ (shutdown_ (shared c') = false ->
      entry_gate (shared c') + tcount gated (threads c') = parties_ (shared c'))
  /\ broken_ (shared c') = false /\ triggered_ (shared c') = false.
Proof.
  intros c c'. assert (reachable bar_next (bar_start (bar_new 1 false) 1) c) as H
    by (apply bar_after_reachable; vm_compute; eexists; reflexivity).
  assert (step bar_next c c') as Hs by (exists (BGo Spurious true, None), 0%nat; vm_compute; reflexivity).
  split; [exact H|]. split; [exact Hs|].
  apply (barrier_reset_when_empty 1 false 1 c c'); [unfold INT_MAX; lia|exact H|exact Hs|vm_compute; reflexivity].
Defined.
