(* ===== verification/Properties.v ===== *)
(** * Properties and argument formatting: daf/PropertyManager, daf/DAF.cpp, daf/ARGV

    The property repository is a map from keys to values; [get_property] formats
    the value it finds, and formatting replaces [%p{name}] by the value of another
    property, so the two call each other.  [fuel] bounds that recursion and the
    rounds of the formatting loop: [None] is a run that needs more.  What the code
    takes from ACE and the operating system (the tokenizer ACE_ARGV, the
    environment, the host name, thread, process and clock) is the class
    [Platform].  The read and write locks around each call are not modelled: the
    operations are the ones of a single thread. *)

From S2P Require Import Prelude CString Text.
From Stdlib Require Import Ascii.

Abbreviation text := (list ascii).

(** [argv_of_string subst s]: the arguments of [ACE_ARGV(s, subst)].
    [argv_of_args subst l]: those of an [ACE_ARGV(subst)] to which the strings of
    [l] have been added, quoted. *)
Class Platform := {
  argv_of_string : bool -> text -> list text;
  argv_of_args : bool -> list text -> list text;
  getenv : text -> option text;
  hostname : text;
  thread_id : Z;
  process_id : Z;
  gm_string : bool -> text;
  local_string : bool -> text;
  utc_time : Z;
}.

(** ** The repository and its monad *)

(** daf/Configurator.h:54-124 [Configurator]. *)
Definition store := gmap text text.

Definition PM (A : Type) : Type := store -> option (store * result A).

#[export] Instance PM_ret : MRet PM := fun A a s => Some (s, Ok a).
#[export] Instance PM_bind : MBind PM := fun A B k m s =>
  match m s with
  | Some (s, Ok a) => k a s
  | Some (s, Throw e) => Some (s, Throw e)
  | None => None
  end.
Definition pthrow {A} (e : daf_exn) : PM A := fun s => Some (s, Throw e).
Definition out_of_fuel {A} : PM A := fun _ => None.

(** [try { m } catch (const h &) { k }]. *)
Definition ptry {A} (h : daf_exn) (m k : PM A) : PM A := fun s =>
  match m s with
  | Some (s, Throw e) => if catches h e then k s else Some (s, Throw e)
  | r => r
  end.

(** daf/Configurator.cpp:329-336 [Configurator::load_property]. *)
Definition load_property (key val : text) : PM Z := fun s =>
  if bool_decide (val <> []) || bool_decide (s !! key = None)
  then Some (<[key := val]> s, Ok 0)
  else Some (s, Ok (-1)).

Definition PCT : ascii := "%"%char.
Definition LBRACE : ascii := "{"%char.
Definition RBRACE : ascii := "}"%char.

Section platform.
Context `{Platform}.

(** ** Formatting *)

(** daf/DAF.cpp:317-321 [parse_args]. *)
Definition parse_args (arg : text) (substitute_env_args quote_args : bool) : text :=
  parse_argv (argv_of_string substitute_env_args arg) quote_args.

(** daf/ARGV.cpp:30-52 [ARGV::add]. The arguments that adding one quoted argument pushes on the backing list. *)
Definition argv_add (subst : bool) (arg : text) : list text := trim <$> argv_of_args subst [arg].

(** daf/DAF.cpp:447-447 [format_args]. [arg] with the [n] characters at [p] replaced by [ins]. *)
Definition splice (arg : text) (p n : nat) (ins : text) : text := take p arg ++ ins ++ drop (p + n) arg.

Section loop.
(** [DAF::get_property(prop, true)]. *)
Context (get : text -> PM text).

(** daf/DAF.cpp:373-394 [format_args]. A named property at [p]: the replacement and the length replaced. *)
Definition format_property (arg : text) (p : nat) : PM (text * nat) :=
  if bool_decide (arg !! (p + 2)%nat = Some LBRACE) then
    match find_from RBRACE arg (p + 2) with
    | Some r =>
        let prop := trim (take (r - (p + 3)) (drop (p + 3) arg)) in
        ptry IllegalArgumentException
          (v ← get prop; mret (trim_string v QUOTE, (r + 1 - p)%nat))
          (mret ([], 2%nat))
    | None => mret ([], 2%nat)
    end
  else mret ([], 2%nat).

(** The conversions, by the character after the percent sign. *)
Inductive conv := Percent | Host | Thread | Process | Property | Date | Time | Unknown.

(** daf/DAF.cpp:360-445 [format_args]. *)
Definition conversion (c : option ascii) : conv :=
  match c with
  | Some "%"%char => Percent
  | Some "H"%char => Host
  | Some "t"%char => Thread
  | Some "P"%char => Process
  | Some "p"%char => Property
  | Some "D"%char => Date
  | Some "T"%char => Time
  | _ => Unknown
  end.

(** daf/DAF.cpp:396-421 [format_args]. The text of a date, by the character after the [D]. *)
Definition date_text (c : option ascii) : option text :=
  match c with
  | Some "g"%char => Some (gm_string false)
  | Some "G"%char => Some (gm_string true)
  | Some "l"%char => Some (local_string false)
  | Some "L"%char => Some (local_string true)
  | _ => None
  end.

(** daf/DAF.cpp:423-439 [format_args]. The text of a time, by the character after the [T]. *)
Definition time_text (c : option ascii) : option text :=
  match c with
  | Some "u"%char => Some (fmt_int 0 utc_time)
  | _ => None
  end.

(** The replacement and the length replaced: nothing for an unknown letter,
    which is left in place. *)
Definition two_letters (r : option text) : text * nat :=
  match r with
  | Some t => (t, 3%nat)
  | None => ([], 2%nat)
  end.

(** daf/DAF.cpp:352-449 [format_args]. The loop over one argument; a replacement is scanned again. *)
Fixpoint format_arg (fuel : nat) (arg : text) (pos : nat) : PM text :=
  match fuel with
  | O => out_of_fuel
  | S fuel =>
      match find_from PCT arg pos with
      | None => mret arg
      | Some p =>
          let replace (r : text * nat) := format_arg fuel (splice arg p (snd r) (fst r)) p in
          match conversion (arg !! (p + 1)%nat) with
          | Percent => format_arg fuel (delete (p + 1)%nat arg) (p + 1)
          | Host => replace (hostname, 2%nat)
          | Thread => replace (fmt_int 0 thread_id, 2%nat)
          | Process => replace (fmt_int 0 process_id, 2%nat)
          | Property => r ← format_property arg p; replace r
          | Date => replace (two_letters (date_text (arg !! (p + 2)%nat)))
          | Time => replace (two_letters (time_text (arg !! (p + 2)%nat)))
          | Unknown => format_arg fuel arg (p + 2)
          end
      end
  end.

(** The arguments, formatted one after another; empty ones are dropped. *)
Fixpoint format_list (fuel : nat) (subst : bool) (args : list text) : PM (list text) :=
  match args with
  | [] => mret []
  | arg :: args =>
      arg ← format_arg fuel arg 0;
      rest ← format_list fuel subst args;
      mret ((if bool_decide (arg <> []) then argv_add subst arg else []) ++ rest)
  end.

(** daf/DAF.cpp:343-457 [format_args]. *)
Definition format_args (fuel : nat) (args : text) (substitute_env_args quote_args : bool) : PM text :=
  params ← format_list fuel substitute_env_args (argv_of_string substitute_env_args (c_str args));
  mret (parse_argv (argv_of_args substitute_env_args params) quote_args).
End loop.

(** ** Looking up and changing properties *)

(** daf/PropertyManager.cpp:39-66 [PropertyManager::get_property]. *)
Fixpoint get_property (fuel : nat) (ident : text) (use_env : bool) : PM text :=
  match fuel with
  | O => out_of_fuel
  | S fuel =>
      let format := format_args (fun prop => get_property fuel prop true) fuel in
      let key := trim ident in
      if bool_decide (key = []) then pthrow IllegalPropertyException
      else fun s =>
        match s !! key with
        | Some v => format v use_env true s
        | None =>
            match (if use_env then getenv key else None) with
            | Some env =>
                if bool_decide (env <> []) then
                  (r ← load_property key (trim env);
                   (if r =? 0 then fun s => format (default [] (s !! key)) false true s
                    else pthrow NotFoundException) : PM text) s
                else Some (s, Throw NotFoundException)
            | None => Some (s, Throw NotFoundException)
            end
        end
  end.

(** daf/PropertyManager.cpp:68-80 [PropertyManager::get_property]. With a default value. *)
Definition get_property_default (fuel : nat) (ident default_val : text) (use_env : bool) : PM text :=
  let default := format_args (fun prop => get_property fuel prop true) fuel default_val true true in
  v ← ptry IllegalArgumentException (get_property fuel ident use_env) (mret []);
  if bool_decide (v <> []) then mret v else default.

(** daf/PropertyManager.cpp:82-91 [PropertyManager::set_property]. *)
Definition set_property (ident value : text) : PM Z :=
  let key := trim ident in
  if bool_decide (key = []) then pthrow IllegalPropertyException
  else load_property key (trim value).

(** daf/PropertyManager.cpp:93-101 [PropertyManager::del_property]. *)
Definition del_property (ident : text) : PM unit :=
  let key := trim ident in
  if bool_decide (key = []) then pthrow IllegalPropertyException
  else fun s => Some (base.delete key s, Ok tt).
End platform.

(** ** Formatting as one pass over the text

    [expand] reads an argument once from left to right; [val] gives the values of
    the properties. *)

Section reference.
Context `{Platform} (val : text -> option text).

(** [{name}] at the head of a text, and what follows it. *)
Definition braced (s : text) : option (text * text) :=
  match s with
  | c :: s => if decide (c = LBRACE) then
                match find_char RBRACE s with
                | Some k => Some (take k s, drop (k + 1) s)
                | None => None
                end
              else None
  | [] => None
  end.

(** The replacement of a conversion and the text after it; [s] follows the
    percent sign. *)
Definition expansion (s : text) : text * text :=
  match conversion (head s) with
  | Percent => ([PCT], tail s)
  | Host => (hostname, tail s)
  | Thread => (fmt_int 0 thread_id, tail s)
  | Process => (fmt_int 0 process_id, tail s)
  | Property =>
      match braced (tail s) with
      | Some (name, rest) =>
          match val (trim name) with
          | Some v => (trim_string v QUOTE, rest)
          | None => ([], tail s)
          end
      | None => ([], tail s)
      end
  | Date => match date_text (head (tail s)) with
            | Some t => (t, tail (tail s))
            | None => ([], tail s)
            end
  | Time => match time_text (head (tail s)) with
            | Some t => (t, tail (tail s))
            | None => ([], tail s)
            end
  | Unknown => (PCT :: take 1 s, tail s)
  end.

Fixpoint expand_n (n : nat) (s : text) : text :=
  match n, s with
  | S n, c :: s =>
      if decide (c = PCT) then fst (expansion s) ++ expand_n n (snd (expansion s))
      else c :: expand_n n s
  | _, _ => s
  end.

Definition expand (s : text) : text := expand_n (length s) s.

Lemma braced_length s name rest : braced s = Some (name, rest) -> (length rest < length s)%nat.
Proof.
  destruct s as [|c s]; [done|]. simpl. destruct (decide _); [|done].
  destruct (find_char RBRACE s) as [k|]; [|done]. intros [= _ <-]. rewrite length_drop. lia.
Qed.

Lemma length_tail (s : text) : (length (tail s) <= length s)%nat.
Proof. destruct s; simpl; lia. Qed.

Lemma expansion_length s : (length (snd (expansion s)) <= length s)%nat.
Proof.
  unfold expansion. pose proof (length_tail s). pose proof (length_tail (tail s)).
  destruct (conversion _); simpl; try lia.
  - destruct (braced (tail s)) as [[name rest]|] eqn:E; simpl; [|lia].
    apply braced_length in E. destruct (val _); simpl; lia.
  - destruct (date_text _); simpl; lia.
  - destruct (time_text _); simpl; lia.
Qed.

Lemma expand_n_enough n m s : (length s <= n)%nat -> (length s <= m)%nat -> expand_n n s = expand_n m s.
Proof.
  revert m s. induction n as [|n IH]; intros [|m] [|c s] Hn Hm; simpl in *; try done; try lia.
  pose proof (expansion_length s). destruct (decide _); [|f_equal; apply IH; lia].
  f_equal. apply IH; lia.
Qed.

Lemma expand_cons c s :
  expand (c :: s) = if decide (c = PCT) then fst (expansion s) ++ expand (snd (expansion s))
                    else c :: expand s.
Proof.
  unfold expand. cbn [length expand_n]. destruct (decide _); [|done]. f_equal.
  pose proof (expansion_length s). by apply expand_n_enough.
Qed.

Lemma expand_app s1 s2 : PCT ∉ s1 -> expand (s1 ++ s2) = s1 ++ expand s2.
Proof.
  induction s1 as [|c s1 IH]; [done|]. intros [Hc Hs]%not_elem_of_cons.
  cbn [app]. rewrite expand_cons, decide_False by done. by rewrite IH.
Qed.

Lemma expand_plain s : PCT ∉ s -> expand s = s.
Proof. intros Hs. rewrite <- (app_nil_r s) at 1. rewrite expand_app by done. apply app_nil_r. Qed.
End reference.

(** The names a text may look up: one for every percent sign that a name in
    braces follows. *)
Fixpoint refs (s : text) : list text :=
  match s with
  | [] => []
  | c :: s =>
      (if decide (c = PCT) then
         match conversion (head s), braced (tail s) with
         | Property, Some (name, _) => [trim name]
         | _, _ => []
         end
       else []) ++ refs s
  end.

Lemma refs_app n s1 s2 : n ∈ refs s2 -> n ∈ refs (s1 ++ s2).
Proof. intros Hn. induction s1 as [|c s1 IH]; [done|]. simpl. rewrite elem_of_app. auto. Qed.

Lemma refs_drop n k s : n ∈ refs (drop k s) -> n ∈ refs s.
Proof. intros Hn. rewrite <- (take_drop k s). by apply refs_app. Qed.

Section formatting.
Context `{Platform} (get : text -> PM text) (val : text -> option text) (st : store).

(** What a lookup gives in the surroundings of one formatting: it does not change
    the store, and the text it puts in has no percent sign. *)
Definition looks_up (n : text) : Prop :=
  match val n with
  | Some v => get n st = Some (st, Ok v) /\ PCT ∉ trim_string v QUOTE
  | None => exists e, get n st = Some (st, Throw e) /\ catches IllegalArgumentException e = true
  end.

(** Neither has what the platform puts in. *)
Definition settled : Prop := (PCT ∉ hostname) /\ (forall c t, date_text c = Some t -> PCT ∉ t).

Lemma digits_no_pct w n : PCT ∉ digits_w w n.
Proof.
  revert n. induction w as [|w IH]; intros n; [apply not_elem_of_nil|]. cbn [digits_w].
  rewrite elem_of_app. intros [Hin|Hin]; [by apply (IH (n / 10))|].
  apply list_elem_of_singleton in Hin. unfold digit, PCT in Hin.
  apply (f_equal nat_of_ascii) in Hin. rewrite nat_ascii_embedding in Hin by zdm.
  change (nat_of_ascii "%") with 37%nat in Hin. lia.
Qed.

Lemma fmt_int_no_pct w n : PCT ∉ fmt_int w n.
Proof.
  unfold fmt_int, fmt_nat. case_match; [|apply digits_no_pct].
  rewrite not_elem_of_cons. split; [done|apply digits_no_pct].
Qed.

Lemma find_from_pct pre t s :
  PCT ∉ t ->
  find_from PCT (pre ++ t ++ s) (length pre) = (Nat.add (length pre + length t) <$> find_char PCT s).
Proof.
  intros Ht. rewrite find_from_app. induction t as [|c t IH] in pre, Ht |- *.
  - simpl. by rewrite Nat.add_0_r.
  - apply not_elem_of_cons in Ht as [Hc Ht]. cbn [app find_char]. rewrite decide_False by done.
    specialize (IH pre Ht). destruct (find_char PCT (t ++ s)), (find_char PCT s); simpl in *; try done.
    injection IH as IH. f_equal. lia.
Qed.

(** Around the position of a percent sign. *)
Lemma lookup_after (pre s : text) k : (pre ++ PCT :: s) !! (length pre + 1 + k)%nat = s !! k.
Proof.
  rewrite lookup_app_r by lia. by replace (length pre + 1 + k - length pre)%nat with (S k) by lia.
Qed.

Lemma splice_pct (pre s ins : text) n :
  splice (pre ++ PCT :: s) (length pre) (S n) ins = pre ++ ins ++ drop n s.
Proof.
  unfold splice. rewrite take_app_length. do 2 f_equal.
  rewrite drop_app_ge by lia. by replace (length pre + S n - length pre)%nat with (S n) by lia.
Qed.

Lemma delete_pct (pre s : text) :
  delete (length pre + 1)%nat (pre ++ PCT :: s) = pre ++ [PCT] ++ tail s.
Proof.
  induction pre as [|c pre IH]; [by destruct s|]. cbn [app length]. simpl.
  by f_equal.
Qed.

Lemma drop_after (pre s : text) k : drop (length pre + 1 + k) (pre ++ PCT :: s) = drop k s.
Proof. rewrite drop_app_ge by lia. by replace (length pre + 1 + k - length pre)%nat with (S k) by lia. Qed.

Lemma braced_drop c s name rest :
  braced s = Some (name, rest) -> drop (length (c :: s) - length rest) (c :: s) = rest.
Proof.
  destruct s as [|d s]; [done|]. simpl. destruct (decide _); [|done].
  destruct (find_char RBRACE s) as [k|] eqn:E; [|done]. intros [= _ <-].
  apply find_char_Some in E as (s1 & s2 & -> & <- & _). rewrite length_drop, !length_app. cbn [length].
  replace (S (S (length s1 + S (length s2))) - (length s1 + S (length s2) - (length s1 + 1)))%nat
    with (S (S (length s1 + 1))) by lia.
  done.
Qed.

(** The position and the length of a named property. *)
Lemma format_property_spec pre s :
  (forall name rest, braced (tail s) = Some (name, rest) -> looks_up (trim name)) ->
  format_property get (pre ++ PCT :: s) (length pre) st
  = Some (st, Ok (match braced (tail s) with
                  | Some (name, rest) =>
                      match val (trim name) with
                      | Some v => (trim_string v QUOTE, S (length s - length rest))
                      | None => ([], 2%nat)
                      end
                  | None => ([], 2%nat)
                  end)).
Proof.
  intros Hget. unfold format_property, find_from.
  replace (length pre + 2)%nat with (length pre + 1 + 1)%nat by lia.
  replace (length pre + 3)%nat with (length pre + 1 + 2)%nat by lia.
  rewrite lookup_after, !drop_after.
  destruct s as [|c0 [|c s]]; [done|done|]. cbn [tail drop braced head lookup list_lookup] in *.
  case_bool_decide as Hc; [injection Hc as ->|]; [|by rewrite decide_False by congruence].
  rewrite decide_True in * by done. cbn [find_char]. rewrite (decide_False (P := LBRACE = RBRACE)) by done.
  destruct (find_char RBRACE s) as [k|] eqn:E; [|done]. cbn [fmap option_fmap option_map].
  replace (length pre + 1 + 1 + S k - (length pre + 1 + 2))%nat with k by lia.
  apply find_char_Some in E as (s1 & s2 & -> & <- & _). rewrite length_drop, !length_app, drop_0.
  specialize (Hget _ _ eq_refl). unfold looks_up in Hget. unfold ptry, mbind, PM_bind.
  destruct (val _) as [v|]; cbn [mret PM_ret].
  2: { destruct Hget as (e & -> & He). by rewrite He. }
  destruct Hget as [-> _]. do 4 f_equal. cbn [length]. rewrite length_app. cbn [length]. lia.
Qed.

Lemma drop_1_tail (s : text) : drop 1 s = tail s.
Proof. by destruct s. Qed.
Lemma drop_2_tail (s : text) : drop 2 s = tail (tail s).
Proof. by destruct s as [|? []]. Qed.

Lemma time_no_pct c t : time_text c = Some t -> PCT ∉ t.
Proof.
  unfold time_text. intros Ht. repeat case_match; try done.
  injection Ht as <-. apply fmt_int_no_pct.
Qed.

(** The loop: what has been formatted ([pre]) and what a replacement put in
    ([t]) stay as they are. *)
Lemma format_arg_spec fuel pre t s :
  settled -> PCT ∉ t -> (length s < fuel)%nat -> (forall n, n ∈ refs s -> looks_up n) ->
  format_arg get fuel (pre ++ t ++ s) (length pre) st = Some (st, Ok (pre ++ t ++ expand val s)).
Proof.
  intros Hset. revert pre t s. induction fuel as [|fuel IH]; intros pre t s Ht Hf Hget; [lia|].
  cbn [format_arg]. rewrite find_from_pct by done.
  destruct (find_char PCT s) as [i|] eqn:E; cbn [fmap option_fmap option_map].
  2: { apply find_char_None in E. by rewrite expand_plain. }
  apply find_char_Some in E as (s1 & s2 & -> & <- & Hs1).
  rewrite expand_app, expand_cons, decide_True by done.
  rewrite length_app in Hf. simpl in Hf.
  assert (forall n k, n ∈ refs (drop k s2) -> looks_up n) as Hget2.
  { intros n k Hn. apply Hget, refs_app, (refs_app _ [PCT]), (refs_drop _ k), Hn. }
  set (q := pre ++ t ++ s1).
  assert (forall u, pre ++ t ++ s1 ++ u = q ++ u) as Hq by (intros u; unfold q; by rewrite <- !app_assoc).
  rewrite !Hq. clear Hq.
  replace (length pre + length t + length s1)%nat with (length q)
    by (unfold q; rewrite !length_app; lia).
  assert ((q ++ PCT :: s2) !! (length q + 1)%nat = head s2) as ->.
  { rewrite <- (Nat.add_0_r (length q + 1)), lookup_after. by destruct s2. }
  assert ((q ++ PCT :: s2) !! (length q + 2)%nat = head (tail s2)) as Hl2.
  { replace (length q + 2)%nat with (length q + 1 + 1)%nat by lia. rewrite lookup_after. by destruct s2 as [|? []]. }
  (* a replacement of [n] characters after the percent sign by [ins] *)
  assert (forall ins n, PCT ∉ ins -> format_arg get fuel (splice (q ++ PCT :: s2) (length q) (S n) ins) (length q) st
    = Some (st, Ok (q ++ ins ++ expand val (drop n s2)))) as Hrep.
  { intros ins n Hins. rewrite splice_pct. apply IH; [done| |by eauto]. rewrite length_drop. lia. }
  assert (forall x r, (length r < fuel)%nat -> (forall n, n ∈ refs r -> looks_up n) -> format_arg get fuel (q ++ x ++ r) (length q + length x) st
    = Some (st, Ok (q ++ x ++ expand val r))) as Hskip.
  { intros x r Hr Hgr. rewrite !(app_assoc q), <- length_app.
    apply (IH (q ++ x) []); [apply not_elem_of_nil|done|done]. }
  pose proof (length_tail s2).
  pose proof Hset as (Hhost & Hdate).
  unfold expansion. destruct (conversion (head s2)) eqn:Ec.
  all: cbv zeta; cbn [fst snd].
  - rewrite delete_pct. apply (Hskip [PCT]); cbn [snd]; [lia|].
    intros n. rewrite <- drop_1_tail. eauto.
  - rewrite Hrep by done. by rewrite drop_1_tail.
  - rewrite Hrep by apply fmt_int_no_pct. by rewrite drop_1_tail.
  - rewrite Hrep by apply fmt_int_no_pct. by rewrite drop_1_tail.
  - unfold mbind, PM_bind. rewrite format_property_spec.
    2: { intros name rest Eb. apply Hget, refs_app. cbn [refs]. rewrite decide_True by done.
         rewrite Ec, Eb. apply list_elem_of_here. }
    destruct (braced (tail s2)) as [[name rest]|] eqn:Eb.
    + assert (looks_up (trim name)) as Hl.
      { apply Hget, refs_app. cbn [refs]. rewrite decide_True, Ec, Eb by done. apply list_elem_of_here. }
      unfold looks_up in Hl. destruct (val (trim name)) as [v|] eqn:Ev; cbn [fst snd].
      * rewrite Hrep by apply Hl. destruct s2 as [|c s2]; [done|]. by rewrite (braced_drop c s2 _ _ Eb).
      * cbn [fst snd]. rewrite Hrep by apply not_elem_of_nil. by rewrite drop_1_tail.
    + cbn [fst snd]. rewrite Hrep by apply not_elem_of_nil. by rewrite drop_1_tail.
  - rewrite Hl2. destruct (date_text _) as [d|] eqn:Ed; cbn [two_letters fst snd].
    + rewrite Hrep by eauto. by rewrite drop_2_tail.
    + rewrite Hrep by apply not_elem_of_nil. by rewrite drop_1_tail.
  - rewrite Hl2. destruct (time_text _) as [d|] eqn:Ed; cbn [two_letters fst snd].
    + rewrite Hrep by (eapply time_no_pct; eauto). by rewrite drop_2_tail.
    + rewrite Hrep by apply not_elem_of_nil. by rewrite drop_1_tail.
  - destruct s2 as [|c s2].
    + destruct fuel as [|fuel]; [simpl in *; lia|]. cbn [format_arg].
      unfold find_from. by rewrite drop_ge by (rewrite length_app; simpl; lia).
    + apply (Hskip [PCT; c]); [simpl in *; lia|]. exact (fun n => Hget2 n 1%nat).
Qed.
End formatting.

(** ** What a property means

    [meaning n key]: the value of a property whose references are at most [n]
    deep: its arguments, each expanded with the meaning of the properties it
    names, and put together again. *)

Section meaning.
Context `{Platform} (st : store).

Definition arguments (b : bool) (es : list text) : list text :=
  concat ((fun e => if bool_decide (e <> []) then argv_add b e else []) <$> es).

Definition formatted (val : text -> option text) (b : bool) (v : text) : text :=
  parse_argv (argv_of_args b (arguments b (expand val <$> argv_of_string b (c_str v)))) true.

Fixpoint meaning (n : nat) (b : bool) (key : text) : option text :=
  match n with
  | O => None
  | S n => if decide (trim key = []) then None
           else formatted (meaning n true) b <$> st !! trim key
  end.

(** A name that is in the repository, or else no variable of the environment that has text. *)
Definition own (key : text) : Prop := st !! trim key = None -> forall env, getenv (trim key) = Some env -> env = [].

(** A repository without cycles: [rank] falls along references, the arguments of
    the values are shorter than [L], no value refers to a variable of the environment that is not in
    the repository, and no text that is put in has a percent sign. *)
Definition calm (n : text) : Prop := forall m v, meaning m true n = Some v -> PCT ∉ trim_string v QUOTE.

Record layered (rank : text -> nat) (L : nat) : Prop := {
  ly_rank : forall k v b a n, st !! k = Some v -> a ∈ argv_of_string b (c_str v) -> n ∈ refs a ->
            (rank (trim n) < rank k)%nat;
  ly_short : forall k v b a, st !! k = Some v -> a ∈ argv_of_string b (c_str v) -> (length a < L)%nat;
  ly_env : forall k v b a n, st !! k = Some v -> a ∈ argv_of_string b (c_str v) -> n ∈ refs a -> own n;
  ly_calm : forall k v b a n, st !! k = Some v -> a ∈ argv_of_string b (c_str v) -> n ∈ refs a -> calm n;
  ly_settled : settled;
}.

Lemma format_list_spec get val fuel b args :
  settled ->
  Forall (fun a => (length a < fuel)%nat /\ forall n, n ∈ refs a -> looks_up get val st n) args ->
  format_list get fuel b args st = Some (st, Ok (arguments b (expand val <$> args))).
Proof.
  intros Hset. induction 1 as [|a args [Hl Hget] _ IH]; [done|].
  cbn [format_list]. unfold mbind, PM_bind.
  pose proof (format_arg_spec get val st fuel [] [] a Hset (not_elem_of_nil _) Hl Hget) as Ha.
  cbn [app length] in Ha. rewrite Ha, IH. done.
Qed.

Lemma format_args_spec get val fuel v b :
  settled ->
  Forall (fun a => (length a < fuel)%nat /\ forall n, n ∈ refs a -> looks_up get val st n)
         (argv_of_string b (c_str v)) ->
  format_args get fuel v b true st = Some (st, Ok (formatted val b v)).
Proof.
  intros Hset Hargs. unfold format_args, mbind, PM_bind. by rewrite (format_list_spec _ val).
Qed.

(** [lookup_outcome n b key]: a lookup of [key], from its meaning. *)
Definition lookup_outcome (n : nat) (b : bool) (key : text) : option (store * result text) :=
  Some (st, match meaning n b key with
            | Some v => Ok v
            | None => Throw (if decide (trim key = []) then IllegalPropertyException else NotFoundException)
            end).

Lemma lookup_outcome_looks_up get n k : calm k -> get k st = lookup_outcome n true k -> looks_up get (meaning n true) st k.
Proof.
  unfold looks_up, lookup_outcome. intros Hc ->. destruct (meaning n true k) eqn:E; [by eauto|].
  destruct (decide _); eauto.
Qed.

Lemma get_property_outcome rank L fuel n key b :
  layered rank L -> (b = true -> own key) -> (rank (trim key) + L < fuel)%nat -> (rank (trim key) < n)%nat ->
  get_property fuel key b st = lookup_outcome n b key.
Proof.
  intros Hl. revert n key b. induction fuel as [|fuel IH]; intros n key b Ho Hf Hn; [lia|].
  destruct n as [|n]; [lia|]. cbn [get_property]. unfold lookup_outcome. cbn [meaning].
  case_bool_decide as Hk; [by rewrite !decide_True|]. rewrite !(decide_False (P := trim key = [])) by done.
  destruct (st !! trim key) as [v|] eqn:Ev; cbn [fmap option_fmap option_map].
  - apply format_args_spec; [by apply Hl|]. apply Forall_forall. intros a Ha. split.
    + pose proof (ly_short _ _ Hl _ _ _ _ Ev Ha). lia.
    + intros m Hm. pose proof (ly_rank _ _ Hl _ _ _ _ _ Ev Ha Hm).
      apply lookup_outcome_looks_up; [by eapply (ly_calm _ _ Hl)|]. apply IH; [intros _; by eapply (ly_env _ _ Hl)|lia..].
  - destruct b; [|done]. destruct (getenv (trim key)) as [env|] eqn:Ee; [|done]. by rewrite (Ho eq_refl Ev env Ee).
Qed.
End meaning.

(** ** What a run may change and throw *)

Section effects.
Context `{Platform}.

(** The store only grows, by variables of the environment. *)
Definition grows (s s' : store) : Prop :=
  s ⊆ s' /\
  forall k v, s' !! k = Some v -> s !! k = Some v \/ exists env, getenv k = Some env /\ env <> [] /\ k <> [] /\ v = trim env.

#[local] Instance grows_preorder : PreOrder grows.
Proof.
  split; [intros s; split; [done|auto]|].
  intros s1 s2 s3 [H12 N12] [H23 N23]. split; [by etrans|]. intros k v [Hv|He]%N23; auto.
Qed.

(** [m] lets the store grow and throws only exceptions of [E]. *)
Definition holds {A} (E : daf_exn -> Prop) (m : PM A) : Prop :=
  forall s s' r, m s = Some (s', r) -> grows s s' /\ forall e, r = Throw e -> E e.

Lemma holds_ret {A} E (a : A) : holds E (mret a).
Proof. by intros s s' r [= <- <-]. Qed.

Lemma holds_throw {A} (E : daf_exn -> Prop) e : E e -> holds E (pthrow e : PM A).
Proof. intros He s s' r [= <- <-]. split; [done|]. by intros ? [= <-]. Qed.

Lemma holds_fuel {A} E : holds E (out_of_fuel : PM A).
Proof. by intros s s' r [=]. Qed.

Lemma holds_bind {A B} E (m : PM A) (k : A -> PM B) :
  holds E m -> (forall a, holds E (k a)) -> holds E (m ≫= k).
Proof.
  intros Hm Hk s s' r. unfold mbind, PM_bind. destruct (m s) as [[s1 [a|e]]|] eqn:E1; [| |done].
  - intros E2. apply Hm in E1 as [G1 _]. apply Hk in E2 as [G2 T2]. split; [by etrans|done].
  - intros [= <- <-]. apply Hm in E1 as [G1 T1]. split; [done|]. intros ? [= <-]. by apply T1.
Qed.

Lemma holds_try {A} (E E' : daf_exn -> Prop) h (m k : PM A) :
  holds E' m -> holds E k -> (forall e, E' e -> catches h e = false -> E e) -> holds E (ptry h m k).
Proof.
  intros Hm Hk HE s s' r. unfold ptry. destruct (m s) as [[s1 [a|e]]|] eqn:E1; [| |done].
  - intros [= <- <-]. apply Hm in E1 as [G1 _]. done.
  - apply Hm in E1 as [G1 T1]. destruct (catches h e) eqn:Ec.
    + intros E2. apply Hk in E2 as [G2 T2]. split; [by etrans|done].
    + intros [= <- <-]. split; [done|]. intros ? [= <-]. auto.
Qed.

Create HintDb runs.
#[local] Hint Resolve holds_ret holds_throw holds_fuel holds_bind : runs.

(** What a lookup throws. *)
Definition lookup_exn (key : text) : daf_exn :=
  if decide (trim key = []) then IllegalPropertyException else NotFoundException.

Section get.
Context (get : text -> PM text).
Hypothesis Hget : forall n, holds (fun e => catches IllegalArgumentException e = true) (get n).

Lemma format_property_holds E arg p : holds E (format_property get arg p).
Proof.
  unfold format_property. repeat case_match; auto with runs.
  eapply holds_try; [apply holds_bind; [apply Hget|]|..]; auto with runs. congruence.
Qed.

Lemma format_arg_holds E fuel arg p : holds E (format_arg get fuel arg p).
Proof.
  revert arg p. induction fuel as [|fuel IH]; intros arg p; cbn [format_arg]; [auto with runs|].
  pose proof format_property_holds. repeat case_match; auto with runs.
Qed.

Lemma format_args_holds E fuel args b q : holds E (format_args get fuel args b q).
Proof.
  unfold format_args. apply holds_bind; [|auto with runs].
  induction (argv_of_string b (c_str args)) as [|a l IH]; cbn [format_list]; [auto with runs|].
  pose proof format_arg_holds. auto with runs.
Qed.
End get.

Lemma load_property_grows E key env :
  getenv key = Some env -> env <> [] -> key <> [] ->
  forall s s' r, s !! key = None -> load_property key (trim env) s = Some (s', r) ->
  grows s s' /\ forall e, r = Throw e -> E e.
Proof.
  intros He Hne Hk s s' r Hs. unfold load_property. rewrite (bool_decide_true (s !! key = None)) by done.
  rewrite orb_true_r. intros [= <- <-]. split; [|done]. split; [by apply insert_subseteq|].
  intros k v [[<- <-]|[? ?]]%lookup_insert_Some; eauto 10.
Qed.

Lemma lookup_exn_caught key e : e = lookup_exn key -> catches IllegalArgumentException e = true.
Proof. intros ->. unfold lookup_exn. by destruct (decide _). Qed.

Lemma get_property_holds fuel key b : holds (fun e => e = lookup_exn key) (get_property fuel key b).
Proof.
  revert key b. induction fuel as [|fuel IH]; intros key b; cbn [get_property]; [auto with runs|].
  assert (forall n, holds (fun e => catches IllegalArgumentException e = true) (get_property fuel n true)) as Hget.
  { intros n s s' r Hr. apply IH in Hr as [G T]. split; [done|]. intros e He. eapply lookup_exn_caught, T, He. }
  unfold lookup_exn. case_bool_decide as Hk; [rewrite decide_True by done; auto with runs|].
  rewrite decide_False by done. intros s s' r Hr.
  destruct (s !! trim key) as [v|] eqn:Ev; [exact (format_args_holds _ Hget _ _ _ _ _ _ _ _ Hr)|].
  destruct (if b then getenv (trim key) else None) as [env|] eqn:Ee.
  2: { injection Hr as <- <-. split; [done|]. by intros ? [= <-]. }
  destruct b; [|done]. case_bool_decide as Hne.
  2: { injection Hr as <- <-. split; [done|]. by intros ? [= <-]. }
  unfold mbind, PM_bind in Hr. destruct (load_property _ _ s) as [[s1 [z|e]]|] eqn:El; [| |done].
  - apply (load_property_grows (fun e => e = NotFoundException) _ _ Ee) in El as [G1 _]; [|done..].
    assert (grows s1 s' /\ forall e, r = Throw e -> e = NotFoundException) as [G2 T2].
    { case_match; [exact (format_args_holds _ Hget _ _ _ _ _ _ _ _ Hr)|].
      injection Hr as <- <-. split; [done|]. by intros ? [= <-]. }
    split; [by etrans|done].
  - apply (load_property_grows (fun e => e = NotFoundException) _ _ Ee) in El as [G1 T1]; [|done..].
    injection Hr as <- <-. split; [done|]. intros ? [= <-]. by apply T1.
Qed.
End effects.

Lemma get_property_default_outcome `{Platform} st rank L fuel n id d b :
  layered st rank L -> (b = true -> own st id) -> (rank (trim id) + L < fuel)%nat -> (rank (trim id) < n)%nat ->
  Forall (fun a => (length a < fuel)%nat /\ forall m, m ∈ refs a -> calm st m /\ own st m /\ (rank (trim m) + L < fuel)%nat /\ (rank (trim m) < n)%nat)
         (argv_of_string true (c_str d)) ->
  get_property_default fuel id d b st
  = Some (st, Ok (match meaning st n b id with
                  | Some (c :: v) => c :: v
                  | _ => formatted (meaning st n true) true d
                  end)).
Proof.
  intros Hl Ho Hf Hn Hd. unfold get_property_default.
  assert (format_args (fun prop => get_property fuel prop true) fuel d true true st
          = Some (st, Ok (formatted (meaning st n true) true d))) as Hdef.
  { apply format_args_spec; [by apply Hl|]. eapply Forall_impl; [exact Hd|].
    intros a [Ha Hr]. split; [done|]. intros m Hm. destruct (Hr m Hm) as (? & ? & ? & ?).
    eapply lookup_outcome_looks_up, get_property_outcome; done. }
  unfold mbind, PM_bind, ptry. rewrite (get_property_outcome _ _ _ _ n) by done. unfold lookup_outcome.
  destruct (meaning st n b id) as [[|c v]|]; [exact Hdef|done|].
  by destruct (decide _).
Qed.

Lemma get_property_default_holds `{Platform} fuel id d b :
  holds (fun _ => False) (get_property_default fuel id d b).
Proof.
  unfold get_property_default.
  assert (forall n, holds (fun e => catches IllegalArgumentException e = true) (get_property fuel n true)) as Hget.
  { intros n s s' r Hr. apply get_property_holds in Hr as [G T]. split; [done|].
    intros e He. eapply lookup_exn_caught, T, He. }
  apply holds_bind.
  - eapply holds_try; [apply get_property_holds|apply holds_ret|].
    intros e He Hc. by rewrite (lookup_exn_caught _ _ He) in Hc.
  - intros v. case_bool_decide; [apply holds_ret|]. by apply format_args_holds.
Qed.

(** *** A name of the environment *)

Lemma format_stored `{Platform} st rank L fuel n k v b : st !! k = Some v -> layered st rank L ->
  (rank k + L < S fuel)%nat -> (rank k < S n)%nat ->
  format_args (fun prop => get_property fuel prop true) fuel v b true st = Some (st, Ok (formatted (meaning st n true) b v)).
Proof.
  intros Ev Hl Hf Hn. apply format_args_spec; [by apply Hl|]. apply Forall_forall. intros a Ha. split.
  - pose proof (ly_short _ _ _ Hl _ _ _ _ Ev Ha). lia.
  - intros m Hm. pose proof (ly_rank _ _ _ Hl _ _ _ _ _ Ev Ha Hm). apply lookup_outcome_looks_up; [by eapply (ly_calm _ _ _ Hl)|].
    eapply get_property_outcome; [done|intros _; by eapply (ly_env _ _ _ Hl)|lia..].
Qed.

(** The repository after a lookup of a name: a variable of the environment that has text becomes an entry. *)
Definition with_variable `{Platform} (st : store) (key : text) (b : bool) : store :=
  match st !! trim key, (if b then getenv (trim key) else None) with
  | None, Some (c :: env) => if decide (trim key = []) then st else <[trim key := trim (c :: env)]> st
  | _, _ => st
  end.

Lemma get_property_variable `{Platform} st rank L fuel n key b :
  layered (with_variable st key b) rank L -> (rank (trim key) + L < fuel)%nat -> (rank (trim key) < n)%nat ->
  get_property fuel key b st
  = Some (with_variable st key b,
          match meaning (with_variable st key b) n (b && bool_decide (is_Some (st !! trim key))) key with
          | Some v => Ok v
          | None => Throw (if decide (trim key = []) then IllegalPropertyException else NotFoundException)
          end).
Proof.
  intros Hl Hf Hn. destruct n as [|n], fuel as [|fuel]; [lia..|]. cbn [get_property meaning]. unfold with_variable in *.
  case_bool_decide as Hk; [rewrite !(decide_True (P := trim key = [])) in * by done; by repeat case_match|].
  rewrite !(decide_False (P := trim key = [])) in * by done. destruct (st !! trim key) as [v|] eqn:Ev.
  - rewrite bool_decide_true, andb_true_r by done. rewrite Ev. by eapply format_stored.
  - rewrite bool_decide_false, andb_false_r by (by intros [? ?]).
    destruct (if b then getenv (trim key) else None) as [[|c env]|]; [by rewrite Ev| |by rewrite Ev].
    unfold mbind, PM_bind, load_property. rewrite bool_decide_true by done. rewrite (bool_decide_true (st !! trim key = None)), orb_true_r by done.
    cbn [fst snd Z.eqb]. rewrite (decide_False (P := trim key = [])) in * by done.
    unfold store in *. rewrite lookup_insert_eq. cbn [default from_option fmap option_fmap option_map id].
    eapply format_stored; [apply lookup_insert_eq|done..].
Qed.

(** ** The claims *)


(** Looked up with a default, a property without a value or without
    any text gives the default text, formatted like a value. *)
Theorem get_property_default_meaning `{Platform} st rank L fuel n id d b :
  layered st rank L -> (b = true -> own st id) -> (rank (trim id) + L < fuel)%nat -> (rank (trim id) < n)%nat ->
  Forall (fun a => (length a < fuel)%nat /\ forall m, m ∈ refs a -> calm st m /\ own st m /\ (rank (trim m) + L < fuel)%nat /\ (rank (trim m) < n)%nat)
         (argv_of_string true (c_str d)) ->
  get_property_default fuel id d b st
  = Some (st, Ok (match meaning st n b id with
                  | Some (c :: v) => c :: v
                  | _ => formatted (meaning st n true) true d
                  end)).
Proof. apply get_property_default_outcome. Qed.

(** Whatever the repository holds, reading a property keeps every entry; what
    it adds are trimmed variables of the environment.  The lookup throws only
    [IllegalPropertyException], for a blank name, or [NotFoundException], and the lookup with
    a default throws nothing. *)
Theorem reading_is_safe `{Platform} fuel key d b s s' r :
  (get_property fuel key b s = Some (s', r) ->
   grows s s' /\ forall e, r = Throw e -> e = lookup_exn key)
  /\ (get_property_default fuel key d b s = Some (s', r) -> grows s s' /\ forall e, r <> Throw e).
Proof.
  split; intros Hr; [by apply get_property_holds in Hr|].
  apply get_property_default_holds in Hr as [G T]. split; [done|]. intros e He. by apply (T e).
Qed.

(** Storing and deleting work on the trimmed name and change no other entry:
    a blank name is refused, a value with text replaces the old one, and a blank value is
    stored only when there is no entry yet. *)
Theorem set_del_property_spec `{Platform} key value (s : store) :
  set_property key value s
  = Some (if decide (trim key = []) then (s, Throw IllegalPropertyException)
          else match decide (trim value = []), s !! trim key with
               | left _, Some _ => (s, Ok (-1))
               | _, _ => (<[trim key := trim value]> s, Ok 0)
               end)
  /\ del_property key s
  = Some (if decide (trim key = []) then (s, Throw IllegalPropertyException)
          else (base.delete (trim key) s, Ok tt)).
Proof.
  unfold set_property, del_property, load_property.
  split; (destruct (decide (trim key = [])) as [E|E]; [by rewrite bool_decide_true by done|rewrite bool_decide_false by done; clear E; try done]).
  repeat case_bool_decide; simplify_eq/=; repeat case_match; naive_solver.
Qed.

(** ** Concrete repositories *)

(** A platform whose argument vectors split at spaces and leave the words alone. *)
Fixpoint words (w s : text) : list text :=
  match s with
  | [] => match w with [] => [] | _ => [w] end
  | c :: s => if decide (c = SPACE) then match w with [] => words [] s | _ => w :: words [] s end
              else words (w ++ [c]) s
  end.

Definition words_platform : Platform := {|
  argv_of_string := fun _ s => words [] s;
  argv_of_args := fun _ l => l;
  getenv := fun k => if decide (k = str "USER") then Some (str " ann ") else None;
  hostname := str "h1";
  thread_id := 7;
  process_id := 42;
  gm_string := fun _ => str "now";
  local_string := fun _ => str "now";
  utc_time := 1000;
|}.

Definition calm_platform : Platform := {|
  argv_of_string := fun _ s => words [] s;
  argv_of_args := fun _ l => l;
  getenv := fun _ => None;
  hostname := str "h1";
  thread_id := 7;
  process_id := 42;
  gm_string := fun _ => str "now";
  local_string := fun _ => str "now";
  utc_time := 1000;
|}.

Definition greeting : gmap text text :=
  <[str "greet" := str "hi %p{name}@%H 100%%"]> (<[str "name" := str "bob"]> ∅).
Definition greet_rank (k : text) : nat := if decide (k = str "greet") then 1 else 0.

(** Membership in a concrete list, case by case. *)
Ltac elem_cases H :=
  apply list_elem_of_In in H; vm_compute in H; repeat destruct H as [H|H]; try done; subst.

Lemma name_calm : @calm calm_platform greeting (str "name").
Proof.
  intros [|m] v Hm; [done|]. vm_compute in Hm. injection Hm as <-. by apply (bool_decide_unpack _).
Qed.

Lemma greeting_calm_layered : @layered calm_platform greeting greet_rank 14.
Proof.
  split.
  - intros k v b a n Hk Ha Hn. unfold greeting, store in Hk.
    rewrite !lookup_insert_Some in Hk. rewrite lookup_empty in Hk.
    destruct Hk as [[<- <-]|[_ [[<- <-]|[_ ?]]]]; [| |done]; elem_cases Ha; elem_cases Hn.
    vm_compute. lia.
  - intros k v b a Hk Ha. unfold greeting, store in Hk.
    rewrite !lookup_insert_Some in Hk. rewrite lookup_empty in Hk.
    destruct Hk as [[<- <-]|[_ [[<- <-]|[_ ?]]]]; [| |done]; elem_cases Ha; vm_compute; lia.
  - by intros k v b a n _ _ _ _ env [=].
  - intros k v b a n Hk Ha Hn. unfold greeting, store in Hk.
    rewrite !lookup_insert_Some in Hk. rewrite lookup_empty in Hk.
    destruct Hk as [[<- <-]|[_ [[<- <-]|[_ ?]]]]; [| |done]; elem_cases Ha; elem_cases Hn.
    apply name_calm.
  - split; [by apply (bool_decide_unpack _)|].
    intros c t Ht. unfold date_text in Ht.
    repeat case_match; try done; injection Ht as <-; by apply (bool_decide_unpack _).
Qed.


Lemma get_property_default_meaning_witness :
  layered (H := calm_platform) greeting greet_rank 14
  /\ (snd <$> get_property_default (H := calm_platform) 17 (str "other") (str "no %p{name}") true greeting)
     = Some (Ok (str "no bob")).
Proof.
  split; [exact greeting_calm_layered|].
  rewrite (@get_property_default_meaning calm_platform greeting greet_rank 14 17 2 (str "other") (str "no %p{name}") true
           greeting_calm_layered); [vm_compute; reflexivity|by intros _ _ env [=]|vm_compute; lia..|].
  apply Forall_forall. intros a Ha. elem_cases Ha; (split; [vm_compute; lia|]); intros m Hm; elem_cases Hm.
  split; [exact name_calm|]. split; [by intros _ env [=]|vm_compute; lia].
Defined.

(** The variable of the environment becomes an entry. *)
Definition with_user : store := <[str "USER" := str "ann"]> greeting.

Lemma user_run :
  get_property (H := words_platform) 20 (str "USER") true greeting = Some (with_user, Ok (str "ann")).
Proof. apply (bool_decide_unpack _). vm_compute. exact I. Qed.

Lemma reading_is_safe_witness : @grows words_platform greeting with_user.
Proof.
  exact (proj1 (proj1 (@reading_is_safe words_platform 20 (str "USER") [] true greeting with_user (Ok (str "ann")))
    user_run)).
Defined.

(** ** What the scan for percent signs does not stop *)

(** [a] stands for the text %H; where it is put in, the scan finds it again and gives the name of the host. *)
Definition quoted_host : store := <[str "a" := str "%%H"]> {[ str "b" := str "%p{a}" ]}.

Lemma replaced_text_expanded :
  get_property (H := calm_platform) 20 (str "a") true quoted_host = Some (quoted_host, Ok (str "%H"))
  /\ get_property (H := calm_platform) 20 (str "b") true quoted_host = Some (quoted_host, Ok (str "h1"))
  /\ meaning (H := calm_platform) quoted_host 2 true (str "b") = Some (str "%H").
Proof. split_and!; apply (bool_decide_unpack _); vm_compute; exact I. Qed.

(** A property that names itself: a lookup of it never returns. *)
Lemma self_reference_diverges fuel b (s : store) :
  s !! str "a" = Some (str "%p{a}") -> get_property (H := calm_platform) fuel (str "a") b s = None.
Proof.
  intros Hs. revert b. induction fuel as [|fuel IH]; intros b; [done|]. cbn [get_property].
  rewrite bool_decide_false by (vm_compute; congruence).
  change (trim (str "a")) with (str "a"). rewrite Hs.
  destruct fuel as [|fuel]; [by destruct b|].
  set (get := fun prop => get_property (S fuel) prop true) in *.
  assert (get (str "a") s = None) as Hget by apply IH.
  clearbody get. clear IH.
  unfold format_args, mbind, PM_bind.
  change (argv_of_string b (c_str (str "%p{a}"))) with [str "%p{a}"].
  cbn [format_list]. unfold mbind, PM_bind. cbn [format_arg].
  change (find_from PCT (str "%p{a}") 0) with (Some 0%nat). cbv beta iota zeta.
  change (conversion (str "%p{a}" !! (0 + 1)%nat)) with Property. cbv beta iota. unfold mbind, PM_bind.
  change (format_property get (str "%p{a}") 0)
    with (ptry IllegalArgumentException (v ← get (str "a"); mret (trim_string v QUOTE, 5%nat)) (mret ([], 2%nat))).
  unfold ptry, mbind, PM_bind. by rewrite Hget.
Qed.

(** A property [a] whose text is an escaped reference to [a]: where another
    property names it, the reference is put in as text, found again by the scan,
    and replaced by itself. *)
Lemma replaced_reference_diverges get fuel (s : store) :
  get (str "a") s = Some (s, Ok (str "%p{a}")) ->
  format_arg (H := calm_platform) get fuel (str "%p{a}") 0 s = None.
Proof.
  intros Hget. induction fuel as [|fuel IH]; [done|]. cbn [format_arg].
  change (find_from PCT (str "%p{a}") 0) with (Some 0%nat). cbv beta iota zeta.
  change (conversion (str "%p{a}" !! (0 + 1)%nat)) with Property. cbv beta iota. unfold mbind, PM_bind.
  change (format_property get (str "%p{a}") 0)
    with (ptry IllegalArgumentException (v ← get (str "a"); mret (trim_string v QUOTE, 5%nat)) (mret ([], 2%nat))).
  unfold ptry, mbind, PM_bind. rewrite Hget. exact IH.
Qed.

Definition quoted_reference : store := <[str "a" := str "%%p{a}"]> {[ str "b" := str "%p{a}" ]}.

Lemma quoted_reference_value :
  get_property (H := calm_platform) 20 (str "a") true quoted_reference = Some (quoted_reference, Ok (str "%p{a}")).
Proof. apply (bool_decide_unpack _). vm_compute. exact I. Qed.

Lemma quoted_reference_diverges :
  format_args (H := calm_platform) (fun prop => get_property (H := calm_platform) 20 prop true) 20 (str "%p{a}")
    true true quoted_reference = None.
Proof. apply (bool_decide_unpack _). vm_compute. exact I. Qed.
