(* ===== verification/Configurator.v ===== *)
(** * Configuration files: daf/Configurator

    A profile argument names files and sections, [file:section,section;file...];
    [load_file_profile] splits it, parses each file into sections of entries and
    loads the entries of the chosen sections into the configurator's own map.
    Files are a parameter, [files]: the lines of the file a name opens, [None] if
    it does not open.  Section names are formatted with the properties of the
    repository ([PM]'s store), which is another object than the map that is
    loaded.  The command-line scan of [load] is in [ConfigLoad]; the Windows
    drive-letter case is left out. *)

From S2P Require Import Prelude CString Text Properties.
From Stdlib Require Import Ascii.

Definition HASH : ascii := "#"%char.
Definition LBRACKET : ascii := "["%char.
Definition RBRACKET : ascii := "]"%char.
Definition EQUALS : ascii := "="%char.
Definition COLON : ascii := ":"%char.
Definition COMMA : ascii := ","%char.
Definition SEMICOLON : ascii := ";"%char.

(** daf/Configurator.h:69-78 [Configurator]. *)
Definition entries := list (text * text).

(** daf/Configurator.cpp:40-44 [ConfiguratorFileLoader]. *)
Definition sections_map := gmap text entries.

(** daf/Configurator.h:50-154 [Configurator]. The map the configurator derives from and its load count. *)
Record config := Config { props : store; load_count_ : Z }.

(** ** Splitting a profile argument *)

(** A piece is kept when trimming leaves something of it. *)
Definition keep (s : text) : list text := if bool_decide (trim s <> []) then [trim s] else [].

(** daf/Configurator.cpp:295-302 [Configurator::make_config_profiles]. The do-while over one argument; the same loop is
    at lines 316-322 with a comma. *)
Fixpoint split_loop (fuel : nat) (sep : ascii) (arg : text) (pos : nat) : list text :=
  match fuel with
  | O => []
  | S fuel =>
      match find_from sep arg pos with
      | None => keep (drop pos arg)
      | Some e =>
          keep (take (e - pos) (drop pos arg))
          ++ (if (0 <? e)%nat then split_loop fuel sep arg (e + 1) else [])
      end
  end.

Definition split_arg (sep : ascii) (arg : text) : list text :=
  if bool_decide (arg <> []) then split_loop (S (length arg)) sep arg 0 else [].

(** ** The file format *)

Section configurator.
Context `{Platform} (files : text -> option (list text)).

(** daf/Configurator.cpp:287-306 [Configurator::make_config_profiles]. *)
Definition make_config_profiles (profile_arg : text) : list text :=
  concat (split_arg SEMICOLON <$> argv_of_string true (c_str profile_arg)).

(** daf/Configurator.cpp:308-327 [Configurator::make_config_sections]. The sections pushed behind those already there. *)
Definition make_config_sections (section_arg : text) (sections : list text) : list text :=
  sections ++ concat (split_arg COMMA <$> argv_of_string true (c_str section_arg)).

(** daf/Configurator.cpp:68-68 [ConfiguratorFileLoader]. *)
Definition uncomment (line : text) : text :=
  trim (match find_char HASH line with Some n => take n line | None => line end).

(** What the lines read so far have given: the sections and the current one. *)
Definition loader := (sections_map * option text)%type.

(** daf/Configurator.cpp:80-103 [ConfiguratorFileLoader]. *)
Definition load_section_line (fuel : nat) (cfgLine : text) (db : sections_map) : PM loader :=
  let invalid := pthrow InitializationException in
  match find_from RBRACKET cfgLine 1 with
  | Some pos =>
      if (1 <? pos)%nat then
        section ← format_args (fun prop => get_property fuel prop true) fuel (take (pos - 1) (drop 1 cfgLine)) true false;
        if bool_decide (section <> []) then
          mret (match db !! section with Some _ => db | None => <[section := []]> db end, Some section)
        else invalid
      else invalid
  | None => invalid
  end.

(** daf/Configurator.cpp:110-125 [ConfiguratorFileLoader]. The key and the argument of an entry. *)
Definition split_entry (cfgLine : text) : result (text * text) :=
  match find_char EQUALS cfgLine with
  | Some O => Throw InitializationException
  | Some pos => Ok (trim (take pos cfgLine), parse_args (drop (pos + 1) cfgLine) false true)
  | None => Ok (cfgLine, [])
  end.

(** daf/Configurator.cpp:127-129 [ConfiguratorFileLoader]. *)
Definition valid_key (cfgKey : text) : bool :=
  bool_decide (cfgKey <> []) && negb (0 <? find_int SPACE cfgKey 0).

(** daf/Configurator.cpp:65-141 [ConfiguratorFileLoader]. One line of the file. *)
Definition load_line (fuel : nat) (st : loader) (line : text) : PM loader :=
  let cfgLine := uncomment line in
  let '(db, it) := st in
  if bool_decide (cfgLine = []) then mret st
  else if bool_decide (char_at cfgLine 0 = LBRACKET) then load_section_line fuel cfgLine db
  else match it with
       | None => pthrow InitializationException
       | Some section =>
           match split_entry cfgLine with
           | Throw e => pthrow e
           | Ok (cfgKey, cfgArg) =>
               if valid_key cfgKey then
                 mret (<[section := default [] (db !! section) ++ [(cfgKey, cfgArg)]]> db, it)
               else pthrow InitializationException
           end
       end.

Fixpoint load_lines (fuel : nat) (st : loader) (lines : list text) : PM loader :=
  match lines with
  | [] => mret st
  | line :: lines => st ← load_line fuel st line; load_lines fuel st lines
  end.

(** daf/Configurator.cpp:46-142 [ConfiguratorFileLoader]. *)
Definition load_file (fuel : nat) (filename : text) : PM sections_map :=
  match files filename with
  | None => pthrow NotFoundException
  | Some lines => st ← load_lines fuel (∅, None) lines; mret (fst st)
  end.

(** ** Loading *)

(** daf/Configurator.cpp:329-336 [Configurator::load_property]. On the map alone. *)
Definition load_entry (s : store) (e : text * text) : store :=
  match load_property (fst e) (snd e) s with
  | Some (s, _) => s
  | None => s
  end.

(** daf/Configurator.cpp:271-276 [Configurator::load_file_sections]. *)
Definition load_entries (s : store) (l : entries) : store :=
  foldl (fun s e => load_entry s (fst e, parse_args (snd e) false true)) s l.

(** daf/Configurator.cpp:263-282 [Configurator::load_file_sections]. A section is removed from the file's map once it is loaded. *)
Fixpoint load_sections (db : sections_map) (sections : list text) (s : store) : store :=
  match sections with
  | [] => s
  | sec :: sections =>
      match db !! sec with
      | Some l => load_sections (base.delete sec db) sections (load_entries s l)
      | None => load_sections db sections s
      end
  end.

(** daf/Configurator.cpp:258-285 [Configurator::load_file_sections]. *)
Definition load_file_sections (fuel : nat) (filename : text) (sections : list text) (c : config) : PM (config * Z) :=
  db ← load_file fuel filename;
  mret (Config (load_sections db sections (props c)) (load_count_ c), 0).

(** daf/Configurator.cpp:204-226 [Configurator::load_file_profile]. The file name and the section argument of a profile. *)
Definition split_profile (profile : text) : text * text :=
  let '(filename, section_args) :=
    match find_char COLON profile with
    | Some (S p) => (trim (take (S p) profile), drop (S p + 1) profile)
    | _ => (profile, [])
    end in
  ((if 0 <? find_int SPACE filename 0 then QUOTE :: filename ++ [QUOTE] else filename), section_args).

(** daf/Configurator.cpp:228-233 [Configurator::load_file_profile]. *)
Definition standard_sections : list text :=
  str "common" :: (if bool_decide (hostname <> []) then [str "host:" ++ hostname] else []).

(** daf/Configurator.cpp:202-249 [Configurator::load_file_profile]. The result of a profile that cannot be processed
    ends the loop; a file that does not open is skipped. *)
Fixpoint load_profiles (fuel : nat) (profiles : list text) (c : config) : PM (config * Z) :=
  match profiles with
  | [] => mret (c, 0)
  | profile :: profiles =>
      let '(filename, section_args) := split_profile profile in
      let sections := make_config_sections section_args standard_sections in
      fun s =>
        match load_file_sections fuel filename sections c s with
        | None => None
        | Some (s, Ok (c, r)) =>
            if r =? 0 then load_profiles fuel profiles (Config (props c) (load_count_ c + 1)) s
            else Some (s, Ok (c, -1))
        | Some (s, Throw e) =>
            if catches NotFoundException e then load_profiles fuel profiles c s else Some (s, Ok (c, -1))
        end
  end.

(** daf/Configurator.cpp:195-256 [Configurator::load_file_profile]. *)
Definition load_file_profile (fuel : nat) (profile_arg : text) (c : config) : PM (config * Z) :=
  match make_config_profiles profile_arg with
  | [] => mret (c, -1)
  | profiles => load_profiles fuel profiles c
  end.
End configurator.

(** ** Splitting *)

(** The pieces between separators. *)
Fixpoint fields (sep : ascii) (s : text) : list text :=
  match s with
  | [] => [[]]
  | c :: s =>
      if decide (c = sep) then [] :: fields sep s
      else match fields sep s with
           | f :: fs => (c :: f) :: fs
           | [] => [[c]]
           end
  end.

Lemma fields_cut sep s1 s2 : sep ∉ s1 -> fields sep (s1 ++ sep :: s2) = s1 :: fields sep s2.
Proof.
  induction s1 as [|c s1 IH]; intros Hs; cbn [app fields]; [by rewrite decide_True|].
  apply not_elem_of_cons in Hs as [Hc Hs]. by rewrite decide_False, IH by done.
Qed.

Lemma fields_whole sep s : sep ∉ s -> fields sep s = [s].
Proof.
  induction s as [|c s IH]; intros Hs; cbn [fields]; [done|].
  apply not_elem_of_cons in Hs as [Hc Hs]. by rewrite decide_False, IH by done.
Qed.

Lemma split_loop_fields fuel sep pre s :
  (length s < fuel)%nat -> (pre <> [] \/ head s <> Some sep) ->
  split_loop fuel sep (pre ++ s) (length pre) = concat (keep <$> fields sep s).
Proof.
  revert pre s. induction fuel as [|fuel IH]; intros pre s Hf Hp; [lia|].
  cbn [split_loop]. rewrite find_from_app, drop_app_length.
  destruct (find_char sep s) as [i|] eqn:E; cbn [fmap option_fmap option_map].
  2: { apply find_char_None in E. rewrite fields_whole by done. cbn. by rewrite app_nil_r. }
  apply find_char_Some in E as (s1 & s2 & -> & <- & Hs1). rewrite fields_cut by done.
  cbn [fmap list_fmap concat]. f_equal.
  - f_equal. rewrite Nat.add_sub_swap, Nat.sub_diag by lia. apply take_app_length.
  - rewrite (proj2 (Nat.ltb_lt 0 _)).
    2: { destruct Hp as [Hp|Hp]; [destruct pre; [done|]; simpl; lia|].
         destruct s1; [by destruct Hp|]. simpl. lia. }
    replace (pre ++ s1 ++ sep :: s2) with ((pre ++ s1 ++ [sep]) ++ s2) by (by rewrite <- !app_assoc).
    replace (length pre + length s1 + 1)%nat with (length (pre ++ s1 ++ [sep]))
      by (rewrite !length_app; simpl; lia).
    apply IH; [rewrite length_app in Hf; simpl in Hf; lia|]. left. by destruct pre, s1.
Qed.

Lemma split_arg_fields sep arg :
  split_arg sep arg = match arg with
                      | [] => []
                      | c :: _ => if decide (c = sep) then [] else concat (keep <$> fields sep arg)
                      end.
Proof.
  unfold split_arg. destruct arg as [|c arg]; [done|]. rewrite bool_decide_true by done.
  destruct (decide (c = sep)) as [->|Hc].
  - cbn [split_loop]. unfold find_from. cbn [drop find_char]. by rewrite decide_True.
  - apply (split_loop_fields _ _ []); [lia|]. right. simpl. congruence.
Qed.

(** The inverse of splitting. *)
Fixpoint join (sep : ascii) (l : list text) : text :=
  match l with
  | [] => []
  | [s] => s
  | s :: l => s ++ sep :: join sep l
  end.

(** A name that survives splitting. *)
Definition name_ok (sep : ascii) (s : text) : Prop := s <> [] /\ trim s = s /\ sep ∉ s.

Lemma keep_ok sep s : name_ok sep s -> keep s = [s].
Proof. intros (Hs & Ht & _). unfold keep. rewrite Ht. by rewrite bool_decide_true. Qed.

Lemma fields_join sep l : l <> [] -> Forall (name_ok sep) l -> concat (keep <$> fields sep (join sep l)) = l.
Proof.
  intros Hl H. induction H as [|s l Hs H IH]; [done|]. destruct l as [|s' l].
  - cbn [join]. rewrite fields_whole by apply Hs. cbn. by rewrite (keep_ok sep), app_nil_r.
  - change (join sep (s :: s' :: l)) with (s ++ sep :: join sep (s' :: l)). rewrite fields_cut by apply Hs. rewrite fmap_cons. cbn [concat].
    rewrite (keep_ok sep) by done. by rewrite IH.
Qed.

Lemma join_head sep l :
  l <> [] -> Forall (name_ok sep) l -> exists c s, join sep l = c :: s /\ c <> sep.
Proof.
  intros Hl H. destruct H as [|s l (Hs & _ & Hsep) _]; [done|]. destruct s as [|c s]; [done|].
  apply not_elem_of_cons in Hsep as [Hc _]. 
  destruct l as [|t l]; [by exists c, s; split; [|intros ->]|].
  exists c, (s ++ sep :: join sep (t :: l)). split; [done|congruence].
Qed.

(** ** Loading order *)

Lemma load_entry_lookup s e k :
  load_entry s e !! k = if decide (fst e = k) then
                          if decide (snd e = []) then Some (default [] (s !! k)) else Some (snd e)
                        else s !! k.
Proof.
  destruct e as [x v]. unfold load_entry, load_property, store in *. cbn [fst snd].
  destruct (decide (x = k)) as [->|Hx].
  - destruct (decide (v = [])) as [->|Hv].
    + rewrite (bool_decide_false ([] <> [])) by naive_solver. cbn [orb].
      case_bool_decide as E; [rewrite lookup_insert_eq, E; done|]. by destruct (s !! k).
    + rewrite (bool_decide_true (v <> [])) by done. cbn [orb]. by rewrite lookup_insert_eq.
  - destruct (_ || _); [by rewrite lookup_insert_ne|done].
Qed.

Section loading.
Context `{Platform}.

(** The values that a list of entries has for a key, in order. *)
Definition values (k : text) (l : list (text * text)) : list text :=
  (fun e => parse_args (snd e) false true) <$> filter (fun e => fst e = k) l.

(** A key after its values are loaded: the last text, or what was there; empty
    when only empty values are known. *)
Definition loaded (vs : list text) (old : option text) : option text :=
  match last (filter (fun v => v <> []) vs), old, vs with
  | Some v, _, _ => Some v
  | None, Some v, _ => Some v
  | None, None, [] => None
  | None, None, _ => Some []
  end.

Lemma loaded_cons v vs old :
  loaded (v :: vs) old = loaded vs (if decide (v = []) then Some (default [] old) else Some v).
Proof.
  unfold loaded. rewrite filter_cons. destruct (decide (v = [])) as [->|Hv].
  - rewrite decide_False by naive_solver. repeat case_match; simplify_eq/=; done.
  - rewrite decide_True by done. rewrite last_cons. by destruct (last (filter _ vs)).
Qed.

Lemma load_entries_lookup s l k : load_entries s l !! k = loaded (values k l) (s !! k).
Proof.
  revert s. induction l as [|[x v] l IH]; intros s.
  - unfold loaded. cbn. by destruct (s !! k).
  - change (load_entries s ((x, v) :: l)) with (load_entries (load_entry s (x, parse_args v false true)) l).
    rewrite IH, load_entry_lookup. cbn [fst snd]. unfold values. rewrite filter_cons. cbn [fst].
    destruct (decide (x = k)) as [->|Hx]; [|done]. cbn [fmap list_fmap snd]. by rewrite loaded_cons.
Qed.

(** The sections in the order of their first mention. *)
Fixpoint nub (l : list text) : list text :=
  match l with
  | [] => []
  | x :: l => x :: filter (fun y => y <> x) (nub l)
  end.

Definition chosen (db : sections_map) (sections : list text) : entries :=
  concat ((fun sec => default [] (db !! sec)) <$> nub sections).

Lemma concat_skip (f g : text -> entries) x l :
  f x = [] -> (forall y, y <> x -> g y = f y) ->
  concat (g <$> filter (fun y => y <> x) l) = concat (f <$> l).
Proof.
  intros Hx Hg. induction l as [|y l IH]; [done|]. rewrite filter_cons.
  destruct (decide (y = x)) as [->|Hy].
  - rewrite decide_False by naive_solver. cbn. by rewrite Hx.
  - rewrite decide_True by done. cbn. by rewrite IH, Hg.
Qed.

Lemma load_sections_chosen db sections s : load_sections db sections s = load_entries s (chosen db sections).
Proof.
  revert db s. induction sections as [|sec sections IH]; intros db s; [done|].
  change (chosen db (sec :: sections)) with (default [] (db !! sec)
    ++ concat ((fun sec => default [] (db !! sec)) <$> filter (fun y => y <> sec) (nub sections))).
  cbn [load_sections]. destruct (db !! sec) as [l|] eqn:E; rewrite IH.
  - change (default [] (Some l)) with l. unfold load_entries at 3. rewrite foldl_app.
    fold (load_entries s l). apply (f_equal (load_entries (load_entries s l))).
    symmetry. apply concat_skip.
    + exact (f_equal (default []) (lookup_delete_eq (M := gmap text) db sec)).
    + intros y Hy. exact (f_equal (default []) (eq_sym (lookup_delete_ne (M := gmap text) db sec y (not_eq_sym Hy)))).
  - apply (f_equal (load_entries s)). symmetry. apply concat_skip; [exact (f_equal (default []) E)|done].
Qed.
End loading.

(** ** Printing and parsing a file *)

Section file.
Context `{Platform}.

(** A text that formatting and argument parsing leave alone. *)
Record plain (s : text) : Prop := {
  pl_argv : forall b, argv_of_string b (c_str s) = [s];
  pl_args : forall b, argv_of_args b [s] = [s];
  pl_trim : trim s = s;
  pl_some : s <> [];
  pl_pct : PCT ∉ s;
}.

Lemma format_plain get fuel s b st :
  plain s -> (0 < fuel)%nat -> format_args get fuel s b false st = Some (st, Ok s).
Proof.
  intros [Hv Ha Ht Hs Hp] Hf. destruct fuel as [|fuel]; [lia|].
  unfold format_args. rewrite Hv. cbn [format_list]. unfold mbind, PM_bind. cbn [format_arg].
  assert (find_from PCT s 0 = None) as ->.
  { pose proof (find_from_pct [] s [] Hp) as E. cbn [app length] in E. by rewrite app_nil_r in E. }
  cbn [mret PM_ret]. rewrite bool_decide_true by done. unfold argv_add. rewrite Ha.
  cbn [fmap list_fmap app]. rewrite Ht, Ha. unfold parse_argv. cbn [foldl]. unfold parse_argv_step. rewrite Ht.
  by destruct s.
Qed.

(** The lines of a section. *)
Definition section_line (sec : text) : text := LBRACKET :: sec ++ [RBRACKET].
Definition entry_line (e : text * text) : text := fst e ++ EQUALS :: snd e.

Definition print_config (cfg : list (text * entries)) : list text :=
  concat ((fun x => section_line (fst x) :: (entry_line <$> snd x)) <$> cfg).

Record section_ok (sec : text) : Prop := {
  so_plain : plain sec;
  so_line : trim (section_line sec) = section_line sec;
  so_chars : (HASH ∉ sec) /\ (RBRACKET ∉ sec);
}.

Record entry_ok (e : text * text) : Prop := {
  eo_line : trim (entry_line e) = entry_line e;
  eo_key : trim (fst e) = fst e /\ fst e <> [] /\ (HASH ∉ fst e) /\ (EQUALS ∉ fst e) /\ (SPACE ∉ fst e);
  eo_head : head (fst e) <> Some LBRACKET;
  eo_value : parse_args (snd e) false true = snd e /\ (HASH ∉ snd e);
}.

Lemma uncomment_line s : trim s = s -> HASH ∉ s -> uncomment s = s.
Proof. intros Ht Hh. unfold uncomment. by rewrite find_char_absent. Qed.

Lemma load_section_ok fuel sec (db : sections_map) it st :
  section_ok sec -> (0 < fuel)%nat -> db !! sec = None ->
  load_line fuel (db, it) (section_line sec) st = Some (st, Ok (<[sec := []]> db, Some sec)).
Proof.
  intros [Hp Hl [Hh Hb]] Hf Hdb. unfold load_line. rewrite uncomment_line; [|done|].
  2: { unfold section_line. rewrite not_elem_of_cons, not_elem_of_app, list_elem_of_singleton. done. }
  unfold section_line. rewrite bool_decide_false by done.
  rewrite bool_decide_true by done. unfold load_section_line, find_from. cbn [drop].
  rewrite !drop_0, find_char_cut by done. cbn [fmap option_fmap option_map].
  pose proof (pl_some _ Hp). rewrite (proj2 (Nat.ltb_lt 1 _)) by (destruct sec; [done|simpl; lia]).
  replace (1 + length sec - 1)%nat with (length sec) by lia. rewrite take_app_length.
  unfold mbind, PM_bind. rewrite format_plain by done. rewrite bool_decide_true by done. by rewrite Hdb.
Qed.

Lemma load_entry_ok fuel sec e (db : sections_map) l st :
  entry_ok e -> db !! sec = Some l ->
  load_line fuel (db, Some sec) (entry_line e) st = Some (st, Ok (<[sec := l ++ [e]]> db, Some sec)).
Proof.
  destruct e as [k v]. intros [Hl (Hk & Hne & Hh & Heq & Hs) Hb [Hv Hhv]] Hdb. cbn [fst snd] in *.
  unfold load_line. rewrite uncomment_line; [|done|].
  2: { unfold entry_line. cbn [fst snd]. rewrite not_elem_of_app, not_elem_of_cons. done. }
  unfold entry_line. cbn [fst snd]. rewrite bool_decide_false by (by destruct k).
  rewrite bool_decide_false by (destruct k; [done|]; intros E; apply Hb; by rewrite <- E).
  unfold split_entry. rewrite find_char_cut by done.
  destruct k as [|c k]; [done|]. cbn [length]. change (S (length k)) with (length (c :: k)).
  rewrite take_app_length, Hk.
  rewrite drop_app_ge by lia. replace (length (c :: k) + 1 - length (c :: k))%nat with 1%nat by lia. cbn [drop].
  rewrite drop_0, Hv. unfold valid_key, find_int, find_from. rewrite drop_0. rewrite find_char_absent by done.
  rewrite bool_decide_true by done. cbn [fmap option_fmap option_map]. cbn [andb negb Z.ltb Z.compare].
  by rewrite Hdb.
Qed.

Lemma load_entries_ok fuel sec l db l0 st :
  Forall entry_ok l -> db !! sec = Some l0 ->
  load_lines fuel (db, Some sec) (entry_line <$> l) st = Some (st, Ok (<[sec := l0 ++ l]> db, Some sec)).
Proof.
  intros Hl. revert db l0. induction Hl as [|e l He Hl IH]; intros db l0 Hdb.
  - cbn. rewrite app_nil_r. unfold sections_map in *. by rewrite insert_id.
  - rewrite fmap_cons. cbn [load_lines]. unfold mbind, PM_bind. rewrite (load_entry_ok _ _ _ _ l0) by done.
    unfold sections_map in *. rewrite (IH _ (l0 ++ [e])) by (by rewrite lookup_insert_eq).
    by rewrite insert_insert_eq, <- app_assoc.
Qed.

Lemma load_lines_app fuel x l1 l2 st y st' :
  load_lines fuel x l1 st = Some (st', Ok y) ->
  load_lines fuel x (l1 ++ l2) st = load_lines fuel y l2 st'.
Proof.
  revert x st. induction l1 as [|s l1 IH]; intros x st; cbn [load_lines app].
  - by intros [= <- <-].
  - unfold mbind, PM_bind. destruct (load_line _ _ _ _) as [[s1 [z|e]]|]; [|done..]. apply IH.
Qed.

Lemma load_config_ok fuel cfg (db : sections_map) it st :
  Forall (fun x => section_ok (fst x) /\ Forall entry_ok (snd x)) cfg -> NoDup (fst <$> cfg) ->
  (forall x, x ∈ cfg -> db !! fst x = None) -> (0 < fuel)%nat ->
  exists it', load_lines fuel (db, it) (print_config cfg) st
              = Some (st, Ok (list_to_map cfg ∪ db, it')).
Proof.
  intros Hc. revert db it. induction Hc as [|[sec es] cfg [Hsec Hes] Hc IH]; intros db it Hnd Hdb Hf.
  - exists it. cbn. unfold sections_map in *. by rewrite (left_id_L ∅ _).
  - cbn [fst snd] in *. rewrite fmap_cons in Hnd. apply NoDup_cons in Hnd as [Hn Hnd].
    unfold sections_map in *.
    assert (db !! sec = None) as Hs by (apply (Hdb (sec, es)), list_elem_of_here).
    assert (forall x, x ∈ cfg -> <[sec := es]> db !! fst x = None) as Hdb'.
    { intros x Hx. rewrite lookup_insert_ne.
      - by apply Hdb, list_elem_of_further.
      - intros ->. exact (Hn (list_elem_of_fmap_2 fst cfg x Hx)). }
    destruct (IH (<[sec := es]> db) (Some sec) Hnd Hdb' Hf) as [it' IH'].
    exists it'. unfold print_config. rewrite fmap_cons. cbn [concat fst snd app load_lines].
    unfold mbind, PM_bind. rewrite load_section_ok by done.
    erewrite load_lines_app.
    2: { apply (load_entries_ok _ _ _ _ []); [done|]. apply (lookup_insert_eq (M := gmap text)). }
    unfold sections_map in *. rewrite insert_insert_eq. cbn [app]. unfold print_config in IH'. etrans; [exact IH'|].
    assert (list_to_map cfg ∪ <[sec := es]> db = list_to_map ((sec, es) :: cfg) ∪ db) as ->; [|done].
    cbn [list_to_map foldr fst snd]. rewrite <- insert_union_l. symmetry. apply insert_union_r.
    by apply not_elem_of_list_to_map_1.
Qed.
End file.

(** ** The claims *)

(** A profile or section argument is cut at every separator, and what trimming
    leaves of the pieces is kept in order; an argument that begins with the separator gives
    nothing at all.  Names without the separator that trimming leaves alone survive
    joining and cutting. *)
Theorem split_arg_spec sep arg names :
  split_arg sep arg = match arg with
                      | [] => []
                      | c :: _ => if decide (c = sep) then [] else concat (keep <$> fields sep arg)
                      end
  /\ (names <> [] -> Forall (name_ok sep) names -> split_arg sep (join sep names) = names).
Proof.
  split; [apply split_arg_fields|]. intros Hne Hok. rewrite split_arg_fields.
  destruct (join_head sep names Hne Hok) as (c & s & E & Hc).
  rewrite <- (fields_join sep names) at 2 by done. rewrite E. by rewrite decide_False.
Qed.

(** After the sections are loaded, a key has the last non-empty value among
    the entries of the sections in the order of their first mention; without one it keeps
    what it had, and is present but empty if it had nothing.  Sections mentioned again, and sections
    the file does not have, change nothing. *)
Theorem load_sections_lookup `{Platform} db sections s k :
  load_sections db sections s !! k = loaded (values k (chosen db sections)) (s !! k).
Proof. rewrite load_sections_chosen. apply load_entries_lookup. Qed.

(** C37 (roundtrip). A configuration is printed, a line [section] before the lines key=value of its entries. Let its
    sections have different names, each with text, that neither trimming nor the parser of arguments changes and
    that has no percent sign, # or ]; let each key have text, be trimmed, have no #, = or space and not begin
    with [; let each value have no #, be what the parser of arguments makes of it, and leave nothing to trim at the
    end of its line. Then reading the printed lines gives back the sections with their entries in order, whatever
    the repository of properties holds, and leaves that as it is. *)
Theorem load_file_print `{Platform} files fuel filename cfg st :
  files filename = Some (print_config cfg) ->
  Forall (fun x => section_ok (fst x) /\ Forall entry_ok (snd x)) cfg -> NoDup (fst <$> cfg) -> (0 < fuel)%nat ->
  load_file files fuel filename st = Some (st, Ok (list_to_map cfg)).
Proof.
  intros Hfile Hok Hnd Hf. unfold load_file. rewrite Hfile. unfold mbind, PM_bind.
  destruct (load_config_ok fuel cfg ∅ None st Hok Hnd (fun _ _ => lookup_empty _) Hf) as [it' ->].
  cbn. unfold sections_map. by rewrite (right_id_L ∅ _).
Qed.

(** ** A concrete file *)

Definition demo_config : list (text * entries) :=
  [(str "common", [(str "Name", str "value one"); (str "Flag", [])]); (str "host:h1", [(str "Name", str "other")])].

Definition demo_files : text -> option (list text) :=
  fun name => if decide (name = str "demo.conf") then Some (print_config demo_config) else None.

Lemma demo_lines :
  print_config demo_config
  = str <$> ["[common]"; "Name=value one"; "Flag="; "[host:h1]"; "Name=other"]%string.
Proof. vm_compute. reflexivity. Qed.

(** Texts without spaces are plain for the platform that cuts at spaces. *)
Lemma word_plain s :
  bool_decide (c_str s = s /\ words [] s = [s] /\ trim s = s /\ s <> [] /\ PCT ∉ s) = true -> plain (H := calm_platform) s.
Proof. intros (Hc & Hw & Ht & Hs & Hp)%bool_decide_eq_true. split; try done. intros b. cbn. by rewrite Hc. Qed.

Lemma demo_config_ok :
  Forall (fun x => section_ok (H := calm_platform) (fst x) /\ Forall (entry_ok (H := calm_platform)) (snd x)) demo_config.
Proof.
  repeat constructor; cbn [fst snd];
    first [apply word_plain; vm_compute; reflexivity | apply (bool_decide_unpack _); vm_compute; exact I].
Qed.

Lemma load_file_print_witness :
  load_file (H := calm_platform) demo_files 9 (str "demo.conf") greeting
  = Some (greeting, Ok (list_to_map demo_config)).
Proof.
  apply (@load_file_print calm_platform); [vm_compute; reflexivity|exact demo_config_ok| |lia].
  apply (bool_decide_unpack _). vm_compute. exact I.
Defined.

Lemma split_arg_spec_witness :
  split_arg SEMICOLON (str "a.conf:x,y;b.conf") = [str "a.conf:x,y"; str "b.conf"].
Proof.
  apply (proj2 (split_arg_spec SEMICOLON [] [str "a.conf:x,y"; str "b.conf"])); [done|].
  repeat constructor; try done; apply (bool_decide_unpack _); vm_compute; exact I.
Defined.

(** The whole of [load_file_profile]: common entries first, the host's over them. *)
Lemma load_demo_profile :
  (fun r => match r with
            | (_, Ok (c, z)) => (props c !! str "Name", props c !! str "Flag", load_count_ c, z)
            | _ => (None, None, 0, 0)
            end)
  <$> load_file_profile (H := calm_platform) demo_files 9 (str "demo.conf:extra;none.conf") (Config ∅ 0) ∅
  = Some (Some (str "other"), Some [], 1, 0).
Proof. vm_compute. reflexivity. Qed.

(** ** What the splitting loses *)

(** A leading separator hides every section behind it. *)
Lemma leading_separator_drops_all sep s : split_arg sep (sep :: s) = [].
Proof. rewrite split_arg_fields. by rewrite decide_True. Qed.

(** A file name with a space is wrapped in quotes, and the wrapped name is opened. *)
Lemma spaced_file_not_found fuel files c s :
  files (str "'my file'") = None ->
  load_file_sections (H := calm_platform) files fuel (fst (split_profile (str "my file:a"))) [] c s
  = Some (s, Throw NotFoundException).
Proof. intros Hf. unfold load_file_sections, load_file, mbind, PM_bind. vm_compute (split_profile _). cbn [fst]. unfold str in Hf. cbn in Hf. by rewrite Hf. Qed.
