(* ===== verification/Channel.v ===== *)
(** * Bounded channels: daf/Channel_T.h, daf/SemaphoreControlled*_T

    A channel is a container guarded by two semaphores: [putGuard_] counts free
    places, [takeGuard_] items ready to be taken.  The semaphores are the counters
    that [Semaphore] refines; an acquire that finds no permit blocks, and a timeout
    or an interruption may end it.  The container is the class [Container]: the
    list of SemaphoreControlledQueue, or the heap of
    SemaphoreControlledPriorityChannel.  Copying an item may throw.  [inserted] and
    [taken] record what has gone through the container; no step reads them. *)

From S2P Require Import Prelude Threads Monitor.

(** ** Containers *)

(** What a channel needs of its container: [front] is undefined on an empty one. *)
Class Container (T Q : Type) := {
  c_items : Q -> list T;
  c_push : T -> Q -> Q;
  c_front : Q -> option T;
  c_pop : Q -> Q;
}.

Class ContainerLaws (T Q : Type) `{Container T Q} : Prop := {
  c_push_items : forall x q, c_items (c_push x q) ≡ₚ x :: c_items q;
  c_front_some : forall q, c_items q <> [] -> is_Some (c_front q);
  c_pop_items : forall q x, c_front q = Some x -> c_items q ≡ₚ x :: c_items (c_pop q);
}.

(** daf/SemaphoreControlledQueue_T.h:38-64 [SemaphoreControlledQueue]. A std::list: push_back, front and pop_front. *)
#[export] Instance fifo (T : Type) : Container T (list T) := {|
  c_items := fun l => l;
  c_push := fun x l => l ++ [x];
  c_front := head;
  c_pop := tail;
|}.

#[export] Instance fifo_laws (T : Type) : ContainerLaws T (list T).
Proof.
  split; simpl.
  - intros x q. symmetry. apply Permutation_cons_append.
  - intros [|x q] Hq; [done|]. by exists x.
  - intros [|y q] x Hq; [done|]. by injection Hq as ->.
Qed.

(** daf/SemaphoreControlledPriorityChannel_T.h:37-64 [SemaphoreControlledPriorityChannel]. A std::priority_queue: [top] is an element that no other exceeds. Among
    equals the standard leaves the choice open; the model takes the oldest. *)
Record heap (T : Type) := Heap { heap_items : list T }.
Arguments Heap {T} _.
Arguments heap_items {T} _.

Section priority.
Context {T : Type} (less : T -> T -> bool).

(** The first maximal element, and the others. *)
Fixpoint select (x : T) (l : list T) : T * list T :=
  match l with
  | [] => (x, [])
  | y :: l => if less x y then let '(m, r) := select y l in (m, x :: r)
              else let '(m, r) := select x l in (m, y :: r)
  end.

Definition priority : Container T (heap T) := {|
  c_items := heap_items;
  c_push := fun x q => Heap (heap_items q ++ [x]);
  c_front := fun q => match heap_items q with [] => None | x :: l => Some (fst (select x l)) end;
  c_pop := fun q => Heap (match heap_items q with [] => [] | x :: l => snd (select x l) end);
|}.

Lemma select_perm x l : x :: l ≡ₚ fst (select x l) :: snd (select x l).
Proof.
  revert x. induction l as [|y l IH]; intros x; [done|]. cbn [select].
  destruct (less x y).
  - specialize (IH y). destruct (select y l) as [m r]. cbn [fst snd] in *.
    rewrite IH. apply perm_swap.
  - specialize (IH x). destruct (select x l) as [m r]. cbn [fst snd] in *.
    rewrite (perm_swap y x l), IH. apply perm_swap.
Qed.

Lemma priority_laws : @ContainerLaws T (heap T) priority.
Proof.
  split; simpl.
  - intros x q. symmetry. apply Permutation_cons_append.
  - intros [[|x l]] Hq; [done|]. simpl. eauto.
  - intros [[|y l]] x Hq; [done|]. simpl in *. injection Hq as <-. apply select_perm.
Qed.

(** [less] is a strict weak order, as std::priority_queue requires. *)
Class WeakOrder : Prop := {
  less_irrefl : forall x, less x x = false;
  less_trans : forall x y z, less x y = true -> less y z = true -> less x z = true;
  less_weak : forall x y z, less x y = true -> less x z = true \/ less z y = true;
}.

Lemma select_max `{WeakOrder} x l y : y ∈ x :: l -> less (fst (select x l)) y = false.
Proof.
  assert (forall l x, less (fst (select x l)) x = false /\ forall y, y ∈ l -> less (fst (select x l)) y = false) as Hs.
  { clear x l y. induction l as [|z l IH]; intros x; cbn [select].
    - split; [apply less_irrefl|]. intros y []%elem_of_nil.
    - destruct (less x z) eqn:E.
      + destruct (IH z) as [Hz Hl]. destruct (select z l) as [m r]. cbn [fst] in *.
        split; [|intros y [->|Hy]%elem_of_cons; auto].
        destruct (less m x) eqn:Em; [|done]. rewrite (less_trans m x z) in Hz; done.
      + destruct (IH x) as [Hx Hl]. destruct (select x l) as [m r]. cbn [fst] in *.
        split; [done|]. intros y [->|Hy]%elem_of_cons; [|auto].
        destruct (less m z) eqn:Em; [|done].
        destruct (less_weak m z x Em) as [|]; congruence. }
  destruct (Hs l x) as [Hx Hl]. intros [->|Hy]%elem_of_cons; auto.
Qed.
End priority.

(** ** State *)

(** A semaphore as its clients see it. *)
Record gate := Gate { g_permits : Z; g_interrupted : bool }.

Section channel.
Context {T Q : Type} `{Container T Q} (empty : Q).

(** daf/SemaphoreControlledChannel_T.h:37-69 [SemaphoreControlledChannel]. *)
Record chan := mkChan {
  chan_mon : monitor;
  putGuard_ : gate;
  takeGuard_ : gate;
  channelQ_ : Q;
  inserted : list T;
  taken : list T;
}.

(** daf/SemaphoreControlledChannel_T.cpp:28-32 [SemaphoreControlledChannel::SemaphoreControlledChannel]. *)
Definition chan_init (capacity : Z) : chan :=
  mkChan mon_init (Gate (to_int capacity) false) (Gate 0 false) empty [] [].

Definition chan_with_mon (s : chan) (m : monitor) : chan :=
  mkChan m (putGuard_ s) (takeGuard_ s) (channelQ_ s) (inserted s) (taken s).
Definition add_put (n : Z) (s : chan) : chan :=
  mkChan (chan_mon s) (Gate (g_permits (putGuard_ s) + n) (g_interrupted (putGuard_ s))) (takeGuard_ s)
         (channelQ_ s) (inserted s) (taken s).
Definition add_take (n : Z) (s : chan) : chan :=
  mkChan (chan_mon s) (putGuard_ s) (Gate (g_permits (takeGuard_ s) + n) (g_interrupted (takeGuard_ s)))
         (channelQ_ s) (inserted s) (taken s).

(** daf/SemaphoreControlledQueue_T.cpp:37-37 [SemaphoreControlledQueue::insert]. Also SemaphoreControlledPriorityChannel_T.cpp:38. *)
Definition do_push (v : T) (s : chan) : chan :=
  mkChan (chan_mon s) (putGuard_ s) (takeGuard_ s) (c_push v (channelQ_ s)) (inserted s ++ [v]) (taken s).
(** daf/SemaphoreControlledQueue_T.cpp:46-46 [SemaphoreControlledQueue::extract]. Also SemaphoreControlledPriorityChannel_T.cpp:47. *)
Definition do_pop (v : T) (s : chan) : chan :=
  mkChan (chan_mon s) (putGuard_ s) (takeGuard_ s) (c_pop (channelQ_ s)) (inserted s) (taken s ++ [v]).

(** daf/SemaphoreControlledChannel_T.cpp:46-50 [SemaphoreControlledChannel::size]. *)
Definition chan_size (s : chan) : Z := g_permits (takeGuard_ s).
(** daf/SemaphoreControlledChannel_T.cpp:39-44 [SemaphoreControlledChannel::capacity]. *)
Definition chan_capacity (s : chan) : Z := g_permits (putGuard_ s) + g_permits (takeGuard_ s).

(** Who wants an item: a [take], or [clear], which takes until it fails. *)
Inductive taker := TakeOne (timed : bool) | TakeAll.

Definition taker_timed (k : taker) : bool := match k with TakeOne timed => timed | TakeAll => true end.

Inductive reply := PutReply (r : result Z) | TakeReply (r : result T) | Replied (r : Z).

(** Program counters. *)
Inductive hpc :=
| HIdle
| PTest (v : T) (timed : bool)      (* if (this->interrupted()) *)
| PAcquire (v : T) (timed : bool)   (* this->putGuard_.acquire(abstime) *)
| PLock (v : T)                     (* insert: the guard takes the mutex *)
| PInsert (v : T)                   (* push_back(t) or push(t) *)
| PUnlock (r : option daf_exn)      (* the guard gives the mutex up *)
| PRelease                          (* this->takeGuard_.release(); return 0 *)
| PUndo (e : daf_exn)               (* catch (...): this->putGuard_.release(); throw *)
| KTest (k : taker)                 (* if (this->interrupted()) *)
| KAcquire (k : taker)              (* this->takeGuard_.acquire(abstime) *)
| KLock (k : taker)                 (* extract: the guard takes the mutex *)
| KFront (k : taker)                (* t = front() or top() *)
| KPop (k : taker) (v : T)          (* pop_front() or pop() *)
| KUnlock (k : taker) (r : result T)  (* the guard gives the mutex up *)
| KRelease (k : taker) (v : T)      (* this->putGuard_.release(); return t *)
| KUndo (k : taker) (e : daf_exn)   (* catch (...): this->takeGuard_.release(); throw *)
| HIntr (i : nat) (r : Z)           (* interrupt: the monitor and the two semaphores *)
| HDone (r : reply)
| HFault.                           (* front() of an empty container *)

(** How an acquire ends, whether a copy throws, what an interruption returns. *)
Inductive acquired := Permit | TimedOut | Interrupted.
Inductive hchoice :=
| HPut (v : T) (timed : bool)
| HTake (timed : bool)
| HClear
| HInterrupt
| HGo (a : acquired) (fail : option daf_exn) (r : Z).

(** ** Operations *)

(** A failed [take] ends it; [clear] swallows the exception and returns. *)
Definition take_throws (k : taker) (e : daf_exn) : hpc :=
  match k with
  | TakeOne _ => HDone (TakeReply (Throw e))
  | TakeAll => HDone (Replied 0)
  end.

(** daf/SemaphoreControlledChannel_T.cpp:52-74 [SemaphoreControlledChannel::put]. *)
Definition put_next (a : acquired) (fail : option daf_exn) (t : nat) (s : chan) (p : hpc) : option (chan * hpc) :=
  match p with
  | PTest v timed =>
      Some (s, if interrupted_ (chan_mon s) then HDone (PutReply (Throw InterruptedException)) else PAcquire v timed)
  | PAcquire v timed =>
      match a with
      | Permit => if 0 <? g_permits (putGuard_ s) then Some (add_put (-1) s, PLock v) else None
      | TimedOut => if timed then Some (s, HDone (PutReply (Ok (-1)))) else None
      | Interrupted => if g_interrupted (putGuard_ s) then Some (s, HDone (PutReply (Throw InterruptedException)))
                       else None
      end
  | PLock v => m ← lock t (chan_mon s); Some (chan_with_mon s m, PInsert v)
  | PInsert v =>
      match fail with
      | None => Some (do_push v s, PUnlock None)
      | Some e => Some (s, PUnlock (Some e))
      end
  | PUnlock r =>
      Some (chan_with_mon s (unlock (chan_mon s)), match r with None => PRelease | Some e => PUndo e end)
  | PRelease => Some (add_take 1 s, HDone (PutReply (Ok 0)))
  | PUndo e => Some (add_put 1 s, HDone (PutReply (Throw e)))
  | _ => None
  end.

(** daf/SemaphoreControlledChannel_T.cpp:76-107 [SemaphoreControlledChannel::take]. *)
Definition take_next (a : acquired) (fail : option daf_exn) (t : nat) (s : chan) (p : hpc) : option (chan * hpc) :=
  match p with
  | KTest k =>
      Some (s, if interrupted_ (chan_mon s) then take_throws k InterruptedException else KAcquire k)
  | KAcquire k =>
      match a with
      | Permit => if 0 <? g_permits (takeGuard_ s) then Some (add_take (-1) s, KLock k) else None
      | TimedOut => if taker_timed k then Some (s, take_throws k TimeoutException) else None
      | Interrupted => if g_interrupted (takeGuard_ s) then Some (s, take_throws k InterruptedException) else None
      end
  | KLock k => m ← lock t (chan_mon s); Some (chan_with_mon s m, KFront k)
  | KFront k =>
      match c_front (channelQ_ s), fail with
      | None, _ => Some (s, HFault)
      | Some v, None => Some (s, KPop k v)
      | Some _, Some e => Some (s, KUnlock k (Throw e))
      end
  | KPop k v => Some (do_pop v s, KUnlock k (Ok v))
  | KUnlock k r =>
      Some (chan_with_mon s (unlock (chan_mon s)), match r with Ok v => KRelease k v | Throw e => KUndo k e end)
  | KRelease k v =>
      Some (add_put 1 s, match k with TakeOne _ => HDone (TakeReply (Ok v)) | TakeAll => KTest TakeAll end)
  | KUndo k e => Some (add_take 1 s, take_throws k e)
  | _ => None
  end.

(** daf/SemaphoreControlledChannel_T.cpp:109-118 [SemaphoreControlledChannel::interrupt]. The three flags, one after another; [z] is what
    [interrupt] of the monitor or the semaphore returns. *)
Definition interrupt_next (z : Z) (s : chan) (i : nat) (r : Z) : chan * hpc :=
  let m := chan_mon s in
  match i with
  | 0%nat => (chan_with_mon s (mkMon (owner m) true (waiters_ m)), HIntr 1 (r + z))
  | 1%nat => (mkChan m (Gate (g_permits (putGuard_ s)) true) (takeGuard_ s) (channelQ_ s) (inserted s) (taken s),
              HIntr 2 (r + z))
  | _ => (mkChan m (putGuard_ s) (Gate (g_permits (takeGuard_ s)) true) (channelQ_ s) (inserted s) (taken s),
          HDone (Replied (if r + z =? 0 then 0 else -1)))
  end.

(** daf/Channel_T.h:122-204 [Channel]. One step of a thread; [offer] and [poll] are [put] and [take] with a deadline, [clear] polls
    until that fails. *)
Definition chan_local (ch : hchoice) (t : nat) (s : chan) (p : hpc) : option (chan * hpc * effect) :=
  match ch, p with
  | HPut v timed, HIdle => Some (s, PTest v timed, ENone)
  | HTake timed, HIdle => Some (s, KTest (TakeOne timed), ENone)
  | HClear, HIdle => Some (s, KTest TakeAll, ENone)
  | HInterrupt, HIdle => Some (s, HIntr 0 0, ENone)
  | HGo a fail _, (PTest _ _ | PAcquire _ _ | PLock _ | PInsert _ | PUnlock _ | PRelease | PUndo _) =>
      '(s, p) ← put_next a fail t s p; Some (s, p, ENone)
  | HGo a fail _, (KTest _ | KAcquire _ | KLock _ | KFront _ | KPop _ _ | KUnlock _ _ | KRelease _ _ | KUndo _ _) =>
      '(s, p) ← take_next a fail t s p; Some (s, p, ENone)
  | HGo _ _ z, HIntr i r => let '(s, p) := interrupt_next z s i r in Some (s, p, ENone)
  | HGo _ _ _, HDone _ => Some (s, HIdle, ENone)
  | _, _ => None
  end.

(** Nobody waits on the channel's own condition. *)
#[export] Instance chan_waits : Waits hpc := {| waiting := fun _ => false; awaken := fun p => p |}.
#[export] Instance chan_waits_laws : WaitsLaws hpc.
Proof. by split. Qed.

Definition chan_next := next chan_local.
Definition chan_start (capacity : Z) (n : nat) : conf chan hpc := mkConf (chan_init capacity) (replicate n HIdle).

(** ** Invariant *)

Definition chan_holds (p : hpc) : bool :=
  match p with
  | PInsert _ | PUnlock _ | KFront _ | KPop _ _ | KUnlock _ _ | HFault => true
  | _ => false
  end.

(** A place that is reserved: a thread with a permit of [putGuard_] whose item is
    not in the container, or one that has taken an item and not given the permit
    back. *)
Definition reserved (p : hpc) : bool :=
  match p with
  | PLock _ | PInsert _ | PUnlock (Some _) | PUndo _ => true
  | KUnlock _ (Ok _) | KRelease _ _ => true
  | _ => false
  end.

(** An item that is spoken for: in the container, but its permit of [takeGuard_]
    not there, or taken already by a thread on its way to it. *)
Definition spoken_for (p : hpc) : bool :=
  match p with
  | PUnlock None | PRelease => true
  | KLock _ | KFront _ | KPop _ _ | KUnlock _ (Throw _) | KUndo _ _ => true
  | _ => false
  end.

(** The value a thread has taken out. *)
Definition got (p : hpc) : option T :=
  match p with
  | KUnlock _ (Ok v) | KRelease _ v | HDone (TakeReply (Ok v)) => Some v
  | _ => None
  end.

(** Whatever a step changes in the container, it changes under the mutex. *)
Lemma chan_local_effect ch t s p s' p' e : chan_local ch t s p = Some (s', p', e) -> e = ENone.
Proof. intros Hl. local_cases Hl; done. Qed.

Lemma chan_respects_lock : respects_lock chan_local chan_mon chan_holds.
Proof.
  intros ch t s p s' p' e Hl. local_cases Hl; simpl; auto with daf.
  all: try (unfold take_throws; case_match; simpl; auto with daf).
  all: try (unfold interrupt_next in *; repeat case_match; simplify_eq/=; auto with daf).
Qed.

Context `{!ContainerLaws T Q}.

Abbreviation items s := (c_items (channelQ_ s)).

(** What one step does to the numbers: [R] and [F] count the places reserved and the
    items spoken for. *)
Lemma chan_local_counts cap ch t s p s' p' e R F :
  chan_local ch t s p = Some (s', p', e) ->
  g_permits (putGuard_ s) + R + Z.of_nat (length (items s)) = cap ->
  g_permits (takeGuard_ s) + F = Z.of_nat (length (items s)) ->
  0 <= g_permits (putGuard_ s) -> 0 <= g_permits (takeGuard_ s) ->
  b2z (reserved p) <= R -> b2z (spoken_for p) <= F ->
  (forall k v, p = KPop k v -> c_front (channelQ_ s) = Some v) ->
  let R' := R - b2z (reserved p) + b2z (reserved p') in
  let F' := F - b2z (spoken_for p) + b2z (spoken_for p') in
  g_permits (putGuard_ s') + R' + Z.of_nat (length (items s')) = cap
  /\ g_permits (takeGuard_ s') + F' = Z.of_nat (length (items s'))
  /\ 0 <= g_permits (putGuard_ s') /\ 0 <= g_permits (takeGuard_ s')
  /\ (p' = HFault -> p = HFault).
Proof.
  intros Hl H1 H2 H3 H4 H5 H6 Hpop.
  assert (forall x, length (c_items (c_push x (channelQ_ s))) = S (length (items s))) as Hpush
    by (intros x; by rewrite c_push_items).
  assert (forall k v, p = KPop k v -> length (items s) = S (length (c_items (c_pop (channelQ_ s))))) as Hpop'
    by (intros k v Hp; by rewrite (c_pop_items _ v) by (by eapply Hpop)).
  assert (c_front (channelQ_ s) = None -> length (items s) = 0%nat) as Hfront.
  { intros Hn. destruct (items s) eqn:E; [done|].
    destruct (c_front_some (channelQ_ s)) as [x Hx]; [by rewrite E|congruence]. }
  clear Hpop. local_cases Hl; monitor_facts; unfold take_throws, interrupt_next in *; simpl in *;
    rewrite ?Z.ltb_lt in *; try specialize (Hpop' _ _ eq_refl); try rewrite Hpush.
  all: repeat (case_match; simplify_eq/=); repeat split; try done; try lia.
  all: specialize (Hfront eq_refl); lia.
Qed.

(** What one step does to the items that have gone through. *)
Lemma chan_local_items ch t s p s' p' e :
  chan_local ch t s p = Some (s', p', e) ->
  (forall k v, p = KPop k v -> c_front (channelQ_ s) = Some v) ->
  inserted s ≡ₚ taken s ++ items s ->
  inserted s' ≡ₚ taken s' ++ items s'
  /\ (taken s' = taken s \/ exists v, taken s' = taken s ++ [v] /\ c_front (channelQ_ s) = Some v)
  /\ (forall v, got p' = Some v -> got p = Some v \/ v ∈ taken s')
  /\ (forall k v, p' = KPop k v -> c_front (channelQ_ s') = Some v)
  /\ (channelQ_ s' = channelQ_ s \/ chan_holds p = true).
Proof.
  intros Hl Hpop Hperm.
  local_cases Hl; unfold take_throws, interrupt_next in *; repeat (case_match; simplify_eq/=);
    split_and!; try done; auto; try (intros; simplify_eq/=; done).
  - rewrite c_push_items, <- (Permutation_middle (taken s)), <- Hperm. symmetry. apply Permutation_cons_append.
  - rewrite Hperm, (c_pop_items _ v) by eauto. by rewrite <- app_assoc.
  - right. eauto.
  - intros v0 [= ->]. right. apply elem_of_app. right. apply list_elem_of_here.
Qed.

(** Every step moves one thread and wakes nobody. *)
Lemma chan_step_inv c c' :
  step chan_next c c' ->
  exists ch t p s p', threads c !! t = Some p /\ chan_local ch t (shared c) p = Some (s, p', ENone)
    /\ c' = mkConf s (<[t := p']> (threads c)).
Proof.
  intros ([ch k] & t & Hn). apply next_inv in Hn as (p & s & p' & e & ts & Hp & Hl & He & ->).
  pose proof (chan_local_effect _ _ _ _ _ _ _ Hl) as ->. injection He as <-.
  by exists ch, t, p, s, p'.
Qed.

Record chan_inv (cap : Z) (c : conf chan hpc) : Prop := {
  hinv_lock : lock_inv chan_mon chan_holds c;
  hinv_places : g_permits (putGuard_ (shared c)) + tcount reserved (threads c) + Z.of_nat (length (items (shared c))) = cap;
  hinv_items : g_permits (takeGuard_ (shared c)) + tcount spoken_for (threads c) = Z.of_nat (length (items (shared c)));
  hinv_permits : 0 <= g_permits (putGuard_ (shared c)) /\ 0 <= g_permits (takeGuard_ (shared c));
  hinv_through : inserted (shared c) ≡ₚ taken (shared c) ++ items (shared c);
  hinv_pop : forall t k v, threads c !! t = Some (KPop k v) -> c_front (channelQ_ (shared c)) = Some v;
  hinv_got : forall t p v, threads c !! t = Some p -> got p = Some v -> v ∈ taken (shared c);
  hinv_fault : forall t, threads c !! t <> Some HFault;
}.

Lemma chan_inv_step cap c c' : chan_inv cap c -> step chan_next c c' -> chan_inv cap c'.
Proof.
  intros [Hlock Hpl Hit [Hp0 Ht0] Hth Hpop Hgot Hfault] Hstep.
  pose proof (lock_inv_step _ _ _ c c' chan_respects_lock (fun _ => eq_refl) Hlock Hstep) as Hlock'.
  destruct (chan_step_inv _ _ Hstep) as (ch & t & p & s & p' & Hp & Hl & ->).
  pose proof (lookup_lt_Some _ _ _ Hp) as Hlt.
  assert (forall k v, p = KPop k v -> c_front (channelQ_ (shared c)) = Some v) as Hpp by (intros k v ->; eauto).
  destruct (chan_local_counts cap _ _ _ _ _ _ _ (tcount reserved (threads c)) (tcount spoken_for (threads c)) Hl
    Hpl Hit Hp0 Ht0 (tcount_le_one _ _ _ _ Hp) (tcount_le_one _ _ _ _ Hp) Hpp) as (C1 & C2 & C3 & C4 & C5).
  destruct (chan_local_items _ _ _ _ _ _ _ Hl Hpp Hth) as (I1 & I2 & I3 & I4 & I5).
  assert (forall v, v ∈ taken (shared c) -> v ∈ taken s) as Hmono.
  { intros v Hv. destruct I2 as [->|(x & -> & _)]; [done|]. apply elem_of_app. by left. }
  split; cbn [shared threads] in *; [exact Hlock'|by rewrite (tcount_insert _ _ _ _ _ Hp)
    |by rewrite (tcount_insert _ _ _ _ _ Hp)|done|exact I1|..].
  - intros u k v Hu. destruct (decide (u = t)) as [->|Hne].
    + rewrite list_lookup_insert_eq in Hu by done. injection Hu as ->. eauto.
    + rewrite list_lookup_insert_ne in Hu by done. destruct I5 as [->|Hh]; [eauto|].
      destruct Hne. by apply (lock_inv_unique _ _ c t u p (KPop k v) Hlock).
  - intros u q v Hu Hv. destruct (decide (u = t)) as [->|Hne].
    + rewrite list_lookup_insert_eq in Hu by done. injection Hu as ->. destruct (I3 _ Hv); eauto.
    + rewrite list_lookup_insert_ne in Hu by done. eauto.
  - intros u Hu. destruct (decide (u = t)) as [->|Hne].
    + rewrite list_lookup_insert_eq in Hu by done. injection Hu as ->. rewrite C5 in Hp by done. by apply (Hfault t).
    + rewrite list_lookup_insert_ne in Hu by done. by apply (Hfault u).
Qed.

Lemma chan_inv_reachable cap n c :
  0 <= cap <= INT_MAX -> c_items empty = [] -> reachable chan_next (chan_start cap n) c -> chan_inv cap c.
Proof.
  intros Hcap He. apply invariant; [|intros c1 c2; apply chan_inv_step].
  assert (forall f : hpc -> bool, f HIdle = false -> tcount f (replicate n HIdle) = 0) as H0.
  { intros f Hf. apply tsum_zero. intros i x [-> _]%lookup_replicate. by rewrite Hf. }
  split; cbn [chan_start chan_init shared threads chan_mon putGuard_ takeGuard_ channelQ_ inserted taken g_permits];
    rewrite ?H0, ?He by done; simpl; try lia; try done.
  - intros t. simpl. split; [done|]. intros (p & [-> _]%lookup_replicate & Hp). done.
  - rewrite to_int_small by lia. lia.
  - rewrite to_int_small by lia. lia.
  - by intros t k v [? _]%lookup_replicate.
  - intros t p v [-> _]%lookup_replicate. done.
  - by intros t [? _]%lookup_replicate.
Qed.
End channel.

(** ** Order *)

(** A queue hands its items on in the order they came. *)
Lemma queue_local_fifo {T} ch t (s : chan) (p : @hpc T) s' p' e :
  chan_local (T := T) (Q := list T) ch t s p = Some (s', p', e) ->
  (forall k v, p = KPop k v -> c_front (channelQ_ s) = Some v) ->
  inserted s = taken s ++ channelQ_ s -> inserted s' = taken s' ++ channelQ_ s'.
Proof.
  intros Hl Hpop Hin.
  local_cases Hl; unfold take_throws, interrupt_next in *; repeat (case_match; simplify_eq/=); try done.
  - rewrite Hin. by rewrite app_assoc.
  - specialize (Hpop _ _ eq_refl). destruct (channelQ_ s) as [|x q]; [done|]. injection Hpop as ->.
    rewrite Hin. simpl. by rewrite <- app_assoc.
Qed.

(** ** The claims *)

(** C6 (safety). A bounded channel never holds more items than its capacity and never takes
    the front of an empty container, whatever the threads do, time out, are interrupted or
    throw while they copy. Everything put in is either still there or was taken out exactly
    once, and what a take returns was taken out. *)
Theorem channel_safe {T Q} `{ContainerLaws T Q} (empty : Q) cap n c :
  0 <= cap <= INT_MAX -> c_items empty = [] -> reachable chan_next (chan_start empty cap n) c ->
  Z.of_nat (length (c_items (channelQ_ (shared c)))) <= cap
  /\ 0 <= chan_size (shared c) <= Z.of_nat (length (c_items (channelQ_ (shared c))))
  /\ chan_capacity (shared c) <= cap
  /\ inserted (shared c) ≡ₚ taken (shared c) ++ c_items (channelQ_ (shared c))
  /\ (forall t, threads c !! t <> Some HFault)
  /\ (forall t v, threads c !! t = Some (HDone (TakeReply (Ok v))) -> v ∈ taken (shared c)).
Proof.
  intros Hcap He Hc. destruct (chan_inv_reachable _ _ _ _ Hcap He Hc) as [_ Hp Hi [H1 H2] Hth _ Hgot Hf].
  pose proof (tcount_nonneg reserved (threads c)). pose proof (tcount_nonneg spoken_for (threads c)).
  unfold chan_size, chan_capacity. split_and!; try lia; try done.
  intros t v Ht. by apply (Hgot t _ v Ht).
Qed.

(** A queue is first-in, first-out: what was put in is what was taken out, in the
    same order, followed by what is still in the queue. *)
Theorem queue_fifo {T} cap n (c : conf chan (@hpc T)) :
  0 <= cap <= INT_MAX -> reachable chan_next (chan_start (Q := list T) [] cap n) c ->
  inserted (shared c) = taken (shared c) ++ channelQ_ (shared c).
Proof.
  intros Hcap Hc.
  apply (invariant chan_next (fun c => chan_inv (Q := list T) cap c
           /\ inserted (shared c) = taken (shared c) ++ channelQ_ (shared c)) _ c) in Hc as [_ ?]; [done|..].
  - split; [|done]. apply (chan_inv_reachable (Q := list T) [] cap n); [done|done|apply rtc_refl].
  - intros c1 c2 [Hi Hin] Hs. split; [by eapply chan_inv_step|].
    destruct (chan_step_inv _ _ Hs) as (ch & t & p & s & p' & Hp & Hl & ->). cbn [shared].
    eapply queue_local_fifo; [exact Hl| |exact Hin]. intros k v ->. by eapply (hinv_pop _ _ Hi).
Qed.

(** A priority channel takes the greatest: whenever an item leaves the container,
    no item of the container is greater. *)
Theorem priority_takes_maximum {T} less `{!@WeakOrder T less} cap n (c c' : conf chan hpc) v :
  0 <= cap <= INT_MAX ->
  reachable (chan_next (H := priority less)) (chan_start (Heap []) cap n) c ->
  step (chan_next (H := priority less)) c c' -> taken (shared c') = taken (shared c) ++ [v] ->
  v ∈ heap_items (channelQ_ (shared c))
  /\ forall y, y ∈ heap_items (channelQ_ (shared c)) -> less v y = false.
Proof.
  intros Hcap Hc Hs Ht.
  pose proof (chan_inv_reachable (H := priority less) (ContainerLaws0 := priority_laws less) (Heap []) cap n c Hcap eq_refl Hc) as Hi.
  destruct (chan_step_inv _ _ Hs) as (ch & t & p & s & p' & Hp & Hl & ->). cbn [shared] in Ht.
  destruct (chan_local_items (ContainerLaws0 := priority_laws less) _ _ _ _ _ _ _ Hl) as (_ & I2 & _).
  { intros k w ->. by eapply (hinv_pop _ _ Hi). }
  { apply (hinv_through _ _ Hi). }
  destruct I2 as [E|(x & E & Hx)].
  { rewrite Ht in E. apply (f_equal length) in E. rewrite length_app in E. simpl in E. lia. }
  rewrite Ht in E. apply app_inv_head in E as [= ->].
  simpl in Hx. destruct (heap_items (channelQ_ (shared c))) as [|y l]; [done|]. injection Hx as <-.
  split; [|intros z Hz; by apply select_max].
  rewrite (select_perm less y l). apply list_elem_of_here.
Qed.

(** ** The theorems at concrete inputs *)

Definition hgo {T} (t : nat) : (@hchoice T * option nat) * nat := ((HGo Permit None 0, None), t).

(** Thread 0 puts 3 and then 5; thread 1 takes one of them. *)
Definition two_puts : list ((@hchoice Z * option nat) * nat) :=
  [((HPut 3 false, None), 0%nat)] ++ replicate 7 (hgo 0) ++ [((HPut 5 true, None), 0%nat)] ++ replicate 6 (hgo 0)
  ++ [((HTake false, None), 1%nat)] ++ replicate 4 (hgo 1).
Definition one_take : list ((@hchoice Z * option nat) * nat) := two_puts ++ replicate 3 (hgo 1).

Definition chan_after {Q} `{Container Z Q} (c : conf chan (@hpc Z)) sched : conf (@chan Z Q) hpc :=
  default c (run chan_next sched c).

Lemma chan_after_reachable {Q} `{Container Z Q} c sched :
  is_Some (run chan_next sched c) -> reachable chan_next c (chan_after (Q := Q) c sched).
Proof. intros [c' E]. unfold chan_after. rewrite E. by apply run_reachable with sched. Qed.

Definition queue_demo : conf (@chan Z (list Z)) hpc := chan_after (chan_start [] 2 2) one_take.

Lemma queue_demo_reachable : reachable chan_next (chan_start [] 2 2) queue_demo.
Proof. apply chan_after_reachable. vm_compute. eexists. reflexivity. Qed.

Lemma channel_safe_witness :
  threads queue_demo !! 1%nat = Some (HDone (TakeReply (Ok 3))) /\ 3 ∈ taken (shared queue_demo)
  /\ chan_capacity (shared queue_demo) <= 2.
Proof.
  pose proof (channel_safe (Q := list Z) [] 2 2 queue_demo ltac:(vm_compute; split; congruence) eq_refl queue_demo_reachable)
    as (_ & _ & Hc & _ & _ & Hv).
  split; [vm_compute; reflexivity|]. split; [|exact Hc]. apply (Hv 1%nat). vm_compute. reflexivity.
Defined.

Lemma queue_fifo_witness :
  inserted (shared queue_demo) = [3; 5]
  /\ inserted (shared queue_demo) = taken (shared queue_demo) ++ channelQ_ (shared queue_demo).
Proof.
  split; [vm_compute; reflexivity|].
  exact (queue_fifo 2 2 queue_demo ltac:(vm_compute; split; congruence) queue_demo_reachable).
Defined.

Lemma ltb_weak_order : @WeakOrder Z Z.ltb.
Proof. split; intros; rewrite ?Z.ltb_lt, ?Z.ltb_ge in *; lia. Qed.

Definition heap_before : conf (@chan Z (heap Z)) hpc :=
  chan_after (H := priority Z.ltb) (chan_start (Heap []) 2 2) two_puts.
Definition heap_after : conf (@chan Z (heap Z)) hpc :=
  chan_after (H := priority Z.ltb) heap_before [hgo 1].

Lemma priority_takes_maximum_witness :
  heap_items (channelQ_ (shared heap_before)) = [3; 5] /\ taken (shared heap_after) = taken (shared heap_before) ++ [5]
  /\ 5 ∈ heap_items (channelQ_ (shared heap_before))
  /\ forall y, y ∈ heap_items (channelQ_ (shared heap_before)) -> (5 <? y) = false.
Proof.
  split; [vm_compute; reflexivity|]. split; [vm_compute; reflexivity|].
  apply (@priority_takes_maximum Z Z.ltb ltb_weak_order 2 2 heap_before heap_after 5).
  - vm_compute; split; congruence.
  - apply (chan_after_reachable (H := priority Z.ltb)). vm_compute. eexists. reflexivity.
  - exists (hgo 1).1, 1%nat. vm_compute. reflexivity.
  - vm_compute. reflexivity.
Defined.
