(* ===== verification/ObjectRef.v ===== *)
(** * Reference counting: daf/RefCount, daf/ObjectRef_T

    Objects count the references to them and are deleted with the last one; an
    ObjectRef owns one reference.  The store has both kinds of things: objects,
    with their count and the ObjectRefs that are their members, and ObjectRefs,
    each with the pointer it holds.  Deleting an object runs the destructors of its
    members, which may delete more objects; [fuel] bounds that nesting.  [None] is an
    access to an object or an ObjectRef that is gone (or too little fuel: the
    theorems show that neither happens).  The mutex that makes the counter
    operations atomic is left out. *)

From S2P Require Import Prelude.

Abbreviation loc := nat.
Abbreviation handle := nat.

(** ** State *)

(** daf/RefCount.h:85-131 [RefCount]. An object: its count, and the ObjectRefs it consists of. *)
Record obj := mkObj { refCount_ : Z; members : list handle }.

(** daf/ObjectRef_T.h:68-72 [ObjectRef]. The objects, and the pointers of the ObjectRefs ([None] is nil). *)
Record heap := mkHeap { objs : gmap loc obj; refs : gmap handle (option loc) }.

Definition R (A : Type) : Type := heap -> option (heap * result A).

#[export] Instance R_ret : MRet R := fun A a s => Some (s, Ok a).
#[export] Instance R_bind : MBind R := fun A B k m s =>
  match m s with
  | Some (s, Ok a) => k a s
  | Some (s, Throw e) => Some (s, Throw e)
  | None => None
  end.
Definition rthrow {A} (e : daf_exn) : R A := fun s => Some (s, Throw e).

(** [this->...] of an object, [ptr_] of an ObjectRef. *)
Definition get_obj (o : loc) : R obj := fun s => ob ← objs s !! o; Some (s, Ok ob).
Definition put_obj (o : loc) (ob : obj) : R unit := fun s => Some (mkHeap (<[o := ob]> (objs s)) (refs s), Ok tt).
Definition free_obj (o : loc) : R unit := fun s => Some (mkHeap (delete o (objs s)) (refs s), Ok tt).
Definition get_ref (h : handle) : R (option loc) := fun s => v ← refs s !! h; Some (s, Ok v).
Definition put_ref (h : handle) (v : option loc) : R unit := fun s =>
  match refs s !! h with
  | Some _ => Some (mkHeap (objs s) (<[h := v]> (refs s)), Ok tt)
  | None => None
  end.
(** An ObjectRef comes to life, and is gone. *)
Definition new_ref (h : handle) (v : option loc) : R unit := fun s =>
  match refs s !! h with
  | Some _ => None
  | None => Some (mkHeap (objs s) (<[h := v]> (refs s)), Ok tt)
  end.
Definition free_ref (h : handle) : R unit := fun s => Some (mkHeap (objs s) (delete h (refs s)), Ok tt).

(** daf/ObjectRef_T.h:32-32 [INV_OBJREF]. *)
Definition INV_OBJREF : daf_exn := ObjectNotExistException.

(** ** Reference counts *)

(** daf/RefCount.cpp:44-55 [RefCount::_add_ref]. *)
Definition add_ref (o : loc) : R unit :=
  ob ← get_obj o;
  if 0 <? refCount_ ob then put_obj o (mkObj (refCount_ ob + 1) (members ob)) else rthrow INV_OBJREF.

(** daf/ObjectRef_T.cpp:28-33 [ObjectRefTraits::release]. The pointer of an ObjectRef; [remove] is [_remove_ref]. *)
Definition release_with (remove : loc -> R unit) (h : handle) : R unit :=
  v ← get_ref h;
  match v with
  | Some p => _ ← remove p; put_ref h None
  | None => mret tt
  end.

(** The destructors of the members, one after another. *)
Fixpoint destroy_members (remove : loc -> R unit) (hs : list handle) : R unit :=
  match hs with
  | [] => mret tt
  | h :: hs =>
      _ ← release_with remove h;
      _ ← free_ref h;
      destroy_members remove hs
  end.

(** daf/RefCount.cpp:57-77 [RefCount::_remove_ref]. With the deletion of the object. *)
Fixpoint remove_ref (fuel : nat) (o : loc) : R unit :=
  match fuel with
  | O => fun _ => None
  | S fuel =>
      ob ← get_obj o;
      if 0 <? refCount_ ob then
        _ ← put_obj o (mkObj (refCount_ ob - 1) (members ob));
        if 0 <? refCount_ ob - 1 then mret tt
        else _ ← destroy_members (remove_ref fuel) (members ob); free_obj o
      else rthrow INV_OBJREF
  end.

(** daf/ObjectRef_T.cpp:35-40 [ObjectRefTraits::duplicate]. *)
Definition duplicate (p : option loc) : R (option loc) :=
  match p with
  | Some o => _ ← add_ref o; mret p
  | None => mret None
  end.

(** ** ObjectRef *)

Section ops.
Context (fuel : nat).

(** daf/ObjectRef_T.cpp:28-33 [ObjectRefTraits::release]. *)
Definition release : handle -> R unit := release_with (remove_ref fuel).

(** daf/ObjectRef_T.cpp:57-61 [ObjectRef::ObjectRef]. From a pointer, whose reference it takes over. *)
Definition ref_of_ptr (h : handle) (p : option loc) : R unit := new_ref h p.

(** daf/ObjectRef_T.cpp:63-67 [ObjectRef::ObjectRef]. From an object. *)
Definition ref_of_obj (h : handle) (o : loc) : R unit := p ← duplicate (Some o); new_ref h p.

(** daf/ObjectRef_T.cpp:69-73 [ObjectRef::ObjectRef]. From another one. *)
Definition ref_copy (h h' : handle) : R unit := v ← get_ref h'; p ← duplicate v; new_ref h p.

(** daf/ObjectRef_T.cpp:75-79 [ObjectRef::destructor]. *)
Definition ref_delete (h : handle) : R unit := _ ← release h; free_ref h.

(** daf/ObjectRef_T.cpp:151-156 [ObjectRef::operator=]. Also [reset], lines 186-190. *)
Definition assign_ptr (h : handle) (p : option loc) : R unit := _ ← release h; put_ref h p.

(** daf/ObjectRef_T.cpp:158-166 [ObjectRef::operator=]. *)
Definition assign_obj (h : handle) (o : loc) : R unit :=
  v ← get_ref h;
  if bool_decide (v <> Some o) then _ ← release h; p ← duplicate (Some o); put_ref h p else mret tt.

(** daf/ObjectRef_T.cpp:168-176 [ObjectRef::operator=]. *)
Definition assign_ref (h h' : handle) : R unit :=
  if bool_decide (h <> h') then
    _ ← release h; v ← get_ref h'; p ← duplicate v; put_ref h p
  else mret tt.

(** daf/ObjectRef_T.cpp:129-134 [ObjectRef::out]. *)
Definition ref_out (h : handle) : R unit := _ ← release h; put_ref h None.

(** daf/ObjectRef_T.cpp:136-141 [ObjectRef::_retn]. *)
Definition ref_retn (h : handle) : R (option loc) := val ← get_ref h; _ ← put_ref h None; mret val.

(** daf/ObjectRef_T.cpp:95-112 [ObjectRef::operator->]. Also [operator *]. *)
Definition deref (h : handle) : R loc :=
  v ← get_ref h; match v with Some p => mret p | None => rthrow INV_OBJREF end.

(** [new T]: a count of one; the members of [T] are nil. *)
Definition new_obj (o : loc) (hs : list handle) : R unit := fun s =>
  match objs s !! o with
  | Some _ => None
  | None => Some (mkHeap (<[o := mkObj 1 hs]> (objs s)) (foldr (fun h m => <[h := None]> m) (refs s) hs), Ok tt)
  end.

(** daf/ObjectRef_T.cpp:42-53 [ObjectRefTraits::narrow]. [is_a] is the dynamic_cast. *)
Definition narrow (is_a : loc -> bool) (p : option loc) : R (option loc) :=
  match p with
  | Some o =>
      if is_a o then
        fun s => match duplicate (Some o) s with Some (s, Throw _) => Some (s, Ok None) | r => r end
      else mret None
  | None => mret None
  end.

(** daf/ObjectRef_T.cpp:192-199 [ObjectRef::operator_ObjectRef]. The conversion to an ObjectRef of another type. *)
Definition ref_convert (is_a : loc -> bool) (h h' : handle) : R unit :=
  v ← get_ref h';
  p ← narrow is_a v;
  match p with
  | Some _ => ref_of_ptr h p
  | None => rthrow INV_OBJREF
  end.
End ops.

(** ** Counting references *)

(** The ObjectRefs of a map that hold a pointer to [o]. *)
Definition nrefs (o : loc) (m : gmap handle (option loc)) : Z :=
  Z.of_nat (size (filter (fun kv => snd kv = Some o) m)).

(** The references to [o] among those in nobody's ObjectRef. *)
Definition nloose (o : loc) (L : list loc) : Z := Z.of_nat (length (filter (fun x => x = o) L)).

Definition points (v : option loc) (o : loc) : Z := if decide (v = Some o) then 1 else 0.

Lemma nrefs_insert_fresh o m h v : m !! h = None -> nrefs o (<[h := v]> m) = nrefs o m + points v o.
Proof.
  intros Hh. unfold nrefs, points. destruct (decide (v = Some o)) as [->|Hv].
  - rewrite map_filter_insert_True by done. rewrite map_size_insert_None; [lia|].
    apply map_lookup_filter_None. by left.
  - rewrite map_filter_insert_False by done. rewrite delete_id by done. lia.
Qed.

Lemma nrefs_delete o m h v : m !! h = Some v -> nrefs o (delete h m) = nrefs o m - points v o.
Proof.
  intros Hh. rewrite <- (insert_delete_id m h v Hh) at 2.
  rewrite nrefs_insert_fresh by (by rewrite lookup_delete_eq). lia.
Qed.

Lemma nrefs_insert o m h v v' :
  m !! h = Some v -> nrefs o (<[h := v']> m) = nrefs o m - points v o + points v' o.
Proof.
  intros Hh. rewrite <- insert_delete_eq. rewrite nrefs_insert_fresh by (by rewrite lookup_delete_eq).
  by rewrite (nrefs_delete _ _ _ v).
Qed.

Lemma nrefs_nonneg o m : 0 <= nrefs o m.
Proof. unfold nrefs. lia. Qed.

Lemma nrefs_pos o m h : m !! h = Some (Some o) -> 0 < nrefs o m.
Proof.
  intros Hh. pose proof (nrefs_delete o m h _ Hh) as Hd. pose proof (nrefs_nonneg o (delete h m)).
  unfold points in Hd. rewrite decide_True in Hd by done. lia.
Qed.

Lemma nloose_cons o p L : nloose o (p :: L) = points (Some p) o + nloose o L.
Proof.
  unfold nloose, points. rewrite filter_cons. destruct (decide (p = o)) as [->|Hp].
  - rewrite decide_True by done. simpl. lia.
  - rewrite decide_False by congruence. lia.
Qed.

Lemma nloose_nonneg o L : 0 <= nloose o L.
Proof. unfold nloose. lia. Qed.

Lemma points_bounds v o : 0 <= points v o <= 1.
Proof. unfold points. destruct (decide _); lia. Qed.

(** ** The invariant

    [L] are the references in nobody's ObjectRef, [D] the objects being deleted.
    [m] is the map of the ObjectRefs as it will be when the releases that are under
    way are over: the ObjectRefs [B] that are being released count as nil. *)

Record inv (s : heap) (L D B : list nat) (m : gmap handle (option loc)) : Prop := {
  i_refs : forall h, h ∉ B -> refs s !! h = m !! h;
  i_busy : forall h, h ∈ B -> m !! h = Some None /\ is_Some (refs s !! h);
  i_count : forall o ob, objs s !! o = Some ob -> o ∉ D ->
    refCount_ ob = nrefs o m + nloose o L /\ 0 < refCount_ ob;
  i_dying : forall o, o ∈ D -> exists ob, objs s !! o = Some ob /\ refCount_ ob = 0;
  i_alive : forall o, 0 < nrefs o m + nloose o L -> is_Some (objs s !! o) /\ (o ∉ D);
  i_members : forall o ob h, objs s !! o = Some ob -> o ∉ D -> h ∈ members ob -> is_Some (m !! h) /\ (h ∉ B);
  i_disjoint : forall o1 o2 ob1 ob2 h, objs s !! o1 = Some ob1 -> objs s !! o2 = Some ob2 ->
    h ∈ members ob1 -> h ∈ members ob2 -> o1 = o2;
  i_nodup : forall o ob, objs s !! o = Some ob -> NoDup (members ob);
}.

(** What a release leaves alone: it removes only ObjectRefs that are members of
    objects it deletes (or in [X]), and changes no other. *)
Record leaves (s s' : heap) (m m' : gmap handle (option loc)) (D X : list nat) : Prop := {
  l_refs : forall h v, m' !! h = Some v -> m !! h = Some v;
  l_gone : forall h, is_Some (m !! h) -> m' !! h = None ->
    (h ∈ X) \/ exists o ob, objs s !! o = Some ob /\ (h ∈ members ob) /\ (o ∉ D) /\ objs s' !! o = None;
  l_objs : forall o ob', objs s' !! o = Some ob' ->
    exists ob, objs s !! o = Some ob /\ members ob' = members ob /\ (0 < refCount_ ob' -> 0 < refCount_ ob);
  l_dying : forall o, o ∈ D -> objs s' !! o = objs s !! o;
}.

(** Objects that are not being deleted: the bound on the nesting. *)
Definition live (s : heap) : nat := size (filter (fun kv => 0 < refCount_ (snd kv)) (objs s)).

Lemma leaves_refl s m D X : leaves s s m m D X.
Proof. split; eauto. intros h [v Hv]. congruence. Qed.

Lemma leaves_weaken s s' m m' D X X' :
  (forall h, h ∈ X -> h ∈ X') -> leaves s s' m m' D X -> leaves s s' m m' D X'.
Proof.
  intros HX [R1 G1 O1 D1]. split; [done| |done|done].
  intros h Hh Hn. destruct (G1 h Hh Hn) as [?|?]; auto.
Qed.

Lemma leaves_trans s1 s2 s3 m1 m2 m3 D X :
  leaves s1 s2 m1 m2 D X -> leaves s2 s3 m2 m3 D X -> leaves s1 s3 m1 m3 D X.
Proof.
  intros [R1 G1 O1 D1] [R2 G2 O2 D2]. split.
  - auto.
  - intros h Hh Hn. destruct (m2 !! h) as [v|] eqn:E2.
    + destruct (G2 h (mk_is_Some _ _ E2) Hn) as [?|(o & ob & Ho & Hm & Hd & Hx)]; [by left|].
      right. destruct (O1 _ _ Ho) as (ob1 & Ho1 & Em & _). exists o, ob1. rewrite <- Em. auto.
    + destruct (G1 h Hh E2) as [?|(o & ob & Ho & Hm & Hd & Hx)]; [by left|].
      right. exists o, ob. split_and!; try done. destruct (objs s3 !! o) eqn:E3; [|done].
      destruct (O2 _ _ E3) as (? & ? & _). congruence.
  - intros o ob' Ho. destruct (O2 _ _ Ho) as (ob & Hob & -> & Hc). destruct (O1 _ _ Hob) as (ob1 & ? & -> & ?). exists ob1. auto.
  - intros o Ho. by rewrite D2, D1.
Qed.

Lemma live_put s o ob ob' :
  objs s !! o = Some ob -> 0 < refCount_ ob -> 0 < refCount_ ob' ->
  live (mkHeap (<[o := ob']> (objs s)) (refs s)) = live s.
Proof.
  intros Ho Hp Hp'. unfold live. cbn [objs]. rewrite map_filter_insert_True by done.
  apply map_size_insert_Some. exists ob. by apply map_lookup_filter_Some.
Qed.

Lemma live_dying s o ob ob' :
  objs s !! o = Some ob -> 0 < refCount_ ob -> refCount_ ob' = 0 ->
  live s = S (live (mkHeap (<[o := ob']> (objs s)) (refs s))).
Proof.
  intros Ho Hp Hp'. unfold live. cbn [objs]. rewrite map_filter_insert_False by (simpl; lia).
  set (f := fun kv : nat * obj => 0 < refCount_ kv.2).
  assert (filter f (objs s) !! o = Some ob) as Hx by (by apply map_lookup_filter_Some).
  rewrite map_filter_delete, map_size_delete_Some by (by eexists).
  assert (size (filter f (objs s)) <> 0%nat); [|lia].
  intros E%map_size_empty_inv. by rewrite E in Hx.
Qed.

Lemma live_free s o ob r :
  objs s !! o = Some ob -> refCount_ ob = 0 -> live (mkHeap (delete o (objs s)) r) = live s.
Proof.
  intros Ho Hz. unfold live. cbn [objs]. rewrite map_filter_delete, delete_id; [done|].
  apply map_lookup_filter_None. right. intros ob' Ho'. simpl. assert (ob' = ob) as -> by congruence. lia.
Qed.

(** The ObjectRefs of objects that are not being deleted. *)
Definition member (s : heap) (D : list nat) (h : handle) : Prop :=
  exists o ob, objs s !! o = Some ob /\ (o ∉ D) /\ h ∈ members ob.

(** A release begins: the reference is in nobody's ObjectRef. *)
Lemma inv_busy s L D B m h v :
  inv s L D B m -> m !! h = Some v -> h ∉ B -> ~ member s D h ->
  inv s (match v with Some p => p :: L | None => L end) D (h :: B) (<[h := None]> m).
Proof.
  intros [I1 I2 I3 I4 I5 I6 I7 I8] Hh HB Hmem.
  assert (forall o, nrefs o (<[h := None]> m) + nloose o (match v with Some p => p :: L | None => L end)
                    = nrefs o m + nloose o L) as Hsum.
  { intros o. rewrite (nrefs_insert _ _ _ _ None Hh). unfold points at 2. rewrite decide_False by done.
    destruct v as [p|]; [rewrite nloose_cons; lia|]. unfold points. rewrite decide_False by done. lia. }
  split; try done.
  - intros x [Hx HxB]%not_elem_of_cons. rewrite lookup_insert_ne by done. auto.
  - intros x [->|Hx]%elem_of_cons.
    + rewrite lookup_insert_eq. split; [done|]. rewrite I1 by done. by eexists.
    + rewrite lookup_insert_ne by (by intros ->). auto.
  - intros o ob Ho Hd. rewrite Hsum. auto.
  - intros o Ho. rewrite Hsum in Ho. auto.
  - intros o ob x Ho Hd Hx. destruct (I6 _ _ _ Ho Hd Hx) as [Hm Hb].
    assert (x <> h) by (intros ->; apply Hmem; by exists o, ob).
    rewrite lookup_insert_ne, not_elem_of_cons by done. done.
Qed.

(** A release ends: the pointer is nil, and the ObjectRef may go. *)
Lemma inv_settle s L D B m h :
  inv s L D (h :: B) m -> h ∉ B -> inv (mkHeap (objs s) (<[h := None]> (refs s))) L D B m.
Proof.
  intros [I1 I2 I3 I4 I5 I6 I7 I8] HB. split; cbn [objs refs]; try done.
  - intros x Hx. destruct (decide (x = h)) as [->|Hne].
    + rewrite lookup_insert_eq. symmetry. apply I2, list_elem_of_here.
    + rewrite lookup_insert_ne by done. apply I1. by rewrite not_elem_of_cons.
  - intros x Hx. assert (x <> h) by (by intros ->). rewrite lookup_insert_ne by done.
    apply I2. by apply list_elem_of_further.
  - intros o ob x Ho Hd Hx. destruct (I6 _ _ _ Ho Hd Hx) as [? [_ ?]%not_elem_of_cons]. done.
Qed.

Lemma inv_free_ref s L D B m h :
  inv s L D B m -> m !! h = Some None -> h ∉ B -> ~ member s D h ->
  inv (mkHeap (objs s) (delete h (refs s))) L D B (delete h m).
Proof.
  intros [I1 I2 I3 I4 I5 I6 I7 I8] Hh HB Hmem.
  assert (forall o, nrefs o (delete h m) = nrefs o m) as Hsum.
  { intros o. rewrite (nrefs_delete _ _ _ _ Hh). unfold points. rewrite decide_False by done. lia. }
  split; cbn [objs refs]; try done.
  - intros x Hx. destruct (decide (x = h)) as [->|Hne]; [by rewrite !lookup_delete_eq|].
    rewrite !lookup_delete_ne by done. auto.
  - intros x Hx. assert (x <> h) by (by intros ->). rewrite !lookup_delete_ne by done. auto.
  - intros o ob Ho Hd. rewrite Hsum. auto.
  - intros o Ho. rewrite Hsum in Ho. auto.
  - intros o ob x Ho Hd Hx. assert (x <> h) by (intros ->; apply Hmem; by exists o, ob).
    rewrite lookup_delete_ne by done. eauto.
Qed.

(** An object loses a reference that is in nobody's hands. *)
Lemma inv_drop s L D B m o ob :
  inv s (o :: L) D B m -> objs s !! o = Some ob -> o ∉ D -> 1 < refCount_ ob ->
  inv (mkHeap (<[o := mkObj (refCount_ ob - 1) (members ob)]> (objs s)) (refs s)) L D B m.
Proof.
  intros [I1 I2 I3 I4 I5 I6 I7 I8] Ho HoD Hc.
  assert (forall x, nloose x (o :: L) = (if decide (x = o) then 1 else 0) + nloose x L) as Hl.
  { intros x. rewrite nloose_cons. unfold points. destruct (decide (x = o)) as [->|]; [by rewrite decide_True|].
    rewrite decide_False by congruence. done. }
  split; cbn [objs refs]; try done.
  - intros x obx Hx Hd. destruct (decide (x = o)) as [->|Hne].
    + rewrite lookup_insert_eq in Hx. injection Hx as <-. destruct (I3 _ _ Ho HoD) as [E _].
      rewrite Hl, decide_True in E by done. simpl. lia.
    + rewrite lookup_insert_ne in Hx by done. destruct (I3 _ _ Hx Hd) as [E ?].
      rewrite Hl, decide_False in E by done. lia.
  - intros x Hx. assert (x <> o) by (by intros ->). rewrite lookup_insert_ne by done. auto.
  - intros x Hx. destruct (decide (x = o)) as [->|Hne]; [by rewrite lookup_insert_eq|].
    rewrite lookup_insert_ne by done. apply I5. rewrite Hl, decide_False by done. lia.
  - intros x obx y Hx Hd Hy. destruct (decide (x = o)) as [->|Hne].
    + rewrite lookup_insert_eq in Hx. injection Hx as <-. by apply (I6 o ob).
    + rewrite lookup_insert_ne in Hx by done. by apply (I6 x obx).
  - intros o1 o2 ob1 ob2 y [[<- <-]|[_ H1]]%lookup_insert_Some [[<- <-]|[_ H2]]%lookup_insert_Some; simpl; eauto.
  - intros x obx [[<- <-]|[_ Hx]]%lookup_insert_Some; simpl; eauto.
Qed.

(** An object loses its last reference, and begins to be deleted. *)
Lemma inv_die s L D B m o ob :
  inv s (o :: L) D B m -> objs s !! o = Some ob -> o ∉ D -> refCount_ ob = 1 ->
  inv (mkHeap (<[o := mkObj 0 (members ob)]> (objs s)) (refs s)) L (o :: D) B m.
Proof.
  intros [I1 I2 I3 I4 I5 I6 I7 I8] Ho HoD Hc.
  assert (forall x, nloose x (o :: L) = (if decide (x = o) then 1 else 0) + nloose x L) as Hl.
  { intros x. rewrite nloose_cons. unfold points. destruct (decide (x = o)) as [->|]; [by rewrite decide_True|].
    rewrite decide_False by congruence. done. }
  assert (nrefs o m + nloose o L = 0) as Hz.
  { destruct (I3 _ _ Ho HoD) as [E _]. rewrite Hl, decide_True in E by done. lia. }
  split; cbn [objs refs]; try done.
  - intros x obx Hx [Hne Hd]%not_elem_of_cons. rewrite lookup_insert_ne in Hx by done.
    destruct (I3 _ _ Hx Hd) as [E ?]. rewrite Hl, decide_False in E by done. lia.
  - intros x [->|Hx]%elem_of_cons; [rewrite lookup_insert_eq; by eexists|].
    rewrite lookup_insert_ne by (by intros ->). auto.
  - intros x Hx. destruct (decide (x = o)) as [->|Hne]; [lia|].
    rewrite lookup_insert_ne, not_elem_of_cons by done.
    assert (0 < nrefs x m + nloose x (o :: L)) as Hpos by (rewrite Hl, decide_False by done; lia).
    destruct (I5 x Hpos). done.
  - intros x obx y Hx [Hne Hd]%not_elem_of_cons Hy. rewrite lookup_insert_ne in Hx by done. by apply (I6 x obx).
  - intros o1 o2 ob1 ob2 y [[<- <-]|[_ H1]]%lookup_insert_Some [[<- <-]|[_ H2]]%lookup_insert_Some; simpl; eauto.
  - intros x obx [[<- <-]|[_ Hx]]%lookup_insert_Some; simpl; eauto.
Qed.

(** Its memory is given back. *)
Lemma inv_free_obj s L D B m o :
  inv s L (o :: D) B m -> o ∉ D -> inv (mkHeap (delete o (objs s)) (refs s)) L D B m.
Proof.
  intros [I1 I2 I3 I4 I5 I6 I7 I8] HoD. split; cbn [objs refs]; try done.
  - intros x obx [Hne Hx]%lookup_delete_Some Hd. apply I3; [done|]. by rewrite not_elem_of_cons.
  - intros x Hx. rewrite lookup_delete_ne by (by intros ->). apply I4. by apply list_elem_of_further.
  - intros x Hx. destruct (I5 x Hx) as [? [? ?]%not_elem_of_cons]. by rewrite lookup_delete_ne by done.
  - intros x obx y [Hne Hx]%lookup_delete_Some Hd Hy. apply (I6 x obx); [done| |done]. by rewrite not_elem_of_cons.
  - intros o1 o2 ob1 ob2 y [_ H1]%lookup_delete_Some [_ H2]%lookup_delete_Some. eauto.
  - intros x obx [_ Hx]%lookup_delete_Some. eauto.
Qed.

(** ** Releasing *)

(** What [_remove_ref] does on a store with fewer than [n] objects that are not being
    deleted. *)
Definition removes (remove : loc -> R unit) (n : nat) : Prop := forall s o L D B m,
  inv s (o :: L) D B m -> (live s < n)%nat ->
  exists s' m', remove o s = Some (s', Ok tt) /\ inv s' L D B m' /\ leaves s s' m m' D [] /\ (live s' <= live s)%nat.

Lemma release_spec remove n s L D B m h v :
  removes remove n -> inv s L D B m -> (live s < n)%nat -> m !! h = Some v -> h ∉ B -> ~ member s D h ->
  exists s' m',
    release_with remove h s = Some (s', Ok tt)
    /\ inv s' L D B m' /\ m' !! h = Some None
    /\ leaves s s' (<[h := None]> m) m' D [] /\ (live s' <= live s)%nat.
Proof.
  intros Hr Hi Hn Hh HB Hmem. pose proof (inv_busy _ _ _ _ _ _ _ Hi Hh HB Hmem) as Hb.
  unfold release_with, mbind, R_bind, get_ref. rewrite (i_refs _ _ _ _ _ Hi h HB), Hh. cbn [mbind option_bind].
  destruct v as [p|].
  - destruct (Hr _ _ _ _ _ _ Hb Hn) as (s1 & m1 & -> & Hi1 & Hl1 & Hlive).
    destruct (i_busy _ _ _ _ _ Hi1 h (list_elem_of_here _ _)) as [Hm1 [w Hw]].
    exists (mkHeap (objs s1) (<[h := None]> (refs s1))), m1. unfold put_ref. rewrite Hw.
    split; [done|]. split; [by apply inv_settle|]. split; [done|]. split; [|done].
    destruct Hl1 as [l1 l2 l3 l4]. by split.
  - exists s, (<[h := None]> m). split; [done|]. rewrite insert_id by done. split; [done|]. split; [done|].
    split; [apply leaves_refl|done].
Qed.

(** The ObjectRef of a release goes. *)
Lemma leaves_free_ref s s1 m m1 D h v :
  m !! h = Some v -> leaves s s1 (<[h := None]> m) m1 D [] ->
  leaves s (mkHeap (objs s1) (delete h (refs s1))) m (delete h m1) D [h].
Proof.
  intros Hh [l1 l2 l3 l4]. split; cbn [objs refs]; [| |done|done].
  - intros x w [Hne Hx]%lookup_delete_Some. apply l1 in Hx. by rewrite lookup_insert_ne in Hx.
  - intros x Hx Hn. destruct (decide (x = h)) as [->|Hne]; [left; apply list_elem_of_here|].
    rewrite lookup_delete_ne in Hn by done. destruct (l2 x) as [[]%elem_of_nil|?]; [|done|by right].
    by rewrite lookup_insert_ne.
Qed.

Lemma leaves_put s m D o ob n :
  objs s !! o = Some ob -> 0 < refCount_ ob -> o ∉ D ->
  leaves s (mkHeap (<[o := mkObj n (members ob)]> (objs s)) (refs s)) m m D [].
Proof.
  intros Ho Hc HD. split; cbn [objs refs]; [done| |..].
  - intros h [v Hv]. congruence.
  - intros x ob' [[<- <-]|[_ Hx]]%lookup_insert_Some; eauto.
  - intros x Hx. by rewrite lookup_insert_ne by (by intros ->).
Qed.

(** An object goes with its members. *)
Lemma leaves_die s s1 s2 m m2 D o ob :
  objs s !! o = Some ob -> 0 < refCount_ ob -> o ∉ D ->
  s1 = mkHeap (<[o := mkObj 0 (members ob)]> (objs s)) (refs s) ->
  leaves s1 s2 m m2 (o :: D) (members ob) ->
  leaves s (mkHeap (delete o (objs s2)) (refs s2)) m m2 D [].
Proof.
  intros Ho Hc HD -> [l1 l2 l3 l4]. split; cbn [objs refs] in *; [done|..].
  - intros h Hh Hn. right. destruct (l2 h Hh Hn) as [?|(o2 & ob2 & Ho2 & Hm2 & [Hne HD2]%not_elem_of_cons & Hx)].
    + exists o, ob. by rewrite lookup_delete_eq.
    + exists o2, ob2. rewrite lookup_insert_ne in Ho2 by done. by rewrite lookup_delete_ne.
  - intros o2 ob' [Hne Hx]%lookup_delete_Some. destruct (l3 _ _ Hx) as (ob2 & Ho2 & ?).
    rewrite lookup_insert_ne in Ho2 by done. eauto.
  - intros o2 Ho2. assert (o2 <> o) by (by intros ->). rewrite lookup_delete_ne by done.
    rewrite l4 by (by apply list_elem_of_further). by rewrite lookup_insert_ne.
Qed.

Lemma destroy_members_spec remove n o ob D L B :
  removes remove n -> o ∈ D -> forall hs s m,
  objs s !! o = Some ob -> NoDup hs ->
  (forall h, h ∈ hs -> h ∈ members ob /\ is_Some (m !! h) /\ h ∉ B) ->
  inv s L D B m -> (live s < n)%nat ->
  exists s' m', destroy_members remove hs s = Some (s', Ok tt) /\ inv s' L D B m'
    /\ leaves s s' m m' D hs /\ (live s' <= live s)%nat.
Proof.
  intros Hr HoD. induction hs as [|h hs IH]; intros s m Ho Hnd Hhs Hi Hn.
  { exists s, m. split; [done|]. split; [done|]. split; [apply leaves_refl|done]. }
  apply NoDup_cons in Hnd as [Hh Hnd].
  destruct (Hhs h (list_elem_of_here _ _)) as (Hmem & [v Hv] & HB).
  assert (~ member s D h) as Hnm.
  { intros (o2 & ob2 & Ho2 & HD2 & Hm2). destruct HD2. by rewrite (i_disjoint _ _ _ _ _ Hi o2 o ob2 ob h). }
  destruct (release_spec remove n s L D B m h v Hr Hi Hn Hv HB Hnm) as (s1 & m1 & E1 & Hi1 & Hh1 & Hl1 & Hlive1).
  assert (objs s1 !! o = Some ob) as Ho1 by (by rewrite (l_dying _ _ _ _ _ _ Hl1)).
  assert (~ member s1 D h) as Hnm1.
  { intros (o2 & ob2 & Ho2 & HD2 & Hm2). destruct HD2. by rewrite (i_disjoint _ _ _ _ _ Hi1 o2 o ob2 ob h). }
  pose proof (inv_free_ref _ _ _ _ _ _ Hi1 Hh1 HB Hnm1) as Hi2.
  set (s2 := mkHeap (objs s1) (delete h (refs s1))) in *.
  destruct (IH s2 (delete h m1)) as (s3 & m3 & E3 & Hi3 & Hl3 & Hlive3); [done|done| |done|unfold live in *; simpl in *; lia|].
  { intros h' Hh'. destruct (Hhs h' (list_elem_of_further _ _ _ Hh')) as (Hm' & Hs' & HB'). split; [done|]. split; [|done].
    assert (h' <> h) by (intros ->; done). rewrite lookup_delete_ne by done.
    destruct (m1 !! h') eqn:E; [by eexists|]. exfalso.
    destruct (l_gone _ _ _ _ _ _ Hl1 h') as [[]%elem_of_nil|(o2 & ob2 & Ho2 & Hm2 & HD2 & _)]; [|done|].
    - rewrite lookup_insert_ne by done. done.
    - destruct HD2. by rewrite (i_disjoint _ _ _ _ _ Hi o2 o ob2 ob h'). }
  exists s3, m3. cbn [destroy_members]. unfold mbind, R_bind, free_ref. rewrite E1. split; [exact E3|].
  split; [done|]. split; [|unfold live in *; simpl in *; lia].
  apply (leaves_trans s s2 s3 m (delete h m1)).
  - apply (leaves_weaken _ _ _ _ _ [h]).
    + intros x ->%list_elem_of_singleton. apply list_elem_of_here.
    + by apply (leaves_free_ref _ _ _ _ _ _ v).
  - apply (leaves_weaken _ _ _ _ _ hs); [|done]. intros x. apply list_elem_of_further.
Qed.

Lemma remove_ref_spec fuel : removes (remove_ref fuel) fuel.
Proof.
  induction fuel as [|fuel IH]; intros s o L D B m Hi Hn; [lia|].
  assert (0 < nrefs o m + nloose o (o :: L)) as Hpos.
  { rewrite nloose_cons. unfold points. rewrite decide_True by done.
    pose proof (nrefs_nonneg o m). pose proof (nloose_nonneg o L). lia. }
  destruct (i_alive _ _ _ _ _ Hi o Hpos) as [[ob Ho] HoD].
  destruct (i_count _ _ _ _ _ Hi o ob Ho HoD) as [Hc Hc0].
  cbn [remove_ref]. unfold mbind, R_bind, get_obj, put_obj, mret, R_ret.
  rewrite Ho. cbn [mbind option_bind]. rewrite (proj2 (Z.ltb_lt _ _) Hc0).
  destruct (Z.ltb_spec 0 (refCount_ ob - 1)) as [H1|H1].
  - exists (mkHeap (<[o := mkObj (refCount_ ob - 1) (members ob)]> (objs s)) (refs s)), m. split; [done|].
    split; [apply inv_drop; [done..|lia]|]. rewrite (live_put s o ob) by (simpl; done || lia).
    split; [|done]. by apply leaves_put.
  - assert (refCount_ ob = 1) as Hone by lia. rewrite Hone. change (1 - 1) with 0.
    pose proof (inv_die _ _ _ _ _ _ _ Hi Ho HoD Hone) as Hi1.
    pose proof (live_dying s o ob (mkObj 0 (members ob)) Ho Hc0 eq_refl) as Hlv.
    set (s1 := mkHeap (<[o := mkObj 0 (members ob)]> (objs s)) (refs s)) in *.
    assert (objs s1 !! o = Some (mkObj 0 (members ob))) as Ho1 by (cbn; by rewrite lookup_insert_eq).
    destruct (destroy_members_spec (remove_ref fuel) fuel o (mkObj 0 (members ob)) (o :: D) L B IH (list_elem_of_here _ _)
      (members ob) s1 m Ho1) as (s2 & m2 & E2 & Hi2 & Hl2 & Hlive2);
      [by apply (i_nodup _ _ _ _ _ Hi o)| |done|lia|].
    { intros h Hh. split; [done|]. by apply (i_members _ _ _ _ _ Hi o ob). }
    destruct (i_dying _ _ _ _ _ Hi2 o (list_elem_of_here _ _)) as (ob2 & Ho2 & Hz).
    exists (mkHeap (delete o (objs s2)) (refs s2)), m2. rewrite E2. split; [done|].
    split; [by apply inv_free_obj|]. rewrite (live_free s2 o ob2) by done. split; [|lia].
    by apply (leaves_die s s1 s2 m m2 D o ob).
Qed.

(** ** Balanced stores *)

(** Between operations: every object has as many references as it counts, and at
    least one; every reference is to an object that is there; and each ObjectRef is
    a member of one object at most.  [L] are the references the program holds in plain
    pointers. *)
Record balanced (s : heap) (L : list loc) : Prop := {
  b_count : forall o ob, objs s !! o = Some ob ->
    refCount_ ob = nrefs o (refs s) + nloose o L /\ 0 < refCount_ ob;
  b_alive : forall o, 0 < nrefs o (refs s) + nloose o L -> is_Some (objs s !! o);
  b_members : forall o ob h, objs s !! o = Some ob -> h ∈ members ob -> is_Some (refs s !! h);
  b_disjoint : forall o1 o2 ob1 ob2 h, objs s !! o1 = Some ob1 -> objs s !! o2 = Some ob2 ->
    h ∈ members ob1 -> h ∈ members ob2 -> o1 = o2;
  b_nodup : forall o ob, objs s !! o = Some ob -> NoDup (members ob);
}.

Lemma balanced_inv s L : balanced s L <-> inv s L [] [] (refs s).
Proof.
  split.
  - intros [b1 b2 b3 b4 b5]. split; eauto.
    + by intros h []%elem_of_nil.
    + by intros o []%elem_of_nil.
    + intros o Ho. split; [auto|apply not_elem_of_nil].
    + intros o ob h Ho _ Hh. split; [eauto|apply not_elem_of_nil].
  - intros [i1 i2 i3 i4 i5 i6 i7 i8]. split; eauto.
    + intros o ob Ho. apply i3; [done|apply not_elem_of_nil].
    + intros o Ho. by apply i5.
    + intros o ob h Ho Hh. apply (i6 o ob h Ho); [apply not_elem_of_nil|done].
Qed.

(** A store that has its plan as its ObjectRefs. *)
Lemma inv_balanced s L m : inv s L [] [] m -> refs s = m /\ balanced s L.
Proof.
  intros Hi. assert (refs s = m) as <-; [|by rewrite balanced_inv].
  apply map_eq. intros h. apply (i_refs _ _ _ _ _ Hi), not_elem_of_nil.
Qed.

(** An ObjectRef that no object has as a member. *)
Definition free_standing (s : heap) (h : handle) : Prop := ~ member s [] h.

Lemma release_balanced fuel s L h v :
  balanced s L -> (live s < fuel)%nat -> refs s !! h = Some v -> free_standing s h \/ v = None ->
  exists s', release fuel h s = Some (s', Ok tt) /\ balanced s' L /\ refs s' !! h = Some None
    /\ (forall x, free_standing s x -> x <> h -> refs s' !! x = refs s !! x)
    /\ (free_standing s h -> free_standing s' h) /\ (live s' <= live s)%nat.
Proof.
  intros Hb Hf Hh Hm. destruct v as [p|].
  2: { exists s. unfold release, release_with, mbind, R_bind, get_ref. rewrite Hh.
       split_and!; try done. }
  destruct Hm as [Hm|]; [|done].
  destruct (release_spec _ _ _ _ _ _ _ _ _ (remove_ref_spec fuel) (proj1 (balanced_inv _ _) Hb) Hf Hh
    (not_elem_of_nil _) Hm) as (s' & m' & E & Hi & Hn & Hl & Hlive).
  destruct (inv_balanced _ _ _ Hi) as [<- Hb'].
  exists s'. split_and!; try done.
  - intros x Hx Hne. destruct (refs s' !! x) as [w|] eqn:Ex.
    + apply (l_refs _ _ _ _ _ _ Hl) in Ex. by rewrite lookup_insert_ne in Ex.
    + destruct (refs s !! x) as [w|] eqn:Ew; [|done]. exfalso.
      destruct (l_gone _ _ _ _ _ _ Hl x) as [[]%elem_of_nil|(o & ob & Ho & Hmo & HD & _)]; [|done|].
      * rewrite lookup_insert_ne by done. by eexists.
      * apply Hx. by exists o, ob.
  - intros _ (o & ob' & Ho & HD & Hmo). destruct (l_objs _ _ _ _ _ _ Hl _ _ Ho) as (ob & Hob & Em & _).
    apply Hm. exists o, ob. by rewrite <- Em.
Qed.

(** A reference goes into a nil ObjectRef, old or new. *)
Definition owning (p : option loc) (L : list loc) : list loc := match p with Some o => o :: L | None => L end.

Lemma nloose_owning o p L : nloose o (owning p L) = points p o + nloose o L.
Proof. destruct p; simpl; [apply nloose_cons|]. unfold points. by rewrite decide_False. Qed.

Lemma store_balanced s L h p :
  balanced s (owning p L) -> (refs s !! h = Some None \/ refs s !! h = None) ->
  balanced (mkHeap (objs s) (<[h := p]> (refs s))) L.
Proof.
  intros [b1 b2 b3 b4 b5] Hh.
  assert (forall o, nrefs o (<[h := p]> (refs s)) + nloose o L = nrefs o (refs s) + nloose o (owning p L)) as Hsum.
  { intros o. rewrite nloose_owning. destruct Hh as [Hh|Hh].
    - rewrite (nrefs_insert _ _ _ _ p Hh). unfold points at 1. rewrite decide_False by done. lia.
    - rewrite (nrefs_insert_fresh _ _ _ p Hh). lia. }
  split; cbn [objs refs]; eauto.
  - intros o ob Ho. rewrite Hsum. auto.
  - intros o Ho. rewrite Hsum in Ho. auto.
  - intros o ob x Ho Hx. destruct (decide (x = h)) as [->|Hne]; [rewrite lookup_insert_eq; by eexists|].
    rewrite lookup_insert_ne by done. eauto.
Qed.

(** [_add_ref] gives one more reference. *)
Lemma add_ref_balanced s L o ob :
  balanced s L -> objs s !! o = Some ob ->
  exists s', add_ref o s = Some (s', Ok tt) /\ balanced s' (o :: L) /\ refs s' = refs s
    /\ (forall x, member s' [] x <-> member s [] x) /\ live s' = live s.
Proof.
  intros [b1 b2 b3 b4 b5] Ho. destruct (b1 _ _ Ho) as [Hc Hpos].
  exists (mkHeap (<[o := mkObj (refCount_ ob + 1) (members ob)]> (objs s)) (refs s)).
  unfold add_ref, mbind, R_bind, get_obj, put_obj. rewrite Ho. cbn [mbind option_bind].
  rewrite (proj2 (Z.ltb_lt _ _) Hpos). split; [done|]. split; [|split; [done|split]].
  - split; cbn [objs refs].
    + intros x obx [[<- <-]|[Hne Hx]]%lookup_insert_Some; rewrite nloose_cons; unfold points; simpl.
      * rewrite decide_True by done. lia.
      * rewrite decide_False by congruence. destruct (b1 _ _ Hx). lia.
    + intros x Hx. destruct (decide (x = o)) as [->|Hne]; [rewrite lookup_insert_eq; by eexists|].
      rewrite lookup_insert_ne by done. apply b2. rewrite nloose_cons in Hx. unfold points in Hx.
      rewrite decide_False in Hx by congruence. lia.
    + intros x obx y [[<- <-]|[Hne Hx]]%lookup_insert_Some; simpl; eauto.
    + intros o1 o2 ob1 ob2 y [[<- <-]|[_ H1]]%lookup_insert_Some [[<- <-]|[_ H2]]%lookup_insert_Some; simpl; eauto.
    + intros x obx [[<- <-]|[_ Hx]]%lookup_insert_Some; simpl; eauto.
  - intros x. split; intros (o2 & ob2 & Ho2 & HD & Hx); simpl in *.
    + destruct (decide (o2 = o)) as [->|Hne].
      * rewrite lookup_insert_eq in Ho2. injection Ho2 as <-. by exists o, ob.
      * rewrite lookup_insert_ne in Ho2 by done. by exists o2, ob2.
    + destruct (decide (o2 = o)) as [->|Hne].
      * assert (ob2 = ob) as -> by congruence. eexists o, _. cbn [objs]. rewrite lookup_insert_eq. done.
      * exists o2, ob2. cbn [objs]. by rewrite lookup_insert_ne.
  - apply live_put with ob; [done|done|simpl; lia].
Qed.

(** ** Operations of a program *)

Inductive rop :=
| RNew (o : loc) (hs : list handle)
| RInit (h : handle) (p : option loc)
| RCopy (h h' : handle)
| ROfObj (h : handle) (o : loc)
| RDelete (h : handle)
| RAssignPtr (h : handle) (p : option loc)
| RAssignObj (h : handle) (o : loc)
| RAssign (h h' : handle)
| ROut (h : handle)
| RRetn (h : handle).

Definition exec (fuel : nat) (op : rop) : R unit :=
  match op with
  | RNew o hs => new_obj o hs
  | RInit h p => ref_of_ptr h p
  | RCopy h h' => ref_copy h h'
  | ROfObj h o => ref_of_obj h o
  | RDelete h => ref_delete fuel h
  | RAssignPtr h p => assign_ptr fuel h p
  | RAssignObj h o => assign_obj fuel h o
  | RAssign h h' => assign_ref fuel h h'
  | ROut h => ref_out fuel h
  | RRetn h => _ ← ref_retn h; mret tt
  end.

(** The references in plain pointers before and after. *)
Definition held (s : heap) (op : rop) (L L' : list loc) : Prop :=
  match op with
  | RNew o _ => L' = o :: L
  | RInit _ p | RAssignPtr _ p => L = owning p L'
  | RRetn h => L' = owning (default None (refs s !! h)) L
  | _ => L' = L
  end.

(** An ObjectRef that may be overwritten: it is nil, or nobody's member (so that
    the release cannot delete it). *)
Definition releasable (s : heap) (h : handle) : Prop :=
  refs s !! h = Some None \/ (is_Some (refs s !! h) /\ free_standing s h).

(** An object that is still there when [h] has been released. *)
Definition survives (s : heap) (L : list loc) (h : handle) (o : loc) : Prop :=
  o ∈ L \/ (refs s !! h = Some None /\ is_Some (objs s !! o)) \/ refs s !! h = Some (Some o)
  \/ exists x, x <> h /\ free_standing s x /\ refs s !! x = Some (Some o).

(** When the operation is used as the classes intend. *)
Definition allowed (s : heap) (L : list loc) (op : rop) : Prop :=
  match op with
  | RNew o hs => objs s !! o = None /\ NoDup hs /\ forall h, h ∈ hs -> refs s !! h = None
  | RInit h _ => refs s !! h = None
  | RCopy h h' => refs s !! h = None /\ is_Some (refs s !! h')
  | ROfObj h o => refs s !! h = None /\ is_Some (objs s !! o)
  | RDelete h => is_Some (refs s !! h) /\ free_standing s h
  | RAssignPtr h _ | ROut h => releasable s h
  | RAssignObj h o => releasable s h /\ survives s L h o
  | RAssign h h' => h = h' \/ (releasable s h /\ is_Some (refs s !! h')
                              /\ (free_standing s h' \/ refs s !! h = Some None))
  | RRetn h => is_Some (refs s !! h)
  end.

(** The pointers afterwards: of the ObjectRef that was operated on, and of the others
    that are nobody's members. *)
Definition pointers (s s' : heap) (op : rop) : Prop :=
  let others h := forall x, free_standing s x -> x <> h -> refs s' !! x = refs s !! x in
  match op with
  | RNew _ hs => (forall h, h ∈ hs -> refs s' !! h = Some None) /\ forall x, x ∉ hs -> refs s' !! x = refs s !! x
  | RInit h p | RAssignPtr h p => refs s' !! h = Some p /\ others h
  | RCopy h h' | RAssign h h' => refs s' !! h = refs s !! h' /\ others h
  | ROfObj h o | RAssignObj h o => refs s' !! h = Some (Some o) /\ others h
  | RDelete h => refs s' !! h = None /\ others h
  | ROut h | RRetn h => refs s' !! h = Some None /\ others h
  end.

Definition works (fuel : nat) (s : heap) (op : rop) (L' : list loc) : Prop :=
  exists s', exec fuel op s = Some (s', Ok tt) /\ balanced s' L' /\ pointers s s' op.

Lemma put_ref_ok s h p v : refs s !! h = Some v -> put_ref h p s = Some (mkHeap (objs s) (<[h := p]> (refs s)), Ok tt).
Proof. intros Hh. unfold put_ref. by rewrite Hh. Qed.

Lemma new_ref_ok s h p : refs s !! h = None -> new_ref h p s = Some (mkHeap (objs s) (<[h := p]> (refs s)), Ok tt).
Proof. intros Hh. unfold new_ref. by rewrite Hh. Qed.

Lemma duplicate_balanced s L p :
  balanced s L -> (forall o, p = Some o -> is_Some (objs s !! o)) ->
  exists s', duplicate p s = Some (s', Ok p) /\ balanced s' (owning p L) /\ refs s' = refs s
    /\ (forall x, member s' [] x <-> member s [] x).
Proof.
  intros Hb Hp. destruct p as [o|]; [|exists s; by split_and!].
  destruct (Hp o eq_refl) as [ob Ho]. destruct (add_ref_balanced s L o ob Hb Ho) as (s' & E & Hb' & Hr & Hm & _).
  exists s'. unfold duplicate, mbind, R_bind. rewrite E. by split_and!.
Qed.

(** Initialising an ObjectRef, and assigning to one that has been released. *)
Lemma store_works s L h p :
  balanced s (owning p L) -> (refs s !! h = Some None \/ refs s !! h = None) ->
  let s' := mkHeap (objs s) (<[h := p]> (refs s)) in
  balanced s' L /\ refs s' !! h = Some p /\ forall x, x <> h -> refs s' !! x = refs s !! x.
Proof.
  intros Hb Hh s'. split; [by apply store_balanced|]. cbn [s' refs]. rewrite lookup_insert_eq. split; [done|].
  intros x Hx. by rewrite lookup_insert_ne.
Qed.

(** A pointer in an ObjectRef is to an object that is there. *)
Lemma pointer_alive s L h o : balanced s L -> refs s !! h = Some (Some o) -> is_Some (objs s !! o).
Proof.
  intros Hb Hh. apply (b_alive _ _ Hb). pose proof (nrefs_pos _ _ _ Hh). pose proof (nloose_nonneg o L). lia.
Qed.

Section operations.
Context (fuel : nat) (s : heap).

Lemma init_works L L' h p :
  balanced s L -> L = owning p L' -> refs s !! h = None -> works fuel s (RInit h p) L'.
Proof.
  intros Hb -> Hh. destruct (store_works s L' h p Hb (or_intror Hh)) as (Hb' & Hp & Ho).
  eexists. split; [by apply new_ref_ok|]. split; [done|]. split; [done|]. auto.
Qed.

Lemma copy_works L h v h' :
  balanced s L -> refs s !! h = None -> refs s !! h' = Some v -> works fuel s (RCopy h h') L.
Proof.
  intros Hb Hh Hv. destruct (duplicate_balanced s L v Hb) as (s1 & E1 & Hb1 & Hr1 & _).
  { intros o ->. by eapply pointer_alive. }
  destruct (store_works s1 L h v Hb1) as (Hb' & Hp & Ho); [right; by rewrite Hr1|].
  exists (mkHeap (objs s1) (<[h := v]> (refs s1))). cbn [exec]. unfold ref_copy, get_ref, mbind, R_bind. rewrite Hv. cbn [mbind option_bind].
  rewrite E1. split; [by apply new_ref_ok; rewrite Hr1|]. split; [done|]. split; [by rewrite Hv|].
  intros x _ Hx. by rewrite Ho, Hr1.
Qed.

Lemma of_obj_works L h o :
  balanced s L -> refs s !! h = None -> is_Some (objs s !! o) -> works fuel s (ROfObj h o) L.
Proof.
  intros Hb Hh Hobj. destruct (duplicate_balanced s L (Some o) Hb) as (s1 & E1 & Hb1 & Hr1 & _).
  { by intros ? [= <-]. }
  destruct (store_works s1 L h (Some o) Hb1) as (Hb' & Hp & Ho); [right; by rewrite Hr1|].
  eexists. cbn [exec]. unfold ref_of_obj, mbind, R_bind. rewrite E1.
  split; [by apply new_ref_ok; rewrite Hr1|]. split; [done|]. split; [done|].
  intros x _ Hx. by rewrite Ho, Hr1.
Qed.

Lemma retn_works L h v :
  balanced s L -> refs s !! h = Some v -> works fuel s (RRetn h) (owning v L).
Proof.
  intros Hb Hh. eexists. cbn [exec]. unfold ref_retn, get_ref, mbind, R_bind. rewrite Hh. cbn [mbind option_bind].
  rewrite (put_ref_ok _ _ _ _ Hh). split; [done|].
  assert (balanced (mkHeap (objs s) (<[h := None]> (refs s))) (owning v L)) as Hb'.
  { destruct Hb as [b1 b2 b3 b4 b5].
    assert (forall o, nrefs o (<[h := None]> (refs s)) + nloose o (owning v L) = nrefs o (refs s) + nloose o L) as Hsum.
    { intros o. rewrite (nrefs_insert _ _ _ _ None Hh), nloose_owning. unfold points at 2. rewrite decide_False by done. lia. }
    split; cbn [objs refs]; eauto.
    - intros o ob Ho. rewrite Hsum. auto.
    - intros o Ho. rewrite Hsum in Ho. auto.
    - intros o ob x Ho Hx. destruct (decide (x = h)) as [->|Hne]; [rewrite lookup_insert_eq; by eexists|].
      rewrite lookup_insert_ne by done. by apply (b3 o ob). }
  split; [done|]. cbn. rewrite lookup_insert_eq. split; [done|]. intros x _ Hx. by rewrite lookup_insert_ne.
Qed.

(** The first half of the assignments. *)
Lemma releasable_release L h :
  balanced s L -> (live s < fuel)%nat -> releasable s h ->
  exists s', release fuel h s = Some (s', Ok tt) /\ balanced s' L /\ refs s' !! h = Some None
    /\ (forall x, free_standing s x -> x <> h -> refs s' !! x = refs s !! x)
    /\ (free_standing s h -> free_standing s' h).
Proof.
  intros Hb Hf Hr. assert (exists v, refs s !! h = Some v /\ (free_standing s h \/ v = None)) as (v & Hv & Hm).
  { destruct Hr as [?|[[v ?] ?]]; eauto. }
  destruct (release_balanced fuel s L h v Hb Hf Hv Hm) as (s' & ? & ? & ? & ? & ? & _). by exists s'.
Qed.

Lemma delete_works L h :
  balanced s L -> (live s < fuel)%nat -> is_Some (refs s !! h) -> free_standing s h -> works fuel s (RDelete h) L.
Proof.
  intros Hb Hf Hs Hm. destruct (releasable_release L h Hb Hf (or_intror (conj Hs Hm))) as (s1 & E & Hb1 & Hn & Ho & Hm1).
  exists (mkHeap (objs s1) (delete h (refs s1))). cbn [exec]. unfold ref_delete, mbind, R_bind. rewrite E. split; [done|].
  split.
  - apply (inv_balanced _ _ (delete h (refs s1))). apply inv_free_ref; [by apply balanced_inv|done|apply not_elem_of_nil|exact (Hm1 Hm)].
  - cbn. rewrite lookup_delete_eq. split; [done|]. intros x Hx Hne. rewrite lookup_delete_ne by done. auto.
Qed.

Lemma assign_ptr_works L L' h p :
  balanced s L -> L = owning p L' -> (live s < fuel)%nat -> releasable s h -> works fuel s (RAssignPtr h p) L'.
Proof.
  intros Hb -> Hf Hr. destruct (releasable_release _ h Hb Hf Hr) as (s1 & E & Hb1 & Hn & Ho & _).
  destruct (store_works s1 L' h p Hb1 (or_introl Hn)) as (Hb' & Hp & Ho').
  eexists. cbn [exec]. unfold assign_ptr, mbind, R_bind. rewrite E. split; [by eapply put_ref_ok|].
  split; [done|]. split; [done|]. intros x Hx Hne. rewrite Ho' by done. auto.
Qed.

Lemma out_works L h :
  balanced s L -> (live s < fuel)%nat -> releasable s h -> works fuel s (ROut h) L.
Proof. intros Hb Hf Hr. exact (assign_ptr_works L L h None Hb eq_refl Hf Hr). Qed.

(** The second half of an assignment that duplicates. *)
Lemma duplicate_put s1 L h p :
  balanced s1 L -> refs s1 !! h = Some None -> (forall o, p = Some o -> is_Some (objs s1 !! o)) ->
  exists s', (q ← duplicate p; put_ref h q) s1 = Some (s', Ok tt) /\ balanced s' L
    /\ refs s' !! h = Some p /\ forall x, x <> h -> refs s' !! x = refs s1 !! x.
Proof.
  intros Hb Hh Hp. destruct (duplicate_balanced s1 L p Hb Hp) as (s2 & E & Hb2 & Hr & _).
  destruct (store_works s2 L h p Hb2) as (Hb' & Hp' & Ho); [left; by rewrite Hr|].
  eexists. unfold mbind, R_bind. rewrite E. split; [eapply put_ref_ok; by rewrite Hr|].
  split; [done|]. split; [done|]. intros x Hx. by rewrite Ho, Hr.
Qed.

Lemma assign_works L h h' :
  balanced s L -> (live s < fuel)%nat -> allowed s L (RAssign h h') -> works fuel s (RAssign h h') L.
Proof.
  intros Hb Hf Ha. unfold works. cbn [exec]. unfold assign_ref. case_bool_decide as Hne.
  2: { exists s. by split_and!; subst. }
  destruct Ha as [?|(Hr & [v Hv] & Hs)]; [done|].
  destruct (releasable_release L h Hb Hf Hr) as (s1 & E & Hb1 & Hn & Ho & _).
  assert (refs s1 !! h' = Some v) as Hv1.
  { destruct Hs as [Hs|Hs]; [by rewrite Ho|].
    unfold release, release_with, mbind, R_bind, get_ref in E. rewrite Hs in E. by injection E as <-. }
  destruct (duplicate_put s1 L h v Hb1 Hn) as (s2 & E2 & Hb2 & Hp & Ho2).
  { intros o ->. by eapply pointer_alive. }
  exists s2. unfold mbind at 1, R_bind at 1. rewrite E. unfold mbind at 1, R_bind at 1. unfold get_ref at 1. rewrite Hv1. cbn [mbind option_bind].
  split; [exact E2|]. split; [done|]. split; [by rewrite Hv|]. intros x Hx Hxh. rewrite Ho2 by done. auto.
Qed.

Lemma assign_obj_works L h o :
  balanced s L -> (live s < fuel)%nat -> allowed s L (RAssignObj h o) -> works fuel s (RAssignObj h o) L.
Proof.
  intros Hb Hf [Hr Hs]. assert (exists v, refs s !! h = Some v) as [v Hv] by (destruct Hr as [|[[v ?] _]]; eauto).
  unfold works. cbn [exec]. unfold assign_obj. unfold mbind at 1, R_bind at 1. unfold get_ref. rewrite Hv. cbn [mbind option_bind].
  case_bool_decide as Hne.
  2: { exists s. by split_and!; subst. }
  destruct (releasable_release L h Hb Hf Hr) as (s1 & E & Hb1 & Hn & Ho & _).
  destruct (duplicate_put s1 L h (Some o) Hb1 Hn) as (s2 & E2 & Hb2 & Hp & Ho2).
  { intros ? [= <-]. destruct Hs as [Hs|[[Hh Hs]|[Hs|(x & Hx & Hfs & Hs)]]].
    - apply (b_alive _ _ Hb1). pose proof (nrefs_nonneg o (refs s1)).
      assert (0 < nloose o L); [|lia]. unfold nloose. assert (o ∈ filter (fun x => x = o) L) as Hin by (by apply list_elem_of_filter).
      destruct (filter _ L); [by apply elem_of_nil in Hin|simpl; lia].
    - unfold release, release_with, mbind, R_bind, get_ref in E. rewrite Hh in E. by injection E as <-.
    - congruence.
    - apply (pointer_alive s1 L x); [done|]. by rewrite Ho. }
  exists s2. unfold mbind at 1, R_bind at 1. rewrite E. split; [exact E2|]. split; [done|]. split; [done|].
  intros x Hx Hxh. rewrite Ho2 by done. auto.
Qed.
End operations.

Lemma fresh_members (m : gmap handle (option loc)) hs :
  (forall h, h ∈ hs -> m !! h = None) -> NoDup hs ->
  let m' := foldr (fun h m => <[h := None]> m) m hs in
  (forall h, h ∈ hs -> m' !! h = Some None) /\ (forall h, h ∉ hs -> m' !! h = m !! h)
  /\ forall o, nrefs o m' = nrefs o m.
Proof.
  intros Hm Hnd. induction Hnd as [|h hs Hh Hnd IH]; [split_and!; try done; by intros h []%elem_of_nil|].
  destruct IH as (I1 & I2 & I3); [intros x Hx; apply Hm; by apply list_elem_of_further|].
  cbn [foldr]. split_and!.
  - intros x [->|Hx]%elem_of_cons; [by rewrite lookup_insert_eq|].
    rewrite lookup_insert_ne by (by intros ->). auto.
  - intros x [Hne Hx]%not_elem_of_cons. rewrite lookup_insert_ne by done. auto.
  - intros o. rewrite nrefs_insert_fresh, I3.
    + unfold points. rewrite decide_False by done. lia.
    + rewrite I2 by done. apply Hm, list_elem_of_here.
Qed.

Lemma new_works fuel s L o hs :
  balanced s L -> allowed s L (RNew o hs) -> works fuel s (RNew o hs) (o :: L).
Proof.
  intros [b1 b2 b3 b4 b5] (Ho & Hnd & Hhs). destruct (fresh_members _ _ Hhs Hnd) as (I1 & I2 & I3).
  assert (nrefs o (refs s) = 0 /\ nloose o L = 0) as [Hz1 Hz2].
  { pose proof (nrefs_nonneg o (refs s)). pose proof (nloose_nonneg o L).
    assert (~ 0 < nrefs o (refs s) + nloose o L); [|lia]. intros Hp. destruct (b2 o Hp). congruence. }
  assert (forall x, x <> o -> nloose x (o :: L) = nloose x L) as Hl.
  { intros x Hx. rewrite nloose_cons. unfold points. by rewrite decide_False by congruence. }
  assert (nloose o (o :: L) = 1) as Hl1 by (rewrite nloose_cons; unfold points; rewrite decide_True by done; lia).
  assert (forall x ob h, objs s !! x = Some ob -> h ∈ members ob -> h ∉ hs) as Hold.
  { intros x ob h Hx Hh Hin. destruct (b3 _ _ _ Hx Hh). rewrite Hhs in *; done. }
  eexists. cbn [exec]. unfold new_obj. rewrite Ho. split; [done|]. split; [|by split].
  split; cbn [objs refs].
  - intros x obx [[<- <-]|[Hne Hx]]%lookup_insert_Some; rewrite I3; simpl; [lia|]. rewrite Hl by done. auto.
  - intros x Hx. destruct (decide (x = o)) as [->|Hne]; [rewrite lookup_insert_eq; by eexists|].
    rewrite lookup_insert_ne by done. apply b2. by rewrite I3, Hl in Hx.
  - intros x obx h [[<- <-]|[Hne Hx]]%lookup_insert_Some Hh; simpl in *; [rewrite I1 by done; by eexists|].
    rewrite I2 by eauto. eauto.
  - intros o1 o2 ob1 ob2 h [[<- <-]|[? H1]]%lookup_insert_Some [[<- <-]|[? H2]]%lookup_insert_Some Hh1 Hh2;
      simpl in *; try done; try (exfalso; by eapply Hold). eauto.
  - intros x obx [[<- <-]|[_ Hx]]%lookup_insert_Some; simpl; eauto.
Qed.

Lemma exec_works fuel s op L L' :
  balanced s L -> held s op L L' -> allowed s L op -> (live s < fuel)%nat -> works fuel s op L'.
Proof.
  intros Hb Hh Ha Hf. destruct op; simpl in Hh; subst.
  - by apply new_works.
  - by eapply init_works.
  - destruct Ha as [? [v ?]]. by eapply copy_works.
  - destruct Ha. by apply of_obj_works.
  - destruct Ha. by apply delete_works.
  - by eapply assign_ptr_works.
  - by apply assign_obj_works.
  - by apply assign_works.
  - by apply out_works.
  - destruct Ha as [v Hv]. rewrite Hv. by apply retn_works.
Qed.

(** Something refers to [o]. *)
Definition referenced (s : heap) (L : list loc) (o : loc) : Prop :=
  o ∈ L \/ exists h, refs s !! h = Some (Some o).

Lemma referenced_count s L o : referenced s L o <-> 0 < nrefs o (refs s) + nloose o L.
Proof.
  pose proof (nrefs_nonneg o (refs s)). pose proof (nloose_nonneg o L). split.
  - intros [Hin|[h Hh]]; [|pose proof (nrefs_pos _ _ _ Hh); lia]. assert (0 < nloose o L); [|lia].
    unfold nloose. assert (o ∈ filter (fun x => x = o) L) as Hf by (by apply list_elem_of_filter).
    destruct (filter _ L); [by apply elem_of_nil in Hf|simpl; lia].
  - intros Hp. destruct (decide (0 < nloose o L)) as [Hl|Hl].
    + left. unfold nloose in Hl. destruct (filter (fun x => x = o) L) as [|x l] eqn:E; [simpl in Hl; lia|].
      assert (x ∈ filter (fun x => x = o) L) as [-> ?]%list_elem_of_filter by (rewrite E; apply list_elem_of_here). done.
    + right. assert (0 < nrefs o (refs s)) as Hn by lia. unfold nrefs in Hn.
      destruct (map_choose (filter (fun kv : nat * option nat => kv.2 = Some o) (refs s))) as (h & v & [Hh Hv]%map_lookup_filter_Some).
      { intros E. rewrite E, map_size_empty in Hn. lia. }
      simpl in Hv. subst. by exists h.
Qed.

(** The states of a program that uses ObjectRefs as [allowed] says. *)
Inductive reached : heap -> list loc -> Prop :=
| reached_start : reached (mkHeap ∅ ∅) []
| reached_step s op L L' s' : reached s L -> held s op L L' -> allowed s L op ->
    exec (S (live s)) op s = Some (s', Ok tt) -> reached s' L'.

Lemma balanced_empty : balanced (mkHeap ∅ ∅) [].
Proof. by split; cbn; intros *. Qed.

Lemma reached_balanced s L : reached s L -> balanced s L.
Proof.
  induction 1 as [|s op L L' s' _ IH Hh Ha E]; [apply balanced_empty|].
  destruct (exec_works (S (live s)) s op L L' IH Hh Ha ltac:(lia)) as (s1 & E1 & Hb & _). congruence.
Qed.

(** ** The claims *)

(** C16 (functional). Used as intended, every operation on ObjectRefs succeeds: it touches
    nothing that is gone, ends (a deletion may delete more objects, to any depth), gives the
    ObjectRef the pointer it names, and leaves every other ObjectRef that is nobody's
    member as it was. *)
Theorem objectref_operations fuel s op L L' :
  reached s L -> held s op L L' -> allowed s L op -> (live s < fuel)%nat ->
  exists s', exec fuel op s = Some (s', Ok tt) /\ pointers s s' op.
Proof.
  intros Hr Hh Ha Hf. destruct (exec_works fuel s op L L' (reached_balanced _ _ Hr) Hh Ha Hf) as (s' & ? & _ & ?). eauto.
Qed.

(** An object exists exactly as long as something refers to it, an ObjectRef or a
    plain pointer that owns a reference: nothing is deleted early, and nothing but cycles is
    left behind. Its count is the number of those references. *)
Theorem object_lifetime s L :
  reached s L ->
  forall o, (is_Some (objs s !! o) <-> referenced s L o)
  /\ forall ob, objs s !! o = Some ob -> refCount_ ob = nrefs o (refs s) + nloose o L.
Proof.
  intros Hr o. destruct (reached_balanced _ _ Hr) as [b1 b2 _ _ _]. rewrite referenced_count. split.
  - split; [intros [ob Ho]; destruct (b1 _ _ Ho); lia|apply b2].
  - intros ob Ho. by apply b1.
Qed.

(** ** Concrete programs *)

(** Objects 0 and 1 with one member each; ObjectRef 0 owns object 0, whose member owns
    object 1. *)
Definition list_program : list rop :=
  [RNew 0 [10%nat]; RInit 0 (Some 0%nat); RNew 1 [11%nat]; RAssignPtr 10 (Some 1%nat)].

Fixpoint exec_all (ops : list rop) (s : heap) : option heap :=
  match ops with
  | [] => Some s
  | op :: ops => match exec (S (live s)) op s with
                 | Some (s, Ok _) => exec_all ops s
                 | _ => None
                 end
  end.

Definition two_objects : heap := default (mkHeap ∅ ∅) (exec_all list_program (mkHeap ∅ ∅)).

(** Dropping ObjectRef 0 deletes both; moving it to the member's object reads the member
    after it is gone. *)
Lemma drop_list :
  (fun r => (bool_decide (objs (fst r) = ∅), bool_decide (refs (fst r) = ∅))) <$> exec 3 (RDelete 0) two_objects
  = Some (true, true).
Proof. vm_compute. reflexivity. Qed.

Lemma advance_reads_deleted_member fuel : exec fuel (RAssign 0 10) two_objects = None.
Proof. destruct fuel as [|[|[|fuel]]]; vm_compute; reflexivity. Qed.

(** One object, owned by ObjectRef 0. *)
Definition one_new : heap := mkHeap {[ 0%nat := mkObj 1 [] ]} ∅.
Definition one_owned : heap := mkHeap {[ 0%nat := mkObj 1 [] ]} {[ 0%nat := Some 0%nat ]}.

Lemma one_owned_reached : reached one_owned [].
Proof.
  apply (reached_step one_new (RInit 0 (Some 0%nat)) [0%nat]); [|done|done|vm_compute; reflexivity].
  apply (reached_step (mkHeap ∅ ∅) (RNew 0 []) []); [apply reached_start|done| |vm_compute; reflexivity].
  split; [done|]. split; [apply NoDup_nil_2|]. by intros h []%elem_of_nil.
Qed.

Lemma objectref_operations_witness :
  allowed one_owned [] (RDelete 0) /\ exists s', exec 2 (RDelete 0) one_owned = Some (s', Ok tt)
    /\ pointers one_owned s' (RDelete 0).
Proof.
  assert (allowed one_owned [] (RDelete 0)) as Ha.
  { split; [by eexists|]. intros (o & ob & Ho & _ & Hm). cbn in Ho.
    apply lookup_singleton_Some in Ho as [_ <-]. by apply elem_of_nil in Hm. }
  split; [exact Ha|].
  apply (objectref_operations 2 one_owned (RDelete 0) [] [] one_owned_reached eq_refl Ha). vm_compute. lia.
Defined.

Lemma object_lifetime_witness :
  reached one_owned [] /\ (is_Some (objs one_owned !! 0%nat) <-> referenced one_owned [] 0).
Proof.
  split; [exact one_owned_reached|]. exact (proj1 (object_lifetime one_owned [] one_owned_reached 0%nat)).
Defined.
