(* ===== verification/Adapters.v ===== *)
(** * Holders of one object: daf/ServiceAdapter, daf/RefCountHandler_T and the holders of TAF/dds that derive from it

    A ServiceAdapter forwards the calls of ACE's service framework to the object it has made; a RefCountHandler_T keeps a handle that
    is finalised when it is replaced and when the holder goes, for a publisher or subscriber by deleting it at its participant.  The reference
    counts are those of [ObjectRef]. *)

From S2P Require Import Prelude.

(** ** ServiceAdapter *)

(** daf/ServiceAdapter.h:45-48 [ServiceAdapter]. Whether it has an object that is a service; [made]: the object's constructor did not throw; [is_service]: the cast succeeds. *)
Definition has_service (made is_service : bool) : bool := made && is_service.

(** What the object's method does each time it is called: it returns, or it throws ([None]). *)
Abbreviation behaviour := (nat -> option Z).

(** daf/ServiceAdapter.h:51-57 [ServiceAdapter::init]. The exception is caught inside the loop, whose condition is that there is an object. *)
Fixpoint adapter_init (fuel : nat) (p : bool) (calls : behaviour) (i : nat) : option Z :=
  match fuel with
  | O => None
  | S fuel =>
      if p then match calls i with Some r => Some r | None => adapter_init fuel p calls (S i) end
      else Some (-1)
  end.

(** daf/ServiceAdapter.h:60-66 [ServiceAdapter::suspend]. *)
Definition adapter_suspend : nat -> bool -> behaviour -> nat -> option Z := adapter_init.
(** daf/ServiceAdapter.h:69-75 [ServiceAdapter::resume]. *)
Definition adapter_resume : nat -> bool -> behaviour -> nat -> option Z := adapter_init.
(** daf/ServiceAdapter.h:78-84 [ServiceAdapter::fini]. *)
Definition adapter_fini : nat -> bool -> behaviour -> nat -> option Z := adapter_init.
(** daf/ServiceAdapter.h:87-93 [ServiceAdapter::info]. *)
Definition adapter_info : nat -> bool -> behaviour -> nat -> option Z := adapter_init.

(** A call is made again until it returns; without an object it gives -1. *)
Lemma adapter_first calls n r : (forall i, (i < n)%nat -> calls i = None) -> calls n = Some r -> adapter_init (S n) true calls 0 = Some r.
Proof.
  intros Hn Hr. assert (forall k i, (i + k = n)%nat -> adapter_init (S k) true calls i = Some r) as Hk; [|by apply Hk].
  induction k as [|k IH]; intros i Hi; cbn [adapter_init].
  - replace i with n by lia. by rewrite Hr.
  - rewrite Hn by lia. apply IH. lia.
Qed.

Lemma adapter_without_object fuel calls : adapter_init (S fuel) false calls 0 = Some (-1).
Proof. done. Qed.

(** A service that throws each time is called for ever: the adapter does not give the -1 that stands behind the loop. *)
Lemma throwing_service_loops calls : (forall i, calls i = None) -> forall fuel, adapter_init fuel true calls 0 = None.
Proof. intros Hc fuel. generalize 0%nat. induction fuel as [|fuel IH]; intros i; cbn; [done|]. by rewrite Hc. Qed.

(** ** RefCountHandler_T *)

(** daf/RefCountHandler_T.h:36-83 [RefCountHandler_T]. With the entities that were deleted at the participant and those that were given away. *)
Record handle_holder := HandleHolder { t_ : option nat; deleted : list nat; given : list nat }.

(** daf/RefCountHandler_T.h:86-90 [RefCountHandler_T::RefCountHandler_T]. *)
Definition hold (t : option nat) : handle_holder := HandleHolder t [] [].

(** TAF/dds/DDSPubSub.cpp:353-359 [DDS_Subscriber_holder::_finalize]. *)
Definition subscriber_finalize (h : handle_holder) : handle_holder :=
  match t_ h with Some p => HandleHolder None (deleted h ++ [p]) (given h) | None => h end.

(** TAF/dds/DDSPubSub.cpp:368-374 [DDS_Publisher_holder::_finalize]. *)
Definition publisher_finalize (h : handle_holder) : handle_holder :=
  match t_ h with Some p => HandleHolder None (deleted h ++ [p]) (given h) | None => h end.

(** daf/RefCountHandler_T.h:101-106 [RefCountHandler_T::_finalize]. *)
Definition base_finalize (h : handle_holder) : handle_holder := HandleHolder None (deleted h) (given h).

Section holder.
Context (finalize : handle_holder -> handle_holder).

(** daf/RefCountHandler_T.h:148-154 [RefCountHandler_T::handle_out]. And the assignment of the caller to what is returned. *)
Definition handle_out (new : option nat) (h : handle_holder) : handle_holder := let h := finalize h in HandleHolder new (deleted h) (given h).

(** daf/RefCountHandler_T.h:156-162 [RefCountHandler_T::handle_retn]. *)
Definition handle_retn (h : handle_holder) : handle_holder * option nat :=
  (HandleHolder None (deleted h) (given h ++ match t_ h with Some p => [p] | None => [] end), t_ h).

(** TAF/dds/DDSPubSub.h:147-149 [DDS_Subscriber_holder::destructor]. Also line 169; behind it the destructor of the base, daf/RefCountHandler_T.h:95. *)
Definition destroy (h : handle_holder) : handle_holder := base_finalize (finalize h).
End holder.

(** What is done with a holder. *)
Inductive handling := Replace (new : option nat) | GiveAway.

Definition handle_step finalize (h : handle_holder) (o : handling) : handle_holder :=
  match o with Replace new => handle_out finalize new h | GiveAway => fst (handle_retn h) end.

Definition brought (o : handling) : list nat := match o with Replace (Some p) => [p] | _ => [] end.

(** Every publisher that was put into a holder has been deleted, or given away, once when the holder is gone. *)
Lemma entities_deleted_once t ops : let h := destroy publisher_finalize (foldl (handle_step publisher_finalize) (hold t) ops) in
  deleted h ++ given h ≡ₚ option_list t ++ (ops ≫= brought) /\ t_ h = None.
Proof.
  cbn zeta. assert (forall h, deleted (destroy publisher_finalize (foldl (handle_step publisher_finalize) h ops)) ++ given (destroy publisher_finalize (foldl (handle_step publisher_finalize) h ops))
    ≡ₚ (deleted h ++ given h) ++ option_list (t_ h) ++ (ops ≫= brought)) as Hall; [|split; [by rewrite Hall|done]].
  induction ops as [|o ops IH]; intros [t0 d g]; cbn [foldl].
  - destruct t0; cbn; rewrite ?app_nil_r; [|done]. solve_Permutation.
  - rewrite IH. destruct o as [new|]; cbn [handle_step handle_out handle_retn fst publisher_finalize t_ deleted given mbind list_bind brought].
    + destruct t0 as [p|]; cbn; (destruct new as [q|]; cbn; rewrite ?app_nil_r; solve_Permutation).
    + destruct t0 as [p|]; cbn; rewrite ?app_nil_r; solve_Permutation.
Qed.
