(* ===== verification/FutureResult.v ===== *)
(** * Futures: daf/FutureResult_T

    A future holds a value that one thread sets and others wait for.  The steps of a
    thread inside [get], [setValue], [setError], [reset], the destructor and the
    runnable that computes the value, on top of [Monitor]; the constructor's default
    value of [T] is [dflt].  [history] records the values that were set; no step reads
    it. *)

From S2P Require Import Prelude Threads Monitor.

Section future.
Context {T : Type} (dflt : T).   (* T() *)

(** ** State *)

(** daf/FutureResult_T.h:64-73 [FutureResult]. *)
Record fut := mkFut {
  fut_mon : monitor;
  ready_ : bool;
  error_ : bool;
  fwaiters_ : Z;
  value_ : T;
  history : list T;
}.

(** daf/FutureResult_T.cpp:28-33 [FutureResult::FutureResult]. The value is not set: for a built-in type it is whatever was there. *)
Definition fut_init (junk : T) : fut := mkFut mon_init false false 0 junk [].

Definition fut_with_mon (s : fut) (m : monitor) : fut :=
  mkFut m (ready_ s) (error_ s) (fwaiters_ s) (value_ s) (history s).
Definition fut_count (n : Z) (s : fut) : fut :=
  mkFut (fut_mon s) (ready_ s) (error_ s) (fwaiters_ s + n) (value_ s) (history s).
Definition fut_flags (ready error : bool) (s : fut) : fut :=
  mkFut (fut_mon s) ready error (fwaiters_ s) (value_ s) (history s).

(** daf/FutureResult_T.cpp:155-156 [FutureResult::setValue]. *)
Definition fut_set (v : T) (s : fut) : fut :=
  mkFut (fut_mon s) true (error_ s) (fwaiters_ s) v (history s ++ [v]).
(** daf/FutureResult_T.cpp:146-147 [FutureResult::setError]. *)
Definition fut_fail (s : fut) : fut :=
  mkFut (fut_mon s) (ready_ s) true (fwaiters_ s) dflt (history s).

(** Program counters. *)
Inductive fpc :=
| FIdle
| GLock (timed : bool)                 (* the guard takes the mutex *)
| GInc (timed : bool)                  (* ++this->waiters_ *)
| GTest (timed timeout : bool)         (* while (this->error_ || timeout ? false : true) *)
| GBody (timed : bool)                 (* the try block *)
| GWait (timed : bool) (w : wait_pc)
| GCatch (e : daf_exn)                 (* catch (...): one waiter fewer, error, rethrow *)
| GLeave (timeout : bool)              (* --this->waiters_ *)
| GExit (r : result T)                 (* the guard gives the mutex up, then throw or return *)
| GDone (r : result T)
| VLock (v : T) | VSet (v : T)         (* setValue *)
| ELock | ESet                         (* setError *)
| ZLock | ZSet                         (* reset *)
| FExit                                (* the guard gives the mutex up *)
| FRun                                 (* FutureSetter::run, FutureFunctor::run *)
| XLock | XSet | XTest | XWait (w : wait_pc)   (* the destructor *)
| FIntr (i : intr_pc).

(** [late] says whether the deadline has passed; [ret] what the function that computes the
    value returns, [None] when it throws. *)
Inductive fchoice :=
| FCallGet (timed : bool)
| FCallReset
| FCallRun
| FCallDelete
| FCallInterrupt
| FGo (w : wait_choice) (late : bool) (ret : option T).

(** ** Operations *)

(** daf/FutureResult_T.cpp:58-120 [FutureResult::get]. Both overloads. *)
Definition get_next (w : wait_choice) (late : bool) (t : nat) (s : fut) (p : fpc) : option (fut * fpc) :=
  match p with
  | GLock tm => m ← lock t (fut_mon s); Some (fut_with_mon s m, GInc tm)
  | GInc tm => Some (fut_count 1 s, GTest tm false)
  | GTest tm timeout => Some (s, if error_ s || timeout then GLeave timeout else GBody tm)
  | GBody tm =>
      if ready_ s then Some (fut_count (-1) s, GExit (Ok (value_ s)))
      else if tm && late then Some (s, GTest tm true)
      else Some (s, GWait tm WTest)
  | GWait tm w' =>
      '(m, o) ← wait_next w t tm w' (fut_mon s);
      Some (fut_with_mon s m, match o with
                              | WGo w' => GWait tm w'
                              | WReturn _ => GTest tm false
                              | WInterrupted => GCatch InterruptedException
                              end)
  | GCatch e => Some (fut_flags (ready_ s) true (fut_count (-1) s), GExit (Throw e))
  | GLeave timeout =>
      Some (fut_count (-1) s, GExit (Throw (if timeout then TimeoutException else InvocationTargetException)))
  | GExit r => Some (fut_with_mon s (unlock (fut_mon s)), GDone r)
  | _ => None
  end.

(** daf/FutureResult_T.cpp:142-158 [FutureResult::setValue]. And [setError]. *)
Definition set_next (t : nat) (s : fut) (p : fpc) : option (fut * fpc * effect) :=
  match p with
  | VLock v => m ← lock t (fut_mon s); Some (fut_with_mon s m, VSet v, ENone)
  | VSet v => Some (fut_set v s, FExit, EBroadcast)
  | ELock => m ← lock t (fut_mon s); Some (fut_with_mon s m, ESet, ENone)
  | ESet => Some (fut_fail s, FExit, EBroadcast)
  | FExit => Some (fut_with_mon s (unlock (fut_mon s)), FIdle, ENone)
  | _ => None
  end.

(** daf/FutureResult_T.cpp:160-182 [FutureResult::FutureFunctor::run]. What becomes of the future when the function is called. *)
Definition run_next (ret : option T) : fpc := match ret with Some v => VLock v | None => ELock end.

(** daf/FutureResult_T.cpp:122-128 [FutureResult::reset]. *)
Definition reset_next (t : nat) (s : fut) (p : fpc) : option (fut * fpc) :=
  match p with
  | ZLock => m ← lock t (fut_mon s); Some (fut_with_mon s m, ZSet)
  | ZSet => Some (fut_flags false false s, FExit)
  | _ => None
  end.

(** daf/FutureResult_T.cpp:35-50 [FutureResult::destructor]. *)
Definition destroy_next (w : wait_choice) (t : nat) (s : fut) (p : fpc) : option (fut * fpc * effect) :=
  match p with
  | XLock => m ← lock t (fut_mon s); Some (fut_with_mon s m, XSet, ENone)
  | XSet => Some (fut_flags (ready_ s) true s, XTest, ENone)
  | XTest => if 0 <? fwaiters_ s then Some (s, XWait WTest, EBroadcast) else Some (s, FExit, ENone)
  | XWait w' =>
      '(m, o) ← wait_next w t true w' (fut_mon s);
      Some (fut_with_mon s m, match o with
                              | WGo w' => XWait w'
                              | WReturn _ => XTest
                              | WInterrupted => FExit
                              end, ENone)
  | _ => None
  end.

(** daf/FutureResult_T.cpp:35-158 [FutureResult]. One step of a thread. *)
Definition fut_local (ch : fchoice) (t : nat) (s : fut) (p : fpc) : option (fut * fpc * effect) :=
  match ch, p with
  | FCallGet tm, FIdle => Some (s, GLock tm, ENone)
  | FCallReset, FIdle => Some (s, ZLock, ENone)
  | FCallRun, FIdle => Some (s, FRun, ENone)
  | FCallDelete, FIdle => Some (s, XLock, ENone)
  | FCallInterrupt, FIdle => Some (s, FIntr IStart, ENone)
  | FGo w late _, (GLock _ | GInc _ | GTest _ _ | GBody _ | GWait _ _ | GCatch _ | GLeave _ | GExit _) =>
      '(s, p) ← get_next w late t s p; Some (s, p, ENone)
  | FGo _ _ _, (VLock _ | VSet _ | ELock | ESet | FExit) => set_next t s p
  | FGo _ _ _, (ZLock | ZSet) => '(s, p) ← reset_next t s p; Some (s, p, ENone)
  | FGo _ _ ret, FRun => Some (s, run_next ret, ENone)
  | FGo w _ _, (XLock | XSet | XTest | XWait _) => destroy_next w t s p
  | FGo _ _ _, GDone _ => Some (s, FIdle, ENone)
  | FGo _ _ _, FIntr i =>
      '(m, o, e) ← intr_next t i (fut_mon s);
      Some (fut_with_mon s m, match o with IGo i => FIntr i | IReturn _ => FIdle end, e)
  | _, _ => None
  end.

#[export] Instance fut_waits : Waits fpc := {|
  waiting := fun p => match p with GWait _ Waiting | XWait Waiting => true | _ => false end;
  awaken := fun p => match p with
                     | GWait tm Waiting => GWait tm (Woken WOk)
                     | XWait Waiting => XWait (Woken WOk)
                     | _ => p
                     end;
|}.

#[export] Instance fut_waits_laws : WaitsLaws fpc.
Proof.
  split; intros []; try done; match goal with w : wait_pc |- _ => by destruct w end.
Qed.

Definition fut_next := next fut_local.
Definition fut_start (junk : T) (n : nat) : conf fut fpc := mkConf (fut_init junk) (replicate n FIdle).

(** ** Invariant *)

Definition fut_holds (p : fpc) : bool :=
  match p with
  | GInc _ | GTest _ _ | GBody _ | GCatch _ | GLeave _ | GExit _ | VSet _ | ESet | ZSet | FExit
  | XSet | XTest => true
  | GWait _ w | XWait w => wait_holds w
  | FIntr i => intr_holds i
  | _ => false
  end.

(** Counted in [waiters_]. *)
Definition counted (p : fpc) : bool :=
  match p with
  | GTest _ _ | GBody _ | GWait _ _ | GCatch _ | GLeave _ => true
  | _ => false
  end.

(** Blocked in [get]. *)
Definition getting (p : fpc) : bool := match p with GWait _ Waiting => true | _ => false end.

(** In [get], after the tests that found neither value nor error, up to the block. *)
Definition will_block (p : fpc) : bool :=
  match p with GWait _ (WTest | WInc | WBlock) => true | _ => false end.
(** After the test for an error. *)
Definition untroubled (p : fpc) : bool := match p with GBody _ => true | _ => false end.

(** Returning a value. *)
Definition result_of (p : fpc) : option T :=
  match p with GExit (Ok v) | GDone (Ok v) => Some v | _ => None end.

Lemma fut_respects_lock : respects_lock fut_local fut_mon fut_holds.
Proof.
  intros ch t s p s' p' e Hl. local_cases Hl; unfold run_next; simpl; auto with daf.
  all: first [lock_facts|case_match; auto with daf].
Qed.

(** Leaving because of an exception; in the destructor, past the point that sets the
    error. *)
Definition catching (p : fpc) : bool := match p with GCatch _ => true | _ => false end.
Definition destroying (p : fpc) : bool := match p with XTest => true | _ => false end.

(** Why a thread may be blocked in [get]. *)
Definition may_block (s : fut) (D : Z) : Prop :=
  (ready_ s = false /\ error_ s = false) \/ interrupted_ (fut_mon s) = true \/ 0 < D.

(** The numeric core of one step: [N], [G], [B], [U], [C] and [D] count the threads
    counted, blocked in [get], about to block, past the test for an error, catching
    and destroying. *)
Lemma fut_local_counts ch t s p s' p' e N G B U C D :
  fut_local ch t s p = Some (s', p', e) ->
  fwaiters_ s = N -> G <= N ->
  (0 < G -> may_block s D) ->
  (0 < B -> ready_ s = false /\ error_ s = false) ->
  (0 < U -> error_ s = false) ->
  (0 < C -> interrupted_ (fut_mon s) = true) ->
  b2z (getting p) <= G -> b2z (will_block p) <= B -> b2z (untroubled p) <= U -> b2z (catching p) <= C ->
  b2z (destroying p) <= D ->
  (fut_holds p = true -> B = b2z (will_block p) /\ U = b2z (untroubled p) /\ D = b2z (destroying p)) ->
  let N' := N - b2z (counted p) + b2z (counted p') in
  let G' := G - b2z (getting p) + b2z (getting p') in
  let B' := B - b2z (will_block p) + b2z (will_block p') in
  let U' := U - b2z (untroubled p) + b2z (untroubled p') in
  let C' := C - b2z (catching p) + b2z (catching p') in
  let D' := D - b2z (destroying p) + b2z (destroying p') in
  fwaiters_ s' = N' /\ (0 < B' -> ready_ s' = false /\ error_ s' = false) /\ (0 < U' -> error_ s' = false)
  /\ (e <> EBroadcast -> 0 < G' -> may_block s' D') /\ (0 < C' -> interrupted_ (fut_mon s') = true)
  /\ e <> ESignal.
Proof.
  intros Hl HN HGN HG HB HU HC H1 H2 H3 H4 H5 Hh.
  local_cases Hl; try (match goal with H : wait_next _ _ _ _ _ = Some (_, WInterrupted) |- _ =>
    pose proof (wait_next_interrupted _ _ _ _ _ _ H) end);
    monitor_facts; unfold run_next, may_block in *; simpl in *;
    rewrite ?Z.ltb_lt, ?Z.ltb_ge, ?orb_true_iff, ?orb_false_iff, ?andb_true_iff in *.
  all: try (destruct Hh as (? & ? & ?); [done|]).
  all: try (case_match; simpl in *).
  all: split_and!; try done; try lia; intros.
  all: try (specialize (HB ltac:(lia)); destruct HB).
  all: try (specialize (HU ltac:(lia))).
  all: try (specialize (HC ltac:(lia))).
  all: try (specialize (HG ltac:(lia)); destruct HG as [[]|[|]]).
  all: try (first [split; congruence | congruence | left; split; congruence | right; left; congruence
                  | right; right; lia | lia | tauto]).
Qed.

(** What a step does to the value. *)
Lemma fut_local_value ch t s p s' p' e :
  fut_local ch t s p = Some (s', p', e) ->
  (ready_ s = true -> error_ s = false -> last (history s) = Some (value_ s)) ->
  (untroubled p = true -> error_ s = false) ->
  (ready_ s' = true -> error_ s' = false -> last (history s') = Some (value_ s'))
  /\ (forall v, v ∈ history s -> v ∈ history s')
  /\ (forall v, p' = GExit (Ok v) -> last (history s') = Some v)
  /\ (forall v, p' = GDone (Ok v) -> p = GExit (Ok v))
  /\ (history s' = history s \/ fut_holds p = true).
Proof.
  intros Hl Hv Hb.
  local_cases Hl; unfold run_next in *; repeat (case_match; simplify_eq/=); split_and!; try done; auto; intros;
    simplify_eq/=; try done.
  all: try (by auto); try congruence.
  - by rewrite last_snoc.
  - apply elem_of_app. by left.
Qed.

Record fut_inv (c : conf fut fpc) : Prop := {
  finv_lock : lock_inv fut_mon fut_holds c;
  finv_count : fwaiters_ (shared c) = tcount counted (threads c);
  finv_getting : 0 < tcount getting (threads c) -> may_block (shared c) (tcount destroying (threads c));
  finv_block : 0 < tcount will_block (threads c) -> ready_ (shared c) = false /\ error_ (shared c) = false;
  finv_untroubled : 0 < tcount untroubled (threads c) -> error_ (shared c) = false;
  finv_catching : 0 < tcount catching (threads c) -> interrupted_ (fut_mon (shared c)) = true;
  finv_value : ready_ (shared c) = true -> error_ (shared c) = false -> last (history (shared c)) = Some (value_ (shared c));
  finv_exit : forall t v, threads c !! t = Some (GExit (Ok v)) -> last (history (shared c)) = Some v;
  finv_done : forall t v, threads c !! t = Some (GDone (Ok v)) -> v ∈ history (shared c);
}.

Ltac fpc_cases := by intros [| | | | |? []| | | | | | | | | | | | | | | |[]|[]].

Lemma fut_inv_step c c' : fut_inv c -> step fut_next c c' -> fut_inv c'.
Proof.
  intros [Hlock Hcnt Hg Hb Hu Hc Hv Hex Hdn] Hstep.
  pose proof (lock_inv_step _ _ _ c c' fut_respects_lock ltac:(fpc_cases) Hlock Hstep) as Hlock'.
  destruct Hstep as ([ch k] & t & Hn). apply next_inv in Hn as (p & s & p' & e & ts & Hp & Hl & Hts & ->).
  cbn [fst snd shared threads] in *.
  pose proof (fun f => step_count f _ _ _ _ _ _ _ Hp Hts) as Hsame.
  pose proof (lookup_lt_Some _ _ _ Hp) as Hlt.
  assert (tcount getting (threads c) <= tcount counted (threads c)) as Hgn.
  { apply tsum_le. intros i q _. by destruct q as [| | | | |? []| | | | | | | | | | | | | | | |[]|[]]. }
  destruct (fut_local_counts _ _ _ _ _ _ _ (tcount counted (threads c)) (tcount getting (threads c))
    (tcount will_block (threads c)) (tcount untroubled (threads c)) (tcount catching (threads c))
    (tcount destroying (threads c)) Hl Hcnt Hgn Hg Hb Hu Hc (tcount_le_one _ _ _ _ Hp) (tcount_le_one _ _ _ _ Hp)
    (tcount_le_one _ _ _ _ Hp) (tcount_le_one _ _ _ _ Hp) (tcount_le_one _ _ _ _ Hp)) as (C1 & C2 & C3 & C4 & C5 & C6).
  { intros Hh. split_and!; eapply (lock_inv_count _ fut_holds); eauto; fpc_cases. }
  assert (untroubled p = true -> error_ (shared c) = false) as Hup.
  { intros E. apply Hu. pose proof (tcount_le_one untroubled _ _ _ Hp). rewrite E in *. simpl in *. lia. }
  destruct (fut_local_value _ _ _ _ _ _ _ Hl Hv Hup) as (V1 & V2 & V3 & V4 & V5).
  assert (forall u q, ts !! u = Some q -> result_of q <> None ->
    (u = t /\ q = p') \/ (u <> t /\ threads c !! u = Some q)) as Hback.
  { intros u q Hu' Hq. destruct (effect_lookup _ _ _ _ _ _ Hts Hu') as (q0 & Hq0 & Hcase).
    assert (q = q0) as ->.
    { destruct Hcase as [|[Hw ->]]; [done|]. revert Hq. by destruct q0 as [| | | | |? []| | | | | | | | | | | | | | | |[]|[]]. }
    destruct (decide (u = t)) as [->|Hne].
    - rewrite list_lookup_insert_eq in Hq0 by done. left. by injection Hq0.
    - rewrite list_lookup_insert_ne in Hq0 by done. by right. }
  split; cbn [shared threads]; [exact Hlock'|..].
  - by rewrite Hsame by fpc_cases.
  - rewrite (Hsame destroying) by fpc_cases. destruct e.
    + simpl in Hts. injection Hts as <-. rewrite (tcount_insert _ _ _ _ _ Hp). by apply C4.
    + done.
    + intros Hpos. pose proof (broadcast_count _ _ _ Hts) as Hz.
      assert (tcount getting ts <= tcount waiting ts); [|lia].
      apply tsum_le. intros j q _. by destruct q as [| | | | |? []| | | | | | | | | | | | | | | |[]|[]].
  - by rewrite Hsame by fpc_cases.
  - by rewrite Hsame by fpc_cases.
  - by rewrite Hsame by fpc_cases.
  - exact V1.
  - intros u v Hu'. destruct (Hback u _ Hu') as [[-> E]|[Hne Hold]]; [done|by apply V3|].
    destruct V5 as [->|Hh]; [by apply (Hex u)|]. destruct Hne.
    by apply (lock_inv_unique _ fut_holds c t u p (GExit (Ok v)) Hlock).
  - intros u v Hu'. destruct (Hback u _ Hu') as [[-> E]|[Hne Hold]]; [done| |eauto].
    symmetry in E. apply V4 in E. subst. apply V2. specialize (Hex _ _ Hp).
    apply last_Some_elem_of in Hex. done.
Qed.

Lemma fut_inv_reachable junk n c : reachable fut_next (fut_start junk n) c -> fut_inv c.
Proof.
  apply invariant; [|intros c1 c2; apply fut_inv_step].
  assert (forall f : fpc -> bool, f FIdle = false -> tcount f (replicate n FIdle) = 0) as H0.
  { intros f Hf. apply tsum_zero. intros i x [-> _]%lookup_replicate. by rewrite Hf. }
  split; cbn [fut_start fut_init shared threads fut_mon ready_ error_ fwaiters_ history value_]; rewrite ?H0 by done;
    try lia; try done.
  - intros t. simpl. split; [done|]. intros (p & [-> _]%lookup_replicate & Hp). done.
  - by intros t v [? _]%lookup_replicate.
  - by intros t v [? _]%lookup_replicate.
Qed.

(** ** Properties *)

(** [get] returns values that were set: when a thread is about to leave [get] with
    a value, still in the guard, it is the last value that was set, and what a finished [get]
    returned is one of the values set. The count of waiters is the number of threads between its
    increment and its decrement, so it is zero when no thread is in [get]. *)
Theorem future_get_value junk n c :
  reachable fut_next (fut_start junk n) c ->
  (forall t v, threads c !! t = Some (GExit (Ok v)) -> last (history (shared c)) = Some v)
  /\ (forall t v, threads c !! t = Some (GDone (Ok v)) -> v ∈ history (shared c))
  /\ fwaiters_ (shared c) = tcount counted (threads c).
Proof. intros Hc. by destruct (fut_inv_reachable _ _ _ Hc). Qed.

(** C12 (liveness). No result is missed: while the future is not interrupted and no thread is
    between the lines of the destructor that set the error and wake the waiters, a thread blocked in
    [get] means that there is neither a value nor an error; so setting one has woken all. *)
Theorem future_no_lost_wakeup junk n c t tm :
  reachable fut_next (fut_start junk n) c -> interrupted_ (fut_mon (shared c)) = false ->
  tcount destroying (threads c) = 0 -> threads c !! t = Some (GWait tm Waiting) ->
  ready_ (shared c) = false /\ error_ (shared c) = false.
Proof.
  intros Hc Hi Hd Ht. destruct (fut_inv_reachable _ _ _ Hc) as [_ _ Hg _ _ _ _ _ _].
  destruct Hg as [?|[?|?]]; [|done|congruence|lia].
  apply tcount_exists. by exists t, (GWait tm Waiting).
Qed.
End future.

(** ** Schedules *)

Definition fut_choice : Type := @fchoice Z * option nat.

Definition fut_go (t : nat) : fut_choice * nat := ((FGo Spurious false (Some 5), None), t).

(** A thread waits for the value; a second one computes it. *)
Definition wait_for_five : list (fut_choice * nat) :=
  [((FCallGet false, None), 0%nat); fut_go 0; fut_go 0; fut_go 0; fut_go 0; fut_go 0; fut_go 0; fut_go 0;
   ((FCallRun, None), 1%nat); fut_go 1; fut_go 1; fut_go 1; fut_go 1;
   fut_go 0; fut_go 0; fut_go 0; fut_go 0; fut_go 0].

Definition fut_after (sched : list (fut_choice * nat)) : conf (@fut Z) (@fpc Z) :=
  default (fut_start 0 2) (run (fut_next 0) sched (fut_start 0 2)).

Lemma fut_after_reachable sched :
  is_Some (run (fut_next 0) sched (fut_start 0 2)) -> reachable (fut_next 0) (fut_start 0 2) (fut_after sched).
Proof. intros [c' E]. unfold fut_after. rewrite E. by apply run_reachable with sched. Qed.

(** ** The theorems at concrete inputs *)

Lemma future_get_value_witness :
  let c := fut_after wait_for_five in
  threads c !! 0%nat = Some (GExit (Ok 5)) /\ last (history (shared c)) = Some 5
  /\ fwaiters_ (shared c) = tcount counted (threads c).
Proof.
  intros c. assert (reachable (fut_next 0) (fut_start 0 2) c) as H
    by (apply fut_after_reachable; vm_compute; eexists; reflexivity).
  assert (threads c !! 0%nat = Some (GExit (Ok 5))) as H0 by (vm_compute; reflexivity).
  destruct (future_get_value 0 0 2 c H) as (H1 & _ & H2).
  split; [exact H0|]. split; [exact (H1 0%nat 5 H0)|exact H2].
Defined.

Lemma future_no_lost_wakeup_witness :
  let c := fut_after (take 8 wait_for_five) in
  threads c !! 0%nat = Some (GWait false Waiting) /\ ready_ (shared c) = false /\ error_ (shared c) = false.
Proof.
  intros c. assert (reachable (fut_next 0) (fut_start 0 2) c) as H
    by (apply fut_after_reachable; vm_compute; eexists; reflexivity).
  assert (threads c !! 0%nat = Some (GWait false Waiting)) as H0 by (vm_compute; reflexivity).
  split; [exact H0|].
  apply (future_no_lost_wakeup 0 0 2 c 0 false H); [vm_compute; reflexivity..|exact H0].
Defined.
