(* ===== verification/Gestalt.v ===== *)
(** * Services: daf/ServiceGestalt

    A gestalt is ACE's repository of services with a map of descriptors beside it.
    Loading, suspending, resuming and removing a service are activities that run on a
    thread of the task executor while the caller waits for the result; one that takes
    too long goes on after the caller has given up, so activities that are still to
    run or in the middle are part of the state.  Suspending and resuming share the lock of
    the descriptors, so these activities interleave, step by step; loading and removing
    have it for themselves.  ACE's repository and its processing of directives are
    the class [AceGestalt], its documented behaviour [AceGestaltLaws]. *)

From S2P Require Import Prelude CString Text Properties.
From Stdlib Require Import Ascii.

(** The values of [errno] the code sets or tests. *)
Inductive errno := Enone | EINVAL | ENOLCK | EEXIST | EACCES | ENOTSUP | ENOEXEC | ENOENT | ETIME | Eother (n : Z).

#[export] Instance errno_eq_dec : EqDecision errno.
Proof. solve_decision. Defined.

(** ** Directives *)

(** daf/ServiceGestalt.cpp:534-561 [ServiceGestalt::static_directive]. [classic] is ACE_USES_CLASSIC_SVC_CONF; [std::ends] adds a NUL. *)
Definition static_directive (classic : bool) (ident parameters : text) : text :=
  (if classic then
     str "static " ++ ident ++ str " " ++ [DQUOTE] ++ parameters ++ [DQUOTE]
   else
     str "<ACE_Svc_Conf>" ++ str "<static id=" ++ [DQUOTE] ++ ident ++ [DQUOTE]
     ++ (if bool_decide (parameters <> []) then str " params=" ++ [DQUOTE] ++ parameters ++ [DQUOTE] else [])
     ++ str "/>" ++ str "</static>" ++ str "</ACE_Svc_Conf>")
  ++ [NUL].

(** daf/ServiceGestalt.cpp:564-600 [ServiceGestalt::dynamic_directive]. *)
Definition dynamic_directive (classic : bool) (ident libpathname objectclass parameters : text) : text :=
  (if classic then
     str "dynamic " ++ ident ++ str " Service_Object * " ++ libpathname ++ str ":" ++ objectclass
     ++ str "() " ++ [DQUOTE] ++ parameters ++ [DQUOTE]
   else
     str "<ACE_Svc_Conf>" ++ str "<dynamic id=" ++ [DQUOTE] ++ ident ++ [DQUOTE]
     ++ str " type=" ++ [DQUOTE] ++ str "Service_Object" ++ [DQUOTE] ++ str ">"
     ++ str "<initializer path=" ++ [DQUOTE] ++ libpathname ++ [DQUOTE]
     ++ str " init=" ++ [DQUOTE] ++ objectclass ++ [DQUOTE]
     ++ (if bool_decide (parameters <> []) then str " params=" ++ [DQUOTE] ++ parameters ++ [DQUOTE] else [])
     ++ str "/>" ++ str "</dynamic>" ++ str "</ACE_Svc_Conf>")
  ++ [NUL].

(** The directives that name a service and nothing else. *)
Definition verb_directive (classic : bool) (verb ident : text) : text :=
  (if classic then verb ++ str " " ++ ident
   else str "<ACE_Svc_Conf>" ++ str "<" ++ verb ++ str " id=" ++ [DQUOTE] ++ ident ++ [DQUOTE] ++ str ">"
        ++ str "</" ++ verb ++ str ">" ++ str "</ACE_Svc_Conf>")
  ++ [NUL].

(** daf/ServiceGestalt.cpp:603-618 [ServiceGestalt::suspend_directive]. *)
Definition suspend_directive (classic : bool) (ident : text) : text := verb_directive classic (str "suspend") ident.
(** daf/ServiceGestalt.cpp:621-636 [ServiceGestalt::resume_directive]. *)
Definition resume_directive (classic : bool) (ident : text) : text := verb_directive classic (str "resume") ident.
(** daf/ServiceGestalt.cpp:639-654 [ServiceGestalt::remove_directive]. *)
Definition remove_directive (classic : bool) (ident : text) : text := verb_directive classic (str "remove") ident.

(** ** Names and paths *)

(** daf/ServiceGestalt.cpp:42-42 [INVALID_IDENT_CHARS]. *)
Definition INVALID_IDENT_CHARS : text := str " :.#%*~-(){}\" ++ [QUOTE; DQUOTE].

(** daf/ServiceGestalt.cpp:188-200 [ServiceGestalt::loadStatic]. The test of a trimmed name, repeated by every operation. *)
Definition bad_ident (svc_ident : text) : bool :=
  bool_decide (svc_ident = []) || bool_decide (is_Some (find_any INVALID_IDENT_CHARS svc_ident)).

(** daf/ServiceGestalt.cpp:44-47 [get_activity_timeout]. Milliseconds; [seconds] is the value of the property. *)
Definition get_activity_timeout `{AceMinMax} (min_timeout max_timeout seconds : Z) : Z :=
  1000 * ace_range min_timeout max_timeout seconds.

(** daf/ServiceGestalt.cpp:270-277 [ServiceGestalt::loadDynamic]. What is stripped from the ends of a library path. *)
Definition lib_strips (c : ascii) : bool :=
  bool_decide (c = DQUOTE) || bool_decide (c = QUOTE) || bool_decide (c = SPACE) || iscntrl c.

(** daf/ServiceGestalt.cpp:268-297 [ServiceGestalt::loadDynamic]. The loop that cleans up a library path, from [pos] on. *)
Fixpoint clean_lib (pos : nat) (svc_libpath : text) : text :=
  match pos with
  | O => svc_libpath
  | S pos =>
      if lib_strips (char_at svc_libpath 0) then clean_lib pos (drop 1 svc_libpath)
      else if (0 <? pos)%nat then
        if lib_strips (char_at svc_libpath pos)
        then clean_lib pos (take pos svc_libpath ++ drop (S pos) svc_libpath)
        else (uncontrol <$> take pos svc_libpath) ++ drop pos svc_libpath
      else svc_libpath
  end.

(** ** State *)

Definition LOAD_STATIC : Z := 2.
Definition LOAD_DYNAMIC : Z := 4.
Definition LOAD_OBJECT : Z := 8.
Definition LOAD_ACTIVE : Z := 64.

(** daf/ServiceGestalt.h:147-169 [ServiceGestalt::ServiceDescriptor]. *)
Record descriptor := Descriptor {
  ident_ : text;
  libpathname_ : text;
  objectclass_ : text;
  parameters_ : text;
  loadtime_ : Z;
  loadflags_ : Z;
}.

Definition with_flags (f : Z -> Z) (d : descriptor) : descriptor :=
  Descriptor (ident_ d) (libpathname_ d) (objectclass_ d) (parameters_ d) (loadtime_ d) (f (loadflags_ d)).
(** [ACE_SET_BITS(loadflags_, LOAD_ACTIVE)] and [ACE_CLR_BITS]. *)
Definition set_active_flag : descriptor -> descriptor := with_flags (fun n => Z.lor n LOAD_ACTIVE).
Definition clr_active_flag : descriptor -> descriptor := with_flags (fun n => Z.ldiff n LOAD_ACTIVE).
Definition flag_active (d : descriptor) : bool := Z.testbit (loadflags_ d) 6.

(** [ACE_Service_Type]: what the code asks of an entry of the repository. *)
Record svc_type := SvcType { active : bool; fini_called : bool }.

(** [ACE_Service_Gestalt] and its repository: finding an entry by name, suspended ones
    included; the names in the repository's order; setting an entry's state; and
    processing the directive of a text, with the number of errors and the [errno] it
    leaves, if it sets one. *)
Class AceGestalt (G : Type) := {
  ace_find : G -> text -> option svc_type;
  ace_names : G -> list text;
  ace_set_active : text -> bool -> G -> G;
  ace_process : text -> G -> G * Z * option errno;
}.

(** daf/ServiceGestalt.h:292-309 [ServiceGestalt::ServiceDescriptors]. *)
Record gestalt (G : Type) := Gestalt { ace : G; descriptors : gmap text descriptor }.
Arguments Gestalt {G} ace descriptors.
Arguments ace {G} g.
Arguments descriptors {G} g.

(** daf/ServiceGestalt.cpp:110-145 [LoadActivity]. And the other activities. *)
Inductive activity :=
| LoadStaticActivity (sd_ : descriptor)
| LoadDynamicActivity (sd_ : descriptor)
| SuspendActivity (ident : text)
| ResumeActivity (ident : text)
| RemoveActivity (ident : text).

(** How an activity goes for its caller: it runs before the timeout, with or without
    the descriptors' lock; the caller gives up, because of the timeout or an interruption, when
    [steps] of its steps are done; the task executor refuses it. *)
Inductive execution := InTime (lock : bool) | TimedOut (steps : nat) | Interrupted (steps : nat) | Refused.

(** Where the thread of an activity is: in front of the lock of the descriptors; or, for a suspend or a resume, which share that lock, in front of
    one of its accesses to what others change: the processing of the directive, the flag of the descriptor, the state that is put back when the
    directive failed. *)
Inductive progress :=
| Queued (act : activity)
| Checked (on : bool) (ident : text) (e : errno)
| Directed (on : bool) (ident : text) (e : errno)
| Failed (on : bool) (ident : text) (r : Z) (e : errno).

(** What a step leads to: the next place, or the result and the error of the activity. *)
Inductive stage := Going (p : progress) | Over (result_ : Z) (error_ : errno).

(** Whether a thread holds the lock, between two of its steps. *)
Definition midway (p : progress) : bool := match p with Queued _ => false | _ => true end.

(** Whether it needs the lock for itself. *)
Definition exclusive (p : progress) : bool :=
  match p with Queued (LoadStaticActivity _ | LoadDynamicActivity _ | RemoveActivity _) => true | _ => false end.

(** [late]: activities nobody waits for any more, still to run or in the middle. *)
Record system (G : Type) := System { home : gestalt G; late : list progress }.
Arguments System {G} home late.
Arguments home {G} s.
Arguments late {G} s.

Section gestalt.
Context {G : Type} `{AceGestalt G} (classic : bool).
Implicit Types (g : gestalt G) (s : system G).

Definition with_ace (a : G) g : gestalt G := Gestalt a (descriptors g).
Definition with_descriptors (m : gmap text descriptor) g : gestalt G := Gestalt (ace g) m.

(** ** Activities

    Each takes the [errno] of the thread it runs on and gives the gestalt, [result_]
    and [error_]. *)

(** daf/ServiceGestalt.cpp:698-702 [ServiceGestalt::ServiceActivity::process_directive]. *)
Definition process_directive (directive : text) (e : errno) g : gestalt G * Z * errno :=
  let '(a, r, e') := ace_process (c_str directive) (ace g) in (with_ace a g, r, default e e').

(** [this->gestalt_->find(ident.c_str(), &svc_type, false)]. *)
Definition find (ident : text) g : option svc_type := ace_find (ace g) (c_str ident).

(** daf/ServiceGestalt.cpp:725-750 [LoadActivity::run]. *)
Definition LoadActivity_run (lock : bool) (directive : text) (sd_ : descriptor) (e : errno) g : gestalt G * Z * errno :=
  if negb lock then (g, -1, ENOLCK)
  else match find (ident_ sd_) g with
  | Some _ => (g, -1, EEXIST)
  | None =>
      let '(g, r, e) := process_directive directive e g in
      if negb (r =? 0) then (g, r, e)
      else match descriptors g !! ident_ sd_ with
           | Some _ => (g, r, e)
           | None => (with_descriptors (<[ident_ sd_ := set_active_flag sd_]> (descriptors g)) g, r, e)
           end
  end.

(** daf/ServiceGestalt.cpp:753-825 [SuspendActivity::run]. And [ResumeActivity::run], which is the same with [on] for the
    state to reach. *)
Definition switch_run (on lock : bool) (ident : text) (e : errno) g : gestalt G * Z * errno :=
  if negb lock then (g, -1, ENOLCK)
  else match find ident g with
  | None => (g, -1, EEXIST)
  | Some svc_type =>
      if fini_called svc_type then (g, -1, EACCES)
      else if Bool.eqb (active svc_type) on then (g, 0, Enone)
      else
        let '(g, r, e) :=
          process_directive (if on then resume_directive classic ident else suspend_directive classic ident) e g in
        if negb (r =? 0) then
          (with_ace (ace_set_active (c_str ident) (negb on) (ace g)) g, r, if decide (e = EINVAL) then ENOTSUP else e)
        else (with_descriptors (alter (if on then set_active_flag else clr_active_flag) ident (descriptors g)) g, r, e)
  end.

(** daf/ServiceGestalt.cpp:828-857 [RemoveActivity::run]. *)
Definition RemoveActivity_run (lock : bool) (ident : text) (e : errno) g : gestalt G * Z * errno :=
  if negb lock then (g, -1, ENOLCK)
  else match find ident g with
  | None => (g, -1, EEXIST)
  | Some svc_type =>
      if fini_called svc_type then (g, -1, EACCES)
      else
        let '(g, r, e) := process_directive (remove_directive classic ident) e g in
        let g' := with_descriptors (delete ident (descriptors g)) g in
        match descriptors g !! ident with
        | Some _ => (g', if decide (e = Enone \/ e = EINVAL) then 0 else r, e)
        | None => (g', 0, ENOENT)
        end
  end.

(** daf/ServiceGestalt.cpp:171-182 [LoadStaticActivity::run]. And the activities' other overloads of [run]. *)
Definition run_activity (lock : bool) (act : activity) : errno -> gestalt G -> gestalt G * Z * errno :=
  match act with
  | LoadStaticActivity sd => LoadActivity_run lock (static_directive classic (ident_ sd) (parameters_ sd)) sd
  | LoadDynamicActivity sd =>
      LoadActivity_run lock
        (dynamic_directive classic (ident_ sd) (libpathname_ sd) (objectclass_ sd) (parameters_ sd)) sd
  | SuspendActivity ident => switch_run false lock ident
  | ResumeActivity ident => switch_run true lock ident
  | RemoveActivity ident => RemoveActivity_run lock ident
  end.

(** *** Step by step *)

(** daf/ServiceGestalt.cpp:757-771 [SuspendActivity::run]. From the lock to the tests. *)
Definition switch_begin (on lock : bool) (ident : text) (e : errno) g : stage :=
  if negb lock then Over (-1) ENOLCK
  else match find ident g with
  | None => Over (-1) EEXIST
  | Some svc_type =>
      if fini_called svc_type then Over (-1) EACCES
      else if Bool.eqb (active svc_type) on then Over 0 Enone else Going (Checked on ident e)
  end.

(** daf/ServiceGestalt.cpp:753-825 [SuspendActivity::run]. One step of a thread, of any activity. *)
Definition advance (lock : bool) (p : progress) g : gestalt G * stage :=
  match p with
  | Queued (SuspendActivity ident) => (g, switch_begin false lock ident ENOEXEC g)
  | Queued (ResumeActivity ident) => (g, switch_begin true lock ident ENOEXEC g)
  | Queued act => let '(g, r, e) := run_activity lock act ENOEXEC g in (g, Over r e)
  | Checked on ident e =>
      let '(g, r, e) := process_directive (if on then resume_directive classic ident else suspend_directive classic ident) e g in
      (g, Going (if r =? 0 then Directed on ident e else Failed on ident r e))
  | Directed on ident e =>
      (with_descriptors (alter (if on then set_active_flag else clr_active_flag) ident (descriptors g)) g, Over 0 e)
  | Failed on ident r e =>
      (with_ace (ace_set_active (c_str ident) (negb on) (ace g)) g, Over r (if decide (e = EINVAL) then ENOTSUP else e))
  end.

(** At most [k] steps, without another thread in between. *)
Fixpoint advances (lock : bool) (k : nat) (p : progress) g : gestalt G * stage :=
  match k with
  | O => (g, Going p)
  | S k => match advance lock p g with (g, Going p) => advances lock k p g | r => r end
  end.

(** The thread of a caller that gives up goes on. *)
Definition abandon (k : nat) (act : activity) s : system G :=
  let '(g, st) := advances true k (Queued act) (home s) in
  System g (late s ++ match st with Going p => [p] | Over _ _ => [] end).

(** ** Waiting for the result *)

(** daf/ServiceGestalt.cpp:492-503 [ServiceGestalt::process_svc_action]. With [wait_result]; a thread of the executor starts a
    command with ENOEXEC in its [errno]. *)
Definition process_svc_action (how : execution) (act : activity) (e : errno) s : system G * Z * errno :=
  match how with
  | InTime lock =>
      let '(g, r, error_) := run_activity lock act ENOEXEC (home s) in
      (System g (late s), r, if r =? 0 then e else error_)
  | TimedOut k => (abandon k act s, -1, ETIME)
  | Interrupted k => (abandon k act s, -1, ENOEXEC)
  | Refused => (s, -1, ENOEXEC)
  end.

(** No thread is in the middle. *)
Definition quiet s : bool := forallb (fun p => negb (midway p)) (late s).

(** A late activity makes a step; a load or a removal waits until no thread holds the lock. *)
Definition run_late (k : nat) (lock : bool) s : option (system G) :=
  p ← late s !! k;
  if lock && exclusive p && negb (quiet s) then None
  else
    let '(g, st) := advance lock p (home s) in
    Some (System g (match st with Going p => <[k := p]> (late s) | Over _ _ => delete k (late s) end)).

(** ** Operations *)

(** daf/ServiceGestalt.cpp:330-364 [ServiceGestalt::suspendService]. The part the operations on a loaded service share. *)
Definition service_action (make : text -> activity) (how : execution) (ident : text) (e : errno) s
  : system G * Z * errno :=
  let svc_ident := trim ident in
  if bad_ident svc_ident then (s, -1, EINVAL)
  else
    let '(s, r, e) := process_svc_action how (make svc_ident) e s in
    (s, if r =? 0 then 0 else -1, e).

(** daf/ServiceGestalt.cpp:330-364 [ServiceGestalt::suspendService]. *)
Definition suspendService : execution -> text -> errno -> system G -> system G * Z * errno := service_action SuspendActivity.
(** daf/ServiceGestalt.cpp:367-401 [ServiceGestalt::resumeService]. *)
Definition resumeService : execution -> text -> errno -> system G -> system G * Z * errno := service_action ResumeActivity.
(** daf/ServiceGestalt.cpp:404-438 [ServiceGestalt::removeService]. *)
Definition removeService : execution -> text -> errno -> system G -> system G * Z * errno := service_action RemoveActivity.

Section loading.
Context `{Platform} (fuel : nat).

Definition format_property_args (args : text) : PM text :=
  format_args (fun prop => get_property fuel prop true) fuel args true true.

(** daf/ServiceGestalt.cpp:172-222 [ServiceGestalt::loadStatic]. *)
Definition loadStatic (how : execution) (now : Z) (ident parameters : text) (e : errno) s : PM (system G * Z * errno) :=
  let svc_ident := trim ident in
  if bad_ident svc_ident then mret (s, -1, EINVAL)
  else
    svc_params ← format_property_args parameters;
    let svc_descriptor := Descriptor svc_ident [] [] svc_params now (Z.lor LOAD_STATIC LOAD_OBJECT) in
    let '(s, r, e) := process_svc_action how (LoadStaticActivity svc_descriptor) e s in
    mret (s, if r =? 0 then 0 else -1, e).

(** daf/ServiceGestalt.cpp:299-305 [ServiceGestalt::loadDynamic]. *)
Definition quote_lib (svc_libpath : text) : text :=
  if 0 <? find_int SPACE svc_libpath 0 then QUOTE :: svc_libpath ++ [QUOTE] else svc_libpath.

(** daf/ServiceGestalt.cpp:225-327 [ServiceGestalt::loadDynamic]. *)
Definition loadDynamic (how : execution) (now : Z) (ident libpathname objectclass parameters : text) (e : errno) s
  : PM (system G * Z * errno) :=
  let svc_ident := trim ident in
  if bad_ident svc_ident then mret (s, -1, EINVAL)
  else
    let svc_objclass := trim objectclass in
    if bool_decide (svc_objclass = []) || (0 <? find_int SPACE svc_objclass 0) then mret (s, -1, EINVAL)
    else
      let svc_libpath := parse_args libpathname true true in
      if bool_decide (svc_libpath = []) then mret (s, -1, EINVAL)
      else
        let svc_libpath := clean_lib (length svc_libpath) svc_libpath in
        if bool_decide (svc_libpath = []) then mret (s, -1, EINVAL)
        else
          let svc_libpath := quote_lib svc_libpath in
          svc_params ← format_property_args parameters;
          let svc_descriptor :=
            Descriptor svc_ident svc_libpath svc_objclass svc_params now (Z.lor LOAD_DYNAMIC LOAD_OBJECT) in
          let '(s, r, e) := process_svc_action how (LoadDynamicActivity svc_descriptor) e s in
          mret (s, if r =? 0 then 0 else -1, e).
End loading.

(** daf/ServiceGestalt.cpp:506-531 [ServiceGestalt::list_service_repository]. *)
Definition list_service_repository (reverse : bool) g : list descriptor :=
  let svc_list := omap (fun name => descriptors g !! name) (ace_names (ace g)) in
  if reverse then rev svc_list else svc_list.

(** daf/ServiceGestalt.cpp:441-455 [ServiceGestalt::suspendServiceAll]. The loop of the operations on all services: the number
    of failures so far, and [how] each activity goes. *)
Fixpoint each_service (op : execution -> text -> errno -> system G -> system G * Z * errno)
    (how : text -> execution) (svc_list : list descriptor) (fails : Z) (e : errno) s : system G * Z * errno :=
  match svc_list with
  | [] => (s, fails, e)
  | sd :: svc_list =>
      let '(s, r, e) := op (how (ident_ sd)) (ident_ sd) e s in
      each_service op how svc_list (if r <? 0 then fails + 1 else fails) e s
  end.

(** daf/ServiceGestalt.cpp:441-455 [ServiceGestalt::suspendServiceAll]. *)
Definition suspendServiceAll (how : text -> execution) (e : errno) s : system G * Z * errno :=
  each_service suspendService how (list_service_repository true (home s)) 0 e s.
(** daf/ServiceGestalt.cpp:458-472 [ServiceGestalt::resumeServiceAll]. *)
Definition resumeServiceAll (how : text -> execution) (e : errno) s : system G * Z * errno :=
  each_service resumeService how (list_service_repository true (home s)) 0 e s.
(** daf/ServiceGestalt.cpp:475-489 [ServiceGestalt::removeServiceAll]. *)
Definition removeServiceAll (how : text -> execution) (e : errno) s : system G * Z * errno :=
  each_service removeService how (list_service_repository true (home s)) 0 e s.

(** daf/ServiceGestalt.cpp:55-77 [locateServiceIdent]. [object] gives the object of an entry that is a service object. *)
Definition locateServiceIdent {O : Type} `{EqDecision O} (object : text -> option O) (svc_obj : O) g : result text :=
  match list_find (fun name => object name = Some svc_obj) (ace_names (ace g)) with
  | Some (_, name) => Ok name
  | None => Throw NotFoundException
  end.
End gestalt.

(** ** What ACE promises *)

(** A name the operations let through. *)
Definition valid_ident (n : text) : Prop :=
  n <> [] /\ Forall (fun c => (c ∉ INVALID_IDENT_CHARS) /\ iscntrl c = false) n.

(** The documented behaviour of ACE's repository and of its directives: an entry's name is
    in the list of names; a load adds a service and keeps the others; a directive for a loaded
    service acts on that one, suspending or resuming leaves it in place, and removing it
    without an error takes it out. *)
Class AceGestaltLaws (G : Type) `{AceGestalt G} (classic : bool) : Prop := {
  ace_names_find : forall a n, is_Some (ace_find a n) -> n ∈ ace_names a;
  ace_set_active_find : forall a n b m,
    ace_find (ace_set_active n b a) m
    = (if decide (m = n) then ((fun t => SvcType b (fini_called t)) <$> ace_find a m) else ace_find a m);
  ace_static : forall a n params a' r e, valid_ident n -> ace_find a n = None ->
    ace_process (c_str (static_directive classic n params)) a = (a', r, e) ->
    (forall m t, ace_find a m = Some t -> ace_find a' m = Some t) /\ (r = 0 -> ace_find a' n = Some (SvcType true false));
  ace_dynamic : forall a n lib cls params a' r e, valid_ident n -> ace_find a n = None ->
    ace_process (c_str (dynamic_directive classic n lib cls params)) a = (a', r, e) ->
    (forall m t, ace_find a m = Some t -> ace_find a' m = Some t) /\ (r = 0 -> ace_find a' n = Some (SvcType true false));
  ace_suspend : forall a n t a' r e, valid_ident n -> ace_find a n = Some t ->
    ace_process (c_str (suspend_directive classic n)) a = (a', r, e) ->
    (forall m, m <> n -> ace_find a' m = ace_find a m)
    /\ exists b, ace_find a' n = Some (SvcType b (fini_called t)) /\ (r = 0 -> b = false);
  ace_resume : forall a n t a' r e, valid_ident n -> ace_find a n = Some t ->
    ace_process (c_str (resume_directive classic n)) a = (a', r, e) ->
    (forall m, m <> n -> ace_find a' m = ace_find a m)
    /\ exists b, ace_find a' n = Some (SvcType b (fini_called t)) /\ (r = 0 -> b = true);
  ace_remove : forall a n t a' r e, valid_ident n -> ace_find a n = Some t ->
    ace_process (c_str (remove_directive classic n)) a = (a', r, e) ->
    (forall m, m <> n -> ace_find a' m = ace_find a m) /\ (r = 0 -> ace_find a' n = None);
}.

(** ** Names *)

Lemma find_any_None chars s : find_any chars s = None <-> Forall (fun c => c ∉ chars) s.
Proof.
  induction s as [|c s IHs]; cbn [find_any]; [done|]. rewrite Forall_cons, <- IHs. clear IHs.
  destruct (decide (c ∈ chars)); [by split; [|intros []]|]. rewrite fmap_None. by split; [|intros []].
Qed.

Lemma uncontrol_not_cntrl c : iscntrl (uncontrol c) = false.
Proof. unfold uncontrol. by destruct (iscntrl c) eqn:E. Qed.

Lemma trim_no_cntrl s c : c ∈ trim s -> iscntrl c = false.
Proof.
  unfold trim. destruct (trim_loop_spec SPACE (length s) s ltac:(lia)) as (pre & mid & post & _ & E & _).
  unfold trim_string. rewrite E. intros (x & -> & _)%list_elem_of_fmap. apply uncontrol_not_cntrl.
Qed.

Lemma valid_trim s : bad_ident (trim s) = false -> valid_ident (trim s).
Proof.
  unfold bad_ident. rewrite orb_false_iff, !bool_decide_eq_false, <- eq_None_not_Some, find_any_None.
  intros [Hne Hch]. split; [done|]. rewrite Forall_forall in *. intros c Hc.
  split; [by apply Hch|]. by apply (trim_no_cntrl s).
Qed.

Lemma bad_ident_spec s : bad_ident (trim s) = true <-> ~ valid_ident (trim s).
Proof.
  split; [|intros Hv; destruct (bad_ident (trim s)) eqn:E; [done|destruct Hv; by apply valid_trim]].
  unfold bad_ident. rewrite orb_true_iff, !bool_decide_eq_true. intros [E|[k E]] [Hne Hch]; [done|].
  rewrite (proj2 (find_any_None _ _)) in E; [done|]. eapply Forall_impl; [done|]. by intros c [].
Qed.

Lemma no_nul_valid n : valid_ident n -> Forall (fun c => code c <> 0) n.
Proof. intros [_ Hn]. eapply Forall_impl; [done|]. intros c [_ Hc]. unfold iscntrl in Hc. lia. Qed.

Lemma c_str_valid n : valid_ident n -> c_str n = n.
Proof. intros Hn. rewrite <- (app_nil_r n) at 1. rewrite c_str_app by (by apply no_nul_valid). apply app_nil_r. Qed.

(** ** Library paths *)

Fixpoint lstrip (s : text) : text :=
  match s with
  | [] => []
  | c :: s' => if lib_strips c then lstrip s' else s
  end.
Definition rstrip (s : text) : text := reverse (lstrip (reverse s)).

Lemma rstrip_snoc s c : rstrip (s ++ [c]) = if lib_strips c then rstrip s else s ++ [c].
Proof.
  unfold rstrip. rewrite reverse_snoc. cbn [lstrip]. destruct (lib_strips c); [done|].
  by rewrite reverse_cons, reverse_involutive.
Qed.

Lemma clean_lib_back x s :
  lib_strips x = false -> clean_lib (S (length s)) (x :: s) = uncontrol <$> rstrip (x :: s).
Proof.
  intros Hx. assert (uncontrol x = x) as Hux.
  { unfold uncontrol. unfold lib_strips in Hx. rewrite !orb_false_iff in Hx. by rewrite (proj2 Hx). }
  induction s as [|y s IH] using rev_ind.
  { pose proof (rstrip_snoc [] x) as E. rewrite Hx in E. cbn [app] in E. rewrite E.
    cbn [length clean_lib]. rewrite char_at_head, Hx. simpl. by rewrite Hux. }
  rewrite length_app, Nat.add_1_r. cbn [clean_lib]. rewrite char_at_head, Hx. cbn [Nat.ltb Nat.leb].
  change (x :: s ++ [y]) with ((x :: s) ++ [y]).
  change (S (length s)) with (length (x :: s)). rewrite char_at_last, rstrip_snoc.
  destruct (lib_strips y) eqn:Hy.
  - rewrite take_app_length, drop_ge by (rewrite length_app; simpl; lia). rewrite app_nil_r. apply IH.
  - rewrite take_app_length, drop_app_length, fmap_app. simpl. f_equal. f_equal. f_equal.
    unfold uncontrol. unfold lib_strips in Hy. rewrite !orb_false_iff in Hy. by rewrite (proj2 Hy).
Qed.

Lemma clean_lib_spec s : clean_lib (length s) s = uncontrol <$> rstrip (lstrip s).
Proof.
  induction s as [|x s IH]; [done|]. cbn [lstrip]. destruct (lib_strips x) eqn:Hx.
  - cbn [length clean_lib]. rewrite char_at_head, Hx. simpl. rewrite drop_0. apply IH.
  - by apply clean_lib_back.
Qed.

(** ** The descriptors mirror the repository *)

Section mirror.
Context {G : Type} `{AceGestalt G} (classic : bool) `{!AceGestaltLaws G classic}.
Implicit Types (g : gestalt G) (s : system G).

(** Every descriptor has a valid name, is filed under it, and belongs to an entry that is
    active when its flag says so. *)
Definition mirrors g : Prop := forall n d, descriptors g !! n = Some d ->
  ident_ d = n /\ valid_ident n /\ exists t, ace_find (ace g) n = Some t /\ active t = flag_active d.

(** The same, with the flag in step for the names in [N] only. *)
Definition mirrors_on (N : text -> Prop) g : Prop := forall n d, descriptors g !! n = Some d ->
  ident_ d = n /\ valid_ident n /\ exists t, ace_find (ace g) n = Some t /\ (N n -> active t = flag_active d).

Lemma mirrors_all g (N : text -> Prop) : (forall n, N n) -> mirrors g <-> mirrors_on N g.
Proof.
  intros HN. split; intros Hm n d Hd; destruct (Hm n d Hd) as (Hi & Hv & t & Ht & Ha); (split; [done|]); (split; [done|]); exists t; auto.
Qed.

Lemma mirrors_on_weaken (N N' : text -> Prop) g : (forall n, N' n -> N n) -> mirrors_on N g -> mirrors_on N' g.
Proof. intros HN Hm n d Hd. destruct (Hm n d Hd) as (Hi & Hv & t & Ht & Ha). split; [done|]. split; [done|]. exists t. auto. Qed.

Definition activity_ident (act : activity) : text :=
  match act with
  | LoadStaticActivity sd | LoadDynamicActivity sd => ident_ sd
  | SuspendActivity n | ResumeActivity n | RemoveActivity n => n
  end.

Lemma find_valid n g : valid_ident n -> find n g = ace_find (ace g) n.
Proof. intros Hn. unfold find. by rewrite c_str_valid. Qed.

Lemma set_flag_active d : flag_active (set_active_flag d) = true.
Proof. unfold flag_active, set_active_flag, with_flags. cbn [loadflags_]. rewrite Z.lor_spec. apply orb_true_r. Qed.

Lemma clr_flag_active d : flag_active (clr_active_flag d) = false.
Proof. unfold flag_active, clr_active_flag, with_flags. cbn [loadflags_]. rewrite Z.ldiff_spec. apply andb_false_r. Qed.

(** Entries that keep their state keep the mirror. *)
Lemma mirrors_keep {N} g (a : G) :
  mirrors_on N g -> (forall n t, valid_ident n -> ace_find (ace g) n = Some t ->
    exists t', ace_find a n = Some t' /\ active t' = active t) -> mirrors_on N (with_ace a g).
Proof.
  intros Hm Ha n d Hd. destruct (Hm n d Hd) as (Hi & Hv & t & Ht & Hf).
  split; [done|]. split; [done|]. destruct (Ha n t Hv Ht) as (t' & Ht' & E). exists t'. split; [done|]. intros Hn. rewrite E. auto.
Qed.

(** What a directive of a load does, for either kind. *)
Definition loads (directive n : text) : Prop := forall (a a' : G) r e, ace_find a n = None ->
  ace_process (c_str directive) a = (a', r, e) ->
  (forall m t, ace_find a m = Some t -> ace_find a' m = Some t) /\ (r = 0 -> ace_find a' n = Some (SvcType true false)).

Lemma LoadActivity_run_on {N} lock directive sd e g g' r e' :
  mirrors_on N g -> valid_ident (ident_ sd) -> loads directive (ident_ sd) ->
  LoadActivity_run lock directive sd e g = (g', r, e') ->
  mirrors_on N g'
  /\ (r = 0 -> descriptors g' = <[ident_ sd := set_active_flag sd]> (descriptors g))
  /\ (r <> 0 -> descriptors g' = descriptors g)
  /\ (forall t, ace_find (ace g) (ident_ sd) = Some t -> g' = g /\ r = -1).
Proof.
  intros Hm Hv Hl. unfold LoadActivity_run. destruct lock; [|by intros [= <- <- <-]]. cbn [negb].
  rewrite find_valid by done. destruct (ace_find (ace g) (ident_ sd)) as [t|] eqn:Ef; [by intros [= <- <- <-]|].
  unfold process_directive. destruct (ace_process _ (ace g)) as [[a r0] e0] eqn:Ep.
  destruct (Hl _ _ _ _ Ef Ep) as [Hk Hd].
  assert (mirrors_on N (with_ace a g)) as Hm' by (apply mirrors_keep; [done|]; intros n t _ Ht; eauto).
  destruct (Z.eqb_spec r0 0) as [->|Hr]; cbn [negb]; [|by intros [= <- <- <-]].
  assert (descriptors g !! ident_ sd = None) as Hnone.
  { apply eq_None_not_Some. intros [d Hd']. destruct (Hm _ _ Hd') as (_ & _ & t & ? & _). congruence. }
  cbn [descriptors with_ace]. rewrite Hnone. intros [= <- <- <-]. split; [|done].
  intros n d. cbn [descriptors with_descriptors with_ace ace]. intros [[<- <-]|[Hne Hd']]%lookup_insert_Some.
  - split; [done|]. split; [done|]. eexists. split; [by apply Hd|]. by rewrite set_flag_active.
  - apply (Hm' n d Hd').
Qed.

Lemma switch_law (on : bool) n (a a' : G) t r (e : option errno) :
  valid_ident n -> ace_find a n = Some t ->
  ace_process (c_str (if on then resume_directive classic n else suspend_directive classic n)) a = (a', r, e) ->
  (forall m, m <> n -> ace_find a' m = ace_find a m)
  /\ exists b, ace_find a' n = Some (SvcType b (fini_called t)) /\ (r = 0 -> b = on).
Proof. destruct on; intros Hv Ht Hp; [by eapply ace_resume|by eapply ace_suspend]. Qed.

Lemma switch_run_on {N} on lock n e g g' r e' :
  mirrors_on N g -> valid_ident n -> switch_run classic on lock n e g = (g', r, e') ->
  mirrors_on N g'
  /\ (r = 0 -> (exists t, ace_find (ace g') n = Some t /\ active t = on)
       /\ forall m, m <> n -> descriptors g' !! m = descriptors g !! m)
  /\ (r <> 0 -> descriptors g' = descriptors g
       /\ forall m, active <$> ace_find (ace g') m = active <$> ace_find (ace g) m)
  /\ dom (descriptors g') = dom (descriptors g).
Proof.
  intros Hm Hv. unfold switch_run. destruct lock; [|by intros [= <- <- <-]]. cbn [negb].
  rewrite find_valid by done. destruct (ace_find (ace g) n) as [t|] eqn:Ef; [|by intros [= <- <- <-]].
  destruct (fini_called t) eqn:Efi; [by intros [= <- <- <-]|].
  destruct (Bool.eqb (active t) on) eqn:Eon.
  { apply eqb_prop in Eon. intros [= <- <- <-]. split; [done|]. split; [|done]. eauto. }
  assert (active t = negb on) as Hneg by (by destruct (active t), on).
  unfold process_directive. destruct (ace_process _ (ace g)) as [[a r0] e0] eqn:Ep.
  destruct (switch_law _ _ _ _ _ _ _ Hv Ef Ep) as [Hk (b & Hb & Hr)].
  destruct (Z.eqb_spec r0 0) as [->|Hne]; cbn [negb]; intros [= <- <- <-].
  - specialize (Hr eq_refl) as ->. cbn [descriptors with_descriptors with_ace ace]. split; [|split; [|split]].
    + intros m d. cbn [descriptors with_descriptors with_ace ace]. destruct (decide (m = n)) as [->|Hne].
      * rewrite lookup_alter_eq. intros (d0 & Hd0 & ->)%fmap_Some. destruct (Hm _ _ Hd0) as (Hi & _).
        split; [by destruct on|]. split; [done|]. eexists. split; [exact Hb|].
        destruct on; [by rewrite set_flag_active|by rewrite clr_flag_active].
      * rewrite lookup_alter_ne, Hk by done. apply Hm.
    + intros _. split; [eauto|]. intros m Hne. by rewrite lookup_alter_ne.
    + done.
    + apply dom_alter_L.
  - assert (forall m, active <$> ace_find (ace_set_active (c_str n) (negb on) a) m = active <$> ace_find (ace g) m) as Hact.
    { intros m. rewrite ace_set_active_find, c_str_valid by done. destruct (decide (m = n)) as [->|Hmn].
      - rewrite Hb, Ef. simpl. by rewrite Hneg.
      - by rewrite Hk. }
    split; [|done]. apply (mirrors_keep g _ Hm). intros m t' _ Ht'. specialize (Hact m).
    rewrite Ht' in Hact. cbn [fmap option_fmap option_map] in Hact.
    apply fmap_Some in Hact as (t'' & Ht'' & ->). eauto.
Qed.

Lemma RemoveActivity_run_on {N} lock n e g g' r e' :
  mirrors_on N g -> valid_ident n -> RemoveActivity_run classic lock n e g = (g', r, e') ->
  mirrors_on N g'
  /\ (r = 0 -> descriptors g' = delete n (descriptors g))
  /\ (descriptors g' = descriptors g \/ descriptors g' = delete n (descriptors g)).
Proof.
  intros Hm Hv. unfold RemoveActivity_run. destruct lock; [|intros [= <- <- <-]; split_and!; [done..|by left]]. cbn [negb].
  rewrite find_valid by done. destruct (ace_find (ace g) n) as [t|] eqn:Ef; [|intros [= <- <- <-]; split_and!; [done..|by left]].
  destruct (fini_called t); [intros [= <- <- <-]; split_and!; [done..|by left]|].
  unfold process_directive. destruct (ace_process _ (ace g)) as [[a r0] e0] eqn:Ep.
  destruct (ace_remove (ace g) n t a r0 e0 Hv Ef Ep) as [Hk _]. cbn [descriptors with_descriptors with_ace ace].
  set (g1 := with_descriptors _ _). assert (mirrors_on N g1) as Hg1.
  { intros m d. unfold g1. cbn [descriptors with_descriptors with_ace ace]. intros [Hne Hd]%lookup_delete_Some.
    rewrite Hk by done. by apply Hm. }
  destruct (descriptors g !! n); intros [= <- <- <-]; split; auto.
Qed.

Lemma run_activity_on {N} lock act e g g' r e' :
  mirrors_on N g -> valid_ident (activity_ident act) -> run_activity classic lock act e g = (g', r, e') -> mirrors_on N g'.
Proof.
  intros Hm Hv. destruct act as [sd|sd|n|n|n]; cbn [activity_ident] in Hv; cbn [run_activity]; intros Hr.
  - eapply LoadActivity_run_on; [done|done| |done]. intros a a' r0 e0. by apply ace_static.
  - eapply LoadActivity_run_on; [done|done| |done]. intros a a' r0 e0. by apply ace_dynamic.
  - by eapply switch_run_on.
  - by eapply switch_run_on.
  - by eapply RemoveActivity_run_on.
Qed.

(** With every flag in step. *)
Lemma LoadActivity_run_spec lock directive sd e g g' r e' :
  mirrors g -> valid_ident (ident_ sd) -> loads directive (ident_ sd) -> LoadActivity_run lock directive sd e g = (g', r, e') ->
  mirrors g' /\ (r = 0 -> descriptors g' = <[ident_ sd := set_active_flag sd]> (descriptors g))
  /\ (r <> 0 -> descriptors g' = descriptors g) /\ (forall t, ace_find (ace g) (ident_ sd) = Some t -> g' = g /\ r = -1).
Proof. rewrite !(mirrors_all _ (fun _ => True)) by done. apply LoadActivity_run_on. Qed.

Lemma switch_run_spec on lock n e g g' r e' :
  mirrors g -> valid_ident n -> switch_run classic on lock n e g = (g', r, e') ->
  mirrors g' /\ (r = 0 -> (exists t, ace_find (ace g') n = Some t /\ active t = on) /\ forall m, m <> n -> descriptors g' !! m = descriptors g !! m)
  /\ (r <> 0 -> descriptors g' = descriptors g /\ forall m, active <$> ace_find (ace g') m = active <$> ace_find (ace g) m)
  /\ dom (descriptors g') = dom (descriptors g).
Proof. rewrite !(mirrors_all _ (fun _ => True)) by done. apply switch_run_on. Qed.

Lemma RemoveActivity_run_spec lock n e g g' r e' :
  mirrors g -> valid_ident n -> RemoveActivity_run classic lock n e g = (g', r, e') ->
  mirrors g' /\ (r = 0 -> descriptors g' = delete n (descriptors g)) /\ (descriptors g' = descriptors g \/ descriptors g' = delete n (descriptors g)).
Proof. rewrite !(mirrors_all _ (fun _ => True)) by done. apply RemoveActivity_run_on. Qed.

(** *** Steps *)

Definition progress_ident (p : progress) : text :=
  match p with Queued act => activity_ident act | Checked _ n _ | Directed _ n _ | Failed _ n _ _ => n end.

(** The flag of the service is the state of its entry. *)
Definition in_step n g : Prop := forall d t, descriptors g !! n = Some d -> ace_find (ace g) n = Some t -> active t = flag_active d.

(** What a thread in the middle knows, if no other works on its service. *)
Definition mid_ok (p : progress) g : Prop := forall d t, descriptors g !! progress_ident p = Some d -> ace_find (ace g) (progress_ident p) = Some t ->
  match p with
  | Queued _ => True
  | Checked on _ _ => active t = negb on /\ flag_active d = negb on
  | Directed on _ _ => active t = on /\ flag_active d = negb on
  | Failed on _ _ _ => flag_active d = negb on
  end.

(** The run of an activity is its steps, one after the other. *)
Lemma advances_run lock act g :
  advances classic lock 3 (Queued act) g = (let '(g', r, e) := run_activity classic lock act ENOEXEC g in (g', Over r e)).
Proof.
  assert (forall on n, (match switch_begin on lock n ENOEXEC g with
      | Going p => advances classic lock 2 p g | Over r e => (g, Over r e) end)
    = (let '(g', r, e) := switch_run classic on lock n ENOEXEC g in (g', Over r e))) as Hsw.
  { intros on n. unfold switch_begin, switch_run. destruct lock; [|done]. cbn [negb]. destruct (find n g) as [t|]; [|done].
    destruct (fini_called t); [done|]. destruct (Bool.eqb _ _); [done|]. cbn [advances advance].
    destruct (process_directive _ _ g) as [[g1 r] e1]. destruct (Z.eqb_spec r 0) as [->|]; done. }
  destruct act as [sd|sd|n|n|n]; cbn [advances advance run_activity].
  1,2: by destruct (LoadActivity_run _ _ _ _ _) as [[? ?] ?].
  3: by destruct (RemoveActivity_run _ _ _ _ _) as [[? ?] ?].
  - specialize (Hsw false n). cbn [advances] in Hsw. destruct (switch_begin false lock n ENOEXEC g); exact Hsw.
  - specialize (Hsw true n). cbn [advances] in Hsw. destruct (switch_begin true lock n ENOEXEC g); exact Hsw.
Qed.

(** What a step of a suspend or a resume does. *)
Record switches (p : progress) (st : stage) g g' : Prop := {
  sw_frame : forall m, m <> progress_ident p -> descriptors g' !! m = descriptors g !! m /\ ace_find (ace g') m = ace_find (ace g) m;
  sw_ident : ident_ <$> descriptors g' !! progress_ident p = ident_ <$> descriptors g !! progress_ident p;
  sw_found : is_Some (ace_find (ace g) (progress_ident p)) -> is_Some (ace_find (ace g') (progress_ident p));
  sw_begin : midway p = false -> g' = g;
  sw_going : forall p', st = Going p' -> midway p' = true /\ progress_ident p' = progress_ident p /\ is_Some (ace_find (ace g') (progress_ident p));
  sw_step : (if midway p then mid_ok p g else in_step (progress_ident p) g) ->
    match st with Going p' => mid_ok p' g' | Over _ _ => in_step (progress_ident p) g' end;
}.

Lemma switch_begin_switches on lock n act g : progress_ident (Queued act) = n -> valid_ident n -> switches (Queued act) (switch_begin on lock n ENOEXEC g) g g.
Proof.
  intros Ea Hv. split; rewrite ?Ea; try done; unfold switch_begin; destruct lock; cbn [negb]; try done; rewrite find_valid by done;
    destruct (ace_find (ace g) n) as [t|] eqn:Ef; try done; destruct (fini_called t); try done; destruct (Bool.eqb (active t) on) eqn:Eon; try done.
  - intros p' [= <-]. split; [done|]. split; [done|]. by eexists.
  - cbn [midway]. intros Hi d t' Hd Ht. cbn [progress_ident] in *. rewrite Ef in Ht. injection Ht as <-. specialize (Hi d t Hd Ef).
    destruct (active t), on, (flag_active d); done.
Qed.

Lemma midway_switches lock p st g g' : midway p = true -> valid_ident (progress_ident p) -> is_Some (ace_find (ace g) (progress_ident p)) ->
  advance classic lock p g = (g', st) -> switches p st g g'.
Proof.
  intros Hmid Hv [t Ht]. destruct p as [act|on n e|on n e|on n r e]; [done|..]; cbn [progress_ident midway] in *; cbn [advance].
  - unfold process_directive. destruct (ace_process _ (ace g)) as [[a r] e0] eqn:Ep.
    destruct (switch_law _ _ _ _ _ _ _ Hv Ht Ep) as [Hk (b & Hb & Hr)]. intros [= <- <-].
    split; cbn [progress_ident midway with_ace ace descriptors]; try done.
    + intros m Hm. split; [done|]. by apply Hk.
    + intros p' [= <-]. destruct (r =? 0); (split; [done|]); (split; [done|]); rewrite Hb; by eexists.
    + intros Hok d t'. cbn [with_ace ace descriptors]. destruct (Z.eqb_spec r 0) as [E|]; cbn [progress_ident]; rewrite Hb; intros Hd [= <-];
        destruct (Hok d t Hd Ht) as [_ Hf]; [|done]. split; [|done]. cbn. auto.
  - intros [= <- <-]. split; cbn [progress_ident midway with_descriptors ace descriptors]; try done.
    + intros m Hm. by rewrite lookup_alter_ne.
    + rewrite lookup_alter_eq. destruct (descriptors g !! n); [|done]. by destruct on.
    + intros Hok d t'. cbn [with_descriptors ace descriptors]. rewrite lookup_alter_eq. intros (d0 & Hd0 & ->)%fmap_Some Ht'.
      destruct (Hok d0 t' Hd0 Ht') as [-> _]. destruct on; [by rewrite set_flag_active|by rewrite clr_flag_active].
  - intros [= <- <-]. split; cbn [progress_ident midway with_ace ace descriptors]; try done.
    + intros m Hm. split; [done|]. rewrite ace_set_active_find, c_str_valid by done. by rewrite decide_False.
    + rewrite ace_set_active_find, c_str_valid, decide_True by done. by rewrite Ht.
    + intros Hok d t'. cbn [with_ace ace descriptors]. rewrite ace_set_active_find, c_str_valid, decide_True by done. rewrite Ht.
      intros Hd [= <-]. by rewrite (Hok d t Hd Ht).
Qed.

(** *** The invariant *)

(** The services of the threads in the middle. *)
Definition switching (l : list progress) : list text := progress_ident <$> base.filter (fun p => midway p = true) l.

Lemma elem_of_switching n l : n ∈ switching l <-> exists p, p ∈ l /\ midway p = true /\ progress_ident p = n.
Proof.
  unfold switching. rewrite list_elem_of_fmap. split.
  - intros (p & -> & [Hm Hp]%list_elem_of_filter). by exists p.
  - intros (p & Hp & Hm & <-). exists p. split; [done|]. by apply list_elem_of_filter.
Qed.

Lemma switching_cons p l : switching (p :: l) = if midway p then progress_ident p :: switching l else switching l.
Proof. unfold switching. rewrite filter_cons. destruct (midway p); [by rewrite decide_True|by rewrite decide_False]. Qed.

Lemma switching_perm l l' : l ≡ₚ l' -> switching l ≡ₚ switching l'.
Proof. intros E. unfold switching. by rewrite E. Qed.

(** With [overlap], suspends and resumes of the same service may be in the middle at the same time, and nothing is said of the flags. *)
Definition settled (overlap : bool) (l : list progress) (n : text) : Prop := overlap = false /\ n ∉ switching l.

Record stable (overlap : bool) g (l : list progress) : Prop := {
  st_mirror : mirrors_on (settled overlap l) g;
  st_valid : Forall (fun p => valid_ident (progress_ident p)) l;
  st_found : forall n, n ∈ switching l -> is_Some (ace_find (ace g) n);
  st_alone : overlap = false -> NoDup (switching l);
  st_mid : overlap = false -> Forall (fun p => mid_ok p g) l;
}.

Lemma stable_perm overlap g l l' : l ≡ₚ l' -> stable overlap g l -> stable overlap g l'.
Proof.
  intros E [H1 H2 H3 H4 H5]. pose proof (switching_perm _ _ E) as Es. split.
  - eapply mirrors_on_weaken; [|exact H1]. intros n [? Hn]. split; [done|]. by rewrite Es.
  - by rewrite <- E.
  - intros n. rewrite <- Es. apply H3.
  - rewrite <- Es. done.
  - rewrite <- E. done.
Qed.

(** An activity is handed to a thread. *)
Lemma stable_queued overlap g l act : valid_ident (activity_ident act) -> stable overlap g l -> stable overlap g (Queued act :: l).
Proof.
  intros Hv [H1 H2 H3 H4 H5]. assert (switching (Queued act :: l) = switching l) as Es by (by rewrite switching_cons).
  split; rewrite ?Es; try done; [by constructor|intros Ho; constructor; [done|by apply H5]].
Qed.

Lemma exclusive_midway p : exclusive p = true -> midway p = false.
Proof. by destruct p as [[]| | |]. Qed.

Definition going_on (st : stage) (l : list progress) : list progress := match st with Going p => p :: l | Over _ _ => l end.

(** A step of the thread [p]. *)
Lemma stable_advance overlap lock p l g g' st : stable overlap g (p :: l) ->
  (lock && exclusive p = true -> switching l = []) -> (overlap = false -> midway p = false -> progress_ident p ∉ switching l) ->
  advance classic lock p g = (g', st) -> stable overlap g' (going_on st l).
Proof.
  intros Hs Hex Hcalm Ha. pose proof Hs as [H1 [Hv H2]%Forall_cons H3 H4 H5]. destruct (exclusive p) eqn:Ee.
  - pose proof (exclusive_midway p Ee) as Hmid. rewrite switching_cons, Hmid in H3, H4.
    assert (exists r e, st = Over r e /\ exists act, p = Queued act /\ run_activity classic lock act ENOEXEC g = (g', r, e)) as (r & e & -> & act & -> & Hr).
    { destruct p as [act| | |]; [|done..]. destruct act; try done; cbn [advance] in Ha;
        destruct (run_activity classic lock _ ENOEXEC g) as [[g1 r1] e1] eqn:Er; injection Ha as <- <-; exists r1, e1; (split; [done|]); eexists; (split; [done|]); exact Er. }
    cbn [going_on]. rewrite andb_true_r in Hex. destruct lock.
    + specialize (Hex eq_refl). split; rewrite ?Hex; try done.
      * eapply mirrors_on_weaken; [|eapply run_activity_on; [exact H1|exact Hv|exact Hr]].
        intros n. unfold settled. by rewrite switching_cons, Hmid.
      * intros n Hn. by apply elem_of_nil in Hn.
      * intros Ho. constructor.
      * intros Ho. apply Forall_forall. intros q Hq. destruct q as [act'|on n x|on n x|on n r' x]; [done|..]; exfalso;
          apply (not_elem_of_nil n); rewrite <- Hex; apply elem_of_switching; by eexists.
    + assert (g' = g) as ->.
      { destruct act; cbn [run_activity] in Hr; unfold LoadActivity_run, switch_run, RemoveActivity_run in Hr; cbn [negb] in Hr; by injection Hr as <- <- <-. }
      split; try done. intros Ho. by apply H5 in Ho as [_ ?]%Forall_cons.
  - assert (switches p st g g') as [Sf Si Sfd Sb Sg Ss].
    { destruct (midway p) eqn:Hmid.
      - eapply midway_switches; [done|done| |done]. apply H3. rewrite switching_cons, Hmid. by left.
      - destruct p as [act| | |]; [|done..]. destruct act; try done; cbn [advance] in Ha; injection Ha as <- <-; by apply switch_begin_switches. }
    assert (overlap = false -> progress_ident p ∉ switching l) as Hnl.
    { intros Ho. destruct (midway p) eqn:Hmid; [|auto]. specialize (H4 Ho). rewrite switching_cons, Hmid in H4. by apply NoDup_cons in H4 as [? _]. }
    assert (overlap = false -> match st with Going p' => mid_ok p' g' | Over _ _ => in_step (progress_ident p) g' end) as Hst.
    { intros Ho. apply Ss. destruct (midway p) eqn:Hmid; [by apply H5 in Ho as [? _]%Forall_cons|].
      intros d t Hd Ht. destruct (H1 _ _ Hd) as (_ & _ & t' & Ht' & Hact). rewrite Ht in Ht'. injection Ht' as <-. apply Hact.
      split; [done|]. rewrite switching_cons, Hmid. auto. }
    assert (forall m, m <> progress_ident p -> m ∉ switching (going_on st l) -> m ∉ switching (p :: l)) as Hother.
    { intros m Hm. rewrite switching_cons. destruct st as [p'|r e]; cbn [going_on]; [destruct (Sg p' eq_refl) as (Hm' & Ep & _); rewrite switching_cons, Hm'|];
        destruct (midway p); rewrite ?not_elem_of_cons; tauto. }
    split.
    + intros m d Hd. destruct (decide (m = progress_ident p)) as [->|Hne].
      * assert (exists d0, descriptors g !! progress_ident p = Some d0 /\ ident_ d0 = ident_ d) as (d0 & Hd0 & Ei).
        { rewrite Hd in Si. cbn in Si. symmetry in Si. apply fmap_Some in Si as (d0 & ? & ?). by exists d0. }
        destruct (H1 _ _ Hd0) as (Hi0 & _ & t0 & Ht0 & _). destruct (Sfd (ltac:(by eexists))) as [t Ht].
        split; [congruence|]. split; [done|]. exists t. split; [done|]. intros [Ho Hn]. specialize (Hst Ho).
        destruct st as [p'|r e]; [|by apply Hst]. destruct (Sg p' eq_refl) as (Hm' & Ep & _). cbn [going_on] in Hn.
        rewrite switching_cons, Hm', Ep in Hn. destruct Hn. by left.
      * destruct (Sf m Hne) as [E1 E2]. rewrite E1 in Hd. destruct (H1 _ _ Hd) as (Hi & Hvm & t & Ht & Hact).
        split; [done|]. split; [done|]. exists t. split; [by rewrite E2|]. intros [Ho Hn]. apply Hact. split; [done|]. by apply Hother.
    + destruct st as [p'|r e]; cbn [going_on]; [|done]. destruct (Sg p' eq_refl) as (_ & Ep & _). constructor; [by rewrite Ep|done].
    + assert (forall m, m ∈ switching l -> is_Some (ace_find (ace g') m)) as Hl.
      { intros m Hm. assert (is_Some (ace_find (ace g) m)) as Hf. { apply H3. rewrite switching_cons. destruct (midway p); [by right|done]. }
        destruct (decide (m = progress_ident p)) as [->|Hne]; [by apply Sfd|]. by rewrite (proj2 (Sf m Hne)). }
      destruct st as [p'|r e]; cbn [going_on]; [|done]. destruct (Sg p' eq_refl) as (Hm' & Ep & Hf). rewrite switching_cons, Hm', Ep.
      intros m [->|Hm]%elem_of_cons; auto.
    + intros Ho. specialize (H4 Ho). assert (NoDup (switching l)) as Hnd.
      { rewrite switching_cons in H4. destruct (midway p); [by apply NoDup_cons in H4 as [_ ?]|done]. }
      destruct st as [p'|r e]; cbn [going_on]; [|done]. destruct (Sg p' eq_refl) as (Hm' & Ep & _). rewrite switching_cons, Hm', Ep.
      constructor; auto.
    + intros Ho. specialize (H5 Ho). apply Forall_cons in H5 as [_ H5]. assert (Forall (fun q => mid_ok q g') l) as Hl.
      { destruct (midway p) eqn:Hmid; [|by rewrite (Sb eq_refl)]. rewrite Forall_forall in H5 |- *. intros q Hq. specialize (H5 q Hq).
        destruct (midway q) eqn:Hmq; [|by destruct q]. assert (progress_ident q <> progress_ident p) as Hne.
        { intros E. apply (Hnl Ho). rewrite <- E. apply elem_of_switching. by exists q. }
        intros d t. destruct (Sf _ Hne) as [-> ->]. apply H5. }
      specialize (Hst Ho). destruct st as [p'|r e]; cbn [going_on]; [by constructor|done].
Qed.

(** Some steps of one thread while no other is in the middle. *)
Lemma stable_advances overlap lock k p l g g' st : stable overlap g (p :: l) -> (k = 0%nat \/ switching l = []) ->
  advances classic lock k p g = (g', st) -> stable overlap g' (going_on st l).
Proof.
  revert p g. induction k as [|k IH]; intros p g Hs Hk; cbn [advances]; [by intros [= <- <-]|]. destruct Hk as [|Hq]; [done|].
  destruct (advance classic lock p g) as [g1 st1] eqn:E.
  assert (stable overlap g1 (going_on st1 l)) as Hs1.
  { eapply stable_advance; [exact Hs|done| |exact E]. intros _ _. rewrite Hq. by apply not_elem_of_nil. }
  destruct st1 as [p1|r e]; [apply IH; [exact Hs1|by right]|by intros [= <- <-]].
Qed.

Lemma quiet_switching s : quiet s = true <-> switching (late s) = [].
Proof.
  unfold quiet. induction (late s) as [|p l IH]; [done|]. rewrite switching_cons. cbn [forallb]. destruct (midway p); [done|exact IH].
Qed.

(** When no thread is in the middle and each flag is in step. *)
Definition system_ok s : Prop := mirrors (home s) /\ Forall (fun p => valid_ident (progress_ident p)) (late s).

Lemma stable_system_ok s : quiet s = true -> stable false (home s) (late s) -> system_ok s.
Proof.
  intros Hq%quiet_switching [H1 H2 _ _ _]. split; [|done]. eapply (mirrors_all _ (settled false (late s))); [|done].
  intros n. split; [done|]. rewrite Hq. by apply not_elem_of_nil.
Qed.

(** The steps that a call makes by itself are made while no thread is in the middle. *)
Definition alone (how : execution) s : Prop := match how with Refused | TimedOut O | Interrupted O => True | _ => quiet s = true end.

(** The caller does not give up on an activity that has begun. *)
Definition not_begun (how : execution) : bool := match how with TimedOut (S _) | Interrupted (S _) => false | _ => true end.

Lemma give_up_stable overlap k act s : (k = 0%nat \/ quiet s = true) -> valid_ident (activity_ident act) ->
  stable overlap (home s) (late s) -> stable overlap (home (abandon classic k act s)) (late (abandon classic k act s)).
Proof.
  intros Hk Hv Hs. unfold abandon. destruct (advances classic true k (Queued act) (home s)) as [g st] eqn:E. cbn [home late].
  apply (stable_perm _ _ (going_on st (late s))).
  { destruct st; cbn [going_on]; [symmetry; apply Permutation_app_comm|by rewrite app_nil_r]. }
  eapply stable_advances; [by apply stable_queued| |exact E]. rewrite quiet_switching in Hk. exact Hk.
Qed.

Lemma process_svc_action_stable overlap how act e s s' r e' :
  stable overlap (home s) (late s) -> alone how s -> valid_ident (activity_ident act) ->
  process_svc_action classic how act e s = (s', r, e') -> stable overlap (home s') (late s') /\ (not_begun how = true -> quiet s = true -> quiet s' = true).
Proof.
  intros Hs Ha Hv. assert (quiet (abandon classic 0 act s) = quiet s) as Hq0.
  { unfold abandon, quiet. cbn [advances late]. rewrite forallb_app. cbn. by rewrite andb_true_r. }
  destruct how as [lock|k|k|]; cbn [process_svc_action].
  - pose proof (advances_run lock act (home s)) as Er. destruct (run_activity _ _ _ _ _) as [[g0 r0] e0] eqn:E. intros [= <- <- <-]. split; [|done]. cbn [home late].
    change (late s) with (going_on (Over r0 e0) (late s)). eapply stable_advances; [by apply stable_queued|right; by apply quiet_switching|exact Er].
  - intros [= <- <- <-]. split; [apply give_up_stable; [destruct k; [by left|by right]|done..]|]. destruct k; [by rewrite Hq0|done].
  - intros [= <- <- <-]. split; [apply give_up_stable; [destruct k; [by left|by right]|done..]|]. destruct k; [by rewrite Hq0|done].
  - by intros [= <- <- <-].
Qed.

(** With [overlap] or not: whether a suspend or a resume may begin while another of the same service is in the middle. *)
Definition may_step (overlap : bool) (k : nat) s : Prop :=
  overlap = false -> forall p, late s !! k = Some p -> midway p = false -> progress_ident p ∉ switching (late s).

Lemma delete_insert_list {A} (k : nat) (x : A) (l : list A) : base.delete k (<[k:=x]> l) = base.delete k l.
Proof. revert k. induction l as [|y l IH]; intros [|k]; [done..|]. cbn. f_equal. apply IH. Qed.

Lemma run_late_stable overlap k lock s s' : stable overlap (home s) (late s) -> may_step overlap k s ->
  run_late classic k lock s = Some s' -> stable overlap (home s') (late s').
Proof.
  intros Hs Hc. unfold run_late. destruct (late s !! k) as [p|] eqn:Ek; [|done]. cbn [mbind option_bind].
  pose proof (delete_Permutation _ _ _ Ek) as Ep. destruct (lock && exclusive p && negb (quiet s)) eqn:Eb; [done|].
  destruct (advance classic lock p (home s)) as [g st] eqn:E. intros [= <-]. cbn [home late].
  assert (incl (switching (base.delete k (late s))) (switching (late s))) as Hincl.
  { intros n Hn. apply list_elem_of_In. apply list_elem_of_In in Hn. rewrite (switching_perm _ _ Ep), switching_cons. destruct (midway p); [by right|done]. }
  apply (stable_perm _ _ (going_on st (base.delete k (late s)))).
  { destruct st as [p'|r' e']; cbn [going_on]; [|done]. symmetry.
    rewrite (delete_Permutation (<[k:=p']> (late s)) k p') by (apply list_lookup_insert_eq; by eapply lookup_lt_Some).
    by rewrite delete_insert_list. }
  eapply stable_advance; [eapply stable_perm; [exact Ep|exact Hs]| | |exact E].
  - intros El. rewrite El in Eb. cbn [andb] in Eb. apply negb_false_iff, quiet_switching in Eb. rewrite Eb in Hincl.
    destruct (switching (base.delete k (late s))) as [|n l]; [done|]. by destruct (Hincl n (or_introl eq_refl)).
  - intros Ho Hm Hin. apply (Hc Ho p Ek Hm). apply list_elem_of_In, Hincl. by apply list_elem_of_In.
Qed.

Lemma service_action_stable overlap make how ident e s s' r e' :
  (forall n, activity_ident (make n) = n) -> stable overlap (home s) (late s) -> alone how s ->
  service_action classic make how ident e s = (s', r, e') -> stable overlap (home s') (late s') /\ (not_begun how = true -> quiet s = true -> quiet s' = true).
Proof.
  intros Hmk Hs Ha. unfold service_action. destruct (bad_ident _) eqn:Eb; [by intros [= <- <- <-]|].
  destruct (process_svc_action _ _ _ _ _) as [[s0 r0] e0] eqn:E. intros [= <- <- <-].
  eapply process_svc_action_stable; [done|done| |done]. rewrite Hmk. by apply valid_trim.
Qed.

Lemma each_service_stable overlap make how l fails e s s' r e' :
  (forall n, activity_ident (make n) = n) -> stable overlap (home s) (late s) -> quiet s = true -> (forall n, not_begun (how n) = true) ->
  each_service (service_action classic make) how l fails e s = (s', r, e') -> stable overlap (home s') (late s').
Proof.
  intros Hmk Hs Hq Hh. revert fails e s Hs Hq. induction l as [|sd l IH]; intros fails e s Hs Hq; cbn [each_service].
  - by intros [= <- <- <-].
  - destruct (service_action _ _ _ _ _ _) as [[s0 r0] e0] eqn:E.
    assert (alone (how (ident_ sd)) s) as Ha by (specialize (Hh (ident_ sd)); unfold alone; by destruct (how (ident_ sd)) as [|[]|[]|]).
    destruct (service_action_stable overlap _ _ _ _ _ _ _ _ Hmk Hs Ha E) as [Hs0 Hq0].
    by apply IH; [|apply Hq0].
Qed.

(** An operation on a loaded service that returns 0 ran its activity, and leaves everything in step. *)
Lemma service_action_zero_ok make how ident e s s' e' :
  system_ok s -> service_action classic make how ident e s = (s', 0, e') -> (forall n, activity_ident (make n) = n) -> system_ok s'.
Proof.
  intros [Hm Hl]. unfold service_action. destruct (bad_ident _) eqn:Eb; [done|].
  destruct (process_svc_action _ _ _ _ _) as [[s0 r0] e0] eqn:E. intros [= <- Er _] Hmk. destruct (Z.eqb_spec r0 0) as [->|]; [|done].
  destruct how as [lock|k|k|]; cbn [process_svc_action] in E; [|done..].
  destruct (run_activity _ _ _ _ _) as [[g0 r0] e1] eqn:Er0. injection E as <- -> _. split; [|done]. cbn [home].
  apply (mirrors_all _ (fun _ => True)); [done|]. eapply run_activity_on; [by apply (mirrors_all _ (fun _ => True))| |exact Er0].
  rewrite Hmk. by apply valid_trim.
Qed.
(** ** The operations *)

Context `{Platform}.

Lemma loadStatic_inv fuel how now ident params e s st st' s' r e' :
  loadStatic classic fuel how now ident params e s st = Some (st', Ok (s', r, e')) ->
  (bad_ident (trim ident) = true /\ s' = s /\ r = -1 /\ e' = EINVAL)
  \/ (bad_ident (trim ident) = false /\ exists sd r0, ident_ sd = trim ident
      /\ process_svc_action classic how (LoadStaticActivity sd) e s = (s', r0, e') /\ r = if r0 =? 0 then 0 else -1).
Proof.
  unfold loadStatic. destruct (bad_ident _); [intros [= <- <- <- <-]; by left|]. intros Hrun. right. split; [done|].
  revert Hrun. unfold mbind, PM_bind. destruct (format_property_args _ _ _) as [[st1 [v|ex]]|]; [|done..].
  destruct (process_svc_action _ _ _ _ _) as [[s1 r1] e1] eqn:E. intros [= <- <- <- <-]. eexists _, r1. split; [|by split; [exact E|]]. done.
Qed.

Lemma loadDynamic_inv fuel how now ident lib cls params e s st st' s' r e' :
  loadDynamic classic fuel how now ident lib cls params e s st = Some (st', Ok (s', r, e')) ->
  (s' = s /\ r = -1 /\ e' = EINVAL)
  \/ (bad_ident (trim ident) = false /\ exists sd r0, ident_ sd = trim ident
      /\ process_svc_action classic how (LoadDynamicActivity sd) e s = (s', r0, e') /\ r = if r0 =? 0 then 0 else -1).
Proof.
  unfold loadDynamic. destruct (bad_ident _); [intros [= <- <- <- <-]; by left|]. cbv zeta.
  destruct (bool_decide (trim cls = []) || _); [intros [= <- <- <- <-]; by left|].
  destruct (bool_decide (parse_args lib true true = [])); [intros [= <- <- <- <-]; by left|].
  destruct (bool_decide (clean_lib _ _ = [])); [intros [= <- <- <- <-]; by left|].
  intros Hrun. right. split; [done|].
  revert Hrun. unfold mbind, PM_bind. destruct (format_property_args _ _ _) as [[st1 [v|ex]]|]; [|done..].
  destruct (process_svc_action _ _ _ _ _) as [[s1 r1] e1] eqn:E. intros [= <- <- <- <-]. eexists _, r1. split; [|by split; [exact E|]]. done.
Qed.

(** A call of any operation that returns, or a step of a late activity.  A call whose activity runs among the steps of others is a call that gives up at
    once, followed by the steps of all of them: what the caller returns is not part of the state. *)
Inductive service_step (overlap : bool) : system G -> system G -> Prop :=
| step_load_static fuel how now ident params e s st st' s' r e' : alone how s ->
    loadStatic classic fuel how now ident params e s st = Some (st', Ok (s', r, e')) -> service_step overlap s s'
| step_load_dynamic fuel how now ident lib cls params e s st st' s' r e' : alone how s ->
    loadDynamic classic fuel how now ident lib cls params e s st = Some (st', Ok (s', r, e')) -> service_step overlap s s'
| step_suspend how ident e s s' r e' : alone how s -> suspendService classic how ident e s = (s', r, e') -> service_step overlap s s'
| step_resume how ident e s s' r e' : alone how s -> resumeService classic how ident e s = (s', r, e') -> service_step overlap s s'
| step_remove how ident e s s' r e' : alone how s -> removeService classic how ident e s = (s', r, e') -> service_step overlap s s'
| step_suspend_all how e s s' r e' : quiet s = true -> (forall n, not_begun (how n) = true) ->
    suspendServiceAll classic how e s = (s', r, e') -> service_step overlap s s'
| step_resume_all how e s s' r e' : quiet s = true -> (forall n, not_begun (how n) = true) ->
    resumeServiceAll classic how e s = (s', r, e') -> service_step overlap s s'
| step_remove_all how e s s' r e' : quiet s = true -> (forall n, not_begun (how n) = true) ->
    removeServiceAll classic how e s = (s', r, e') -> service_step overlap s s'
| step_late k lock s s' : may_step overlap k s -> run_late classic k lock s = Some s' -> service_step overlap s s'.

Lemma service_step_stable overlap s s' : stable overlap (home s) (late s) -> service_step overlap s s' -> stable overlap (home s') (late s').
Proof.
  intros Hs Hstep. destruct Hstep as [???????????? Ha Hc|?????????????? Ha Hc|??????? Ha Hc|??????? Ha Hc|??????? Ha Hc| | | | ].
  - destruct (loadStatic_inv _ _ _ _ _ _ _ _ _ _ _ _ Hc) as [(_ & -> & _)|(Hb & sd & r0 & Hi & Hp & _)]; [done|].
    eapply process_svc_action_stable; [done|exact Ha| |exact Hp]. cbn [activity_ident]. rewrite Hi. by apply valid_trim.
  - destruct (loadDynamic_inv _ _ _ _ _ _ _ _ _ _ _ _ _ _ Hc) as [(-> & _)|(Hb & sd & r0 & Hi & Hp & _)]; [done|].
    eapply process_svc_action_stable; [done|exact Ha| |exact Hp]. cbn [activity_ident]. rewrite Hi. by apply valid_trim.
  - by eapply (service_action_stable overlap SuspendActivity).
  - by eapply (service_action_stable overlap ResumeActivity).
  - by eapply (service_action_stable overlap RemoveActivity).
  - by eapply (each_service_stable overlap SuspendActivity).
  - by eapply (each_service_stable overlap ResumeActivity).
  - by eapply (each_service_stable overlap RemoveActivity).
  - by eapply run_late_stable.
Qed.

Lemma service_steps_stable overlap (a : G) s : rtc (service_step overlap) (System (Gestalt a ∅) []) s -> stable overlap (home s) (late s).
Proof.
  intros Hr. assert (stable overlap (Gestalt a ∅ : gestalt G) []) as Hstart.
  { split; [by intros n d|constructor|by intros n ?%elem_of_nil|constructor|constructor]. }
  change (stable overlap (home (System (Gestalt a ∅) [])) (late (System (Gestalt a ∅ : gestalt G) []))) in Hstart.
  revert Hstart. induction Hr as [|s1 s2 s3 Hstep _ IH]; [done|]. intros Hstart. apply IH. by eapply service_step_stable.
Qed.

Lemma service_steps_ok (a : G) s : rtc (service_step false) (System (Gestalt a ∅) []) s -> quiet s = true -> system_ok s.
Proof. intros Hr Hq. apply stable_system_ok; [done|]. by apply (service_steps_stable false a). Qed.

(** What a result of zero says about the activity, and what another says. *)
Lemma process_svc_action_inv how act e s s' r e' :
  process_svc_action classic how act e s = (s', r, e') ->
  (exists lock error_, run_activity classic lock act ENOEXEC (home s) = (home s', r, error_))
  \/ ((not_begun how = true -> home s' = home s) /\ r = -1).
Proof.
  destruct how as [lock|[]|[]|]; cbn [process_svc_action]; [|by intros [= <- <- <-]; right..].
  destruct (run_activity _ _ _ _ _) as [[g0 r0] e0] eqn:E. intros [= <- <- <-]. left. by exists lock, e0.
Qed.

Lemma service_action_inv make how ident e s s' r e' :
  service_action classic make how ident e s = (s', r, e') ->
  ((not_begun how = true -> home s' = home s) /\ r = -1)
  \/ (valid_ident (trim ident) /\ exists lock r0 error_, r = (if r0 =? 0 then 0 else -1)
      /\ run_activity classic lock (make (trim ident)) ENOEXEC (home s) = (home s', r0, error_)).
Proof.
  unfold service_action. destruct (bad_ident _) eqn:Eb; [by intros [= <- <- <-]; left|].
  destruct (process_svc_action _ _ _ _ _) as [[s1 r1] e1] eqn:E. intros [= <- <- <-].
  destruct (process_svc_action_inv _ _ _ _ _ _ _ E) as [(lock & error_ & Hr)|[Hh ->]]; [|by left].
  right. split; [by apply valid_trim|]. by exists lock, r1, error_.
Qed.

Lemma zero_or_minus_one r : (if r =? 0 then 0 else -1) = 0 <-> r = 0.
Proof. destruct (Z.eqb_spec r 0); lia. Qed.

Lemma isspace_cases c : isspace c = true -> c = SPACE \/ iscntrl c = true.
Proof.
  unfold isspace, iscntrl, code. intros Hc.
  destruct (decide (nat_of_ascii c = 32%nat)) as [E|E]; [left|right; lia].
  by rewrite <- (ascii_nat_embedding c), E.
Qed.

Lemma space_invalid : SPACE ∈ INVALID_IDENT_CHARS.
Proof. apply (bool_decide_unpack _). vm_compute. exact I. Qed.

Lemma trim_valid n : valid_ident n -> trim n = n.
Proof.
  intros [Hne Hn]. assert (forall c, c ∈ n -> blank c = false /\ c <> SPACE /\ uncontrol c = c) as Hc.
  { rewrite Forall_forall in Hn. intros c [Hi Hk]%Hn. assert (c <> SPACE) as Hs by (intros ->; apply Hi, space_invalid).
    split; [|split; [done|unfold uncontrol; by rewrite Hk]]. unfold blank. rewrite Hk, orb_false_r.
    destruct (isspace c) eqn:E; [|done]. apply isspace_cases in E as [|]; congruence. }
  assert (forall i, (i < length n)%nat -> char_at n i ∈ n) as Hat.
  { intros i Hi. unfold char_at. destruct (lookup_lt_is_Some_2 n i Hi) as [c Ec]. rewrite Ec.
    by eapply list_elem_of_lookup_2. }
  assert (0 < length n)%nat as Hlen by (destruct n; [done|simpl; lia]).
  unfold trim. rewrite trim_string_trimmed.
  - rewrite <- (list_fmap_id n) at 2. apply list_fmap_ext. intros i c Ei. apply Hc. by eapply list_elem_of_lookup_2.
  - right. split; [apply Hc, Hat; lia|]. split; [apply Hc, Hat; lia|]. intros [E _]. by apply (Hc (char_at n 0)); [apply Hat|].
Qed.

(** The loop over all services, for a property [Q] of a name that the operation establishes
    and keeps when it returns zero. *)
Lemma each_service_zero make (Q : text -> gestalt G -> Prop) :
  (forall n, activity_ident (make n) = n) ->
  (forall how n e s s' e', system_ok s -> service_action classic make how n e s = (s', 0, e') ->
    Q (trim n) (home s') /\ (forall m, Q m (home s) -> Q m (home s')) /\ (dom (descriptors (home s')) ⊆ dom (descriptors (home s)))) ->
  forall how l fails e s s' e', system_ok s -> 0 <= fails ->
    each_service (service_action classic make) how l fails e s = (s', 0, e') ->
    (forall sd, sd ∈ l -> Q (trim (ident_ sd)) (home s'))
    /\ (forall m, Q m (home s) -> Q m (home s'))
    /\ (dom (descriptors (home s')) ⊆ dom (descriptors (home s))).
Proof.
  intros Hmk Hop how l. induction l as [|sd l IH]; intros fails e s s' e' Hs Hf; cbn [each_service].
  - intros [= <- _ _]. split; [by intros sd ?%elem_of_nil|done].
  - destruct (service_action _ _ _ _ _ _) as [[s1 r1] e1] eqn:E. intros Hrest.
    assert (r1 <= 0) as Hr.
    { destruct (service_action_inv _ _ _ _ _ _ _ _ E) as [[_ ->]|(_ & lock & r0 & er & -> & _)]; [done|]. by destruct (r0 =? 0). }
    assert (fails = 0 /\ r1 = 0) as [-> ->].
    { assert (forall l fails e s s' r e', each_service (service_action classic make) how l fails e s = (s', r, e') ->
        fails <= r) as Hmono.
      { clear. intros l. induction l as [|sd l IH]; intros fails e s s' r e'; cbn [each_service]; [by intros [= _ <- _]|].
        destruct (service_action _ _ _ _ _ _) as [[s1 r1] e1]. intros H1%IH. destruct (Z.ltb_spec r1 0); lia. }
      apply Hmono in Hrest. destruct (Z.ltb_spec r1 0); lia. }
    destruct (Hop _ _ _ _ _ _ Hs E) as (Hz & Hk & Hd).
    assert (system_ok s1) as Hs1 by (by eapply service_action_zero_ok).
    destruct (IH _ _ _ _ _ Hs1 ltac:(done) Hrest) as (H1 & H2' & H3). split; [|split].
    + intros x [->|Hx]%elem_of_cons; [by apply H2', Hz|by apply H1].
    + intros m Hm. by apply H2', Hk.
    + by trans (dom (descriptors (home s1))).
Qed.

Lemma list_service_repository_all reverse g n d :
  mirrors g -> descriptors g !! n = Some d -> d ∈ list_service_repository reverse g.
Proof.
  intros Hm Hd. destruct (Hm _ _ Hd) as (_ & _ & t & Ht & _).
  assert (d ∈ omap (fun name => descriptors g !! name) (ace_names (ace g))) as Hin.
  { apply list_elem_of_omap. exists n. split; [|done]. eapply ace_names_find. by rewrite Ht. }
  unfold list_service_repository. destruct reverse; [|done]. rewrite rev_alt. by apply elem_of_reverse.
Qed.
End mirror.

(** ** Properties *)

Section properties.
Context {G : Type} `{AceGestalt G} (classic : bool) `{!AceGestaltLaws G classic} `{Platform}.
Implicit Types (g : gestalt G) (s : system G).

(** The repository has the service in the given state. *)
Definition serves (n : text) (on : bool) g : Prop := exists t, ace_find (ace g) n = Some t /\ active t = on.

(** The service is registered, with its flag in the given state. *)
Definition registered (n : text) (on : bool) g : Prop := exists d, descriptors g !! n = Some d /\ flag_active d = on.

(** C25 (invariant). Whatever operations are called, with activities that run in time, late or not at all, with directives that fail, and however the
    activities that share the lock, suspends and resumes, interleave with each other: every descriptor belongs to a service of
    ACE's repository and has a valid name.  And as long as a suspend or a resume begins only while none of the same service is in the middle,
    the ACTIVE flag of a descriptor is the state of its service whenever no suspend or resume of that service is in the middle. *)
Theorem services_mirror (a : G) s :
  (forall overlap, rtc (service_step classic overlap) (System (Gestalt a ∅) []) s ->
    forall n d, descriptors (home s) !! n = Some d -> ident_ d = n /\ valid_ident n /\ is_Some (ace_find (ace (home s)) n))
  /\ (rtc (service_step classic false) (System (Gestalt a ∅) []) s ->
    forall n d, descriptors (home s) !! n = Some d -> n ∉ switching (late s) ->
      exists t, ace_find (ace (home s)) n = Some t /\ active t = flag_active d).
Proof.
  split.
  - intros overlap Hr n d Hd. destruct (st_mirror _ _ _ (service_steps_stable classic overlap a s Hr) n d Hd) as (Hi & Hv & t & Ht & _).
    split; [done|]. split; [done|]. by exists t.
  - intros Hr n d Hd Hn. destruct (st_mirror _ _ _ (service_steps_stable classic false a s Hr) n d Hd) as (_ & _ & t & Ht & Ha).
    exists t. split; [done|]. by apply Ha.
Qed.

Lemma load_activity_effect s s' n sd directive lock error_ :
  mirrors (home s) -> ident_ sd = n -> valid_ident n -> loads directive n ->
  LoadActivity_run lock directive sd ENOEXEC (home s) = (home s', 0, error_) ->
  registered n true (home s') /\ serves n true (home s').
Proof.
  intros Hm <- Hv Hd Hr.
  destruct (LoadActivity_run_spec _ _ _ _ _ _ _ _ Hm Hv Hd Hr) as (Hm' & Hz & _). specialize (Hz eq_refl).
  assert (descriptors (home s') !! ident_ sd = Some (set_active_flag sd)) as Hin
    by (rewrite Hz; apply lookup_insert_eq).
  destruct (Hm' _ _ Hin) as (_ & _ & t & Ht & Ha). rewrite set_flag_active in Ha.
  split; [exists (set_active_flag sd); by rewrite set_flag_active|by exists t].
Qed.

Lemma loadStatic_effect fuel how now ident params e s st st' s' e' :
  mirrors (home s) -> loadStatic classic fuel how now ident params e s st = Some (st', Ok (s', 0, e')) ->
  registered (trim ident) true (home s') /\ serves (trim ident) true (home s').
Proof.
  intros Hm Hc.
  destruct (loadStatic_inv _ _ _ _ _ _ _ _ _ _ _ _ _ Hc) as [(_ & _ & ? & _)|(Hb & sd & r0 & Hi & Hp & Hz)]; [done|].
  symmetry in Hz. apply zero_or_minus_one in Hz as ->. pose proof (valid_trim _ Hb) as Hv.
  destruct (process_svc_action_inv _ _ _ _ _ _ _ _ Hp) as [(lock & er & Hr)|[_ ?]]; [|done].
  eapply load_activity_effect; [done|exact Hi|done| |exact Hr]. rewrite Hi. intros a a' r0 e0. by apply ace_static.
Qed.

Lemma loadDynamic_effect fuel how now ident lib cls params e s st st' s' e' :
  mirrors (home s) -> loadDynamic classic fuel how now ident lib cls params e s st = Some (st', Ok (s', 0, e')) ->
  registered (trim ident) true (home s') /\ serves (trim ident) true (home s').
Proof.
  intros Hm Hc.
  destruct (loadDynamic_inv _ _ _ _ _ _ _ _ _ _ _ _ _ _ _ Hc) as [(_ & ? & _)|(Hb & sd & r0 & Hi & Hp & Hz)]; [done|].
  symmetry in Hz. apply zero_or_minus_one in Hz as ->. pose proof (valid_trim _ Hb) as Hv.
  destruct (process_svc_action_inv _ _ _ _ _ _ _ _ Hp) as [(lock & er & Hr)|[_ ?]]; [|done].
  eapply load_activity_effect; [done|exact Hi|done| |exact Hr]. rewrite Hi. intros a a' r0 e0. by apply ace_dynamic.
Qed.

(** A suspend, resume or remove that returned 0 ran its activity. *)
Lemma service_action_zero make how ident e s s' e' :
  service_action classic make how ident e s = (s', 0, e') ->
  valid_ident (trim ident) /\ exists lock error_,
    run_activity classic lock (make (trim ident)) ENOEXEC (home s) = (home s', 0, error_).
Proof.
  intros Hc. destruct (service_action_inv _ _ _ _ _ _ _ _ _ Hc) as [[_ ?]|(Hv & lock & r0 & er & Hz & Hr)]; [done|].
  symmetry in Hz. apply zero_or_minus_one in Hz as ->. split; [done|]. by exists lock, er.
Qed.

(** An operation on services that returns 0 has taken effect: after a load the
    service is registered and active, after a suspend it is not active, after a resume it is,
    after a removal it is not registered; and no other descriptor changed. *)
Theorem service_operations_take_effect s s' e e' ident :
  system_ok s ->
  (forall fuel how now params st st',
    loadStatic classic fuel how now ident params e s st = Some (st', Ok (s', 0, e')) ->
    registered (trim ident) true (home s') /\ serves (trim ident) true (home s'))
  /\ (forall fuel how now lib cls params st st',
    loadDynamic classic fuel how now ident lib cls params e s st = Some (st', Ok (s', 0, e')) ->
    registered (trim ident) true (home s') /\ serves (trim ident) true (home s'))
  /\ (forall how, suspendService classic how ident e s = (s', 0, e') -> serves (trim ident) false (home s')
      /\ forall m, m <> trim ident -> descriptors (home s') !! m = descriptors (home s) !! m)
  /\ (forall how, resumeService classic how ident e s = (s', 0, e') -> serves (trim ident) true (home s')
      /\ forall m, m <> trim ident -> descriptors (home s') !! m = descriptors (home s) !! m)
  /\ (forall how, removeService classic how ident e s = (s', 0, e') ->
      descriptors (home s') = delete (trim ident) (descriptors (home s))).
Proof.
  intros [Hm Hl]. split_and!.
  - intros fuel how now params st st'. by apply loadStatic_effect.
  - intros fuel how now lib cls params st st'. by apply loadDynamic_effect.
  - intros how (Hv & lock & er & Hr)%service_action_zero.
    destruct (switch_run_spec _ _ _ _ _ _ _ _ _ Hm Hv Hr) as (_ & Ht & _). by apply Ht.
  - intros how (Hv & lock & er & Hr)%service_action_zero.
    destruct (switch_run_spec _ _ _ _ _ _ _ _ _ Hm Hv Hr) as (_ & Ht & _). by apply Ht.
  - intros how (Hv & lock & er & Hr)%service_action_zero.
    destruct (RemoveActivity_run_spec _ _ _ _ _ _ _ _ Hm Hv Hr) as (_ & Ht & _). by apply Ht.
Qed.

(** What a load that reached its activity does when it fails. *)
Lemma failed_load s s' sd directive lock r error_ :
  mirrors (home s) -> valid_ident (ident_ sd) -> loads directive (ident_ sd) ->
  LoadActivity_run lock directive sd ENOEXEC (home s) = (home s', r, error_) -> r <> 0 ->
  descriptors (home s') = descriptors (home s).
Proof.
  intros Hm Hv Hd Hr. destruct (LoadActivity_run_spec _ _ _ _ _ _ _ _ Hm Hv Hd Hr) as (_ & _ & Hne & _). exact Hne.
Qed.

Lemma failed_loadDynamic fuel how now ident lib cls params e s st st' s' r e' :
  system_ok s -> not_begun how = true -> loadDynamic classic fuel how now ident lib cls params e s st = Some (st', Ok (s', r, e')) -> r <> 0 ->
  r = -1 /\ descriptors (home s') = descriptors (home s).
Proof.
  intros [Hm _] Hnb Hc Hne.
  destruct (loadDynamic_inv _ _ _ _ _ _ _ _ _ _ _ _ _ _ _ Hc) as [(-> & -> & _)|(Hb & sd & r0 & Hi & Hp & Hz)]; [done|].
  pose proof (valid_trim _ Hb) as Hv. rewrite <- Hi in Hv. rewrite Hz in Hne |- *.
  destruct (Z.eqb_spec r0 0); [done|]. split; [done|].
  destruct (process_svc_action_inv _ _ _ _ _ _ _ _ Hp) as [(lock & er & Hr)|[Hh _]]; [|by rewrite (Hh Hnb)].
  eapply failed_load; [done|done| |exact Hr|done]. intros a a' r1 e1. by apply ace_dynamic.
Qed.

Lemma failed_switch (on : bool) how ident e s s' r e' :
  system_ok s -> not_begun how = true ->
  service_action classic (if on then ResumeActivity else SuspendActivity) how ident e s = (s', r, e') -> r <> 0 ->
  r = -1 /\ descriptors (home s') = descriptors (home s)
  /\ forall m, active <$> ace_find (ace (home s')) m = active <$> ace_find (ace (home s)) m.
Proof.
  intros [Hm _] Hnb Hc Hne. destruct (service_action_inv _ _ _ _ _ _ _ _ _ Hc) as [[Hh ->]|(Hv & lock & r0 & er & Hz & Hr)]; [by rewrite (Hh Hnb)|].
  rewrite Hz in Hne |- *. destruct (Z.eqb_spec r0 0) as [|Hr0]; [done|]. split; [done|].
  assert (switch_run classic on lock (trim ident) ENOEXEC (home s) = (home s', r0, er)) as Hsw by (by destruct on).
  destruct (switch_run_spec _ _ _ _ _ _ _ _ _ Hm Hv Hsw) as (_ & _ & Hk & _). by apply Hk.
Qed.

Lemma unknown_service make ident e s :
  bad_ident (trim ident) = false ->
  run_activity classic true (make (trim ident)) ENOEXEC (home s) = (home s, -1, EEXIST) ->
  service_action classic make (InTime true) ident e s = (s, -1, EEXIST).
Proof.
  intros Hb Hr. unfold service_action. rewrite Hb. cbn [process_svc_action]. rewrite Hr. by destruct s.
Qed.

(** Loading a service that is there already. *)
Lemma load_known lock sd directive t g : valid_ident (ident_ sd) -> ace_find (ace g) (ident_ sd) = Some t ->
  LoadActivity_run lock directive sd ENOEXEC g = (g, -1, if lock then EEXIST else ENOLCK).
Proof. intros Hv Hf. unfold LoadActivity_run. destruct lock; [|done]. cbn [negb]. by rewrite find_valid, Hf. Qed.

Lemma load_known_action act (s : system G) s' r e e' :
  (forall g, g = home s -> run_activity classic true act ENOEXEC g = (g, -1, EEXIST)) ->
  process_svc_action classic (InTime true) act e s = (s', r, e') -> s' = s /\ r = -1 /\ e' = EEXIST.
Proof. intros Hr. cbn [process_svc_action]. rewrite Hr by done. intros [= <- <- <-]. by destruct s. Qed.


(** What the loops over all services establish and keep. *)
Lemma switch_all (on : bool) how n e s s' e' :
  system_ok s ->
  service_action classic (if on then ResumeActivity else SuspendActivity) how n e s = (s', 0, e') ->
  let Q m g := forall d, descriptors g !! m = Some d -> flag_active d = on in
  Q (trim n) (home s') /\ (forall m, Q m (home s) -> Q m (home s')) /\ (dom (descriptors (home s')) ⊆ dom (descriptors (home s))).
Proof.
  intros Hs Hc Q. pose proof (proj1 Hs) as Hm.
  assert (system_ok s') as [Hm' _] by (eapply (service_action_zero_ok classic); [exact Hs|exact Hc|by destruct on]).
  apply service_action_zero in Hc as (Hv & lock & er & Hr).
  assert (switch_run classic on lock (trim n) ENOEXEC (home s) = (home s', 0, er)) as Hsw by (by destruct on).
  destruct (switch_run_spec _ _ _ _ _ _ _ _ _ Hm Hv Hsw) as (_ & H0r & _ & Hd). destruct (H0r eq_refl) as [(t & Ht & Ha) Hfr].
  assert (Q (trim n) (home s')) as Hq.
  { intros d Hdd. destruct (Hm' _ _ Hdd) as (_ & _ & t' & Ht' & Ha'). congruence. }
  split; [done|]. split; [|by rewrite Hd]. intros m Hqm. destruct (decide (m = trim n)) as [->|Hne]; [done|]. intros d. rewrite Hfr by done. apply Hqm.
Qed.

Lemma remove_all_step how n e s s' e' :
  system_ok s -> service_action classic RemoveActivity how n e s = (s', 0, e') ->
  let Q m (g : gestalt G) := descriptors g !! m = None in
  Q (trim n) (home s') /\ (forall m, Q m (home s) -> Q m (home s')) /\ (dom (descriptors (home s')) ⊆ dom (descriptors (home s))).
Proof.
  intros Hs Hc Q. pose proof (proj1 Hs) as Hm. apply service_action_zero in Hc as (Hv & lock & er & Hr).
  destruct (RemoveActivity_run_spec _ _ _ _ _ _ _ _ Hm Hv Hr) as (_ & H0r & _). specialize (H0r eq_refl). unfold Q. rewrite H0r.
  split; [apply lookup_delete_eq|]. split; [|rewrite dom_delete; set_solver]. intros m Hq. apply lookup_delete_None. by right.
Qed.

(** The operations on all services reach every registered one: when
    [suspendServiceAll] reports no failure, no registered service is active, when
    [resumeServiceAll] reports none, all are, and when [removeServiceAll] reports none, nothing is
    registered any more. *)
Theorem all_services s s' e e' how :
  system_ok s ->
  (suspendServiceAll classic how e s = (s', 0, e') ->
    forall n d, descriptors (home s') !! n = Some d -> flag_active d = false)
  /\ (resumeServiceAll classic how e s = (s', 0, e') ->
    forall n d, descriptors (home s') !! n = Some d -> flag_active d = true)
  /\ (removeServiceAll classic how e s = (s', 0, e') -> descriptors (home s') = ∅).
Proof.
  intros Hs. assert (forall n d, descriptors (home s) !! n = Some d ->
    d ∈ list_service_repository true (home s) /\ trim (ident_ d) = n) as Hall.
  { intros n d Hd. destruct (proj1 Hs _ _ Hd) as (Hi & Hv & _). split; [|rewrite Hi; by apply trim_valid].
    by apply (list_service_repository_all classic true (home s) n); [exact (proj1 Hs)|]. }
  assert (forall n d, dom (descriptors (home s')) ⊆ dom (descriptors (home s)) ->
    descriptors (home s') !! n = Some d -> exists d0, descriptors (home s) !! n = Some d0) as Hback.
  { intros n d Hd Hn. apply elem_of_dom. apply Hd. apply elem_of_dom. eauto. }
  split_and!.
  - intros Hc n d Hn. destruct (each_service_zero classic SuspendActivity _ ltac:(done)
      (switch_all false) _ _ _ _ _ _ _ Hs ltac:(done) Hc) as (H1 & _ & H3).
    destruct (Hback _ _ H3 Hn) as [d0 Hd0]. destruct (Hall _ _ Hd0) as [Hin <-]. by apply (H1 d0 Hin).
  - intros Hc n d Hn. destruct (each_service_zero classic ResumeActivity _ ltac:(done)
      (switch_all true) _ _ _ _ _ _ _ Hs ltac:(done) Hc) as (H1 & _ & H3).
    destruct (Hback _ _ H3 Hn) as [d0 Hd0]. destruct (Hall _ _ Hd0) as [Hin <-]. by apply (H1 d0 Hin).
  - intros Hc. apply map_empty. intros n. destruct (descriptors (home s') !! n) as [d|] eqn:Hn; [|done].
    destruct (each_service_zero classic RemoveActivity _ ltac:(done)
      remove_all_step _ _ _ _ _ _ _ Hs ltac:(done) Hc) as (H1 & _ & H3).
    destruct (Hback _ _ H3 Hn) as [d0 Hd0]. destruct (Hall _ _ Hd0) as [Hin <-]. specialize (H1 d0 Hin). congruence.
Qed.
End properties.

(** ** A repository that understands the classic directives *)

Definition first_word (s : text) : text := match find_char SPACE s with Some k => take k s | None => s end.

Definition table_process (d : text) (a : gmap text svc_type) : gmap text svc_type * Z * option errno :=
  match find_char SPACE d with
  | None => (a, 1, Some EINVAL)
  | Some k =>
      let n := first_word (drop (S k) d) in
      match a !! n with
      | None =>
          if decide (take k d = str "static" \/ take k d = str "dynamic")
          then (<[n := SvcType true false]> a, 0, None) else (a, 1, Some ENOENT)
      | Some t =>
          if decide (take k d = str "suspend") then (<[n := SvcType false (fini_called t)]> a, 0, None)
          else if decide (take k d = str "resume") then (<[n := SvcType true (fini_called t)]> a, 0, None)
          else if decide (take k d = str "remove") then (delete n a, 0, None)
          else (a, 1, Some EEXIST)
      end
  end.

Definition table_gestalt : AceGestalt (gmap text svc_type) := {|
  ace_find := fun a n => a !! n;
  ace_names := fun a => fst <$> map_to_list a;
  ace_set_active := fun n b a => alter (fun t => SvcType b (fini_called t)) n a;
  ace_process := table_process;
|}.

Lemma no_space_valid n : valid_ident n -> SPACE ∉ n.
Proof. intros [_ Hn] Hin. rewrite Forall_forall in Hn. by apply (proj1 (Hn _ Hin)), space_invalid. Qed.

(** How the directives read. *)
Lemma first_word_cut n rest : SPACE ∉ n -> first_word (n ++ SPACE :: rest) = n.
Proof. intros Hn. unfold first_word. rewrite find_char_cut by done. apply take_app_length. Qed.

Lemma first_word_all n : SPACE ∉ n -> first_word n = n.
Proof. intros Hn. unfold first_word. by rewrite find_char_absent. Qed.

Lemma table_process_verb verb rest a :
  SPACE ∉ verb ->
  table_process (verb ++ SPACE :: rest) a
  = (let n := first_word rest in
     match a !! n with
     | None => if decide (verb = str "static" \/ verb = str "dynamic")
               then (<[n := SvcType true false]> a, 0, None) else (a, 1, Some ENOENT)
     | Some t => if decide (verb = str "suspend") then (<[n := SvcType false (fini_called t)]> a, 0, None)
                 else if decide (verb = str "resume") then (<[n := SvcType true (fini_called t)]> a, 0, None)
                 else if decide (verb = str "remove") then (delete n a, 0, None) else (a, 1, Some EEXIST)
     end).
Proof.
  intros Hv. unfold table_process. rewrite find_char_cut, take_app_length by done.
  replace (drop (S (length verb)) (verb ++ SPACE :: rest)) with rest; [done|].
  change (verb ++ SPACE :: rest) with (verb ++ [SPACE] ++ rest). rewrite app_assoc, drop_app_length'; [done|].
  rewrite length_app. simpl. lia.
Qed.

Lemma verb_text verb n :
  Forall (fun c => code c <> 0) verb -> valid_ident n -> c_str (verb_directive true verb n) = verb ++ SPACE :: n.
Proof.
  intros Hv Hn. unfold verb_directive. rewrite <- !app_assoc, c_str_app by done. cbn [app].
  change (str " " ++ n ++ [NUL]) with ((SPACE :: n) ++ [NUL]). rewrite c_str_app; [cbn; by rewrite app_nil_r|].
  constructor; [done|]. by apply no_nul_valid.
Qed.

Lemma load_text verb n rest :
  Forall (fun c => code c <> 0) verb -> valid_ident n ->
  c_str (verb ++ SPACE :: n ++ SPACE :: rest) = verb ++ SPACE :: n ++ SPACE :: c_str rest.
Proof.
  intros Hv Hn. rewrite c_str_app by done. f_equal.
  change (SPACE :: n ++ SPACE :: rest) with ((SPACE :: n) ++ SPACE :: rest).
  rewrite c_str_app by (constructor; [done|by apply no_nul_valid]). done.
Qed.

Lemma static_text n params :
  valid_ident n -> exists rest, c_str (static_directive true n params) = str "static" ++ SPACE :: n ++ SPACE :: rest.
Proof.
  intros Hn. exists (c_str (DQUOTE :: params ++ [DQUOTE] ++ [NUL])). unfold static_directive. rewrite <- !app_assoc.
  apply (load_text (str "static")); [|done]. repeat constructor; done.
Qed.

Lemma dynamic_text n lib cls params :
  valid_ident n ->
  exists rest, c_str (dynamic_directive true n lib cls params) = str "dynamic" ++ SPACE :: n ++ SPACE :: rest.
Proof.
  intros Hn. eexists. unfold dynamic_directive. rewrite <- !app_assoc.
  apply (load_text (str "dynamic")); [|done]. repeat constructor; done.
Qed.

Lemma not_space_verb verb : forallb (fun c => negb (bool_decide (c = SPACE))) verb = true -> SPACE ∉ verb.
Proof.
  intros Hv Hin. rewrite forallb_forall in Hv. apply list_elem_of_In in Hin. specialize (Hv _ Hin).
  by rewrite bool_decide_true in Hv.
Qed.

(** A literal has no NUL. *)
Ltac plain_text := first [done | by repeat constructor].

Lemma table_laws : @AceGestaltLaws _ table_gestalt true.
Proof.
  assert (forall verb n (a : gmap text svc_type) t, valid_ident n -> a !! n = Some t ->
    forallb (fun c => negb (bool_decide (c = SPACE))) verb = true -> Forall (fun c => code c <> 0) verb ->
    table_process (c_str (verb_directive true verb n)) a
    = if decide (verb = str "suspend") then (<[n := SvcType false (fini_called t)]> a, 0, None)
      else if decide (verb = str "resume") then (<[n := SvcType true (fini_called t)]> a, 0, None)
      else if decide (verb = str "remove") then (delete n a, 0, None) else (a, 1, Some EEXIST)) as Hverb.
  { intros verb n a t Hn Ht Hs Hc. rewrite verb_text, table_process_verb by (done || by apply not_space_verb).
    cbv zeta. by rewrite first_word_all, Ht by (by apply no_space_valid). }
  assert (forall verb n rest (a a' : gmap text svc_type) r e, valid_ident n -> a !! n = None ->
    verb = str "static" \/ verb = str "dynamic" ->
    table_process (verb ++ SPACE :: n ++ SPACE :: rest) a = (a', r, e) ->
    (forall m t, a !! m = Some t -> a' !! m = Some t) /\ (r = 0 -> a' !! n = Some (SvcType true false))) as Hload.
  { intros verb n rest a a' r e Hn Ha Hv.
    rewrite table_process_verb by (apply not_space_verb; by destruct Hv as [->| ->]).
    cbv zeta. rewrite first_word_cut, Ha, decide_True by (done || by apply no_space_valid). intros [= <- <- <-].
    split; [|intros _; apply lookup_insert_eq]. intros m t Ht. rewrite lookup_insert_ne; [done|]. congruence. }
  split; cbn [ace_find ace_names ace_set_active ace_process table_gestalt].
  - intros a n [t Ht]. apply list_elem_of_fmap. exists (n, t). split; [done|]. by apply elem_of_map_to_list.
  - intros a n b m. destruct (decide (m = n)) as [->|Hne]; [by rewrite lookup_alter_eq|by rewrite lookup_alter_ne].
  - intros a n params a' r e Hn Ha. destruct (static_text n params Hn) as [rest ->]. apply Hload; auto.
  - intros a n lib cls params a' r e Hn Ha. destruct (dynamic_text n lib cls params Hn) as [rest ->]. apply Hload; auto.
  - intros a n t a' r e Hn Ha. unfold suspend_directive. rewrite (Hverb _ _ _ t) by plain_text.
    intros [= <- <- <-]. split; [intros m Hne; by rewrite lookup_insert_ne|].
    exists false. by rewrite lookup_insert_eq.
  - intros a n t a' r e Hn Ha. unfold resume_directive. rewrite (Hverb _ _ _ t) by plain_text.
    intros [= <- <- <-]. split; [intros m Hne; by rewrite lookup_insert_ne|].
    exists true. by rewrite lookup_insert_eq.
  - intros a n t a' r e Hn Ha. unfold remove_directive. rewrite (Hverb _ _ _ t) by plain_text.
    intros [= <- <- <-]. split; [intros m Hne; by rewrite lookup_delete_ne|]. intros _. apply lookup_delete_eq.
Qed.

(** ** The theorems at concrete inputs *)

#[local] Existing Instances table_gestalt table_laws words_platform.

Definition no_services : system (gmap text svc_type) := System (Gestalt ∅ ∅) [].

Definition load_logger : option (store * result (system (gmap text svc_type) * Z * errno)) :=
  loadStatic true 10 (InTime true) 0 (str "Logger ") (str "-f log") Enone no_services ∅.

Definition with_logger : system (gmap text svc_type) :=
  match load_logger with Some (_, Ok (s, _, _)) => s | _ => no_services end.

Definition suspend_logger : system (gmap text svc_type) * Z * errno :=
  suspendService true (InTime true) (str "Logger") Enone with_logger.

Definition logger_suspended : system (gmap text svc_type) := fst (fst suspend_logger).

Lemma load_logger_ok : exists st e, load_logger = Some (st, Ok (with_logger, 0, e)).
Proof.
  assert (match load_logger with Some (_, Ok (_, r, _)) => r | _ => 1 end = 0) as E by (vm_compute; reflexivity).
  unfold with_logger. destruct load_logger as [[st [[[s r] e]|ex]]|]; [|done..]. exists st, e. by rewrite E.
Qed.

Lemma suspend_logger_ok : suspendService true (InTime true) (str "Logger") Enone with_logger = (logger_suspended, 0, Enone).
Proof.
  unfold logger_suspended. change (suspendService _ _ _ _ _) with suspend_logger.
  assert (snd (fst suspend_logger) = 0 /\ snd suspend_logger = Enone) as [E1 E2] by (vm_compute; by split).
  destruct suspend_logger as [[s r] e]. simpl in *. by rewrite E1, E2.
Qed.

Lemma with_logger_quiet : quiet with_logger = true /\ quiet no_services = true.
Proof. by vm_compute. Qed.

Lemma logger_steps overlap : rtc (service_step true overlap) no_services logger_suspended.
Proof.
  destruct load_logger_ok as (st & e & El). eapply rtc_l; [eapply step_load_static; [|exact El]; apply with_logger_quiet|].
  eapply rtc_l; [eapply step_suspend; [|exact suspend_logger_ok]; apply with_logger_quiet|]. apply rtc_refl.
Qed.

Lemma with_logger_ok : system_ok with_logger.
Proof.
  destruct load_logger_ok as (st & e & El). apply (service_steps_ok true ∅ with_logger); [|apply with_logger_quiet].
  eapply rtc_l; [eapply step_load_static; [|exact El]; apply with_logger_quiet|]. apply rtc_refl.
Qed.

Definition logger_name : text := str "Logger".

Lemma services_mirror_witness :
  rtc (service_step true false) no_services logger_suspended /\
  (exists d, descriptors (home logger_suspended) !! logger_name = Some d) /\
  forall d, descriptors (home logger_suspended) !! logger_name = Some d ->
    exists t, ace_find (ace (home logger_suspended)) logger_name = Some t /\ active t = flag_active d.
Proof.
  split; [exact (logger_steps false)|]. split; [eexists; vm_compute; reflexivity|]. intros d Hd.
  assert (logger_name ∉ switching (late logger_suspended)) as Hn by (intros Hin; vm_compute in Hin; by apply elem_of_nil in Hin).
  exact (proj2 (services_mirror true ∅ logger_suspended) (logger_steps false) logger_name d Hd Hn).
Defined.

(** A suspend and a resume of one service, both late: the resume begins while the suspend is in front of the flag. *)
Definition overlapped : option (system (gmap text svc_type)) :=
  let s := fst (fst (suspendService true (TimedOut 2) logger_name Enone with_logger)) in
  let s := fst (fst (resumeService true (TimedOut 3) logger_name Enone s)) in
  run_late true 0 true s.

(** Both are over, the service is active and its flag says that it is not. *)
Lemma overlap_out_of_step :
  (s ← overlapped; Some (late s, flag_active <$> descriptors (home s) !! logger_name, active <$> ace_find (ace (home s)) logger_name))
  = Some ([], Some false, Some true).
Proof. by vm_compute. Qed.

(** A suspend whose caller gives up in the middle: the operation has failed, and the service is not active. *)
Lemma timed_out_midway : let '(s, r, e) := suspendService true (TimedOut 2) logger_name Enone with_logger in
  r = -1 /\ e = ETIME /\ active <$> ace_find (ace (home s)) logger_name = Some false /\
  flag_active <$> descriptors (home s) !! logger_name = Some true.
Proof. by vm_compute. Qed.

Lemma service_operations_take_effect_witness :
  suspendService true (InTime true) (str "Logger") Enone with_logger = (logger_suspended, 0, Enone)
  /\ serves (trim (str "Logger")) false (home logger_suspended).
Proof.
  destruct (service_operations_take_effect true with_logger logger_suspended Enone Enone (str "Logger") with_logger_ok)
    as (_ & _ & Hs & _).
  split; [exact suspend_logger_ok|]. exact (proj1 (Hs _ suspend_logger_ok)).
Defined.


Definition all_suspended : system (gmap text svc_type) * Z * errno :=
  suspendServiceAll true (fun _ => InTime true) Enone with_logger.

Lemma all_suspended_ok :
  suspendServiceAll true (fun _ => InTime true) Enone with_logger = (fst (fst all_suspended), 0, snd all_suspended).
Proof.
  change (suspendServiceAll _ _ _ _) with all_suspended.
  assert (snd (fst all_suspended) = 0) as E by (vm_compute; reflexivity).
  destruct all_suspended as [[s r] e]. simpl in *. by rewrite E.
Qed.

Lemma all_services_witness :
  system_ok with_logger
  /\ forall n d, descriptors (home (fst (fst all_suspended))) !! n = Some d -> flag_active d = false.
Proof.
  destruct (all_services true with_logger (fst (fst all_suspended)) Enone (snd all_suspended) (fun _ => InTime true)
    with_logger_ok) as (H1 & _).
  split; [exact with_logger_ok|]. exact (H1 all_suspended_ok).
Defined.

(** A service that ACE has without a descriptor (the load of another brought it in) is removed
    with the result 0. *)
Lemma remove_unregistered_succeeds :
  snd (fst (removeService true (InTime true) (str "Logger") Enone
    (System (Gestalt {[ str "Logger" := SvcType true false ]} ∅) []))) = 0.
Proof. vm_compute. reflexivity. Qed.
