(* ===== verification/ServiceLoader.v ===== *)
(** * Loading services from a configuration: daf/ServiceGestaltLoader

    The loader is a configurator whose entries describe services: it remembers the
    names in the order they were loaded, cuts each entry into library, factory and
    arguments, and asks the gestalt to load the service.  [load_service] is virtual in
    the code: the definitions take it as an argument; the gestalt's is [loadDynamic] of
    [Gestalt]. *)

From S2P Require Import Prelude CString Text Properties Configurator Gestalt.
From Stdlib Require Import Ascii.

Definition LPAREN : ascii := "("%char.
Definition RPAREN : ascii := ")"%char.

(** ** Cutting an entry *)

(** daf/ServiceGestaltLoader.cpp:150-166 [ServiceGestaltLoader::process_directive]. The factory and the arguments. *)
Definition split_class (s_class : text) : text * text :=
  let c_pos := find_int SPACE s_class 0 in
  let '(s_class, s_params) :=
    if 0 <? c_pos then
      let p_pos := find_int RPAREN s_class 0 in
      (take (Z.to_nat c_pos) s_class,
       if 0 <? p_pos then trim (drop (Z.to_nat p_pos + 1) s_class) else trim (drop (Z.to_nat c_pos + 1) s_class))
    else (s_class, []) in
  let c_pos := find_int LPAREN s_class 0 in
  (if 0 <? c_pos then take (Z.to_nat c_pos) s_class else s_class, s_params).

(** daf/ServiceGestaltLoader.cpp:113-178 [ServiceGestaltLoader::process_directive]. Library, factory and arguments of an entry; [None] is the
    result -1. *)
Definition parse_service (args : text) : option (text * text * text) :=
  let lib_pos := find_int COLON args 0 in
  if 0 <? lib_pos then
    let s_libpathname := trim (take (Z.to_nat lib_pos) args) in
    if bool_decide (s_libpathname = []) then None
    else
      let '(s_class, s_params) := split_class (trim (drop (Z.to_nat lib_pos + 1) args)) in
      let s_objectclass := trim s_class in
      if bool_decide (s_objectclass = []) then None else Some (s_libpathname, s_objectclass, s_params)
  else None.

(** ** Loading *)

(** daf/ServiceGestaltLoader.h:115-123 [ServiceGestaltLoader]. The entries and the names still to be processed. *)
Record loader_state := LoaderState { entries_ : gmap text text; ident_list_ : list text }.

(** daf/ServiceGestaltLoader.cpp:197-201 [ServiceGestaltLoader::load_property]. *)
Definition remember_property (key val : text) (l : loader_state) : loader_state :=
  LoaderState (load_entry (entries_ l) (key, val)) (ident_list_ l ++ [key]).

(** [DAF_CATCH_ALL] around the formatting of an entry, which does nothing to the services: the result is -1. *)
Definition catch_all {St} (s : St) (m : PM (St * Z)) : PM (St * Z) := fun st =>
  match m st with
  | Some (st, Throw _) => Some (st, Ok (s, -1))
  | r => r
  end.

(** [DAF_CATCH_ALL] around a load: what it did before it threw stays done. *)
Definition catch_load {St} (s : St) (m : PM (St * result Z)) : PM (St * Z) :=
  catch_all s (r ← m; mret (fst r, match snd r with Ok z => z | Throw _ => -1 end)).

Section loader.
Context {St : Type} `{Platform} (fuel : nat).
(** The virtual function; it may throw after it has done something. *)
Context (load_service : text -> text -> text -> text -> St -> PM (St * result Z)).

(** daf/ServiceGestaltLoader.cpp:108-189 [ServiceGestaltLoader::process_directive]. *)
Definition process_entry (val : text * text) (s : St) : PM (St * Z) :=
  args ← format_property_args fuel (snd val);
  match parse_service args with
  | None => mret (s, -1)
  | Some (lib, cls, params) => catch_load s (load_service (fst val) lib cls params s)
  end.

(** daf/ServiceGestaltLoader.cpp:40-63 [ServiceGestaltLoader::process_directives]. The loop, with the count of failures so far. *)
Fixpoint process_loop (idents : list text) (entries : gmap text text) (s : St) (failed_loads : Z)
  : PM (gmap text text * St * Z) :=
  match idents with
  | [] => mret (entries, s, failed_loads)
  | ident :: idents =>
      match entries !! ident with
      | None => process_loop idents entries s failed_loads
      | Some val =>
          r ← catch_all s (process_entry (ident, val) s);
          process_loop idents (base.delete ident entries) (fst r) (if snd r =? 0 then failed_loads else failed_loads + 1)
      end
  end.

(** daf/ServiceGestaltLoader.cpp:34-66 [ServiceGestaltLoader::process_directives]. *)
Definition process_directives (l : loader_state) (s : St) : PM (loader_state * St * Z) :=
  r ← process_loop (ident_list_ l) (entries_ l) s 0;
  mret (LoaderState (fst (fst r)) [], snd (fst r), snd r).

(** daf/ServiceGestaltLoader.cpp:192-195 [ServiceGestaltLoader::load_service]. *)
Definition gestalt_load {G} `{AceGestalt G} (classic : bool) (how : text -> execution) (now : Z)
    (ident libpathname objectclass params : text) (s : system G) : PM (system G * result Z) :=
  r ← loadDynamic classic fuel (how ident) now ident libpathname objectclass params Enone s;
  mret (fst (fst r), Ok (snd (fst r))).

(** ** What is processed *)

(** The entries named by a list, each once, in the order of their first mention. *)
Definition requests (idents : list text) (entries : gmap text text) : list (text * text) :=
  omap (fun ident => (fun val => (ident, val)) <$> entries !! ident) (nub idents).

(** What becomes of one entry: whether its service was loaded - its formatting succeeded, it could be cut, and the load returned 0. *)
Definition attempt (req : text * text) (s : St) (st : store) : option (store * St * bool) :=
  match format_property_args fuel (snd req) st with
  | Some (st, Ok args) =>
      match parse_service args with
      | Some (lib, cls, params) =>
          match load_service (fst req) lib cls params s st with
          | Some (st, Ok (s, Ok z)) => Some (st, s, bool_decide (z = 0))
          | Some (st, Ok (s, Throw _)) => Some (st, s, false)
          | Some (st, Throw _) => Some (st, s, false)
          | None => None
          end
      | None => Some (st, s, false)
      end
  | Some (st, Throw _) => Some (st, s, false)
  | None => None
  end.

(** The entries one after the other, whatever became of those before. *)
Fixpoint attempts (reqs : list (text * text)) (s : St) (st : store) : option (store * St * list bool) :=
  match reqs with
  | [] => Some (st, s, [])
  | req :: reqs =>
      '(st, s, loaded) ← attempt req s st;
      '(st, s, rest) ← attempts reqs s st;
      Some (st, s, loaded :: rest)
  end.

(** How many were not loaded. *)
Definition failures (loaded : list bool) : Z := Z.of_nat (length (filter (fun b => b = false) loaded)).

Lemma failures_cons b l : failures (b :: l) = (if b : bool then 0 else 1) + failures l.
Proof. unfold failures. rewrite filter_cons. destruct b; [by rewrite decide_False|]. rewrite decide_True by done. cbn [length]. lia. Qed.

Lemma failures_bound l : 0 <= failures l <= Z.of_nat (length l).
Proof. unfold failures. pose proof (length_filter (fun b => b = false) l). lia. Qed.
End loader.

Lemma omap_skip {A} (f g : text -> option A) x (l : list text) :
  f x = None -> (forall y, y <> x -> g y = f y) -> omap g (filter (fun y => y <> x) l) = omap f l.
Proof.
  intros Hx Hg. induction l as [|y l IHl]; [done|]. rewrite filter_cons. destruct (decide (y = x)) as [->|Hy].
  - rewrite decide_False by naive_solver. cbn. by rewrite Hx.
  - rewrite decide_True by done. cbn. by rewrite IHl, Hg.
Qed.

(** The requests after the first name. *)
Lemma requests_cons (x : text) (l : list text) (m : gmap text text) :
  requests (x :: l) m
  = match m !! x with Some v => (x, v) :: requests l (base.delete x m) | None => requests l m end.
Proof.
  unfold requests. cbn [nub omap list_omap]. destruct (m !! x) as [v|] eqn:E; cbn [fmap option_fmap option_map].
  - f_equal. symmetry.
    rewrite <- (omap_skip (fun i => (fun val => (i, val)) <$> base.delete x m !! i)
      (fun i => (fun val => (i, val)) <$> m !! i) x (nub l)).
    + done.
    + by rewrite lookup_delete_eq.
    + intros y Hy. by rewrite lookup_delete_ne.
  - apply omap_skip; [by rewrite E|done].
Qed.

(** The entries that no name in the list picks. *)
Definition unnamed (idents : list text) (m : gmap text text) : gmap text text :=
  filter (fun kv => kv.1 ∉ idents) m.

Lemma unnamed_cons (x : text) (l : list text) m : unnamed (x :: l) m = unnamed l (base.delete x m).
Proof.
  apply map_eq. intros k. unfold unnamed. apply option_eq. intros v.
  rewrite !map_lookup_filter_Some, lookup_delete_Some. cbn [fst]. rewrite not_elem_of_cons. clear. naive_solver.
Qed.

Lemma unnamed_absent (x : text) (l : list text) m : m !! x = None -> unnamed (x :: l) m = unnamed l m.
Proof. intros Hx. by rewrite unnamed_cons, delete_id. Qed.

Section loop.
Context {St : Type} `{Platform} (fuel : nat) (load_service : text -> text -> text -> text -> St -> PM (St * result Z)).

(** Processing an entry gives 0 when its service was loaded, something else when not; it does not throw behind [catch_all]. *)
Lemma process_entry_attempt req s st :
  match attempt fuel load_service req s st with
  | Some (st1, s1, loaded) => exists z, catch_all s (process_entry fuel load_service req s) st = Some (st1, Ok (s1, z)) /\ (z = 0 <-> loaded = true)
  | None => process_entry fuel load_service req s st = None
  end.
Proof.
  unfold attempt, process_entry, catch_load, catch_all, mbind, PM_bind. destruct (format_property_args _ _ _) as [[st1 [args|ex]]|]; [|by exists (-1)|done].
  destruct (parse_service args) as [[[lib cls] params]|]; [|by exists (-1)].
  destruct (load_service _ _ _ _ _ _) as [[st2 [[s2 [z|ex]]|ex]]|]; [|by exists (-1)..|done].
  exists z. split; [done|]. by rewrite bool_decide_eq_true.
Qed.

Lemma process_loop_attempts l m s failed st st' s' loaded : attempts fuel load_service (requests l m) s st = Some (st', s', loaded) ->
  process_loop fuel load_service l m s failed st = Some (st', Ok (unnamed l m, s', failed + failures loaded)).
Proof.
  revert m s failed st loaded. induction l as [|x l IHl]; intros m s failed st loaded.
  - cbn. intros [= <- <- <-]. assert (unnamed [] m = m) as -> by (apply map_filter_id; intros; apply not_elem_of_nil). by rewrite Z.add_0_r.
  - rewrite requests_cons. cbn [process_loop]. destruct (m !! x) as [v|] eqn:E; [|rewrite unnamed_absent by done; apply IHl].
    cbn [attempts]. pose proof (process_entry_attempt (x, v) s st) as Ha. destruct (attempt _ _ _ _ _) as [[[st1 s1] b]|]; [|done].
    cbn [mbind option_bind]. destruct (attempts _ _ _ s1 st1) as [[[st2 s2] rest]|] eqn:Er; [|done]. intros [= <- <- <-].
    destruct Ha as (z & Hz & Hb). unfold mbind, PM_bind. rewrite Hz. cbn [fst snd]. rewrite (IHl _ _ _ _ _ Er), unnamed_cons, failures_cons.
    do 4 f_equal. destruct (Z.eqb_spec z 0) as [Ez|Ez]; [apply Hb in Ez as ->; lia|]. destruct b; [by destruct Ez; apply Hb|lia].
Qed.

Lemma attempts_end reqs : forall s st, (forall req s st, req ∈ reqs -> is_Some (attempt fuel load_service req s st)) ->
  exists st' s' loaded, attempts fuel load_service reqs s st = Some (st', s', loaded) /\ length loaded = length reqs.
Proof.
  induction reqs as [|req reqs IH]; intros s st Hr; [by exists st, s, []|].
  destruct (Hr req s st ltac:(by left)) as [[[st1 s1] b] E]. destruct (IH s1 st1) as (st2 & s2 & rest & E2 & El); [intros req' s' st' Hin; apply Hr; by right|].
  exists st2, s2, (b :: rest). cbn [attempts]. rewrite E. cbn [mbind option_bind]. rewrite E2. split; [done|]. cbn. by rewrite El.
Qed.
End loop.

(** ** An entry as it is written *)

(** [library:factory arguments], the factory with or without parentheses. *)
Definition print_service (paren : bool) (lib cls params : text) : text :=
  lib ++ COLON :: cls ++ (if paren then [LPAREN; RPAREN] else [])
  ++ (if decide (params = []) then [] else SPACE :: params).

(** A name of a factory. *)
Record class_ok (cls : text) : Prop := {
  co_tidy : tidy cls;
  co_space : SPACE ∉ cls;
  co_lparen : LPAREN ∉ cls;
  co_rparen : RPAREN ∉ cls;
}.

Lemma find_int_cut c s1 s2 : c ∉ s1 -> find_int c (s1 ++ c :: s2) 0 = Z.of_nat (length s1).
Proof. intros Hc. unfold find_int, find_from. rewrite drop_0, find_char_cut by done. done. Qed.

Lemma find_int_absent c s : c ∉ s -> find_int c s 0 = -1.
Proof. intros Hc. unfold find_int, find_from. by rewrite drop_0, find_char_absent. Qed.

Lemma tidy_length s : tidy s -> 0 < Z.of_nat (length s).
Proof. intros (Hne & _). destruct s; [done|]. simpl. lia. Qed.

Lemma cut_after c (s1 s2 : text) : drop (Z.to_nat (Z.of_nat (length s1)) + 1) (s1 ++ c :: s2) = s2.
Proof.
  rewrite Nat2Z.id. change (c :: s2) with ([c] ++ s2). rewrite app_assoc. apply drop_app_length'.
  rewrite length_app. simpl. lia.
Qed.

Lemma cut_before (s1 s2 : text) : take (Z.to_nat (Z.of_nat (length s1))) (s1 ++ s2) = s1.
Proof. rewrite Nat2Z.id. apply take_app_length. Qed.

Lemma class_of_parens (paren : bool) cls :
  class_ok cls ->
  (if 0 <? find_int LPAREN (cls ++ (if paren then [LPAREN; RPAREN] else [])) 0
   then take (Z.to_nat (find_int LPAREN (cls ++ (if paren then [LPAREN; RPAREN] else [])) 0))
          (cls ++ (if paren then [LPAREN; RPAREN] else []))
   else cls ++ (if paren then [LPAREN; RPAREN] else [])) = cls.
Proof.
  intros [Ht Hs Hl Hr]. destruct paren.
  - rewrite find_int_cut by done. rewrite (proj2 (Z.ltb_lt _ _)) by (by apply tidy_length). apply cut_before.
  - by rewrite app_nil_r, find_int_absent.
Qed.

Lemma split_class_print (paren : bool) cls params :
  class_ok cls -> (params = [] \/ tidy params) -> (paren = true \/ (RPAREN ∉ params)) ->
  split_class (cls ++ (if paren then [LPAREN; RPAREN] else [])
    ++ (if decide (params = []) then [] else SPACE :: params)) = (cls, params).
Proof.
  intros Hc Ht Hp. pose proof (class_of_parens paren cls Hc) as Hcls.
  destruct Hc as [Hti Hs Hl Hr]. rewrite app_assoc. set (cp := cls ++ if paren then _ else _) in *.
  assert (SPACE ∉ cp) as Hscp.
  { unfold cp. rewrite not_elem_of_app. split; [done|]. destruct paren; [|apply not_elem_of_nil].
    rewrite !not_elem_of_cons. split_and!; [done..|apply not_elem_of_nil]. }
  unfold split_class. destruct (decide (params = [])) as [->|Hne].
  - rewrite app_nil_r, find_int_absent by done. cbn [Z.ltb Z.compare]. by rewrite Hcls.
  - destruct Ht as [|Ht]; [done|]. rewrite find_int_cut by done.
    assert (0 < Z.of_nat (length cp)) as Hlen.
    { unfold cp. rewrite length_app. pose proof (tidy_length cls Hti). lia. }
    rewrite (proj2 (Z.ltb_lt _ _)) by done. rewrite cut_before, cut_after, Hcls. f_equal.
    destruct paren; unfold cp.
    + assert (RPAREN ∉ cls ++ [LPAREN]) as Hrp by (rewrite not_elem_of_app, list_elem_of_singleton; done).
      change [LPAREN; RPAREN] with ([LPAREN] ++ [RPAREN]). rewrite app_assoc, <- (app_assoc _ [RPAREN]). cbn [app].
      rewrite find_int_cut, (proj2 (Z.ltb_lt _ _)), cut_after by (done || rewrite length_app; simpl; lia).
      by apply trim_space.
    + destruct Hp as [|Hp]; [done|]. rewrite find_int_absent; [by apply tidy_trim|].
      rewrite app_nil_r, not_elem_of_app, not_elem_of_cons. done.
Qed.

Lemma class_text_tidy (paren : bool) cls params :
  class_ok cls -> (params = [] \/ tidy params) ->
  tidy (cls ++ (if paren then [LPAREN; RPAREN] else []) ++ (if decide (params = []) then [] else SPACE :: params)).
Proof.
  intros [Hti _ _ _] Hp. assert (tidy [LPAREN; RPAREN]) as Hpar.
  { split; [done|]. split; [done|]. split; [done|]. intros c. rewrite !elem_of_cons, elem_of_nil. by intros [->|[->|[]]]. }
  assert (tidy (cls ++ if paren then [LPAREN; RPAREN] else [])) as Hcp.
  { destruct paren; [|by rewrite app_nil_r]. apply (tidy_app cls [] _); [done..|]. by intros c ?%elem_of_nil. }
  rewrite app_assoc. destruct (decide (params = [])) as [|Hne]; [by rewrite app_nil_r|].
  destruct Hp as [|Hp]; [done|]. apply (tidy_app _ [SPACE] params); [done..|].
  intros c ->%list_elem_of_singleton. done.
Qed.

(** ** Properties *)

(** An entry written as library, colon, factory and arguments is cut into these
    three again: the factory may be followed by parentheses, and without them the arguments must
    not hold a closing one. *)
Theorem parse_service_print (paren : bool) lib cls params :
  tidy lib -> (COLON ∉ lib) -> class_ok cls -> (params = [] \/ tidy params) ->
  (paren = true \/ (RPAREN ∉ params)) ->
  parse_service (print_service paren lib cls params) = Some (lib, cls, params).
Proof.
  intros Hl Hcol Hc Hp Hr. unfold parse_service, print_service.
  rewrite find_int_cut by done. rewrite (proj2 (Z.ltb_lt _ _)) by (by apply tidy_length).
  rewrite cut_before, cut_after, (tidy_trim lib) by done. rewrite bool_decide_false by apply Hl.
  rewrite tidy_trim by (by apply class_text_tidy). rewrite split_class_print by done.
  rewrite tidy_trim by apply Hc. rewrite bool_decide_false by apply Hc. done.
Qed.

(** C34 (termination). Processing the directives ends when the formatting of each entry and each load do, whatever they do: each entry that was
    named is tried once, in the order of the first mention of its name, on the services as those before left them; the result is the number of entries
    that were not loaded - those whose formatting threw, that could not be cut into library and factory, whose load threw or returned something
    else than 0 - none of which stops the rest; the entries processed are removed, and no name is left. *)
Theorem process_directives_requests {St} `{Platform} fuel
    (load_service : text -> text -> text -> text -> St -> PM (St * result Z)) l s st :
  let reqs := requests (ident_list_ l) (entries_ l) in
  (forall req s st, req ∈ reqs -> is_Some (attempt fuel load_service req s st)) ->
  exists st' s' loaded, attempts fuel load_service reqs s st = Some (st', s', loaded) /\ length loaded = length reqs
  /\ process_directives fuel load_service l s st
    = Some (st', Ok (LoaderState (unnamed (ident_list_ l) (entries_ l)) [], s', Z.of_nat (length (filter (fun b => b = false) loaded)))).
Proof.
  intros reqs Hr. destruct (attempts_end fuel load_service reqs s st Hr) as (st' & s' & loaded & E & El).
  exists st', s', loaded. split; [done|]. split; [done|]. unfold process_directives, mbind, PM_bind.
  by rewrite (process_loop_attempts _ _ _ _ _ _ _ _ _ _ E).
Qed.

(** From the entry to the service: when processing an entry with the gestalt as the
    loader returns 0, a service of the entry's name is registered and active; when it does not, and no activity that has begun was given up, the
    descriptors are as they were. *)
Theorem process_entry_loads {G} `{AceGestalt G} (classic : bool) `{!AceGestaltLaws G classic} `{Platform}
    fuel how now val s s' r st st' :
  system_ok s -> not_begun (how (fst val)) = true ->
  process_entry fuel (gestalt_load fuel classic how now) val s st = Some (st', Ok (s', r)) ->
  (r = 0 -> registered (trim (fst val)) true (home s') /\ serves (trim (fst val)) true (home s'))
  /\ (r <> 0 -> descriptors (home s') = descriptors (home s)).
Proof.
  intros Hs Hnb. unfold process_entry, mbind at 1, PM_bind at 1.
  destruct (format_property_args _ _ _) as [[st1 [args|ex]]|]; [|done..].
  destruct (parse_service args) as [[[lib cls] params]|]; [|by intros [= <- <- <-]].
  unfold catch_load, catch_all, gestalt_load, mbind, PM_bind.
  destruct (loadDynamic _ _ _ _ _ _ _ _ _ _ _) as [[st2 [[[s2 r2] e2]|ex]]|] eqn:E; [| |done]; intros [= <- <- <-]; [|done].
  cbn [fst snd]. split; intros Hr.
  - subst r2. by apply (loadDynamic_effect classic _ _ _ _ _ _ _ _ _ _ _ _ _ (proj1 Hs) E).
  - by apply (failed_loadDynamic classic _ _ _ _ _ _ _ _ _ _ _ _ _ _ Hs Hnb E).
Qed.

(** Without parentheses after the factory, arguments up to a closing parenthesis are lost. *)
Lemma arguments_lost :
  parse_service (str "lib:_make_Svc -m (a b) -x")
  = Some (str "lib", str "_make_Svc", str "-x").
Proof. vm_compute. reflexivity. Qed.

(** ** The theorems at concrete inputs *)

Lemma parse_service_print_witness :
  let lib := str "liblog" in let cls := str "_make_Logger" in let params := str "-m (a b) -x" in
  tidy lib /\ class_ok cls /\ tidy params
  /\ parse_service (print_service true lib cls params) = Some (lib, cls, params).
Proof.
  intros lib cls params.
  assert (tidy lib) as Hl by (apply trim_tidy; [done|vm_compute; reflexivity]).
  assert (tidy params) as Hp by (apply trim_tidy; [done|vm_compute; reflexivity]).
  assert (class_ok cls) as Hc.
  { split; [apply trim_tidy; [done|vm_compute; reflexivity]|..]; apply (bool_decide_unpack _); vm_compute; exact I. }
  split; [exact Hl|]. split; [exact Hc|]. split; [exact Hp|].
  apply (parse_service_print true lib cls params Hl); [|exact Hc|right; exact Hp|left; reflexivity].
  apply (bool_decide_unpack _). vm_compute. exact I.
Defined.

#[local] Existing Instance words_platform.

(** A gestalt that only writes down what it is asked for. *)
Definition ask (ident lib cls params : text) (s : list (list text)) : PM (list (list text) * result Z) :=
  mret (s ++ [[ident; lib; cls; params]], Ok 0).

Definition logger_entries : loader_state :=
  LoaderState {[ str "Logger" := str "liblog:_make_Logger() -f log" ]} [str "Logger"; str "Logger"].

Lemma process_directives_requests_witness :
  let l := logger_entries in
  exists st' s' loaded, attempts 60 ask (requests (ident_list_ l) (entries_ l)) [] ∅ = Some (st', s', loaded) /\ length loaded = 1%nat
  /\ process_directives 60 ask l [] ∅
    = Some (st', Ok (LoaderState (unnamed (ident_list_ l) (entries_ l)) [], s', Z.of_nat (length (filter (fun b => b = false) loaded)))).
Proof.
  intros l. assert (requests (ident_list_ l) (entries_ l) = [(str "Logger", str "liblog:_make_Logger() -f log")]) as E
    by (vm_compute; reflexivity).
  destruct (process_directives_requests 60 ask l [] ∅) as (st' & s' & loaded & E1 & E2 & E3).
  - intros req s st Hreq. rewrite E in Hreq. apply list_elem_of_singleton in Hreq as ->. vm_compute. eexists. reflexivity.
  - exists st', s', loaded. split; [exact E1|]. split; [rewrite E2, E; reflexivity|exact E3].
Defined.

(** A load that throws when half is done: it is counted, what it did stays, and the next one is tried. *)
Definition half (ident lib cls params : text) (s : list text) : PM (list text * result Z) :=
  mret (s ++ [ident], if bool_decide (s = []) then Throw InternalException else Ok 0).

Lemma throwing_load_counted :
  (let l := LoaderState {[ str "A" := str "l:f"; str "B" := str "l:f" ]} [str "A"; str "B"] in
   match process_directives 60 half l [] ∅ with Some (_, Ok (_, s, n)) => Some (s, n) | _ => None end) = Some ([str "A"; str "B"], 1).
Proof. vm_compute. reflexivity. Qed.

Lemma logger_asked :
  exists st' l', process_directives 60 ask logger_entries [] ∅
    = Some (st', Ok (l', [[str "Logger"; str "liblog"; str "_make_Logger"; str "-f log"]], 0)).
Proof. vm_compute. eexists _, _. reflexivity. Qed.

#[local] Existing Instances table_gestalt table_laws.

Definition load_logger_entry : option (store * result (system (gmap text svc_type) * Z)) :=
  process_entry 60 (gestalt_load 60 true (fun _ => InTime true) 0)
    (str "Logger", str "liblog:_make_Logger() -f log") no_services ∅.

Definition logger_loaded : system (gmap text svc_type) :=
  match load_logger_entry with Some (_, Ok (s, _)) => s | _ => no_services end.

Lemma process_entry_loads_witness :
  exists st, process_entry 60 (gestalt_load 60 true (fun _ => InTime true) 0)
    (str "Logger", str "liblog:_make_Logger() -f log") no_services ∅ = Some (st, Ok (logger_loaded, 0))
  /\ registered (trim (str "Logger")) true (home logger_loaded).
Proof.
  assert (exists st, load_logger_entry = Some (st, Ok (logger_loaded, 0))) as [st E].
  { assert (match load_logger_entry with Some (_, Ok (_, r)) => r | _ => 1 end = 0) as E by (vm_compute; reflexivity).
    unfold logger_loaded. destruct load_logger_entry as [[st [[s r]|ex]]|]; [|done..]. exists st. by rewrite E. }
  assert (system_ok no_services) as Hok by (split; [by intros n d|constructor]).
  exists st. split; [exact E|].
  exact (proj1 (proj1 (process_entry_loads true 60 (fun _ => InTime true) 0 _ _ _ _ _ _ Hok eq_refl E) eq_refl)).
Defined.
