(* ===== verification/HandOff.v ===== *)
(** * Hand-off between threads: daf/SynchronousChannel_T

    Each put waits for a take and each take for a put.  The thread that comes first
    leaves a node in a queue and waits at the node's own monitor; the one that comes
    second takes the node out of the queue and fills or empties it.  [put] and [take]
    are symmetric in the code and share their program counters here, with the
    operation [op] as an argument.

    [gave] and [taken] record which thread put which item into a node, and which thread
    took it out; no step reads them.  What a step does under the lock of a node (a test
    of the node's state and the change that follows) is one step. *)

From S2P Require Import Prelude Threads Monitor.

Section handoff.
Context {T : Type} (dflt : T).   (* T() *)

(** ** State *)

(** daf/SynchronousChannel_T.h:99-101 [SynchronousChannel]. *)
Inductive node_state := CANCELLED | EMPTY | FULL.

#[local] Instance node_state_eq_dec : EqDecision node_state.
Proof. solve_decision. Defined.

(** daf/SynchronousChannel_T.h:103-128 [SynchronousChannel::SYNCHNode]. *)
Record node := mkNode { node_mon : monitor; item_ : T; state_ : node_state }.

(** daf/SynchronousChannel_T.cpp:210-222 [SynchronousChannel::SYNCHNode::SYNCHNode]. Without and with an item. *)
Definition empty_node : node := mkNode mon_init dflt EMPTY.
(** daf/SynchronousChannel_T.cpp:217-222 [SynchronousChannel::SYNCHNode::SYNCHNode]. *)
Definition full_node (t : T) : node := mkNode mon_init t FULL.

(** An item in a node: who put it, and whether into a node of its own. *)
Record gift := mkGift { g_node : nat; g_item : T; g_by : nat; g_own : bool }.
Record catch := mkCatch { k_node : nat; k_item : T; k_by : nat }.

(** daf/SynchronousChannel_T.h:130-137 [SynchronousChannel]. A reference to a node is its number in [nodes]. *)
Record channel := mkChannel {
  chan_mon : monitor;
  waitingProducers : list nat;
  waitingConsumers : list nat;
  nodes : list node;
  gave : list gift;
  taken : list catch;
}.

(** daf/SynchronousChannel_T.cpp:30-34 [SynchronousChannel::SynchronousChannel]. *)
Definition channel_init : channel := mkChannel mon_init [] [] [] [] [].

Definition with_chan_mon (m : monitor) (s : channel) : channel :=
  mkChannel m (waitingProducers s) (waitingConsumers s) (nodes s) (gave s) (taken s).
Definition with_node (f : node -> node) (n : nat) (s : channel) : channel :=
  mkChannel (chan_mon s) (waitingProducers s) (waitingConsumers s) (alter f n (nodes s)) (gave s) (taken s).
Definition with_node_mon (m : monitor) : nat -> channel -> channel :=
  with_node (fun nd => mkNode m (item_ nd) (state_ nd)).

(** ** The node's operations, called with its lock held *)

(** daf/SynchronousChannel_T.cpp:231-241 [SynchronousChannel::SYNCHNode::state]. The signal is the effect of the step. *)
Definition set_state (state : node_state) (nd : node) : node :=
  let state := if interrupted_ (node_mon nd) then CANCELLED else state in
  mkNode (node_mon nd) (match state with FULL => item_ nd | _ => dflt end) state.

(** daf/SynchronousChannel_T.cpp:244-250 [SynchronousChannel::SYNCHNode::put_item]. For an EMPTY node. *)
Definition put_item (t : T) (nd : node) : node := set_state FULL (mkNode (node_mon nd) t (state_ nd)).

(** daf/SynchronousChannel_T.cpp:253-259 [SynchronousChannel::SYNCHNode::get_item]. For a FULL node. *)
Definition get_item : node -> node := set_state EMPTY.

(** ** Program counters *)

Inductive op := Put (v : T) | Take.
Inductive ret := RInt (z : Z) | RItem (v : T) | RThrow (e : daf_exn).

Inductive spc :=
| SIdle
| STop (o : op) (timed : bool)                 (* if (this->interrupted()) throw *)
| SLock (o : op) (timed : bool)                (* the channel's guard *)
| SDeque (o : op) (timed : bool)               (* the loop of deque; enque of a new node *)
| SUnlock (o : op) (timed : bool) (n : nat) (own : bool)
| SNode (o : op) (timed : bool) (n : nat) (own : bool)  (* the node's guard *)
| SCheck (o : op) (timed : bool) (n : nat)     (* a partner's node: else if (this->interrupted()) *)
| SMatch (o : op) (timed : bool) (n : nat)     (* put_item or get_item *)
| SLoop (o : op) (timed : bool) (n : nat)      (* an own node: while (!isCANCELLED()) *)
| SIntr (o : op) (timed : bool) (n : nat)      (* if (this->interrupted()) throw *)
| STest (o : op) (timed : bool) (n : nat)      (* isFULL, or get_item *)
| SWait (o : op) (timed : bool) (n : nat) (w : wait_pc)
| STimed (o : op) (timed : bool) (n : nat)     (* the wait returned -1 *)
| SEmpty (v : T) (timed : bool) (n : nat)      (* if (node->isEMPTY()) return 0 *)
| SCatch (o : op) (n : nat) (own : bool) (e : daf_exn)      (* catch (...): node->state(CANCELLED); throw *)
| SExit (o : op) (n : nat) (r : ret)           (* the node's guard is left *)
| SRetry (o : op) (timed : bool) (n : nat)     (* the node's guard is left, the loop goes on *)
| SDone (o : op) (n : option nat) (r : ret)
| SInt (i : intr_pc).

Inductive schoice := SCall (o : op) (timed : bool) | SCallInterrupt | SGo (w : wait_choice).

(** ** Steps *)

(** The queue where an operation looks for a partner. *)
Definition partners (o : op) (s : channel) : list nat :=
  match o with Put _ => waitingConsumers s | Take => waitingProducers s end.
Definition set_partners (o : op) (l : list nat) (s : channel) : channel :=
  match o with
  | Put _ => mkChannel (chan_mon s) (waitingProducers s) l (nodes s) (gave s) (taken s)
  | Take => mkChannel (chan_mon s) l (waitingConsumers s) (nodes s) (gave s) (taken s)
  end.

(** daf/SynchronousChannel_T.cpp:276-280 [SynchronousChannel::WaiterQueue::enque]. With the new node of lines 63 and 137. *)
Definition enque (o : op) (t : nat) (s : channel) : channel :=
  let n := length (nodes s) in
  match o with
  | Put v => mkChannel (chan_mon s) (waitingProducers s ++ [n]) (waitingConsumers s) (nodes s ++ [full_node v])
               (gave s ++ [mkGift n v t true]) (taken s)
  | Take => mkChannel (chan_mon s) (waitingProducers s) (waitingConsumers s ++ [n]) (nodes s ++ [empty_node])
              (gave s) (taken s)
  end.

Definition state_of (n : nat) (s : channel) : option node_state := state_ <$> nodes s !! n.
Definition mon_of (n : nat) (s : channel) : monitor := default mon_init (node_mon <$> nodes s !! n).

(** An item goes into a node, or out of it. *)
Definition do_put (v : T) (n t : nat) (s : channel) : channel :=
  let s := with_node (put_item v) n s in
  mkChannel (chan_mon s) (waitingProducers s) (waitingConsumers s) (nodes s) (gave s ++ [mkGift n v t false]) (taken s).
Definition do_get (v : T) (n t : nat) (s : channel) : channel :=
  let s := with_node get_item n s in
  mkChannel (chan_mon s) (waitingProducers s) (waitingConsumers s) (nodes s) (gave s) (taken s ++ [mkCatch n v t]).

(** daf/SynchronousChannel_T.cpp:264-274 [SynchronousChannel::WaiterQueue::deque]. One round of the loop, and the enque of a new node when the queue
    is empty. *)
Definition deque_next (o : op) (tm : bool) (t : nat) (s : channel) : option (channel * spc * option nat) :=
  match partners o s with
  | [] => Some (enque o t s, SUnlock o tm (length (nodes s)) true, None)
  | n :: l =>
      let s := set_partners o l s in
      Some (s, if decide (state_of n s = Some CANCELLED) then SDeque o tm else SUnlock o tm n false, None)
  end.

(** daf/SynchronousChannel_T.cpp:100-104 [SynchronousChannel::put]. A partner's node; lines 178-182 for [take]. *)
Definition match_next (o : op) (tm : bool) (n t : nat) (s : channel) : option (channel * spc * option nat) :=
  nd ← nodes s !! n;
  match o with
  | Put v =>
      if decide (state_ nd = EMPTY) then Some (do_put v n t s, SExit o n (RInt 0), Some n)
      else Some (s, SRetry o tm n, None)
  | Take =>
      if decide (state_ nd = FULL) then Some (do_get (item_ nd) n t s, SExit o n (RItem (item_ nd)), Some n)
      else Some (s, SRetry o tm n, None)
  end.

(** daf/SynchronousChannel_T.cpp:78-80 [SynchronousChannel::put]. The own node is tested before the wait; lines 154-158 for [take]. *)
Definition test_next (o : op) (tm : bool) (n t : nat) (s : channel) : option (channel * spc * option nat) :=
  nd ← nodes s !! n;
  match o with
  | Put v => Some (s, if decide (state_ nd = FULL) then SWait o tm n WTest else SEmpty v tm n, None)
  | Take =>
      if decide (state_ nd = FULL) then Some (do_get (item_ nd) n t s, SExit o n (RItem (item_ nd)), Some n)
      else Some (s, if decide (state_ nd = CANCELLED) then SRetry o tm n else SWait o tm n WTest, None)
  end.

(** daf/SynchronousChannel_T.cpp:79-91 [SynchronousChannel::put]. The wait ended with -1; lines 158-167 for [take]. An exception goes to the
    catch clause, which cancels the node under the same lock. *)
Definition timed_next (o : op) (tm : bool) (n t : nat) (s : channel) : option (channel * spc * option nat) :=
  nd ← nodes s !! n;
  match o with
  | Put v =>
      if decide (state_ nd = FULL) then
        Some (with_node (set_state CANCELLED) n s,
              SExit o n (if interrupted_ (chan_mon s) then RThrow InterruptedException else RInt (-1)), Some n)
      else Some (s, SEmpty v tm n, None)
  | Take =>
      if decide (state_ nd = FULL) then Some (do_get (item_ nd) n t s, SExit o n (RItem (item_ nd)), Some n)
      else Some (with_node (set_state CANCELLED) n s,
                 SExit o n (RThrow (if interrupted_ (chan_mon s) then InterruptedException else TimeoutException)), Some n)
  end.

(** Where a thread goes after the wait: the rest of the loop of [put], the loop of [take]. *)
Definition waited (o : op) (tm : bool) (n : nat) (r : wake) : spc :=
  match r, o with
  | WTime, _ => STimed o tm n
  | WOk, Put v => SEmpty v tm n
  | WOk, Take => SLoop o tm n
  end.

(** daf/SynchronousChannel_T.cpp:44-192 [SynchronousChannel::put]. And [take]: one step of a thread; the last component is the node whose
    condition is signalled. *)
Definition hand_local (ch : schoice) (t : nat) (s : channel) (p : spc) : option (channel * spc * option nat) :=
  match ch, p with
  | SCall o tm, SIdle => Some (s, STop o tm, None)
  | SCallInterrupt, SIdle => Some (s, SInt IStart, None)
  | SGo _, STop o tm =>
      Some (s, if interrupted_ (chan_mon s) then SDone o None (RThrow InterruptedException) else SLock o tm, None)
  | SGo _, SLock o tm => m ← lock t (chan_mon s); Some (with_chan_mon m s, SDeque o tm, None)
  | SGo _, SDeque o tm => deque_next o tm t s
  | SGo _, SUnlock o tm n own => Some (with_chan_mon (unlock (chan_mon s)) s, SNode o tm n own, None)
  | SGo _, SNode o tm n own =>
      m ← lock t (mon_of n s); Some (with_node_mon m n s, if own then SLoop o tm n else SCheck o tm n, None)
  | SGo _, SCheck o tm n =>
      Some (s, if interrupted_ (chan_mon s) then SCatch o n false InterruptedException else SMatch o tm n, None)
  | SGo _, SMatch o tm n => match_next o tm n t s
  | SGo _, SLoop o tm n => Some (s, if decide (state_of n s = Some CANCELLED) then SRetry o tm n else SIntr o tm n, None)
  | SGo _, SIntr o tm n =>
      Some (s, if interrupted_ (chan_mon s) then SCatch o n true InterruptedException else STest o tm n, None)
  | SGo _, STest o tm n => test_next o tm n t s
  | SGo w, SWait o tm n w' =>
      '(m, out) ← wait_next w t tm w' (mon_of n s);
      Some (with_node_mon m n s, match out with
                                 | WGo w' => SWait o tm n w'
                                 | WReturn r => waited o tm n r
                                 | WInterrupted => SCatch o n true InterruptedException
                                 end, None)
  | SGo _, STimed o tm n => timed_next o tm n t s
  | SGo _, SEmpty v tm n =>
      Some (s, if decide (state_of n s = Some EMPTY) then SExit (Put v) n (RInt 0) else SLoop (Put v) tm n, None)
  | SGo _, SCatch o n _ e => Some (with_node (set_state CANCELLED) n s, SExit o n (RThrow e), Some n)
  | SGo _, SExit o n r => Some (with_node_mon (unlock (mon_of n s)) n s, SDone o (Some n) r, None)
  | SGo _, SRetry o tm n => Some (with_node_mon (unlock (mon_of n s)) n s, STop o tm, None)
  | SGo _, SDone _ _ _ => Some (s, SIdle, None)
  | SGo _, SInt i =>
      '(m, out, _) ← intr_next t i (chan_mon s);
      Some (with_chan_mon m s, match out with IGo i => SInt i | IReturn _ => SIdle end, None)
  | _, _ => None
  end.

(** Blocked at a node's condition, and woken from it. *)
Definition waits_at (n : nat) (p : spc) : bool :=
  match p with SWait _ _ m Waiting => bool_decide (m = n) | _ => false end.
Definition wake_up (p : spc) : spc :=
  match p with SWait o tm n Waiting => SWait o tm n (Woken WOk) | _ => p end.

(** A signal wakes one of the threads that wait at the node, if there is one. *)
Definition apply_signal (e : option nat) (k : option nat) (ts : list spc) : option (list spc) :=
  match e, k with
  | None, _ => Some ts
  | Some n, Some k => p ← ts !! k; if waits_at n p then Some (<[k := wake_up p]> ts) else None
  | Some n, None => if forallb (fun p => negb (waits_at n p)) ts then Some ts else None
  end.

Definition hand_next (ch : schoice * option nat) (t : nat) (c : conf channel spc) : option (conf channel spc) :=
  p ← threads c !! t;
  '(s, p, e) ← hand_local (fst ch) t (shared c) p;
  ts ← apply_signal e (snd ch) (<[t := p]> (threads c));
  Some (mkConf s ts).

Definition hand_start (n : nat) : conf channel spc := mkConf channel_init (replicate n SIdle).
(** ** What a thread may rely on *)

Definition put_pending (n : nat) (p : spc) : bool :=
  match p with
  | SUnlock (Put _) _ m false | SNode (Put _) _ m false | SCheck (Put _) _ m | SMatch (Put _) _ m => bool_decide (m = n)
  | _ => false
  end.

(** The item and the own node of a thread in [put]. *)
Definition own_put (p : spc) : option (T * nat) :=
  match p with
  | SUnlock (Put v) _ n true | SNode (Put v) _ n true | SLoop (Put v) _ n | SIntr (Put v) _ n | STest (Put v) _ n
  | SWait (Put v) _ n _ | STimed (Put v) _ n | SEmpty v _ n | SCatch (Put v) n true _ => Some (v, n)
  | _ => None
  end.

(** The result of a [put] and the node it was about. *)
Definition put_result (p : spc) : option (T * nat * Z) :=
  match p with
  | SExit (Put v) n (RInt z) | SDone (Put v) (Some n) (RInt z) => Some (v, n, z)
  | _ => None
  end.

(** The item that a [take] returns and the node it comes from. *)
Definition take_result (p : spc) : option (nat * T) :=
  match p with
  | SExit _ n (RItem v) | SDone _ (Some n) (RItem v) => Some (n, v)
  | _ => None
  end.

Definition catching_up (p : spc) : bool := match p with SCatch _ _ _ _ => true | _ => false end.

Definition gave_in (n : nat) (s : channel) : Prop := n ∈ g_node <$> gave s.
Definition taken_from (n : nat) (s : channel) : Prop := n ∈ k_node <$> taken s.

Record told (s : channel) (t : nat) (p : spc) : Prop := {
  told_own : forall v n, own_put p = Some (v, n) -> mkGift n v t true ∈ gave s;
  told_put : forall v n, put_result p = Some (v, n, 0) ->
    exists own, mkGift n v t own ∈ gave s /\ (own = true -> taken_from n s);
  told_failed : forall v n, put_result p = Some (v, n, -1) ->
    mkGift n v t true ∈ gave s /\ state_of n s = Some CANCELLED /\ ~ taken_from n s;
  told_take : forall n v, take_result p = Some (n, v) -> mkCatch n v t ∈ taken s;
}.

(** The nodes, the gifts and the catches of a reachable state. *)
Record good (s : channel) : Prop := {
  good_free : forall n nd, nodes s !! n = Some nd -> interrupted_ (node_mon nd) = false;
  good_full : forall n nd, nodes s !! n = Some nd -> state_ nd = FULL ->
    (exists g, g ∈ gave s /\ g_node g = n /\ g_item g = item_ nd) /\ ~ taken_from n s;
  good_empty : forall n, state_of n s = Some EMPTY -> gave_in n s -> taken_from n s;
  good_taken : forall k, k ∈ taken s -> exists g, g ∈ gave s /\ g_node g = k_node k /\ g_item g = k_item k;
  good_gave_once : NoDup (g_node <$> gave s);
  good_taken_once : NoDup (k_node <$> taken s);
  good_bound : forall n, gave_in n s -> (n < length (nodes s))%nat;
}.

(** What happens to the past in a step. *)
Record later (s s' : channel) : Prop := {
  later_gave : forall g, g ∈ gave s -> g ∈ gave s';
  later_taken : forall k, k ∈ taken s -> k ∈ taken s';
  later_cancelled : forall n, state_of n s = Some CANCELLED ->
    state_of n s' = Some CANCELLED /\ (taken_from n s' -> taken_from n s);
}.

Lemma told_later s s' t p : later s s' -> told s t p -> told s' t p.
Proof.
  intros [Hg Hk Hc] [H1 H2 H3 H4].
  assert (forall n, taken_from n s -> taken_from n s') as Ht.
  { intros n (k & -> & Hin)%list_elem_of_fmap. apply list_elem_of_fmap. eauto. }
  split.
  - eauto.
  - intros v n Hp. destruct (H2 v n Hp) as (own & ? & ?). eauto 10.
  - intros v n Hp. destruct (H3 v n Hp) as (? & Hs & Hn). destruct (Hc n Hs) as [? ?].
    split; [by apply Hg|]. split; [done|]. intros ?. apply Hn. auto.
  - eauto.
Qed.

(** *** The changes a step can make *)

Lemma state_of_with_node f n m s :
  state_of m (with_node f n s) = (if decide (m = n) then (fun nd => state_ (f nd)) <$> nodes s !! m else state_of m s).
Proof.
  unfold state_of, with_node. cbn [nodes]. destruct (decide (m = n)) as [->|Hne].
  - rewrite list_lookup_alter_eq. by destruct (nodes s !! n).
  - by rewrite list_lookup_alter_ne.
Qed.

Lemma lookup_with_node f n m nd s :
  nodes (with_node f n s) !! m = Some nd ->
  (m = n /\ exists nd0, nodes s !! n = Some nd0 /\ nd = f nd0) \/ (m <> n /\ nodes s !! m = Some nd).
Proof.
  unfold with_node. cbn [nodes]. destruct (decide (m = n)) as [->|Hne].
  - rewrite list_lookup_alter_eq. intros (nd0 & ? & ->)%fmap_Some. eauto.
  - rewrite list_lookup_alter_ne by done. eauto.
Qed.

(** A change that keeps what the nodes hold. *)
Record quiet (s s' : channel) : Prop := {
  quiet_node : forall n nd', nodes s' !! n = Some nd' -> exists nd, nodes s !! n = Some nd
    /\ state_ nd' = state_ nd /\ item_ nd' = item_ nd
    /\ interrupted_ (node_mon nd') = interrupted_ (node_mon nd);
  quiet_length : length (nodes s') = length (nodes s);
  quiet_gave : gave s' = gave s;
  quiet_taken : taken s' = taken s;
}.

Lemma quiet_state s s' n : quiet s s' -> state_of n s' = state_of n s.
Proof.
  intros [Hn Hl _ _]. unfold state_of. destruct (nodes s' !! n) as [nd'|] eqn:E.
  - destruct (Hn n nd' E) as (nd & -> & Hs & _). cbn. by rewrite Hs.
  - apply lookup_ge_None in E. rewrite Hl in E. apply lookup_ge_None in E. by rewrite E.
Qed.

Lemma quiet_good s s' : quiet s s' -> good s -> good s'.
Proof.
  intros Hq [H1 H2 H3 H4 H5 H6 H7]. pose proof (fun n => quiet_state s s' n Hq) as Hst.
  destruct Hq as [Hn Hl Hg Hk]. unfold gave_in, taken_from in *. split; unfold gave_in, taken_from; rewrite ?Hg, ?Hk, ?Hl; try done.
  - intros n nd (nd0 & E & _ & _ & ->)%Hn. eauto.
  - intros n nd (nd0 & E & -> & -> & _)%Hn. eauto.
  - intros n. rewrite Hst. eauto.
Qed.

Lemma quiet_later s s' : quiet s s' -> later s s'.
Proof.
  intros Hq. pose proof (fun n => quiet_state s s' n Hq) as Hst. destruct Hq as [_ _ Hg Hk].
  unfold taken_from. split; unfold taken_from; rewrite ?Hg, ?Hk; try done. intros n. by rewrite Hst.
Qed.

Lemma quiet_refl s s' : nodes s' = nodes s -> gave s' = gave s -> taken s' = taken s -> quiet s s'.
Proof. intros Hn Hg Hk. split; try done; rewrite Hn; [eauto 10|done]. Qed.

Lemma quiet_node_mon s m n : interrupted_ m = interrupted_ (mon_of n s) -> quiet s (with_node_mon m n s).
Proof.
  intros Hm. split; try done.
  - intros k nd' [(-> & nd0 & E & ->)|[Hne E]]%lookup_with_node; [|eauto 10]. exists nd0. split; [done|].
    cbn. unfold mon_of in Hm. by rewrite E in Hm.
  - apply length_alter.
Qed.
Lemma with_node_length f n s : length (nodes (with_node f n s)) = length (nodes s).
Proof. apply length_alter. Qed.

(** Setting the state of a node whose monitor is not interrupted. *)
Lemma set_state_free st nd :
  interrupted_ (node_mon nd) = false ->
  state_ (set_state st nd) = st /\ interrupted_ (node_mon (set_state st nd)) = false
  /\ (st = FULL -> item_ (set_state st nd) = item_ nd).
Proof. intros E. unfold set_state. rewrite E. by destruct st. Qed.

Lemma put_good s v n t own :
  good s -> state_of n s = Some EMPTY -> ~ gave_in n s -> own = false ->
  good (do_put v n t s) /\ later s (do_put v n t s).
Proof.
  intros [H1 H2 H3 H4 H5 H6 H7] Hst Hng _.
  assert (~ taken_from n s) as Hnt.
  { intros (k & -> & Hk)%list_elem_of_fmap. destruct (H4 k Hk) as (g & Hg & E & _). apply Hng. rewrite <- E.
    by apply list_elem_of_fmap_2. }
  unfold state_of in Hst. apply fmap_Some in Hst as (nd & Hnd & Hemp).
  destruct (set_state_free FULL (mkNode (node_mon nd) v (state_ nd)) (H1 _ _ Hnd)) as (S1 & S2 & S3).
  pose proof (lookup_lt_Some _ _ _ Hnd) as Hlt. unfold do_put. split; [split|].
  - intros m nd'. cbn [nodes]. intros [(-> & nd0 & E & ->)|[Hne E]]%lookup_with_node; [|eauto].
    rewrite Hnd in E. injection E as <-. exact S2.
  - intros m nd'. unfold taken_from. cbn [nodes gave taken].
    intros [(-> & nd0 & E & ->)|[Hne E]]%lookup_with_node Hf.
    + rewrite Hnd in E. injection E as <-. split; [|done]. exists (mkGift n v t false).
      split; [apply elem_of_app; right; by left|]. split; [done|]. unfold put_item. by rewrite S3.
    + destruct (H2 m nd' E Hf) as [(g & Hg & Hgn) ?]. split; [|done]. exists g. split; [apply elem_of_app; by left|done].
  - intros m. unfold gave_in, taken_from. cbn [gave taken]. change (state_of m _) with (state_of m (with_node (put_item v) n s)).
    rewrite state_of_with_node. destruct (decide (m = n)) as [->|Hne].
    + rewrite Hnd. cbn [fmap option_fmap option_map]. unfold put_item. rewrite S1. done.
    + intros Hm. rewrite fmap_app, elem_of_app. intros [Hin|Hin]; [by apply H3|].
      apply list_elem_of_singleton in Hin. done.
  - cbn [taken gave]. intros k Hk. destruct (H4 k Hk) as (g & Hg & ?). exists g. split; [apply elem_of_app; by left|done].
  - cbn [gave]. rewrite fmap_app. apply NoDup_app. split; [done|]. split; [|apply NoDup_singleton].
    intros m Hm ->%list_elem_of_singleton. done.
  - done.
  - intros m. unfold gave_in. cbn [gave nodes]. rewrite with_node_length, fmap_app, elem_of_app.
    intros [Hin| ->%list_elem_of_singleton]; [by apply H7|done].
  - split; cbn [gave taken].
    + intros g Hg. apply elem_of_app. by left.
    + done.
    + intros m Hm. unfold taken_from. cbn [taken]. split; [|done].
      change (state_of m _) with (state_of m (with_node (put_item v) n s)). rewrite state_of_with_node.
      destruct (decide (m = n)) as [->|]; [|done]. unfold state_of in Hm. rewrite Hnd in Hm. cbn in Hm. congruence.
Qed.

Lemma get_good s n t nd :
  good s -> nodes s !! n = Some nd -> state_ nd = FULL ->
  good (do_get (item_ nd) n t s) /\ later s (do_get (item_ nd) n t s).
Proof.
  intros [H1 H2 H3 H4 H5 H6 H7] Hnd Hfull. destruct (H2 _ _ Hnd Hfull) as [(g0 & Hg0 & Hgn & Hgi) Hnt].
  destruct (set_state_free EMPTY nd (H1 _ _ Hnd)) as (S1 & S2 & _). unfold do_get. split; [split|].
  - intros m nd'. cbn [nodes]. intros [(-> & nd0 & E & ->)|[Hne E]]%lookup_with_node; [|eauto].
    rewrite Hnd in E. injection E as <-. exact S2.
  - intros m nd'. unfold taken_from. cbn [nodes gave taken].
    intros [(-> & nd0 & E & ->)|[Hne E]]%lookup_with_node Hf.
    + rewrite Hnd in E. injection E as <-. unfold get_item in Hf. rewrite S1 in Hf. done.
    + destruct (H2 m nd' E Hf) as [? Hno]. split; [done|]. rewrite fmap_app, elem_of_app.
      intros [Hin|Hin]; [done|]. apply list_elem_of_singleton in Hin. done.
  - intros m. unfold gave_in, taken_from. cbn [gave taken]. change (state_of m _) with (state_of m (with_node get_item n s)).
    rewrite fmap_app, elem_of_app, state_of_with_node. destruct (decide (m = n)) as [->|Hne].
    + intros _ _. right. by left.
    + intros Hm Hin. left. by apply H3.
  - cbn [taken gave]. intros k [Hk| ->%list_elem_of_singleton]%elem_of_app; [by apply H4|]. by exists g0.
  - done.
  - cbn [taken]. rewrite fmap_app. apply NoDup_app. split; [done|]. split; [|apply NoDup_singleton].
    intros m Hm ->%list_elem_of_singleton. done.
  - intros m. unfold gave_in. cbn [gave nodes]. rewrite with_node_length. apply H7.
  - split; cbn [gave taken].
    + done.
    + intros k Hk. apply elem_of_app. by left.
    + intros m Hm. unfold taken_from. cbn [taken].
      change (state_of m _) with (state_of m (with_node get_item n s)). rewrite state_of_with_node, fmap_app, elem_of_app.
      assert (m <> n) as Hne by (intros ->; unfold state_of in Hm; rewrite Hnd in Hm; cbn in Hm; congruence).
      rewrite decide_False by done. split; [done|]. intros [?|?%list_elem_of_singleton]; done.
Qed.

Lemma cancel_good s n : good s -> good (with_node (set_state CANCELLED) n s) /\ later s (with_node (set_state CANCELLED) n s).
Proof.
  intros [H1 H2 H3 H4 H5 H6 H7]. split; [split|split]; try done.
  - intros m nd'. intros [(-> & nd0 & E & ->)|[Hne E]]%lookup_with_node; [|eauto].
    by apply (set_state_free CANCELLED nd0 (H1 _ _ E)).
  - intros m nd' [(-> & nd0 & E & ->)|[Hne E]]%lookup_with_node Hf; [|by apply (H2 m nd')].
    destruct (set_state_free CANCELLED nd0 (H1 _ _ E)) as (S1 & _). congruence.
  - intros m. rewrite state_of_with_node. destruct (decide (m = n)) as [->|]; [|apply H3].
    destruct (nodes s !! n) as [nd0|] eqn:E; [|done]. cbn [fmap option_fmap option_map].
    destruct (set_state_free CANCELLED nd0 (H1 _ _ E)) as (-> & _). done.
  - intros m. rewrite with_node_length. apply H7.
  - intros m Hm. split; [|done]. rewrite state_of_with_node. destruct (decide (m = n)) as [->|]; [|done].
    unfold state_of in Hm. destruct (nodes s !! n) as [nd0|] eqn:E; [|done]. cbn [fmap option_fmap option_map].
    by destruct (set_state_free CANCELLED nd0 (H1 _ _ E)) as (-> & _).
Qed.

Lemma state_of_snoc s l nd m :
  nodes s = l ++ [nd] ->
  state_of m s = if decide (m = length l) then Some (state_ nd) else state_ <$> l !! m.
Proof.
  intros E. unfold state_of. rewrite E. destruct (decide (m = length l)) as [->|Hne].
  - by rewrite list_lookup_middle.
  - destruct (decide (m < length l)%nat); [by rewrite lookup_app_l|].
    rewrite lookup_app_r by lia. destruct (m - length l)%nat eqn:Ek; [lia|]. cbn.
    rewrite (lookup_ge_None_2 l) by lia. done.
Qed.

Lemma enque_good o t s : good s -> good (enque o t s) /\ later s (enque o t s).
Proof.
  intros [H1 H2 H3 H4 H5 H6 H7].
  assert (~ gave_in (length (nodes s)) s) as Hfresh by (intros ?%H7; lia).
  assert (~ taken_from (length (nodes s)) s) as Hnt.
  { intros (k & Ek & Hk)%list_elem_of_fmap. destruct (H4 k Hk) as (g & Hg & E & _). apply Hfresh. rewrite Ek, <- E.
    by apply list_elem_of_fmap_2. }
  assert (forall nd m nd', (nodes s ++ [nd]) !! m = Some nd' -> nodes s !! m = Some nd' \/ (m = length (nodes s) /\ nd' = nd)) as Hlk.
  { intros nd m nd' [?|[Hge E]]%lookup_app_Some; [by left|]. apply list_lookup_singleton_Some in E as [? <-].
    right. split; [lia|done]. }
  split; [split|split].
  - intros m nd' Hm. destruct o; cbn [nodes enque] in Hm; apply Hlk in Hm as [?|[_ ->]]; eauto.
  - intros m nd' Hm Hf. destruct o as [v|]; cbn [nodes enque] in Hm; unfold taken_from; cbn [taken gave enque];
      apply Hlk in Hm as [Hm|[-> ->]]; try done.
    + destruct (H2 m nd' Hm Hf) as [(g & Hg & ?) ?]. split; [|done]. exists g. split; [apply elem_of_app; by left|done].
    + split; [|done]. eexists. split; [apply elem_of_app; right; by left|done].
    + by apply (H2 m nd').
  - intros m. unfold gave_in, taken_from. destruct o as [v|].
    + rewrite (state_of_snoc (enque (Put v) t s) (nodes s) (full_node v) m eq_refl). cbn [gave taken enque].
      destruct (decide (m = length (nodes s))); [done|]. rewrite fmap_app, elem_of_app.
      intros Hm [?|?%list_elem_of_singleton]; [by apply H3|done].
    + rewrite (state_of_snoc (enque Take t s) (nodes s) empty_node m eq_refl). cbn [gave taken enque].
      destruct (decide (m = length (nodes s))) as [->|]; [intros _ ?; by destruct Hfresh|]. intros Hm ?. by apply H3.
  - intros k. destruct o as [v|]; cbn [taken gave enque]; [|apply H4]. intros Hk. destruct (H4 k Hk) as (g & Hg & ?).
    exists g. split; [apply elem_of_app; by left|done].
  - destruct o as [v|]; cbn [gave enque]; [|done]. rewrite fmap_app. apply NoDup_app. split; [done|].
    split; [|apply NoDup_singleton]. intros m Hm ->%list_elem_of_singleton. done.
  - by destruct o.
  - intros m. unfold gave_in. destruct o as [v|]; cbn [gave nodes enque]; rewrite length_app; cbn [length].
    + rewrite fmap_app, elem_of_app. intros [Hin| ->%list_elem_of_singleton]; [apply H7 in Hin; lia|cbn; lia].
    + intros Hin. apply H7 in Hin. lia.
  - intros g Hg. destruct o; cbn [gave enque]; [apply elem_of_app; by left|done].
  - intros k Hk. by destruct o.
  - intros m Hm. pose proof Hm as Hlt. unfold state_of in Hlt. apply fmap_Some in Hlt as (nd & Hlt%lookup_lt_Some & _).
    destruct o as [v|]; (split; [|done]).
    + rewrite (state_of_snoc (enque (Put v) t s) (nodes s) (full_node v) m eq_refl). rewrite decide_False by lia. done.
    + rewrite (state_of_snoc (enque Take t s) (nodes s) empty_node m eq_refl). rewrite decide_False by lia. done.
Qed.
(** ** One step of a thread *)

Definition fine (s s' : channel) (t : nat) (p' : spc) : Prop := good s' /\ later s s' /\ told s' t p'.

(** The results of a thread do not change, or are left behind. *)
Record forgets (p p' : spc) : Prop := {
  forgets_own : forall x, own_put p' = Some x -> own_put p = Some x;
  forgets_put : forall x, put_result p' = Some x -> put_result p = Some x;
  forgets_take : forall x, take_result p' = Some x -> take_result p = Some x;
}.

Lemma told_forgets s t p p' : told s t p -> forgets p p' -> told s t p'.
Proof. intros [H1 H2 H3 H4] [F1 F2 F3]. split; eauto. Qed.

Lemma quiet_fine s s' t p p' : quiet s s' -> good s -> told s t p -> forgets p p' -> fine s s' t p'.
Proof.
  intros Hq Hg Ht Hf. pose proof (quiet_later _ _ Hq). split; [by apply (quiet_good s)|]. split; [done|].
  apply (told_forgets _ _ p); [by apply (told_later s)|done].
Qed.

Lemma put_fine s v n t : good s -> state_of n s = Some EMPTY -> ~ gave_in n s ->
  fine s (do_put v n t s) t (SExit (Put v) n (RInt 0)).
Proof.
  intros Hg Hst Hn. destruct (put_good s v n t false Hg Hst Hn eq_refl) as [Hg' Hl]. split; [done|]. split; [done|].
  split; cbn; intros; simplify_eq. exists false. split; [|done]. apply elem_of_app. right. by left.
Qed.

Lemma get_fine s n t nd o : good s -> nodes s !! n = Some nd -> state_ nd = FULL ->
  fine s (do_get (item_ nd) n t s) t (SExit o n (RItem (item_ nd))).
Proof.
  intros Hg Hnd Hf. destruct (get_good s n t nd Hg Hnd Hf) as [Hg' Hl]. split; [done|]. split; [done|].
  split; cbn; intros; try (destruct o); simplify_eq; apply elem_of_app; right; by left.
Qed.

Lemma cancel_fine s n t o e : good s ->
  fine s (with_node (set_state CANCELLED) n s) t (SExit o n (RThrow e)).
Proof.
  intros Hg. destruct (cancel_good s n Hg) as [Hg' Hl]. split; [done|]. split; [done|].
  split; cbn; intros; try (destruct o); simplify_eq.
Qed.

Lemma give_up_fine s v n t tm nd : good s -> told s t (STimed (Put v) tm n) -> nodes s !! n = Some nd -> state_ nd = FULL ->
  fine s (with_node (set_state CANCELLED) n s) t (SExit (Put v) n (RInt (-1))).
Proof.
  intros Hg [H1 _ _ _] Hnd Hf. destruct (cancel_good s n Hg) as [Hg' Hl]. split; [done|]. split; [done|].
  split; cbn; intros; simplify_eq. split; [by apply H1|].
  destruct (good_full _ Hg _ _ Hnd Hf) as [_ Hnt]. split; [|exact Hnt].
  rewrite state_of_with_node, decide_True, Hnd by done. cbn [fmap option_fmap option_map].
  by destruct (set_state_free CANCELLED nd (good_free _ Hg _ _ Hnd)) as (-> & _).
Qed.

Lemma enque_fine o tm t s : good s -> fine s (enque o t s) t (SUnlock o tm (length (nodes s)) true).
Proof.
  intros Hg. destruct (enque_good o t s Hg) as [Hg' Hl]. split; [done|]. split; [done|].
  destruct o as [v|]; split; cbn; intros; simplify_eq. apply elem_of_app. right. by left.
Qed.

Lemma empty_fine s v tm n t : good s -> told s t (SEmpty v tm n) -> state_of n s = Some EMPTY ->
  fine s s t (SExit (Put v) n (RInt 0)).
Proof.
  intros Hg [H1 _ _ _] Hst. specialize (H1 v n eq_refl). split; [done|]. split; [by apply quiet_later, quiet_refl|].
  split; cbn; intros; simplify_eq. exists true. split; [done|]. intros _. apply (good_empty _ Hg _ Hst).
  apply list_elem_of_fmap. eexists. by split; [|exact H1].
Qed.

Lemma set_partners_quiet o l s : quiet s (set_partners o l s).
Proof. by destruct o; apply quiet_refl. Qed.

(** A step from a state and its thread's facts to the next. *)
Lemma hand_local_fine ch t s p s' p' e :
  hand_local ch t s p = Some (s', p', e) -> good s -> told s t p ->
  (forall n, put_pending n p = true -> ~ gave_in n s) -> fine s s' t p'.
Proof.
  intros Hl Hg Ht Hp. destruct ch as [o tm| |w], p as [|o' tm'|o' tm'|o' tm'|o' tm' n own|o' tm' n own|o' tm' n|o' tm' n|o' tm' n
    |o' tm' n|o' tm' n|o' tm' n w'|o' tm' n|v tm' n|o' n own ex|o' n r|o' tm' n|o' n r|i]; cbn [hand_local] in Hl; try done.
  - injection Hl as <- <- <-. by eapply quiet_fine; [apply quiet_refl|..].
  - injection Hl as <- <- <-. by eapply quiet_fine; [apply quiet_refl|..].
  - injection Hl as <- <- <-. eapply quiet_fine; [by apply quiet_refl|done..|]. by destruct (interrupted_ _), o'.
  - destruct (lock t (chan_mon s)) as [m|]; [|done]. injection Hl as <- <- <-.
    by eapply quiet_fine; [apply quiet_refl|..].
  - unfold deque_next in Hl. destruct (partners o' s) as [|n l]; [injection Hl as <- <- <-; by apply enque_fine|].
    injection Hl as <- <- <-. eapply quiet_fine; [apply set_partners_quiet|done..|]. by destruct (decide _), o'.
  - injection Hl as <- <- <-. eapply quiet_fine; [by apply quiet_refl|done..|]. by destruct o', own.
  - destruct (lock t (mon_of n s)) as [m|] eqn:El; [|done]. injection Hl as <- <- <-.
    apply lock_counts in El as (_ & El & _). eapply quiet_fine; [by apply quiet_node_mon|done..|]. by destruct own, o'.
  - injection Hl as <- <- <-. eapply quiet_fine; [by apply quiet_refl|done..|]. by destruct (interrupted_ _), o'.
  - unfold match_next in Hl. destruct (nodes s !! n) as [nd|] eqn:En; [|done]. cbn [mbind option_bind] in Hl.
    destruct o' as [v|]; case_decide as Est; injection Hl as <- <- <-.
    + apply put_fine; [done| |apply Hp; cbn; by rewrite bool_decide_true]. unfold state_of. rewrite En. cbn. by rewrite Est.
    + by eapply quiet_fine; [apply quiet_refl|..].
    + by apply get_fine.
    + by eapply quiet_fine; [apply quiet_refl|..].
  - injection Hl as <- <- <-. eapply quiet_fine; [by apply quiet_refl|done..|]. by destruct (decide _), o'.
  - injection Hl as <- <- <-. eapply quiet_fine; [by apply quiet_refl|done..|]. by destruct (interrupted_ _), o'.
  - unfold test_next in Hl. destruct (nodes s !! n) as [nd|] eqn:En; [|done]. cbn [mbind option_bind] in Hl.
    destruct o' as [v|]; [|case_decide as Est]; injection Hl as <- <- <-.
    + eapply quiet_fine; [by apply quiet_refl|done..|]. by destruct (decide _).
    + by apply get_fine.
    + eapply quiet_fine; [by apply quiet_refl|done..|]. by destruct (decide _).
  - destruct (wait_next w t tm' w' (mon_of n s)) as [[m out]|] eqn:Ew; [|done]. injection Hl as <- <- <-.
    apply wait_next_counts in Ew as [Ew _]. eapply quiet_fine; [by apply quiet_node_mon|done..|].
    by destruct out as [|[]|], o'.
  - unfold timed_next in Hl. destruct (nodes s !! n) as [nd|] eqn:En; [|done]. cbn [mbind option_bind] in Hl.
    destruct o' as [v|]; case_decide as Est; injection Hl as <- <- <-.
    + destruct (interrupted_ _); [by apply cancel_fine|]. by eapply give_up_fine.
    + by eapply quiet_fine; [apply quiet_refl|..].
    + by apply get_fine.
    + by apply cancel_fine.
  - injection Hl as <- <- <-. destruct (decide _) as [Est|]; [by eapply empty_fine|].
    by eapply quiet_fine; [apply quiet_refl|..].
  - injection Hl as <- <- <-. by apply cancel_fine.
  - injection Hl as <- <- <-. eapply quiet_fine; [by apply quiet_node_mon|done..|]. by destruct o', r.
  - injection Hl as <- <- <-. eapply quiet_fine; [by apply quiet_node_mon|done..|]. by destruct o'.
  - injection Hl as <- <- <-. eapply quiet_fine; [by apply quiet_refl|done..|]. by destruct o', n, r.
  - destruct (intr_next t i (chan_mon s)) as [[[m out] ef]|]; [|done]. injection Hl as <- <- <-.
    eapply quiet_fine; [by apply quiet_refl|done..|]. by destruct out.
Qed.

(** *** Each consumer's node has at most one producer *)

Definition occ (n : nat) (l : list nat) : Z := tcount (fun m => bool_decide (m = n)) l.

Definition given (n : nat) (l : list gift) : Z := b2z (bool_decide (n ∈ g_node <$> l)).

(** The producers that a node may still get, or has: in the queue, found by a thread, filled. *)
Definition claims (n : nat) (s : channel) (p : spc) : Z :=
  occ n (waitingConsumers s) + b2z (put_pending n p) + given n (gave s).

Lemma occ_app n l1 l2 : occ n (l1 ++ l2) = occ n l1 + occ n l2.
Proof. apply tcount_app. Qed.

Lemma given_bounds n l : 0 <= given n l <= 1.
Proof. apply b2z_bounds. Qed.

Lemma given_snoc n g l : given n (l ++ [g]) <= given n l + b2z (bool_decide (g_node g = n)).
Proof.
  unfold given. rewrite fmap_app. destruct (decide (n ∈ g_node <$> l)) as [Hin|Hin];
    [rewrite (bool_decide_true _ Hin)|rewrite (bool_decide_false _ Hin)].
  - pose proof (b2z_bounds (bool_decide (n ∈ (g_node <$> l) ++ (g_node <$> [g])))).
    pose proof (b2z_bounds (bool_decide (g_node g = n))). cbn [b2z]. lia.
  - repeat case_bool_decide; cbn [b2z]; try lia. exfalso.
    match goal with H : n ∈ _ ++ _ |- _ => apply elem_of_app in H as [|Hn]; [done|] end.
    apply list_elem_of_singleton in Hn. done.
Qed.

Lemma claims_quiet n s s' p p' : waitingConsumers s' = waitingConsumers s -> gave s' = gave s ->
  (put_pending n p' = true -> put_pending n p = true) -> claims n s' p' <= claims n s p.
Proof.
  intros Hc Hg Hp. unfold claims. rewrite Hc, Hg.
  destruct (put_pending n p'); [rewrite Hp by done; simpl; lia|].
  pose proof (b2z_bounds (put_pending n p)). simpl. lia.
Qed.

Definition claims_step (n : nat) (s s' : channel) (p p' : spc) : Prop :=
  (length (nodes s') = length (nodes s) /\ claims n s' p' <= claims n s p)
  \/ (length (nodes s') = S (length (nodes s))
      /\ claims n s' p' <= claims n s p + b2z (bool_decide (n = length (nodes s)))).

Lemma enque_claims n o tm t s :
  claims_step n s (enque o t s) (SDeque o tm) (SUnlock o tm (length (nodes s)) true).
Proof.
  right. unfold claims. rewrite (bool_decide_ext (n = length (nodes s)) (length (nodes s) = n)) by done.
  destruct o as [v|]; cbn [enque nodes waitingConsumers put_pending gave]; (split; [by rewrite length_app, Nat.add_1_r|]).
  - pose proof (given_snoc n (mkGift (length (nodes s)) v t true) (gave s)) as Hg. cbn [g_node] in Hg. simpl. lia.
  - rewrite occ_app. unfold occ at 2, tcount, tsum. simpl. lia.
Qed.

Lemma deque_claims n o tm t s s' p' e :
  deque_next o tm t s = Some (s', p', e) -> claims_step n s s' (SDeque o tm) p'.
Proof.
  unfold deque_next. destruct (partners o s) as [|m l] eqn:E; intros [= <- <- <-]; [apply enque_claims|].
  left. split; [by destruct o|]. unfold claims.
  destruct o as [v|]; cbn [partners set_partners waitingConsumers gave] in *.
  - rewrite E. change (m :: l) with ([m] ++ l). rewrite occ_app. unfold occ at 2, tcount, tsum. cbn [foldr].
    pose proof (b2z_bounds (bool_decide (m = n))). destruct (decide _); cbn [put_pending]; simpl; lia.
  - by destruct (decide _).
Qed.

Lemma put_claims n v tm m t s :
  claims n (do_put v m t s) (SExit (Put v) m (RInt 0)) <= claims n s (SMatch (Put v) tm m).
Proof.
  unfold claims. pose proof (given_snoc n (mkGift m v t false) (gave s)) as Hg.
  cbn [g_node put_pending do_put waitingConsumers with_node gave] in *. simpl in *. lia.
Qed.

Lemma hand_local_claims ch t s p s' p' e n :
  hand_local ch t s p = Some (s', p', e) -> claims_step n s s' p p'.
Proof.
  intros Hl. destruct ch as [o tm| |w], p as [|o' tm'|o' tm'|o' tm'|o' tm' m own|o' tm' m own|o' tm' m|o' tm' m|o' tm' m
    |o' tm' m|o' tm' m|o' tm' m w'|o' tm' m|v tm' m|o' m own ex|o' m r|o' tm' m|o' m r|i]; cbn [hand_local] in Hl; try done.
  all: try (by eapply deque_claims).
  all: unfold match_next, test_next, timed_next in Hl.
  all: simplify_option_eq; repeat (case_match; simplify_option_eq); left; (split; [first [done|apply with_node_length]|]).
  all: try (by apply put_claims).
  all: apply claims_quiet; try done; unfold waited; cbn [put_pending]; repeat case_match; done.
Qed.
(** *** Without an interruption nothing is dropped *)

Definition intact (s : channel) : Prop := forall g, g ∈ gave s -> g_own g = false ->
  taken_from (g_node g) s \/ state_of (g_node g) s = Some FULL.

Lemma gift_unique s g1 g2 : good s -> g1 ∈ gave s -> g2 ∈ gave s -> g_node g1 = g_node g2 -> g1 = g2.
Proof.
  intros Hg [i Hi]%list_elem_of_lookup [j Hj]%list_elem_of_lookup E.
  assert (i = j) as ->; [|congruence]. eapply (NoDup_lookup (g_node <$> gave s)); [apply Hg|..].
  - rewrite list_lookup_fmap, Hi. done.
  - rewrite list_lookup_fmap, Hj. cbn. by rewrite E.
Qed.

Lemma taken_later s s' n : later s s' -> taken_from n s -> taken_from n s'.
Proof.
  intros [_ Hk _] (k & -> & Hin)%list_elem_of_fmap. apply list_elem_of_fmap. eauto.
Qed.

(** Nodes that are not written keep what the invariant says of them. *)
Lemma intact_keep s s' :
  later s s' -> (forall g, g ∈ gave s' -> g_own g = false -> g ∈ gave s \/ state_of (g_node g) s' = Some FULL) ->
  (forall g, g ∈ gave s -> g_own g = false -> state_of (g_node g) s = Some FULL ->
    state_of (g_node g) s' = Some FULL \/ taken_from (g_node g) s') ->
  intact s -> intact s'.
Proof.
  intros Hl Hg Hst Hi g Hin Ho. destruct (Hg g Hin Ho) as [Hold|]; [|by right].
  destruct (Hi g Hold Ho) as [Ht|Hf]; [left; by apply (taken_later s)|]. destruct (Hst g Hold Ho Hf); auto.
Qed.

Lemma intact_quiet s s' : quiet s s' -> intact s -> intact s'.
Proof.
  intros Hq. apply intact_keep; [by apply quiet_later|..].
  - rewrite (quiet_gave _ _ Hq). auto.
  - intros g _ _ Hf. left. by rewrite (quiet_state _ _ _ Hq).
Qed.

Lemma intact_put s v n t : good s -> state_of n s = Some EMPTY -> ~ gave_in n s -> intact s -> intact (do_put v n t s).
Proof.
  intros Hg Hst Hn. destruct (put_good s v n t false Hg Hst Hn eq_refl) as [_ Hl].
  unfold state_of in Hst. apply fmap_Some in Hst as (nd & Hnd & Hemp).
  destruct (set_state_free FULL (mkNode (node_mon nd) v (state_ nd)) (good_free _ Hg _ _ Hnd)) as (S1 & _).
  assert (forall m, state_of m (do_put v n t s) = if decide (m = n) then Some FULL else state_of m s) as Hs.
  { intros m. change (state_of m (do_put v n t s)) with (state_of m (with_node (put_item v) n s)).
    rewrite state_of_with_node. destruct (decide (m = n)) as [->|]; [|done]. rewrite Hnd.
    cbn [fmap option_fmap option_map]. unfold put_item. by rewrite S1. }
  apply intact_keep; [done|..].
  - intros g [Hin| ->%list_elem_of_singleton]%elem_of_app _; [by left|]. right. rewrite Hs. cbn [g_node]. by rewrite decide_True.
  - intros g Hin _ Hf. left. rewrite Hs, decide_False; [done|]. intros <-. apply Hn. by apply list_elem_of_fmap_2.
Qed.

Lemma intact_get s n t nd : good s -> nodes s !! n = Some nd -> state_ nd = FULL -> intact s -> intact (do_get (item_ nd) n t s).
Proof.
  intros Hg Hnd Hf. destruct (get_good s n t nd Hg Hnd Hf) as [_ Hl]. apply intact_keep; [done|by left|].
  intros g Hin _ Hfull. destruct (decide (g_node g = n)) as [E|Hne].
  - right. apply list_elem_of_fmap. exists (mkCatch n (item_ nd) t). split; [done|]. apply elem_of_app. right. by left.
  - left. change (state_of (g_node g) (with_node get_item n s) = Some FULL). by rewrite state_of_with_node, decide_False.
Qed.

Lemma intact_cancel s n : good s ->
  (forall g, g ∈ gave s -> g_own g = false -> g_node g = n -> state_of n s <> Some FULL) ->
  intact s -> intact (with_node (set_state CANCELLED) n s).
Proof.
  intros Hg Hn. destruct (cancel_good s n Hg) as [_ Hl]. apply intact_keep; [done|by left|].
  intros g Hin Ho Hfull. left. rewrite state_of_with_node, decide_False; [done|]. intros E. subst n. by apply (Hn g).
Qed.

Lemma intact_enque o t s : good s -> intact s -> intact (enque o t s).
Proof.
  intros Hg. destruct (enque_good o t s Hg) as [_ Hl]. apply intact_keep; [done|..].
  - destruct o as [v|]; [|by left]. intros g [Hin| ->%list_elem_of_singleton]%elem_of_app Ho; [by left|done].
  - intros g Hin _ Hfull. left. pose proof Hfull as Hlt. unfold state_of in Hlt.
    apply fmap_Some in Hlt as (nd & Hlt%lookup_lt_Some & _). destruct o as [v|].
    + rewrite (state_of_snoc (enque (Put v) t s) (nodes s) (full_node v) _ eq_refl), decide_False by lia. exact Hfull.
    + rewrite (state_of_snoc (enque Take t s) (nodes s) empty_node _ eq_refl), decide_False by lia. exact Hfull.
Qed.

Lemma mon_of_free s n : good s -> interrupted_ (mon_of n s) = false.
Proof.
  intros Hg. unfold mon_of. destruct (nodes s !! n) as [nd|] eqn:E; [|done]. by apply (good_free _ Hg n nd).
Qed.

Lemma hand_local_intact ch t s p s' p' e :
  hand_local ch t s p = Some (s', p', e) -> good s -> told s t p ->
  (forall n, put_pending n p = true -> ~ gave_in n s) ->
  interrupted_ (chan_mon s') = false ->
  interrupted_ (chan_mon s) = false /\ (catching_up p = false -> catching_up p' = false /\ (intact s -> intact s')).
Proof.
  intros Hl Hg Ht Hp Hi. destruct ch as [o tm| |w], p as [|o' tm'|o' tm'|o' tm'|o' tm' n own|o' tm' n own|o' tm' n|o' tm' n|o' tm' n
    |o' tm' n|o' tm' n|o' tm' n w'|o' tm' n|v tm' n|o' n own ex|o' n r|o' tm' n|o' n r|i]; cbn [hand_local] in Hl; try done.
  - injection Hl as <- <- <-. done.
  - injection Hl as <- <- <-. done.
  - injection Hl as <- <- <-. by rewrite Hi.
  - destruct (lock t (chan_mon s)) as [m|] eqn:El; [|done]. injection Hl as <- <- <-.
    apply lock_counts in El as (_ & El & _). cbn in Hi. split; [congruence|]. intros _. split; [done|].
    by apply intact_quiet, quiet_refl.
  - unfold deque_next in Hl. destruct (partners o' s) as [|n l]; injection Hl as <- <- <-.
    + split; [by destruct o'|]. intros _. split; [done|]. by apply intact_enque.
    + split; [by destruct o'|]. intros _. split; [by destruct (decide _)|]. by apply intact_quiet, set_partners_quiet.
  - injection Hl as <- <- <-. split; [done|]. intros _. split; [done|]. by apply intact_quiet, quiet_refl.
  - destruct (lock t (mon_of n s)) as [m|] eqn:El; [|done]. injection Hl as <- <- <-.
    apply lock_counts in El as (_ & El & _). split; [done|]. intros _. split; [by destruct own|].
    by apply intact_quiet, quiet_node_mon.
  - injection Hl as <- <- <-. by rewrite Hi.
  - unfold match_next in Hl. destruct (nodes s !! n) as [nd|] eqn:En; [|done]. cbn [mbind option_bind] in Hl.
    destruct o' as [v|]; case_decide as Est; injection Hl as <- <- <-; (split; [done|]; intros _; split; [done|]); [|done| |done].
    + apply intact_put; [done| |apply Hp; cbn; by rewrite bool_decide_true]. unfold state_of. rewrite En. cbn. by rewrite Est.
    + by apply intact_get.
  - injection Hl as <- <- <-. split; [done|]. intros _. by destruct (decide _).
  - injection Hl as <- <- <-. by rewrite Hi.
  - unfold test_next in Hl. destruct (nodes s !! n) as [nd|] eqn:En; [|done]. cbn [mbind option_bind] in Hl.
    destruct o' as [v|]; [|case_decide as Est]; injection Hl as <- <- <-; (split; [done|]; intros _).
    + by destruct (decide _).
    + split; [done|]. by apply intact_get.
    + by destruct (decide _).
  - destruct (wait_next w t tm' w' (mon_of n s)) as [[m out]|] eqn:Ew; [|done]. injection Hl as <- <- <-.
    split; [done|]. intros _. pose proof (wait_next_counts _ _ _ _ _ _ _ Ew) as [Em _].
    split; [|by apply intact_quiet, quiet_node_mon]. destruct out as [| |]; [done|by destruct r, o'|].
    apply wait_next_interrupted in Ew. rewrite mon_of_free in Em by done. congruence.
  - unfold timed_next in Hl. destruct (nodes s !! n) as [nd|] eqn:En; [|done]. cbn [mbind option_bind] in Hl.
    destruct o' as [v|]; case_decide as Est; injection Hl as <- <- <-; (split; [done|]; intros _; split; [done|]); [|done| |].
    + apply intact_cancel; [done|]. intros g Hin Ho E.
      pose proof (told_own _ _ _ Ht v n eq_refl) as Hown. rewrite (gift_unique s g _ Hg Hin Hown E) in Ho. done.
    + by apply intact_get.
    + apply intact_cancel; [done|]. intros g _ _ _. unfold state_of. rewrite En. cbn. congruence.
  - injection Hl as <- <- <-. split; [done|]. intros _. by destruct (decide _).
  - injection Hl as <- <- <-. done.
  - injection Hl as <- <- <-. split; [done|]. intros _. split; [done|]. by apply intact_quiet, quiet_node_mon.
  - injection Hl as <- <- <-. split; [done|]. intros _. split; [done|]. by apply intact_quiet, quiet_node_mon.
  - injection Hl as <- <- <-. done.
  - destruct (intr_next t i (chan_mon s)) as [[[m out] ef]|] eqn:Ei; [|done]. injection Hl as <- <- <-.
    apply intr_next_counts in Ei as (_ & Ei & _). cbn in Hi. split.
    + destruct (interrupted_ (chan_mon s)); [|done]. rewrite Ei in Hi; done.
    + intros _. split; [by destruct out|]. by apply intact_quiet, quiet_refl.
Qed.
(** *** Locks and blocked threads *)

(** At a program counter that owns the lock of node [n]. *)
Definition holds_at (n : nat) (p : spc) : bool :=
  match p with
  | SCheck _ _ m | SMatch _ _ m | SLoop _ _ m | SIntr _ _ m | STest _ _ m | STimed _ _ m | SEmpty _ _ m
  | SCatch _ m _ _ | SExit _ m _ | SRetry _ _ m => bool_decide (m = n)
  | SWait _ _ m w => bool_decide (m = n) && wait_holds w
  | _ => false
  end.

(** A thread that made the node and has not left it. *)
Definition own_at (n : nat) (p : spc) : bool :=
  match p with
  | SUnlock _ _ m true | SNode _ _ m true | SLoop _ _ m | SIntr _ _ m | STest _ _ m | SWait _ _ m _ | STimed _ _ m
  | SEmpty _ _ m => bool_decide (m = n)
  | _ => false
  end.

(** In the wait, up to the block and in it: what the node must hold. *)
Definition expects (p : spc) : option (nat * node_state) :=
  match p with
  | SWait o _ n (WTest | WInc | WBlock | Waiting) => Some (n, match o with Put _ => FULL | Take => EMPTY end)
  | _ => None
  end.

Lemma mon_of_with_node f n m s :
  (forall nd, node_mon (f nd) = node_mon nd) -> mon_of m (with_node f n s) = mon_of m s.
Proof.
  intros Hf. unfold mon_of, with_node. cbn [nodes]. destruct (decide (m = n)) as [->|Hne].
  - rewrite list_lookup_alter_eq. by destruct (nodes s !! n); cbn; rewrite ?Hf.
  - by rewrite list_lookup_alter_ne.
Qed.

Lemma mon_of_with_node_mon m0 n m s :
  (n < length (nodes s))%nat -> mon_of m (with_node_mon m0 n s) = if decide (m = n) then m0 else mon_of m s.
Proof.
  intros Hlt. unfold mon_of, with_node_mon, with_node. cbn [nodes]. destruct (decide (m = n)) as [->|Hne].
  - rewrite list_lookup_alter_eq. by destruct (lookup_lt_is_Some_2 _ _ Hlt) as [nd ->].
  - by rewrite list_lookup_alter_ne.
Qed.

Lemma mon_of_snoc s l nd m : nodes s = l ++ [nd] -> node_mon nd = mon_init ->
  mon_of m s = default mon_init (node_mon <$> l !! m).
Proof.
  intros E Hnd. unfold mon_of. rewrite E. destruct (decide (m < length l)%nat); [by rewrite lookup_app_l|].
  rewrite lookup_app_r by lia. rewrite (lookup_ge_None_2 l) by lia.
  destruct (m - length l)%nat; cbn; [by rewrite Hnd|done].
Qed.

Lemma mon_of_enque o t s m : mon_of m (enque o t s) = mon_of m s.
Proof.
  destruct o as [v|].
  - by rewrite (mon_of_snoc (enque (Put v) t s) (nodes s) (full_node v) m eq_refl).
  - by rewrite (mon_of_snoc (enque Take t s) (nodes s) empty_node m eq_refl).
Qed.

(** The node a program counter is about exists. *)
Definition about (p : spc) : option nat :=
  match p with
  | SUnlock _ _ n _ | SNode _ _ n _ | SCheck _ _ n | SMatch _ _ n | SLoop _ _ n | SIntr _ _ n | STest _ _ n
  | SWait _ _ n _ | STimed _ _ n | SEmpty _ _ n | SCatch _ n _ _ | SExit _ n _ | SRetry _ _ n => Some n
  | _ => None
  end.

Record placed (s : channel) : Prop := {
  placed_producers : forall n, n ∈ waitingProducers s -> (n < length (nodes s))%nat;
  placed_consumers : forall n, n ∈ waitingConsumers s -> (n < length (nodes s))%nat;
}.

Lemma enque_placed o t s : placed s -> placed (enque o t s) /\ length (nodes (enque o t s)) = S (length (nodes s)).
Proof.
  intros [Hpr Hco]. assert (length (nodes (enque o t s)) = S (length (nodes s))) as Hlen.
  { destruct o; cbn [enque nodes]; by rewrite length_app, Nat.add_1_r. }
  split; [|done]. split; rewrite Hlen; intros m; destruct o; cbn [enque waitingProducers waitingConsumers];
    rewrite ?elem_of_app, ?list_elem_of_singleton; intros Hm;
    repeat match goal with H : _ \/ _ |- _ => destruct H end; subst; try lia.
  all: try (apply Hpr in Hm; lia); try (apply Hco in Hm; lia).
  all: match goal with H : _ ∈ _ |- _ => first [apply Hpr in H|apply Hco in H]; lia end.
Qed.

Lemma hand_local_placed ch t s p s' p' e :
  hand_local ch t s p = Some (s', p', e) -> placed s ->
  (forall n, about p = Some n -> (n < length (nodes s))%nat) ->
  placed s' /\ (forall n, about p' = Some n -> (n < length (nodes s'))%nat)
  /\ (length (nodes s) <= length (nodes s'))%nat.
Proof.
  intros Hl [Hpr Hco] Ha. destruct ch as [o tm| |w], p as [|o' tm'|o' tm'|o' tm'|o' tm' n own|o' tm' n own|o' tm' n|o' tm' n|o' tm' n
    |o' tm' n|o' tm' n|o' tm' n w'|o' tm' n|v tm' n|o' n own ex|o' n r|o' tm' n|o' n r|i]; cbn [hand_local] in Hl; try done.
  all: try (progress unfold deque_next in Hl; destruct (partners o' s) as [|n l] eqn:El).
  5: { injection Hl as <- <- <-. destruct (enque_placed o' t s) as [Hpl Hlen]; [done|]. split; [done|]. rewrite Hlen.
       split; [intros m [= <-]; lia|lia]. }
  5: { injection Hl as <- <- <-. destruct o' as [v|]; cbn [partners] in El; cbn [set_partners nodes]; (split; [split|split; [|done]]);
         cbn [set_partners nodes waitingProducers waitingConsumers]; intros m; rewrite El in *.
       all: try (intros Hm; first [by apply Hpr|by apply Hco|apply Hco; by right|apply Hpr; by right]).
       all: destruct (decide _); cbn [about]; [done|]; intros [= <-]; first [apply Hco; by left|apply Hpr; by left]. }
  all: unfold match_next, test_next, timed_next, waited in Hl.
  all: simplify_option_eq; repeat (case_match; simplify_option_eq).
  all: unfold do_put, do_get, with_node_mon, with_node, with_chan_mon; cbn [about nodes waitingProducers waitingConsumers] in *;
    (split; [split; cbn [nodes waitingProducers waitingConsumers]|split]); rewrite ?length_alter; auto; try done.
Qed.
Lemma hand_local_lock n ch t s p s' p' e :
  hand_local ch t s p = Some (s', p', e) -> (forall m, about p = Some m -> (m < length (nodes s))%nat) ->
  lock_step t (holds_at n p) (holds_at n p') (mon_of n s) (mon_of n s').
Proof.
  intros Hl Ha. destruct ch as [o tm| |w], p as [|o' tm'|o' tm'|o' tm'|o' tm' m own|o' tm' m own|o' tm' m|o' tm' m|o' tm' m
    |o' tm' m|o' tm' m|o' tm' m w'|o' tm' m|v tm' m|o' m own ex|o' m r|o' tm' m|o' m r|i]; cbn [hand_local] in Hl; try done;
    cbn [about] in Ha; try specialize (Ha m eq_refl).
  - injection Hl as <- <- <-. apply lock_step_same.
  - injection Hl as <- <- <-. apply lock_step_same.
  - injection Hl as <- <- <-. destruct (interrupted_ _); apply lock_step_same.
  - destruct (lock t (chan_mon s)); [|done]. injection Hl as <- <- <-. apply lock_step_same.
  - unfold deque_next in Hl. destruct (partners o' s) as [|k l]; injection Hl as <- <- <-.
    + rewrite mon_of_enque. apply lock_step_same.
    + destruct (decide _), o'; apply lock_step_same.
  - injection Hl as <- <- <-. apply lock_step_same.
  - destruct (lock t (mon_of m s)) as [m0|] eqn:El; [|done]. injection Hl as <- <- <-.
    rewrite mon_of_with_node_mon by done. destruct (decide (n = m)) as [->|Hne].
    + apply lock_step_take in El. by destruct own; cbn; rewrite bool_decide_true.
    + destruct own; cbn; rewrite bool_decide_false by done; apply lock_step_same.
  - injection Hl as <- <- <-. destruct (interrupted_ _); apply lock_step_same.
  - unfold match_next in Hl. destruct (nodes s !! m) as [nd|]; [|done]. cbn [mbind option_bind] in Hl.
    destruct o'; case_decide; injection Hl as <- <- <-; apply lock_step_keep; try done;
      apply (f_equal owner); apply mon_of_with_node; done.
  - injection Hl as <- <- <-. destruct (decide _); apply lock_step_same.
  - injection Hl as <- <- <-. destruct (interrupted_ _); apply lock_step_same.
  - unfold test_next in Hl. destruct (nodes s !! m) as [nd|]; [|done]. cbn [mbind option_bind] in Hl.
    destruct o'; [|case_decide]; injection Hl as <- <- <-.
    + destruct (decide _); cbn; rewrite ?andb_true_r; apply lock_step_same.
    + apply lock_step_keep, (f_equal owner), mon_of_with_node. done.
    + destruct (decide _); cbn; rewrite ?andb_true_r; apply lock_step_same.
  - destruct (wait_next w t tm' w' (mon_of m s)) as [[m0 out]|] eqn:Ew; [|done]. injection Hl as <- <- <-.
    rewrite mon_of_with_node_mon by done. cbn [holds_at]. destruct (decide (n = m)) as [->|Hne].
    + apply wait_next_lock in Ew. rewrite bool_decide_true by done. cbn [andb].
      destruct out as [w''| |]; cbn [holds_at waited]; [|by destruct r, o'; cbn; rewrite ?bool_decide_true|];
        by rewrite bool_decide_true.
    + rewrite bool_decide_false by done. cbn [andb].
      destruct out as [w''| |]; cbn [holds_at]; [|destruct r, o'; cbn [waited holds_at]|];
        rewrite bool_decide_false by done; apply lock_step_same.
  - unfold timed_next in Hl. destruct (nodes s !! m) as [nd|]; [|done]. cbn [mbind option_bind] in Hl.
    destruct o'; case_decide; injection Hl as <- <- <-; apply lock_step_keep; try done;
      apply (f_equal owner); apply mon_of_with_node; done.
  - injection Hl as <- <- <-. destruct (decide _); apply lock_step_same.
  - injection Hl as <- <- <-. apply lock_step_keep, (f_equal owner), mon_of_with_node. done.
  - injection Hl as <- <- <-. rewrite mon_of_with_node_mon by done. cbn [holds_at]. destruct (decide (n = m)) as [->|Hne].
    + rewrite bool_decide_true by done. apply lock_step_give.
    + rewrite bool_decide_false by done. apply lock_step_same.
  - injection Hl as <- <- <-. rewrite mon_of_with_node_mon by done. cbn [holds_at]. destruct (decide (n = m)) as [->|Hne].
    + rewrite bool_decide_true by done. apply lock_step_give.
    + rewrite bool_decide_false by done. apply lock_step_same.
  - injection Hl as <- <- <-. apply lock_step_same.
  - destruct (intr_next t i (chan_mon s)) as [[[m0 out] ef]|]; [|done]. injection Hl as <- <- <-.
    destruct out; apply lock_step_same.
Qed.

(** A step that changes the state of a node owns its lock and signals it. *)
Lemma hand_local_writes n ch t s p s' p' e :
  hand_local ch t s p = Some (s', p', e) ->
  state_of n s' = state_of n s \/ state_of n s = None \/ (holds_at n p = true /\ e = Some n).
Proof.
  intros Hl. assert (forall f m, e = Some m -> holds_at m p = true -> state_of n s' = state_of n (with_node f m s) ->
    state_of n s' = state_of n s \/ state_of n s = None \/ (holds_at n p = true /\ e = Some n)) as Hwn.
  { intros f m -> Hh ->. rewrite state_of_with_node. destruct (decide (n = m)) as [->|]; auto. }
  destruct ch as [o tm| |w], p as [|o' tm'|o' tm'|o' tm'|o' tm' m own|o' tm' m own|o' tm' m|o' tm' m|o' tm' m
    |o' tm' m|o' tm' m|o' tm' m w'|o' tm' m|v tm' m|o' m own ex|o' m r|o' tm' m|o' m r|i]; cbn [hand_local] in Hl; try done.
  all: match type of Hl with deque_next _ _ _ _ = _ => idtac | _ => unfold match_next, test_next, timed_next in Hl;
    simplify_option_eq; repeat (case_match; simplify_option_eq) end; try (by left).
  1: { unfold deque_next in Hl. destruct (partners o' s) as [|k l]; injection Hl as <- <- <-; [|by destruct o'; left].
       destruct (decide (n < length (nodes s))%nat) as [Hlt|Hge]; [left|right; left].
       - destruct o' as [v|].
         + rewrite (state_of_snoc (enque (Put v) t s) (nodes s) (full_node v) _ eq_refl), decide_False by lia. done.
         + rewrite (state_of_snoc (enque Take t s) (nodes s) empty_node _ eq_refl), decide_False by lia. done.
       - unfold state_of. by rewrite lookup_ge_None_2 by lia. }
  all: try (left; apply quiet_state, quiet_node_mon; try done).
  all: try (match goal with H : lock _ _ = Some _ |- _ => by apply lock_counts in H as (_ & ? & _) end).
  all: try (match goal with H : wait_next _ _ _ _ _ = Some _ |- _ => by apply wait_next_counts in H as [? _] end).
  all: try (by eapply Hwn; [done|cbn; by rewrite bool_decide_true|reflexivity]).
Qed.
(** Only the thread that made a node has it for its own. *)
Lemma hand_local_own n ch t s p s' p' e :
  hand_local ch t s p = Some (s', p', e) ->
  own_at n p' = false \/ own_at n p = true
  \/ (own_at n p = false /\ n = length (nodes s) /\ length (nodes s') = S (length (nodes s))).
Proof.
  intros Hl. destruct ch as [o tm| |w], p as [|o' tm'|o' tm'|o' tm'|o' tm' m own|o' tm' m own|o' tm' m|o' tm' m|o' tm' m
    |o' tm' m|o' tm' m|o' tm' m w'|o' tm' m|v tm' m|o' m own ex|o' m r|o' tm' m|o' m r|i]; cbn [hand_local] in Hl; try done.
  all: match type of Hl with deque_next _ _ _ _ = _ => idtac | _ => unfold match_next, test_next, timed_next in Hl;
    simplify_option_eq; repeat (case_match; simplify_option_eq) end; unfold waited; cbn [own_at]; repeat case_match; auto; cbn [own_at].
  all: try (match goal with |- bool_decide ?P = false \/ _ => destruct (decide P) as [E|E];
    [right; left; by rewrite bool_decide_true|left; by rewrite bool_decide_false] end).
  all: try (left; by rewrite bool_decide_false).
  unfold deque_next in Hl. destruct (partners o' s) as [|k l]; injection Hl as <- <- <-; [|by destruct (decide _); left].
  cbn [own_at]. case_bool_decide as E; [|by left]. subst n. right. right. split; [done|]. split; [done|].
  destruct o'; cbn [enque nodes]; by rewrite length_app, Nat.add_1_r.
Qed.

(** What a thread expects when it starts to wait is so. *)
Lemma hand_local_expects n st ch t s p s' p' e :
  hand_local ch t s p = Some (s', p', e) -> expects p' = Some (n, st) ->
  (expects p = Some (n, st) \/ state_of n s = Some st) /\ state_of n s' = state_of n s.
Proof.
  intros Hl He. destruct ch as [o tm| |w], p as [|o' tm'|o' tm'|o' tm'|o' tm' m own|o' tm' m own|o' tm' m|o' tm' m|o' tm' m
    |o' tm' m|o' tm' m|o' tm' m w'|o' tm' m|v tm' m|o' m own ex|o' m r|o' tm' m|o' m r|i]; cbn [hand_local] in Hl; try done.
  all: match type of Hl with
       | test_next _ _ _ _ _ = _ => idtac
       | wait_next _ _ _ _ _ ≫= _ = _ => idtac
       | _ => unfold deque_next, match_next, timed_next in Hl;
              exfalso; simplify_option_eq; repeat (case_match; simplify_option_eq); done
       end.
  - unfold test_next in Hl. destruct (nodes s !! m) as [nd|] eqn:En; [|done]. cbn [mbind option_bind] in Hl.
    assert (state_of m s = Some (state_ nd)) as Est by (unfold state_of; by rewrite En).
    destruct o' as [v|]; [|case_decide as Ef]; injection Hl as <- <- <-; [|done|]; destruct (decide _) as [Es|Es]; try done;
      cbn [expects] in He; injection He as <- <-; rewrite Est; (split; [right|done]); [congruence|].
    f_equal. destruct (state_ nd); done.
  - destruct (wait_next w t tm' w' (mon_of m s)) as [[m0 out]|] eqn:Ew; [|done]. injection Hl as <- <- <-.
    assert (state_of n (with_node_mon m0 m s) = state_of n s) as ->.
    { apply quiet_state, quiet_node_mon. by apply wait_next_counts in Ew as [? _]. }
    split; [|done]. left. destruct out as [w''| |]; cbn [expects] in He; [|by destruct r, o'|done].
    clear -Ew He. destruct (mon_of m s) as [ow it wa]. destruct w'; cbn in Ew; simplify_option_eq;
      repeat (case_match; simplify_option_eq); try done.
Qed.
(** ** All threads *)

Lemma hand_next_inv ch t c c' :
  hand_next ch t c = Some c' ->
  exists p s p' e ts, threads c !! t = Some p /\ hand_local (fst ch) t (shared c) p = Some (s, p', e)
    /\ apply_signal e (snd ch) (<[t := p']> (threads c)) = Some ts /\ c' = mkConf s ts.
Proof.
  unfold hand_next. destruct (threads c !! t) as [p|] eqn:E1; [|done]. cbn [mbind option_bind].
  destruct (hand_local _ _ _ p) as [[[s p'] e]|] eqn:E2; [|done]. cbn [mbind option_bind].
  destruct (apply_signal _ _ _) as [ts|] eqn:E3; [|done]. intros [= <-]. by exists p, s, p', e, ts.
Qed.

(** Who is woken by a signal. *)
Lemma apply_signal_inv e k ts ts' :
  apply_signal e k ts = Some ts' ->
  (ts' = ts /\ forall n, e = Some n -> forall u q, ts !! u = Some q -> waits_at n q = false)
  \/ exists n j q, e = Some n /\ ts !! j = Some q /\ waits_at n q = true /\ ts' = <[j := wake_up q]> ts.
Proof.
  destruct e as [n|]; cbn; [|intros [= <-]; by left]. destruct k as [j|].
  - destruct (ts !! j) as [q|] eqn:Ej; [|done]. cbn [mbind option_bind]. destruct (waits_at n q) eqn:Ew; [|done].
    intros [= <-]. right. by exists n, j, q.
  - destruct (forallb _ ts) eqn:Eb; [|done]. intros [= <-]. left. split; [done|]. intros n' [= <-] u q Hq.
    rewrite forallb_forall in Eb. apply list_elem_of_lookup_2, list_elem_of_In, Eb in Hq. by destruct (waits_at n q).
Qed.

Lemma signal_lookup e k ts ts' i q :
  apply_signal e k ts = Some ts' -> ts' !! i = Some q -> exists p, ts !! i = Some p /\ (q = p \/ q = wake_up p).
Proof.
  intros [[-> _]|(n & j & q0 & _ & Hj & _ & ->)]%apply_signal_inv Hi; [eauto|].
  destruct (decide (i = j)) as [->|Hne].
  - rewrite list_lookup_insert_eq in Hi by (by eapply lookup_lt_Some). injection Hi as <-. eauto.
  - rewrite list_lookup_insert_ne in Hi by done. eauto.
Qed.

(** A function of program counters that waking does not change. *)
Lemma signal_fmap {A} (f : spc -> A) e k ts ts' :
  (forall p, f (wake_up p) = f p) -> apply_signal e k ts = Some ts' -> forall u, f <$> ts' !! u = f <$> ts !! u.
Proof.
  intros Hf [[-> _]|(n & j & q0 & _ & Hj & _ & ->)]%apply_signal_inv u; [done|].
  destruct (decide (u = j)) as [->|Hne].
  - rewrite list_lookup_insert_eq by (by eapply lookup_lt_Some). rewrite Hj. cbn. by rewrite Hf.
  - by rewrite list_lookup_insert_ne.
Qed.

Lemma signal_tcount (f : spc -> bool) e k l t p p' ts :
  (forall q, f (wake_up q) = f q) -> l !! t = Some p -> apply_signal e k (<[t := p']> l) = Some ts ->
  tcount f ts = tcount f l - b2z (f p) + b2z (f p').
Proof.
  intros Hf Hp He. rewrite <- (tcount_insert f l t p p') by done.
  destruct (apply_signal_inv _ _ _ _ He) as [[-> _]|(n & j & q0 & _ & Hj & _ & ->)]; [done|].
  rewrite (tcount_insert f _ _ _ _ Hj), Hf. lia.
Qed.

Ltac spc_cases := by intros [|o tm|o tm|o tm|o tm m own|o tm m own|o tm m|o tm m|o tm m|o tm m|o tm m
  |[v|] tm m []|o tm m|v tm m|o m own e|o m r|o tm m|o [m|] r|i].

Lemma told_wake s t p : told s t p -> told s t (wake_up p).
Proof. intros Ht. apply (told_forgets _ _ p); [done|]. revert p Ht. spc_cases. Qed.

Record hand_inv (c : conf channel spc) : Prop := {
  hv_good : good (shared c);
  hv_told : forall t p, threads c !! t = Some p -> told (shared c) t p;
  hv_claims : forall n, occ n (waitingConsumers (shared c)) + tcount (put_pending n) (threads c) + given n (gave (shared c))
    <= b2z (bool_decide (n < length (nodes (shared c)))%nat);
  hv_intact : interrupted_ (chan_mon (shared c)) = false -> tcount catching_up (threads c) = 0 /\ intact (shared c);
  hv_placed : placed (shared c);
  hv_about : forall t p n, threads c !! t = Some p -> about p = Some n -> (n < length (nodes (shared c)))%nat;
  hv_lock : forall n, lock_inv (mon_of n) (holds_at n) c;
  hv_own : forall n, tcount (own_at n) (threads c) <= 1;
  hv_expects : forall t p n st, threads c !! t = Some p -> expects p = Some (n, st) -> state_of n (shared c) = Some st;
}.

(** A thread found by the step of another: itself, or the other one unchanged or woken. *)
Lemma stepped_lookup e k l t p p' ts u q :
  l !! t = Some p -> apply_signal e k (<[t := p']> l) = Some ts -> ts !! u = Some q ->
  (u = t /\ (q = p' \/ q = wake_up p')) \/ (u <> t /\ exists q0, l !! u = Some q0 /\ (q = q0 \/ q = wake_up q0)).
Proof.
  intros Hp He Hu. destruct (signal_lookup _ _ _ _ _ _ He Hu) as (q0 & Hq0 & Hc).
  destruct (decide (u = t)) as [->|Hne].
  - rewrite list_lookup_insert_eq in Hq0 by (by eapply lookup_lt_Some). injection Hq0 as <-. by left.
  - rewrite list_lookup_insert_ne in Hq0 by done. right. eauto.
Qed.

Lemma pending_not_given c t p n :
  hand_inv c -> threads c !! t = Some p -> put_pending n p = true -> ~ gave_in n (shared c).
Proof.
  intros Hi Hp Hn Hg. pose proof (hv_claims _ Hi n) as Hc. pose proof (tcount_le_one (put_pending n) _ _ _ Hp) as H1.
  rewrite Hn in H1. assert (given n (gave (shared c)) = 1) as H2 by (unfold given; by rewrite bool_decide_true).
  assert (0 <= occ n (waitingConsumers (shared c))) as H3 by apply tcount_nonneg.
  pose proof (b2z_bounds (bool_decide (n < length (nodes (shared c)))%nat)). cbn [b2z] in H1. lia.
Qed.
Lemma wake_pending n p : put_pending n (wake_up p) = put_pending n p.
Proof. revert p. spc_cases. Qed.
Lemma wake_catching p : catching_up (wake_up p) = catching_up p.
Proof. revert p. spc_cases. Qed.
Lemma wake_own n p : own_at n (wake_up p) = own_at n p.
Proof. revert p. spc_cases. Qed.
Lemma wake_about p : about (wake_up p) = about p.
Proof. revert p. spc_cases. Qed.
Lemma wake_holds n p : holds_at n (wake_up p) = holds_at n p.
Proof. revert p. spc_cases. Qed.
Lemma wake_expects x p : expects (wake_up p) = Some x -> expects p = Some x.
Proof. revert p. spc_cases. Qed.

Lemma own_about n p : own_at n p = true -> about p = Some n.
Proof.
  destruct p as [|o tm|o tm|o tm|o tm m own|o tm m own|o tm m|o tm m|o tm m|o tm m|o tm m|o tm m w|o tm m|v tm m|o m own e|o m r
    |o tm m|o m r|i]; cbn; try done; try (by intros ->%bool_decide_eq_true); by destruct own; [intros ->%bool_decide_eq_true|].
Qed.

Lemma waits_own n p : waits_at n p = true -> own_at n p = true.
Proof. by destruct p as [| | | | | | | | | | |o tm m []| | | | | | |]. Qed.

(** A thread that expects something of a node owns its lock, or is blocked at it. *)
Lemma expects_holds n st p : expects p = Some (n, st) -> holds_at n p = true \/ waits_at n p = true.
Proof.
  destruct p as [| | | | | | | | | | |o tm m []| | | | | | |]; cbn; try done; intros [= <- _]; rewrite bool_decide_true by done; auto.
Qed.

Lemma own_step c t p s' p' e ch n :
  hand_inv c -> threads c !! t = Some p -> hand_local ch t (shared c) p = Some (s', p', e) ->
  tcount (own_at n) (<[t := p']> (threads c)) <= 1.
Proof.
  intros Hi Hp Hl. rewrite (tcount_insert _ _ _ _ _ Hp). pose proof (hv_own _ Hi n) as Ho.
  destruct (hand_local_own n _ _ _ _ _ _ _ Hl) as [->|[->|(Hf & Hn & Hlen)]].
  - pose proof (b2z_bounds (own_at n p)). cbn [b2z]. lia.
  - pose proof (b2z_bounds (own_at n p')). cbn [b2z]. lia.
  - assert (tcount (own_at n) (threads c) = 0) as ->.
    { apply tsum_zero. intros u q Hq. destruct (own_at n q) eqn:E; [|done]. apply own_about in E.
      apply (hv_about _ Hi u q n Hq) in E. lia. }
    rewrite Hf. pose proof (b2z_bounds (own_at n p')). cbn [b2z]. lia.
Qed.

Lemma claims_total c t p s' p' e ch n ts k :
  hand_inv c -> threads c !! t = Some p -> hand_local ch t (shared c) p = Some (s', p', e) ->
  apply_signal e k (<[t := p']> (threads c)) = Some ts ->
  occ n (waitingConsumers s') + tcount (put_pending n) ts + given n (gave s') <= b2z (bool_decide (n < length (nodes s'))%nat).
Proof.
  intros Hi Hp Hl He. pose proof (hv_claims _ Hi n) as Hc.
  rewrite (signal_tcount (put_pending n) _ _ _ _ _ _ _ (wake_pending n) Hp He).
  destruct (hand_local_claims _ _ _ _ _ _ _ n Hl) as [[Hlen Hcl]|[Hlen Hcl]]; unfold claims in Hcl; rewrite Hlen; [lia|].
  destruct (decide (n = length (nodes (shared c)))) as [->|Hne].
  - rewrite bool_decide_true in Hcl by done. rewrite bool_decide_false in Hc by lia. rewrite bool_decide_true by lia.
    cbn [b2z] in *. lia.
  - rewrite bool_decide_false in Hcl by done.
    rewrite (bool_decide_ext (n < S (length (nodes (shared c))))%nat (n < length (nodes (shared c)))%nat) by lia.
    cbn [b2z] in *. lia.
Qed.

(** A thread that expects something of a node is not disturbed by a step of another. *)
Lemma expects_step c t p s' p' e ch k ts u q n st :
  hand_inv c -> threads c !! t = Some p -> hand_local ch t (shared c) p = Some (s', p', e) ->
  apply_signal e k (<[t := p']> (threads c)) = Some ts ->
  ts !! u = Some q -> expects q = Some (n, st) -> state_of n s' = Some st.
Proof.
  intros Hi Hp Hl He Hu Hx.
  destruct (stepped_lookup _ _ _ _ _ _ _ _ _ Hp He Hu) as [[-> Hq]|(Hne & q0 & Hq0 & Hq)].
  - assert (expects p' = Some (n, st)) as Hx' by (destruct Hq as [->| ->]; [done|by apply wake_expects]).
    destruct (hand_local_expects _ _ _ _ _ _ _ _ _ Hl Hx') as [[Ho|Hs] ->]; [by apply (hv_expects _ Hi t p)|done].
  - assert (expects q0 = Some (n, st)) as Hx' by (destruct Hq as [->| ->]; [done|by apply wake_expects]).
    pose proof (hv_expects _ Hi u q0 n st Hq0 Hx') as Hst.
    destruct (hand_local_writes n _ _ _ _ _ _ _ Hl) as [->|[|[Hh ->]]]; [done|congruence|]. exfalso.
    destruct (expects_holds _ _ _ Hx') as [Hh'|Hw].
    { apply Hne. by apply (lock_inv_unique (mon_of n) (holds_at n) c t u p q0 (hv_lock _ Hi n)). }
    assert (<[t := p']> (threads c) !! u = Some q0) as Hu0 by (by rewrite list_lookup_insert_ne).
    destruct (apply_signal_inv _ _ _ _ He) as [[_ Hno]|(m & j & qj & [= <-] & Hj & Hwj & ->)].
    { by rewrite (Hno n eq_refl u q0 Hu0) in Hw. }
    destruct (decide (u = j)) as [->|Huj].
    + rewrite Hj in Hu0. injection Hu0 as ->. rewrite list_lookup_insert_eq in Hu by (by eapply lookup_lt_Some).
      injection Hu as <-. clear -Hx Hw. by destruct q0 as [| | | | | | | | | | |o tm m []| | | | | | |].
    + pose proof (own_step c t p s' p' _ ch n Hi Hp Hl) as H1.
      pose proof (tcount_two (own_at n) _ u j q0 qj Hu0 Hj Huj (waits_own _ _ Hw) (waits_own _ _ Hwj)). lia.
Qed.

Lemma hand_inv_step c c' : hand_inv c -> step hand_next c c' -> hand_inv c'.
Proof.
  intros Hi ([ch k] & t & Hn). apply hand_next_inv in Hn as (p & s & p' & e & ts & Hp & Hl & He & ->). cbn [fst snd] in *.
  pose proof (hv_good _ Hi) as Hg. pose proof (hv_told _ Hi _ _ Hp) as Ht.
  pose proof (fun n => pending_not_given c t p n Hi Hp) as Hpend.
  destruct (hand_local_fine _ _ _ _ _ _ _ Hl Hg Ht Hpend) as (Hg' & Hlat & Ht').
  destruct (hand_local_placed _ _ _ _ _ _ _ Hl (hv_placed _ Hi) (fun n => hv_about _ Hi t p n Hp)) as (Hpl & Hab & Hlen).
  split; cbn [shared threads].
  - exact Hg'.
  - intros u q Hu. destruct (stepped_lookup _ _ _ _ _ _ _ _ _ Hp He Hu) as [[-> Hq]|(_ & q0 & Hq0 & Hq)].
    + destruct Hq as [->| ->]; [done|by apply told_wake].
    + pose proof (told_later _ _ _ _ Hlat (hv_told _ Hi _ _ Hq0)). destruct Hq as [->| ->]; [done|by apply told_wake].
  - intros n. by apply (claims_total c t p s p' e ch n ts k).
  - intros Hint. destruct (hand_local_intact _ _ _ _ _ _ _ Hl Hg Ht Hpend Hint) as [Hold Hrest].
    destruct (hv_intact _ Hi Hold) as [Hz Hin]. rewrite (signal_tcount catching_up _ _ _ _ _ _ _ wake_catching Hp He).
    pose proof (tcount_le_one catching_up _ _ _ Hp) as H1. destruct (catching_up p) eqn:Ec; [cbn [b2z] in H1; lia|].
    destruct (Hrest eq_refl) as [-> Hk]. split; [cbn [b2z]; lia|by apply Hk].
  - exact Hpl.
  - intros u q n Hu Hq. destruct (stepped_lookup _ _ _ _ _ _ _ _ _ Hp He Hu) as [[-> Hc]|(_ & q0 & Hq0 & Hc)].
    + apply Hab. destruct Hc as [->| ->]; [done|]. by rewrite <- (wake_about p').
    + eapply Nat.lt_le_trans; [|exact Hlen]. apply (hv_about _ Hi u q0 n Hq0).
      destruct Hc as [->| ->]; [done|]. by rewrite <- (wake_about q0).
  - intros n. apply (lock_inv_update (mon_of n) (holds_at n) c t p s p' ts Hp).
    + apply (hand_local_lock n _ _ _ _ _ _ _ Hl). intros m Hm. by apply (hv_about _ Hi t p m Hp).
    + apply (signal_fmap (holds_at n) _ _ _ _ (wake_holds n) He).
    + apply (hv_lock _ Hi).
  - intros n. pose proof (own_step c t p s p' e ch n Hi Hp Hl) as H1. rewrite (tcount_insert _ _ _ _ _ Hp) in H1.
    by rewrite (signal_tcount (own_at n) _ _ _ _ _ _ _ (wake_own n) Hp He).
  - intros u q n st. by apply (expects_step c t p s p' e ch k ts u q n st Hi Hp Hl He).
Qed.

Lemma hand_inv_start n : hand_inv (hand_start n).
Proof.
  assert (forall t p, threads (hand_start n) !! t = Some p -> p = SIdle) as Hidle
    by (by intros t p [-> _]%lookup_replicate).
  assert (forall f : spc -> bool, f SIdle = false -> tcount f (threads (hand_start n)) = 0) as H0.
  { intros f Hf. apply tsum_zero. intros i x ->%Hidle. by rewrite Hf. }
  split.
  - split; cbn; try done; try (intros; simplify_eq; done); try constructor.
    + intros k []%elem_of_nil.
    + intros m Hm. by apply elem_of_nil in Hm.
  - intros t p ->%Hidle. by split.
  - intros m. rewrite H0 by done. unfold given. cbn. by rewrite bool_decide_false by (by intros ?%elem_of_nil).
  - intros _. rewrite H0 by done. split; [done|]. by intros g ?%elem_of_nil.
  - split; by intros m ?%elem_of_nil.
  - by intros t p m ->%Hidle.
  - intros m t. cbn. split; [done|]. by intros (p & ->%Hidle & ?).
  - intros m. by rewrite H0.
  - by intros t p m st ->%Hidle.
Qed.

Lemma hand_inv_reachable n c : reachable hand_next (hand_start n) c -> hand_inv c.
Proof. apply invariant; [apply hand_inv_start|intros c1 c2; apply hand_inv_step]. Qed.
(** ** Properties *)

(** C8 (liveness). No hand-over is missed: the node of a thread blocked in [take] is empty, and the
    node of one blocked in [put] is full; so when a partner has filled or emptied the node, or
    cancelled it, the thread has been woken. *)
Theorem handoff_no_lost_wakeup n c t o tm m :
  reachable hand_next (hand_start n) c -> threads c !! t = Some (SWait o tm m Waiting) ->
  state_of m (shared c) = Some (match o with Put _ => FULL | Take => EMPTY end).
Proof. intros Hc Ht. by apply (hv_expects _ (hand_inv_reachable _ _ Hc) t _ m _ Ht). Qed.
End handoff.

(** ** Schedules *)

Definition hand_choice : Type := @schoice Z * option nat.
Definition hgo (t : nat) : hand_choice * nat := ((SGo Spurious, None), t).
Definition hcall (o : @op Z) (t : nat) : hand_choice * nat := ((SCall o false, None), t).

Definition hand_after (sched : list (hand_choice * nat)) : conf (@channel Z) (@spc Z) :=
  default (hand_start 3) (run (hand_next 0) sched (hand_start 3)).

Lemma hand_after_reachable sched :
  is_Some (run (hand_next 0) sched (hand_start 3)) -> reachable (hand_next 0) (hand_start 3) (hand_after sched).
Proof. intros [c' E]. unfold hand_after. rewrite E. by apply run_reachable with sched. Qed.

(** Thread 0 waits in [take]; thread 1 finds its node and gives 7; thread 0 returns it. *)
Definition take_blocks : list (hand_choice * nat) := hcall Take 0 :: replicate 11 (hgo 0).
Definition put_seven : list (hand_choice * nat) :=
  take_blocks ++ hcall (Put 7) 1 :: replicate 6 (hgo 1) ++ [((SGo Spurious, Some 0%nat), 1%nat); hgo 1].
Definition seven_taken : list (hand_choice * nat) := put_seven ++ replicate 7 (hgo 0).
(** Thread 2 interrupts the channel. *)
Definition interrupt_by_2 : list (hand_choice * nat) := ((SCallInterrupt, None), 2%nat) :: replicate 3 (hgo 2).

Lemma take_blocked : threads (hand_after take_blocks) !! 0%nat = Some (SWait Take false 0 Waiting).
Proof. vm_compute. reflexivity. Qed.

(** An interruption wakes nobody who is blocked at a node: the interrupt has returned, the flag
    is set, and the [take] is still blocked. *)
Lemma interrupt_wakes_nobody :
  threads (hand_after (take_blocks ++ interrupt_by_2)) = [SWait Take false 0 Waiting; SIdle; SIdle]
  /\ interrupted_ (chan_mon (shared (hand_after (take_blocks ++ interrupt_by_2)))) = true.
Proof. vm_compute. by split. Qed.

(** An interruption after a [put] returned 0 and before the [take] has run drops the item. *)
Lemma interrupt_drops_item :
  threads (hand_after (put_seven ++ interrupt_by_2 ++ replicate 7 (hgo 0)))
  = [SDone Take (Some 0%nat) (RThrow InterruptedException); SDone (Put 7) (Some 0%nat) (RInt 0); SIdle]
  /\ taken (shared (hand_after (put_seven ++ interrupt_by_2 ++ replicate 7 (hgo 0)))) = [].
Proof. vm_compute. by split. Qed.

(** ** The theorems at concrete inputs *)

Lemma handoff_no_lost_wakeup_witness :
  let c := hand_after take_blocks in
  reachable (hand_next 0) (hand_start 3) c /\ threads c !! 0%nat = Some (SWait Take false 0 Waiting)
  /\ state_of 0 (shared c) = Some EMPTY.
Proof.
  intros c. assert (reachable (hand_next 0) (hand_start 3) c) as Hc
    by (apply hand_after_reachable; vm_compute; eexists; reflexivity).
  assert (threads c !! 0%nat = Some (SWait Take false 0 Waiting)) as H0 by (vm_compute; reflexivity).
  split; [exact Hc|]. split; [exact H0|]. exact (handoff_no_lost_wakeup 0 3 c 0 Take false 0 Hc H0).
Defined.
