(* ===== verification/HandOffOnce.v ===== *)
(** * Each call's item is handed over once: daf/SynchronousChannel_T

    A call of put may give its item to several nodes, one after the other: it leaves the item in a node of its own, and when a partner
    cancels that node it tries again.  Here the calls are counted: an item is taken no more often than put was called with it. *)

From S2P Require Import Prelude Threads Monitor HandOff.

Section once.
Context {T : Type} (dflt : T).
Implicit Types (s : @channel T) (p q : @spc T) (c : conf (@channel T) (@spc T)) (f : T -> bool).
#[local] Existing Instance node_state_eq_dec.

(** ** A producer's node has one partner *)

(** A node that a put made for its item. *)
Definition own_gift (n : nat) s : Prop := exists g, g ∈ gave s /\ g_node g = n /\ g_own g = true.

(** A thread that found the node of a producer. *)
Definition taker (n : nat) p : bool :=
  match p with
  | SUnlock Take _ m false | SNode Take _ m false | SCheck Take _ m | SMatch Take _ m | SCatch Take m false _ => bool_decide (m = n)
  | _ => false
  end.

(** A thread that is at the node of a consumer: a put that found it, or the take that made it. *)
Definition stranger (n : nat) p : bool :=
  match p with
  | SUnlock (Put _) _ m false | SNode (Put _) _ m false | SCheck (Put _) _ m | SMatch (Put _) _ m | SCatch (Put _) m false _
  | SUnlock Take _ m true | SNode Take _ m true | SLoop Take _ m | SIntr Take _ m | STest Take _ m | SWait Take _ m _ | STimed Take _ m
  | SCatch Take m true _ => bool_decide (m = n)
  | _ => false
  end.

Definition takings (n : nat) s : Z := b2z (bool_decide (n ∈ k_node <$> taken s)).

Ltac spc_cases := by intros [|o tm|o tm|o tm|o tm m own|o tm m own|o tm m|o tm m|o tm m|o tm m|o tm m
  |[v|] tm m []|o tm m|v tm m|o m own e|o m r|o tm m|o [m|] r|i].

Lemma wake_taker n p : taker n (wake_up p) = taker n p.
Proof. revert p. spc_cases. Qed.
Lemma wake_stranger n p : stranger n (wake_up p) = stranger n p.
Proof. revert p. spc_cases. Qed.
Lemma wake_own_put p : own_put (wake_up p) = own_put p.
Proof. revert p. spc_cases. Qed.

Lemma partner_about n p : taker n p = true \/ stranger n p = true -> about p = Some n.
Proof.
  destruct p as [|o tm|o tm|o tm|o tm m own|o tm m own|o tm m|o tm m|o tm m|o tm m|o tm m|o tm m w|o tm m|v tm m|o m own e|o m r|o tm m|o m r|i];
    cbn; try (by intros []); try destruct o; try destruct own; intros [E|E]; try done; by apply bool_decide_eq_true in E as ->.
Qed.

Lemma takings_snoc n (k : @catch T) l : b2z (bool_decide (n ∈ k_node <$> (l ++ [k]))) <= b2z (bool_decide (n ∈ k_node <$> l)) + b2z (bool_decide (k_node k = n)).
Proof.
  rewrite fmap_app. repeat case_bool_decide; cbn [b2z]; try lia. exfalso.
  match goal with H : n ∈ _ ++ _ |- _ => apply elem_of_app in H as [|Hn]; [done|] end. apply list_elem_of_singleton in Hn. done.
Qed.

Lemma occ_cons n m l : occ n (m :: l) = b2z (bool_decide (m = n)) + occ n l.
Proof. reflexivity. Qed.

(** What a step does to the partners of a node that is there. *)
Definition queue_step (n : nat) s s' p p' : Prop :=
  occ n (waitingConsumers s') + b2z (stranger n p') <= occ n (waitingConsumers s) + b2z (stranger n p)
  /\ (stranger n p = false ->
      occ n (waitingProducers s') + b2z (taker n p') + takings n s' <= occ n (waitingProducers s) + b2z (taker n p) + takings n s).

Lemma b2z_mono (a b : bool) : (a = true -> b = true) -> b2z a <= b2z b.
Proof. destruct a; [intros ->; [lia|done]|]. intros _. apply b2z_bounds. Qed.

Lemma same_queue n s s' p p' : waitingConsumers s' = waitingConsumers s -> waitingProducers s' = waitingProducers s -> taken s' = taken s ->
  (stranger n p' = true -> stranger n p = true) -> (taker n p' = true -> taker n p = true) -> queue_step n s s' p p'.
Proof.
  intros E1 E2 E3 H1 H2. apply b2z_mono in H1, H2. unfold queue_step, takings. rewrite E1, E2, E3. split; [lia|]. intros _. lia.
Qed.

Lemma get_queue n s m t v p p' : (stranger n p' = true -> stranger n p = true) -> taker n p' = false ->
  (stranger n p = false -> m = n -> taker n p = true) -> queue_step n s (do_get dflt v m t s) p p'.
Proof.
  intros H1 H2 H3. apply b2z_mono in H1. unfold queue_step, takings. cbn [do_get with_node waitingConsumers waitingProducers taken]. split; [lia|].
  intros Hs. rewrite H2. pose proof (takings_snoc n (mkCatch m v t) (taken s)) as Hk. cbn [k_node] in Hk.
  pose proof (b2z_bounds (taker n p)).
  destruct (decide (m = n)) as [E|E]; [rewrite (bool_decide_true (m = n)) in Hk by done; rewrite (H3 Hs E)|rewrite (bool_decide_false (m = n)) in Hk by done]; cbn [b2z] in *; lia.
Qed.

Lemma deque_queue n o tm t s s' p' e : deque_next dflt o tm t s = Some (s', p', e) -> (n < length (nodes s))%nat ->
  queue_step n s s' (SDeque o tm) p'.
Proof.
  unfold deque_next. intros Hl Hn. unfold queue_step, takings. destruct (partners o s) as [|m l] eqn:E; injection Hl as <- <- <-.
  - assert (bool_decide (length (nodes s) = n) = false) as Hne by (apply bool_decide_false; lia).
    destruct o as [v|]; cbn [enque waitingConsumers waitingProducers taken stranger taker]; rewrite ?occ_app, ?occ_cons, ?Hne; change (occ n []) with 0;
      cbn [b2z]; split; lia.
  - pose proof (b2z_bounds (bool_decide (m = n))).
    destruct o as [v|]; cbn [partners set_partners waitingConsumers waitingProducers taken] in *; rewrite E, occ_cons;
      destruct (decide _); cbn [stranger taker b2z]; split; lia.
Qed.

Ltac same_queue := apply same_queue; try done.

Lemma local_queue ch t s p s' p' e n : hand_local dflt ch t s p = Some (s', p', e) -> (n < length (nodes s))%nat -> queue_step n s s' p p'.
Proof.
  intros Hl Hn. destruct ch as [o tm| |w], p as [|o' tm'|o' tm'|o' tm'|o' tm' m own|o' tm' m own|o' tm' m|o' tm' m|o' tm' m
    |o' tm' m|o' tm' m|o' tm' m w'|o' tm' m|v tm' m|o' m own ex|o' m r|o' tm' m|o' m r|i]; cbn [hand_local] in Hl; try done.
  - injection Hl as <- <- <-. same_queue.
  - injection Hl as <- <- <-. same_queue.
  - injection Hl as <- <- <-. same_queue; by destruct (interrupted_ _).
  - destruct (lock t (chan_mon s)); [|done]. injection Hl as <- <- <-. same_queue.
  - by eapply deque_queue.
  - injection Hl as <- <- <-. same_queue.
  - destruct (lock t (mon_of m s)); [|done]. injection Hl as <- <- <-. same_queue; by destruct own, o'.
  - injection Hl as <- <- <-. same_queue; by destruct (interrupted_ _), o'.
  - unfold match_next in Hl. destruct (nodes s !! m) as [nd|]; [|done]. cbn [mbind option_bind] in Hl.
    destruct o' as [v|]; case_decide; injection Hl as <- <- <-; [same_queue|same_queue| |same_queue].
    apply get_queue; [done..|]. intros _ ->. cbn. by apply bool_decide_true.
  - injection Hl as <- <- <-. same_queue; by destruct (decide _), o'.
  - injection Hl as <- <- <-. same_queue; by destruct (interrupted_ _), o'.
  - unfold test_next in Hl. destruct (nodes s !! m) as [nd|]; [|done]. cbn [mbind option_bind] in Hl.
    destruct o' as [v|]; [|case_decide]; injection Hl as <- <- <-; [same_queue; by destruct (decide _)| |same_queue; by destruct (decide _)].
    apply get_queue; [done..|]. cbn. intros Hs ->. by rewrite bool_decide_true in Hs.
  - destruct (wait_next w t tm' w' (mon_of m s)) as [[m0 out]|]; [|done]. injection Hl as <- <- <-.
    same_queue; by destruct out as [|[]|], o'.
  - unfold timed_next in Hl. destruct (nodes s !! m) as [nd|]; [|done]. cbn [mbind option_bind] in Hl.
    destruct o' as [v|]; case_decide; injection Hl as <- <- <-; [same_queue|same_queue| |same_queue].
    apply get_queue; [done..|]. cbn. intros Hs ->. by rewrite bool_decide_true in Hs.
  - injection Hl as <- <- <-. same_queue; by destruct (decide _).
  - injection Hl as <- <- <-. same_queue; by destruct o'.
  - injection Hl as <- <- <-. same_queue.
  - injection Hl as <- <- <-. same_queue; by destruct o'.
  - injection Hl as <- <- <-. same_queue.
  - destruct (intr_next t i (chan_mon s)) as [[[m out] ef]|]; [|done]. injection Hl as <- <- <-. same_queue; by destruct out.
Qed.

(** ** What may be done to a node *)

Lemma own_gift_later s s' n : later s s' -> own_gift n s -> own_gift n s'.
Proof. intros [Hg _ _] (g & Hin & ?). exists g. split; [by apply Hg|done]. Qed.

(** A new node of a producer is the one that a put has just made. *)
Lemma local_gift ch t s p s' p' e n : hand_local dflt ch t s p = Some (s', p', e) -> own_gift n s' ->
  own_gift n s \/ exists v tm, p = SDeque (Put v) tm /\ s' = enque dflt (Put v) t s /\ p' = SUnlock (Put v) tm n true /\ n = length (nodes s).
Proof.
  intros Hl (g & Hin & Hn & Ho). assert (gave s' = gave s -> own_gift n s) as Hsame by (intros E; rewrite E in Hin; by exists g).
  destruct ch as [o tm| |w], p as [|o' tm'|o' tm'|o' tm'|o' tm' m own|o' tm' m own|o' tm' m|o' tm' m|o' tm' m
    |o' tm' m|o' tm' m|o' tm' m w'|o' tm' m|v tm' m|o' m own ex|o' m r|o' tm' m|o' m r|i]; cbn [hand_local] in Hl; try done.
  all: match type of Hl with
       | deque_next _ _ _ _ _ = _ => idtac | match_next _ _ _ _ _ _ = _ => idtac
       | _ => left; apply Hsame; unfold test_next, timed_next in Hl; simplify_option_eq; repeat (case_match; simplify_option_eq); done
       end.
  - unfold deque_next in Hl. destruct (partners o' s) as [|m l]; injection Hl as <- <- <-; [|left; apply Hsame; by destruct o'].
    destruct o' as [v|]; [|by left; apply Hsame]. apply elem_of_app in Hin as [Hin| ->%list_elem_of_singleton]; [left; by exists g|].
    right. cbn in Hn. subst n. by exists v, tm'.
  - unfold match_next in Hl. destruct (nodes s !! m) as [nd|]; [|done]. cbn [mbind option_bind] in Hl.
    left. destruct o' as [v|]; case_decide; injection Hl as <- <- <-; try by apply Hsame.
    apply elem_of_app in Hin as [Hin| ->%list_elem_of_singleton]; [by exists g|done].
Qed.

Lemma state_of_enque o t s n : (n < length (nodes s))%nat -> state_of n (enque dflt o t s) = state_of n s.
Proof.
  intros Hn. destruct o as [v|].
  - rewrite (state_of_snoc (enque dflt (Put v) t s) (nodes s) (full_node v) _ eq_refl), decide_False by lia. done.
  - rewrite (state_of_snoc (enque dflt Take t s) (nodes s) (empty_node dflt) _ eq_refl), decide_False by lia. done.
Qed.

(** Who cancels a node: one that is at a consumer's, one that found a producer's, or the one whose it is. *)
Lemma local_cancels ch t s p s' p' e n : hand_local dflt ch t s p = Some (s', p', e) -> good s -> (n < length (nodes s))%nat ->
  state_of n s' = Some CANCELLED -> state_of n s <> Some CANCELLED ->
  stranger n p = true \/ taker n p = true \/ exists v, own_put p = Some (v, n) /\ own_put p' = None.
Proof.
  intros Hl Hg Hn Hs' Hs. assert (forall h m nd, state_of n s' = state_of n (with_node h m s) -> nodes s !! m = Some nd -> state_ (h nd) <> CANCELLED -> False) as Hw.
  { intros h m nd E Em Hf. rewrite E, state_of_with_node in Hs'. destruct (decide (n = m)) as [->|]; [|done]. rewrite Em in Hs'. by injection Hs'. }
  assert (quiet s s' -> False) as Hq by (intros Hq; apply Hs; by rewrite <- (quiet_state _ _ n Hq)).
  destruct ch as [o tm| |w], p as [|o' tm'|o' tm'|o' tm'|o' tm' m own|o' tm' m own|o' tm' m|o' tm' m|o' tm' m
    |o' tm' m|o' tm' m|o' tm' m w'|o' tm' m|v tm' m|o' m own ex|o' m r|o' tm' m|o' m r|i]; cbn [hand_local] in Hl; try done.
  - injection Hl as <- <- <-. destruct Hq. by apply quiet_refl.
  - injection Hl as <- <- <-. destruct Hq. by apply quiet_refl.
  - injection Hl as <- <- <-. destruct Hq. by apply quiet_refl.
  - destruct (lock t (chan_mon s)); [|done]. injection Hl as <- <- <-. destruct Hq. by apply quiet_refl.
  - unfold deque_next in Hl. destruct (partners o' s) as [|m l]; injection Hl as <- <- <-; [by rewrite state_of_enque in Hs'|].
    destruct Hq. apply set_partners_quiet.
  - injection Hl as <- <- <-. destruct Hq. by apply quiet_refl.
  - destruct (lock t (mon_of m s)) as [m0|] eqn:El; [|done]. injection Hl as <- <- <-. destruct Hq. apply quiet_node_mon.
    by apply lock_counts in El as (_ & -> & _).
  - injection Hl as <- <- <-. destruct Hq. by apply quiet_refl.
  - unfold match_next in Hl. destruct (nodes s !! m) as [nd|] eqn:Em; [|done]. cbn [mbind option_bind] in Hl.
    destruct o' as [v|]; case_decide; injection Hl as <- <- <-; try (destruct Hq; by apply quiet_refl).
    + exfalso. apply (Hw (put_item dflt v) m nd eq_refl Em). unfold put_item.
      by rewrite (proj1 (set_state_free dflt FULL (mkNode (node_mon nd) v (state_ nd)) (good_free _ Hg _ _ Em))).
    + exfalso. apply (Hw (get_item dflt) m nd eq_refl Em). unfold get_item. by rewrite (proj1 (set_state_free dflt EMPTY nd (good_free _ Hg _ _ Em))).
  - injection Hl as <- <- <-. destruct Hq. by apply quiet_refl.
  - injection Hl as <- <- <-. destruct Hq. by apply quiet_refl.
  - unfold test_next in Hl. destruct (nodes s !! m) as [nd|] eqn:Em; [|done]. cbn [mbind option_bind] in Hl.
    destruct o' as [v|]; [|case_decide]; injection Hl as <- <- <-; try (destruct Hq; by apply quiet_refl).
    exfalso. apply (Hw (get_item dflt) m nd eq_refl Em). unfold get_item. by rewrite (proj1 (set_state_free dflt EMPTY nd (good_free _ Hg _ _ Em))).
  - destruct (wait_next w t tm' w' (mon_of m s)) as [[m0 out]|] eqn:Ew; [|done]. injection Hl as <- <- <-. destruct Hq. apply quiet_node_mon.
    by apply wait_next_counts in Ew as [-> _].
  - unfold timed_next in Hl. destruct (nodes s !! m) as [nd|] eqn:Em; [|done]. cbn [mbind option_bind] in Hl.
    destruct (decide (n = m)) as [->|Hne]; [|exfalso; destruct o' as [v|]; case_decide; injection Hl as <- <- <-; apply Hs; rewrite <- Hs'; try done;
      unfold state_of, do_get, with_node; cbn [nodes]; by rewrite list_lookup_alter_ne].
    destruct o' as [v|]; [right; right; exists v|left; cbn; by apply bool_decide_true]. split; [done|].
    case_decide; injection Hl as <- <- <-; [by destruct (interrupted_ _)|]. done.
  - injection Hl as <- <- <-. destruct Hq. by apply quiet_refl.
  - injection Hl as <- <- <-. destruct (decide (n = m)) as [->|Hne]; [|exfalso; apply Hs; by rewrite state_of_with_node, decide_False in Hs'].
    destruct o' as [v|], own; cbn [stranger taker own_put]; rewrite ?bool_decide_true by done; eauto.
  - injection Hl as <- <- <-. destruct Hq. by apply quiet_node_mon.
  - injection Hl as <- <- <-. destruct Hq. by apply quiet_node_mon.
  - injection Hl as <- <- <-. destruct Hq. by apply quiet_refl.
  - destruct (intr_next t i (chan_mon s)) as [[[m out] ef]|]; [|done]. injection Hl as <- <- <-. destruct Hq. by apply quiet_refl.
Qed.

(** An item is taken by emptying its node. *)
Lemma local_take ch t s p s' p' e : hand_local dflt ch t s p = Some (s', p', e) ->
  taken s' = taken s \/ exists v n nd, s' = do_get dflt v n t s /\ nodes s !! n = Some nd.
Proof.
  intros Hl. destruct ch as [o tm| |w], p as [|o' tm'|o' tm'|o' tm'|o' tm' m own|o' tm' m own|o' tm' m|o' tm' m|o' tm' m
    |o' tm' m|o' tm' m|o' tm' m w'|o' tm' m|v tm' m|o' m own ex|o' m r|o' tm' m|o' m r|i]; cbn [hand_local] in Hl; try done.
  all: match type of Hl with deque_next _ _ _ _ _ = _ => idtac | _ => unfold match_next, test_next, timed_next in Hl;
    simplify_option_eq; repeat (case_match; simplify_option_eq) end; try (by left); try (right; by eexists _, _, _).
  unfold deque_next in Hl. destruct (partners o' s); injection Hl as <- <- <-; left; by destruct o'.
Qed.

Lemma local_own_put ch t s p s' p' e x : hand_local dflt ch t s p = Some (s', p', e) -> own_put p' = Some x ->
  own_put p = Some x \/ snd x = length (nodes s).
Proof.
  intros Hl. destruct ch as [o tm| |w], p as [|o' tm'|o' tm'|o' tm'|o' tm' m own|o' tm' m own|o' tm' m|o' tm' m|o' tm' m
    |o' tm' m|o' tm' m|o' tm' m w'|o' tm' m|v tm' m|o' m own ex|o' m r|o' tm' m|o' m r|i]; cbn [hand_local] in Hl; try done.
  all: match type of Hl with deque_next _ _ _ _ _ = _ => idtac | _ => unfold match_next, test_next, timed_next in Hl;
    simplify_option_eq; repeat (case_match; simplify_option_eq) end; try done; try (by left); unfold waited; try (repeat case_match; intros; simplify_eq; by left).
  unfold deque_next in Hl. destruct (partners o' s); injection Hl as <- <- <-; [|by destruct (decide _), o']. destruct o'; [|done]. intros [= <-]. by right.
Qed.

(** ** The invariant *)

Record once_inv c : Prop := {
  ov_queue : forall n, own_gift n (shared c) ->
    occ n (waitingConsumers (shared c)) + tcount (stranger n) (threads c) = 0
    /\ occ n (waitingProducers (shared c)) + tcount (taker n) (threads c) + takings n (shared c) <= 1;
  ov_own : forall t p v n, threads c !! t = Some p -> own_put p = Some (v, n) -> state_of n (shared c) = Some CANCELLED ->
    ~ taken_from n (shared c);
}.

Lemma own_gift_bound s n : good s -> own_gift n s -> (n < length (nodes s))%nat.
Proof. intros Hg (g & Hin & <- & _). apply (good_bound _ Hg). by apply list_elem_of_fmap_2. Qed.

Lemma taken_bound s n : good s -> taken_from n s -> (n < length (nodes s))%nat.
Proof.
  intros Hg (k & -> & Hk)%list_elem_of_fmap. destruct (good_taken _ Hg k Hk) as (g & Hin & <- & _). apply (good_bound _ Hg). by apply list_elem_of_fmap_2.
Qed.

Lemma occ_nonneg n l : 0 <= occ n l.
Proof. apply tcount_nonneg. Qed.

Lemma occ_absent n l : n ∉ l -> occ n l = 0.
Proof.
  intros Hn. apply tsum_zero. intros i x Hx. rewrite bool_decide_false; [done|]. intros ->. apply Hn. by eapply list_elem_of_lookup_2.
Qed.

Lemma count_new (h : @spc T -> bool) c n : hand_inv c -> n = length (nodes (shared c)) -> (forall p, h p = true -> about p = Some n) -> tcount h (threads c) = 0.
Proof.
  intros Hi -> Hh. apply tsum_zero. intros u q Hq. destruct (h q) eqn:E; [|done]. apply Hh in E. apply (hv_about _ Hi u q _ Hq) in E. lia.
Qed.

Lemma queue_after c t p s' p' e ch k ts n : hand_inv c -> once_inv c -> threads c !! t = Some p -> hand_local dflt ch t (shared c) p = Some (s', p', e) ->
  apply_signal e k (<[t := p']> (threads c)) = Some ts -> own_gift n s' ->
  occ n (waitingConsumers s') + tcount (stranger n) ts = 0 /\ occ n (waitingProducers s') + tcount (taker n) ts + takings n s' <= 1.
Proof.
  intros Hi Ho Hp Hl He Hn. pose proof (hv_good _ Hi) as Hg.
  rewrite (signal_tcount (stranger n) _ _ _ _ _ _ _ (wake_stranger n) Hp He), (signal_tcount (taker n) _ _ _ _ _ _ _ (wake_taker n) Hp He).
  destruct (local_gift _ _ _ _ _ _ _ _ Hl Hn) as [Hold|(v & tm & -> & -> & -> & ->)].
  - destruct (ov_queue _ Ho n Hold) as [H1 H2]. destruct (local_queue _ _ _ _ _ _ _ n Hl (own_gift_bound _ _ Hg Hold)) as [Q1 Q2].
    pose proof (tcount_le_one (stranger n) _ _ _ Hp) as Hs. pose proof (occ_nonneg n (waitingConsumers (shared c))).
    pose proof (occ_nonneg n (waitingConsumers s')). pose proof (tcount_nonneg (stranger n) (threads c)).
    assert (stranger n p = false) as Hf by (destruct (stranger n p); [cbn [b2z] in Hs; lia|done]).
    specialize (Q2 Hf). rewrite Hf in *. cbn [b2z] in *. pose proof (b2z_bounds (stranger n p')). lia.
  - set (n := length (nodes (shared c))). rewrite !(count_new _ c n Hi eq_refl) by (intros q E; apply partner_about; auto).
    destruct (hv_placed _ Hi) as [Hpr Hco].
    assert (takings n (shared c) = 0) as Hk by (unfold takings; rewrite bool_decide_false; [done|]; intros Hk%(taken_bound _ _ Hg); subst n; lia).
    unfold takings in *. cbn [enque waitingConsumers waitingProducers taken stranger taker b2z]. rewrite Hk, occ_app, occ_cons, bool_decide_true by done.
    change (occ n []) with 0. rewrite !occ_absent.
    + cbn [b2z]. lia.
    + intros Hin%Hpr. subst n. lia.
    + intros Hin%Hco. subst n. lia.
Qed.

Lemma own_after c t p s' p' e ch k ts u q v n : hand_inv c -> once_inv c -> threads c !! t = Some p -> hand_local dflt ch t (shared c) p = Some (s', p', e) ->
  apply_signal e k (<[t := p']> (threads c)) = Some ts -> later (shared c) s' ->
  ts !! u = Some q -> own_put q = Some (v, n) -> state_of n s' = Some CANCELLED -> ~ taken_from n s'.
Proof.
  intros Hi Ho Hp Hl He Hlat Hu Hq Hs' Ht'. pose proof (hv_good _ Hi) as Hg.
  assert (taken_from n (shared c)) as Ht.
  { destruct (local_take _ _ _ _ _ _ _ Hl) as [E|(v0 & m & nd & -> & Hm)]; [unfold taken_from in *; by rewrite E in Ht'|].
    unfold taken_from in Ht'. cbn [do_get taken] in Ht'. rewrite fmap_app in Ht'. apply elem_of_app in Ht' as [?|E]; [done|].
    apply list_elem_of_singleton in E. cbn in E. subst m. exfalso.
    change (state_of n (with_node (get_item dflt) n (shared c)) = Some CANCELLED) in Hs'. rewrite state_of_with_node, decide_True, Hm in Hs' by done.
    cbn [fmap option_fmap option_map] in Hs'. unfold get_item in Hs'. by rewrite (proj1 (set_state_free dflt EMPTY nd (good_free _ Hg _ _ Hm))) in Hs'. }
  pose proof (taken_bound _ _ Hg Ht) as Hn.
  (* the thread was at its node before *)
  assert (exists q0, threads c !! u = Some q0 /\ own_put q0 = Some (v, n) /\ (u = t -> own_put p' = Some (v, n))) as (q0 & Hu0 & Hq0 & Hut).
  { destruct (stepped_lookup _ _ _ _ _ _ _ _ _ Hp He Hu) as [[-> Hc]|(Hne & q0 & Hq0 & Hc)].
    - assert (own_put p' = Some (v, n)) as Hx by (destruct Hc as [->| ->]; [done|by rewrite wake_own_put in Hq]). exists p. split; [done|]. split; [|done].
      destruct (local_own_put _ _ _ _ _ _ _ _ Hl Hx) as [|E]; [done|]. cbn in E. lia.
    - exists q0. split; [done|]. split; [|done]. destruct Hc as [->| ->]; [done|by rewrite wake_own_put in Hq]. }
  destruct (decide (state_of n (shared c) = Some CANCELLED)) as [Hs|Hs]; [by apply (ov_own _ Ho u q0 v n)|].
  pose proof (told_own _ _ _ (hv_told _ Hi u q0 Hu0) v n Hq0) as Hgift.
  destruct (ov_queue _ Ho n ltac:(by eexists)) as [H1 H2]. unfold takings in H2. rewrite bool_decide_true in H2 by exact Ht. cbn [b2z] in H2.
  pose proof (occ_nonneg n (waitingConsumers (shared c))). pose proof (occ_nonneg n (waitingProducers (shared c))).
  destruct (local_cancels _ _ _ _ _ _ _ n Hl Hg Hn Hs' Hs) as [E|[E|(v' & E & E')]].
  - pose proof (tcount_le_one (stranger n) _ _ _ Hp) as Hc. rewrite E in Hc. cbn [b2z] in Hc. lia.
  - pose proof (tcount_le_one (taker n) _ _ _ Hp) as Hc. rewrite E in Hc. cbn [b2z] in Hc. lia.
  - pose proof (told_own _ _ _ (hv_told _ Hi t p Hp) v' n E) as Hgift'.
    pose proof (gift_unique _ _ _ Hg Hgift Hgift' eq_refl) as Eg. injection Eg as _ ->. by rewrite (Hut eq_refl) in E'.
Qed.

(** ** The budget of the calls *)

(** A call of put that has its item to give. *)
Definition to_give p : option T :=
  match p with
  | STop (Put v) _ | SLock (Put v) _ | SDeque (Put v) _ | SRetry (Put v) _ _ | SUnlock (Put v) _ _ false | SNode (Put v) _ _ false
  | SCheck (Put v) _ _ | SMatch (Put v) _ _ => Some v
  | _ => None
  end.

Definition owes f p : Z := match to_give p with Some v => b2z (f v) | None => 0 end.

(** A gift that has been taken, or may be, or whose giver has yet to find it cancelled. *)
Definition live f c (g : @gift T) : bool :=
  f (g_item g) && (bool_decide (g_node g ∈ k_node <$> taken (shared c)) || negb (bool_decide (state_of (g_node g) (shared c) = Some CANCELLED))
                   || bool_decide (snd <$> (threads c !! g_by g ≫= own_put) = Some (g_node g))).

Definition budget f c : Z := tcount (live f c) (gave (shared c)) + tsum (owes f) (threads c).

Definition called (ch : @schoice T) : option T := match ch with SCall (Put v) _ => Some v | _ => None end.
Definition cost f (ch : @schoice T) : Z := match called ch with Some v => b2z (f v) | None => 0 end.

(** A step leaves the gifts and what the thread has to give alone, turns the one into the other, or is a call. *)
Lemma local_budget f ch t s p s' p' e : hand_local dflt ch t s p = Some (s', p', e) ->
  (gave s' = gave s /\ owes f p' <= owes f p + cost f ch)
  \/ (exists g, gave s' = gave s ++ [g] /\ owes f p = b2z (f (g_item g)) /\ owes f p' = 0)
  \/ exists v tm n, p = SLoop (Put v) tm n /\ p' = SRetry (Put v) tm n /\ s' = s /\ state_of n s = Some CANCELLED.
Proof.
  intros Hl. unfold owes, cost. assert (forall x : option T, 0 <= match x with Some v => b2z (f v) | None => 0 end) as H0 by (intros [v|]; [apply b2z_bounds|done]).
  destruct ch as [o tm| |w], p as [|o' tm'|o' tm'|o' tm'|o' tm' m own|o' tm' m own|o' tm' m|o' tm' m|o' tm' m
    |o' tm' m|o' tm' m|o' tm' m w'|o' tm' m|v tm' m|o' m own ex|o' m r|o' tm' m|o' m r|i]; cbn [hand_local] in Hl; try done.
  all: match type of Hl with deque_next _ _ _ _ _ = _ => idtac | match_next _ _ _ _ _ _ = _ => idtac
    | Some (_, (if decide (state_of _ _ = Some CANCELLED) then SRetry _ _ _ else _), _) = _ => idtac | _ => left; unfold test_next, timed_next in Hl;
    simplify_option_eq; repeat (case_match; simplify_option_eq) end; try done.
  all: try (split; [done|]; try lia; try (specialize (H0 (Some t0)); cbn in H0; lia)).
  - unfold deque_next in Hl. destruct (partners o' s) as [|m l]; injection Hl as <- <- <-; [|left; split; [by destruct o'|destruct (decide _), o'; cbn; lia]].
    destruct o' as [v|]; [right; left; by eexists|by left].
  - unfold match_next in Hl. destruct (nodes s !! m) as [nd|]; [|done]. cbn [mbind option_bind] in Hl.
    destruct o' as [v|]; case_decide; injection Hl as <- <- <-; [right; left; by eexists|left..]; (split; [done|cbn; lia]).
  - injection Hl as <- <- <-. destruct (decide _) as [E|E]; [|by left]. destruct o' as [v|]; [|by left]. right. right. by exists v, tm', m.
  - match goal with H : to_give (waited _ _ _ ?r) = _ |- _ => by destruct r, o' end.
Qed.

Lemma tcount_mono {A} (h h' : A -> bool) l : (forall x, x ∈ l -> h' x = true -> h x = true) -> tcount h' l <= tcount h l.
Proof. intros H. apply tsum_le. intros i x Hi. apply b2z_mono, H. by eapply list_elem_of_lookup_2. Qed.

(** And an element that is not counted any more. *)
Lemma tcount_drop {A} (h h' : A -> bool) l x : x ∈ l -> h' x = false -> (forall y, y ∈ l -> h' y = true -> h y = true) ->
  tcount h' l + b2z (h x) <= tcount h l.
Proof.
  intros Hx Hf H. induction l as [|y l IH]; [by apply elem_of_nil in Hx|]. rewrite !tcount_cons.
  assert (forall z, z ∈ l -> h' z = true -> h z = true) as Hl by (intros z Hz; apply H; by right).
  apply elem_of_cons in Hx as [<-|Hx]; [rewrite Hf; pose proof (tcount_mono h h' l Hl); cbn [b2z]; lia|].
  specialize (IH Hx Hl). assert (b2z (h' y) <= b2z (h y)) by (apply b2z_mono, H; by left). lia.
Qed.

(** A gift that is not counted is not counted again. *)
Lemma live_later f c t p s' p' e ch k ts g : hand_inv c -> threads c !! t = Some p -> hand_local dflt ch t (shared c) p = Some (s', p', e) ->
  apply_signal e k (<[t := p']> (threads c)) = Some ts -> later (shared c) s' -> g ∈ gave (shared c) ->
  live f (mkConf s' ts) g = true -> live f c g = true.
Proof.
  intros Hi Hp Hl He [_ _ Hc] Hin. unfold live. cbn [shared threads]. rewrite !andb_true_iff, !orb_true_iff, !negb_true_iff, !bool_decide_eq_true, !bool_decide_eq_false.
  intros [Hf Hor]. split; [done|]. destruct (decide (state_of (g_node g) (shared c) = Some CANCELLED)) as [Hs|Hs]; [|by left; right].
  destruct (Hc _ Hs) as [Hs' Ht]. destruct Hor as [[Hk|Hn]|Hx]; [left; left; by apply Ht|done|]. right.
  pose proof (good_bound _ (hv_good _ Hi) (g_node g) ltac:(by apply list_elem_of_fmap_2)) as Hb.
  destruct (ts !! g_by g) as [q|] eqn:Eq; [|done]. cbn in Hx. apply fmap_Some in Hx as (x & Hx & Hxn).
  destruct (stepped_lookup _ _ _ _ _ _ _ _ _ Hp He Eq) as [[-> Hq]|(Hne & q0 & Hq0 & Hq)].
  - rewrite Hp. cbn. assert (own_put p' = Some x) as Hx' by (destruct Hq as [->| ->]; [done|by rewrite wake_own_put in Hx]).
    destruct (local_own_put _ _ _ _ _ _ _ _ Hl Hx') as [->|E]; [by rewrite Hxn|lia].
  - rewrite Hq0. cbn. assert (own_put q0 = Some x) as -> by (destruct Hq as [->| ->]; [done|by rewrite wake_own_put in Hx]). by rewrite Hxn.
Qed.

Lemma wake_owes f p : owes f (wake_up p) = owes f p.
Proof. revert p. spc_cases. Qed.

Lemma owes_total f e k l t p p' ts : l !! t = Some p -> apply_signal e k (<[t := p']> l) = Some ts ->
  tsum (owes f) ts = tsum (owes f) l - owes f p + owes f p'.
Proof.
  intros Hp He. rewrite <- (tsum_insert (owes f) l t p p' Hp).
  destruct (apply_signal_inv _ _ _ _ He) as [[-> _]|(n & j & q & _ & Hj & _ & ->)]; [done|]. rewrite (tsum_insert _ _ _ _ _ Hj), wake_owes. lia.
Qed.

Lemma budget_step f c ch k t c' : hand_inv c -> once_inv c -> hand_next dflt (ch, k) t c = Some c' -> budget f c' <= budget f c + cost f ch.
Proof.
  intros Hi Ho Hn. apply hand_next_inv in Hn as (p & s' & p' & e & ts & Hp & Hl & He & ->). cbn [fst snd] in *. unfold budget. cbn [shared threads].
  rewrite (owes_total _ _ _ _ _ _ _ _ Hp He).
  destruct (hand_local_fine _ _ _ _ _ _ _ _ Hl (hv_good _ Hi) (hv_told _ Hi _ _ Hp) (fun n => pending_not_given c t p n Hi Hp)) as (_ & Hlat & _).
  pose proof (fun g => live_later f c t p s' p' e ch k ts g Hi Hp Hl He Hlat) as Hlive.
  assert (0 <= cost f ch) as Hcost by (unfold cost; destruct (called ch); [apply b2z_bounds|done]).
  destruct (local_budget f _ _ _ _ _ _ _ Hl) as [[-> Hw]|[(g & -> & Hw & ->)|(v & tm & n & -> & -> & -> & Hs)]].
  - pose proof (tcount_mono _ _ _ Hlive). lia.
  - rewrite tcount_app, tcount_cons, tcount_nil. pose proof (tcount_mono _ _ _ Hlive).
    assert (b2z (live f (mkConf s' ts) g) <= b2z (f (g_item g))) by (apply b2z_mono; by intros [? _]%andb_true_iff). lia.
  - pose proof (told_own _ _ _ (hv_told _ Hi _ _ Hp) v n eq_refl) as Hg.
    assert (live f (mkConf (shared c) ts) (mkGift n v t true) = false) as Hdead.
    { unfold live. cbn [shared threads g_item g_node g_by]. rewrite (bool_decide_true _ Hs).
      rewrite bool_decide_false by exact (ov_own _ Ho t _ v n Hp eq_refl Hs). rewrite bool_decide_false; [by destruct (f v)|].
      destruct (ts !! t) as [q|] eqn:Eq; [|done]. destruct (stepped_lookup _ _ _ _ _ _ _ _ _ Hp He Eq) as [[_ Hq]|[? _]]; [|done].
      destruct Hq as [->| ->]; cbn; done. }
    pose proof (tcount_drop _ _ _ _ Hg Hdead Hlive) as Hd. assert (live f c (mkGift n v t true) = f v) as Ef.
    { unfold live. cbn [g_item g_node g_by]. rewrite Hp. cbn [mbind option_bind own_put fmap option_fmap option_map snd].
      rewrite (bool_decide_true (Some n = Some n)) by done. by rewrite orb_true_r, andb_true_r. }
    rewrite Ef in Hd. unfold owes at 2 3. cbn [to_give]. lia.
Qed.

Lemma once_inv_step c ch k t c' : hand_inv c -> once_inv c -> hand_next dflt (ch, k) t c = Some c' -> once_inv c'.
Proof.
  intros Hi Ho Hn. apply hand_next_inv in Hn as (p & s' & p' & e & ts & Hp & Hl & He & ->). cbn [fst snd] in *.
  destruct (hand_local_fine _ _ _ _ _ _ _ _ Hl (hv_good _ Hi) (hv_told _ Hi _ _ Hp) (fun n => pending_not_given c t p n Hi Hp)) as (_ & Hlat & _).
  split; cbn [shared threads].
  - intros n. by apply (queue_after c t p s' p' e ch k ts n).
  - intros u q v n Hu Hq Hs. by apply (own_after c t p s' p' e ch k ts u q v n).
Qed.

Lemma once_inv_start n : once_inv (hand_start n).
Proof. split; cbn; [intros m (g & Hg & _); by apply elem_of_nil in Hg|]. by intros t p v m [-> _]%lookup_replicate. Qed.

(** The items that a schedule's calls of put are given. *)
Definition put_calls (sched : list ((@schoice T * option nat) * nat)) : list T := omap (fun x => called (fst (fst x))) sched.

Lemma budget_run f sched c c' : run (hand_next dflt) sched c = Some c' -> hand_inv c -> once_inv c ->
  once_inv c' /\ budget f c' <= budget f c + tcount f (put_calls sched).
Proof.
  revert c. induction sched as [|[[ch k] t] sched IH]; intros c; cbn [run].
  - intros [= <-] _ Ho. split; [done|]. change (tcount f (put_calls [])) with 0. lia.
  - destruct (hand_next dflt (ch, k) t c) as [c1|] eqn:E; [|done]. intros Hr Hi Ho.
    destruct (IH c1 Hr) as [H1 H2]; [eapply hand_inv_step; [done|by exists (ch, k), t]|by eapply once_inv_step|]. split; [done|].
    pose proof (budget_step f c ch k t c1 Hi Ho E) as Hb. assert (tcount f (put_calls (((ch, k), t) :: sched)) = cost f ch + tcount f (put_calls sched)) as ->; [|lia].
    unfold put_calls, cost. cbn. by destruct (called ch).
Qed.

(** What was taken are gifts, each taken once. *)
Lemma taken_gifts f (l : list (@catch T)) (G : list (@gift T)) : NoDup (k_node <$> l) ->
  (forall k, k ∈ l -> exists g, g ∈ G /\ g_node g = k_node k /\ g_item g = k_item k) ->
  tcount f (k_item <$> l) <= tcount (fun g => f (g_item g) && bool_decide (g_node g ∈ k_node <$> l)) G.
Proof.
  induction l as [|k l IH]; intros Hnd Hg; [apply tcount_nonneg|]. apply NoDup_cons in Hnd as [Hk Hnd].
  destruct (Hg k ltac:(by left)) as (g & Hin & En & Ei). cbn [fmap list_fmap]. rewrite tcount_cons.
  specialize (IH Hnd (fun k' Hk' => Hg k' (list_elem_of_further _ _ _ Hk'))).
  pose proof (tcount_drop (fun g => f (g_item g) && bool_decide (g_node g ∈ k_node k :: (k_node <$> l)))
    (fun g => f (g_item g) && bool_decide (g_node g ∈ k_node <$> l)) G g Hin) as Hd. cbv beta in Hd.
  rewrite En, Ei, (bool_decide_false (k_node k ∈ k_node <$> l)), (bool_decide_true (k_node k ∈ k_node k :: _)), andb_true_r in Hd by (done || by left).
  enough (tcount (fun g => f (g_item g) && bool_decide (g_node g ∈ k_node <$> l)) G + b2z (f (k_item k))
    <= tcount (fun g => f (g_item g) && bool_decide (g_node g ∈ k_node k :: (k_node <$> l))) G) by lia.
  apply Hd; [by rewrite andb_false_r|]. intros y _. rewrite !andb_true_iff, !bool_decide_eq_true. intros [? ?]. split; [done|by right].
Qed.

(** ** The property *)

(** C7 (safety). Every item is handed over at most once and to one thread: of the items with any property, no more are taken than calls of
    [put] were made with such items, however often a call tries again, so that no call gives its item twice; no node is filled or
    emptied twice, and what is taken out of a node is what was put into it. A [take] returns an item
    that it took itself. A [put] that returns 0 has given its item: it has been taken, or it was put
    into the node of a waiting [take], where it stays until it is taken unless the channel is
    interrupted. A [put] that returns -1 keeps its item: the node is cancelled and nobody took it. *)
Theorem handoff_once n sched c :
  run (hand_next dflt) sched (hand_start n) = Some c ->
  (forall f, tcount f (k_item <$> taken (shared c)) <= tcount f (put_calls sched))
  /\ NoDup (g_node <$> gave (shared c)) /\ NoDup (k_node <$> taken (shared c))
  /\ (forall k, k ∈ taken (shared c) -> exists g, g ∈ gave (shared c) /\ g_node g = k_node k /\ g_item g = k_item k)
  /\ (forall t o m v, threads c !! t = Some (SDone o (Some m) (RItem v)) -> mkCatch m v t ∈ taken (shared c))
  /\ (forall t v m, threads c !! t = Some (SDone (Put v) (Some m) (RInt 0)) ->
       exists own, mkGift m v t own ∈ gave (shared c)
       /\ (taken_from m (shared c)
           \/ (own = false /\ (interrupted_ (chan_mon (shared c)) = false -> state_of m (shared c) = Some FULL))))
  /\ (forall t v m, threads c !! t = Some (SDone (Put v) (Some m) (RInt (-1))) ->
       state_of m (shared c) = Some CANCELLED /\ ~ taken_from m (shared c)).
Proof.
  intros Hr. pose proof (hand_inv_reachable dflt _ _ (run_reachable _ _ _ _ Hr)) as Hi. pose proof (hv_good _ Hi) as Hg.
  split.
  { intros f. destruct (budget_run f _ _ _ Hr (hand_inv_start n) (once_inv_start n)) as [_ Hb].
    pose proof (taken_gifts f _ _ (good_taken_once _ Hg) (good_taken _ Hg)) as Ht.
    assert (budget f (hand_start n) = 0) as H0 by (unfold budget; rewrite (tsum_zero (owes f)); [done|by intros i x [-> _]%lookup_replicate]).
    assert (0 <= tsum (owes f) (threads c)) by (apply tsum_nonneg; intros p; unfold owes; destruct (to_give p); [apply b2z_bounds|done]).
    unfold budget in Hb at 1. assert (tcount (fun g => f (g_item g) && bool_decide (g_node g ∈ k_node <$> taken (shared c))) (gave (shared c))
      <= tcount (live f c) (gave (shared c))); [|lia].
    apply tcount_mono. intros g _ [? E]%andb_true_iff. unfold live. by rewrite E, andb_true_r. }
  split; [apply Hg|]. split; [apply Hg|]. split; [apply Hg|]. split; [|split].
  - intros t o m v Ht. by apply (told_take _ _ _ (hv_told _ Hi _ _ Ht)).
  - intros t v m Ht. destruct (told_put _ _ _ (hv_told _ Hi _ _ Ht) v m eq_refl) as (own & Hin & Hown).
    exists own. split; [done|]. destruct own; [left; by apply Hown|].
    destruct (interrupted_ (chan_mon (shared c))) eqn:Ei; [right; split; [done|by intros]|].
    destruct (hv_intact _ Hi Ei) as [_ Hk]. destruct (Hk _ Hin eq_refl); [by left|by right].
  - intros t v m Ht. by destruct (told_failed _ _ _ (hv_told _ Hi _ _ Ht) v m eq_refl) as (_ & ? & ?).
Qed.
End once.

(** ** The theorem at a concrete input *)

Lemma handoff_once_witness :
  let c := hand_after seven_taken in
  run (hand_next 0) seven_taken (hand_start 3) = Some c
  /\ tcount (Z.eqb 7) (k_item <$> taken (shared c)) <= tcount (Z.eqb 7) (put_calls seven_taken)
  /\ mkCatch 0 7 0 ∈ taken (shared c)
  /\ exists own, mkGift 0 7 1 own ∈ gave (shared c)
     /\ (taken_from 0 (shared c)
         \/ (own = false /\ (interrupted_ (chan_mon (shared c)) = false -> state_of 0 (shared c) = Some FULL))).
Proof.
  intros c. assert (run (hand_next 0) seven_taken (hand_start 3) = Some c) as Hc by (vm_compute; reflexivity).
  assert (threads c !! 0%nat = Some (SDone Take (Some 0%nat) (RItem 7))) as H0 by (vm_compute; reflexivity).
  assert (threads c !! 1%nat = Some (SDone (Put 7) (Some 0%nat) (RInt 0))) as H1 by (vm_compute; reflexivity).
  destruct (handoff_once 0 3 seven_taken c Hc) as (Hf & _ & _ & _ & Htake & Hput & _).
  split; [exact Hc|]. split; [exact (Hf (Z.eqb 7))|]. split; [exact (Htake _ _ _ _ H0)|exact (Hput _ _ _ H1)].
Defined.
