(* ===== verification/TaskExecutor.v ===== *)
(** * The thread pool: daf/TaskExecutor

    A thread that calls [execute] either hands its command over to a pool thread that
    polls the channel, or starts a thread for it.  [module_closed] makes the pool
    unavailable, interrupts the channel, waits for the threads to leave, and cancels
    those that have not left when the time is up.

    The pool looks into a command only to see that there is one, so a command is the
    number of the call of [execute] it was passed to.  [started], [dropped], [refused]
    and [replied] record what became of each; no step reads them.

    The channel is taken as [HandOff] shows it to be: an offer that returns 0 has given
    its item to one poll, one that returns -1 to none, except when the channel has been
    interrupted, where an item may be lost ([interrupt_drops_item]) and an offer may
    throw although its item was taken.  A WorkerTask is a CountDownSemaphore: [acquire]
    returns when its count is zero.  Of ACE's thread manager: a spawn_n of [n] threads that fails has started
    fewer than [n], any number of them; wait() returns when the threads it manages have left. *)

From S2P Require Import Prelude Threads.

(** ** Timeouts *)

Section timeouts.
Context `{AceMinMaxLaws}.

Definition DAF_MSECS_ONE_SECOND : Z := 1000.
Definition DAF_MSECS_ONE_MINUTE : Z := 60 * DAF_MSECS_ONE_SECOND.
Definition DAF_MSECS_ONE_HOUR : Z := 60 * DAF_MSECS_ONE_MINUTE.

(** daf/TaskExecutor.h:81-85 [TaskExecutor]. *)
Definition THREAD_HANDOFF_TIMEOUT : Z := 1.
Definition THREAD_EVICT_TIMEOUT : Z := DAF_MSECS_ONE_SECOND * 6.
Definition THREAD_DECAY_TIMEOUT : Z := DAF_MSECS_ONE_SECOND * 30.

(** daf/TaskExecutor.h:371-373 [TaskExecutor]. *)
Record timeouts := mkTimeouts { decay_timeout_ : Z; evict_timeout_ : Z; handoff_timeout_ : Z }.

(** daf/TaskExecutor.cpp:306-310 [TaskExecutor::setDecayTimeout]. *)
Definition setDecayTimeout (ms : Z) (c : timeouts) : timeouts :=
  mkTimeouts (ace_range DAF_MSECS_ONE_SECOND DAF_MSECS_ONE_HOUR ms) (evict_timeout_ c) (handoff_timeout_ c).
(** daf/TaskExecutor.cpp:312-316 [TaskExecutor::setEvictTimeout]. *)
Definition setEvictTimeout (ms : Z) (c : timeouts) : timeouts :=
  mkTimeouts (decay_timeout_ c) (ace_range DAF_MSECS_ONE_SECOND DAF_MSECS_ONE_MINUTE ms) (handoff_timeout_ c).
(** daf/TaskExecutor.cpp:318-322 [TaskExecutor::setHandoffTimeout]. *)
Definition setHandoffTimeout (ms : Z) (c : timeouts) : timeouts :=
  mkTimeouts (decay_timeout_ c) (evict_timeout_ c) (ace_range 0 10 ms).

(** daf/TaskExecutor.cpp:247-264 [TaskExecutor::TaskExecutor]. [prop d]: the numeric property of a timeout, with default [d]. *)
Definition configured (prop_decay prop_evict prop_handoff : Z -> Z) : timeouts :=
  let c := mkTimeouts THREAD_DECAY_TIMEOUT THREAD_EVICT_TIMEOUT THREAD_HANDOFF_TIMEOUT in
  let c := setDecayTimeout (prop_decay (THREAD_DECAY_TIMEOUT / DAF_MSECS_ONE_SECOND) * DAF_MSECS_ONE_SECOND) c in
  let c := setEvictTimeout (prop_evict (THREAD_EVICT_TIMEOUT / DAF_MSECS_ONE_SECOND) * DAF_MSECS_ONE_SECOND) c in
  setHandoffTimeout (prop_handoff THREAD_HANDOFF_TIMEOUT) c.

(** daf/TaskExecutor.cpp:53-56 [SingletonExecutor::SingletonExecutor]. *)
Definition configured_singleton (c : timeouts) : timeouts := setDecayTimeout (Z.quot (decay_timeout_ c) 2) c.

(** Whatever the properties say, the timeouts are in their ranges. *)
Lemma configured_bounds p1 p2 p3 c :
  c = configured p1 p2 p3 \/ c = configured_singleton (configured p1 p2 p3) ->
  1000 <= decay_timeout_ c <= 3600000 /\ 1000 <= evict_timeout_ c <= 60000 /\ 0 <= handoff_timeout_ c <= 10.
Proof.
  intros [-> | ->]; cbn; rewrite !ace_range_spec;
    unfold DAF_MSECS_ONE_HOUR, DAF_MSECS_ONE_MINUTE, DAF_MSECS_ONE_SECOND; lia.
Qed.
End timeouts.

Section pool.
(** ** State *)

(** daf/TaskExecutor.h:375-376 [TaskExecutor]. With what the pool reads of others: [shutdown], ShutdownHandler::has_shutdown();
    [interrupted], the channel has been interrupted; [cancelled], the threads have been; [removed], the threads that the manager could
    not cancel and has let go. *)
Record flags := mkFlags {
  executorAvailable_ : bool;
  executorClosed_ : bool;
  shutdown : bool;
  interrupted : bool;
  cancelled : bool;
  removed : list nat;
}.

Definition make_unavailable (f : flags) : flags := mkFlags false (executorClosed_ f) (shutdown f) (interrupted f) (cancelled f) (removed f).
Definition make_closed (f : flags) : flags := mkFlags (executorAvailable_ f) true (shutdown f) (interrupted f) (cancelled f) (removed f).
Definition make_shutdown (f : flags) : flags := mkFlags (executorAvailable_ f) (executorClosed_ f) true (interrupted f) (cancelled f) (removed f).
Definition interrupt_channel (f : flags) : flags := mkFlags (executorAvailable_ f) (executorClosed_ f) (shutdown f) true (cancelled f) (removed f).
(** daf/TaskExecutor.cpp:557-611 [TaskExecutor::Thread_Manager::terminate_task]. With Thread_Descriptor::threadTerminate: the threads in [l] could be neither cancelled nor
    told to terminate, and are removed from the manager. *)
Definition cancel_threads (l : list nat) (f : flags) : flags :=
  mkFlags (executorAvailable_ f) (executorClosed_ f) (shutdown f) (interrupted f) true (removed f ++ l).

(** What has become of a call. *)
Inductive event :=
| Started (k : nat)            (* a pool thread has called run() of the command *)
| Dropped (k : nat)            (* the command was released without being run *)
| Thrown (k : nat)             (* runPriority() of the command has thrown *)
| Refused (k : nat)            (* the caller kept the command *)
| Replied (k : nat) (r : Z)    (* execute returned r *)
| Forgot (j : nat).            (* the count forgot j threads that a failing spawn_n had started *)

#[local] Instance event_eq_dec : EqDecision event.
Proof. solve_decision. Defined.

(** daf/TaskExecutor.h:291-301 [TaskExecutor]. [lock_] and [thr_count_] are members of ACE_Task_Base; [latches] are the counts of the
    WorkerTask objects; [calls] is the number of calls of [execute] with a command. *)
Record pool := mkPool {
  lock_ : bool;
  thr_count_ : Z;
  flags_ : flags;
  latches : list Z;
  calls : nat;
  log : list event;
}.

(** daf/TaskExecutor.cpp:247-254 [TaskExecutor::TaskExecutor]. *)
Definition pool_init : pool := mkPool false 0 (mkFlags true false false false false []) [] 0 [].

Definition set_lock (b : bool) (s : pool) : pool := mkPool b (thr_count_ s) (flags_ s) (latches s) (calls s) (log s).
Definition add_count (n : Z) (s : pool) : pool :=
  mkPool (lock_ s) (thr_count_ s + n) (flags_ s) (latches s) (calls s) (log s).
Definition with_flags (f : flags -> flags) (s : pool) : pool :=
  mkPool (lock_ s) (thr_count_ s) (f (flags_ s)) (latches s) (calls s) (log s).
Definition with_latches (f : list Z -> list Z) (s : pool) : pool :=
  mkPool (lock_ s) (thr_count_ s) (flags_ s) (f (latches s)) (calls s) (log s).
Definition new_call (s : pool) : pool := mkPool (lock_ s) (thr_count_ s) (flags_ s) (latches s) (S (calls s)) (log s).
Definition note (l : list event) (s : pool) : pool :=
  mkPool (lock_ s) (thr_count_ s) (flags_ s) (latches s) (calls s) (log s ++ l).

(** daf/TaskExecutor.cpp:293-304 [TaskExecutor::isAvailable]. The two flags never change back, so reading both is one step. *)
Definition isAvailable (s : pool) : bool * pool :=
  if executorAvailable_ (flags_ s) then
    if shutdown (flags_ s) then (false, with_flags make_unavailable s) else (true, s)
  else (false, s).

(** ** Program counters *)

(** daf/TaskExecutor.h:313-342 [TaskExecutor::WorkerTask]. What threads are started for: [n] of them for svc(), or one for a command. *)
Inductive work := WorkerTask (n : nat) | WorkerTaskExtended (k : nat).

(** daf/TaskExecutor.h:381-393 [TaskExecutor::WorkerTask::WorkerTask]. The count of the latch. *)
Definition work_threads (w : work) : nat := match w with WorkerTask n => n | WorkerTaskExtended _ => 1 end.

Inductive ppc :=
| PIdle
(* execute(command) *)
| EAvail (c : option nat)                   (* if (this->isAvailable()) *)
| EOffer (k : nat)                          (* this->taskChannel_.offer(command, ...) *)
(* execute(n_threads, force_active) and task_handOff *)
| XAvail (w : work) (force : bool)          (* this->isAvailable() *)
| XLock (w : work) (force : bool)           (* the guard takes the lock *)
| XTest (w : work) (force : bool)           (* this->isAvailable(), under the lock *)
| XCount (w : work)                         (* ++this->thr_count_, n times *)
| XSpawn (w : work)                         (* spawn_n, and undoing the count when it fails *)
| XUnlock (k : option nat) (l : option nat) (* the guard gives the lock up *)
| XJoin (k : option nat) (l : nat)          (* return tp->acquire() *)
| XReturn (k : option nat) (r : Z)          (* errno = ENOEXEC when -1; return *)
| XDone (r : Z)
(* module_closed *)
| MStart                                    (* this->executorAvailable_ = false *)
| MRead                                     (* if (this->executorClosed_ ? false : *)
| MWrite                                    (*     this->executorClosed_ = true) *)
| MInterrupt                                (* this->taskChannel_.interrupt() *)
| MLock                                     (* the guard takes the lock *)
| MLoop                                     (* for (...; this->thr_count() > 0;) *)
| MBlock                                    (* this->zeroCondition_.wait(&tv) *)
| MWaiting                                  (* blocked *)
| MWoken (etime : bool)                     (* woken, the lock not taken yet *)
| MTime                                     (* if (this->thr_count() > 0) throw TimeoutException(); else break *)
| MUnlock (timeout : bool)                  (* the guard gives the lock up *)
| MTerminate                                (* terminate_task(this, true) *)
| MJoin                                     (* this->wait() *)
| MDone (first : bool)
(* a thread of the pool *)
| WStart (w : work) (l : nat)               (* insertTerminateEvent; worker->release() *)
| WRun (w : work)                           (* worker->run() *)
| WService                                  (* in svc() *)
| WAvail (c : option nat)                   (* task_dispatch: for (...; this->isAvailable();) *)
| WPoll                                     (* this->taskChannel_.poll(this->getDecayTimeout()) *)
| WPriority (k : nat)                       (* thr_setprio(command->runPriority()) *)
| WCall (k : nat)                           (* this->svc(command._retn()) *)
| WCommand                                  (* in run() of a command *)
| WLock                                     (* threadCleanup: the guard takes the lock *)
| WLeave                                    (* --thr_count_; zeroCondition_.signal() *)
| WUnlock                                   (* the guard gives the lock up *)
| WClose                                    (* close(0), removeTerminateEvent *)
| WDone.

(** How an offer ends: another thread takes the command, nobody comes in time; after an
    interruption also that it throws, alone or although its command was taken, or that
    the command is lost. *)
Inductive offered := OTaken | OTimeout | OThrow | OThrowTaken | OLost.

(** How something that the pool does not control ends. *)
Inductive pchoice :=
| CExecute (nil : bool)                     (* a call of execute, with or without a command *)
| CThreads (n : nat) (force : bool)
| CClose
| CShutdown                                 (* the shutdown of the process is signalled *)
| COffer (o : offered)
| CSpawn (part : option nat)                (* all threads are started, or spawn_n fails after [part] *)
| CTimeout | CSpurious
| CTerminate (l : list nat)                 (* the threads that terminate_task cannot cancel *)
| CCancel                                   (* the cancellation of the thread takes effect *)
| CReturn                                   (* a method of the application returns from the thread's service, or throws *)
| CGo.

(** What a step does to other threads. *)
Inductive action := ANone | AStart (n : nat) (w : work) (l : nat) | AHand (k : nat) | ASignal.

(** ** Steps *)

(** A caller is told [r]; a command it still has stays with it. *)
Definition give_back (k : option nat) (s : pool) : pool := note (option_list (Refused <$> k)) s.
Definition reply (k : option nat) (r : Z) (s : pool) : pool := note (option_list ((fun k => Replied k r) <$> k)) s.
Definition drop_command (k : option nat) (s : pool) : pool := note (option_list (Dropped <$> k)) s.

Definition command_of (w : work) : option nat := match w with WorkerTask _ => None | WorkerTaskExtended k => Some k end.

(** daf/TaskExecutor.cpp:409-432 [TaskExecutor::execute]. *)
Definition execute_next (ch : pchoice) (s : pool) (p : ppc) : option (pool * ppc * action) :=
  match ch, p with
  | CExecute true, PIdle => Some (s, EAvail None, ANone)
  | CExecute false, PIdle => Some (new_call s, EAvail (Some (calls s)), ANone)
  | CGo, EAvail c =>
      let '(b, s) := isAvailable s in
      if b then Some (s, match c with None => XReturn None 0 | Some k => EOffer k end, ANone)
      else Some (give_back c s, XReturn c (-1), ANone)
  | COffer OTaken, EOffer k => Some (s, XReturn (Some k) 0, AHand k)
  | COffer OTimeout, EOffer k => Some (s, XAvail (WorkerTaskExtended k) true, ANone)
  | COffer o, EOffer k =>
      if interrupted (flags_ s) then
        match o with
        | OThrow => Some (give_back (Some k) s, XReturn (Some k) (-1), ANone)
        | OThrowTaken => Some (s, XReturn (Some k) (-1), AHand k)
        | _ => Some (drop_command (Some k) s, XReturn (Some k) 0, ANone)
        end
      else None
  | CGo, XReturn k r => Some (reply k r s, XDone r, ANone)
  | CGo, XDone _ => Some (s, PIdle, ANone)
  | _, _ => None
  end.

(** daf/TaskExecutor.cpp:324-407 [TaskExecutor::execute]. And [task_handOff], lines 455-495, which forces one thread for its command. *)
Definition spawn_next (ch : pchoice) (s : pool) (p : ppc) : option (pool * ppc * action) :=
  match ch, p with
  | CThreads n force, PIdle =>
      Some (s, if (n =? 0)%nat then XReturn None (-1) else XAvail (WorkerTask n) force, ANone)
  | CGo, XAvail w force =>
      let '(b, s) := isAvailable s in
      if b then Some (s, XLock w force, ANone)
      else Some (give_back (command_of w) s, XReturn (command_of w) (-1), ANone)
  | CGo, XLock w force => if lock_ s then None else Some (set_lock true s, XTest w force, ANone)
  | CGo, XTest w force =>
      let '(b, s) := isAvailable s in
      if (if b then (if force then false else negb (thr_count_ s =? 0)) else true)
      then Some (give_back (command_of w) s, XUnlock (command_of w) None, ANone)
      else Some (s, XCount w, ANone)
  | CGo, XCount w => Some (add_count (Z.of_nat (work_threads w)) s, XSpawn w, ANone)
  | CSpawn None, XSpawn w =>
      let l := length (latches s) in
      Some (with_latches (fun ls => ls ++ [to_int (Z.of_nat (work_threads w))]) s, XUnlock (command_of w) (Some l),
            AStart (work_threads w) w l)
  | CSpawn (Some j), XSpawn w =>
      if (j <? work_threads w)%nat then
        let l := length (latches s) in
        Some (note (option_list (Refused <$> command_of w) ++ [Forgot j])
                (add_count (- Z.of_nat (work_threads w))
                  (with_latches (fun ls => ls ++ [to_int (Z.of_nat (work_threads w))]) s)),
              XUnlock (command_of w) None, AStart j w l)
      else None
  | CGo, XUnlock k None => Some (set_lock false s, XReturn k (-1), ANone)
  | CGo, XUnlock k (Some l) => Some (set_lock false s, XJoin k l, ANone)
  | CGo, XJoin k l => n ← latches s !! l; if n <=? 0 then Some (s, XReturn k 0, ANone) else None
  | _, _ => None
  end.

(** A thread of the pool that has not ended. *)
Definition running (p : ppc) : bool :=
  match p with
  | WStart _ _ | WRun _ | WService | WAvail _ | WPoll | WPriority _ | WCall _ | WCommand | WLock | WLeave | WUnlock | WClose => true
  | _ => false
  end.

(** wait() has joined the threads of the pool that the manager still has; [ts] are all threads. *)
Definition joined (gone : list nat) (ts : list ppc) : bool :=
  forallb id (imap (fun i q => negb (running q) || bool_decide (i ∈ gone)) ts).

(** daf/TaskExecutor.cpp:497-528 [TaskExecutor::module_closed]. *)
Definition close_next (ch : pchoice) (s : pool) (ts : list ppc) (p : ppc) : option (pool * ppc * action) :=
  match ch, p with
  | CClose, PIdle => Some (s, MStart, ANone)
  | CShutdown, PIdle => Some (with_flags make_shutdown s, PIdle, ANone)
  | CGo, MStart => Some (with_flags make_unavailable s, MRead, ANone)
  | CGo, MRead => Some (s, if executorClosed_ (flags_ s) then MDone false else MWrite, ANone)
  | CGo, MWrite => Some (with_flags make_closed s, MInterrupt, ANone)
  | CGo, MInterrupt => Some (with_flags interrupt_channel s, MLock, ANone)
  | CGo, MLock => if lock_ s then None else Some (set_lock true s, MLoop, ANone)
  | CGo, MLoop => Some (s, if 0 <? thr_count_ s then MBlock else MUnlock false, ANone)
  | CGo, MBlock => Some (set_lock false s, MWaiting, ANone)
  | CTimeout, MWaiting => Some (s, MWoken true, ANone)
  | CSpurious, MWaiting => Some (s, MWoken false, ANone)
  | CGo, MWoken etime => if lock_ s then None else Some (set_lock true s, if etime then MTime else MLoop, ANone)
  | CGo, MTime => Some (s, MUnlock (0 <? thr_count_ s), ANone)
  | CGo, MUnlock timeout => Some (set_lock false s, if timeout then MTerminate else MJoin, ANone)
  | CTerminate l, MTerminate =>
      if forallb (fun i => from_option running false (ts !! i)) l then Some (with_flags (cancel_threads l) s, MJoin, ANone) else None
  | CGo, MJoin => if joined (removed (flags_ s)) ts then Some (s, MDone true, ANone) else None
  | CGo, MDone _ => Some (s, PIdle, ANone)
  | _, _ => None
  end.

(** daf/TaskExecutor.cpp:434-453 [TaskExecutor::task_dispatch]. An exception of the command leaves it, and the thread ends. *)
Definition dispatch_next (ch : pchoice) (s : pool) (p : ppc) : option (pool * ppc * action) :=
  match ch, p with
  | CGo, WAvail c =>
      let '(b, s) := isAvailable s in
      if b then Some (s, match c with None => WPoll | Some k => WPriority k end, ANone)
      else Some (drop_command c s, WLock, ANone)
  | CTimeout, WPoll => Some (s, WLock, ANone)
  | CGo, WPoll => if interrupted (flags_ s) then Some (s, WLock, ANone) else None
  | CGo, WPriority k => Some (s, WCall k, ANone)
  | CReturn, WPriority k => Some (note [Thrown k] s, WLock, ANone)
  | CGo, WCall k => Some (note [Started k] s, WCommand, ANone)
  | CGo, WCommand => Some (s, WAvail None, ANone)
  | CReturn, WCommand => Some (s, WLock, ANone)
  | CCancel, (WPoll | WCommand) => if cancelled (flags_ s) then Some (s, WLock, ANone) else None
  | _, _ => None
  end.

(** daf/TaskExecutor.cpp:123-244 [TaskExecutor::threadExecute]. With WorkerTask::run and threadCleanup. *)
Definition worker_next (ch : pchoice) (s : pool) (p : ppc) : option (pool * ppc * action) :=
  match ch, p with
  | CGo, WStart w l => Some (with_latches (alter (fun n => n - 1) l) s, WRun w, ANone)
  | CGo, WRun w => Some (s, match w with WorkerTask _ => WService | WorkerTaskExtended k => WAvail (Some k) end, ANone)
  | CReturn, WService => Some (s, WLock, ANone)
  | CCancel, WService => if cancelled (flags_ s) then Some (s, WLock, ANone) else None
  | CGo, WLock => if lock_ s then None else Some (set_lock true s, WLeave, ANone)
  | CGo, WLeave => Some (add_count (-1) s, WUnlock, ASignal)
  | CGo, WUnlock => Some (set_lock false s, WClose, ANone)
  | CGo, WClose => Some (s, WDone, ANone)
  | _, _ => dispatch_next ch s p
  end.

(** One step of a thread, and what it does to others. *)
Definition pool_local (ch : pchoice) (s : pool) (ts : list ppc) (p : ppc) : option (pool * ppc * action) :=
  match p with
  | PIdle => match ch with
             | CExecute _ => execute_next ch s p
             | CThreads _ _ => spawn_next ch s p
             | _ => close_next ch s ts p
             end
  | EAvail _ | EOffer _ | XReturn _ _ | XDone _ => execute_next ch s p
  | XAvail _ _ | XLock _ _ | XTest _ _ | XCount _ | XSpawn _ | XUnlock _ _ | XJoin _ _ => spawn_next ch s p
  | MStart | MRead | MWrite | MInterrupt | MLock | MLoop | MBlock | MWaiting | MWoken _ | MTime | MUnlock _
  | MTerminate | MJoin | MDone _ => close_next ch s ts p
  | WDone => None
  | _ => worker_next ch s p
  end.

(** A command goes to thread [u], which must be polling; a signal wakes one waiter, if
    there is one; new threads are appended. *)
Definition act (a : action) (u : option nat) (ts : list ppc) : option (list ppc) :=
  match a, u with
  | ANone, _ => Some ts
  | AStart n w l, _ => Some (ts ++ replicate n (WStart w l))
  | AHand k, Some u => p ← ts !! u; match p with WPoll => Some (<[u := WAvail (Some k)]> ts) | _ => None end
  | AHand _, None => None
  | ASignal, Some u => p ← ts !! u; match p with MWaiting => Some (<[u := MWoken false]> ts) | _ => None end
  | ASignal, None => if forallb (fun p => match p with MWaiting => false | _ => true end) ts then Some ts else None
  end.

Definition pool_next (ch : pchoice * option nat) (t : nat) (c : conf pool ppc) : option (conf pool ppc) :=
  p ← threads c !! t;
  '(s, p, a) ← pool_local (fst ch) (shared c) (threads c) p;
  ts ← act a (snd ch) (<[t := p]> (threads c));
  Some (mkConf s ts).

(** [n] threads of the application, and no thread of the pool. *)
Definition pool_start (n : nat) : conf pool ppc := mkConf pool_init (replicate n PIdle).

(** ** What the proofs follow *)

(** The command a caller still has, and the one a pool thread has to run. *)
Definition asks (p : ppc) : option nat :=
  match p with
  | EAvail c => c
  | EOffer k => Some k
  | XAvail w _ | XLock w _ | XTest w _ | XCount w | XSpawn w => command_of w
  | _ => None
  end.
Definition works (p : ppc) : option nat :=
  match p with
  | WStart w _ | WRun w => command_of w
  | WAvail c => c
  | WPriority k | WCall k => Some k
  | _ => None
  end.

Definition asks_for (k : nat) (p : ppc) : bool := bool_decide (asks p = Some k).
Definition works_on (k : nat) (p : ppc) : bool := bool_decide (works p = Some k).
Definition settles (k : nat) (e : event) : bool :=
  match e with Started j | Dropped j | Thrown j => bool_decide (j = k) | _ => false end.
Definition refuses (k : nat) (e : event) : bool := match e with Refused j => bool_decide (j = k) | _ => false end.

(** Threads that own the lock; that count in [thr_count_]; that are about to start
    others; that close the pool. *)
Definition holds (p : ppc) : bool :=
  match p with
  | XTest _ _ | XCount _ | XSpawn _ | XUnlock _ _ | MLoop | MBlock | MTime | MUnlock _ | WLeave | WUnlock => true
  | _ => false
  end.
Definition alive (p : ppc) : bool :=
  match p with
  | WStart _ _ | WRun _ | WService | WAvail _ | WPoll | WPriority _ | WCall _ | WCommand | WLock | WLeave => true
  | _ => false
  end.
Definition counted (p : ppc) : Z :=
  b2z (alive p) + match p with XSpawn w => Z.of_nat (work_threads w) | _ => 0 end.
Definition spawning (p : ppc) : bool := match p with XCount _ | XSpawn _ => true | _ => false end.
Definition closing (p : ppc) : bool :=
  match p with
  | MRead | MWrite | MInterrupt | MLock | MLoop | MBlock | MWaiting | MWoken _ | MTime | MUnlock _ | MTerminate | MJoin
  | MDone true => true
  | _ => false
  end.
(** Since it had the lock for the first time. *)
Definition evicting (p : ppc) : bool :=
  match p with
  | MLoop | MBlock | MWaiting | MWoken _ | MTime | MUnlock _ | MTerminate | MJoin | MDone true => true
  | _ => false
  end.

(** What a caller is going to be told. *)
Definition told (p : ppc) : option (nat * Z) :=
  match p with
  | XUnlock (Some k) None => Some (k, -1)
  | XUnlock (Some k) (Some _) | XJoin (Some k) _ => Some (k, 0)
  | XReturn (Some k) r => Some (k, r)
  | _ => None
  end.

(** ** The effect of a step on sums over the threads *)

Definition gain (f : ppc -> Z) (a : action) : Z :=
  match a with
  | AStart n w l => Z.of_nat n * f (WStart w l)
  | AHand k => f (WAvail (Some k)) - f WPoll
  | _ => 0
  end.

Lemma act_sum f a u ts ts' :
  f (MWoken false) = f MWaiting -> act a u ts = Some ts' -> tsum f ts' = tsum f ts + gain f a.
Proof.
  intros Hf. destruct a as [|n w l|k|]; cbn [act gain].
  - intros [= <-]. lia.
  - intros [= <-]. by rewrite tsum_app, tsum_replicate.
  - destruct u as [u|]; [|done]. destruct (ts !! u) as [q|] eqn:E; [|done]. cbn [mbind option_bind].
    destruct q; try done. intros [= <-]. rewrite (tsum_insert _ _ _ _ _ E). lia.
  - destruct u as [u|].
    + destruct (ts !! u) as [q|] eqn:E; [|done]. cbn [mbind option_bind].
      destruct q; try done. intros [= <-]. rewrite (tsum_insert _ _ _ _ _ E). lia.
    + destruct (forallb _ ts); [|done]. intros [= <-]. lia.
Qed.

(** A thread after a step: as before, or changed by the action. *)
Lemma act_lookup a u ts ts' i q : act a u ts = Some ts' -> ts' !! i = Some q ->
  ts !! i = Some q \/ q = MWoken false /\ ts !! i = Some MWaiting
  \/ (exists k, q = WAvail (Some k)) \/ (exists w l, q = WStart w l).
Proof.
  destruct a as [|n w l|k|]; cbn [act].
  - intros [= <-] Hq. by left.
  - intros [= <-]. intros [Hq|[_ Hq]]%lookup_app_Some; [auto|]. apply lookup_replicate in Hq as [-> _]. eauto 6.
  - destruct u as [u|]; [|done]. destruct (ts !! u) as [r|] eqn:E; [|done]. cbn [mbind option_bind].
    destruct r; try done. intros [= <-]. intros [(<- & <- & _)|[_ ?]]%list_lookup_insert_Some; eauto.
  - destruct u as [u|].
    + destruct (ts !! u) as [r|] eqn:E; [|done]. cbn [mbind option_bind].
      destruct r; try done. intros [= <-]. intros [(<- & <- & _)|[_ ?]]%list_lookup_insert_Some; auto.
    + destruct (forallb _ ts); [|done]. intros [= <-]. auto.
Qed.

Lemma pool_next_inv ch t c c' : pool_next ch t c = Some c' ->
  exists p s p' a ts, threads c !! t = Some p /\ pool_local (fst ch) (shared c) (threads c) p = Some (s, p', a)
    /\ act a (snd ch) (<[t := p']> (threads c)) = Some ts /\ c' = mkConf s ts.
Proof.
  unfold pool_next. destruct (threads c !! t) as [p|]; [|done]. cbn [mbind option_bind].
  destruct (pool_local _ _ _ p) as [[[s p'] a]|] eqn:E; [|done]. cbn [mbind option_bind].
  destruct (act _ _ _) as [ts|] eqn:Ea; [|done]. intros [= <-]. eauto 10.
Qed.

(** ** The effect of a step on its own thread and the state *)

Ltac step_cases Hl :=
  match type of Hl with pool_local ?ch ?s ?ts ?p = Some _ =>
    destruct p, ch; cbn in Hl; try done; unfold isAvailable in Hl;
    try (apply bind_Some in Hl as (? & ? & Hl));
    repeat case_match; simplify_eq
  end.

Ltac step_sums :=
  cbn; unfold counted, asks_for, works_on, settles, refuses; cbn; repeat case_bool_decide; cbn; try lia.

Lemma local_lock ch s ts p s' p' a : pool_local ch s ts p = Some (s', p', a) -> (holds p = true -> lock_ s = true) ->
  b2z (lock_ s') - b2z (lock_ s) = b2z (holds p') - b2z (holds p) + gain (fun q => b2z (holds q)) a.
Proof. intros Hl Hh. step_cases Hl; cbn in *; rewrite ?Hh by done; try congruence; cbn; try lia. Qed.

#[local] Arguments tcount : simpl never.

(** The threads that thr_count_ does not count although they run, or have left. *)
Definition forgotten (l : list event) : Z := tsum (fun e => match e with Forgot j => Z.of_nat j | _ => 0 end) l.
#[local] Arguments forgotten : simpl never.

Lemma forgotten_app l l' : forgotten (l ++ l') = forgotten l + forgotten l'.
Proof. apply tsum_app. Qed.

Lemma local_count ch s ts p s' p' a : pool_local ch s ts p = Some (s', p', a) ->
  thr_count_ s' + forgotten (log s') - (thr_count_ s + forgotten (log s)) = counted p' - counted p + gain counted a.
Proof.
  intros Hl. step_cases Hl; cbn; unfold counted; cbn; rewrite ?forgotten_app; unfold forgotten;
    repeat match goal with c : option nat |- _ => destruct c | w : work |- _ => destruct w end; cbn in *; simplify_eq; cbn; lia.
Qed.

Ltac owner_cases :=
  repeat match goal with
  | c : option nat |- _ => destruct c
  | w : work |- _ => destruct w
  | H : work_threads _ = S _ |- _ => cbn in H; simplify_eq
  | H : (?j <=? 0)%nat = true |- _ => apply Nat.leb_le in H; assert (j = 0%nat) by lia; subst j
  end;
  unfold asks_for, works_on; cbn; rewrite ?tcount_app, ?tcount_cons, ?tcount_nil; cbn;
  repeat (case_bool_decide; cbn); simplify_eq; try lia;
  try match goal with H : Some ?j <> Some ?k |- _ => assert (j <> k) by congruence; lia end.

(** What pool threads have of command [k], or did with it. *)
Definition passed (k : nat) (c : conf pool ppc) : Z := tcount (works_on k) (threads c) + tcount (settles k) (log (shared c)).
Definition kept (k : nat) (c : conf pool ppc) : Z := tcount (asks_for k) (threads c) + tcount (refuses k) (log (shared c)).

Definition passes (k : nat) (s : pool) (p : ppc) (s' : pool) (p' : ppc) (a : action) : Z :=
  b2z (works_on k p') + gain (fun q => b2z (works_on k q)) a + tcount (settles k) (log s')
  - b2z (works_on k p) - tcount (settles k) (log s).
Definition keeps (k : nat) (s : pool) (p : ppc) (s' : pool) (p' : ppc) : Z :=
  b2z (asks_for k p') + tcount (refuses k) (log s') - b2z (asks_for k p) - tcount (refuses k) (log s).

(** A step gives each command on, settles it or gives it back, and never copies it. *)
Lemma local_owned k ch s ts p s' p' a : pool_local ch s ts p = Some (s', p', a) ->
  passes k s p s' p' a + keeps k s p s' p' = b2z (bool_decide (k < calls s')%nat) - b2z (bool_decide (k < calls s)%nat).
Proof.
  intros Hl. unfold passes, keeps. step_cases Hl; owner_cases.
Qed.

Lemma local_passes k ch s ts p s' p' a : pool_local ch s ts p = Some (s', p', a) ->
  0 <= passes k s p s' p' a
  /\ (told p' = Some (k, 0) -> told p = Some (k, 0) \/ passes k s p s' p' a = 1).
Proof.
  intros Hl. unfold passes. step_cases Hl; owner_cases; (split; [try lia|cbn; intros Ht; simplify_eq; auto; try lia]).
Qed.

(** Runs of a command: those that have begun, and those that are next. *)
Definition starts (k : nat) (e : event) : bool := match e with Started j => bool_decide (j = k) | _ => false end.
Definition runs (k : nat) (s : pool) : Z := tcount (starts k) (log s).
Definition about_to_run (k : nat) (p : ppc) : bool := match p with WPriority j | WCall j => bool_decide (j = k) | _ => false end.

(** What a caller is told comes from what happened to its command. *)
Lemma local_told k r ch s ts p s' p' a : pool_local ch s ts p = Some (s', p', a) -> told p' = Some (k, r) ->
  told p = Some (k, r) \/ (r = 0 /\ passes k s p s' p' a = 1)
  \/ (r = -1 /\ (Refused k ∈ log s' \/ asks_for k p = true /\ interrupted (flags_ s) = true)).
Proof.
  intros Hl. unfold passes. step_cases Hl; cbn; intros Ht;
    repeat match goal with c : option nat |- _ => destruct c | w : work |- _ => destruct w end; cbn in Ht; simplify_eq;
    first [by left|right; right; split; [done|]; first
             [left; cbn; apply elem_of_app; right; by left|right; split; [by apply bool_decide_true|done]]|
           right; left; split; [done|]; owner_cases].
Qed.

Definition available (s : pool) : bool := executorAvailable_ (flags_ s).

(** An unavailable pool runs nothing new. *)
Lemma local_runs k ch s ts p s' p' a : pool_local ch s ts p = Some (s', p', a) -> available s = false ->
  b2z (about_to_run k p') + runs k s' <= b2z (about_to_run k p) + runs k s.
Proof.
  unfold available, runs. intros Hl Hav. step_cases Hl; try congruence; owner_cases.
Qed.

(** The rest of what a step does. *)
Record orderly (s : pool) (ts : list ppc) (p : ppc) (s' : pool) (p' : ppc) (a : action) : Prop := {
  or_log : exists l, log s' = log s ++ l
    /\ forall e, e ∈ l -> match e with
                          | Replied k r => told p = Some (k, r)
                          | Dropped _ => available s' = false \/ interrupted (flags_ s) = true
                          | _ => True
                          end;
  or_available : available s' = true -> available s = true;
  or_interrupted : interrupted (flags_ s) = true -> interrupted (flags_ s') = true;
  or_interrupts : interrupted (flags_ s') = true -> interrupted (flags_ s) = true \/ closing p = true;
  or_cancels : cancelled (flags_ s') = true -> cancelled (flags_ s) = true \/ closing p = true;
  or_cancelled : cancelled (flags_ s') = false -> cancelled (flags_ s) = false /\ removed (flags_ s') = removed (flags_ s);
  or_closing : closing p' = true -> closing p = true \/ available s' = false;
  or_evicting : evicting p' = true -> closing p = true /\ (evicting p = true \/ lock_ s = false);
  or_spawning : spawning p' = true -> spawning p = true \/ available s = true;
  or_running : running p' = true -> running p = true;
  or_start : forall n w l, a = AStart n w l -> spawning p = true;
  or_removed : removed (flags_ s) ⊆ removed (flags_ s');
  or_joined : p' = MDone true -> evicting p = true /\ joined (removed (flags_ s)) ts = true;
}.

Lemma local_orderly ch s ts p s' p' a : pool_local ch s ts p = Some (s', p', a) -> orderly s ts p s' p' a.
Proof.
  intros Hl. step_cases Hl.
  all: split; unfold available; cbn; try done; try (by intros; congruence); auto.
  all: repeat match goal with c : option nat |- _ => destruct c | w : work |- _ => destruct w end; cbn.
  all: try (eexists; split; [reflexivity|]; intros e He; cbn; repeat (apply elem_of_cons in He as [->|He]; [auto|]); by apply elem_of_nil in He).
  all: try (exists []; split; [by rewrite app_nil_r|]; intros e []%elem_of_nil).
  all: intros x Hx; apply elem_of_app; by left.
Qed.

(** ** The invariant *)

(** The command has not been run and will not be. *)
Definition unrun (k : nat) (c : conf pool ppc) : Prop :=
  Refused k ∈ log (shared c)
  \/ available (shared c) = false /\ tcount (about_to_run k) (threads c) + runs k (shared c) = 0.

(** What a caller of [execute] is told, and what it can conclude. *)
Definition outcome (k : nat) (r : Z) (c : conf pool ppc) : Prop :=
  (r = 0 /\ passed k c = 1) \/ (r = -1 /\ unrun k c).

(** The pool has no thread but those that its manager has let go, and starts none. *)
Record over (c : conf pool ppc) : Prop := {
  over_available : available (shared c) = false;
  over_spawning : tcount spawning (threads c) = 0;
  over_running : forall i q, threads c !! i = Some q -> running q = true -> i ∈ removed (flags_ (shared c));
}.

Record pool_inv (c : conf pool ppc) : Prop := {
  pv_lock : tcount holds (threads c) = b2z (lock_ (shared c));
  pv_count : thr_count_ (shared c) + forgotten (log (shared c)) = tsum counted (threads c);
  pv_owned : forall k, passed k c + kept k c = b2z (bool_decide (k < calls (shared c))%nat);
  pv_told : forall t p k r, threads c !! t = Some p -> told p = Some (k, r) -> outcome k r c;
  pv_replied : forall k r, Replied k r ∈ log (shared c) -> outcome k r c;
  pv_dropped : forall k, Dropped k ∈ log (shared c) -> available (shared c) = false;
  pv_interrupted : interrupted (flags_ (shared c)) = true -> available (shared c) = false;
  pv_cancelled : cancelled (flags_ (shared c)) = true -> available (shared c) = false;
  pv_closing : forall t p, threads c !! t = Some p -> closing p = true -> available (shared c) = false;
  pv_evicting : forall t p, threads c !! t = Some p -> evicting p = true -> tcount spawning (threads c) = 0;
  pv_removed : cancelled (flags_ (shared c)) = false -> removed (flags_ (shared c)) = [];
  pv_joined : forall t, threads c !! t = Some (MDone true) -> over c;
}.

Lemma joined_running gone ts : joined gone ts = true -> forall i q, ts !! i = Some q -> running q = true -> i ∈ gone.
Proof.
  unfold joined. rewrite forallb_forall. intros Hj i q Hq Hr.
  assert (In (negb (running q) || bool_decide (i ∈ gone)) (imap (fun i q => negb (running q) || bool_decide (i ∈ gone)) ts)) as Hin.
  { apply list_elem_of_In, list_elem_of_lookup. exists i. rewrite list_lookup_imap, Hq. done. }
  apply Hj in Hin. rewrite Hr in Hin. by apply bool_decide_eq_true in Hin.
Qed.

Section one_step.
Context (c : conf pool ppc) (ch : pchoice) (u : option nat) (t : nat).
Context (p : ppc) (s' : pool) (p' : ppc) (a : action) (ts' : list ppc).
Context (Hp : threads c !! t = Some p) (Hl : pool_local ch (shared c) (threads c) p = Some (s', p', a)).
Context (Ha : act a u (<[t := p']> (threads c)) = Some ts').

Lemma sum_step f : f (MWoken false) = f MWaiting -> tsum f ts' = tsum f (threads c) - f p + f p' + gain f a.
Proof. intros Hf. rewrite (act_sum f _ _ _ _ Hf Ha), (tsum_insert _ _ _ _ _ Hp). lia. Qed.

Lemma count_step (f : ppc -> bool) : f (MWoken false) = f MWaiting ->
  tcount f ts' = tcount f (threads c) - b2z (f p) + b2z (f p') + gain (fun q => b2z (f q)) a.
Proof. intros Hf. apply (sum_step (fun q => b2z (f q))). by rewrite Hf. Qed.

Lemma thread_step i q : ts' !! i = Some q ->
  (i = t /\ q = p') \/ threads c !! i = Some q \/ q = MWoken false /\ (i = t /\ p' = MWaiting \/ threads c !! i = Some MWaiting)
  \/ (exists k, q = WAvail (Some k)) \/ (exists w l, q = WStart w l).
Proof.
  intros Hq. destruct (act_lookup _ _ _ _ _ _ Ha Hq) as [H|[[-> H]|H]]; [| |by right; right; right].
  - apply list_lookup_insert_Some in H as [(E & <- & _)|[_ H]]; [left|right; left]; auto.
  - right. right. left. split; [done|]. apply list_lookup_insert_Some in H as [(E & H & _)|[_ H]]; auto.
Qed.

Lemma passed_step k : passed k (mkConf s' ts') = passed k c + passes k (shared c) p s' p' a.
Proof. unfold passed, passes. cbn [shared threads]. rewrite (count_step (works_on k)) by done. lia. Qed.

Lemma kept_step k : kept k (mkConf s' ts') = kept k c + keeps k (shared c) p s' p'.
Proof.
  unfold kept, keeps. cbn [shared threads]. rewrite (count_step (asks_for k)) by done.
  assert (gain (fun q => b2z (asks_for k q)) a = 0) as ->; [|lia].
  destruct a; cbn; unfold asks_for; cbn; rewrite ?bool_decide_false by done; cbn; lia.
Qed.

(** Without a start of threads, one that runs ran before. *)
Lemma running_step i q : (forall n w l, a <> AStart n w l) -> ts' !! i = Some q -> running q = true ->
  exists q0, threads c !! i = Some q0 /\ running q0 = true.
Proof.
  intros Hna Hq Hr. pose proof (or_running _ _ _ _ _ _ (local_orderly _ _ _ _ _ _ _ Hl)) as Hrun.
  assert (exists q1, <[t := p']> (threads c) !! i = Some q1 /\ running q1 = true) as (q1 & Hq1 & Hr1).
  { destruct a as [|n w l|k|]; cbn [act] in Ha.
    - injection Ha as <-. eauto.
    - by destruct (Hna n w l).
    - destruct u as [v|]; [|done]. destruct (_ !! v) as [r|] eqn:E; [|done]. cbn [mbind option_bind] in Ha.
      destruct r; try done. injection Ha as <-. apply list_lookup_insert_Some in Hq as [(<- & <- & _)|[_ ?]]; eauto.
    - destruct u as [v|].
      + destruct (_ !! v) as [r|] eqn:E; [|done]. cbn [mbind option_bind] in Ha.
        destruct r; try done. injection Ha as <-. apply list_lookup_insert_Some in Hq as [(<- & <- & _)|[_ ?]]; [done|eauto].
      + destruct (forallb _ _); [|done]. injection Ha as <-. eauto. }
  apply list_lookup_insert_Some in Hq1 as [(<- & <- & _)|[_ ?]]; eauto.
Qed.

Lemma calm_step : over c -> over (mkConf s' ts') /\ forall i q, ts' !! i = Some q -> running q = true ->
  exists q0, threads c !! i = Some q0 /\ running q0 = true.
Proof.
  intros [Hav Hs Hr]. destruct (local_orderly _ _ _ _ _ _ _ Hl). pose proof (tcount_le_one spawning _ _ _ Hp) as Hsp.
  assert (spawning p = false) as Ep by (destruct (spawning p); [cbn in *; lia|done]).
  assert (forall n w l, a <> AStart n w l) as Hna by (intros n w l ->; by specialize (or_start0 _ _ _ eq_refl); congruence).
  assert (gain (fun q => b2z (spawning q)) a = 0) as G1.
  { destruct a as [|n w l|j|]; try done. by destruct (Hna n w l). }
  pose proof (fun i q => running_step i q Hna) as Hrun. split; [|done]. split; cbn [shared threads].
  - destruct (available s') eqn:E; [|done]. rewrite or_available0 in Hav; done.
  - rewrite (count_step spawning), G1, Ep, Hs by done. destruct (spawning p') eqn:E; [|cbn; lia].
    destruct or_spawning0 as [?|?]; congruence.
  - intros i q Hq Hrq. destruct (Hrun i q Hq Hrq) as (q0 & Hq0 & Hr0). eapply or_removed0, Hr; eauto.
Qed.

Context (Hinv : pool_inv c).

Lemma passed_bounds k : 0 <= passed k c <= 1 /\ 0 <= kept k c.
Proof.
  pose proof (pv_owned _ Hinv k) as H. pose proof (b2z_bounds (bool_decide (k < calls (shared c))%nat)).
  unfold passed, kept in *.
  pose proof (tcount_nonneg (works_on k) (threads c)). pose proof (tcount_nonneg (settles k) (log (shared c))).
  pose proof (tcount_nonneg (asks_for k) (threads c)). pose proof (tcount_nonneg (refuses k) (log (shared c))). lia.
Qed.

Lemma owned_step k : passed k (mkConf s' ts') + kept k (mkConf s' ts') = b2z (bool_decide (k < calls s')%nat).
Proof. rewrite passed_step, kept_step. pose proof (local_owned k _ _ _ _ _ _ _ Hl). pose proof (pv_owned _ Hinv k). lia. Qed.

Lemma passed_one k : 1 <= passed k (mkConf s' ts') -> passed k (mkConf s' ts') = 1.
Proof.
  intros H1. pose proof (owned_step k). pose proof (b2z_bounds (bool_decide (k < calls s')%nat)).
  assert (0 <= kept k (mkConf s' ts')); [|lia]. unfold kept.
  pose proof (tcount_nonneg (asks_for k) ts'). pose proof (tcount_nonneg (refuses k) (log s')). cbn. lia.
Qed.

(** Becoming unavailable is for good. *)
Lemma unavailable_step : available (shared c) = false -> available s' = false.
Proof.
  intros H. pose proof (or_available _ _ _ _ _ _ (local_orderly _ _ _ _ _ _ _ Hl)).
  destruct (available s'); [|done]. rewrite H0 in H; done.
Qed.

Lemma idle_step k : available (shared c) = false -> tcount (about_to_run k) (threads c) + runs k (shared c) = 0 ->
  tcount (about_to_run k) ts' + runs k s' = 0.
Proof.
  intros Hav H0. pose proof (local_runs k _ _ _ _ _ _ _ Hl Hav). rewrite (count_step (about_to_run k)) by done.
  assert (gain (fun q => b2z (about_to_run k q)) a = 0) as -> by (destruct a; cbn; lia).
  pose proof (tcount_nonneg (about_to_run k) ts') as Hn. rewrite (count_step (about_to_run k)) in Hn by done.
  pose proof (tcount_nonneg (starts k) (log s')). pose proof (tcount_le_one (about_to_run k) _ _ _ Hp).
  pose proof (tcount_nonneg (about_to_run k) (threads c)). pose proof (tcount_nonneg (starts k) (log (shared c))).
  pose proof (b2z_bounds (about_to_run k p')). unfold runs in *. lia.
Qed.

Lemma unrun_step k : unrun k c -> unrun k (mkConf s' ts').
Proof.
  intros [Hk|[Hav H0]]; [left|right].
  - destruct (or_log _ _ _ _ _ _ (local_orderly _ _ _ _ _ _ _ Hl)) as (l & Hlog & _). cbn. rewrite Hlog.
    apply elem_of_app. by left.
  - split; [by apply unavailable_step|by apply idle_step].
Qed.

Lemma outcome_step k r : outcome k r c -> outcome k r (mkConf s' ts').
Proof.
  intros [[-> Hk]|[-> Hk]]; [left|right]; (split; [done|]).
  - apply passed_one. rewrite passed_step, Hk. pose proof (local_passes k _ _ _ _ _ _ _ Hl). lia.
  - by apply unrun_step.
Qed.

(** Who has the command has not run it. *)
Lemma asked_unrun k : asks_for k p = true -> tcount (about_to_run k) (threads c) + runs k (shared c) = 0.
Proof.
  intros Hk. pose proof (pv_owned _ Hinv k) as Ho. pose proof (b2z_bounds (bool_decide (k < calls (shared c))%nat)).
  pose proof (tcount_le_one (asks_for k) _ _ _ Hp) as Ha1. rewrite Hk in Ha1. cbn in Ha1. unfold passed, kept, runs in *.
  assert (tcount (about_to_run k) (threads c) <= tcount (works_on k) (threads c)) as H1.
  { apply tsum_le. intros i q _. unfold works_on. destruct q; cbn; repeat case_bool_decide; cbn; try lia; congruence. }
  assert (tcount (starts k) (log (shared c)) <= tcount (settles k) (log (shared c))) as H2.
  { apply tsum_le. intros i e _. destruct e; cbn; repeat case_bool_decide; cbn; lia. }
  pose proof (tcount_nonneg (about_to_run k) (threads c)). pose proof (tcount_nonneg (starts k) (log (shared c))).
  pose proof (tcount_nonneg (refuses k) (log (shared c))). lia.
Qed.

Lemma told_step i q k r : ts' !! i = Some q -> told q = Some (k, r) -> outcome k r (mkConf s' ts').
Proof.
  intros Hq Ht. destruct (thread_step _ _ Hq) as [[-> ->]|[Hi|[[-> _]|[[j ->]|(w & l & ->)]]]]; try done.
  - destruct (local_told _ _ _ _ _ _ _ _ _ Hl Ht) as [Hold|[[-> Hk]|[-> [Hk|[Hk Hi]]]]].
    + apply outcome_step. by eapply pv_told.
    + left. split; [done|]. apply passed_one. rewrite passed_step. pose proof (passed_bounds k). lia.
    + right. split; [done|]. by left.
    + right. split; [done|]. apply unrun_step. right. split; [by apply pv_interrupted|by apply asked_unrun].
  - apply outcome_step. by eapply pv_told.
Qed.

Lemma replied_step k r : Replied k r ∈ log s' -> outcome k r (mkConf s' ts').
Proof.
  destruct (or_log _ _ _ _ _ _ (local_orderly _ _ _ _ _ _ _ Hl)) as (l & -> & Hnew).
  intros [H|H]%elem_of_app; apply outcome_step.
  - by apply (pv_replied _ Hinv).
  - apply Hnew in H. by eapply pv_told.
Qed.

Lemma lock_count_step : tcount holds ts' = b2z (lock_ s').
Proof.
  rewrite (count_step holds) by done. pose proof (pv_lock _ Hinv) as H. pose proof (tcount_le_one holds _ _ _ Hp) as Hh.
  assert (holds p = true -> lock_ (shared c) = true) as Hlock.
  { intros E. rewrite E in Hh. destruct (lock_ (shared c)); [done|]. cbn in *. lia. }
  pose proof (local_lock _ _ _ _ _ _ _ Hl Hlock). lia.
Qed.

Lemma closing_step i q : ts' !! i = Some q -> closing q = true -> available s' = false.
Proof.
  intros Hq Hc. pose proof (local_orderly _ _ _ _ _ _ _ Hl) as Ho.
  assert (closing p' = true -> available s' = false) as Hown.
  { intros E. destruct (or_closing _ _ _ _ _ _ Ho E) as [Hcp|?]; [|done]. apply unavailable_step. by eapply pv_closing. }
  destruct (thread_step _ _ Hq) as [[-> ->]|[Hi|[[-> [[-> E]|Hi]]|[[j ->]|(w & l & ->)]]]]; try done.
  - by apply Hown.
  - apply unavailable_step. by eapply pv_closing.
  - apply Hown. by rewrite E.
  - apply unavailable_step. by eapply (pv_closing _ Hinv _ _ Hi).
Qed.

Lemma spawning_le_holds (l : list ppc) : tcount spawning l <= tcount holds l.
Proof. apply tsum_le. intros i q _. by destruct q. Qed.

Lemma evicting_closing q : evicting q = true -> closing q = true.
Proof. by destruct q. Qed.

(** A thread that evicts, or that takes the lock to evict, finds nobody starting threads. *)
Lemma no_spawning i q : threads c !! i = Some q -> evicting q = true \/ closing q = true /\ lock_ (shared c) = false ->
  tcount spawning (threads c) = 0.
Proof.
  intros Hi [He|[_ Hf]]; [by eapply pv_evicting|]. pose proof (pv_lock _ Hinv) as H. rewrite Hf in H. cbn in H.
  pose proof (spawning_le_holds (threads c)). pose proof (tcount_nonneg spawning (threads c)). lia.
Qed.

Lemma spawning_step : available (shared c) = false -> tcount spawning (threads c) = 0 -> tcount spawning ts' = 0.
Proof.
  intros Hav Hs. pose proof (local_orderly _ _ _ _ _ _ _ Hl) as Ho. pose proof (tcount_le_one spawning _ _ _ Hp) as Hsp.
  rewrite (count_step spawning), Hs by done. pose proof (b2z_bounds (spawning p)).
  assert (gain (fun q => b2z (spawning q)) a = 0) as -> by (destruct a; cbn; lia).
  destruct (spawning p') eqn:E; [|destruct (spawning p); cbn in *; lia].
  destruct (or_spawning _ _ _ _ _ _ Ho E) as [Esp|?]; [|congruence]. rewrite Esp in Hsp. cbn in Hsp. lia.
Qed.

Lemma evicting_step i q : ts' !! i = Some q -> evicting q = true -> tcount spawning ts' = 0.
Proof.
  intros Hq He. pose proof (local_orderly _ _ _ _ _ _ _ Hl) as Ho.
  assert (evicting p' = true -> tcount spawning ts' = 0) as Hown.
  { intros E. destruct (or_evicting _ _ _ _ _ _ Ho E) as [Hcp Hev]. apply spawning_step; [by eapply pv_closing|].
    eapply no_spawning; [exact Hp|]. destruct Hev; auto. }
  assert (forall j r, threads c !! j = Some r -> evicting r = true -> tcount spawning ts' = 0) as Hold.
  { intros j r Hj Hr. apply spawning_step; [by eapply pv_closing, evicting_closing|by eapply pv_evicting]. }
  destruct (thread_step _ _ Hq) as [[-> ->]|[Hi|[[-> [[-> E]|Hi]]|[[j ->]|(w & l & ->)]]]]; try done.
  - by apply Hown.
  - by eapply Hold.
  - apply Hown. by rewrite E.
  - by eapply (Hold _ _ Hi).
Qed.

Lemma joined_step i : ts' !! i = Some (MDone true) -> over (mkConf s' ts').
Proof.
  intros Hq. destruct (thread_step _ _ Hq) as [[-> E]|[Hi|[[? _]|[[j ?]|(w & l & ?)]]]]; try done.
  - destruct (or_joined _ _ _ _ _ _ (local_orderly _ _ _ _ _ _ _ Hl) (eq_sym E)) as [He Hr].
    apply calm_step. split.
    + by eapply pv_closing, evicting_closing.
    + by eapply pv_evicting.
    + by apply joined_running.
  - apply calm_step. by eapply pv_joined.
Qed.

Lemma pool_inv_local : pool_inv (mkConf s' ts').
Proof.
  pose proof (local_orderly _ _ _ _ _ _ _ Hl) as Ho. split; cbn [shared threads].
  - exact lock_count_step.
  - rewrite (sum_step counted) by done. pose proof (local_count _ _ _ _ _ _ _ Hl). pose proof (pv_count _ Hinv). lia.
  - exact owned_step.
  - exact told_step.
  - exact replied_step.
  - intros k. destruct (or_log _ _ _ _ _ _ Ho) as (l & -> & Hnew). intros [H|H]%elem_of_app.
    + apply unavailable_step. by eapply pv_dropped.
    + destruct (Hnew _ H) as [?|?]; [done|]. by apply unavailable_step, pv_interrupted.
  - intros H. apply unavailable_step. destruct (or_interrupts _ _ _ _ _ _ Ho H); [by apply pv_interrupted|by eapply pv_closing].
  - intros H. apply unavailable_step. destruct (or_cancels _ _ _ _ _ _ Ho H); [by apply pv_cancelled|by eapply pv_closing].
  - exact closing_step.
  - exact evicting_step.
  - intros H. destruct (or_cancelled _ _ _ _ _ _ Ho H) as [H0 ->]. by apply pv_removed.
  - exact joined_step.
Qed.
End one_step.

Lemma pool_inv_step c c' : pool_inv c -> step pool_next c c' -> pool_inv c'.
Proof. intros Hinv ([ch u] & t & (p & s & p' & a & ts & Hp & Hl & Ha & ->)%pool_next_inv). by eapply pool_inv_local. Qed.

Lemma over_step c c' : over c -> step pool_next c c' -> over c' /\ forall i q, threads c' !! i = Some q -> running q = true ->
  exists q0, threads c !! i = Some q0 /\ running q0 = true.
Proof. intros Ho ([ch u] & t & (p & s & p' & a & ts & Hp & Hl & Ha & ->)%pool_next_inv). by eapply calm_step. Qed.

Lemma pool_inv_start n : pool_inv (pool_start n).
Proof.
  assert (forall f, f PIdle = 0 -> tsum f (threads (pool_start n)) = 0) as H0 
    by (intros f E; cbn [pool_start threads]; rewrite tsum_replicate, E; lia).
  assert (forall t p, threads (pool_start n) !! t = Some p -> p = PIdle) as Hi by (intros t p [-> _]%lookup_replicate; done).
  split.
  - by apply (H0 (fun q => b2z (holds q))).
  - by rewrite (H0 counted).
  - intros k. unfold passed, kept, tcount. rewrite !(H0 (fun q => b2z _)) by done. cbn. case_bool_decide; [lia|done].
  - by intros t p k r ->%Hi.
  - by intros k r []%elem_of_nil.
  - by intros k []%elem_of_nil.
  - done.
  - done.
  - by intros t p ->%Hi.
  - by intros t p ->%Hi.
  - done.
  - by intros t Hp%Hi.
Qed.

Lemma pool_inv_reachable n c : reachable pool_next (pool_start n) c -> pool_inv c.
Proof. apply invariant; [apply pool_inv_start|apply pool_inv_step]. Qed.

(** ** What the pool promises *)

Lemma over_reachable c c' : over c -> reachable pool_next c c' -> over c' /\ forall i q, threads c' !! i = Some q -> running q = true ->
  exists q0, threads c !! i = Some q0 /\ running q0 = true.
Proof.
  intros Ho Hs. revert Ho. induction Hs as [c|c c1 c2 Hs _ IH]; intros Ho; [eauto|].
  destruct (over_step _ _ Ho Hs) as [H1 Hr1]. destruct (IH H1) as [H2 Hr2]. split; [done|].
  intros i q Hq Hr. destruct (Hr2 i q Hq Hr) as (q1 & ? & ?). eauto.
Qed.

Lemma starts_settles k l : tcount (starts k) l <= tcount (settles k) l.
Proof. apply tsum_le. intros i e _. destruct e; cbn; repeat case_bool_decide; cbn; lia. Qed.

Lemma logged (f : event -> bool) e l : e ∈ l -> f e = true -> 1 <= tcount f l.
Proof.
  intros [i Hi]%list_elem_of_lookup Hf. pose proof (tcount_le_one f _ _ _ Hi) as H. by rewrite Hf in H.
Qed.

Lemma outcome_runs k r c : pool_inv c -> outcome k r c -> r = -1 -> runs k (shared c) = 0.
Proof.
  intros Hinv [[-> _]|[_ [Hk|[_ H0]]]] Hr; [done|..]; unfold runs in *.
  - pose proof (logged (refuses k) _ _ Hk ltac:(by apply bool_decide_true)) as Hr1. pose proof (pv_owned _ Hinv k) as Ho.
    pose proof (b2z_bounds (bool_decide (k < calls (shared c))%nat)). pose proof (starts_settles k (log (shared c))).
    unfold passed, kept in Ho. pose proof (tcount_nonneg (works_on k) (threads c)).
    pose proof (tcount_nonneg (asks_for k) (threads c)). pose proof (tcount_nonneg (starts k) (log (shared c))). lia.
  - pose proof (tcount_nonneg (about_to_run k) (threads c)). pose proof (tcount_nonneg (starts k) (log (shared c))). lia.
Qed.

(** While the pool is available, an accepted command has been run or a thread is at it. *)
Lemma accepted_somewhere k c : pool_inv c -> outcome k 0 c -> available (shared c) = true ->
  Thrown k ∈ log (shared c) \/ runs k (shared c) = 1 \/ exists t p, threads c !! t = Some p /\ works p = Some k.
Proof.
  intros Hinv [[_ Hk]|[? _]] Hav; [|done]. unfold passed in Hk.
  destruct (decide (Thrown k ∈ log (shared c))) as [|Hth]; [by left|right].
  assert (tcount (settles k) (log (shared c)) = runs k (shared c)) as Hs.
  { unfold runs, tcount. apply tsum_ext. intros i e Hi. apply list_elem_of_lookup_2 in Hi.
    destruct e as [j|j|j|j|j r|j]; try done; cbn.
    - rewrite (pv_dropped _ Hinv _ Hi) in Hav. done.
    - rewrite bool_decide_false; [done|]. by intros ->. }
  destruct (decide (0 < tcount (works_on k) (threads c))) as [Hw|Hw].
  - right. apply tcount_exists in Hw as (t & p & Hp & Hpk%bool_decide_eq_true). eauto.
  - left. pose proof (tcount_nonneg (works_on k) (threads c)). lia.
Qed.

(** A step of one thread that concerns no other. *)
Lemma go_step c t p s p' : threads c !! t = Some p -> pool_local CGo (shared c) (threads c) p = Some (s, p', ANone) ->
  step pool_next c (mkConf s (<[t:=p']> (threads c))).
Proof. intros Hp Hl. exists (CGo, None), t. unfold pool_next. rewrite Hp. cbn [mbind option_bind fst snd]. by rewrite Hl. Qed.

Lemma go_lookup (c : conf pool ppc) t p p' : threads c !! t = Some p -> <[t:=p']> (threads c) !! t = Some p'.
Proof. intros Hp. apply list_lookup_insert_eq. by eapply lookup_lt_Some. Qed.

Lemma isAvailable_true s : available s = true -> shutdown (flags_ s) = false -> isAvailable s = (true, s).
Proof. unfold isAvailable, available. by intros -> ->. Qed.

(** The thread at a command runs it, by its own steps. *)
Lemma call_runs c t k : threads c !! t = Some (WCall k) -> exists c', reachable pool_next c c' /\ Started k ∈ log (shared c').
Proof.
  intros Hp. eexists. split; [eapply rtc_once, go_step; [exact Hp|reflexivity]|]. cbn. apply elem_of_app. right. by left.
Qed.

Lemma priority_runs c t k : threads c !! t = Some (WPriority k) -> exists c', reachable pool_next c c' /\ Started k ∈ log (shared c').
Proof.
  intros Hp. destruct (call_runs (mkConf (shared c) (<[t:=WCall k]> (threads c))) t k) as (c' & Hc' & Hk).
  - by eapply go_lookup.
  - exists c'. split; [|done]. eapply rtc_l; [|exact Hc']. by eapply go_step.
Qed.

Lemma avail_runs c t k : threads c !! t = Some (WAvail (Some k)) -> available (shared c) = true ->
  shutdown (flags_ (shared c)) = false -> exists c', reachable pool_next c c' /\ Started k ∈ log (shared c').
Proof.
  intros Hp Hav Hsh. destruct (priority_runs (mkConf (shared c) (<[t:=WPriority k]> (threads c))) t k) as (c' & Hc' & Hk).
  - by eapply go_lookup.
  - exists c'. split; [|done]. eapply rtc_l; [|exact Hc']. eapply go_step; [exact Hp|]. cbn. by rewrite isAvailable_true.
Qed.

Lemma work_runs c t w k : threads c !! t = Some (WRun w) -> command_of w = Some k -> available (shared c) = true ->
  shutdown (flags_ (shared c)) = false -> exists c', reachable pool_next c c' /\ Started k ∈ log (shared c').
Proof.
  intros Hp Hw Hav Hsh. destruct w as [n|j]; [done|]. injection Hw as ->.
  destruct (avail_runs (mkConf (shared c) (<[t:=WAvail (Some k)]> (threads c))) t k) as (c' & Hc' & Hk); [|done|done|].
  - by eapply go_lookup.
  - exists c'. split; [|done]. eapply rtc_l; [|exact Hc']. by eapply go_step.
Qed.

Lemma worker_runs c t p k : threads c !! t = Some p -> works p = Some k -> available (shared c) = true ->
  shutdown (flags_ (shared c)) = false -> exists c', reachable pool_next c c' /\ Started k ∈ log (shared c').
Proof.
  intros Hp Hk Hav Hsh. destruct p; try done; cbn in Hk.
  - destruct (work_runs (mkConf (with_latches (alter (fun n => n - 1) l) (shared c)) (<[t:=WRun w]> (threads c))) t w k)
      as (c' & Hc' & Hr); [by eapply go_lookup|done..|].
    exists c'. split; [|done]. eapply rtc_l; [|exact Hc']. by eapply go_step.
  - by eapply work_runs.
  - subst. by eapply avail_runs.
  - injection Hk as ->. by eapply priority_runs.
  - injection Hk as ->. by eapply call_runs.
Qed.

(** C9 (safety). Whatever the threads do, execute returns 0 or -1 to a call with a command;
    no command is run twice; one that execute refused with -1 is not run; and while the
    pool is available, one that was accepted with 0 has been run or is in the hands of a
    thread of the pool, unless its runPriority() has thrown. *)
Theorem executor_runs_once n c k :
  reachable pool_next (pool_start n) c ->
  runs k (shared c) <= 1
  /\ (forall r, Replied k r ∈ log (shared c) -> r = 0 \/ r = -1 /\ runs k (shared c) = 0)
  /\ (Replied k 0 ∈ log (shared c) -> available (shared c) = true ->
        Thrown k ∈ log (shared c) \/ runs k (shared c) = 1 \/ exists t p, threads c !! t = Some p /\ works p = Some k).
Proof.
  intros Hinv%pool_inv_reachable. split; [|split].
  - pose proof (starts_settles k (log (shared c))). pose proof (pv_owned _ Hinv k) as Ho. unfold passed, kept in Ho.
    pose proof (b2z_bounds (bool_decide (k < calls (shared c))%nat)). pose proof (tcount_nonneg (works_on k) (threads c)).
    pose proof (tcount_nonneg (asks_for k) (threads c)). pose proof (tcount_nonneg (refuses k) (log (shared c))).
    unfold runs. lia.
  - intros r Hr%(pv_replied _ Hinv). destruct (Hr) as [[-> _]|[-> _]]; [by left|right].
    split; [done|]. by eapply outcome_runs.
  - intros Hr%(pv_replied _ Hinv). by apply accepted_somewhere.
Qed.

(** C11 (liveness). A command accepted with 0 can always still be run, while the pool is
    available and no shutdown is signalled, if its runPriority() has not thrown: the thread
    that has it needs no other. *)
Theorem executor_accepted_runs n c k :
  reachable pool_next (pool_start n) c -> Replied k 0 ∈ log (shared c) -> ~ Thrown k ∈ log (shared c) ->
  runs k (shared c) = 0 -> available (shared c) = true -> shutdown (flags_ (shared c)) = false ->
  exists c', reachable pool_next c c' /\ Started k ∈ log (shared c').
Proof.
  intros Hinv%pool_inv_reachable Hr%(pv_replied _ Hinv) Hth H0 Hav Hsh.
  destruct (accepted_somewhere _ _ Hinv Hr Hav) as [?|[H1|(t & p & Hp & Hk)]]; [done|lia|]. by eapply worker_runs.
Qed.

(** Whenever the lock is free, thr_count_ is the number of threads that
    have been started and have not cleaned up, less those that it forgot because the
    spawn_n that started them failed; without such a failure it is never negative. *)
Theorem executor_thread_count n c :
  reachable pool_next (pool_start n) c ->
  0 <= thr_count_ (shared c) + forgotten (log (shared c))
  /\ (lock_ (shared c) = false -> thr_count_ (shared c) + forgotten (log (shared c)) = tcount alive (threads c)).
Proof.
  intros Hinv%pool_inv_reachable. rewrite (pv_count _ Hinv). split.
  - apply tsum_nonneg. intros p. unfold counted. pose proof (b2z_bounds (alive p)). destruct p; lia.
  - intros Hf. pose proof (pv_lock _ Hinv) as Hl. rewrite Hf in Hl. apply tsum_ext. intros t p Hp.
    pose proof (tcount_le_one holds _ _ _ Hp) as H1. unfold counted. destruct p; cbn in *; lia.
Qed.

End pool.

(** ** Executions *)

Definition after (n : nat) (sched : list (pchoice * option nat * nat)) : conf pool ppc :=
  default (pool_start n) (run pool_next sched (pool_start n)).

Lemma after_pool_reachable n sched : reachable pool_next (pool_start n) (after n sched).
Proof.
  unfold after. destruct (run _ _ _) as [c|] eqn:E; [by eapply run_reachable|]. apply rtc_refl.
Qed.

(** [goes m t]: [m] steps of thread [t]; [hand_off]: its call of execute, up to the unlock, which nobody takes over. *)
Definition goes (m t : nat) : list (pchoice * option nat * nat) := replicate m (CGo, None, t).
Definition hand_off (t : nat) : list (pchoice * option nat * nat) :=
  [(CExecute false, None, t)] ++ goes 1 t ++ [(COffer OTimeout, None, t)] ++ goes 4 t ++ [(CSpawn None, None, t)] ++ goes 1 t.

(** Two commands: the first starts thread 2, which runs it and polls; the second goes to it. *)
Definition two_commands : list (pchoice * option nat * nat) :=
  hand_off 0 ++ goes 1 2 ++ goes 3 0 ++ goes 6 2
  ++ [(CExecute false, None, 1%nat)] ++ goes 1 1 ++ [(COffer OTaken, Some 2%nat, 1%nat)] ++ goes 1 1.

(** Then thread 0 closes the pool: the command is dropped, the thread leaves. *)
Definition closed_after_two : list (pchoice * option nat * nat) :=
  two_commands ++ [(CClose, None, 0%nat)] ++ goes 7 0 ++ goes 2 2 ++ [(CGo, Some 0%nat, 2%nat)]
  ++ goes 2 2 ++ goes 4 0.

(** A spawn_n of two threads that fails after the first: the count of the pool forgets
    the thread that runs, and goes below zero when it leaves. *)
Lemma partial_spawn_miscounts :
  exists c, reachable pool_next (pool_start 1) c /\ thr_count_ (shared c) = -1.
Proof.
  exists (after 1 ([(CThreads 2 true, None, 0%nat)] ++ goes 4 0 ++ [(CSpawn (Some 1%nat), None, 0%nat)]
    ++ goes 1 0 ++ goes 2 1 ++ [(CReturn, None, 1%nat)] ++ goes 2 1)).
  split; [apply after_pool_reachable|reflexivity].
Qed.

(** ** Witnesses *)

Lemma executor_runs_once_witness :
  Replied 1 0 ∈ log (shared (after 2 two_commands))
  /\ runs 0 (shared (after 2 two_commands)) = 1
  /\ (Thrown 1 ∈ log (shared (after 2 two_commands)) \/ runs 1 (shared (after 2 two_commands)) = 1
      \/ exists t p, threads (after 2 two_commands) !! t = Some p /\ works p = Some 1%nat).
Proof.
  assert (Replied 1 0 ∈ log (shared (after 2 two_commands))) as Hr by (vm_compute; do 2 right; left).
  split; [exact Hr|]. split; [vm_compute; reflexivity|].
  refine (proj2 (proj2 (executor_runs_once 2 _ 1 (after_pool_reachable 2 two_commands))) Hr _).
  vm_compute; reflexivity.
Defined.

Lemma executor_accepted_runs_witness :
  exists c', reachable pool_next (after 2 two_commands) c' /\ Started 1 ∈ log (shared c').
Proof.
  refine (executor_accepted_runs 2 _ 1 (after_pool_reachable 2 two_commands) _ _ _ _ _);
    vm_compute; try reflexivity.
  - do 2 right. left.
  - intros H. repeat (apply elem_of_cons in H as [[=]|H]). by apply elem_of_nil in H.
Defined.

Lemma executor_thread_count_witness :
  thr_count_ (shared (after 2 two_commands)) = 1 /\ tcount alive (threads (after 2 two_commands)) = 1.
Proof.
  pose proof (proj2 (executor_thread_count 2 _ (after_pool_reachable 2 two_commands))) as H.
  split; [vm_compute; reflexivity|]. rewrite <- H; vm_compute; reflexivity.
Defined.

