(* ===== verification/Executors.v ===== *)
(** * Executors on other executors: daf/DirectExecutor.h, daf/LockedExecutor.h, daf/ConstrainedExecutor

    A ConstrainedExecutor wraps each command in a runnable that holds a permit of its
    semaphore from the call of [execute] to the end of [run], and gives the wrapped
    command to another executor.  That executor is only asked to do what
    Executor::execute promises: it refuses the command with -1, or accepts it and later
    runs it or drops it.  The semaphore is the counter that [Semaphore] refines. *)

From S2P Require Import Prelude Threads.

(** daf/DirectExecutor.h:40-42 [DirectExecutor::execute]. A command is what its run() returns or throws. *)
Definition direct_execute (command : option (result Z)) : result Z :=
  match command with None => Ok 0 | Some run => run end.

(** daf/LockedExecutor.h:52-59 [LockedExecutor::execute]. [locked]: the guard has got the lock. *)
Definition locked_execute (locked : bool) (cmd : option (result Z)) : result Z :=
  match cmd with
  | None => Ok 0
  | Some _ => if locked then direct_execute cmd else Ok (-1)
  end.

(** daf/ConstrainedExecutor.cpp:42-50 [ConstraintRunnable::run]. Its result; every path gives the permit back once. *)
Definition constraint_run (command : option (result Z)) : Z :=
  match direct_execute command with Ok r => r | Throw _ => 0 end.

Section constrained.
Context `{ace : AceMinMax, !AceMinMaxLaws}.

(** ** State *)

(** daf/ConstrainedExecutor.h:45-47 [ConstrainedExecutor]. [semaphore_] is the number of its permits; [lost] counts the
    permits of runnables that have been deleted without being run. *)
Record constrained := mkConstrained { semaphore_ : Z; permits_ : Z; lost : Z }.

(** daf/ConstrainedExecutor.cpp:61-66 [ConstrainedExecutor::ConstrainedExecutor]. *)
Definition constrained_init (permits : Z) : constrained :=
  let n := ace_range 1 INT_MAX (to_int permits) in mkConstrained n n 0.

(** daf/ConstrainedExecutor.cpp:74-78 [ConstrainedExecutor::available]. *)
Definition available (s : constrained) : Z := to_size (semaphore_ s).
(** daf/ConstrainedExecutor.cpp:80-84 [ConstrainedExecutor::size]. *)
Definition size (s : constrained) : Z := to_size (permits_ s - available s).

Definition add_permits (n : Z) (s : constrained) : constrained := mkConstrained (semaphore_ s + n) (permits_ s) (lost s).
Definition lose_permit (s : constrained) : constrained := mkConstrained (semaphore_ s) (permits_ s) (lost s + 1).

(** Callers of execute, and the runnables that the other executor has accepted. *)
Inductive xpc :=
| XIdle
| XAcquire (cmd : option (result Z))   (* ConstraintRunnable(): this->semaphore_.acquire() *)
| XExecute (cmd : option (result Z))   (* this->executor_.execute(...) *)
| XDone (r : Z)
| RPending (cmd : option (result Z))
| RRunning (cmd : option (result Z))   (* the command runs *)
| RRelease (r : Z)                     (* this->semaphore_.release() *)
| RDone (r : Z)
| RDeleted.

(** A call; what the other executor does with a command. *)
Inductive xchoice := XCall (cmd : option (result Z)) | XGo | XAccept | XRefuse | XRun | XDrop.

(** daf/ConstrainedExecutor.cpp:68-72 [ConstrainedExecutor::execute]. And the runnable, lines 28-56. The last component is a runnable
    that the other executor now has. *)
Definition constrained_local (ch : xchoice) (s : constrained) (p : xpc) : option (constrained * xpc * option xpc) :=
  match ch, p with
  | XCall cmd, XIdle => Some (s, XAcquire cmd, None)
  | XGo, XAcquire cmd => if 0 <? semaphore_ s then Some (add_permits (-1) s, XExecute cmd, None) else None
  | XAccept, XExecute cmd => Some (s, XDone 0, Some (RPending cmd))
  | XRefuse, XExecute cmd => Some (lose_permit s, XDone (-1), None)
  | XGo, XDone _ => Some (s, XIdle, None)
  | XRun, RPending cmd => Some (s, RRunning cmd, None)
  | XDrop, RPending _ => Some (lose_permit s, RDeleted, None)
  | XGo, RRunning cmd => Some (s, RRelease (constraint_run cmd), None)
  | XGo, RRelease r => Some (add_permits 1 s, RDone r, None)
  | _, _ => None
  end.

Definition constrained_next (ch : xchoice) (t : nat) (c : conf constrained xpc) : option (conf constrained xpc) :=
  p ← threads c !! t;
  '(s, p, new) ← constrained_local ch (shared c) p;
  Some (mkConf s (<[t := p]> (threads c) ++ option_list new)).

Definition constrained_start (permits : Z) (n : nat) : conf constrained xpc :=
  mkConf (constrained_init permits) (replicate n XIdle).

(** ** The permits *)

#[local] Arguments tcount : simpl never.

Definition has_permit (p : xpc) : bool :=
  match p with XExecute _ | RPending _ | RRunning _ | RRelease _ => true | _ => false end.
Definition is_running (p : xpc) : bool := match p with RRunning _ => true | _ => false end.

Record constrained_inv (m : Z) (c : conf constrained xpc) : Prop := {
  ci_sum : semaphore_ (shared c) + tcount has_permit (threads c) + lost (shared c) = permits_ (shared c);
  ci_permits : permits_ (shared c) = m;
  ci_nonneg : 0 <= semaphore_ (shared c);
  ci_lost : 0 <= lost (shared c);
}.

Lemma constrained_next_inv ch t c c' : constrained_next ch t c = Some c' ->
  exists p s p' new, threads c !! t = Some p /\ constrained_local ch (shared c) p = Some (s, p', new)
    /\ c' = mkConf s (<[t := p']> (threads c) ++ option_list new).
Proof.
  unfold constrained_next. destruct (threads c !! t) as [p|]; [|done]. cbn [mbind option_bind].
  destruct (constrained_local ch _ p) as [[[s p'] new]|] eqn:E; [|done]. intros [= <-]. eauto 10.
Qed.

Lemma local_permits ch s p s' p' new : constrained_local ch s p = Some (s', p', new) ->
  semaphore_ s' + b2z (has_permit p') + tcount has_permit (option_list new) + lost s'
    = semaphore_ s + b2z (has_permit p) + lost s
  /\ permits_ s' = permits_ s /\ (0 <= semaphore_ s -> 0 <= semaphore_ s') /\ (0 <= lost s -> 0 <= lost s').
Proof.
  destruct ch, p; intros Hl; cbn in Hl; try done; try (destruct (Z.ltb_spec 0 (semaphore_ s)); [|done]);
    injection Hl as <- <- <-; cbn; rewrite ?tcount_cons, ?tcount_nil; cbn; lia.
Qed.

Lemma constrained_inv_step m c c' : constrained_inv m c -> step constrained_next c c' -> constrained_inv m c'.
Proof.
  intros [H1 H2 H3 H4] (ch & t & (p & s & p' & new & Hp & Hl & ->)%constrained_next_inv).
  destruct (local_permits _ _ _ _ _ _ Hl) as (L1 & L2 & L3 & L4). split; cbn [shared threads].
  - rewrite tcount_app, (tcount_insert _ _ _ _ _ Hp). lia.
  - lia.
  - auto.
  - auto.
Qed.

Lemma constrained_inv_reachable permits n c :
  reachable constrained_next (constrained_start permits n) c ->
  constrained_inv (ace_range 1 INT_MAX (to_int permits)) c.
Proof.
  apply invariant; [|apply constrained_inv_step].
  assert (tcount has_permit (replicate n XIdle) = 0) as H0.
  { apply tsum_zero. by intros i p [-> _]%lookup_replicate. }
  split; cbn; rewrite ?H0, ?ace_range_spec; unfold INT_MAX; lia.
Qed.

(** At most as many commands run at a time as the executor has permits, which
    are at least one and at most INT_MAX; size() is the number of permits that commands
    have or have lost, without wrap-around. *)
Theorem constrained_limit permits n c :
  reachable constrained_next (constrained_start permits n) c ->
  1 <= permits_ (shared c) <= INT_MAX
  /\ tcount is_running (threads c) <= permits_ (shared c)
  /\ size (shared c) = tcount has_permit (threads c) + lost (shared c)
  /\ available (shared c) + size (shared c) = permits_ (shared c).
Proof.
  intros [H1 H2 H3 H4]%constrained_inv_reachable. rewrite ace_range_spec in H2.
  assert (tcount is_running (threads c) <= tcount has_permit (threads c)) as Hr
    by (apply tsum_le; intros i p _; by destruct p).
  pose proof (tcount_nonneg has_permit (threads c)). unfold size, available, INT_MAX in *.
  rewrite !to_size_small; unfold SIZE_MOD; rewrite ?to_size_small; unfold SIZE_MOD; lia.
Qed.

(** The commands that the other executor refused keep their permits: when all are lost,
    every later execute waits for ever. *)
Lemma permits_run_out c c' t cmd :
  constrained_inv (lost (shared c)) c -> semaphore_ (shared c) = 0 -> threads c !! t = Some (XAcquire cmd) ->
  reachable constrained_next c c' -> threads c' !! t = Some (XAcquire cmd).
Proof.
  intros Hinv Hs Ht Hr. cut (threads c' !! t = Some (XAcquire cmd) /\ semaphore_ (shared c') = 0
    /\ tcount has_permit (threads c') = 0); [by intros [? _]|].
  assert (tcount has_permit (threads c) = 0) as H0 by (destruct Hinv; lia). clear Hinv.
  induction Hr as [c|c c1 c2 Hst _ IH]; [done|].
  destruct Hst as (ch & u & (p & s & p' & new & Hp & Hl & ->)%constrained_next_inv).
  pose proof (tcount_le_one has_permit _ _ _ Hp) as Hle.
  assert (has_permit p = false) as Ep by (destruct (has_permit p); [cbn in Hle; lia|done]).
  assert (semaphore_ s = 0 /\ has_permit p' = false /\ new = None /\ (p = XAcquire cmd -> p' = p)) as (S0 & Ep' & -> & Hsame).
  { destruct ch, p; cbn in Hl, Ep; try done; try (rewrite Hs in Hl; done); by injection Hl as <- <- <-. }
  apply IH; cbn [shared threads option_list]; rewrite ?app_nil_r; [done| |].
  - destruct (decide (u = t)) as [->|Hne]; [|by rewrite list_lookup_insert_ne].
    rewrite Ht in Hp. injection Hp as <-. rewrite list_lookup_insert_eq by (by eapply lookup_lt_Some). by rewrite Hsame.
  - rewrite (tcount_insert _ _ _ _ _ Hp), Ep, Ep', H0. done.
Qed.
End constrained.

(** ** Executions *)

#[local] Existing Instance ace_min_max_std.

(** One permit, one command that throws, one that is refused, and a caller that waits. *)
Definition refused_once : list (xchoice * nat) :=
  [(XCall (Some (Throw InternalException)), 0%nat); (XGo, 0%nat); (XAccept, 0%nat); (XRun, 2%nat); (XGo, 2%nat);
   (XGo, 2%nat); (XGo, 0%nat); (XCall (Some (Ok 7)), 0%nat); (XGo, 0%nat); (XRefuse, 0%nat);
   (XCall (Some (Ok 7)), 1%nat)].

Lemma refused_once_reached : exists c, reachable constrained_next (constrained_start 1 2) c
  /\ threads c = [XDone (-1); XAcquire (Some (Ok 7)); RDone 0] /\ semaphore_ (shared c) = 0 /\ lost (shared c) = 1.
Proof.
  destruct (run constrained_next refused_once (constrained_start 1 2)) as [c|] eqn:E; [|by vm_compute in E].
  exists c. split; [by eapply run_reachable|]. vm_compute in E. by injection E as <-.
Qed.

(** The permit of the refused command is gone: the caller waits for ever. *)
Lemma refusal_blocks_executor : exists c, reachable constrained_next (constrained_start 1 2) c
  /\ forall c', reachable constrained_next c c' -> threads c' !! 1%nat = Some (XAcquire (Some (Ok 7))).
Proof.
  destruct refused_once_reached as (c & Hr & Ht & Hs & Hl). exists c. split; [done|]. intros c' Hc'.
  assert (AceMinMaxLaws) as Hace by apply ace_min_max_std_laws.
  eapply permits_run_out; [|done| |exact Hc'].
  - pose proof (constrained_inv_reachable _ _ _ Hr) as Hi. by rewrite Hl.
  - by rewrite Ht.
Qed.

Lemma constrained_limit_witness :
  exists c, reachable constrained_next (constrained_start 1 2) c /\ tcount is_running (threads c) = 1
    /\ 1 <= permits_ (shared c) <= INT_MAX /\ size (shared c) = 1.
Proof.
  destruct (run constrained_next (take 4 refused_once) (constrained_start 1 2)) as [c|] eqn:E; [|by vm_compute in E].
  pose proof (run_reachable _ _ _ _ E) as Hr. exists c. split; [exact Hr|].
  destruct (@constrained_limit ace_min_max_std ace_min_max_std_laws 1 2 c Hr) as (H1 & _ & H3 & _).
  vm_compute in E. injection E as <-. split; [reflexivity|]. split; [exact H1|]. rewrite H3. reflexivity.
Defined.
