(* ===== verification/Rendezvous.v ===== *)
(** * Rendezvous: daf/Rendezvous_T.h, daf/Rendezvous_T.cpp

    A barrier where every party brings an item: the last to arrive runs a command on the
    vector of the items, and each party leaves with the item that is then at its own
    place.  The protocol is the barrier's, in a copy of its code with differences of
    its own: [slots_] instead of a command without arguments, and a catch clause that
    also takes the arrival back.

    As in [Barrier], the entry gate is the counter that the Semaphore implements, and
    everything else happens under the mutex.  [arrived] records the items of the cycle in
    the order of their arrival; no step reads it. *)

From S2P Require Import Prelude Threads Monitor.

(** daf/Rendezvous_T.cpp:28-36 [RendezvousRotator::operator()]. *)
Definition rotate {T} (val : list T) : list T :=
  match val with [] => [] | x :: l => l ++ [x] end.

Section rendezvous.
Context {T : Type}.
(** The command: what it makes of the slots, and whether it throws. *)
Context (fn : list T -> list T * option daf_exn).

(** ** State *)

(** daf/Rendezvous_T.h:170-174 [Rendezvous]. [entry_gate] is the number of permits of [entryGate_]. *)
Record rdv := mkRdv {
  rv_mon : monitor;
  entry_gate : Z;
  parties_ : Z;
  synch_ : Z;
  rv_count : Z;
  resets_ : Z;
  broken_ : bool;
  shutdown_ : bool;
  triggered_ : bool;
  slots_ : list T;
  arrived : list T;
}.

(** daf/Rendezvous_T.cpp:41-51 [Rendezvous::Rendezvous]. *)
Definition rdv_new (parties : Z) : rdv := mkRdv mon_init (to_int parties) parties 0 0 0 false false false [] [].

(** daf/Rendezvous_T.cpp:41-57 [Rendezvous::Rendezvous]. *)
Definition rdv_init (parties : Z) : result rdv :=
  if parties =? 0 then Throw InitializationException else Ok (rdv_new parties).

Definition rv_with_mon (s : rdv) (m : monitor) : rdv :=
  mkRdv m (entry_gate s) (parties_ s) (synch_ s) (rv_count s) (resets_ s) (broken_ s) (shutdown_ s) (triggered_ s)
        (slots_ s) (arrived s).
Definition set_gate (n : Z) (s : rdv) : rdv :=
  mkRdv (rv_mon s) n (parties_ s) (synch_ s) (rv_count s) (resets_ s) (broken_ s) (shutdown_ s) (triggered_ s)
        (slots_ s) (arrived s).
Definition set_counts (count resets : Z) (s : rdv) : rdv :=
  mkRdv (rv_mon s) (entry_gate s) (parties_ s) (synch_ s) count resets (broken_ s) (shutdown_ s) (triggered_ s)
        (slots_ s) (arrived s).
Definition set_flags (broken shutdown triggered : bool) (s : rdv) : rdv :=
  mkRdv (rv_mon s) (entry_gate s) (parties_ s) (synch_ s) (rv_count s) (resets_ s) broken shutdown triggered
        (slots_ s) (arrived s).
Definition set_slots (l : list T) (s : rdv) : rdv :=
  mkRdv (rv_mon s) (entry_gate s) (parties_ s) (synch_ s) (rv_count s) (resets_ s) (broken_ s) (shutdown_ s)
        (triggered_ s) l (arrived s).

Definition set_broken (s : rdv) : rdv := set_flags true (shutdown_ s) (triggered_ s) s.
Definition set_triggered (s : rdv) : rdv := set_flags (broken_ s) (shutdown_ s) true s.

(** daf/Rendezvous_T.cpp:121-127 [Rendezvous::rendezvous]. The item takes the next place. *)
Definition enter (t : T) (s : rdv) : rdv :=
  let s := set_counts (rv_count s + 1) (rv_count s + 1) (set_slots (slots_ s ++ [t]) s) in
  mkRdv (rv_mon s) (entry_gate s) (parties_ s) (synch_ s) (rv_count s) (resets_ s) (broken_ s) (shutdown_ s)
        (triggered_ s) (slots_ s) (arrived s ++ [t]).

(** daf/Rendezvous_T.cpp:158-163 [Rendezvous::rendezvous]. The last thread to leave opens the gate for the next cycle. *)
Definition leave (s : rdv) : rdv :=
  let s := set_counts (rv_count s) (resets_ s - 1) s in
  if resets_ s =? 0 then
    mkRdv (rv_mon s) (entry_gate s + rv_count s) (parties_ s) (synch_ s + 1) 0 (resets_ s) false (shutdown_ s) false [] []
  else s.

(** ** Program counters *)

Inductive rret := RvItem (v : T) | RvBool (b : bool) | RvThrow (e : daf_exn).

(** [t] is the item a thread has brought, [i] its place. *)
Inductive rpc :=
| RvIdle
| RvGate (t : T) (timed : bool)                          (* this->entryGate_.acquire() *)
| RvShut (t : T) (timed : bool)                          (* if (this->shutdown_) throw *)
| RvLock (t : T) (timed : bool)                          (* the guard takes the mutex *)
| RvEnter (t : T) (timed : bool)                         (* index, push_back, resets_ = ++count_ *)
| RvTest (t : T) (i : Z) (timed timeout : bool)          (* while ((broken_ || triggered_) ? false : true) *)
| RvBody (t : T) (i : Z) (timed timeout : bool)          (* the try block *)
| RvWait (t : T) (i : Z) (timed timeout : bool) (w : wait_pc)
| RvCatch (e : daf_exn)                                  (* catch (...) *)
| RvLeave (t : T) (i : Z) (timeout : bool)               (* t_rtn, flags onto the stack, notifyAll *)
| RvReset (t : T) (i : Z) (r : rret)                     (* if (--this->resets_ == 0) ... *)
| RvExit (r : rret)                                      (* the guard gives the mutex up *)
| RvDone (r : rret)
| RsLock | RsTest (synch : Z) | RsWait (synch : Z) (w : wait_pc)
| RsFail (r : rret)                                      (* broken_ = true; notifyAll(); return false or throw *)
| DtLock | DtTest | DtWait (w : wait_pc)                 (* ~Rendezvous *)
| RvIntr (i : intr_pc).                                  (* Monitor::interrupt *)

(** [flag]: whether an attempt on the gate gets its permit before the deadline, whether
    the deadline is still ahead; [gated]: how many threads wait at the gate. *)
Inductive rchoice :=
| RCall (t : T) (timed : bool)
| RCallReset
| RCallDelete
| RCallInterrupt
| RGo (w : wait_choice) (flag : bool) (gated : nat).

(** daf/Rendezvous_T.cpp:165-171 [Rendezvous::rendezvous]. Also lines 236-244. *)
Definition outcome (timeout shutdown broken : bool) (t_rtn : T) : rret :=
  if timeout then RvThrow TimeoutException
  else if shutdown then RvThrow IllegalThreadStateException
  else if broken then RvThrow BrokenBarrierException
  else RvItem t_rtn.

(** daf/Rendezvous_T.cpp:148-154 [Rendezvous::rendezvous]. The item at the thread's place; too few slots break the rendezvous. *)
Definition collect (t : T) (i : Z) (s : rdv) : rdv * T :=
  match slots_ s !! Z.to_nat i with
  | None => (set_broken s, t)
  | Some v => (s, v)
  end.

(** ** Operations *)

(** daf/Rendezvous_T.cpp:110-172 [Rendezvous::rendezvous]. And lines 174-245, with a deadline ([timed]). *)
Definition rendezvous_next (w : wait_choice) (flag : bool) (u : nat) (s : rdv) (p : rpc) : option (rdv * rpc * effect) :=
  match p with
  | RvGate t timed =>
      if flag then if 0 <? entry_gate s then Some (set_gate (entry_gate s - 1) s, RvShut t timed, ENone) else None
      else if timed then Some (s, RvDone (RvThrow TimeoutException), ENone) else None
  | RvShut t timed =>
      Some (s, if shutdown_ s then RvDone (RvThrow IllegalThreadStateException) else RvLock t timed, ENone)
  | RvLock t timed => m ← lock u (rv_mon s); Some (rv_with_mon s m, RvEnter t timed, ENone)
  | RvEnter t timed => Some (enter t s, RvTest t (rv_count s) timed false, ENone)
  | RvTest t i timed timeout =>
      Some (s, if broken_ s || triggered_ s then RvLeave t i timeout else RvBody t i timed timeout, ENone)
  | RvBody t i timed timeout =>
      if shutdown_ s then Some (set_broken s, RvTest t i timed timeout, ENone)
      else if negb (rv_count s =? parties_ s) then
        if negb timed || flag then Some (s, RvWait t i timed timeout WTest, ENone)
        else Some (set_broken s, RvTest t i timed true, ENone)
      else match fn (slots_ s) with
           | (l, None) => Some (set_triggered (set_slots l s), RvTest t i timed timeout, ENone)
           | (l, Some e) => Some (set_slots l s, RvCatch e, ENone)
           end
  | RvWait t i timed timeout w' =>
      '(m, o) ← wait_next w u timed w' (rv_mon s);
      Some (rv_with_mon s m, match o with
                             | WGo w' => RvWait t i timed timeout w'
                             | WReturn _ => RvTest t i timed timeout
                             | WInterrupted => RvCatch InterruptedException
                             end, ENone)
  | RvCatch e =>
      Some (set_broken (set_counts (rv_count s - 1) (resets_ s - 1) s), RvExit (RvThrow e), EBroadcast)
  | RvLeave t i timeout =>
      let '(s, t_rtn) := collect t i s in
      Some (s, RvReset t i (outcome timeout (shutdown_ s) (broken_ s) t_rtn), EBroadcast)
  | RvReset _ _ r => Some (leave s, RvExit r, ENone)
  | _ => None
  end.

(** daf/Rendezvous_T.cpp:83-108 [Rendezvous::waitReset]. *)
Definition wait_reset_next (w : wait_choice) (u : nat) (s : rdv) (p : rpc) : option (rdv * rpc * effect) :=
  match p with
  | RsLock => m ← lock u (rv_mon s); Some (rv_with_mon s m, RsTest (synch_ s), ENone)
  | RsTest synch =>
      if (length (slots_ s) =? 0)%nat then Some (s, RvExit (RvBool true), ENone)
      else if shutdown_ s then Some (s, RsFail (RvThrow IllegalThreadStateException), ENone)
      else if synch_ s =? synch then
        Some (s, RsWait synch WTest, if triggered_ s || broken_ s then EBroadcast else ENone)
      else Some (s, RvExit (RvBool true), ENone)
  | RsWait synch w' =>
      '(m, o) ← wait_next w u true w' (rv_mon s);
      Some (rv_with_mon s m, match o with
                             | WGo w' => RsWait synch w'
                             | WReturn WOk => RsTest synch
                             | WReturn WTime => RsFail (RvBool false)
                             | WInterrupted => RsFail (RvThrow InterruptedException)
                             end, ENone)
  | RsFail r => Some (set_broken s, RvExit r, EBroadcast)
  | _ => None
  end.

(** daf/Rendezvous_T.cpp:59-81 [Rendezvous::destructor]. *)
Definition delete_next (w : wait_choice) (gated : nat) (u : nat) (s : rdv) (p : rpc) : option (rdv * rpc * effect) :=
  match p with
  | DtLock =>
      m ← lock u (rv_mon s);
      Some (set_gate (entry_gate s + Z.of_nat gated + 1) (set_flags (broken_ s) true (triggered_ s) (rv_with_mon s m)),
            DtTest, ENone)
  | DtTest =>
      if negb (length (slots_ s) =? 0)%nat && negb (rv_count s =? 0)
      then Some (s, DtWait WTest, EBroadcast) else Some (s, RvExit (RvBool true), ENone)
  | DtWait w' =>
      '(m, o) ← wait_next w u true w' (rv_mon s);
      Some (rv_with_mon s m, match o with
                             | WGo w' => DtWait w'
                             | WReturn _ => DtTest
                             | WInterrupted => RvExit (RvThrow InterruptedException)
                             end, ENone)
  | _ => None
  end.

(** daf/Rendezvous_T.cpp:59-172 [Rendezvous]. One step of a thread. *)
Definition rdv_local (ch : rchoice) (u : nat) (s : rdv) (p : rpc) : option (rdv * rpc * effect) :=
  match ch, p with
  | RCall t timed, RvIdle => Some (s, RvGate t timed, ENone)
  | RCallReset, RvIdle => Some (s, RsLock, ENone)
  | RCallDelete, RvIdle => Some (s, DtLock, ENone)
  | RCallInterrupt, RvIdle => Some (s, RvIntr IStart, ENone)
  | RGo w flag _, (RvGate _ _ | RvShut _ _ | RvLock _ _ | RvEnter _ _ | RvTest _ _ _ _ | RvBody _ _ _ _ | RvWait _ _ _ _ _
                  | RvCatch _ | RvLeave _ _ _ | RvReset _ _ _) => rendezvous_next w flag u s p
  | RGo w _ _, (RsLock | RsTest _ | RsWait _ _ | RsFail _) => wait_reset_next w u s p
  | RGo w _ gated, (DtLock | DtTest | DtWait _) => delete_next w gated u s p
  | RGo _ _ _, RvExit r => Some (rv_with_mon s (unlock (rv_mon s)), RvDone r, ENone)
  | RGo _ _ _, RvDone _ => Some (s, RvIdle, ENone)
  | RGo _ _ _, RvIntr i =>
      '(m, o, e) ← intr_next u i (rv_mon s);
      Some (rv_with_mon s m, match o with IGo i => RvIntr i | IReturn _ => RvIdle end, e)
  | _, _ => None
  end.

#[export] Instance rdv_waits : Waits rpc := {|
  waiting := fun p => match p with RvWait _ _ _ _ Waiting | RsWait _ Waiting | DtWait Waiting => true | _ => false end;
  awaken := fun p => match p with
                     | RvWait t i tm to Waiting => RvWait t i tm to (Woken WOk)
                     | RsWait n Waiting => RsWait n (Woken WOk)
                     | DtWait Waiting => DtWait (Woken WOk)
                     | _ => p
                     end;
|}.

#[export] Instance rdv_waits_laws : WaitsLaws rpc.
Proof. split; intros []; try done; match goal with w : wait_pc |- _ => by destruct w end. Qed.

Definition rdv_next := next rdv_local.

(** [n] threads in front of a new rendezvous. *)
Definition rdv_start (parties : Z) (n : nat) : conf rdv rpc := mkConf (rdv_new parties) (replicate n RvIdle).

(** ** Invariants *)

Definition rdv_holds (p : rpc) : bool :=
  match p with
  | RvEnter _ _ | RvTest _ _ _ _ | RvBody _ _ _ _ | RvCatch _ | RvLeave _ _ _ | RvReset _ _ _ | RvExit _
  | RsTest _ | RsFail _ | DtTest => true
  | RvWait _ _ _ _ w | RsWait _ w | DtWait w => wait_holds w
  | RvIntr i => intr_holds i
  | _ => false
  end.

(** Past the gate and not counted yet; counted, and not yet taken off [resets_]. *)
Definition gated (p : rpc) : bool := match p with RvShut _ _ | RvLock _ _ | RvEnter _ _ => true | _ => false end.
Definition inside (p : rpc) : bool :=
  match p with
  | RvTest _ _ _ _ | RvBody _ _ _ _ | RvWait _ _ _ _ _ | RvCatch _ | RvLeave _ _ _ | RvReset _ _ _ => true
  | _ => false
  end.
Definition catching (p : rpc) : bool := match p with RvCatch _ => true | _ => false end.
Definition deleting (p : rpc) : bool := match p with DtTest | DtWait _ => true | _ => false end.

(** The place of a thread and the item it brought. *)
Definition place (p : rpc) : option (Z * T) :=
  match p with
  | RvTest t i _ _ | RvBody t i _ _ | RvWait t i _ _ _ | RvLeave t i _ | RvReset t i (RvItem _) => Some (i, t)
  | _ => None
  end.

(** Nothing has gone wrong in this cycle. *)
Definition calm (s : rdv) : Prop := broken_ s = false /\ shutdown_ s = false.

(** What the slots hold, with [C] threads in the catch clause. *)
Record slots_ok (s : rdv) (C : Z) : Prop := {
  so_open : C = 0 -> broken_ s = false -> triggered_ s = false ->
    slots_ s = arrived s /\ rv_count s = Z.of_nat (length (arrived s));
  so_triggered : triggered_ s = true -> calm s ->
    rv_count s = parties_ s /\ rv_count s = Z.of_nat (length (arrived s)) /\ slots_ s = fst (fn (arrived s));
}.

(** What a thread that owns the mutex knows. *)
Definition knows (s : rdv) (p : rpc) : Prop :=
  match p with
  | RvBody _ _ _ _ => broken_ s = false /\ triggered_ s = false
  | RvLeave _ _ _ => broken_ s || triggered_ s = true
  | RvReset t i (RvItem v) => calm s /\ triggered_ s = true /\ slots_ s !! Z.to_nat i = Some v
  | _ => True
  end.

Record rdv_inv (c : conf rdv rpc) : Prop := {
  ri_lock : lock_inv rv_mon rdv_holds c;
  ri_gate : shutdown_ (shared c) = false ->
    entry_gate (shared c) + tcount gated (threads c) + rv_count (shared c) <= parties_ (shared c) /\ 0 <= entry_gate (shared c);
  ri_inside : tcount inside (threads c) <= rv_count (shared c) /\ tcount inside (threads c) <= resets_ (shared c);
  ri_deleting : 0 < tcount deleting (threads c) -> shutdown_ (shared c) = true;
  ri_slots : slots_ok (shared c) (tcount catching (threads c));
  ri_place : forall u p i t, threads c !! u = Some p -> place p = Some (i, t) -> calm (shared c) ->
    0 <= i /\ arrived (shared c) !! Z.to_nat i = Some t;
  ri_distinct : forall u v p q i j t t', threads c !! u = Some p -> threads c !! v = Some q ->
    place p = Some (i, t) -> place q = Some (j, t') -> u <> v -> calm (shared c) -> i <> j;
  ri_knows : forall u p, threads c !! u = Some p -> knows (shared c) p;
}.

Lemma leave_rv_mon s : rv_mon (leave s) = rv_mon s.
Proof. unfold leave. by case_match. Qed.
Lemma collect_mon t i s s' v : collect t i s = (s', v) -> rv_mon s' = rv_mon s.
Proof. unfold collect. case_match; intros [= <- _]; done. Qed.

Lemma rdv_respects_lock : respects_lock rdv_local rv_mon rdv_holds.
Proof.
  intros ch t s p s' p' e Hl. local_cases Hl; simpl; auto with daf.
  all: try lock_facts.
  - apply lock_step_keep. f_equal. by eapply collect_mon.
  - rewrite leave_rv_mon. auto with daf.
Qed.

Lemma collect_eq t i s s' v : collect t i s = (s', v) ->
  (s' = s /\ slots_ s !! Z.to_nat i = Some v) \/ (s' = set_broken s /\ slots_ s !! Z.to_nat i = None).
Proof. unfold collect. case_match; intros [= <- <-]; auto. Qed.

(** What one step does to the numbers: [G], [N] and [D] count the threads gated, inside
    and in the destructor; [B] bounds the permits and the threads that hold one. *)
Lemma rdv_local_counts ch t s p s' p' e B G N D :
  rdv_local ch t s p = Some (s', p', e) ->
  (shutdown_ s = false -> entry_gate s + G + rv_count s <= B /\ 0 <= entry_gate s) ->
  N <= rv_count s -> N <= resets_ s -> (0 < D -> shutdown_ s = true) ->
  b2z (gated p) <= G -> b2z (inside p) <= N -> b2z (deleting p) <= D ->
  let G' := G - b2z (gated p) + b2z (gated p') in
  let N' := N - b2z (inside p) + b2z (inside p') in
  let D' := D - b2z (deleting p) + b2z (deleting p') in
  parties_ s' = parties_ s
  /\ (shutdown_ s' = false -> entry_gate s' + G' + rv_count s' <= B /\ 0 <= entry_gate s')
  /\ N' <= rv_count s' /\ N' <= resets_ s' /\ (0 < D' -> shutdown_ s' = true) /\ e <> ESignal.
Proof.
  intros Hl HG HN1 HN2 HD H1 H2 H3.
  destruct s as [m g P sy n rs br sd tr sl ar]. cbn in HG, HN1, HN2, HD.
  local_cases Hl; monitor_facts; unfold leave in *;
    try match goal with H : collect _ _ _ = _ |- _ => apply collect_eq in H as [[-> _]|[-> _]] end; simpl in *;
    rewrite ?Z.ltb_lt, ?Z.ltb_ge, ?Z.eqb_eq, ?Z.eqb_neq, ?negb_true_iff, ?negb_false_iff in *; subst.
  all: try destruct br; try destruct sd; simpl in *; try discriminate.
  all: try (specialize (HG eq_refl)).
  all: try (case_match; simpl in *).
  all: try (specialize (HD ltac:(lia)); discriminate).
  all: repeat split; intros; try done; try lia.
Qed.

Ltac rdv_cases Hl :=
  local_cases Hl; unfold leave in *;
  try match goal with H : collect _ _ _ = _ |- _ => apply collect_eq in H as [[-> ?]|[-> ?]] end; simpl in *.

Lemma local_knows ch t s p s' p' e : rdv_local ch t s p = Some (s', p', e) -> knows s p -> knows s' p'.
Proof.
  intros Hl. rdv_cases Hl; rewrite ?orb_true_iff, ?orb_false_iff; try done; try tauto.
  - by intros _; apply orb_true_iff.
  - by intros _; apply orb_false_iff.
  - match goal with H : outcome _ _ _ _ = _ |- _ => revert H end. unfold outcome, calm.
    repeat case_match; intros ?; simplify_eq. intros [|]; [congruence|done].
  - unfold outcome in *. by repeat case_match.
Qed.

Lemma knows_holds s p : rdv_holds p = false -> knows s p.
Proof. by destruct p. Qed.

(** Who does not own the mutex leaves the state alone, when another does. *)
Lemma local_frame ch t s p s' p' e : rdv_local ch t s p = Some (s', p', e) -> rdv_holds p = false ->
  owner (rv_mon s) <> None ->
  broken_ s' = broken_ s /\ shutdown_ s' = shutdown_ s /\ triggered_ s' = triggered_ s /\ slots_ s' = slots_ s.
Proof.
  intros Hl Hh Ho. rdv_cases Hl; try done.
  all: match goal with H : lock _ _ = Some _ |- _ => apply lock_counts in H as (_ & _ & ?) end; done.
Qed.

(** Leaving as the last one starts a new cycle. *)
Definition resets (s : rdv) (p p' : rpc) : Prop := resets_ s = 1 /\ inside p = true /\ inside p' = false.

Lemma local_calm ch t s p s' p' e : rdv_local ch t s p = Some (s', p', e) -> calm s' -> calm s \/ resets s p p'.
Proof.
  unfold calm, resets. intros Hl. rdv_cases Hl; try tauto; try (intros []; congruence).
  destruct (Z.eqb_spec (resets_ s - 1) 0); simpl; [|tauto]. right. split; [lia|done].
Qed.

Lemma local_arrived ch t s p s' p' e : rdv_local ch t s p = Some (s', p', e) ->
  arrived s' = arrived s \/ (exists x tm, p = RvEnter x tm /\ s' = enter x s /\ p' = RvTest x (rv_count s) tm false)
  \/ resets s p p'.
Proof.
  unfold resets. intros Hl. rdv_cases Hl; eauto 10.
  destruct (Z.eqb_spec (resets_ s - 1) 0); simpl; [|tauto]. right. right. split; [lia|done].
Qed.

Lemma local_place ch t s p s' p' e i x : rdv_local ch t s p = Some (s', p', e) -> place p' = Some (i, x) ->
  place p = Some (i, x) \/ exists tm, p = RvEnter x tm /\ i = rv_count s.
Proof.
  intros Hl. rdv_cases Hl; intros Hp; simplify_eq; eauto.
  all: try (unfold outcome in *; repeat case_match; simplify_eq; by auto).
  all: destruct p'; simplify_eq; auto.
Qed.

Lemma local_slots ch t s p s' p' e C G : rdv_local ch t s p = Some (s', p', e) -> knows s p ->
  (shutdown_ s = false -> entry_gate s + G + rv_count s <= parties_ s /\ 0 <= entry_gate s) ->
  b2z (gated p) <= G -> 0 <= C -> b2z (catching p) <= C -> (rdv_holds p = true -> C = b2z (catching p)) ->
  slots_ok s C -> slots_ok s' (C - b2z (catching p) + b2z (catching p')).
Proof.
  intros Hl Hk HG HG1 HC HC1 Hh [Ho Ht]. unfold calm in *.
  destruct s as [m g P sy n rs br sd tr sl ar]. simpl in *.
  rdv_cases Hl; unfold calm; try (specialize (Hh eq_refl)); split; unfold calm; simpl; try (intros; lia).
  all: try (intros; apply Ho; [lia|done..]); try exact Ht.
  all: try (case_match; simpl; try done; try (intros; apply Ho; [lia|done..]); try exact Ht).
  all: try (destruct Hk; congruence).
  - intros _ -> ->. destruct Ho as [-> ->]; [lia|done..|]. rewrite length_app. cbn. split; [done|lia].
  - intros -> [-> ->]. destruct (HG eq_refl). destruct Ht as [-> _]; [done..|]. lia.
  - intros _ _. rewrite negb_false_iff, Z.eqb_eq in *. destruct Hk as [-> ->]. destruct Ho as [-> ->]; [lia|done..|].
    match goal with H : fn _ = _ |- _ => rewrite H end. done.
Qed.

Lemma rdv_inv_start P n : 0 < P <= INT_MAX -> rdv_inv (rdv_start P n).
Proof.
  intros HP. assert (forall f : rpc -> bool, f RvIdle = false -> tcount f (replicate n RvIdle) = 0) as H0.
  { intros f Hf. apply tsum_zero. intros i x [-> _]%lookup_replicate. by rewrite Hf. }
  assert (forall u p, threads (rdv_start P n) !! u = Some p -> p = RvIdle) as Hi by (by intros u p [-> _]%lookup_replicate).
  split; cbn [rdv_start rdv_new shared threads rv_mon parties_ shutdown_ entry_gate rv_count resets_ triggered_ broken_];
    rewrite ?H0 by done; try lia.
  - intros t. simpl. split; [done|]. intros (p & [-> _]%lookup_replicate & Hp). done.
  - intros _. rewrite to_int_small by (unfold INT_MAX in *; lia). lia.
  - split; [by intros _ _ _|done].
  - by intros u p i t ->%Hi.
  - by intros u v p q i j t t' ->%Hi.
  - by intros u p ->%Hi.
Qed.

Ltac rpc_cases := by intros [| | | | | | |? ? ? ? []| | | | | | | |? []| | | |[]|].

Lemma place_awaken p : place (awaken p) = place p.
Proof. revert p. rpc_cases. Qed.
Lemma knows_awaken s p : knows s p -> knows s (awaken p).
Proof. revert p. rpc_cases. Qed.
Lemma place_inside p i t : place p = Some (i, t) -> inside p = true.
Proof. by destruct p. Qed.

Section one_step.
Context (c : conf rdv rpc) (ch : rchoice) (k : option nat) (t : nat) (p : rpc) (s' : rdv) (p' : rpc) (e : effect).
Context (ts : list rpc) (Hinv : rdv_inv c) (Hp : threads c !! t = Some p).
Context (Hl : rdv_local ch t (shared c) p = Some (s', p', e)).
Context (Hts : apply_effect e k (<[t := p']> (threads c)) = Some ts).

Lemma count_rv_step (f : rpc -> bool) : (forall q, waiting q = true -> f (awaken q) = f q) ->
  tcount f ts = tcount f (threads c) - b2z (f p) + b2z (f p').
Proof. apply (step_count f _ _ _ _ _ _ _ Hp Hts). Qed.

Lemma counts_step B :
  (shutdown_ (shared c) = false ->
    entry_gate (shared c) + tcount gated (threads c) + rv_count (shared c) <= B /\ 0 <= entry_gate (shared c)) ->
  parties_ s' = parties_ (shared c)
  /\ (shutdown_ s' = false -> entry_gate s' + tcount gated ts + rv_count s' <= B /\ 0 <= entry_gate s')
  /\ tcount inside ts <= rv_count s' /\ tcount inside ts <= resets_ s'
  /\ (0 < tcount deleting ts -> shutdown_ s' = true) /\ e <> ESignal.
Proof.
  intros HB. destruct Hinv as [_ _ [Hi1 Hi2] Hd _ _ _ _]. rewrite !count_rv_step by rpc_cases.
  exact (rdv_local_counts _ _ _ _ _ _ _ B (tcount gated (threads c)) (tcount inside (threads c)) (tcount deleting (threads c))
    Hl HB Hi1 Hi2 Hd (tcount_le_one _ _ _ _ Hp) (tcount_le_one _ _ _ _ Hp) (tcount_le_one _ _ _ _ Hp)).
Qed.

Lemma slots_step : slots_ok s' (tcount catching ts).
Proof.
  rewrite count_rv_step by rpc_cases. destruct Hinv as [Hlock Hg _ _ Hs _ _ Hk].
  apply (local_slots _ _ _ _ _ _ _ _ (tcount gated (threads c)) Hl (Hk _ _ Hp) Hg); try by eapply tcount_le_one.
  - apply tcount_nonneg.
  - intros Hh. eapply (lock_inv_count _ rdv_holds); eauto. rpc_cases.
  - done.
Qed.

(** A thread with a place after the step: the cycle went on, and it had the place before or
    has just arrived. *)
Lemma place_step u q i x : ts !! u = Some q -> place q = Some (i, x) -> calm s' ->
  calm (shared c) /\ ~ resets (shared c) p p'
  /\ ((exists q0, threads c !! u = Some q0 /\ place q0 = Some (i, x))
      \/ (u = t /\ i = rv_count (shared c) /\ exists tm, p = RvEnter x tm)).
Proof.
  intros Hu Hq Hc.
  assert (exists q0, <[t := p']> (threads c) !! u = Some q0 /\ place q0 = Some (i, x)) as (q0 & Hu0 & Hq0).
  { destruct (effect_lookup _ _ _ _ _ _ Hts Hu) as (q0 & Hq0 & [->|[_ ->]]); [eauto|].
    exists q0. by rewrite place_awaken in Hq. }
  assert (~ resets (shared c) p p') as Hr.
  { intros (Hr1 & Hin & Hin'). destruct (counts_step _ (ri_gate _ Hinv)) as (_ & _ & _ & H1 & _).
    assert (resets_ s' = resets_ (shared c) - 1) as Hrs.
    { clear -Hl Hin Hin'. rdv_cases Hl; simplify_eq; try done; by case_match. }
    pose proof (tcount_le_one inside _ _ _ Hu) as H2. rewrite (place_inside _ _ _ Hq) in H2. cbn in H2. lia. }
  destruct (local_calm _ _ _ _ _ _ _ Hl Hc) as [Hc0|?]; [|done]. split; [done|]. split; [done|].
  destruct (decide (u = t)) as [->|Hne].
  - rewrite list_lookup_insert_eq in Hu0 by (by eapply lookup_lt_Some). injection Hu0 as <-.
    destruct (local_place _ _ _ _ _ _ _ _ _ Hl Hq0) as [H1|(tm & -> & ->)]; [left|right]; eauto.
  - rewrite list_lookup_insert_ne in Hu0 by done. eauto.
Qed.

(** When a thread arrives, the vector of arrivals is as long as the count. *)
Lemma arrival_length x tm : p = RvEnter x tm -> calm (shared c) -> rv_count (shared c) = Z.of_nat (length (arrived (shared c))).
Proof.
  intros -> Hc. destruct Hinv as [Hlock Hg _ _ [Ho Ht] _ _ _].
  destruct (triggered_ (shared c)) eqn:E; [by apply Ht|]. destruct Hc as [Hb _]. apply Ho; try done.
  rewrite (lock_inv_count rv_mon rdv_holds catching c t _ Hlock Hp); [done|done|]. rpc_cases.
Qed.

(** The items arrive one after the other. *)
Lemma arrival_arrived x tm : p = RvEnter x tm -> arrived s' = arrived (shared c) ++ [x].
Proof. intros E. assert (Hl' := Hl). rewrite E in Hl'. destruct ch; try done. by injection Hl' as <- _ _. Qed.

Lemma place_inv_step u q i x : ts !! u = Some q -> place q = Some (i, x) -> calm s' ->
  0 <= i /\ arrived s' !! Z.to_nat i = Some x.
Proof.
  intros Hu Hq Hc. destruct (place_step _ _ _ _ Hu Hq Hc) as (Hc0 & Hr & [(q0 & Hu0 & Hq0)|(-> & -> & tm & Ep)]).
  - destruct (ri_place _ Hinv _ _ _ _ Hu0 Hq0 Hc0) as [H1 H2]. split; [done|].
    destruct (local_arrived _ _ _ _ _ _ _ Hl) as [->|[(y & tm & Ep & _ & _)|?]]; [done| |done].
    rewrite (arrival_arrived _ _ Ep). by apply lookup_app_l_Some.
  - rewrite (arrival_length _ _ Ep Hc0), (arrival_arrived _ _ Ep), Nat2Z.id. split; [lia|]. by apply list_lookup_middle.
Qed.

Lemma distinct_step u v q r i j x y : ts !! u = Some q -> ts !! v = Some r ->
  place q = Some (i, x) -> place r = Some (j, y) -> u <> v -> calm s' -> i <> j.
Proof.
  intros Hu Hv Hq Hr Hne Hc.
  destruct (place_step _ _ _ _ Hu Hq Hc) as (Hc0 & _ & [(q0 & Hu0 & Hq0)|(-> & -> & tm & E)]),
    (place_step _ _ _ _ Hv Hr Hc) as (_ & _ & [(r0 & Hv0 & Hr0)|(-> & -> & tm' & E')]); [| | |done].
  - by apply (ri_distinct _ Hinv u v q0 r0 i j x y).
  - destruct (ri_place _ Hinv _ _ _ _ Hu0 Hq0 Hc0) as [H1 H2%lookup_lt_Some]. pose proof (arrival_length _ _ E' Hc0). lia.
  - destruct (ri_place _ Hinv _ _ _ _ Hv0 Hr0 Hc0) as [H1 H2%lookup_lt_Some]. pose proof (arrival_length _ _ E Hc0). lia.
Qed.

Lemma knows_step u q : ts !! u = Some q -> knows s' q.
Proof.
  intros Hu. assert (forall q0, <[t := p']> (threads c) !! u = Some q0 -> knows s' q0) as Hq0.
  { intros q0 Hq0. destruct (decide (u = t)) as [->|Hne].
    - rewrite list_lookup_insert_eq in Hq0 by (by eapply lookup_lt_Some). injection Hq0 as <-.
      eapply local_knows; [exact Hl|]. by eapply ri_knows.
    - rewrite list_lookup_insert_ne in Hq0 by done. destruct (rdv_holds q0) eqn:Eh; [|by apply knows_holds].
      assert (rdv_holds p = false) as Ep.
      { destruct (rdv_holds p) eqn:Ep; [|done]. destruct Hne. by apply (lock_inv_unique _ _ _ _ _ _ _ (ri_lock _ Hinv) Hp Ep Hq0). }
      assert (owner (rv_mon (shared c)) = Some u) as Ho by (apply (ri_lock _ Hinv); eauto).
      destruct (local_frame _ _ _ _ _ _ _ Hl Ep ltac:(by rewrite Ho)) as (E1 & E2 & E3 & E4).
      pose proof (ri_knows _ Hinv _ _ Hq0) as Hk. unfold knows, calm in *. by rewrite E1, E2, E3, E4. }
  destruct (effect_lookup _ _ _ _ _ _ Hts Hu) as (q0 & H0 & [->|[_ ->]]); [by apply Hq0|]. by apply knows_awaken, Hq0.
Qed.
End one_step.

Lemma rdv_inv_step c c' : rdv_inv c -> step rdv_next c c' -> rdv_inv c'.
Proof.
  intros Hinv Hstep.
  pose proof (lock_inv_step _ _ _ c c' rdv_respects_lock ltac:(rpc_cases) (ri_lock _ Hinv) Hstep) as Hlock'.
  destruct Hstep as ([ch k] & t & Hn). apply next_inv in Hn as (p & s & p' & e & ts & Hp & Hl & Hts & ->).
  destruct (counts_step _ _ _ _ _ _ _ _ _ Hinv Hp Hl Hts _ (ri_gate _ Hinv)) as (H0 & H1 & H2 & H3 & H4 & _).
  split; cbn [shared threads]; [done|by rewrite H0|done|done|..].
  - by eapply slots_step.
  - by eapply place_inv_step.
  - by eapply distinct_step.
  - by eapply knows_step.
Qed.

Lemma rdv_inv_reachable P n c : 0 < P <= INT_MAX -> reachable rdv_next (rdv_start P n) c -> rdv_inv c.
Proof. intros HP. apply invariant; [by apply rdv_inv_start|intros c1 c2; apply rdv_inv_step]. Qed.

(** ** Properties *)

(** C13 (safety). A thread is given an item only by a complete cycle: all parties have come,
    nothing has broken the cycle, the command has run on the items in the order of their
    arrival, and the thread returns what the command left at its own place, which no other
    thread of the cycle has. *)
Theorem rendezvous_exchange P n c u t i v :
  0 < P <= INT_MAX -> reachable rdv_next (rdv_start P n) c -> threads c !! u = Some (RvReset t i (RvItem v)) ->
  let items := arrived (shared c) in
  Z.of_nat (length items) = parties_ (shared c) /\ triggered_ (shared c) = true /\ broken_ (shared c) = false
  /\ 0 <= i < parties_ (shared c) /\ items !! Z.to_nat i = Some t /\ fst (fn items) !! Z.to_nat i = Some v
  /\ forall w q j t', threads c !! w = Some q -> place q = Some (j, t') -> u <> w ->
       i <> j /\ items !! Z.to_nat j = Some t'.
Proof.
  intros HP Hc Hu items. pose proof (rdv_inv_reachable _ _ _ HP Hc) as Hinv.
  destruct (ri_knows _ Hinv _ _ Hu) as (Hcalm & Htr & Hv). destruct (so_triggered _ _ (ri_slots _ Hinv) Htr Hcalm) as (H1 & H2 & H3).
  destruct (ri_place _ Hinv _ _ i t Hu eq_refl Hcalm) as [H4 H5]. pose proof (lookup_lt_Some _ _ _ H5) as H6.
  fold items in H2, H3, H5, H6. rewrite H3 in Hv. split; [lia|]. split; [done|]. split; [apply Hcalm|].
  split; [lia|]. split; [done|]. split; [done|]. intros w q j t' Hw Hq Hne. split.
  - by apply (ri_distinct _ Hinv u w _ q i j t t' Hu Hw).
  - by apply (ri_place _ Hinv _ _ _ _ Hw Hq Hcalm).
Qed.

(** Fewer permits than parties: nobody can meet any more. *)
Definition short (c : conf rdv rpc) : Prop :=
  shutdown_ (shared c) = false ->
  entry_gate (shared c) + tcount gated (threads c) + rv_count (shared c) <= parties_ (shared c) - 1 /\ 0 <= entry_gate (shared c).

Lemma short_step c c' : rdv_inv c -> short c -> step rdv_next c c' -> short c'.
Proof.
  intros Hinv Hs ([ch k] & t & (p & s & p' & e & ts & Hp & Hl & Hts & ->)%next_inv).
  destruct (counts_step _ _ _ _ _ _ _ _ _ Hinv Hp Hl Hts _ Hs) as (H0 & H1 & _). unfold short. cbn [shared threads].
  by rewrite H0.
Qed.

Lemma short_forever P n c c' u t i v : 0 < P <= INT_MAX -> reachable rdv_next (rdv_start P n) c -> short c ->
  reachable rdv_next c c' -> threads c' !! u = Some (RvReset t i (RvItem v)) -> False.
Proof.
  intros HP Hc Hs Hc' Hu. pose proof (rdv_inv_reachable _ _ _ HP Hc) as Hinv.
  assert (rdv_inv c' /\ short c') as [Hinv' Hs'].
  { clear Hc Hu. induction Hc' as [c|c c1 c2 Hst _ IH]; [done|]. apply IH; [by eapply short_step|by eapply rdv_inv_step]. }
  destruct (ri_knows _ Hinv' _ _ Hu) as (Hcalm & Htr & _). destruct (so_triggered _ _ (ri_slots _ Hinv') Htr Hcalm) as (H1 & _).
  destruct Hcalm as [_ Hsd]. destruct (Hs' Hsd). pose proof (tcount_nonneg gated (threads c')). lia.
Qed.

(** At most [parties] threads are past the gate. *)
Lemma rendezvous_capacity P n c :
  0 < P <= INT_MAX -> reachable rdv_next (rdv_start P n) c -> shutdown_ (shared c) = false ->
  tcount gated (threads c) + tcount inside (threads c) <= parties_ (shared c).
Proof.
  intros HP Hc Hs. pose proof (rdv_inv_reachable _ _ _ HP Hc) as Hinv. destruct (ri_gate _ Hinv Hs). destruct (ri_inside _ Hinv). lia.
Qed.
End rendezvous.

(** ** The rotator *)

Definition rotator {T} (l : list T) : list T * option daf_exn := (rotate l, None).

(** Each party leaves with the item of the one that came after it, the last with the first. *)
Lemma rotate_lookup {T} (l : list T) i :
  (i < length l)%nat -> rotate l !! i = l !! (if (S i =? length l)%nat then 0%nat else S i).
Proof.
  destruct l as [|x l]; simpl; [lia|]. intros Hi. destruct (Nat.eqb_spec i (length l)) as [->|Hne].
  - by rewrite list_lookup_middle.
  - by rewrite lookup_app_l by lia.
Qed.

(** ** Executions *)

Definition sched : Type := list ((@rchoice Z * option nat) * nat).
Definition rmany (n t : nat) : sched := replicate n ((RGo Spurious true 0, None), t).
Definition rcall (v : Z) (t : nat) : sched := [((RCall v false, None), t)].

Definition rdv_after (P : Z) (n : nat) (l : sched) : conf (@rdv Z) (@rpc Z) :=
  default (rdv_start P n) (run (rdv_next rotator) l (rdv_start P n)).

Lemma rdv_after_reachable P n l : reachable (rdv_next rotator) (rdv_start P n) (rdv_after P n l).
Proof. unfold rdv_after. destruct (run _ _ _) eqn:E; [by eapply run_reachable|]. apply rtc_refl. Qed.

(** Two parties exchange 10 and 20. *)
Definition exchange : sched := rcall 10 0 ++ rmany 9 0 ++ rcall 20 1 ++ rmany 8 1.

Lemma rendezvous_exchange_witness :
  let c := rdv_after 2 2 exchange in
  threads c !! 1%nat = Some (RvReset 20 1 (RvItem 10))
  /\ arrived (shared c) = [10; 20] /\ fst (rotator (arrived (shared c))) !! 1%nat = Some 10.
Proof.
  intros c. assert (threads c !! 1%nat = Some (RvReset 20 1 (RvItem 10))) as Ht by (vm_compute; reflexivity).
  split; [exact Ht|]. split; [vm_compute; reflexivity|].
  destruct (rendezvous_exchange rotator 2 2 c 1 20 1 10 ltac:(unfold INT_MAX; lia) (rdv_after_reachable 2 2 exchange) Ht)
    as (_ & _ & _ & _ & _ & H & _). exact H.
Defined.

(** A command that throws. *)
Definition unlucky (l : list Z) : list Z * option daf_exn :=
  if bool_decide (13 ∈ l) then (l, Some InternalException) else (rotate l, None).

(** The thread whose command throws takes its arrival back and with it the permit of the
    gate: the rendezvous of two is left with one, and nobody ever meets there again. *)
Definition unlucky_meeting : sched := rcall 10 0 ++ rmany 9 0 ++ rcall 13 1 ++ rmany 9 1 ++ rmany 7 0.

Lemma throwing_command_closes_gate : exists c, reachable (rdv_next unlucky) (rdv_start 2 2) c
  /\ threads c = [RvDone (RvThrow BrokenBarrierException); RvIdle] /\ entry_gate (shared c) = 1 /\ rv_count (shared c) = 0
  /\ forall c' u t i v, reachable (rdv_next unlucky) c c' -> threads c' !! u <> Some (RvReset t i (RvItem v)).
Proof.
  set (c := default (rdv_start 2 2) (run (rdv_next unlucky) unlucky_meeting (rdv_start 2 2))).
  assert (reachable (rdv_next unlucky) (rdv_start 2 2) c) as Hc.
  { unfold c. destruct (run _ _ _) eqn:E; [by eapply run_reachable|]. apply rtc_refl. }
  exists c. split; [exact Hc|]. split; [vm_compute; reflexivity|]. split; [vm_compute; reflexivity|].
  split; [vm_compute; reflexivity|]. intros c' u t i v Hc' Hu.
  eapply (short_forever unlucky 2 2 c c' u); [unfold INT_MAX; lia|exact Hc| |exact Hc'|exact Hu].
  intros _. split; vm_compute; discriminate.
Qed.
