(* ===== verification/Shutdown.v ===== *)
(** * Shutdown: daf/ShutdownHandler

    A flag of the process and the monitor at which threads wait for it.  The flag is
    written and first read without the mutex; [signalled] records whether it has ever been
    set, and no step reads it.  The registration with the reactor is left out:
    [handle_signal] is called with what the set of signals says. *)

From S2P Require Import Prelude Threads Monitor.

(** ** State *)

(** daf/ShutdownHandler.cpp:30-49 [ShutdownMonitor]. *)
Record shut := mkShut { sh_mon : monitor; has_shutdown_ : bool; signalled : bool }.

(** daf/ShutdownHandler.cpp:35-37 [ShutdownMonitor::ShutdownMonitor]. *)
Definition shut_init : shut := mkShut mon_init false false.

Definition sh_with_mon (s : shut) (m : monitor) : shut := mkShut m (has_shutdown_ s) (signalled s).
(** daf/ShutdownHandler.cpp:39-42 [ShutdownMonitor::set_shutdown]. *)
Definition set_shutdown (val : bool) (s : shut) : shut := mkShut (sh_mon s) val (signalled s || val).

(** ** Program counters *)

Inductive hpc :=
| HIdle
| QTest (timed : bool)                (* if (!has_shutdown()) *)
| QLock (timed : bool)                (* the guard takes the mutex *)
| QLoop (timed : bool)                (* while (!has_shutdown()) *)
| QWait (timed : bool) (w : wait_pc)
| QExit (timed : bool) (r : result Z) (* the guard gives the mutex up *)
| QDone (timed : bool) (r : result Z)
| SSet (state : bool)                 (* send_shutdown: set_shutdown(send_state) *)
| SLock                               (* the guard takes the mutex *)
| SNotify                             (* notifyAll() *)
| SExit                               (* the guard gives the mutex up *)
| HSignal (handled : result Z)        (* handle_signal, with the result of handle_shutdown *)
| HIntr (i : intr_pc).                (* Monitor::interrupt *)

Inductive hchoice :=
| HWait (timed : bool)
| HSend (state : bool)
| HHandle (is_member : bool) (handled : result Z)
| HInterrupt
| HGo (w : wait_choice).

(** ** Operations *)

(** daf/ShutdownHandler.cpp:68-82 [ShutdownHandler::wait_shutdown]. *)
Definition wait_shutdown_next (w : wait_choice) (t : nat) (s : shut) (p : hpc) : option (shut * hpc) :=
  match p with
  | QTest tm => Some (s, if has_shutdown_ s then QDone tm (Ok 0) else QLock tm)
  | QLock tm => m ← lock t (sh_mon s); Some (sh_with_mon s m, QLoop tm)
  | QLoop tm => Some (s, if has_shutdown_ s then QExit tm (Ok 0) else QWait tm WTest)
  | QWait tm w' =>
      '(m, o) ← wait_next w t tm w' (sh_mon s);
      Some (sh_with_mon s m, match o with
                             | WGo w' => QWait tm w'
                             | WReturn WOk => QLoop tm
                             | WReturn WTime => QExit tm (Ok (-1))
                             | WInterrupted => QExit tm (Throw InterruptedException)
                             end)
  | QExit tm r => Some (sh_with_mon s (unlock (sh_mon s)), QDone tm r)
  | _ => None
  end.

(** daf/ShutdownHandler.cpp:89-98 [ShutdownHandler::send_shutdown]. *)
Definition send_shutdown_next (t : nat) (s : shut) (p : hpc) : option (shut * hpc * effect) :=
  match p with
  | SSet state => Some (set_shutdown state s, SLock, ENone)
  | SLock => m ← lock t (sh_mon s); Some (sh_with_mon s m, SNotify, ENone)
  | SNotify => Some (s, SExit, EBroadcast)
  | SExit => Some (sh_with_mon s (unlock (sh_mon s)), HIdle, ENone)
  | _ => None
  end.

(** daf/ShutdownHandler.cpp:106-126 [ShutdownHandler::handle_signal]. A signal of the set sends the shutdown, unless the handler
    returns another value than 0; the others are for the base class. *)
Definition handle_signal (is_member : bool) (handled : result Z) : hpc :=
  if is_member then match handled with Ok r => if r =? 0 then SSet true else HIdle | Throw _ => SSet true end
  else HIdle.

(** daf/ShutdownHandler.cpp:68-126 [ShutdownHandler]. One step of a thread. *)
Definition shut_local (ch : hchoice) (t : nat) (s : shut) (p : hpc) : option (shut * hpc * effect) :=
  match ch, p with
  | HWait tm, HIdle => Some (s, QTest tm, ENone)
  | HSend state, HIdle => Some (s, SSet state, ENone)
  | HHandle is_member handled, HIdle => Some (s, handle_signal is_member handled, ENone)
  | HInterrupt, HIdle => Some (s, HIntr IStart, ENone)
  | HGo w, (QTest _ | QLock _ | QLoop _ | QWait _ _ | QExit _ _) => '(s, p) ← wait_shutdown_next w t s p; Some (s, p, ENone)
  | HGo _, QDone _ _ => Some (s, HIdle, ENone)
  | HGo _, (SSet _ | SLock | SNotify | SExit) => send_shutdown_next t s p
  | HGo _, HIntr i =>
      '(m, o, e) ← intr_next t i (sh_mon s);
      Some (sh_with_mon s m, match o with IGo i => HIntr i | IReturn _ => HIdle end, e)
  | _, _ => None
  end.

#[export] Instance shut_waits : Waits hpc := {|
  waiting := fun p => match p with QWait _ Waiting => true | _ => false end;
  awaken := fun p => match p with QWait tm Waiting => QWait tm (Woken WOk) | _ => p end;
|}.

#[export] Instance shut_waits_laws : WaitsLaws hpc.
Proof. split; intros []; try done; match goal with w : wait_pc |- _ => by destruct w end. Qed.

Definition shut_next := next shut_local.
Definition shut_start (n : nat) : conf shut hpc := mkConf shut_init (replicate n HIdle).

(** ** Invariant *)

Definition shut_holds (p : hpc) : bool :=
  match p with
  | QLoop _ | QExit _ _ | SNotify | SExit => true
  | QWait _ w => wait_holds w
  | HIntr i => intr_holds i
  | _ => false
  end.

(** Has read the flag as false and sleeps, or will. *)
Definition falling (p : hpc) : bool :=
  match p with QWait _ (WTest | WInc | WBlock | Waiting) => true | _ => false end.
(** Has written the flag and not yet woken the waiters. *)
Definition sending (p : hpc) : bool := match p with SLock | SNotify => true | _ => false end.

Definition result_ok (s : shut) (p : hpc) : Prop :=
  match p with
  | QExit tm (Ok r) | QDone tm (Ok r) => (r = 0 /\ signalled s = true) \/ (r = -1 /\ tm = true)
  | QWait tm (Woken WTime | WDec WTime | WLeave WTime) => tm = true
  | _ => True
  end.

Record shut_inv (c : conf shut hpc) : Prop := {
  hi_lock : lock_inv sh_mon shut_holds c;
  hi_falling : has_shutdown_ (shared c) = true -> 0 < tcount falling (threads c) -> 0 < tcount sending (threads c);
  hi_signalled : has_shutdown_ (shared c) = true -> signalled (shared c) = true;
  hi_result : forall t p, threads c !! t = Some p -> result_ok (shared c) p;
}.

Lemma shut_respects_lock : respects_lock shut_local sh_mon shut_holds.
Proof.
  intros ch t s p s' p' e Hl. local_cases Hl; simpl; auto with daf.
  all: try lock_facts. all: by unfold handle_signal; repeat case_match; apply lock_step_keep.
Qed.

Lemma shut_local_result ch t s p s' p' e : shut_local ch t s p = Some (s', p', e) ->
  (has_shutdown_ s = true -> signalled s = true) -> result_ok s p ->
  result_ok s' p' /\ (has_shutdown_ s' = true -> signalled s' = true) /\ (signalled s = true -> signalled s' = true).
Proof.
  intros Hl Hs Hp. local_cases Hl; rewrite ?orb_true_iff; auto.
  all: try (unfold handle_signal; repeat case_match; by auto).
  all: match goal with H : wait_next _ _ _ ?w _ = Some _ |- _ => destruct w; simpl in H; simplify_option_eq; repeat case_match; simplify_option_eq; auto end.
Qed.

(** One step against the threads that fall asleep, [F] of them, and the senders [S]. *)
Lemma shut_local_falling ch t s p s' p' e F S : shut_local ch t s p = Some (s', p', e) ->
  (has_shutdown_ s = true -> 0 < F -> 0 < S) -> b2z (falling p) <= F -> b2z (sending p) <= S ->
  e <> EBroadcast -> (has_shutdown_ s' = true -> 0 < F - b2z (falling p) + b2z (falling p') -> 0 < S - b2z (sending p) + b2z (sending p')).
Proof.
  intros Hl Hi HF HS He. local_cases Hl; try (intros; congruence); try (intros; lia).
  all: try match goal with H : wait_next _ _ _ ?w _ = Some _ |- _ =>
    destruct w; simpl in H; simplify_option_eq; repeat case_match; simplify_option_eq end.
  all: try (unfold handle_signal; repeat case_match).
  all: cbn; intros Hsd ?; specialize (Hi Hsd); lia.
Qed.

Lemma falling_holds p : falling p = true -> shut_holds p = true \/ waiting p = true.
Proof. destruct p as [| | | |tm w| | | | | | | |]; try done. destruct w; auto. Qed.

Lemma shut_local_effect ch t s p s' p' e : shut_local ch t s p = Some (s', p', e) ->
  e = ENone \/ e = EBroadcast /\ shut_holds p = true /\ falling p' = false.
Proof.
  intros Hl. local_cases Hl; auto 6.
  all: match goal with H : intr_next _ ?i _ = Some _ |- _ => destruct i as [| |[|]| | |] end;
    simpl in *; simplify_option_eq; auto 6.
Qed.

(** A broadcast leaves nobody asleep or about to be. *)
Lemma broadcast_falling c t p p' k ts : lock_inv sh_mon shut_holds c -> threads c !! t = Some p -> shut_holds p = true ->
  falling p' = false -> apply_effect EBroadcast k (<[t := p']> (threads c)) = Some ts -> tcount falling ts = 0.
Proof.
  intros Hlock Hp Hh Hf Hts. assert (ts = awaken <$> <[t := p']> (threads c)) as -> by (by injection Hts as <-).
  unfold tcount. rewrite tsum_fmap. apply tsum_zero. intros u q Hq.
  enough (falling (awaken q) = false) as E by (cbv beta; by rewrite E).
  destruct (decide (u = t)) as [->|Hne].
  - rewrite list_lookup_insert_eq in Hq by (by eapply lookup_lt_Some). injection Hq as <-.
    destruct p' as [| | | |? []| | | | | | | |]; done.
  - rewrite list_lookup_insert_ne in Hq by done. destruct (falling q) eqn:E.
    + destruct (falling_holds _ E) as [Hq1|Hq1].
      * destruct Hne. by apply (lock_inv_unique _ _ _ _ _ _ _ Hlock Hp Hh Hq).
      * destruct q as [| | | |? []| | | | | | | |]; done.
    + destruct q as [| | | |? []| | | | | | | |]; done.
Qed.

Lemma shut_inv_step c c' : shut_inv c -> step shut_next c c' -> shut_inv c'.
Proof.
  intros [Hlock Hf Hs Hr] Hstep.
  pose proof (lock_inv_step _ _ _ c c' shut_respects_lock ltac:(by intros [| | | |? []| | | | | | | |[]]) Hlock Hstep) as Hlock'.
  destruct Hstep as ([ch k] & t & Hn). apply next_inv in Hn as (p & s & p' & e & ts & Hp & Hl & Hts & ->).
  cbn [fst snd shared threads] in *.
  destruct (shut_local_result _ _ _ _ _ _ _ Hl Hs (Hr _ _ Hp)) as (Hr' & Hs' & Hmono).
  split; cbn [shared threads]; [done| |done|].
  - destruct (shut_local_effect _ _ _ _ _ _ _ Hl) as [->|(-> & Hh & Hf')].
    + injection Hts as <-. rewrite !(tcount_insert _ _ _ _ _ Hp).
      by apply (shut_local_falling _ _ _ _ _ _ _ _ _ Hl Hf (tcount_le_one _ _ _ _ Hp) (tcount_le_one _ _ _ _ Hp)).
    + rewrite (broadcast_falling _ _ _ _ _ _ Hlock Hp Hh Hf' Hts). lia.
  - assert (forall q, result_ok (shared c) q -> result_ok s q) as Hq.
    { intros q. destruct q as [| | | | |? []|? []| | | | | |]; try done; cbn; intros [[? ?]|?]; auto. }
    intros u q Hu. destruct (effect_lookup _ _ _ _ _ _ Hts Hu) as (q0 & H0 & Hor).
    assert (result_ok s q0) as Hq0.
    { apply list_lookup_insert_Some in H0 as [(_ & <- & _)|[_ H0]]; [done|]. by apply Hq, (Hr u). }
    destruct Hor as [->|[_ ->]]; [done|]. by destruct q0 as [| | | |? []| | | | | | | |].
Qed.

Lemma shut_inv_reachable n c : reachable shut_next (shut_start n) c -> shut_inv c.
Proof.
  apply invariant; [|apply shut_inv_step].
  assert (forall t p, threads (shut_start n) !! t = Some p -> p = HIdle) as Hi by (by intros t p [-> _]%lookup_replicate).
  split; try done.
  - intros t. simpl. split; [done|]. intros (p & [-> _]%lookup_replicate & Hp). done.
  - by intros t p ->%Hi.
Qed.

(** ** Properties *)

(** The shutdown reaches every thread: while the flag is set and no
    send_shutdown is between its write and its wake-up, no thread sleeps in wait_shutdown or
    is about to.  And a result can be relied on: 0 means that the shutdown has been signalled,
    -1 that a deadline was given. *)
Theorem shutdown_reaches_all n c :
  reachable shut_next (shut_start n) c ->
  (has_shutdown_ (shared c) = true -> tcount sending (threads c) = 0 ->
     forall t p, threads c !! t = Some p -> falling p = false)
  /\ (forall t tm r, threads c !! t = Some (QDone tm (Ok r)) ->
        (r = 0 /\ signalled (shared c) = true) \/ (r = -1 /\ tm = true)).
Proof.
  intros [_ Hf _ Hr]%shut_inv_reachable. split.
  - intros Hs H0 t p Hp. pose proof (tcount_le_one falling _ _ _ Hp) as H1. destruct (falling p); [|done].
    cbn in H1. specialize (Hf Hs). lia.
  - intros t tm r Ht. exact (Hr _ _ Ht).
Qed.

(** ** Executions *)

Definition sgo (n t : nat) : list ((hchoice * option nat) * nat) := replicate n ((HGo Spurious, None), t).

(** Thread 0 waits; a signal makes thread 1 send the shutdown. *)
Definition signalled_wait : list ((hchoice * option nat) * nat) :=
  [((HWait false, None), 0%nat)] ++ sgo 6 0 ++ [((HHandle true (Ok 0), None), 1%nat)] ++ sgo 4 1 ++ sgo 5 0.

Definition shut_after (l : list ((hchoice * option nat) * nat)) : conf shut hpc :=
  default (shut_start 2) (run shut_next l (shut_start 2)).

Lemma shut_after_reachable l : reachable shut_next (shut_start 2) (shut_after l).
Proof. unfold shut_after. destruct (run _ _ _) eqn:E; [by eapply run_reachable|]. apply rtc_refl. Qed.

Lemma shutdown_reaches_all_witness :
  let c := shut_after signalled_wait in
  threads c = [QDone false (Ok 0); HIdle] /\ has_shutdown_ (shared c) = true
  /\ (forall t p, threads c !! t = Some p -> falling p = false) /\ signalled (shared c) = true.
Proof.
  intros c. split; [vm_compute; reflexivity|]. split; [vm_compute; reflexivity|].
  destruct (shutdown_reaches_all 2 c (shut_after_reachable signalled_wait)) as [H1 H2]. split.
  - apply H1; vm_compute; reflexivity.
  - assert (threads c !! 0%nat = Some (QDone false (Ok 0))) as H0 by (vm_compute; reflexivity).
    destruct (H2 _ _ _ H0) as [[_ H]|[H _]]; [exact H|discriminate H].
Defined.
