(* ===== verification/Signals.v ===== *)
(** * Signals, the reactor and the termination of threads: daf/SignalHandler, WFMOSignalReactor, TerminateRepository

    A SignalHandler is an event that a reactor dispatches.  Where the kernel has event descriptors (eventfd) a signal is a write to one and
    the reactor's call a read from it; the kernel's descriptor and ACE's reactor are classes with their documented laws.  The
    reactor's threads are TaskExecutor's.  Where threads cannot be cancelled (Windows) a repository has an event for each thread by which its
    waits are ended. *)

From S2P Require Import Prelude.

(** ** Event descriptors *)

(** A write of 1 and a read, on the descriptor's counter; [None]: it would block. *)
Class EventFd := {
  efd_write : Z -> option Z;
  efd_read : Z -> option (Z * Z);     (* what is read, and the counter behind it *)
}.

Definition EFD_MAX : Z := 2 ^ 64 - 2.

(** eventfd(2); [semaphore]: made with EFD_SEMAPHORE. *)
Class EventFdLaws `{EventFd} (semaphore : bool) : Prop := {
  efd_write_law c : 0 <= c <= EFD_MAX -> efd_write c = if c <? EFD_MAX then Some (c + 1) else None;
  efd_read_law c : 0 <= c <= EFD_MAX -> efd_read c = if c =? 0 then None else Some (if semaphore then (1, c - 1) else (c, 0));
}.

Definition linux_eventfd (semaphore : bool) : EventFd := {|
  efd_write c := if c <? EFD_MAX then Some (c + 1) else None;
  efd_read c := if c =? 0 then None else Some (if semaphore then (1, c - 1) else (c, 0));
|}.

Lemma linux_eventfd_laws semaphore : @EventFdLaws (linux_eventfd semaphore) semaphore.
Proof. by split. Qed.

(** ** SignalHandler *)

(** daf/SignalHandler.h:58-70 [SignalHandler]. The counter of its descriptor, the event it inherits, how many times handle_event was called. *)
Record handler := Handler { fd_ : Z; counter : Z; auto_event : bool; handled : Z }.

Section handler.
Context `{EventFd}.

(** daf/SignalHandler.cpp:57-83 [SignalHandler::SignalHandler]. [fd]: what eventfd gives, -1 when it fails; [registered]: the result of register_handler. The second
    constructor, at lines 85-101, is the same. Gives the descriptors that are open. *)
Definition construct (fd registered : Z) (initial_state : bool) : list Z * result handler :=
  if fd =? -1 then ([], Throw InitializationException)
  else if negb (registered =? 0) then ([fd], Throw InitializationException)
  else ([fd], Ok (Handler fd 0 initial_state 0)).

(** daf/SignalHandler.cpp:131-146 [SignalHandler::signal]. *)
Definition signal (s : handler) : handler * Z :=
  match efd_write (counter s) with
  | Some c => (Handler (fd_ s) c (auto_event s) (handled s), 0)
  | None => (s, -1)
  end.

(** daf/SignalHandler.cpp:189-208 [SignalHandler::handle_input]. [event]: what handle_event returns, [None] when it throws; [default_input]: what ACE's method returns. *)
Definition handle_input (fd : Z) (event : option Z) (default_input : Z) (s : handler) : handler * option Z :=
  if fd =? fd_ s then
    match efd_read (counter s) with
    | Some (_, c) => (Handler (fd_ s) c (auto_event s) (handled s + 1), event)
    | None => (s, Some default_input)
    end
  else (s, Some default_input).

(** daf/SignalHandler.cpp:113-118 [SignalHandler::handle_shutdown]. *)
Definition handle_shutdown : Z := -1.

(** daf/SignalHandler.cpp:172-187 [SignalHandler::handle_signal]. With event descriptors; [siginfo]: there is one. *)
Definition handle_signal (sigint sig : Z) (siginfo : bool) (default_signal : Z) : Z :=
  if (if sig =? 0 then siginfo else false) then default_signal
  else if sig =? sigint then handle_shutdown else default_signal.

(** daf/SignalHandler.cpp:224-228 [SignalHandler::wait]. [None]: it blocks. *)
Definition wait (s : handler) : option handler := if auto_event s then Some (Handler (fd_ s) (counter s) false (handled s)) else None.

(** What happens to a handler: signals, and the reactor's calls for its descriptor. *)
Inductive happening := Signal | Input (event : option Z).

Definition happens (h : happening) (s : handler) : handler * bool :=
  match h with
  | Signal => let '(s, r) := signal s in (s, r =? 0)
  | Input event => (fst (handle_input (fd_ s) event (-1) s), false)
  end.

(** With the number of signals that were taken. *)
Fixpoint history (hs : list happening) (s : handler) (taken : Z) : handler * Z :=
  match hs with
  | [] => (s, taken)
  | h :: hs => let '(s, b) := happens h s in history hs s (if b then taken + 1 else taken)
  end.

(** With EFD_SEMAPHORE every signal that signal() has taken is one call of handle_event: those that are not handled yet are in the counter. *)
Lemma signals_counted `{!EventFdLaws true} hs : forall s taken s' taken', 0 <= counter s <= EFD_MAX -> handled s + counter s = taken ->
  history hs s taken = (s', taken') -> handled s' + counter s' = taken' /\ 0 <= counter s' <= EFD_MAX.
Proof.
  induction hs as [|h hs IH]; intros s taken s' taken' Hc He; cbn [history]; [by intros [= <- <-]|]. destruct h as [|ev]; cbn [happens].
  - unfold signal. rewrite efd_write_law by done. destruct (Z.ltb_spec (counter s) EFD_MAX); [|by apply IH]. apply IH; cbn; lia.
  - unfold handle_input. rewrite Z.eqb_refl, efd_read_law by done. destruct (Z.eqb_spec (counter s) 0); [by apply IH|]. apply IH; cbn; lia.
Qed.

(** Without it the signals that come before the reactor reads are one call. *)
Lemma signals_merged `{!EventFdLaws false} s ev : counter s = 0 -> 
  let s' := fst (history [Signal; Signal; Input ev] s 0) in handled s' = handled s + 1 /\ counter s' = 0.
Proof.
  intros E. cbn. unfold signal. rewrite E, efd_write_law by done. change (0 <? EFD_MAX) with true. cbn. rewrite efd_write_law by done.
  change (0 + 1 <? EFD_MAX) with true. cbn. unfold handle_input. cbn. rewrite Z.eqb_refl. rewrite efd_read_law by done. done.
Qed.

(** A signal does not wake who waits for it: signal() writes to the descriptor, wait() looks at the event. *)
Lemma signal_wakes_nobody s : auto_event s = false -> wait (fst (signal s)) = None.
Proof. intros E. unfold wait, signal. by destruct (efd_write _); cbn; rewrite E. Qed.

(** A constructor that throws because it cannot register keeps its descriptor open. *)
Lemma failed_constructor_leaks fd registered b : fd <> -1 -> registered <> 0 -> construct fd registered b = ([fd], Throw InitializationException).
Proof. intros H1%Z.eqb_neq H2%Z.eqb_neq. unfold construct. by rewrite H1, H2. Qed.
End handler.

(** ** The order of the destructor *)

(** ACE's reactor: a handler is registered for a descriptor, and taken out by the descriptor it answers with. *)
Class FdReactor (R : Type) := { register_fd : Z -> nat -> R -> option R; remove_fd : Z -> R -> R; bound : R -> Z -> option nat }.

Class FdReactorLaws (R : Type) `{FdReactor R} : Prop := {
  register_law fd h r r' : register_fd fd h r = Some r' -> bound r' fd = Some h;
  remove_law fd r : bound (remove_fd fd r) fd = None;
}.

Section destructor.
Context {R : Type} `{FdReactorLaws R}.

Record process := Process { open_fds : list Z; reactor_of : R }.

(** daf/SignalHandler.cpp:103-109 [SignalHandler::destructor]. The first thing it does. *)
Definition destroy_close (fd : Z) (p : process) : process := Process (List.remove Z.eq_dec fd (open_fds p)) (reactor_of p).
(** daf/SignalHandler.cpp:110-110 [SignalHandler::destructor]. The last; the timers are left out. *)
Definition destroy_remove (fd : Z) (p : process) : process := Process (open_fds p) (remove_fd fd (reactor_of p)).

(** A constructor in another thread, which is given the descriptor [fd]. *)
Definition construct_in (fd : Z) (h : nat) (p : process) : process * bool :=
  if bool_decide (fd ∈ open_fds p) then (p, false)
  else match register_fd fd h (reactor_of p) with Some r => (Process (fd :: open_fds p) r, true) | None => (Process (fd :: open_fds p) (reactor_of p), false) end.

(** Between the two a new handler may be given the descriptor that was closed: if it can be registered at all, it is taken out of the reactor
    by the old one's destructor and gets no event. *)
Lemma closed_before_removed fd h p : let '(p1, constructed) := construct_in fd h (destroy_close fd p) in
  constructed = true -> bound (reactor_of p1) fd = Some h /\ bound (reactor_of (destroy_remove fd p1)) fd = None.
Proof.
  unfold construct_in, destroy_close. cbn. case_bool_decide; [done|]. destruct (register_fd fd h (reactor_of p)) as [r|] eqn:E; [|done]. cbn. intros _.
  split; [by eapply register_law|apply remove_law].
Qed.
End destructor.

(** ** The reactor *)

Section reactor.
Context `{AceMinMax}.

(** daf/WFMOSignalReactor.cpp:63-80 [WFMOSignalReactor::run]. [execute]: starts so many threads; with the number that was started. *)
Definition reactor_run (initialized : bool) (execute : Z -> Z) (waited : Z) (thr_count : Z) (wait_completion : bool) : Z * Z :=
  if initialized then
    let n := ace_range 1 100 thr_count in
    if execute n =? -1 then (0, -1) else (n, if wait_completion then waited else 0)
  else (0, -1).

(** daf/WFMOSignalReactor.cpp:82-89 [WFMOSignalReactor::svc]. *)
Definition reactor_svc (is_available : bool) (event_loop : Z) : Z := if is_available then event_loop else -1.

(** What closing calls, in order. *)
Inductive closing := EndLoop | CloseExecutor (flags : Z) | CloseImplementation.

(** daf/WFMOSignalReactor.cpp:91-102 [WFMOSignalReactor::close]. [end_loop]: the result of end_reactor_event_loop. *)
Definition reactor_close (deactivated : bool) (end_loop : Z) (flags : Z) : list closing :=
  if flags =? 0 then [CloseExecutor 0]
  else (if deactivated then [CloseExecutor flags] else if end_loop =? 0 then [EndLoop; CloseExecutor flags] else [EndLoop]) ++ [CloseImplementation].

Lemma reactor_threads `{!AceMinMaxLaws} initialized execute waited n wait m r : reactor_run initialized execute waited n wait = (m, r) ->
  (1 <= m <= 100 /\ initialized = true /\ execute m <> -1) \/ (m = 0 /\ r = -1).
Proof.
  unfold reactor_run. destruct initialized; [|intros [= <- <-]; by right]. rewrite ace_range_spec.
  destruct (Z.eqb_spec (execute (Z.min (Z.max 1 n) 100)) (-1)); intros [= <- <-]; [by right|left]. split; [lia|done].
Qed.

(** Its event loop is ended before its threads are waited for; unless that fails. *)
Lemma reactor_close_order deactivated end_loop flags : flags <> 0 -> end_loop = 0 ->
  reactor_close deactivated end_loop flags = (if deactivated then [] else [EndLoop]) ++ [CloseExecutor flags; CloseImplementation].
Proof. intros Hf%Z.eqb_neq ->. unfold reactor_close. rewrite Hf. by destruct deactivated. Qed.
End reactor.

(** ** TerminateRepository *)

(** daf/TerminateRepository.cpp:37-39 [TerminateEvent]. Its handle, 0 when it could not be made, and whether it is set; it stays set. *)
Record event := Event { handle : Z; is_set : bool }.

(** daf/TerminateRepository.cpp:41-41 [TerminateRepository]. By thread. *)
Abbreviation repository := (gmap Z event).

(** daf/TerminateRepository.cpp:112-122 [insertTerminateEvent]. [made]: the handle a new event gets. *)
Definition insertTerminateEvent (made thr_id : Z) (r : repository) : repository * Z :=
  let ev := default (Event made false) (r !! thr_id) in
  if handle ev =? 0 then (delete thr_id r, -1) else (<[thr_id := ev]> r, 0).

(** daf/TerminateRepository.cpp:124-128 [removeTerminateEvent]. *)
Definition removeTerminateEvent (thr_id : Z) (r : repository) : repository * Z :=
  (delete thr_id r, match r !! thr_id with Some _ => 0 | None => -1 end).

(** daf/TerminateRepository.cpp:130-143 [signalTerminateEvent]. *)
Definition signalTerminateEvent (thr_id : Z) (r : repository) : repository * Z :=
  match r !! thr_id with
  | Some ev => (<[thr_id := Event (handle ev) true]> r, 0)
  | None => (r, -1)
  end.

(** daf/TerminateRepository.cpp:145-158 [locateTerminateEvent]. [None]: ACE_INVALID_HANDLE. *)
Definition locateTerminateEvent (thr_id : Z) (r : repository) : option event := r !! thr_id.

(** A thread that is registered, then told to terminate, finds its event set until it is removed. *)
Lemma terminate_event_stays made t r r1 r2 : made <> 0 -> r !! t = None -> insertTerminateEvent made t r = (r1, 0) -> signalTerminateEvent t r1 = (r2, 0) ->
  locateTerminateEvent t r2 = Some (Event made true) /\ (removeTerminateEvent t r2).2 = 0 /\ (signalTerminateEvent t (removeTerminateEvent t r2).1).2 = -1 /\
  forall t', t' <> t -> locateTerminateEvent t' r2 = locateTerminateEvent t' r.
Proof.
  intros Hm%Z.eqb_neq Ht. unfold insertTerminateEvent, signalTerminateEvent, removeTerminateEvent, locateTerminateEvent. rewrite Ht. cbn. rewrite Hm.
  intros [= <-]. rewrite lookup_insert_eq. intros [= <-]. cbn. rewrite lookup_insert_eq, lookup_delete_eq. split; [done|]. split; [done|]. split; [done|].
  intros t' Hne. by rewrite !lookup_insert_ne by done.
Qed.

(** *** Waiting on a condition *)

(** What WaitForMultipleObjects says. *)
Inductive wait_result := WAIT_OBJECT_0 | WAIT_TERMINATE | WAIT_TIMEOUT | WAIT_FAILED (error : Z).

Inductive wait_end := Returned (result : Z) (error : option Z) | Unwinds.

Record condition := Condition { waiters_ : Z; was_broadcast_ : bool; waiters_done_ : Z; mutex_held : bool }.

Section waiting.
(** Whether the compiler unwinds a cancelled thread, and the numbers of the errors. *)
Context (has_forced_unwind : bool) (ETIME EINTR : Z).

(** WaitForMultipleObjects: the first of the objects that are set; [terminate]: the thread's event, if it has one. *)
Definition wait_for (sema : bool) (terminate : option bool) (failure : option Z) : wait_result :=
  match failure with
  | Some e => WAIT_FAILED e
  | None => if sema then WAIT_OBJECT_0 else match terminate with Some true => WAIT_TERMINATE | _ => WAIT_TIMEOUT end
  end.

(** daf/TerminateRepository.cpp:223-232 [cond_timedwait]. *)
Definition error_of (r : wait_result) : option Z :=
  match r with WAIT_OBJECT_0 => None | WAIT_TIMEOUT => Some ETIME | WAIT_TERMINATE => Some EINTR | WAIT_FAILED e => Some e end.

(** daf/TerminateRepository.cpp:162-255 [cond_timedwait]. [unlocked], [done_signalled], [relocked]: the calls on the mutex and on the broadcaster's event succeed;
    [result]: of the wait.  A number 0 of an error is none. *)
Definition cond_timedwait (unlocked done_signalled relocked : bool) (r : wait_result) (cv : condition) : condition * wait_end :=
  if unlocked then
    let last_waiter := (waiters_ cv =? 0) && was_broadcast_ cv in     (* ++ and -- of this call cancel *)
    let ok := match r with WAIT_OBJECT_0 => true | _ => false end && (if last_waiter then done_signalled else true) && relocked in
    let cv := Condition (waiters_ cv) (was_broadcast_ cv) (waiters_done_ cv + (if last_waiter && done_signalled then 1 else 0)) relocked in
    match error_of r with
    | Some error => if (error =? EINTR) && has_forced_unwind && negb (error =? 0) then (cv, Unwinds) else (cv, Returned (-1) (Some error))
    | None => (cv, Returned (if ok then 0 else -1) None)
    end
  else (cv, Returned (-1) None).

(** However a wait ends its waiter is counted off and, if the mutex can be locked, the caller has it again. *)
Lemma wait_balanced done_signalled r cv cv' e : cond_timedwait true done_signalled true r cv = (cv', e) ->
  waiters_ cv' = waiters_ cv /\ mutex_held cv' = true.
Proof. unfold cond_timedwait. destruct (error_of r); [destruct (_ && _ && _)|]; by intros [= <- <-]. Qed.

(** It says 0 only when the semaphore was taken; a thread that is told to terminate leaves the wait when there is no signal for it, and a signal that
    is there goes first. *)
Lemma terminated_wait done_signalled sema cv : EINTR <> 0 -> let r := wait_for sema (Some true) None in
  let '(_, e) := cond_timedwait true done_signalled true r cv in
  (sema = false -> e = if has_forced_unwind then Unwinds else Returned (-1) (Some EINTR)) /\ (sema = true -> e <> Unwinds).
Proof.
  intros Hne%Z.eqb_neq. unfold cond_timedwait, wait_for. destruct sema; cbn; [by split|]. rewrite Z.eqb_refl, Hne. cbn. by destruct has_forced_unwind.
Qed.

(** What WaitForSingleObject says. *)
Inductive single_result := Single_0 | Single_timeout | Single_failed (error : Z).

(** daf/TerminateRepository.cpp:257-278 [sleep]. [r]: of the wait for the thread's event, if it has one; [slept]: of ACE's sleep. *)
Definition sleep (has_event : bool) (r : single_result) (slept : Z) : wait_end :=
  if has_event then
    match r with
    | Single_timeout => Returned 0 None
    | Single_0 => if has_forced_unwind then Unwinds else Returned (-1) (Some EINTR)
    | Single_failed e => Returned (-1) (Some e)
    end
  else Returned slept None.
End waiting.
