(* ===== verification/SynchValue.v ===== *)
(** * Synchronised values: daf/SynchValue_T

    A value that some threads set and others wait for.  A setter takes the gate, writes
    the value, wakes all that wait, and goes on only when it has got one permit of
    [itemTaken_] for each of them; whoever is woken gives that permit and looks at the
    value again.  The two semaphores are counters, as the refinement theorem of [Semaphore]
    justifies; everything else runs on [Monitor].  [flushed] records that the
    destructor has given its permits; no step reads it. *)

From S2P Require Import Prelude Threads Monitor.

Section synch_value.
Context {T : Type} `{EqDecision T}.

(** ** State *)

(** daf/SynchValue_T.h:66-76 [SynchValue]. [items] are the permits of [itemTaken_], [gate] those of [setterGate_]. *)
Record sv := mkSv {
  sv_mon : monitor;
  value_ : T;
  shutdown_ : bool;
  vwaiters_ : Z;
  items : Z;
  gate : Z;
  flushed : bool;
}.

(** daf/SynchValue_T.cpp:29-36 [SynchValue::SynchValue]. *)
Definition sv_init (value : T) : sv := mkSv mon_init value false 0 0 1 false.

Definition sv_with_mon (s : sv) (m : monitor) : sv :=
  mkSv m (value_ s) (shutdown_ s) (vwaiters_ s) (items s) (gate s) (flushed s).
Definition sv_write (v : T) (s : sv) : sv :=
  mkSv (sv_mon s) v (shutdown_ s) (vwaiters_ s) (items s) (gate s) (flushed s).
Definition sv_count (n : Z) (s : sv) : sv :=
  mkSv (sv_mon s) (value_ s) (shutdown_ s) (vwaiters_ s + n) (items s) (gate s) (flushed s).
Definition sv_give (n : Z) (s : sv) : sv :=
  mkSv (sv_mon s) (value_ s) (shutdown_ s) (vwaiters_ s) (items s + n) (gate s) (flushed s).
Definition sv_gate (n : Z) (s : sv) : sv :=
  mkSv (sv_mon s) (value_ s) (shutdown_ s) (vwaiters_ s) (items s) (gate s + n) (flushed s).
Definition sv_shut (s : sv) : sv :=
  mkSv (sv_mon s) (value_ s) true (vwaiters_ s) (items s) (gate s) (flushed s).
Definition sv_flush (s : sv) : sv :=
  mkSv (sv_mon s) (value_ s) (shutdown_ s) (vwaiters_ s) (items s) (gate s) true.

(** ** Program counters *)

Inductive sv_ret := SvInt (r : Z) | SvValue (v : T) | SvThrow (e : daf_exn).

(** [v] is the value a thread sets or waits for, [k] what is left of the argument of
    SynchWaiterSemaphore::acquire. *)
Inductive vpc :=
| VIdle
| VEarly (v : T)                       (* setValue: if (this->shutdown_) return -1 *)
| VGate (v : T)                        (* this->setterGate_.acquire() *)
| VEqual (v : T)                       (* if (this->value_ == value) return 0 *)
| VAlive (v : T)                       (* else if (this->shutdown_ ? false : true) *)
| VGuard (v : T)                       (* the guard takes the mutex *)
| VShut (v : T)                        (* if (this->shutdown_) return -1 *)
| VCount (v : T)                       (* waiters = ... *)
| VWrite (v : T) (k : Z)               (* this->value_ = value *)
| VCast (k : Z)                        (* this->broadcast() *)
| VUnlock (k : Z)                      (* the guard gives the mutex up *)
| VTake (k : Z)                        (* this->itemTaken_.acquire(waiters) *)
| VOpen                                (* this->setterGate_.release() *)
| UEqual (v : T) (timed : bool)        (* waitValue: if (this->value_ == value) return 0 *)
| UAlive (v : T) (timed : bool)        (* else if (this->shutdown_ ? false : true) *)
| UGuard (v : T) (timed : bool)
| UInc (v : T) (timed : bool)          (* ++this->waiters_ *)
| UTest (v : T) (timed : bool)         (* while (this->value_ == value ? false : true) *)
| UBody (v : T) (timed : bool)         (* the tests of the try block *)
| UWait (v : T) (timed : bool) (w : wait_pc)
| UGive (v : T) (timed : bool)         (* this->itemTaken_.release() *)
| UCatch (v : T) (e : daf_exn)         (* catch (...): --this->waiters_ *)
| UAsk (v : T) (e : daf_exn)           (* if (this->setterGate_.permits() == 0) *)
| UPass (v : T) (e : daf_exn)          (* this->itemTaken_.release(); throw *)
| ULeave (v : T) (timeout : bool)      (* --this->waiters_, then the result *)
| UExit (v : T) (r : sv_ret)           (* the guard gives the mutex up *)
| RGuard | RRead                       (* getValue *)
| DGuard | DShut | DGate | DItems      (* the destructor: shutdown_, setterGate_, itemTaken_ *)
| DTest | DWait (w : wait_pc)          (* while (this->waiters_ > 0) *)
| VExit (r : sv_ret)                   (* the guard gives the mutex up *)
| VDone (r : sv_ret)
| VIntr (i : intr_pc).                 (* Monitor::interrupt, for derived classes *)

(** [late]: the deadline has passed; [gated]: how many threads wait at [setterGate_]. *)
Inductive vchoice :=
| VCallSet (v : T)
| VCallWait (v : T) (timed : bool)
| VCallGet
| VCallDelete
| VCallInterrupt
| VGo (w : wait_choice) (late : bool) (gated : nat).

(** ** Operations *)

(** daf/SynchValue_T.cpp:92-92 [SynchValue::setValue]. *)
Definition expected (s : sv) : Z := to_int (to_size (vwaiters_ s - 1 + items s)).

(** daf/SynchValue_T.h:44-50 [SynchWaiterSemaphore::acquire]. One attempt, and whether it was the last. *)
Definition acquire_next (k : Z) (s : sv) : option (sv * option Z) :=
  if 0 <=? k then if 0 <? items s then Some (sv_give (-1) s, Some (k - 1)) else None
  else Some (s, None).

(** daf/SynchValue_T.cpp:70-107 [SynchValue::setValue]. *)
Definition set_next (t : nat) (s : sv) (p : vpc) : option (sv * vpc * effect) :=
  match p with
  | VEarly v => Some (s, if shutdown_ s then VDone (SvInt (-1)) else VGate v, ENone)
  | VGate v => if 0 <? gate s then Some (sv_gate (-1) s, VEqual v, ENone) else None
  | VEqual v => Some (s, if decide (value_ s = v) then VDone (SvInt 0) else VAlive v, ENone)
  | VAlive v => Some (s, if shutdown_ s then VOpen else VGuard v, ENone)
  | VGuard v => m ← lock t (sv_mon s); Some (sv_with_mon s m, VShut v, ENone)
  | VShut v => Some (s, if shutdown_ s then VExit (SvInt (-1)) else VCount v, ENone)
  | VCount v => Some (s, VWrite v (expected s), ENone)
  | VWrite v k => Some (sv_write v s, VCast k, ENone)
  | VCast k => Some (s, VUnlock k, EBroadcast)
  | VUnlock k => Some (sv_with_mon s (unlock (sv_mon s)), VTake k, ENone)
  | VTake k => '(s, more) ← acquire_next k s; Some (s, match more with Some k => VTake k | None => VOpen end, ENone)
  | VOpen => Some (sv_gate 1 s, VDone (SvInt 0), ENone)
  | _ => None
  end.

(** daf/SynchValue_T.cpp:110-144 [SynchValue::waitValue]. And lines 146-196, with a deadline ([timed]). *)
Definition wait_value_next (w : wait_choice) (late : bool) (t : nat) (s : sv) (p : vpc) : option (sv * vpc) :=
  match p with
  | UEqual v tm => Some (s, if decide (value_ s = v) then VDone (SvInt 0) else UAlive v tm)
  | UAlive v tm => Some (s, if shutdown_ s then VDone (SvThrow IllegalThreadStateException) else UGuard v tm)
  | UGuard v tm => m ← lock t (sv_mon s); Some (sv_with_mon s m, UInc v tm)
  | UInc v tm => Some (sv_count 1 s, UTest v tm)
  | UTest v tm => Some (s, if decide (value_ s = v) then ULeave v false else UBody v tm)
  | UBody v tm =>
      Some (s, if shutdown_ s then ULeave v false
               else if tm && late then ULeave v true
               else UWait v tm WTest)
  | UWait v tm w' =>
      '(m, o) ← wait_next w t tm w' (sv_mon s);
      Some (sv_with_mon s m, match o with
                             | WGo w' => UWait v tm w'
                             | WReturn _ => UGive v tm
                             | WInterrupted => UCatch v InterruptedException
                             end)
  | UGive v tm => Some (sv_give 1 s, UTest v tm)
  | UCatch v e => Some (sv_count (-1) s, UAsk v e)
  | UAsk v e => Some (s, if gate s =? 0 then UPass v e else UExit v (SvThrow e))
  | UPass v e => Some (sv_give 1 s, UExit v (SvThrow e))
  | ULeave v timeout =>
      Some (sv_count (-1) s, UExit v (if timeout then SvThrow TimeoutException
                                      else if shutdown_ s then SvThrow IllegalThreadStateException
                                      else SvInt 0))
  | UExit v r => Some (sv_with_mon s (unlock (sv_mon s)), VDone r)
  | _ => None
  end.

(** daf/SynchValue_T.cpp:64-68 [SynchValue::getValue]. *)
Definition get_value_next (t : nat) (s : sv) (p : vpc) : option (sv * vpc) :=
  match p with
  | RGuard => m ← lock t (sv_mon s); Some (sv_with_mon s m, RRead)
  | RRead => Some (s, VExit (SvValue (value_ s)))
  | _ => None
  end.

(** daf/SynchValue_T.cpp:38-62 [SynchValue::destructor]. *)
Definition destroy_next (w : wait_choice) (gated : nat) (t : nat) (s : sv) (p : vpc) : option (sv * vpc * effect) :=
  match p with
  | DGuard => m ← lock t (sv_mon s); Some (sv_with_mon s m, DShut, ENone)
  | DShut => Some (sv_shut s, DGate, ENone)
  | DGate => Some (sv_gate (Z.of_nat gated) s, DItems, ENone)
  | DItems => Some (sv_flush (sv_give (Z.max 0 (to_int (vwaiters_ s))) s), DTest, ENone)
  | DTest => Some (if 0 <? vwaiters_ s then (s, DWait WTest, EBroadcast) else (s, VExit (SvInt 0), ENone))
  | DWait w' =>
      '(m, o) ← wait_next w t true w' (sv_mon s);
      Some (sv_with_mon s m, match o with
                             | WGo w' => DWait w'
                             | WReturn WOk => DTest
                             | WReturn WTime => VExit (SvInt 0)
                             | WInterrupted => VExit (SvThrow InterruptedException)
                             end, ENone)
  | _ => None
  end.

(** daf/SynchValue_T.cpp:64-196 [SynchValue]. One step of a thread. *)
Definition sv_local (ch : vchoice) (t : nat) (s : sv) (p : vpc) : option (sv * vpc * effect) :=
  match ch, p with
  | VCallSet v, VIdle => Some (s, VEarly v, ENone)
  | VCallWait v timed, VIdle => Some (s, UEqual v timed, ENone)
  | VCallGet, VIdle => Some (s, RGuard, ENone)
  | VCallDelete, VIdle => Some (s, DGuard, ENone)
  | VCallInterrupt, VIdle => Some (s, VIntr IStart, ENone)
  | VGo _ _ _, (VEarly _ | VGate _ | VEqual _ | VAlive _ | VGuard _ | VShut _ | VCount _ | VWrite _ _ | VCast _
                | VUnlock _ | VTake _ | VOpen) => set_next t s p
  | VGo w late _, (UEqual _ _ | UAlive _ _ | UGuard _ _ | UInc _ _ | UTest _ _ | UBody _ _ | UWait _ _ _ | UGive _ _
                   | UCatch _ _ | UAsk _ _ | UPass _ _ | ULeave _ _ | UExit _ _) =>
      '(s, p) ← wait_value_next w late t s p; Some (s, p, ENone)
  | VGo _ _ _, (RGuard | RRead) => '(s, p) ← get_value_next t s p; Some (s, p, ENone)
  | VGo w _ gated, (DGuard | DShut | DGate | DItems | DTest | DWait _) => destroy_next w gated t s p
  | VGo _ _ _, VExit r => Some (sv_with_mon s (unlock (sv_mon s)), VDone r, ENone)
  | VGo _ _ _, VDone _ => Some (s, VIdle, ENone)
  | VGo _ _ _, VIntr i =>
      '(m, o, e) ← intr_next t i (sv_mon s);
      Some (sv_with_mon s m, match o with IGo i => VIntr i | IReturn _ => VIdle end, e)
  | _, _ => None
  end.

#[export] Instance sv_waits : Waits vpc := {|
  waiting := fun p => match p with UWait _ _ Waiting | DWait Waiting => true | _ => false end;
  awaken := fun p => match p with
                     | UWait v tm Waiting => UWait v tm (Woken WOk)
                     | DWait Waiting => DWait (Woken WOk)
                     | _ => p
                     end;
|}.

#[export] Instance sv_waits_laws : WaitsLaws vpc.
Proof. split; intros []; try done; match goal with w : wait_pc |- _ => by destruct w end. Qed.

Definition sv_next := next sv_local.

(** [n] threads in front of a new value. *)
Definition sv_start (v : T) (n : nat) : conf sv vpc := mkConf (sv_init v) (replicate n VIdle).

(** ** Invariant *)

Definition sv_holds (p : vpc) : bool :=
  match p with
  | VShut _ | VCount _ | VWrite _ _ | VCast _ | VUnlock _ | UInc _ _ | UTest _ _ | UBody _ _ | UGive _ _ | UCatch _ _
  | UAsk _ _ | UPass _ _ | ULeave _ _ | UExit _ _ | RRead | DShut | DGate | DItems | DTest | VExit _ => true
  | UWait _ _ w | DWait w => wait_holds w
  | VIntr i => intr_holds i
  | _ => false
  end.

(** Counted in [waiters_]; woken, or leaving by an exception, without having given its permit. *)
Definition inside (p : vpc) : bool :=
  match p with
  | UTest _ _ | UBody _ _ | UWait _ _ _ | UGive _ _ | UCatch _ _ | ULeave _ _ => true
  | _ => false
  end.
Definition pending (p : vpc) : bool :=
  match p with
  | UWait _ _ (Woken _ | WDec _ | WLeave _) | UGive _ _ | UCatch _ _ | UAsk _ _ | UPass _ _ => true
  | _ => false
  end.

(** Setters that hold the permit of the gate, before and after they count the waiters. *)
Definition entering (p : vpc) : bool :=
  match p with VEqual _ | VAlive _ | VGuard _ | VShut _ | VOpen => true | _ => false end.
Definition taking (p : vpc) : bool :=
  match p with VCount _ | VWrite _ _ | VCast _ | VUnlock _ | VTake _ => true | _ => false end.
(** Under the guard, past the test of [shutdown_]. *)
Definition writing (p : vpc) : bool :=
  match p with VCount _ | VWrite _ _ | VCast _ | VUnlock _ => true | _ => false end.
Definition flushing (p : vpc) : bool := match p with DGate | DItems => true | _ => false end.

(** The permits a setter is going to ask for, and those it still has to get. *)
Definition planned (p : vpc) : Z := match p with VWrite _ k | VCast k => Z.max 0 (k + 1) | _ => 0 end.
Definition owed (p : vpc) : Z := match p with VUnlock k | VTake k => Z.max 0 (k + 1) | _ => 0 end.

Lemma acquire_next_inv k s s' more : acquire_next k s = Some (s', more) ->
  (0 <= k /\ 0 < items s /\ s' = sv_give (-1) s /\ more = Some (k - 1)) \/ (k < 0 /\ s' = s /\ more = None).
Proof. unfold acquire_next. repeat case_match; intros [= <- <-]; [left|right]; split_and!; try done; lia. Qed.

End synch_value.

(** The cases of a step, and of a program counter. *)
Ltac sv_cases Hl :=
  local_cases Hl;
  try match goal with H : acquire_next _ _ = Some _ |- _ =>
    apply acquire_next_inv in H as [(? & ? & -> & ?)|(? & -> & ?)]; simplify_eq end.
Ltac vpc_cases := intros []; try match goal with w : wait_pc |- _ => destruct w end; done.

Section invariant.
Context {T : Type} `{EqDecision T}.
Abbreviation sv := (@sv T).
Abbreviation vpc := (@vpc T).
Abbreviation vchoice := (@vchoice T).
Abbreviation sv_local := (@sv_local T _).
Abbreviation sv_next := (@sv_next T _).
Implicit Types (s : sv) (p q : vpc) (c : conf sv vpc).

Lemma sv_respects_lock : respects_lock sv_local sv_mon sv_holds.
Proof.
  intros ch t s p s' p' e Hl. sv_cases Hl; simpl; auto with daf.
  all: try lock_facts. all: case_match; auto with daf.
Qed.

(** *** Counting *)

(** A measure of the threads, as a function of what is summed; [moved m p p'] after a thread went from
    [p] to [p']. *)
Definition num (f : vpc -> bool) (p : vpc) : Z := b2z (f p).
Definition moved (m : (vpc -> Z) -> Z) (p p' : vpc) (f : vpc -> Z) : Z := m f - f p + f p'.

Record sv_num (B : Z) (s : sv) (m : (vpc -> Z) -> Z) : Prop := {
  sn_waiters : vwaiters_ s = m (num inside);
  sn_gate : shutdown_ s = false -> gate s + m (num entering) + m (num taking) <= B /\ 0 <= gate s;
  sn_taking : m (num taking) <= 1;
  sn_writing : 0 < m (num writing) -> shutdown_ s = false;
  sn_flushed : flushed s = true -> shutdown_ s = true;
  sn_flushing : 0 < m (num flushing) -> shutdown_ s = true;
  sn_shutdown : shutdown_ s = true -> flushed s = true \/ 0 < m (num flushing);
  sn_items : 0 <= items s;
  sn_planned : m planned <= items s + m (num inside);
}.

(** What the permits still to be got are covered by. *)
Definition covered (s : sv) (m : (vpc -> Z) -> Z) : Prop :=
  m owed <= items s + (if flushed s then 0 else m (num pending)).

Lemma to_int_size z : to_int (to_size z) = to_int z.
Proof.
  unfold to_int, to_size, SIZE_MOD. f_equal.
  rewrite <- (Z.add_mod_idemp_l (z mod 2 ^ 64)), Z.mod_mod_divide by (done || by exists (2 ^ 32)).
  by rewrite Z.add_mod_idemp_l by done.
Qed.

Lemma to_int_le z : - 2 ^ 31 <= z -> to_int z <= z.
Proof. unfold to_int. intros Hz. pose proof (Z.mod_le (z + 2 ^ 31) (2 ^ 32)). lia. Qed.

Lemma expected_le s : 0 <= vwaiters_ s -> 0 <= items s -> expected s + 1 <= vwaiters_ s + items s.
Proof. intros H1 H2. unfold expected. rewrite to_int_size. pose proof (to_int_le (vwaiters_ s - 1 + items s)). lia. Qed.

(** What is known of the measures when thread [p] makes its step. *)
Record sums (m : (vpc -> Z) -> Z) (p : vpc) : Prop := {
  su_nonneg : forall f : vpc -> bool, b2z (f p) <= m (num f);
  su_pending : sv_holds p = true -> pending p = false -> m (num pending) <= m (num inside);
  su_writing : sv_holds p = true -> m (num writing) = b2z (writing p);
  su_flushing : sv_holds p = true -> m (num flushing) = b2z (flushing p);
  su_planned : sv_holds p = true \/ taking p = true /\ m (num taking) <= 1 -> m planned = planned p;
  su_owed : taking p = true -> m (num taking) <= 1 -> m owed = owed p;
  su_taking : 0 < m owed -> 0 < m (num taking);
}.

Lemma sv_local_num ch t s p s' p' e B m :
  sv_local ch t s p = Some (s', p', e) -> B <= 1 -> sums m p -> sv_num B s m ->
  sv_num B s' (moved m p p') /\ e <> ESignal.
Proof.
  intros Hl HB [H1 _ HW HF HP _ _] [Hwt Hg Hk Hw Hfl Hfg Hsd Hi Hpl].
  pose proof (H1 inside) as G1. pose proof (H1 entering) as G2. pose proof (H1 taking) as G3.
  pose proof (H1 writing) as G4. pose proof (H1 flushing) as G5. clear H1.
  pose proof (expected_le s ltac:(pose proof (b2z_bounds (inside p)); lia) Hi) as Hex.
  destruct s as [mn v0 sd wt it g fl]. simpl in *.
  sv_cases Hl; monitor_facts; unfold moved, num in *; simpl in *.
  all: try (specialize (HW eq_refl)); try (specialize (HF eq_refl)); try (specialize (HP (or_introl eq_refl))).
  all: try (specialize (HP (or_intror (conj eq_refl Hk)))).
  all: rewrite ?Z.ltb_lt, ?Z.ltb_ge, ?Z.eqb_eq, ?Z.eqb_neq in *.
  all: split; [split; simpl; unfold num; simpl; try done; try lia|try done; by intros ->].
  all: try (intros E; first [apply Hw|apply Hfg]; lia); try (intros E; specialize (Hg E); lia).
  all: try (intros E; destruct (Hsd E) as [?|?]; [by left|right; lia]).
  all: try (intros E; specialize (Hfl E); congruence).
  intros E. rewrite Hfg in E by lia. done.
Qed.

Lemma sv_local_covered ch t s p s' p' e B m :
  sv_local ch t s p = Some (s', p', e) -> B <= 1 -> sums m p -> sv_num B s m -> covered s m -> vwaiters_ s <= INT_MAX ->
  covered s' (moved m p p') \/ exists k, p = VCast k /\ p' = VUnlock k /\ e = EBroadcast /\ s' = s.
Proof.
  intros Hl HB [H1 HQ HW HF HP HO HOK] [Hwt Hg Hk Hw Hfl Hfg Hsd Hi Hpl] Hcov Hmax. unfold covered in *.
  pose proof (H1 pending) as G1. pose proof (H1 entering) as G2. pose proof (H1 inside) as G3. clear H1.
  assert (0 <= m (num pending)) by (pose proof (b2z_bounds (pending p)); lia).
  assert (0 <= vwaiters_ s) by (pose proof (b2z_bounds (inside p)); lia).
  pose proof (to_int_small (vwaiters_ s) ltac:(lia)) as Hint.
  destruct s as [mn v0 sd wt it g fl]. simpl in *.
  sv_cases Hl; monitor_facts; unfold moved, num in *; simpl in *.
  all: try (specialize (HF eq_refl)).
  all: rewrite ?Z.ltb_lt, ?Z.ltb_ge, ?Z.eqb_eq, ?Z.eqb_neq in *.
  all: try (left; try destruct fl; lia).
  1-2: right; eauto.
  left. destruct sd; [destruct Hsd as [|]; [done..|lia]|]. specialize (Hg eq_refl). lia.
Qed.

(** *** The invariant of the system *)

Definition total (c : conf sv vpc) (f : vpc -> Z) : Z := tsum f (threads c).

(** What a thread that owns the mutex, or waits, knows. *)
Definition knows (s : sv) (p : vpc) : Prop :=
  match p with
  | UExit v (SvInt _) => value_ s = v
  | ULeave v false => value_ s = v \/ shutdown_ s = true
  | _ => True
  end.

Record sv_inv (B : Z) (c : conf sv vpc) : Prop := {
  vi_lock : lock_inv sv_mon sv_holds c;
  vi_num : sv_num B (shared c) (total c);
  vi_covered : covered (shared c) (total c);
  vi_small : Z.of_nat (length (threads c)) <= INT_MAX;
  vi_knows : forall t p, threads c !! t = Some p -> knows (shared c) p;
}.

Lemma owed_taking p : owed p <> 0 -> taking p = true.
Proof. by destruct p. Qed.

(** Where only one thread has a property, a sum over the threads with the property is its own. *)
Lemma sum_alone (f : vpc -> Z) (g : vpc -> bool) (l : list vpc) t p :
  l !! t = Some p -> g p = true -> tcount g l <= 1 -> (forall q, f q <> 0 -> g q = true) -> tsum f l = f p.
Proof.
  intros Hp Hg Hone Hfg. apply (tsum_one f _ _ _ Hp). intros j q Hq Hne.
  destruct (decide (f q = 0)) as [|Hf]; [done|].
  pose proof (tcount_two g l j t q p Hq Hp Hne (Hfg _ Hf) Hg). lia.
Qed.

Lemma sums_total B c t p : sv_inv B c -> threads c !! t = Some p -> sums (total c) p.
Proof.
  intros [Hlock _ _ _ _] Hp. unfold total. split.
  - intros f. exact (tcount_le_one f _ _ _ Hp).
  - intros Hh Hq. apply tsum_le. intros j q Hj. unfold num. destruct (decide (j = t)) as [->|Hne].
    + simplify_eq. rewrite Hq. apply b2z_bounds.
    + assert (sv_holds q = false) as Hf.
      { destruct (sv_holds q) eqn:E; [|done]. destruct Hne. by apply (lock_inv_unique _ _ _ _ _ _ _ Hlock Hp Hh Hj). }
      revert Hf. clear. revert q. vpc_cases.
  - intros Hh. apply (lock_inv_count _ _ _ _ _ _ Hlock Hp Hh). vpc_cases.
  - intros Hh. apply (lock_inv_count _ _ _ _ _ _ Hlock Hp Hh). vpc_cases.
  - intros [Hh|[Hk Hone]].
    + apply (tsum_one planned _ _ _ Hp). intros j q Hq Hne. destruct (decide (planned q = 0)) as [|Hf]; [done|].
      destruct Hne. apply (lock_inv_unique _ _ _ _ _ _ _ Hlock Hp Hh Hq). by destruct q.
    + apply (sum_alone planned taking _ _ _ Hp Hk Hone). by intros [].
  - intros Hk Hone. apply (sum_alone owed taking _ _ _ Hp Hk Hone owed_taking).
  - intros H0. destruct (decide (0 < tsum (num taking) (threads c))) as [|Hn]; [done|].
    rewrite tsum_zero in H0; [done|]. intros i q Hq. destruct (decide (owed q = 0)) as [|Hf]; [done|].
    pose proof (tcount_le_one taking _ _ _ Hq) as H1. rewrite (owed_taking _ Hf) in H1. cbn in H1.
    unfold tcount in H1. unfold num in Hn. lia.
Qed.

Lemma sv_local_knows ch t s p s' p' e : sv_local ch t s p = Some (s', p', e) -> knows s p -> knows s' p'.
Proof.
  intros Hl. sv_cases Hl; simpl in *; auto; intros Hk; try done; try (by left); try (by right).
  destruct Hk as [|]; [done|congruence].
Qed.

Lemma knows_free s p : sv_holds p = false -> knows s p.
Proof. by destruct p. Qed.

(** Who does not own the mutex changes neither the value nor the flag. *)
Lemma sv_local_frame ch t s p s' p' e : sv_local ch t s p = Some (s', p', e) -> sv_holds p = false ->
  value_ s' = value_ s /\ shutdown_ s' = shutdown_ s /\ vwaiters_ s' = vwaiters_ s.
Proof. intros Hl Hh. by sv_cases Hl. Qed.

Lemma num_ext B s m m' :
  Forall (fun f => m' f = m f) [num inside; num entering; num taking; num writing; num flushing; planned] ->
  sv_num B s m -> sv_num B s m'.
Proof.
  rewrite !Forall_cons. intros (E1 & E2 & E3 & E4 & E5 & E6 & _) [].
  split; rewrite ?E1, ?E2, ?E3, ?E4, ?E5, ?E6; done.
Qed.

Section one_step.
Context (B : Z) (c : conf sv vpc) (ch : vchoice) (k : option nat) (t : nat) (p : vpc) (s' : sv) (p' : vpc) (e : effect).
Context (ts : list vpc) (HB : B <= 1) (Hinv : sv_inv B c) (Hp : threads c !! t = Some p).
Context (Hl : sv_local ch t (shared c) p = Some (s', p', e)).
Context (Hts : apply_effect e k (<[t := p']> (threads c)) = Some ts).

Lemma sv_sum_step (f : vpc -> Z) : (forall q, waiting q = true -> f (awaken q) = f q) ->
  tsum f ts = moved (total c) p p' f.
Proof.
  intros Hf. rewrite (effect_sum_same f _ _ _ _ Hf Hts). apply (tsum_insert f _ _ _ _ Hp).
Qed.

Lemma num_step : sv_num B s' (fun f => tsum f ts).
Proof.
  destruct (sv_local_num _ _ _ _ _ _ _ B (total c) Hl HB (sums_total _ _ _ _ Hinv Hp) (vi_num _ _ Hinv)) as [Hn _].
  apply (num_ext _ _ (moved (total c) p p')); [|done].
  repeat constructor; apply sv_sum_step; unfold num; vpc_cases.
Qed.

Lemma inside_bound : vwaiters_ (shared c) <= INT_MAX.
Proof.
  rewrite (sn_waiters _ _ _ (vi_num _ _ Hinv)). transitivity (Z.of_nat (length (threads c))); [|apply (vi_small _ _ Hinv)].
  unfold total. clear. induction (threads c) as [|q l IH]; cbn [tsum foldr length]; [lia|].
  pose proof (b2z_bounds (inside q)). unfold num at 1. unfold tsum in IH. lia.
Qed.

(** A broadcast only adds to the pending. *)
Lemma pending_step : e <> ESignal -> moved (total c) p p' (num pending) <= tsum (num pending) ts.
Proof.
  intros He. unfold moved, total. rewrite <- (tsum_insert (num pending) _ _ _ p' Hp). destruct e; simpl in Hts.
  - injection Hts as <-. lia.
  - done.
  - injection Hts as <-. rewrite tsum_fmap. apply tsum_le. intros i q _. revert q. vpc_cases.
Qed.

(** The setter's broadcast makes all that are inside pending. *)
Lemma cast_pending n : p = VCast n -> p' = VUnlock n -> e = EBroadcast -> tsum (num pending) ts = total c (num inside).
Proof.
  intros -> -> ->. injection Hts as <-. rewrite tsum_fmap. unfold total.
  transitivity (tsum (num inside) (<[t := VUnlock n]> (threads c))).
  - apply tsum_ext. intros i q Hq. destruct (decide (i = t)) as [->|Hne].
    + rewrite list_lookup_insert_eq in Hq by (by eapply lookup_lt_Some). by injection Hq as <-.
    + rewrite list_lookup_insert_ne in Hq by done. destruct (sv_holds q) eqn:E.
      * destruct Hne. by apply (lock_inv_unique _ _ _ _ _ _ _ (vi_lock _ _ Hinv) Hp eq_refl Hq).
      * revert E. clear. revert q. vpc_cases.
  - rewrite (tsum_insert _ _ _ _ _ Hp). unfold num. simpl. lia.
Qed.

Lemma covered_step : covered s' (fun f => tsum f ts).
Proof.
  pose proof (sums_total _ _ _ _ Hinv Hp) as Hs. pose proof (vi_num _ _ Hinv) as Hn.
  destruct (sv_local_num _ _ _ _ _ _ _ B (total c) Hl HB Hs Hn) as [_ He].
  pose proof (pending_step He) as Hpe. unfold covered. rewrite (sv_sum_step owed) by vpc_cases.
  destruct (sv_local_covered _ _ _ _ _ _ _ B (total c) Hl HB Hs Hn (vi_covered _ _ Hinv) inside_bound)
    as [Hc|(n & Ep & Ep' & Ee & Es)].
  - unfold covered in Hc. destruct (flushed s'); lia.
  - rewrite (cast_pending n Ep Ep' Ee). subst. pose proof (sn_planned _ _ _ Hn) as Hpl.
    rewrite (su_planned _ _ Hs (or_introl eq_refl)) in Hpl. unfold moved.
    rewrite (su_owed _ _ Hs eq_refl (sn_taking _ _ _ Hn)). simpl in *.
    pose proof (su_writing _ _ Hs eq_refl) as Hw. simpl in Hw.
    destruct (flushed (shared c)) eqn:E; [|lia].
    apply (sn_flushed _ _ _ Hn) in E. rewrite (sn_writing _ _ _ Hn) in E by lia. done.
Qed.

Lemma sv_knows_step u q : ts !! u = Some q -> knows s' q.
Proof.
  intros Hu. assert (forall q0, <[t := p']> (threads c) !! u = Some q0 -> knows s' q0) as Hq0.
  { intros q0 Hq0. destruct (decide (u = t)) as [->|Hne].
    - rewrite list_lookup_insert_eq in Hq0 by (by eapply lookup_lt_Some). injection Hq0 as <-.
      eapply sv_local_knows; [exact Hl|]. by eapply vi_knows.
    - rewrite list_lookup_insert_ne in Hq0 by done. destruct (sv_holds q0) eqn:Eh; [|by apply knows_free].
      assert (sv_holds p = false) as Ep.
      { destruct (sv_holds p) eqn:Ep; [|done]. destruct Hne. by apply (lock_inv_unique _ _ _ _ _ _ _ (vi_lock _ _ Hinv) Hp Ep Hq0). }
      destruct (sv_local_frame _ _ _ _ _ _ _ Hl Ep) as (E1 & E2 & _).
      pose proof (vi_knows _ _ Hinv _ _ Hq0) as Hk. unfold knows in *. by rewrite E1, E2. }
  destruct (effect_lookup _ _ _ _ _ _ Hts Hu) as (q0 & H0 & [->|[_ ->]]); [by apply Hq0|].
  specialize (Hq0 _ H0). clear -Hq0. revert q0 Hq0. vpc_cases.
Qed.
End one_step.

Lemma sv_inv_step B c c' : B <= 1 -> sv_inv B c -> step sv_next c c' -> sv_inv B c'.
Proof.
  intros HB Hinv Hstep.
  pose proof (lock_inv_step _ _ _ c c' sv_respects_lock ltac:(vpc_cases) (vi_lock _ _ Hinv) Hstep) as Hlock'.
  destruct Hstep as ([ch k] & t & Hn). apply next_inv in Hn as (p & s & p' & e & ts & Hp & Hl & Hts & ->).
  split; cbn [shared threads]; [done|..].
  - by eapply num_step.
  - by eapply covered_step.
  - rewrite (effect_length _ _ _ _ Hts), length_insert. apply (vi_small _ _ Hinv).
  - by eapply sv_knows_step.
Qed.

Lemma sv_inv_reachable v n c : Z.of_nat n <= INT_MAX -> reachable sv_next (sv_start v n) c -> sv_inv 1 c.
Proof.
  intros Hn. apply invariant; [|intros c1 c2; by apply sv_inv_step].
  assert (forall f : vpc -> Z, f VIdle = 0 -> tsum f (replicate n VIdle) = 0) as H0.
  { intros f Hf. apply tsum_zero. by intros i x [-> _]%lookup_replicate. }
  split; cbn [sv_start sv_init shared threads].
  - intros t. simpl. split; [done|]. intros (p & [-> _]%lookup_replicate & Hp). done.
  - unfold total. split; cbn [sv_init vwaiters_ shutdown_ items gate flushed threads]; rewrite ?H0 by done; try done; try lia.
  - unfold covered, total. cbn [sv_init items flushed sv_start threads]. rewrite !H0 by done. lia.
  - by rewrite length_replicate.
  - by intros t p [-> _]%lookup_replicate.
Qed.

End invariant.
