(* ===== verification/SynchValueSpec.v ===== *)
(** * What a synchronised value promises

    In executions without deadlines, interrupts and wake-ups of no reason, every thread that
    waits sees every value that is set while it waits; in all executions a setter that waits
    for its permits is owed them by threads that are on their way.  And what goes wrong
    otherwise. *)

From S2P Require Import Prelude Threads Monitor SynchValue.

Section synch_value_spec.
Context {T : Type} `{EqDecision T}.
Abbreviation sv := (@sv T).
Abbreviation vpc := (@vpc T).
Abbreviation vchoice := (@vchoice T).
Abbreviation sv_local := (@sv_local T _).
Abbreviation sv_next := (@sv_next T _).
Implicit Types (s : sv) (p q : vpc) (c : conf sv vpc).

(** ** Executions without deadlines, interrupts and wake-ups of no reason *)

(** The destructor and [interrupt] are not called, no wait has a deadline, and a thread that is blocked
    goes on only after a broadcast. *)
Definition calm_choice (ch : vchoice) (p : vpc) : bool :=
  match ch, p with
  | VCallWait _ true, _ | VCallDelete, _ | VCallInterrupt, _ => false
  | VGo _ _ _, UWait _ _ Waiting => false
  | _, _ => true
  end.

Definition calm_local (ch : vchoice) (t : nat) (s : sv) (p : vpc) : option (sv * vpc * effect) :=
  if calm_choice ch p then sv_local ch t s p else None.

Definition calm_next := next calm_local.

Lemma calm_next_next ch t c c' : calm_next ch t c = Some c' ->
  sv_next ch t c = Some c' /\ forall p, threads c !! t = Some p -> calm_choice (fst ch) p = true.
Proof.
  unfold calm_next, sv_next, next, calm_local. destruct (threads c !! t) as [p|]; [|done]. cbn [mbind option_bind].
  destruct (calm_choice (fst ch) p) eqn:E; [|done]. intros H. split; [done|]. by intros q [= <-].
Qed.

Lemma calm_reachable c c' : reachable calm_next c c' -> reachable sv_next c c'.
Proof.
  induction 1 as [c|c c1 c2 (ch & t & Hn) _ IH]; [apply rtc_refl|]. apply rtc_l with c1; [|done].
  exists ch, t. by apply calm_next_next.
Qed.

Definition calm_pc (p : vpc) : bool :=
  match p with
  | UEqual _ tm | UAlive _ tm | UGuard _ tm | UInc _ tm | UTest _ tm | UBody _ tm | UWait _ tm _ | UGive _ tm => negb tm
  | UCatch _ _ | UAsk _ _ | UPass _ _ | DGuard | DShut | DGate | DItems | DTest | DWait _ | VIntr _ => false
  | _ => true
  end.

(** The value a thread waits for, from the test that has not found it to the wake-up. *)
Definition blocked_for (p : vpc) : option T :=
  match p with
  | UBody v _ | UWait v _ (WTest | WInc | WBlock | Waiting) => Some v
  | _ => None
  end.

Definition asks_all (s : sv) (p : vpc) : Prop :=
  match p with VWrite _ k | VCast k => k + 1 = vwaiters_ s | _ => True end.

Definition casting (p : vpc) : bool := match p with VCast _ => true | _ => false end.

Record calm_state (s : sv) : Prop := {
  ca_shutdown : shutdown_ s = false;
  ca_interrupted : interrupted_ (sv_mon s) = false;
}.

Definition exact (s : sv) (m : (vpc -> Z) -> Z) : Prop := items s + m (num pending) = m owed.

Lemma expected_exact s : items s = 0 -> 0 <= vwaiters_ s <= INT_MAX -> expected s + 1 = vwaiters_ s.
Proof. intros H1 H2. unfold expected. rewrite H1, to_int_size, to_int_small; unfold INT_MAX in *; lia. Qed.

Lemma calm_local_step ch t s p s' p' e m :
  sv_local ch t s p = Some (s', p', e) -> calm_choice ch p = true -> calm_pc p = true -> calm_state s -> sums m p ->
  sv_num 1 s m -> exact s m -> vwaiters_ s <= INT_MAX -> asks_all s p ->
  calm_pc p' = true /\ calm_state s' /\ asks_all s' p'
  /\ (e = ENone /\ exact s' (moved m p p') \/ exists k, p = VCast k /\ p' = VUnlock k /\ e = EBroadcast /\ s' = s).
Proof.
  intros Hl Hc Hpc [Hsd Hi] [H1 _ _ _ _ HO _] [Hwt _ Hk _ _ _ _ Hit _] Hex Hmax Ha.
  pose proof (H1 pending) as G1. pose proof (H1 inside) as G2. clear H1.
  assert (0 <= m (num pending)) by (pose proof (b2z_bounds (pending p)); lia).
  assert (0 <= vwaiters_ s) by (pose proof (b2z_bounds (inside p)); lia).
  unfold exact in *.
  assert (taking p = true -> owed p = 0 -> items s = 0) as Hz by (intros E E'; specialize (HO E Hk); lia).
  pose proof (expected_exact s) as Hexp.
  sv_cases Hl; try match goal with w : wait_pc |- _ => destruct w end; simplify_option_eq; monitor_facts; try done.
  all: unfold moved, num in *; simpl in *; rewrite ?Z.ltb_lt, ?Z.ltb_ge, ?Z.eqb_eq, ?Z.eqb_neq in *.
  all: split_and!; try done; try (split; simpl; congruence); try (left; split; [done|lia]); try (right; by eauto).
  apply Hexp; [by apply Hz|done].
Qed.

Lemma local_blocked ch t s p s' p' e : sv_local ch t s p = Some (s', p', e) ->
  (casting p' = true \/ value_ s' = value_ s)
  /\ (forall v, blocked_for p' = Some v -> blocked_for p = Some v \/ value_ s' <> v)
  /\ (casting p = true -> e = EBroadcast).
Proof.
  intros Hl. sv_cases Hl; try match goal with w : wait_pc |- _ => destruct w end; simplify_option_eq; split_and!; try done;
    auto; try (by intros; left); try (by right); intros; simplify_eq; auto.
Qed.

Record calm_inv (c : conf sv vpc) : Prop := {
  cv_inv : sv_inv 1 c;
  cv_state : calm_state (shared c);
  cv_pcs : forall t p, threads c !! t = Some p -> calm_pc p = true;
  cv_exact : exact (shared c) (total c);
  cv_asks : forall t p, threads c !! t = Some p -> asks_all (shared c) p;
  cv_blocked : forall u q v, threads c !! u = Some q -> blocked_for q = Some v ->
    value_ (shared c) <> v \/ 0 < tcount casting (threads c);
}.

Section calm_step.
Context (c : conf sv vpc) (ch : vchoice) (k : option nat) (t : nat) (p : vpc) (s' : sv) (p' : vpc) (e : effect).
Context (ts : list vpc) (Hinv : calm_inv c) (Hp : threads c !! t = Some p) (Hch : calm_choice ch p = true).
Context (Hl : sv_local ch t (shared c) p = Some (s', p', e)).
Context (Hts : apply_effect e k (<[t := p']> (threads c)) = Some ts).

Lemma local_calm_step : calm_pc p' = true /\ calm_state s' /\ asks_all s' p'
  /\ (e = ENone /\ exact s' (moved (total c) p p') \/ exists k, p = VCast k /\ p' = VUnlock k /\ e = EBroadcast /\ s' = shared c).
Proof.
  destruct Hinv as [Hi Hs Hpc Hex Ha Hb].
  apply (calm_local_step _ _ _ _ _ _ _ _ Hl Hch (Hpc _ _ Hp) Hs (sums_total _ _ _ _ Hi Hp) (vi_num _ _ Hi) Hex
    (inside_bound _ _ Hi) (Ha _ _ Hp)).
Qed.

(** A thread after the step was there before it, or is [t]. *)
Lemma thread_before u q : ts !! u = Some q ->
  exists q0, (q = q0 \/ q = awaken q0 /\ waiting q0 = true) /\ ((u = t /\ q0 = p') \/ (u <> t /\ threads c !! u = Some q0)).
Proof.
  intros Hu. destruct (effect_lookup _ _ _ _ _ _ Hts Hu) as (q0 & H0 & Hq). exists q0. split; [tauto|].
  destruct (decide (u = t)) as [->|Hne].
  - rewrite list_lookup_insert_eq in H0 by (by eapply lookup_lt_Some). left. by injection H0.
  - rewrite list_lookup_insert_ne in H0 by done. by right.
Qed.

Lemma pcs_step u q : ts !! u = Some q -> calm_pc q = true.
Proof.
  intros (q0 & Hq & H0)%thread_before. assert (calm_pc q0 = true) as E.
  { destruct H0 as [[_ ->]|[_ H0]]; [apply local_calm_step|by apply (cv_pcs _ Hinv _ _ H0)]. }
  destruct Hq as [->|[-> _]]; [done|]. revert E. clear. revert q0. vpc_cases.
Qed.

Lemma exact_step : exact s' (fun f => tsum f ts).
Proof.
  pose proof (sums_total _ _ _ _ (cv_inv _ Hinv) Hp) as Hs. pose proof (vi_num _ _ (cv_inv _ Hinv)) as Hn.
  unfold exact. rewrite (sv_sum_step c k t p p' e ts Hp Hts owed) by vpc_cases.
  destruct local_calm_step as (_ & _ & _ & [[Ee Hex]|(n & Ep & Ep' & Ee & Es)]).
  - rewrite <- Hex. f_equal. assert (Hts' := Hts). rewrite Ee in Hts'. injection Hts' as <-.
    apply (tsum_insert (num pending) _ _ _ _ Hp).
  - rewrite (cast_pending 1 c ch k t p s' p' e ts (cv_inv _ Hinv) Hp Hl Hts n Ep Ep' Ee). subst.
    pose proof (cv_exact _ Hinv) as Hex. pose proof (cv_asks _ Hinv _ _ Hp) as Ha. unfold exact, moved in *. simpl in *.
    pose proof (su_owed _ _ Hs eq_refl (sn_taking _ _ _ Hn)) as Ho. simpl in Ho.
    pose proof (su_nonneg _ _ Hs pending). pose proof (su_nonneg _ _ Hs inside). simpl in *.
    pose proof (sn_items _ _ _ Hn). rewrite <- (sn_waiters _ _ _ Hn) in *. lia.
Qed.
Lemma asks_step u q : ts !! u = Some q -> asks_all s' q.
Proof.
  intros (q0 & Hq & H0)%thread_before. assert (asks_all s' q0) as E.
  { destruct H0 as [[_ ->]|[Hne H0]]; [apply local_calm_step|]. pose proof (cv_asks _ Hinv _ _ H0) as Ha.
    destruct (sv_holds q0) eqn:Eh; [|by destruct q0]. destruct (sv_holds p) eqn:Ep.
    - destruct Hne. by apply (lock_inv_unique _ _ _ _ _ _ _ (vi_lock _ _ (cv_inv _ Hinv)) Hp Ep H0).
    - destruct (sv_local_frame _ _ _ _ _ _ _ Hl Ep) as (_ & _ & E3). unfold asks_all in *. by rewrite E3. }
  destruct Hq as [->|[-> _]]; [done|]. revert E. clear. revert q0. vpc_cases.
Qed.

Lemma blocked_step u q v : ts !! u = Some q -> blocked_for q = Some v -> value_ s' <> v \/ 0 < tcount casting ts.
Proof.
  intros Hu Hq. destruct (local_blocked _ _ _ _ _ _ _ Hl) as (Hval & Hblk & Hcast).
  assert (tcount casting ts = tcount casting (threads c) - b2z (casting p) + b2z (casting p')) as Hcnt
    by (apply (sv_sum_step c k t p p' e ts Hp Hts (num casting)); unfold num; vpc_cases).
  pose proof (tcount_le_one casting _ _ _ Hp) as H1.
  destruct Hval as [Ev|Ev]; [right; rewrite Ev in Hcnt; simpl in Hcnt; lia|].
  destruct (thread_before _ _ Hu) as (q0 & [<-|[-> Hw]] & H0); [|revert Hw Hq; clear; revert q0; vpc_cases].
  assert (casting q = false) as Eq by (by destruct q).
  destruct H0 as [[-> ->]|[Hne H0]].
  - destruct (Hblk _ Hq) as [Hb|]; [|by left]. assert (casting p = false) as Ep by (by destruct p).
    rewrite Ev. destruct (cv_blocked _ Hinv _ _ _ Hp Hb) as [|]; [by left|]. right. rewrite Hcnt, Ep, Eq. simpl. lia.
  - rewrite Ev. destruct (cv_blocked _ Hinv _ _ _ H0 Hq) as [|Hc]; [by left|]. right.
    destruct (casting p) eqn:Ep; [|simpl in *; pose proof (b2z_bounds (casting p')); lia]. exfalso.
    pose proof (lock_inv_unique _ _ _ _ _ p q (vi_lock _ _ (cv_inv _ Hinv)) Hp ltac:(by destruct p) H0) as Hlu.
    assert (Hts' := Hts). rewrite (Hcast eq_refl) in Hts'. injection Hts' as E.
    rewrite <- E, list_lookup_fmap, list_lookup_insert_ne, H0 in Hu by done. injection Hu as Hu.
    apply Hne, Hlu. revert Hu Hq. clear. revert q. vpc_cases.
Qed.
End calm_step.

Lemma calm_inv_step c c' : calm_inv c -> step calm_next c c' -> calm_inv c'.
Proof.
  intros Hinv ([ch k] & t & (Hn & Hch)%calm_next_next).
  assert (sv_inv 1 c') as Hi' by (apply (sv_inv_step 1 c); [done|apply (cv_inv _ Hinv)|by exists (ch, k), t]).
  apply next_inv in Hn as (p & s & p' & e & ts & Hp & Hl & Hts & ->). specialize (Hch _ Hp). simpl in Hch, Hl, Hts.
  split; cbn [shared threads].
  - done.
  - eapply local_calm_step; eauto.
  - intros u q. eapply pcs_step; eauto.
  - eapply exact_step; eauto.
  - intros u q. eapply asks_step; eauto.
  - intros u q v. eapply blocked_step; eauto.
Qed.

Lemma calm_inv_reachable v n c : Z.of_nat n <= INT_MAX -> reachable calm_next (sv_start v n) c -> calm_inv c.
Proof.
  intros Hn. apply invariant; [|apply calm_inv_step].
  assert (forall t p, replicate n (@VIdle T) !! t = Some p -> p = VIdle) as Hi by (by intros t p [-> _]%lookup_replicate).
  split; cbn [sv_start shared threads].
  - apply (sv_inv_reachable v n); [done|apply rtc_refl].
  - done.
  - by intros t p ->%Hi.
  - unfold exact, total. cbn [sv_start threads sv_init items].
    rewrite !tsum_zero; [done|by intros i q ->%Hi..].
  - by intros t p ->%Hi.
  - by intros u q w ->%Hi.
Qed.

(** ** Properties *)

(** C14 (safety). No value is missed in executions in which no wait has a deadline or ends for no reason and the object is
    neither interrupted nor destroyed: when a setter is about to write a value, or has got its permits and is about to open the gate
    for the next, no thread that was woken has still to give its permit, and nobody who is in the wait of
    [waitValue] waits for the value that is there; and when it is about to write, everybody who is counted as a waiter is blocked in
    that wait.  So whoever was waiting for a value when it was set has seen it before the next one is
    set. *)
Theorem no_value_missed v0 n c t :
  Z.of_nat n <= INT_MAX -> reachable calm_next (sv_start v0 n) c ->
  (exists v k, threads c !! t = Some (VWrite v k)) \/ threads c !! t = Some VOpen ->
  (forall u q, threads c !! u = Some q -> pending q = false)
  /\ (forall u w tm i, threads c !! u = Some (UWait w tm i) -> value_ (shared c) <> w)
  /\ (forall v k, threads c !! t = Some (VWrite v k) ->
       forall u q, threads c !! u = Some q -> inside q = true -> exists w tm, q = UWait w tm Waiting).
Proof.
  intros Hn Hc Ht. pose proof (calm_inv_reachable _ _ _ Hn Hc) as Hinv. pose proof (vi_num _ _ (cv_inv _ Hinv)) as Hnum.
  assert (exists p, threads c !! t = Some p /\ b2z (entering p) + b2z (taking p) = 1 /\ owed p = 0 /\ casting p = false)
    as (p & Hp & H1 & Ho & Hcp) by (destruct Ht as [(v & k & ?)|?]; eauto).
  pose proof (sums_total _ _ _ _ (cv_inv _ Hinv) Hp) as Hs.
  destruct (sn_gate _ _ _ Hnum (ca_shutdown _ (cv_state _ Hinv))) as [Hg Hg0].
  pose proof (su_nonneg _ _ Hs entering) as G1. pose proof (su_nonneg _ _ Hs taking) as G2.
  assert (total c owed = 0) as Ho0.
  { destruct (taking p) eqn:E; [rewrite <- Ho; apply (su_owed _ _ Hs E (sn_taking _ _ _ Hnum))|].
    pose proof (su_taking _ _ Hs). pose proof (sn_items _ _ _ Hnum). pose proof (cv_exact _ Hinv) as Hex. unfold exact in Hex.
    pose proof (su_nonneg _ _ Hs pending). pose proof (b2z_bounds (pending p)). simpl in *. lia. }
  pose proof (cv_exact _ Hinv) as Hex. unfold exact in Hex. pose proof (sn_items _ _ _ Hnum) as Hit.
  assert (forall u q, threads c !! u = Some q -> pending q = false) as Hpend.
  { intros u q Hu. pose proof (tcount_le_one pending _ _ _ Hu) as Hpu. change (tcount pending (threads c)) with (total c (num pending)) in Hpu.
    destruct (pending q); [simpl in Hpu; lia|done]. }
  split; [done|]. split.
  2:{ intros v k Hw u q Hu Hin. assert (sv_holds q = true -> False) as Hno.
      { intros Hh. pose proof (lock_inv_unique _ _ _ _ _ _ _ (vi_lock _ _ (cv_inv _ Hinv)) Hw eq_refl Hu Hh) as ->.
        rewrite Hw in Hu. by injection Hu as <-. }
      specialize (Hpend u q Hu). destruct q; try done; try (by destruct Hno).
      match goal with w : wait_pc |- _ => destruct w end; try done; try (by destruct Hno). eauto. }
  intros u w tm i Hu. specialize (Hpend u _ Hu).
  assert (blocked_for (UWait w tm i) = Some w) as Hb by (revert Hpend; clear; by destruct i).
  destruct (cv_blocked _ Hinv _ _ _ Hu Hb) as [|(j & q & Hq & Eq)%tcount_exists]; [done|]. exfalso.
  assert (j <> t) as Hne by (intros ->; congruence).
  destruct (decide (taking p = true)) as [E|E].
  - pose proof (tcount_two taking _ _ _ _ _ Hq Hp Hne ltac:(by destruct q) E). pose proof (sn_taking _ _ _ Hnum) as Hk.
    unfold total, num, tcount in *. lia.
  - pose proof (tcount_le_one taking _ _ _ Hq) as Hk. replace (taking q) with true in Hk by (by destruct q).
    change (tcount taking (threads c)) with (total c (num taking)) in Hk. destruct (taking p); [done|]. simpl in *. lia.
Qed.

(** The owner of the mutex can go on, and if there is none whoever was woken can. *)
Lemma owner_goes_on t s p : sv_holds p = true \/ pending p = true /\ owner (sv_mon s) = None ->
  is_Some (sv_local (VGo Spurious false 0) t s p).
Proof.
  intros Hp. destruct p; simpl in Hp; try (by destruct Hp as [|[]]);
    try match goal with w : wait_pc |- _ => destruct w end; try match goal with i : intr_pc |- _ => destruct i end;
    simpl in *; try (by destruct Hp as [|[]]); try (eexists; reflexivity).
  destruct Hp as [|[_ Hp]]; [done|]. unfold lock. rewrite Hp. eexists. reflexivity.
Qed.

Lemma next_goes_on c t p : threads c !! t = Some p -> is_Some (sv_local (VGo Spurious false 0) t (shared c) p) ->
  exists ch c', sv_next ch t c = Some c'.
Proof.
  intros Hp [[[s' p'] e] Hl]. destruct (effect_total e (<[t := p']> (threads c))) as (k & ts & Hts).
  exists (VGo Spurious false 0, k), (mkConf s' ts). unfold SynchValue.sv_next, next. rewrite Hp.
  cbn [mbind option_bind fst snd]. rewrite Hl. cbn [mbind option_bind]. by rewrite Hts.
Qed.

(** C15 (liveness). A setter that has written its value is not left waiting for the waiters: when it cannot go on for want of a permit of
    theirs, in any execution, some thread that was woken has still to give one, and a thread of this kind or the owner of the
    mutex can take a step.  (A setter in front of the gate may wait for ever: [equal_set_jams].) *)
Theorem setter_is_answered v0 n c t k w late gated :
  Z.of_nat n <= INT_MAX -> reachable sv_next (sv_start v0 n) c -> threads c !! t = Some (VTake k) ->
  sv_next (VGo w late gated, None) t c = None ->
  (exists u q, threads c !! u = Some q /\ pending q = true)
  /\ exists u q ch c', threads c !! u = Some q /\ (pending q = true \/ sv_holds q = true) /\ sv_next ch u c = Some c'.
Proof.
  intros Hn Hc Ht Hstuck. pose proof (sv_inv_reachable _ _ _ Hn Hc) as Hinv. pose proof (vi_num _ _ Hinv) as Hnum.
  pose proof (sums_total _ _ _ _ Hinv Ht) as Hs. pose proof (vi_covered _ _ Hinv) as Hcov. unfold covered in Hcov.
  rewrite (su_owed _ _ Hs eq_refl (sn_taking _ _ _ Hnum)) in Hcov. simpl in Hcov.
  assert (0 <= k /\ items (shared c) <= 0) as [Hk Hit].
  { revert Hstuck. unfold SynchValue.sv_next, next. rewrite Ht. cbn [mbind option_bind fst snd SynchValue.sv_local set_next].
    unfold acquire_next. destruct (Z.leb_spec 0 k); [|done]. destruct (Z.ltb_spec 0 (items (shared c))); [done|]. by split. }
  assert (exists u q, threads c !! u = Some q /\ pending q = true) as (u & q & Hu & Hq).
  { apply tcount_exists. unfold tcount. destruct (flushed (shared c)); [lia|]. unfold total, num in Hcov. lia. }
  split; [eauto|]. destruct (owner (sv_mon (shared c))) as [j|] eqn:Ho.
  - apply (vi_lock _ _ Hinv) in Ho as (r & Hr & Hh). destruct (next_goes_on c j r Hr) as (ch & c' & E); [|eauto 10].
    apply owner_goes_on. by left.
  - destruct (next_goes_on c u q Hu) as (ch & c' & E); [|eauto 10]. apply owner_goes_on. by right.
Qed.

(** What [waitValue] says is true: when it is about to return 0 after waiting,
    still in the guard, the value is the one waited for; and the count of waiters is the number of
    threads between its increment and its decrement. *)
Theorem wait_value_sees v0 n c :
  Z.of_nat n <= INT_MAX -> reachable sv_next (sv_start v0 n) c ->
  (forall t v r, threads c !! t = Some (UExit v (SvInt r)) -> value_ (shared c) = v)
  /\ vwaiters_ (shared c) = tcount inside (threads c).
Proof.
  intros Hn Hc. pose proof (sv_inv_reachable _ _ _ Hn Hc) as Hinv. split.
  - intros t v r Ht. exact (vi_knows _ _ Hinv _ _ Ht).
  - exact (sn_waiters _ _ _ (vi_num _ _ Hinv)).
Qed.

(** Without a permit of the gate nobody sets a value again. *)
Lemma jammed c c' : sv_inv 0 c -> reachable sv_next c c' -> shutdown_ (shared c') = false ->
  forall u v k, threads c' !! u <> Some (VWrite v k).
Proof.
  intros Hi Hc Hsd u v k Hu.
  assert (sv_inv 0 c') as Hinv.
  { clear Hsd Hu. induction Hc as [c|c c1 c2 Hst _ IH]; [done|]. apply IH. by apply (sv_inv_step 0 c). }
  pose proof (vi_num _ _ Hinv) as Hnum. pose proof (sums_total _ _ _ _ Hinv Hu) as Hs.
  destruct (sn_gate _ _ _ Hnum Hsd). pose proof (su_nonneg _ _ Hs entering). pose proof (su_nonneg _ _ Hs taking).
  simpl in *. lia.
Qed.

End synch_value_spec.

(** ** Executions *)

Definition vsched : Type := list ((@vchoice Z * option nat) * nat).
Definition vmany (n t : nat) : vsched := replicate n ((VGo Spurious false 0, None), t).
Definition vcall (ch : @vchoice Z) (t : nat) : vsched := [((ch, None), t)].

Definition sv_after (n : nat) (l : vsched) : conf (@sv Z) (@vpc Z) := default (sv_start 0 n) (run sv_next l (sv_start 0 n)).
Definition calm_after (n : nat) (l : vsched) : conf (@sv Z) (@vpc Z) :=
  default (sv_start 0 n) (run calm_next l (sv_start 0 n)).

Lemma sv_after_reachable n l : reachable sv_next (sv_start 0 n) (sv_after n l).
Proof. unfold sv_after. destruct (run _ _ _) eqn:E; [by eapply run_reachable|]. apply rtc_refl. Qed.
Lemma calm_after_reachable n l : reachable calm_next (sv_start 0 n) (calm_after n l).
Proof. unfold calm_after. destruct (run _ _ _) eqn:E; [by eapply run_reachable|]. apply rtc_refl. Qed.

(** Thread 0 waits for 1 and thread 1 for 2; thread 2 sets 1. *)
Definition two_wait : vsched := vcall (VCallWait 1 false) 0 ++ vmany 9 0 ++ vcall (VCallWait 2 false) 1 ++ vmany 9 1.
Definition set_one : vsched := vcall (VCallSet 1) 2 ++ vmany 10 2.
Definition both_look : vsched := vmany 7 0 ++ vmany 9 1 ++ vmany 3 2.

Lemma no_value_missed_witness :
  let c := calm_after 3 (two_wait ++ set_one ++ both_look) in
  threads c = [VDone (SvInt 0); UWait 2 false Waiting; VOpen] /\ value_ (shared c) <> 2.
Proof.
  intros c. assert (threads c = [VDone (SvInt 0); UWait 2 false Waiting; VOpen]) as E by (vm_compute; reflexivity).
  split; [exact E|].
  refine (proj1 (proj2 (no_value_missed 0 3 c 2 _ (calm_after_reachable 3 _) _)) 1%nat 2 false Waiting _).
  - unfold INT_MAX. lia.
  - right. by rewrite E.
  - by rewrite E.
Defined.

Lemma setter_is_answered_witness :
  let c := sv_after 3 (two_wait ++ set_one) in
  threads c !! 2%nat = Some (VTake 1) /\ exists u q, threads c !! u = Some q /\ pending q = true.
Proof.
  intros c. assert (threads c !! 2%nat = Some (VTake 1)) as Ht by (vm_compute; reflexivity). split; [exact Ht|].
  refine (proj1 (setter_is_answered 0 3 c 2 1 Spurious false 0 _ (sv_after_reachable 3 _) Ht _)).
  - unfold INT_MAX. lia.
  - vm_compute. reflexivity.
Defined.

Lemma wait_value_sees_witness :
  let c := sv_after 3 (two_wait ++ set_one ++ vmany 6 0) in
  threads c !! 0%nat = Some (UExit 1 (SvInt 0)) /\ value_ (shared c) = 1 /\ vwaiters_ (shared c) = tcount inside (threads c).
Proof.
  intros c. assert (threads c !! 0%nat = Some (UExit 1 (SvInt 0))) as Ht by (vm_compute; reflexivity). split; [exact Ht|].
  destruct (wait_value_sees 0 3 c ltac:(unfold INT_MAX; lia) (sv_after_reachable 3 _)) as [H1 H2].
  split; [exact (H1 _ _ _ Ht)|exact H2].
Defined.

(** ** Defects *)

(** A second waiter has a deadline, which passes after it has looked at the value: it gives two permits
    for one set.  [setValue] (1) then returns although the thread that waits for 1 has not looked; that thread
    misses it when the next value is set. *)
Definition vlate (n t : nat) : vsched := replicate n ((VGo Timeout true 0, None), t).
Definition impatient : vsched :=
  vcall (VCallWait 1 false) 0 ++ vmany 9 0 ++ vcall (VCallWait 7 true) 1 ++ vmany 9 1 ++ set_one
  ++ vmany 9 1 ++ vlate 9 1 ++ vmany 4 2.
Definition next_value : vsched := vmany 1 2 ++ vcall (VCallSet 2) 2 ++ vmany 10 2 ++ vmany 9 0 ++ vmany 3 2.

Lemma timed_waiter_hides_value : exists c c',
  reachable sv_next (sv_start 0 3) c /\ reachable sv_next c c'
  /\ threads c = [UWait 1 false (Woken WOk); VDone (SvThrow TimeoutException); VDone (SvInt 0)] /\ value_ (shared c) = 1
  /\ threads c' = [UWait 1 false Waiting; VDone (SvThrow TimeoutException); VDone (SvInt 0)] /\ value_ (shared c') = 2.
Proof.
  destruct (run sv_next next_value (sv_after 3 impatient)) as [c'|] eqn:E; [|by vm_compute in E].
  exists (sv_after 3 impatient), c'. split; [apply sv_after_reachable|]. split; [by eapply run_reachable|].
  vm_compute in E. injection E as <-. by vm_compute.
Qed.

(** Setting the value that is already there keeps the permit of the gate: [setValue] returns 0, and
    until the destructor nobody sets a value again. *)
Lemma equal_set_jams : exists c, reachable sv_next (sv_start 0 2) c
  /\ threads c = [VDone (SvInt 0); VIdle]
  /\ forall c' u v k, reachable sv_next c c' -> shutdown_ (shared c') = false -> threads c' !! u <> Some (VWrite v k).
Proof.
  exists (sv_after 2 (vcall (VCallSet 0) 0 ++ vmany 3 0)). split; [apply sv_after_reachable|].
  split; [vm_compute; reflexivity|]. intros c' u v k Hc Hs. eapply jammed; [|exact Hc|exact Hs].
  destruct (sv_inv_reachable 0 2 (sv_after 2 (vcall (VCallSet 0) 0 ++ vmany 3 0)) ltac:(unfold INT_MAX; lia)
    (sv_after_reachable 2 _)) as [H1 [] H3 H4 H5].
  split; [done|split; try done; intros _; by vm_compute|done..].
Qed.

(** [acquire] of SynchWaiterSemaphore takes one permit more than its argument: with the argument 1 and two
    permits, none is left. *)
Lemma acquire_takes_one_more (s : @sv Z) : items s = 2 ->
  exists s1 s2, acquire_next 1 s = Some (s1, Some 0) /\ acquire_next 0 s1 = Some (s2, Some (-1)) /\ items s2 = 0.
Proof.
  intros E. unfold acquire_next. cbn [items sv_give]. rewrite E. eexists _, _.
  split; [reflexivity|]. cbn [items sv_give Z.leb Z.compare]. rewrite E. split; [reflexivity|]. cbn. lia.
Qed.
