(* ===== verification/ConfigLoad.v ===== *)
(** * Configuration from the command line: Configurator::load, ServiceGestaltLoader::load_config_args

    The arguments behind each switch name profiles that are loaded; if none of them could be, the
    property of the switch's name is used.  The scanner of arguments is ACE's: [ArgShifter] has
    its operations and [ArgShifterLaws] what its documentation says of them.  The operations are
    stated over any object that loads profiles, with the state [C] it keeps when an exception leaves
    it, and joined with [Configurator] at the end. *)

From S2P Require Import Prelude CString Text Properties Configurator.
From Stdlib Require Import Ascii.

Definition MINUS : ascii := "-"%char.

(** ** The scanner of arguments *)

(** ACE_Arg_Shifter: [shifter argv] is the object for an argument vector; [same_flag flag arg] is the comparison
    that [cur_arg_strncasecmp] makes with the current argument, here whether it gives 0. *)
Class ArgShifter (Sh : Type) := {
  shifter : list text -> Sh;
  same_flag : text -> text -> bool;
  is_anything_left : Sh -> bool;
  is_option_next : Sh -> bool;
  is_parameter_next : Sh -> bool;
  cur_arg_matches : text -> Sh -> bool;
  get_current : Sh -> text;
  consume_arg : Sh -> Sh;
  ignore_arg : Sh -> Sh;
}.

Definition is_option (arg : text) : bool := bool_decide (head arg = Some MINUS).

(** What is documented, in terms of the arguments that are [left]. *)
Class ArgShifterLaws (Sh : Type) `{ArgShifter Sh} (left : Sh -> list text) : Prop := {
  left_shifter : forall argv, left (shifter argv) = argv;
  left_consume : forall sh, left (consume_arg sh) = tail (left sh);
  left_ignore : forall sh, left (ignore_arg sh) = tail (left sh);
  anything_left : forall sh, is_anything_left sh = negb (bool_decide (left sh = []));
  option_next : forall sh, is_option_next sh = match left sh with [] => false | arg :: _ => is_option arg end;
  parameter_next : forall sh, is_parameter_next sh = match left sh with [] => false | arg :: _ => negb (is_option arg) end;
  current_left : forall sh arg l, left sh = arg :: l ->
    get_current sh = arg /\ forall flag, cur_arg_matches flag sh = same_flag flag arg;
}.

(** ** An object that loads profiles *)

(** A state that an exception leaves as it is, over the repository of properties. *)
Definition CM (C A : Type) : Type := C -> store -> option (C * store * result A).

#[export] Instance CM_ret C : MRet (CM C) := fun A a c s => Some (c, s, Ok a).
Definition cbind {C A B} (m : CM C A) (k : A -> CM C B) : CM C B := fun c s =>
  match m c s with
  | Some (c, s, Ok a) => k a c s
  | Some (c, s, Throw e) => Some (c, s, Throw e)
  | None => None
  end.
#[export] Instance CM_bind C : MBind (CM C) := fun A B k m => cbind m k.

Definition starve {C A} : CM C A := fun _ _ => None.

(** A look at the repository. *)
Definition of_PM {C A} (m : PM A) : CM C A := fun c s =>
  match m s with
  | Some (s, r) => Some (c, s, r)
  | None => None
  end.

(** [try { m } catch (...) { k }], for the exceptions that [h] catches. *)
Definition ctry {C A} (h : daf_exn -> bool) (m k : CM C A) : CM C A := fun c s =>
  match m c s with
  | Some (c, s, Throw e) => if h e then k c s else Some (c, s, Throw e)
  | r => r
  end.

Section load.
Context {C Sh : Type} `{ArgShifter Sh} `{Platform}.
Context (load_file_profile : text -> CM C Z) (load_count : C -> Z) (pfuel : nat).

(** daf/Configurator.cpp:171-175 [Configurator::load]. The parameters behind a switch; [load_property] is returned. *)
Fixpoint load_params (fuel : nat) (sh : Sh) (load_property : bool) : CM C (Sh * bool) :=
  match fuel with
  | O => starve
  | S fuel =>
      if is_parameter_next sh then
        r ← load_file_profile (trim (get_current sh));
        load_params fuel (consume_arg sh) (if r =? 0 then false else load_property)
      else mret (sh, load_property)
  end.

(** daf/Configurator.cpp:168-180 [Configurator::load]. *)
Fixpoint load_scan (fuel : nat) (arg_switch : text) (sh : Sh) (load_property : bool) : CM C bool :=
  match fuel with
  | O => starve
  | S fuel =>
      if is_anything_left sh then
        if is_option_next sh && cur_arg_matches arg_switch sh then
          '(sh, load_property) ← load_params (S fuel) (consume_arg sh) load_property;
          load_scan fuel arg_switch sh load_property
        else load_scan fuel arg_switch (ignore_arg sh) load_property
      else mret load_property
  end.

(** daf/Configurator.cpp:157-193 [Configurator::load]. *)
Definition load (fuel : nat) (config_switch : option text) (argv : list text) (use_env : bool) : CM C Z :=
  match config_switch with
  | None | Some [] => mret (-1)
  | Some sw =>
      let cfg_switch := trim sw in
      let arg_switch := MINUS :: cfg_switch in
      load_property ← (if bool_decide (argv = []) then mret true
                       else load_scan fuel arg_switch (shifter argv) true);
      _ ← (if load_property : bool then
             ctry (catches NotFoundException)
               (profile ← of_PM (get_property pfuel cfg_switch use_env); load_file_profile profile)
               (mret 0)
           else mret 0);
      mret 0
  end.

(** daf/ServiceGestaltLoader.cpp:80-88 [ServiceGestaltLoader::load_config_args]. Whichever way the block is left, the
    result is the count. *)
Definition try_load (fuel : nat) (sw cfg_property : text) (argv : list text) (use_property : bool) : CM C unit :=
  r ← load fuel (Some sw) argv false;
  if negb (r =? 0) then mret tt
  else
    n ← ((fun c s => Some (c, s, Ok (load_count c))) : CM C Z);
    if negb (n =? 0) then mret tt
    else if use_property then
      profile ← of_PM (get_property pfuel cfg_property false); _ ← load_file_profile profile; mret tt
    else mret tt.

(** daf/ServiceGestaltLoader.cpp:68-107 [ServiceGestaltLoader::load_config_args]. *)
Definition load_config_args (fuel : nat) (config_switch : option text) (argv : list text) (use_property : bool) : CM C Z :=
  let attempt : CM C unit :=
    match config_switch with
    | None => mret tt
    | Some sw =>
        let cfg_property := trim sw in
        if bool_decide (cfg_property = []) then mret tt
        else ctry (fun _ => true) (try_load fuel sw cfg_property argv use_property) (mret tt)
    end in
  _ ← attempt; ((fun c s => Some (c, s, Ok (load_count c))) : CM C Z).

(** ** What is loaded *)

(** The profiles that a command line names: the parameters after a switch, up to the next option. *)
Fixpoint switch_profiles (arg_switch : text) (on : bool) (argv : list text) : list text :=
  match argv with
  | [] => []
  | arg :: argv =>
      if is_option arg then switch_profiles arg_switch (same_flag arg_switch arg) argv
      else if on then trim arg :: switch_profiles arg_switch true argv
      else switch_profiles arg_switch false argv
  end.

(** Loading them one after the other; whether the property is still wanted. *)
Fixpoint load_each (profiles : list text) (load_property : bool) : CM C bool :=
  match profiles with
  | [] => mret load_property
  | profile :: profiles =>
      r ← load_file_profile profile;
      load_each profiles (if r =? 0 then false else load_property)
  end.

Section laws.
Context (left : Sh -> list text) `{!ArgShifterLaws Sh left}.

(** The parameters up to the next option, and what follows. *)
Fixpoint leading (argv : list text) : list text :=
  match argv with
  | arg :: argv => if is_option arg then [] else trim arg :: leading argv
  | [] => []
  end.
Fixpoint behind (argv : list text) : list text :=
  match argv with
  | arg :: l => if is_option arg then argv else behind l
  | [] => []
  end.

Lemma switch_profiles_on sw argv : switch_profiles sw true argv = leading argv ++ switch_profiles sw false (behind argv).
Proof.
  induction argv as [|arg argv IH]; [done|]. cbn [switch_profiles leading behind].
  destruct (is_option arg) eqn:E; cbn [app switch_profiles]; [by rewrite E|]. by rewrite IH.
Qed.

Lemma behind_length argv : (length (behind argv) <= length argv)%nat.
Proof. induction argv as [|arg argv IH]; simpl; [lia|]. destruct (is_option arg); simpl; lia. Qed.
Lemma cbind_assoc {A B D} (m : CM C A) (f : A -> CM C B) (g : B -> CM C D) c s :
  cbind (cbind m f) g c s = cbind m (fun a => cbind (f a) g) c s.
Proof. unfold cbind. by destruct (m c s) as [[[c' s'] []]|]. Qed.

Lemma cbind_ext {A B} (m m' : CM C A) (f g : A -> CM C B) c s :
  m c s = m' c s -> (forall a c s, f a c s = g a c s) -> cbind m f c s = cbind m' g c s.
Proof. intros Hm Hfg. unfold cbind. rewrite Hm. by destruct (m' c s) as [[[c' s'] []]|]. Qed.

Lemma load_each_app l1 l2 lp c s : load_each (l1 ++ l2) lp c s = cbind (load_each l1 lp) (load_each l2) c s.
Proof.
  revert lp c s. induction l1 as [|x l1 IH]; intros lp c s; cbn [app load_each]; [done|].
  unfold mbind, CM_bind. rewrite cbind_assoc. apply cbind_ext; [done|]. intros r c' s'. apply IH.
Qed.

Lemma load_params_leading fuel sh : (length (left sh) < fuel)%nat ->
  exists sh', left sh' = behind (left sh)
  /\ forall lp c s, load_params fuel sh lp c s = cbind (load_each (leading (left sh)) lp) (fun lp => mret (sh', lp)) c s.
Proof.
  revert sh. induction fuel as [|fuel IH]; intros sh Hf; [lia|]. cbn [load_params]. rewrite parameter_next.
  destruct (left sh) as [|arg l] eqn:El; cbn [leading behind]; [by exists sh|].
  destruct (is_option arg) eqn:Eo; cbn [negb]; [by exists sh|].
  destruct (IH (consume_arg sh)) as (sh' & H1 & H2); rewrite left_consume, El in *; cbn [tail] in *; [simpl in Hf; lia|].
  exists sh'. split; [done|]. intros lp c s. cbn [load_each]. unfold mbind, CM_bind. rewrite cbind_assoc.
  destruct (current_left _ _ _ El) as [-> _]. apply cbind_ext; [done|]. intros r c' s'. apply H2.
Qed.

Lemma load_scan_each fuel sw sh lp c s : (length (left sh) < fuel)%nat ->
  load_scan fuel sw sh lp c s = load_each (switch_profiles sw false (left sh)) lp c s.
Proof.
  revert sh lp c s. induction fuel as [|fuel IH]; intros sh lp c s Hf; [lia|]. cbn [load_scan].
  rewrite anything_left, option_next. destruct (left sh) as [|arg l] eqn:El.
  { rewrite bool_decide_true by done. done. }
  rewrite bool_decide_false by done. cbn [negb switch_profiles]. cbn [length] in Hf.
  destruct (current_left _ _ _ El) as [_ Hm]. rewrite Hm.
  assert (load_scan fuel sw (ignore_arg sh) lp c s = load_each (switch_profiles sw false l) lp c s) as Hi.
  { rewrite IH; rewrite left_ignore, El; [done|simpl; lia]. }
  destruct (is_option arg); cbn [andb]; [|exact Hi]. destruct (same_flag sw arg); [|exact Hi].
  destruct (load_params_leading (S fuel) (consume_arg sh)) as (sh' & H1 & H2); rewrite left_consume, El in *; cbn [tail] in *; [lia|].
  rewrite switch_profiles_on, load_each_app. unfold mbind, CM_bind.
  erewrite (cbind_ext _ _ _ _ c s (H2 lp c s) (fun _ _ _ => eq_refl)). rewrite cbind_assoc.
  apply cbind_ext; [done|]. intros lp' c' s'. cbn.
  rewrite IH; rewrite H1; [done|]. pose proof (behind_length l). lia.
Qed.

Lemma load_scanned fuel sw argv use_env c s :
  (length argv < fuel)%nat -> sw <> [] ->
  load fuel (Some sw) argv use_env c s
  = cbind (load_each (switch_profiles (MINUS :: trim sw) false argv) true) (fun load_property =>
      cbind (if load_property : bool then
               ctry (catches NotFoundException)
                 (cbind (of_PM (get_property pfuel (trim sw) use_env)) load_file_profile) (mret 0)
             else mret 0)
        (fun _ => mret 0)) c s.
Proof.
  intros Hf Hsw. unfold load. destruct sw as [|a sw]; [done|]. unfold mbind, CM_bind.
  apply cbind_ext; [|done]. destruct argv as [|arg argv]; [by rewrite bool_decide_true|].
  rewrite bool_decide_false by done. rewrite load_scan_each; rewrite left_shifter; done.
Qed.

(** C38 (equivalence). [load] loads the profiles that the command line names behind the switch, in their order,
    and, only if load_file_profile returned a failure for each of them, the one that the property of the switch's
    name holds; a missing property is no error. (load_file_profile fails when a file of the profile is invalid,
    also after others of it were loaded, and does not when a file is missing: [partly_loaded_profile_fails],
    [missing_file_hides_property].) *)
Theorem load_command_line fuel sw argv use_env c s :
  (length argv < fuel)%nat -> sw <> [] ->
  load fuel (Some sw) argv use_env c s
  = cbind (load_each (switch_profiles (MINUS :: trim sw) false argv) true) (fun load_property =>
      cbind (if load_property : bool then
               ctry (catches NotFoundException)
                 (cbind (of_PM (get_property pfuel (trim sw) use_env)) load_file_profile) (mret 0)
             else mret 0)
        (fun _ => mret 0)) c s.
Proof. apply load_scanned. Qed.

(** *** The loader of services *)

(** A computation that ends on every good repository, and leaves a good one. *)
Definition ends {A} (good : store -> Prop) (m : CM C A) : Prop := forall c s, good s ->
  exists c' s' r, m c s = Some (c', s', r) /\ good s'.

Section ending.
Context (good : store -> Prop).

Lemma ends_ret {A} (a : A) : ends good (mret a).
Proof. intros c s Hs. by eexists _, _, _. Qed.

Lemma ends_bind {A B} (m : CM C A) (k : A -> CM C B) : ends good m -> (forall a, ends good (k a)) -> ends good (cbind m k).
Proof.
  intros Hm Hk c s Hs. unfold cbind. destruct (Hm c s Hs) as (c' & s' & [a|e] & -> & Hs'); [by apply Hk|by eexists _, _, _].
Qed.

Lemma ends_try {A} h (m k : CM C A) : ends good m -> ends good k -> ends good (ctry h m k).
Proof.
  intros Hm Hk c s Hs. unfold ctry. destruct (Hm c s Hs) as (c' & s' & [a|e] & -> & Hs'); [by eexists _, _, _|].
  destruct (h e); [by apply Hk|by eexists _, _, _].
Qed.

Lemma ends_of_PM {A} (m : PM A) : (forall s, good s -> exists s' r, m s = Some (s', r) /\ good s') -> ends good (of_PM m).
Proof. intros Hm c s Hs. unfold of_PM. destruct (Hm s Hs) as (s' & r & -> & Hs'). by eexists _, _, _. Qed.

Lemma ends_ext {A} (m m' : CM C A) : (forall c s, m c s = m' c s) -> ends good m' -> ends good m.
Proof. intros E Hm c s Hs. rewrite E. by apply Hm. Qed.

Context (fuel : nat) (argv : list text) (sw : text) (Hfuel : (length argv < fuel)%nat).
Context (Hprofile : forall p, ends good (load_file_profile p)).
Context (Hproperty : forall s, good s -> exists s' r, get_property pfuel (trim sw) false s = Some (s', r) /\ good s').

Lemma ends_load_each l lp : ends good (load_each l lp).
Proof. revert lp. induction l as [|p l IH]; intros lp; cbn [load_each]; [apply ends_ret|]. apply ends_bind; auto. Qed.

Lemma ends_load : ends good (load fuel (Some sw) argv false).
Proof.
  destruct (decide (sw = [])) as [->|Hsw]; [apply ends_ret|].
  eapply ends_ext; [intros c s; by apply load_scanned|].
  apply ends_bind; [apply ends_load_each|]. intros lp. apply ends_bind; [|intros; apply ends_ret].
  destruct lp; [|apply ends_ret]. apply ends_try; [|apply ends_ret]. apply ends_bind; [by apply ends_of_PM|done].
Qed.

Lemma ends_try_load b : ends good (try_load fuel sw (trim sw) argv b).
Proof.
  apply ends_bind; [apply ends_load|]. intros r. destruct (negb _); [apply ends_ret|].
  apply ends_bind; [by intros c s Hs; eexists _, _, _|]. intros n. destruct (negb _); [apply ends_ret|].
  destruct b; [|apply ends_ret].
  apply ends_bind; [by apply ends_of_PM|]. intros p. apply ends_bind; [done|intros; apply ends_ret].
Qed.
End ending.

(** [load_config_args] throws nothing and always returns the load count, whatever the
    command line, the property and the exceptions of loading are, as long as loading a profile and looking up
    the property end. *)
Theorem load_config_args_returns (good : store -> Prop) fuel sw argv use_property c s :
  (length argv < fuel)%nat -> (forall p, ends good (load_file_profile p)) ->
  (forall s, good s -> exists s' r, get_property pfuel (trim sw) false s = Some (s', r) /\ good s') -> good s ->
  exists c' s', load_config_args fuel (Some sw) argv use_property c s = Some (c', s', Ok (load_count c')).
Proof.
  intros Hf Hl Hg Hs. unfold load_config_args, mbind, CM_bind, cbind.
  case_bool_decide as E; [by eexists _, _|]. unfold ctry.
  destruct (ends_try_load good fuel argv sw Hf Hl Hg use_property c s Hs) as (c' & s' & [u|e] & -> & _); by eexists _, _.
Qed.
End laws.
End load.

(** ** The configurator itself *)

(** daf/Configurator.cpp:195-256 [Configurator::load_file_profile]. Over the state of the configurator. *)
Definition profile_of `{Platform} (files : text -> option (list text)) (fuel : nat) (profile_arg : text) : CM config Z :=
  fun c s =>
    match load_file_profile files fuel profile_arg c s with
    | Some (s, Ok (c, r)) => Some (c, s, Ok r)
    | Some (s, Throw e) => Some (c, s, Throw e)
    | None => None
    end.

(** It throws nothing, so no change of the configurator is lost. *)
Lemma load_file_profile_throws_nothing `{Platform} files fuel p c s s' e :
  load_file_profile files fuel p c s <> Some (s', Throw e).
Proof.
  unfold load_file_profile. destruct (make_config_profiles p) as [|q l]; [done|]. generalize (q :: l). clear p q l. intros l.
  revert c s. induction l as [|q l IH]; intros c s; cbn [load_profiles]; [done|].
  destruct (split_profile q) as [filename section_args].
  destruct (load_file_sections _ _ _ _ _ _) as [[s1 [[c1 r]|e1]]|]; [|by destruct (catches _ _)|done].
  by destruct (r =? 0).
Qed.

(** ** A concrete command line *)

(** A scanner that goes through a list and compares the flags in any case. *)
Definition caseless (flag arg : text) : bool := bool_decide (tolower <$> flag = tolower <$> arg).


#[export] Instance list_shifter : ArgShifter (list text) := {|
  shifter := fun argv => argv;
  same_flag := caseless;
  is_anything_left := fun sh => negb (bool_decide (sh = []));
  is_option_next := fun sh => match sh with [] => false | arg :: _ => is_option arg end;
  is_parameter_next := fun sh => match sh with [] => false | arg :: _ => negb (is_option arg) end;
  cur_arg_matches := fun flag sh => match sh with [] => false | arg :: _ => caseless flag arg end;
  get_current := fun sh => default [] (head sh);
  consume_arg := tail;
  ignore_arg := tail;
|}.

#[export] Instance list_shifter_laws : ArgShifterLaws (list text) (fun sh => sh).
Proof. split; try done. by intros sh arg l ->. Qed.

Definition demo_argv : list text :=
  str <$> ["server"; "-DAFProperties"; "none.conf"; "demo.conf"; "-v"; "x"; "-DAFProperties"; "demo.conf:extra"]%string.

Definition demo_load (argv : list text) : option (config * store * result Z) :=
  load (H0 := calm_platform) (profile_of (H := calm_platform) demo_files 9) 9 20 (Some (str "DAFProperties")) argv false (Config ∅ 0)
    greeting.

(** Three profiles were named; two of them could be loaded, which is what [load_count] says. *)
Lemma load_command_line_witness :
  (fun r => match r with (c, _, Ok z) => (props c !! str "Name", load_count_ c, z) | _ => (None, 0, 0) end) <$> demo_load demo_argv
  = Some (Some (str "other"), 2, 0).
Proof.
  unfold demo_load. rewrite (load_command_line (H0 := calm_platform) _ 9 (fun sh => sh)); [|vm_compute; lia|done].
  vm_compute. reflexivity.
Defined.

(** A file whose lines are no configuration. *)
Definition more_files : text -> option (list text) :=
  fun name => if decide (name = str "bad.conf") then Some [str "no section"] else demo_files name.

Definition more_load (names : string) (property : string) : option (option text * Z) :=
  (fun r => match r with (c, _, _) => (props c !! str "Name", load_count_ c) end)
  <$> load (H0 := calm_platform) (profile_of (H := calm_platform) more_files 9) 9 20 (Some (str "DAFProperties"))
        [str "-DAFProperties"; str names] false (Config ∅ 0) {[ str "DAFProperties" := str property ]}.

(** A profile of two files, the second invalid: the first is loaded, and so is the property's profile. *)
Lemma partly_loaded_profile_fails : more_load "demo.conf;bad.conf" "demo.conf:extra" = Some (Some (str "other"), 2).
Proof. vm_compute. reflexivity. Qed.

(** A file that is not there: nothing is loaded, and the property's profile is not tried. *)
Lemma missing_file_hides_property : more_load "none.conf" "demo.conf" = Some (None, 0).
Proof. vm_compute. reflexivity. Qed.

(** A result that leaves the repository as it was. *)
Definition keeps_greeting {A} (r : option (store * result A)) : bool :=
  match r with Some (s, _) => bool_decide (s = greeting) | None => false end.

Lemma keeps_greeting_ends {A} (r : option (store * result A)) : keeps_greeting r = true -> exists x, r = Some (greeting, x).
Proof. destruct r as [[s x]|]; [|done]. intros ->%bool_decide_eq_true. by exists x. Qed.

(** Reading the demonstration files ends, and leaves the repository alone. *)
Lemma demo_file_ends filename : exists r, load_file (H := calm_platform) demo_files 9 filename greeting = Some (greeting, r).
Proof.
  unfold load_file. destruct (decide (filename = str "demo.conf")) as [->|Hne].
  - apply keeps_greeting_ends. vm_compute. reflexivity.
  - unfold demo_files. rewrite decide_False by done. by eexists.
Qed.

Lemma demo_profile_ends p : ends (fun s => s = greeting) (profile_of (H := calm_platform) demo_files 9 p).
Proof.
  intros c s ->. unfold profile_of, load_file_profile. destruct (make_config_profiles p) as [|q l]; [by eexists _, _, _|].
  assert (exists c' r, load_profiles (H := calm_platform) demo_files 9 (q :: l) c greeting = Some (greeting, Ok (c', r)))
    as (c' & r & ->); [|by eexists _, _, _].
  generalize (q :: l). clear p q l. intros l. revert c. induction l as [|q l IH]; intros c; cbn [load_profiles]; [by eexists _, _|].
  destruct (split_profile q) as [filename section_args]. destruct (demo_file_ends filename) as [r E].
  unfold load_file_sections, mbind, PM_bind. rewrite E. destruct r as [db|e]; [apply IH|].
  destruct (catches NotFoundException e); [apply IH|by eexists _, _].
Qed.

Lemma load_config_args_returns_witness :
  exists c' s', load_config_args (H0 := calm_platform) (profile_of (H := calm_platform) demo_files 9) load_count_ 9 20
    (Some (str "DAFProperties")) demo_argv true (Config ∅ 0) greeting = Some (c', s', Ok (load_count_ c')).
Proof.
  apply (load_config_args_returns (H0 := calm_platform) _ load_count_ 9 (fun sh => sh) (fun s => s = greeting));
    [vm_compute; lia|exact demo_profile_ends| |done].
  intros s ->. destruct (keeps_greeting_ends (get_property (H := calm_platform) 9 (trim (str "DAFProperties")) false greeting))
    as [r E]; [vm_compute; reflexivity|]. by exists greeting, r.
Defined.
