(* ===== verification/Naming.v ===== *)
(** * Naming contexts: TAF/taf/NamingContext

    Path names over the CORBA naming service.  A context is a node that maps names to
    objects, some of which are contexts again; [find_context], [bind_context] and the
    operations on names follow a path from the context they are called on, or from the root
    when it begins with a slash.  The naming service is not part of the repository:
    [CosNaming] has the calls the code makes and [CosNamingLaws] what its specification says
    of them, in terms of the [bindings] of each context.  The recursions follow the length of
    the path, which is the fuel. *)

From S2P Require Import Prelude CString Text Configurator.
From Stdlib Require Import Ascii.

Abbreviation text := (list ascii).
Definition SLASH : ascii := "/"%char.

(** ** The naming service *)

Inductive naming_exn := NotFound | AlreadyBound | BadParam | OtherException.

(** What a call gives; [NNil] is an access through a nil reference. *)
Inductive nres (A : Type) := NOk (a : A) | NThrow (e : naming_exn) | NNil.
Arguments NOk {A} a.
Arguments NThrow {A} e.
Arguments NNil {A}.

Class CosNaming (NS Obj : Type) := {
  narrow : NS -> Obj -> bool;                                (* _narrow gives a context *)
  ns_resolve : NS -> Obj -> text -> nres Obj;
  ns_bind_new_context : NS -> Obj -> text -> NS * nres Obj;
  ns_rebind : NS -> Obj -> text -> Obj -> NS * nres unit;
  ns_rebind_context : NS -> Obj -> text -> Obj -> NS * nres unit;
  ns_unbind : NS -> Obj -> text -> NS * nres unit;
}.

(** ** Operations *)

Definition NM (NS A : Type) : Type := NS -> option (NS * nres A).

#[export] Instance NM_ret NS : MRet (NM NS) := fun A a s => Some (s, NOk a).
#[export] Instance NM_bind NS : MBind (NM NS) := fun A B k m s =>
  match m s with
  | Some (s, NOk a) => k a s
  | Some (s, NThrow e) => Some (s, NThrow e)
  | Some (s, NNil) => Some (s, NNil)
  | None => None
  end.
Definition nthrow {NS A} (e : naming_exn) : NM NS A := fun s => Some (s, NThrow e).
Definition too_deep {NS A} : NM NS A := fun _ => None.

(** [try { m } catch (const NotFound &) { k }]. *)
Definition on_not_found {NS A} (m k : NM NS A) : NM NS A := fun s =>
  match m s with
  | Some (s, NThrow NotFound) => k s
  | r => r
  end.

(** [find_last_of]. *)
Fixpoint find_last (c : ascii) (s : text) : option nat :=
  match s with
  | [] => None
  | x :: s => match find_last c s with
              | Some i => Some (S i)
              | None => if decide (x = c) then Some O else None
              end
  end.

(** TAF/taf/NamingContext.cpp:147-154 [NamingContext::trim_context]. *)
Definition trim_context (context : text) : text :=
  match find_char SLASH context with
  | Some O => SLASH :: trim_string (drop 1 context) SLASH
  | _ => trim_string context SLASH
  end.

(** TAF/taf/NamingContext.cpp:165-168 [NamingContext::find_context]. The first name of a path that does not begin with a slash, and
    what follows its slash, if there is one. *)
Definition split_first (pos : option nat) (cxt_path : text) : text * option text :=
  match pos with
  | Some p => (trim_context (take p cxt_path), Some (drop (p + 1) cxt_path))
  | None => (trim_context cxt_path, None)
  end.

Section naming.
Context {NS Obj : Type} `{CosNaming NS Obj}.
(** TheTAFRootContext(). *)
Context (root : option Obj).

(** Calls through a reference, which may be nil. *)
Definition resolve_in (this : option Obj) (n : text) : NM NS Obj := fun s =>
  match this with
  | None => Some (s, NNil)
  | Some c => Some (s, ns_resolve s c n)
  end.
Definition call (this : option Obj) {A} (f : NS -> Obj -> NS * nres A) : NM NS A := fun s =>
  match this with
  | None => Some (s, NNil)
  | Some c => Some (f s c)
  end.
Definition narrow_ref (o : option Obj) : NM NS (option Obj) := fun s =>
  Some (s, NOk (match o with Some x => if narrow s x then o else None | None => None end)).

(** TAF/taf/NamingContext.cpp:156-177 [NamingContext::find_context]. *)
Fixpoint find_context (fuel : nat) (this : option Obj) (cxt_pathname : text) : NM NS (option Obj) :=
  match fuel with
  | O => too_deep
  | S fuel =>
      let cxt_path := trim_context cxt_pathname in
      match find_char SLASH cxt_path with
      | Some O => find_context fuel root (drop 1 cxt_path)
      | pos =>
          let '(cxt_name, rest) := split_first pos cxt_path in
          if bool_decide (cxt_name = []) then mret this
          else
            o ← resolve_in this cxt_name;
            cxt_obj ← narrow_ref (Some o);
            match cxt_obj with
            | Some _ => match rest with Some rest => find_context fuel cxt_obj rest | None => mret cxt_obj end
            | None => nthrow NotFound
            end
      end
  end.

(** TAF/taf/NamingContext.cpp:179-204 [NamingContext::bind_context]. *)
Fixpoint bind_context (fuel : nat) (this : option Obj) (cxt_pathname : text) : NM NS (option Obj) :=
  match fuel with
  | O => too_deep
  | S fuel =>
      let cxt_path := trim_context cxt_pathname in
      match find_char SLASH cxt_path with
      | Some O => bind_context fuel root (drop 1 cxt_path)
      | pos =>
          let '(cxt_name, rest) := split_first pos cxt_path in
          if bool_decide (cxt_name = []) then mret this
          else
            cxt_obj ← on_not_found
                        (o ← resolve_in this cxt_name; narrow_ref (Some o))
                        (o ← call this (fun s c => ns_bind_new_context s c cxt_name); mret (Some o));
            match rest with Some rest => bind_context fuel cxt_obj rest | None => mret cxt_obj end
      end
  end.

(** TAF/taf/NamingContext.cpp:206-241 [NamingContext::bind_name]. [fuel] is for the contexts, [n] for the calls of itself. *)
Fixpoint bind_name (n fuel : nat) (this : option Obj) (obj_pathname : text) (obj : option Obj) : NM NS unit :=
  match n with
  | O => too_deep
  | S n =>
      let obj_name := trim_context obj_pathname in
      if bool_decide (obj_name = []) then nthrow BadParam
      else match find_last SLASH obj_name with
           | Some (S p) =>
               cxt ← bind_context fuel this (take (S p + 1) obj_name);
               bind_name n fuel cxt (drop (S p + 1) obj_name) obj
           | Some O => bind_name n fuel root (drop 1 obj_name) obj
           | None =>
               match obj with
               | None => mret tt
               | Some o =>
                   cxt ← narrow_ref obj;
                   match cxt with
                   | None => call this (fun s c => ns_rebind s c obj_name o)
                   | Some x => call this (fun s c => ns_rebind_context s c obj_name x)
                   end
               end
           end
  end.

(** TAF/taf/NamingContext.cpp:243-270 [NamingContext::unbind_name]. *)
Fixpoint unbind_name (n fuel : nat) (this : option Obj) (obj_pathname : text) : NM NS unit :=
  match n with
  | O => too_deep
  | S n =>
      let obj_name := trim_context obj_pathname in
      if bool_decide (obj_name = []) then nthrow BadParam
      else match find_last SLASH obj_name with
           | Some (S p) =>
               cxt ← find_context fuel this (take (S p + 1) obj_name);
               unbind_name n fuel cxt (drop (S p + 1) obj_name)
           | Some O => unbind_name n fuel root (drop 1 obj_name)
           | None => call this (fun s c => ns_unbind s c obj_name)
           end
  end.

(** TAF/taf/NamingContext.cpp:272-291 [NamingContext::resolve_name]. *)
Fixpoint resolve_name (n fuel : nat) (this : option Obj) (obj_pathname : text) : NM NS Obj :=
  match n with
  | O => too_deep
  | S n =>
      let obj_name := trim_context obj_pathname in
      if bool_decide (obj_name = []) then nthrow NotFound
      else match find_last SLASH obj_name with
           | Some (S p) =>
               cxt ← find_context fuel this (take (S p) obj_name);
               resolve_name n fuel cxt (drop (S p + 1) obj_name)
           | Some O => resolve_name n fuel root (drop 1 obj_name)
           | None => resolve_in this obj_name
           end
  end.
End naming.

(** ** Paths *)

(** A name as a path can have it, and a path that trimming leaves alone. *)
Definition seg (n : text) : Prop := tidy n /\ SLASH ∉ n.
Definition plain_path (p : text) : Prop := tidy p /\ head p <> Some SLASH.

(** The names of a path with slashes between them, and one at the end if [t]. *)
Fixpoint path (segs : list text) (t : bool) : text :=
  match segs with
  | [] => []
  | [n] => n ++ (if t then [SLASH] else [])
  | n :: segs => n ++ SLASH :: path segs t
  end.

Lemma char_at_end (s : text) : char_at s (length s - 1) = default NUL (last s).
Proof. unfold char_at. rewrite last_lookup. by rewrite Nat.sub_1_r. Qed.

Lemma tidy_uncontrol (s : text) : (forall c, c ∈ s -> iscntrl c = false) -> uncontrol <$> s = s.
Proof.
  intros Hc. rewrite <- (list_fmap_id s) at 2. apply list_fmap_ext. intros i c Hi. unfold uncontrol.
  by rewrite Hc by (by eapply list_elem_of_lookup_2).
Qed.

Lemma trim_string_plain p : plain_path p -> trim_string p SLASH = p.
Proof.
  intros [(Hne & H1 & H2 & Hc) Hh]. rewrite trim_string_trimmed; [by apply tidy_uncontrol|].
  right. split; [done|]. split; [done|]. intros [E _]. destruct p as [|x p]; [done|]. apply Hh. exact (f_equal Some E).
Qed.

Lemma find_char_head p : head p <> Some SLASH -> find_char SLASH p <> Some O.
Proof. destruct p as [|x p]; [done|]. cbn. intros Hx. rewrite decide_False by congruence. by destruct (find_char SLASH p). Qed.

Lemma trim_context_plain p : plain_path p -> trim_context p = p.
Proof.
  intros Hp. unfold trim_context. pose proof (find_char_head p (proj2 Hp)).
  destruct (find_char SLASH p) as [[|i]|]; [done|by apply trim_string_plain..].
Qed.

Lemma trim_context_rooted p : plain_path p -> trim_context (SLASH :: p) = SLASH :: p.
Proof. intros Hp. unfold trim_context. cbn [find_char]. rewrite decide_True by done. cbn [drop]. by rewrite trim_string_plain. Qed.

Lemma trim_context_nil : trim_context [] = [].
Proof. done. Qed.

Lemma seg_plain n : seg n -> plain_path n.
Proof.
  intros [Ht Hs]. split; [done|]. destruct n as [|x n]; [done|]. cbn. intros [= ->]. apply Hs. by left.
Qed.

Lemma seg_ne n : seg n -> n <> [].
Proof. by intros [[] _]. Qed.

Lemma plain_app n q : seg n -> q = [] \/ tidy q -> plain_path (n ++ SLASH :: q).
Proof.
  intros Hn Hq. destruct (seg_plain _ Hn) as [(Hne & H1 & H2 & Hc) Hh]. destruct n as [|x n]; [done|].
  split; [|done]. split; [done|]. split; [done|]. split.
  - rewrite char_at_end. rewrite char_at_end in H2. destruct Hq as [->|(Hq & _ & H3 & _)].
    + by rewrite last_snoc.
    + rewrite char_at_end in H3. destruct q as [|y q] using rev_ind; [done|]. clear IHq.
      rewrite last_snoc in H3. replace ((x :: n) ++ SLASH :: q ++ [y]) with (((x :: n) ++ SLASH :: q) ++ [y])
        by (by rewrite <- app_assoc). by rewrite last_snoc.
  - intros c [Hin|[->|Hin]%elem_of_cons]%elem_of_app; [by apply Hc|done|].
    destruct Hq as [->|(_ & _ & _ & H4)]; [by apply elem_of_nil in Hin|by apply H4].
Qed.

Lemma path_cons n segs t : segs <> [] -> path (n :: segs) t = n ++ SLASH :: path segs t.
Proof. by destruct segs. Qed.

Lemma path_plain segs t : Forall seg segs -> segs <> [] -> plain_path (path segs t).
Proof.
  induction 1 as [|n segs Hn Hsegs IH]; [done|]. intros _. destruct segs as [|m segs].
  - cbn [path]. destruct t; [apply plain_app; auto|]. rewrite app_nil_r. by apply seg_plain.
  - rewrite path_cons by done. apply plain_app; [done|]. right. by apply IH.
Qed.

(** How the first name of a path is split off. *)
Lemma path_split n segs t : seg n -> Forall seg segs ->
  find_char SLASH (path (n :: segs) t) <> Some O
  /\ split_first (find_char SLASH (path (n :: segs) t)) (path (n :: segs) t)
     = (n, if bool_decide (segs = []) && negb t then None else Some (path segs t)).
Proof.
  intros Hn Hs. split.
  { apply find_char_head. apply (path_plain (n :: segs) t); [by constructor|done]. }
  assert (forall q, split_first (find_char SLASH (n ++ SLASH :: q)) (n ++ SLASH :: q) = (n, Some q)) as Hcut.
  { intros q. rewrite find_char_cut by apply Hn. cbn [split_first]. rewrite take_app_length.
    rewrite trim_context_plain by (by apply seg_plain). f_equal. f_equal.
    rewrite drop_app_ge by lia. by replace (length n + 1 - length n)%nat with 1%nat by lia. }
  destruct segs as [|m segs]; [|rewrite path_cons by done; rewrite bool_decide_false by done; apply Hcut].
  rewrite bool_decide_true by done. destruct t; cbn [path andb negb]; [apply Hcut|].
  rewrite app_nil_r, find_char_absent by apply Hn. cbn [split_first]. by rewrite trim_context_plain by (by apply seg_plain).
Qed.

Lemma path_length n segs t : seg n -> (length (path segs t) < length (path (n :: segs) t))%nat.
Proof.
  intros Hn%seg_ne. destruct segs as [|m segs].
  - cbn [path length]. rewrite length_app. destruct n; [done|]. simpl. lia.
  - rewrite (path_cons n) by done. rewrite length_app. simpl. lia.
Qed.

(** The last name of a path, as [bind_name] and the others take it off. *)
Lemma find_last_absent (s : text) : SLASH ∉ s -> find_last SLASH s = None.
Proof.
  induction s as [|x s IH]; [done|]. intros [Hx Hs]%not_elem_of_cons. cbn [find_last]. by rewrite IH, decide_False by done.
Qed.

Lemma find_last_app s n : SLASH ∉ n -> find_last SLASH (s ++ SLASH :: n) = Some (length s).
Proof.
  intros Hn. induction s as [|x s IH]; cbn [app find_last length].
  - rewrite find_last_absent by done. by rewrite decide_True.
  - by rewrite IH.
Qed.

Lemma path_snoc segs n : segs <> [] -> path (segs ++ [n]) false = path segs true ++ n.
Proof.
  induction segs as [|m segs IH]; [done|]. intros _. destruct segs as [|m' segs].
  - cbn [path app]. by rewrite app_nil_r, <- app_assoc.
  - change ((m :: m' :: segs) ++ [n]) with (m :: (m' :: segs) ++ [n]).
    rewrite !(path_cons m) by done. rewrite IH by done. by rewrite <- app_assoc.
Qed.

Lemma path_true segs : segs <> [] -> path segs true = path segs false ++ [SLASH].
Proof.
  induction segs as [|m segs IH]; [done|]. intros _. destruct segs as [|m' segs].
  - cbn [path]. by rewrite app_nil_r.
  - rewrite !(path_cons m) by done. rewrite IH by done. by rewrite <- app_assoc.
Qed.

(** ** What the naming service promises *)

Class CosNamingLaws (NS Obj : Type) `{CosNaming NS Obj, EqDecision Obj} (bindings : NS -> Obj -> gmap text Obj)
  (live : NS -> Obj -> Prop) : Prop := {                     (* objects that exist *)
  resolve_law : forall s c n, narrow s c = true ->
    ns_resolve s c n = match bindings s c !! n with Some o => NOk o | None => NThrow NotFound end;
  new_context_law : forall s c n, narrow s c = true -> bindings s c !! n = None ->
    exists s' c', ns_bind_new_context s c n = (s', NOk c') /\ narrow s c' = false
    /\ ~ live s c' /\ (forall d, live s d -> live s' d) /\ bindings s' c' = ∅
    /\ (forall d, narrow s' d = if decide (d = c') then true else narrow s d)
    /\ (forall d, d <> c' -> bindings s' d = if decide (d = c) then <[n := c']> (bindings s c) else bindings s d);
  rebind_law : forall s c n o, narrow s c = true -> narrow s o = false ->
    (forall x, bindings s c !! n = Some x -> narrow s x = false) ->
    exists s', ns_rebind s c n o = (s', NOk tt) /\ (forall d, narrow s' d = narrow s d) /\ (forall d, live s d -> live s' d)
    /\ (forall d, bindings s' d = if decide (d = c) then <[n := o]> (bindings s c) else bindings s d);
  unbind_law : forall s c n x, narrow s c = true -> bindings s c !! n = Some x ->
    exists s', ns_unbind s c n = (s', NOk tt) /\ (forall d, narrow s' d = narrow s d) /\ (forall d, live s d -> live s' d)
    /\ (forall d, bindings s' d = if decide (d = c) then base.delete n (bindings s c) else bindings s d);
}.

Section laws.
Context {NS Obj : Type} `{CosNaming NS Obj, EqDecision Obj} (bindings : NS -> Obj -> gmap text Obj) (live : NS -> Obj -> Prop)
  `{!CosNamingLaws NS Obj bindings live}.
Context (root : option Obj).
Implicit Types (s : NS) (c d : Obj).

(** The context a list of names leads to. *)
Fixpoint walk s c (segs : list text) : option Obj :=
  match segs with
  | [] => Some c
  | n :: segs => match bindings s c !! n with
                 | Some o => if narrow s o then walk s o segs else None
                 | None => None
                 end
  end.

(** No name on the way is taken by an object that is no context. *)
Fixpoint walkable s c (segs : list text) : Prop :=
  match segs with
  | [] => True
  | n :: segs => match bindings s c !! n with
                 | Some o => narrow s o = true /\ walkable s o segs
                 | None => True
                 end
  end.

(** Contexts and bindings are only added, and no object becomes a context. *)
Definition extends s s' : Prop := forall d,
  (narrow s d = true -> narrow s' d = true /\ bindings s d ⊆ bindings s' d) /\ (live s d -> live s' d /\ narrow s' d = narrow s d).

Lemma find_context_walk fuel s c segs t :
  (length (path segs t) < fuel)%nat -> narrow s c = true -> Forall seg segs ->
  find_context root fuel (Some c) (path segs t) s
  = Some (s, match walk s c segs with Some d => NOk (Some d) | None => NThrow NotFound end).
Proof.
  revert c segs. induction fuel as [|fuel IH]; intros c segs Hf Hc Hs; [lia|].
  destruct segs as [|n segs]; [done|]. apply Forall_cons in Hs as [Hn Hs]. cbn [find_context].
  rewrite trim_context_plain by (apply path_plain; [by constructor|done]).
  destruct (path_split n segs t Hn Hs) as [Hs0 Hs1].
  pose proof (path_length n segs t Hn) as Hl.
  destruct (find_char SLASH (path (n :: segs) t)) as [[|p]|] eqn:Ep; [done|..]; rewrite Hs1;
    rewrite bool_decide_false by (by apply seg_ne); unfold mbind, NM_bind, resolve_in, narrow_ref;
    rewrite resolve_law by done; cbn [walk]; destruct (bindings s c !! n) as [o|]; try done;
    destruct (narrow s o) eqn:Eo; try done;
    (destruct (bool_decide (segs = []) && negb t) eqn:Eb; [|apply IH; [lia|done|done]]);
    apply andb_true_iff in Eb as [->%bool_decide_eq_true _]; done.
Qed.

Lemma walk_extends s s' c d segs : extends s s' -> narrow s c = true -> walk s c segs = Some d -> walk s' c segs = Some d.
Proof.
  intros He. revert c. induction segs as [|n segs IH]; intros c Hc; cbn [walk]; [done|].
  destruct (bindings s c !! n) as [o|] eqn:Eo; [|done]. destruct (narrow s o) eqn:En; [|done]. intros Hw.
  destruct (proj1 (He c) Hc) as [_ Hsub]. rewrite (lookup_weaken _ _ _ _ Eo Hsub). destruct (proj1 (He o) En) as [-> _]. by apply IH.
Qed.

Lemma walk_narrow s c d segs : narrow s c = true -> walk s c segs = Some d -> narrow s d = true.
Proof.
  revert c. induction segs as [|n segs IH]; intros c Hc; cbn [walk]; [by intros [= <-]|].
  destruct (bindings s c !! n) as [o|]; [|done]. destruct (narrow s o) eqn:En; [|done]. by apply IH.
Qed.

Lemma extends_refl s : extends s s.
Proof. by intros d. Qed.

Lemma extends_trans s1 s2 s3 : extends s1 s2 -> extends s2 s3 -> extends s1 s3.
Proof. 
  intros H1 H2 d. destruct (H1 d) as [A1 A2], (H2 d) as [B1 B2]. split.
  - intros [Hd Hs]%A1. destruct (B1 Hd) as [? ?]. split; [done|]. by etrans.
  - intros [Hd En]%A2. destruct (B2 Hd) as [? ?]. split; [done|]. congruence.
Qed.

(** In a new context nothing is in the way. *)
Lemma walkable_empty s c segs : bindings s c = ∅ -> walkable s c segs.
Proof. destruct segs as [|n segs]; [done|]. intros E. cbn [walkable]. by rewrite E, lookup_empty. Qed.

(** One name of [bind_context]: the context that is there, or a new one. *)
Lemma bind_one s c n segs : narrow s c = true -> walkable s c (n :: segs) ->
  exists s1 o, on_not_found (o ← resolve_in (Some c) n; narrow_ref (Some o))
      (o ← call (Some c) (fun s c => ns_bind_new_context s c n); mret (Some o)) s = Some (s1, NOk (Some o))
    /\ bindings s1 c !! n = Some o /\ narrow s1 o = true /\ walkable s1 o segs /\ extends s s1
    /\ (s1 = s \/ bindings s c !! n = None /\ bindings s1 o = ∅).
Proof.
  intros Hc Hw. unfold on_not_found, mbind, NM_bind, resolve_in, narrow_ref, call. rewrite resolve_law by done. cbn [walkable] in Hw.
  destruct (bindings s c !! n) as [o|] eqn:Eo.
  { destruct Hw as [Ho Hw]. rewrite Ho. exists s, o. split_and!; try done. by left. }
  destruct (new_context_law s c n Hc Eo) as (s1 & o & -> & G1 & G2 & G2' & G3 & G4 & G5).
  assert (c <> o) as Hne by (intros ->; congruence).
  exists s1, o. split; [done|]. rewrite G5, decide_True, lookup_insert_eq by done.
  split; [done|]. split; [by rewrite G4, decide_True|]. split; [by apply walkable_empty|]. split.
  - intros d. split.
    + intros Hd. assert (d <> o) by (intros ->; congruence). rewrite G4, decide_False, G5 by done. split; [done|].
      destruct (decide (d = c)) as [->|]; [by apply insert_subseteq|done].
    + intros Hd. assert (d <> o) by (intros ->; done). rewrite G4, decide_False by done. auto.
  - by right.
Qed.

Lemma bind_context_walk fuel s c segs t :
  (length (path segs t) < fuel)%nat -> narrow s c = true -> Forall seg segs -> walkable s c segs ->
  exists s' d, bind_context root fuel (Some c) (path segs t) s = Some (s', NOk (Some d))
  /\ walk s' c segs = Some d /\ extends s s' /\ (s' = s \/ walk s c segs = None /\ bindings s' d = ∅).
Proof.
  revert s c segs. induction fuel as [|fuel IH]; intros s c segs Hf Hc Hs Hw; [lia|].
  destruct segs as [|n segs]; [exists s, c; split_and!; [done|done|apply extends_refl|by left]|].
  apply Forall_cons in Hs as [Hn Hs]. cbn [bind_context].
  rewrite trim_context_plain by (apply path_plain; [by constructor|done]).
  destruct (path_split n segs t Hn Hs) as [Hs0 Hs1].
  pose proof (path_length n segs t Hn) as Hl.
  destruct (bind_one s c n segs Hc Hw) as (s1 & o & E1 & E2 & E3 & E4 & E5 & E6).
  assert (narrow s1 c = true) as Hc1 by (by apply E5).
  assert (s1 = s \/ walk s c (n :: segs) = None /\ bindings s1 o = ∅) as E6'.
  { destruct E6 as [|[E6 ?]]; [by left|right]. cbn [walk]. by rewrite E6. }
  destruct (find_char SLASH (path (n :: segs) t)) as [[|p]|] eqn:Ep; [done|..]; rewrite Hs1;
    rewrite bool_decide_false by (by apply seg_ne); unfold mbind at 1; unfold NM_bind at 1; rewrite E1;
    (destruct (bool_decide (segs = []) && negb t) eqn:Eb;
     [apply andb_true_iff in Eb as [->%bool_decide_eq_true _]; exists s1, o; cbn [walk]; rewrite E2, E3; done|]);
    destruct (IH s1 o segs) as (s2 & d & F1 & F2 & F3 & F4); try done; try lia;
    exists s2, d; (split; [done|]); (split; [|split; [by eapply extends_trans|]]).
  all: try (destruct (proj1 (F3 c) Hc1) as [_ Hsub]; cbn [walk]; rewrite (lookup_weaken _ _ _ _ E2 Hsub); destruct (proj1 (F3 o) E3) as [-> _]; done).
  all: destruct E6' as [->|[E6' E7]]; destruct F4 as [->|[F4 F5]]; try (by left); right; try (split; [|done]); try done.
  all: try (cbn [walk]; by rewrite E2, E3).
  all: split; [done|]; destruct segs as [|m segs]; cbn [walk] in F2; [by injection F2 as <-|by rewrite E7, lookup_empty in F2].
Qed.

(** Binding an object that is no context does not change where paths lead. *)
Lemma walk_update s s' d n (v : option Obj) c segs :
  (forall e, narrow s' e = narrow s e) ->
  (forall e, bindings s' e = if decide (e = d) then partial_alter (fun _ => v) n (bindings s d) else bindings s e) ->
  (forall x, v = Some x -> narrow s x = false) -> (forall x, bindings s d !! n = Some x -> narrow s x = false) ->
  walk s' c segs = walk s c segs.
Proof.
  intros Hn Hb Hv Ho. revert c. induction segs as [|m segs IH]; intros c; [done|]. cbn [walk]. rewrite Hb.
  destruct (decide (c = d)) as [->|]; [|destruct (bindings s c !! m); [by rewrite Hn, IH|done]].
  destruct (decide (m = n)) as [->|]; [|rewrite lookup_partial_alter_ne by done; destruct (bindings s d !! m); [by rewrite Hn, IH|done]].
  rewrite lookup_partial_alter_eq. destruct v as [x|]; destruct (bindings s d !! n) as [y|];
    rewrite ?Hn, ?(Hv x), ?(Ho y) by done; done.
Qed.

(** Paths from the root begin with a slash. *)
Definition rooted (abs : bool) (p : text) : text := if abs then SLASH :: p else p.

Lemma trim_context_abs abs p : plain_path p -> trim_context (rooted abs p) = rooted abs p.
Proof. destruct abs; [apply trim_context_rooted|apply trim_context_plain]. Qed.

Lemma find_context_rooted fuel this c p s : plain_path p -> root = Some c ->
  find_context root (S fuel) this (rooted true p) s = find_context root fuel (Some c) p s.
Proof.
  intros Hp <-. cbn [find_context]. rewrite trim_context_abs by done. unfold rooted. cbn [find_char].
  by rewrite decide_True by done.
Qed.

Lemma bind_context_rooted fuel this c p s : plain_path p -> root = Some c ->
  bind_context root (S fuel) this (rooted true p) s = bind_context root fuel (Some c) p s.
Proof.
  intros Hp <-. cbn [bind_context]. rewrite trim_context_abs by done. unfold rooted. cbn [find_char].
  by rewrite decide_True by done.
Qed.

(** Where the name of a path is taken from. *)
Inductive last_step (abs : bool) (segs : list text) (n : text) : option nat -> Prop :=
| last_here : segs = [] -> abs = false -> last_step abs segs n None
| last_root : segs = [] -> abs = true -> last_step abs segs n (Some O)
| last_in p : segs <> [] -> take (S p) (rooted abs (path (segs ++ [n]) false)) = rooted abs (path segs false) ->
    take (S p + 1) (rooted abs (path (segs ++ [n]) false)) = rooted abs (path segs true) ->
    drop (S p + 1) (rooted abs (path (segs ++ [n]) false)) = n ->
    last_step abs segs n (Some (S p)).

Lemma last_step_of abs segs n : Forall seg segs -> seg n ->
  last_step abs segs n (find_last SLASH (rooted abs (path (segs ++ [n]) false))).
Proof.
  intros Hs Hn. destruct (decide (segs = [])) as [->|Hne].
  { cbn [app path]. rewrite app_nil_r. destruct abs; unfold rooted.
    - assert (find_last SLASH (SLASH :: n) = Some O) as -> by exact (find_last_app [] n (proj2 Hn)). by constructor.
    - rewrite find_last_absent by apply Hn. by constructor. }
  assert (rooted abs (path (segs ++ [n]) false) = rooted abs (path segs false) ++ SLASH :: n) as E.
  { rewrite path_snoc, path_true, <- app_assoc by done. by destruct abs. }
  assert (rooted abs (path segs true) = rooted abs (path segs false) ++ [SLASH]) as E'.
  { rewrite path_true by done. by destruct abs. }
  rewrite E, find_last_app by apply Hn.
  destruct (length (rooted abs (path segs false))) as [|p] eqn:El.
  { exfalso. apply nil_length_inv in El. destruct abs; [done|].
    destruct (path_plain segs false Hs Hne) as [[Ht _] _]. done. }
  apply last_in; rewrite ?E, ?E'; [done|..].
  - by rewrite <- El, take_app_length.
  - change (SLASH :: n) with ([SLASH] ++ n). rewrite app_assoc. apply take_app_length'. rewrite length_app. cbn. lia.
  - change (SLASH :: n) with ([SLASH] ++ n). rewrite app_assoc. apply drop_app_length'. rewrite length_app. cbn. lia.
Qed.

(** Following or making the contexts of a path from where it starts. *)
Lemma find_context_start (abs : bool) fuel this s c segs t : (length (path segs t) + 1 < fuel)%nat ->
  (if abs then root else this) = Some c -> narrow s c = true -> Forall seg segs -> segs <> [] ->
  find_context root fuel this (rooted abs (path segs t)) s
  = Some (s, match walk s c segs with Some d => NOk (Some d) | None => NThrow NotFound end).
Proof.
  intros Hf Hc Hn Hs Hne. destruct abs; [|rewrite Hc; apply find_context_walk; [lia|done..]].
  destruct fuel as [|fuel]; [lia|]. rewrite (find_context_rooted _ _ c) by (done || by apply path_plain).
  apply find_context_walk; [lia|done..].
Qed.

Lemma bind_context_start (abs : bool) fuel this s c segs t : (length (path segs t) + 1 < fuel)%nat ->
  (if abs then root else this) = Some c -> narrow s c = true -> Forall seg segs -> segs <> [] -> walkable s c segs ->
  exists s' d, bind_context root fuel this (rooted abs (path segs t)) s = Some (s', NOk (Some d))
  /\ walk s' c segs = Some d /\ extends s s' /\ (s' = s \/ walk s c segs = None /\ bindings s' d = ∅).
Proof.
  intros Hf Hc Hn Hs Hne Hw. destruct abs; [|rewrite Hc; apply bind_context_walk; [lia|done..]].
  destruct fuel as [|fuel]; [lia|]. rewrite (bind_context_rooted _ _ c) by (done || by apply path_plain).
  apply bind_context_walk; [lia|done..].
Qed.

(** A name without slashes is bound, unbound and resolved in the context itself. *)
Lemma bind_name_here k fuel this n o s : seg n -> narrow s o = false ->
  bind_name root (S k) fuel this n (Some o) s = call this (fun s c => ns_rebind s c n o) s.
Proof.
  intros Hn Ho. cbn [bind_name]. rewrite trim_context_plain by (by apply seg_plain).
  rewrite bool_decide_false by (by apply seg_ne). rewrite find_last_absent by apply Hn.
  unfold mbind, NM_bind, narrow_ref. by rewrite Ho.
Qed.

Lemma unbind_name_here k fuel this n s : seg n ->
  unbind_name root (S k) fuel this n s = call this (fun s c => ns_unbind s c n) s.
Proof.
  intros Hn. cbn [unbind_name]. rewrite trim_context_plain by (by apply seg_plain).
  rewrite bool_decide_false by (by apply seg_ne). by rewrite find_last_absent by apply Hn.
Qed.

Lemma resolve_name_here k fuel this n s : seg n -> resolve_name root (S k) fuel this n s = resolve_in this n s.
Proof.
  intros Hn. cbn [resolve_name]. rewrite trim_context_plain by (by apply seg_plain).
  rewrite bool_decide_false by (by apply seg_ne). by rewrite find_last_absent by apply Hn.
Qed.

(** The names of a full path, as the three operations start on them. *)
Lemma full_path abs segs n : Forall seg segs -> seg n ->
  trim_context (rooted abs (path (segs ++ [n]) false)) = rooted abs (path (segs ++ [n]) false)
  /\ rooted abs (path (segs ++ [n]) false) <> []
  /\ (segs = [] -> path (segs ++ [n]) false = n)
  /\ (length (path segs true) <= length (path (segs ++ [n]) false))%nat
  /\ (length (path segs false) <= length (path (segs ++ [n]) false))%nat.
Proof.
  intros Hs Hn. assert (plain_path (path (segs ++ [n]) false)) as Hp.
  { apply path_plain; [|by destruct segs]. apply Forall_app; split; [done|by constructor]. }
  split; [by apply trim_context_abs|]. split; [by destruct abs; [|apply Hp]|].
  destruct (decide (segs = [])) as [->|Hne].
  - cbn [app path length]. rewrite app_nil_r. split; [done|lia].
  - split; [done|]. rewrite path_snoc by done. rewrite path_true, !length_app by done. lia.
Qed.

(** What [resolve_name] gives for a path. *)
Lemma resolve_name_walk (abs : bool) fuel this s c segs n : (length (path (segs ++ [n]) false) + 1 < fuel)%nat ->
  (if abs then root else this) = Some c -> narrow s c = true -> Forall seg segs -> seg n ->
  resolve_name root 2 fuel this (rooted abs (path (segs ++ [n]) false)) s
  = Some (s, match walk s c segs with
             | Some d => match bindings s d !! n with Some o => NOk o | None => NThrow NotFound end
             | None => NThrow NotFound
             end).
Proof.
  intros Hf Hc Hnc Hs Hn. destruct (full_path abs segs n Hs Hn) as (Et & Hne & Hnil & _ & Hl2). remember 1%nat as k eqn:Ek.
  cbn [resolve_name]. rewrite Et, bool_decide_false by done. destruct (last_step_of abs segs n Hs Hn) as [-> ->| -> ->|p Hns E1 E2 E3].
  - rewrite Hnil by done. unfold rooted, resolve_in. rewrite Hc. cbn [walk]. by rewrite resolve_law.
  - rewrite Hnil by done. unfold rooted. cbn [drop]. subst k. rewrite resolve_name_here by done.
    unfold resolve_in. rewrite Hc. cbn [walk]. by rewrite resolve_law.
  - rewrite E1, E3. unfold mbind, NM_bind. rewrite (find_context_start _ _ _ _ c) by (done || lia).
    destruct (walk s c segs) as [d|] eqn:Ew; [|done]. subst k. rewrite resolve_name_here by done.
    unfold resolve_in. rewrite resolve_law; [done|]. by eapply walk_narrow.
Qed.

(** Nothing but the entry [n] of the context at [segs] is lost. *)
Definition keeps_others s c (segs : list text) (n : text) s' : Prop :=
  forall e m x, narrow s e = true -> bindings s e !! m = Some x -> ~ (walk s c segs = Some e /\ m = n) ->
    bindings s' e !! m = Some x.

Lemma rebind_at s1 c d segs n o : walk s1 c segs = Some d -> narrow s1 d = true -> narrow s1 o = false ->
  (forall x, bindings s1 d !! n = Some x -> narrow s1 x = false) ->
  exists s', ns_rebind s1 d n o = (s', NOk tt) /\ walk s' c segs = Some d /\ bindings s' d !! n = Some o
  /\ (forall e, narrow s' e = narrow s1 e)
  /\ (forall e m x, bindings s1 e !! m = Some x -> ~ (e = d /\ m = n) -> bindings s' e !! m = Some x).
Proof.
  intros Hw Hd Ho Hx. destruct (rebind_law s1 d n o Hd Ho Hx) as (s' & E & En & _ & Eb). exists s'.
  split; [done|]. split_and!.
  - rewrite (walk_update s1 s' d n (Some o)); [done|done|done|by intros ? [= <-]|done].
  - by rewrite Eb, decide_True, lookup_insert_eq.
  - done.
  - intros e m x Hm Hne. rewrite Eb. destruct (decide (e = d)) as [->|]; [|done].
    rewrite lookup_insert_ne; [done|]. intros <-. by apply Hne.
Qed.

Lemma bind_name_walk (abs : bool) fuel this s c segs n o : (length (path (segs ++ [n]) false) + 1 < fuel)%nat ->
  (if abs then root else this) = Some c -> narrow s c = true -> Forall seg segs -> seg n ->
  walkable s c segs -> live s o -> narrow s o = false ->
  (forall d x, walk s c segs = Some d -> bindings s d !! n = Some x -> narrow s x = false) ->
  exists s' d, bind_name root 2 fuel this (rooted abs (path (segs ++ [n]) false)) (Some o) s = Some (s', NOk tt)
  /\ narrow s' c = true /\ narrow s' o = false /\ walk s' c segs = Some d /\ bindings s' d !! n = Some o /\ keeps_others s c segs n s'.
Proof.
  intros Hf Hc Hnc Hs Hn Hw Hl Ho Hx. destruct (full_path abs segs n Hs Hn) as (Et & Hne & Hnil & Hl1 & _). remember 1%nat as k eqn:Ek.
  cbn [bind_name]. rewrite Et, bool_decide_false by done. destruct (last_step_of abs segs n Hs Hn) as [-> ->| -> ->|p Hns E1 E2 E3].
  1,2: destruct (rebind_at s c c [] n o) as (s' & F1 & F2 & F3 & F4 & F5); [done..|intros x; by apply Hx|].
  1,2: exists s', c; rewrite Hnil by done; unfold rooted; cbn [drop]; split; [|split_and!; [by rewrite F4|by rewrite F4|done|done|]].
  - unfold mbind, NM_bind, narrow_ref. rewrite Ho. unfold call. rewrite Hc. exact (f_equal Some F1).
  - intros e m x _ Hm Hno. apply F5; [done|]. intros [-> ->]. by apply Hno.
  - subst k. rewrite bind_name_here by done. unfold call. rewrite Hc. exact (f_equal Some F1).
  - intros e m x _ Hm Hno. apply F5; [done|]. intros [-> ->]. by apply Hno.
  - rewrite E2, E3. destruct (bind_context_start abs fuel this s c segs true) as (s1 & d & G1 & G2 & G3 & G4); [lia|done..|].
    destruct (proj1 (G3 c) Hnc) as [Hc1 _]. destruct (proj2 (G3 o) Hl) as [_ Ho1]. rewrite Ho in Ho1.
    destruct (rebind_at s1 c d segs n o) as (s' & F1 & F2 & F3 & F4 & F5); [done|by eapply walk_narrow|done| |].
    { intros x Hm. destruct G4 as [->|[_ G4]]; [by eapply Hx|by rewrite G4, lookup_empty in Hm]. }
    exists s', d. split; [|split_and!; [by rewrite F4|by rewrite F4|done|done|]].
    + unfold mbind, NM_bind. rewrite G1. subst k. rewrite bind_name_here by done. exact (f_equal Some F1).
    + intros e m x He Hm Hno. apply F5; [eapply lookup_weaken; [done|]; by apply G3|]. intros [-> ->].
      destruct G4 as [->|[_ G4]]; [by apply Hno|].
      destruct (proj1 (G3 d) He) as [_ Hsub]. rewrite G4 in Hsub.
      pose proof (lookup_weaken _ _ _ _ Hm Hsub) as Hz. by rewrite lookup_empty in Hz.
Qed.

Lemma unbind_name_walk (abs : bool) fuel this s c segs n d x : (length (path (segs ++ [n]) false) + 1 < fuel)%nat ->
  (if abs then root else this) = Some c -> narrow s c = true -> Forall seg segs -> seg n ->
  walk s c segs = Some d -> bindings s d !! n = Some x -> narrow s x = false ->
  exists s', unbind_name root 2 fuel this (rooted abs (path (segs ++ [n]) false)) s = Some (s', NOk tt)
  /\ narrow s' c = true /\ walk s' c segs = Some d /\ bindings s' d !! n = None /\ keeps_others s c segs n s'.
Proof.
  intros Hf Hc Hnc Hs Hn Hw Hx Ho. destruct (full_path abs segs n Hs Hn) as (Et & Hne & Hnil & Hl1 & _). remember 1%nat as k eqn:Ek.
  assert (narrow s d = true) as Hd by (by eapply walk_narrow).
  destruct (unbind_law s d n x Hd Hx) as (s' & E & En & _ & Eb).
  exists s'. split; [|split_and!].
  - cbn [unbind_name]. rewrite Et, bool_decide_false by done.
    destruct (last_step_of abs segs n Hs Hn) as [-> ->| -> ->|p Hns E1 E2 E3]; cbn [walk] in Hw.
    + rewrite Hnil by done. unfold rooted, call. rewrite Hc. injection Hw as ->. exact (f_equal Some E).
    + rewrite Hnil by done. unfold rooted. cbn [drop]. subst k. rewrite unbind_name_here by done.
      unfold call. rewrite Hc. injection Hw as ->. exact (f_equal Some E).
    + rewrite E2, E3. unfold mbind, NM_bind. rewrite (find_context_start _ _ _ _ c), Hw by (done || lia).
      subst k. rewrite unbind_name_here by done. exact (f_equal Some E).
  - by rewrite En.
  - rewrite (walk_update s s' d n None); [done|done|done|done|]. intros y Hy. by simplify_eq.
  - by rewrite Eb, decide_True, lookup_delete_eq.
  - intros e m y _ Hm Hno. rewrite Eb. destruct (decide (e = d)) as [->|]; [|done].
    rewrite lookup_delete_ne; [done|]. intros <-. by apply Hno.
Qed.

(** C17 (roundtrip). An object that is no context, bound to a path, is what resolving the path
    then gives, be the path relative or from the root and whichever contexts on the way were
    there; nothing else that was bound is lost, and unbinding the path makes it unresolvable. *)
Theorem bound_name_resolves (abs : bool) fuel this s c segs n o : (length (path (segs ++ [n]) false) + 1 < fuel)%nat ->
  (if abs then root else this) = Some c -> narrow s c = true -> Forall seg segs -> seg n ->
  walkable s c segs -> live s o -> narrow s o = false ->
  (forall d x, walk s c segs = Some d -> bindings s d !! n = Some x -> narrow s x = false) ->
  let p := rooted abs (path (segs ++ [n]) false) in
  exists s1, bind_name root 2 fuel this p (Some o) s = Some (s1, NOk tt)
  /\ resolve_name root 2 fuel this p s1 = Some (s1, NOk o) /\ keeps_others s c segs n s1
  /\ exists s2, unbind_name root 2 fuel this p s1 = Some (s2, NOk tt)
     /\ resolve_name root 2 fuel this p s2 = Some (s2, NThrow NotFound) /\ keeps_others s1 c segs n s2.
Proof.
  intros Hf Hc Hnc Hs Hn Hw Hl Ho Hx p.
  destruct (bind_name_walk abs fuel this s c segs n o) as (s1 & d & E1 & E2 & E2' & E3 & E4 & E5); [done..|].
  exists s1. split; [done|]. split; [|split; [done|]].
  - unfold p. rewrite (resolve_name_walk abs fuel this s1 c), E3, E4 by done. done.
  - destruct (unbind_name_walk abs fuel this s1 c segs n d o) as (s2 & F1 & F2 & F3 & F4 & F5); [done..|].
    exists s2. split; [done|]. split; [|done]. unfold p.
    by rewrite (resolve_name_walk abs fuel this s2 c), F3, F4 by done.
Qed.
End laws.

(** ** Every path is done *)

Lemma trim_string_sub s c : (length (trim_string s c) <= length s)%nat /\ (SLASH ∉ s -> SLASH ∉ trim_string s c).
Proof.
  destruct (trim_string_spec s c) as (pre & mid & post & -> & -> & _). rewrite !length_app, length_fmap. split; [lia|].
  intros Hn [x [E Hx]]%list_elem_of_fmap. apply Hn. apply elem_of_app. right. apply elem_of_app. left.
  unfold uncontrol in E. destruct (iscntrl x); [done|by subst].
Qed.

Lemma trim_context_sub s : (length (trim_context s) <= length s)%nat /\ (SLASH ∉ s -> SLASH ∉ trim_context s).
Proof.
  unfold trim_context. destruct (find_char SLASH s) as [[|p]|] eqn:E; try apply trim_string_sub.
  apply find_char_Some in E as (s1 & s2 & -> & _ & _). pose proof (trim_string_sub (drop 1 (s1 ++ SLASH :: s2)) SLASH) as [Hl _].
  rewrite length_drop in Hl. rewrite length_app in *. simpl in *. split; [lia|].
  intros Hn. destruct Hn. apply elem_of_app. right. by left.
Qed.

Lemma find_last_Some (s : text) p : find_last SLASH s = Some p -> (p < length s)%nat /\ SLASH ∉ drop (p + 1) s.
Proof.
  revert p. induction s as [|x s IH]; [done|]. intros p. cbn [find_last]. destruct (find_last SLASH s) as [i|] eqn:Ei.
  - intros [= <-]. destruct (IH i eq_refl). cbn. split; [lia|done].
  - case_decide; [|done]. intros [= <-]. cbn. split; [lia|]. clear -Ei. induction s as [|y s IH]; [by apply not_elem_of_nil|].
    cbn [find_last] in Ei. destruct (find_last SLASH s); [done|]. case_decide; [done|]. apply not_elem_of_cons. split; [congruence|].
    rewrite drop_0 in IH. by apply IH.
Qed.

Lemma find_char_pos s p : find_char SLASH s = Some p -> (0 < length s)%nat.
Proof. by destruct s; [|simpl; lia]. Qed.

Lemma split_first_rest pos s n r : split_first pos s = (n, Some r) -> (0 < length s)%nat -> (length r < length s)%nat.
Proof. destruct pos as [p|]; [|done]. cbn. intros [= _ <-]. rewrite length_drop. lia. Qed.

Section returns.
Context {NS Obj : Type} `{CosNaming NS Obj} (root : option Obj).

Lemma nm_bind_done {A B} (m : NM NS A) (k : A -> NM NS B) s :
  m s <> None -> (forall a s', k a s' <> None) -> (m ≫= k) s <> None.
Proof. unfold mbind, NM_bind. destruct (m s) as [[s' [a|e|]]|]; auto. Qed.

Lemma on_not_found_done {A} (m k : NM NS A) s : m s <> None -> (forall s', k s' <> None) -> on_not_found m k s <> None.
Proof. unfold on_not_found. destruct (m s) as [[s' [a|[]|]]|]; auto. Qed.

Lemma resolve_in_done this n s : resolve_in this n s <> None.
Proof. by destruct this. Qed.

Lemma call_done {A} this (f : NS -> Obj -> NS * nres A) s : call this f s <> None.
Proof. by destruct this. Qed.

Hint Resolve nm_bind_done on_not_found_done resolve_in_done call_done : core.

Lemma find_context_done fuel this p s : (length p < fuel)%nat -> find_context root fuel this p s <> None.
Proof.
  revert this p s. induction fuel as [|fuel IH]; intros this p s Hf; [lia|]. cbn [find_context].
  pose proof (proj1 (trim_context_sub p)) as Hl.
  destruct (find_char SLASH (trim_context p)) as [[|i]|] eqn:E.
  { apply find_char_pos in E. apply IH. rewrite length_drop. lia. }
  all: destruct (split_first _ (trim_context p)) as [n rest] eqn:Es; case_bool_decide; [done|].
  all: apply nm_bind_done; [done|]; intros o s1; apply nm_bind_done; [done|]; intros [x|] s2; [|done].
  all: destruct rest as [r|]; [|done]; apply find_char_pos in E || done; apply IH;
    pose proof (split_first_rest _ _ _ _ Es E); lia.
Qed.

Lemma bind_context_done fuel this p s : (length p < fuel)%nat -> bind_context root fuel this p s <> None.
Proof.
  revert this p s. induction fuel as [|fuel IH]; intros this p s Hf; [lia|]. cbn [bind_context].
  pose proof (proj1 (trim_context_sub p)) as Hl.
  destruct (find_char SLASH (trim_context p)) as [[|i]|] eqn:E.
  { apply find_char_pos in E. apply IH. rewrite length_drop. lia. }
  all: destruct (split_first _ (trim_context p)) as [n rest] eqn:Es; case_bool_decide; [done|].
  all: apply nm_bind_done; [apply on_not_found_done; [by apply nm_bind_done|intros; by apply nm_bind_done]|]; intros o s1.
  all: destruct rest as [r|]; [|done]; apply find_char_pos in E || done; apply IH;
    pose proof (split_first_rest _ _ _ _ Es E); lia.
Qed.

(** Without a slash an operation on a name does not call itself. *)
Lemma no_slash p : SLASH ∉ p -> find_last SLASH (trim_context p) = None.
Proof. intros Hn. apply find_last_absent. by apply trim_context_sub. Qed.

Lemma bind_name_flat k fuel this p obj s : SLASH ∉ p -> bind_name root (S k) fuel this p obj s <> None.
Proof.
  intros Hn. cbn [bind_name]. rewrite no_slash by done. case_bool_decide; [done|]. destruct obj as [o|]; [|done].
  apply nm_bind_done; [done|]. intros [x|] s'; apply call_done.
Qed.

Lemma unbind_name_flat k fuel this p s : SLASH ∉ p -> unbind_name root (S k) fuel this p s <> None.
Proof. intros Hn. cbn [unbind_name]. rewrite no_slash by done. case_bool_decide; [done|]. apply call_done. Qed.

Lemma resolve_name_flat k fuel this p s : SLASH ∉ p -> resolve_name root (S k) fuel this p s <> None.
Proof. intros Hn. cbn [resolve_name]. rewrite no_slash by done. case_bool_decide; [done|]. apply resolve_in_done. Qed.

(** Whatever the naming service answers and whatever text the path is, every
    operation comes to an end, with a result or an exception: the contexts of a path are
    followed in at most as many calls as it has characters and one, and an operation on a name
    calls itself at most once. *)
Theorem naming_returns fuel this p obj s : (length p < fuel)%nat ->
  find_context root fuel this p s <> None /\ bind_context root fuel this p s <> None
  /\ bind_name root 2 fuel this p obj s <> None /\ unbind_name root 2 fuel this p s <> None
  /\ resolve_name root 2 fuel this p s <> None.
Proof.
  intros Hf. pose proof (proj1 (trim_context_sub p)) as Hl.
  split; [by apply find_context_done|]. split; [by apply bind_context_done|].
  remember 1%nat as k eqn:Ek. cbn [bind_name unbind_name resolve_name].
  destruct (find_last SLASH (trim_context p)) as [q|] eqn:Eq.
  2: { subst k. split_and!; case_bool_decide; try done; try apply call_done; try apply resolve_in_done.
       destruct obj as [o|]; [|done]. apply nm_bind_done; [done|]. intros [x|] s'; apply call_done. }
  apply find_last_Some in Eq as [Hq Hn]. rewrite Nat.add_1_r in Hn.
  split_and!; case_bool_decide; try done; destruct q as [|q];
    rewrite ?Nat.add_1_r; subst k;
    try (by apply bind_name_flat || by apply unbind_name_flat || by apply resolve_name_flat);
    (apply nm_bind_done; [apply bind_context_done || apply find_context_done; rewrite length_take; lia|]);
    intros c s'; by apply bind_name_flat || by apply unbind_name_flat || by apply resolve_name_flat.
Qed.
End returns.

(** ** A context that is not one *)

Section blocked.
Context {NS Obj : Type} `{CosNaming NS Obj, EqDecision Obj} (bindings : NS -> Obj -> gmap text Obj) (live : NS -> Obj -> Prop)
  `{!CosNamingLaws NS Obj bindings live}.

(** Where a name on the way is an object that is no context, [find_context] throws NotFound;
    [bind_context] goes on with the nil reference that _narrow gave, and calls through it. *)
Lemma bind_context_through_object root fuel s c n m o : (1 < fuel)%nat -> narrow s c = true -> seg n -> seg m ->
  bindings s c !! n = Some o -> narrow s o = false ->
  find_context root fuel (Some c) (path [n; m] false) s = Some (s, NThrow NotFound)
  /\ bind_context root fuel (Some c) (path [n; m] false) s = Some (s, NNil).
Proof.
  intros Hf Hc Hn Hm Ho Hno. destruct fuel as [|[|fuel]]; try lia. cbn [find_context bind_context].
  rewrite trim_context_plain by (apply path_plain; [by rewrite ?Forall_cons|done]).
  destruct (path_split n [m] false Hn) as [Hs0 Hs1]; [by apply Forall_singleton|].
  rewrite bool_decide_false in Hs1 by done. cbn [andb] in Hs1.
  assert (split_first (find_char SLASH (path [m] false)) (path [m] false) = (m, None)) as Hs2.
  { rewrite (proj2 (path_split m [] false Hm (List.Forall_nil seg))). done. }
  assert (find_char SLASH (path [m] false) <> Some O) as Hs3 by apply (path_split m [] false Hm (List.Forall_nil seg)).
  split; (destruct (find_char SLASH (path [n; m] false)) as [[|p]|]; [done|..]); rewrite Hs1;
    rewrite bool_decide_false by (by apply seg_ne); unfold mbind, NM_bind, resolve_in, narrow_ref, on_not_found;
    rewrite resolve_law, Ho, Hno by done; try done; cbv iota beta;
    (rewrite trim_context_plain by (apply path_plain; [by rewrite ?Forall_cons|done]));
    (destruct (find_char SLASH (path [m] false)) as [[|q]|]; [done|..]); rewrite Hs2;
    rewrite bool_decide_false by (by apply seg_ne); done.
Qed.
End blocked.

(** ** A naming service *)

Module NameTree.
(** Contexts by number, the numbers given out so far, and the entries of each context. *)
Record tree := Tree { next : nat; contexts : gmap nat (gmap text nat) }.

Definition tree_bindings (s : tree) (c : nat) : gmap text nat := default ∅ (contexts s !! c).
Definition tree_live (s : tree) (o : nat) : Prop := (o < next s)%nat.
Definition is_context (s : tree) (o : nat) : bool := bool_decide (is_Some (contexts s !! o)).
Definition tree_set (s : tree) (c : nat) (b : gmap text nat) : tree := Tree (next s) (<[c := b]> (contexts s)).
Definition unused (s : tree) : nat := Nat.max (next s) (S (foldr Nat.max 0%nat (map_to_list (contexts s)).*1)).

#[export] Instance tree_naming : CosNaming tree nat := {|
  narrow := is_context;
  ns_resolve s c n := if is_context s c then
      match tree_bindings s c !! n with Some o => NOk o | None => NThrow NotFound end else NThrow OtherException;
  ns_bind_new_context s c n :=
    if is_context s c then
      match tree_bindings s c !! n with
      | Some _ => (s, NThrow AlreadyBound)
      | None => let c' := unused s in
                (Tree (S c') (<[c' := ∅]> (<[c := <[n := c']> (tree_bindings s c)]> (contexts s))), NOk c')
      end
    else (s, NThrow OtherException);
  ns_rebind s c n o :=
    if is_context s c then (tree_set s c (<[n := o]> (tree_bindings s c)), NOk tt) else (s, NThrow OtherException);
  ns_rebind_context s c n o :=
    if is_context s c then (tree_set s c (<[n := o]> (tree_bindings s c)), NOk tt) else (s, NThrow OtherException);
  ns_unbind s c n :=
    if is_context s c then
      match tree_bindings s c !! n with
      | Some _ => (tree_set s c (base.delete n (tree_bindings s c)), NOk tt)
      | None => (s, NThrow NotFound)
      end
    else (s, NThrow OtherException);
|}.

Lemma is_context_set s c b d : is_context s c = true -> is_context (tree_set s c b) d = is_context s d.
Proof.
  unfold is_context, tree_set. cbn. intros Hc%bool_decide_eq_true. apply bool_decide_ext.
  destruct (decide (d = c)) as [->|]; [by rewrite lookup_insert_eq|by rewrite lookup_insert_ne].
Qed.

Lemma tree_bindings_set s c b d : tree_bindings (tree_set s c b) d = if decide (d = c) then b else tree_bindings s d.
Proof.
  unfold tree_bindings, tree_set. cbn. destruct (decide (d = c)) as [->|]; [by rewrite lookup_insert_eq|by rewrite lookup_insert_ne].
Qed.

Lemma max_in (l : list nat) x : x ∈ l -> (x <= foldr Nat.max 0%nat l)%nat.
Proof. induction l as [|y l IH]; [by intros ?%elem_of_nil|]. cbn. intros [->|H%IH]%elem_of_cons; lia. Qed.

Lemma unused_fresh s : contexts s !! unused s = None.
Proof.
  destruct (contexts s !! unused s) as [b|] eqn:E; [|done]. exfalso.
  apply elem_of_map_to_list in E. assert (unused s ∈ (map_to_list (contexts s)).*1) as Hin%max_in.
  { apply list_elem_of_fmap. by exists (unused s, b). }
  unfold unused in Hin at 1. lia.
Qed.

#[export] Instance tree_naming_laws : CosNamingLaws tree nat tree_bindings tree_live.
Proof.
  split.
  - intros s c n Hc. cbn in *. by rewrite Hc.
  - intros s c n Hc Hn. cbn in *. rewrite Hc, Hn. pose proof (unused_fresh s) as Hu. set (c' := unused s) in *.
    assert (c <> c') as Hne by (intros ->; unfold is_context in Hc; rewrite Hu in Hc; by apply bool_decide_eq_true in Hc as []).
    eexists _, c'. split; [done|]. split; [unfold is_context; by rewrite Hu|].
    assert (next s <= c')%nat by (unfold c', unused; lia).
    split; [unfold tree_live; lia|]. split; [intros d; unfold tree_live; cbn; lia|].
    split; [unfold tree_bindings; cbn; by rewrite lookup_insert_eq|]. split.
    + intros d. unfold is_context. cbn. destruct (decide (d = c')) as [->|]; [by rewrite lookup_insert_eq|].
      rewrite lookup_insert_ne by done. apply bool_decide_ext.
      destruct (decide (d = c)) as [->|]; [rewrite lookup_insert_eq|by rewrite lookup_insert_ne].
      split; [intros _; by apply bool_decide_eq_true in Hc|done].
    + intros d Hd. unfold tree_bindings. cbn. rewrite lookup_insert_ne by done.
      destruct (decide (d = c)) as [->|]; [by rewrite lookup_insert_eq|by rewrite lookup_insert_ne].
  - intros s c n o Hc Ho _. cbn in *. rewrite Hc. eexists. split; [done|].
    split; [intros d; by apply is_context_set|]. split; [done|]. intros d. apply tree_bindings_set.
  - intros s c n x Hc Hn. cbn in *. rewrite Hc, Hn. eexists. split; [done|].
    split; [intros d; by apply is_context_set|]. split; [done|]. intros d. apply tree_bindings_set.
Qed.
End NameTree.

(** ** Witnesses *)

Module NamingExamples.
Import NameTree.
(** The root with one context "a", and an object 2. *)
Definition start : tree := Tree 3 {[ 0%nat := {[ str "a" := 1%nat ]}; 1%nat := ∅ ]}.

Definition is_seg (n : text) : bool :=
  bool_decide (n <> []) && negb (blank (char_at n 0)) && negb (blank (char_at n (length n - 1)))
  && forallb (fun c => negb (iscntrl c) && bool_decide (c <> SLASH)) n.

Lemma is_seg_ok n : is_seg n = true -> seg n.
Proof.
  unfold is_seg. rewrite !andb_true_iff, !negb_true_iff, bool_decide_eq_true, forallb_forall.
  intros [[[H1 H2] H3] H4].
  assert (forall c, c ∈ n -> iscntrl c = false /\ c <> SLASH) as Hc.
  { intros c Hin%list_elem_of_In. apply H4 in Hin as [E1%negb_true_iff E2%bool_decide_eq_true]%andb_true_iff. done. }
  split; [split_and!; [done..|]; intros c Hin; by apply Hc|]. intros Hin. by apply (Hc SLASH).
Qed.

Lemma bound_name_resolves_witness :
  exists s1, bind_name (Some 0%nat) 2 20 (Some 1%nat) (str "/a/b/c") (Some 2%nat) start = Some (s1, NOk tt)
  /\ resolve_name (Some 0%nat) 2 20 (Some 1%nat) (str "/a/b/c") s1 = Some (s1, NOk 2%nat).
Proof.
  destruct (bound_name_resolves tree_bindings tree_live (Some 0%nat) true 20 (Some 1%nat) start 0%nat [str "a"; str "b"] (str "c") 2%nat)
    as (s1 & E1 & E2 & _); [vm_compute; lia|reflexivity|reflexivity| | | | | | |].
  - rewrite !Forall_cons. split_and!; [by apply is_seg_ok..|constructor].
  - apply is_seg_ok; reflexivity.
  - cbn. by vm_compute.
  - vm_compute; lia.
  - reflexivity.
  - intros d x Hw. by vm_compute in Hw.
  - exists s1. split; [exact E1|exact E2].
Defined.

Lemma naming_returns_witness : resolve_name (Some 0%nat) 2 30 (Some 1%nat) (str "a//b/ /") start <> None.
Proof. refine (proj2 (proj2 (proj2 (proj2 (naming_returns (Some 0%nat) 30 (Some 1%nat) (str "a//b/ /") None start _))))). vm_compute. lia. Defined.

(** A double slash starts again at the root, wherever it is in the path. *)
Example double_slash_restarts :
  find_context (Some 0%nat) 20 (Some 1%nat) (str "//a") start = Some (start, NOk (Some 1%nat))
  /\ find_context (Some 0%nat) 20 (Some 0%nat) (str "a//a") start = Some (start, NOk (Some 1%nat))
  /\ find_context (Some 0%nat) 20 (Some 0%nat) (str "a/a") start = Some (start, NThrow NotFound).
Proof. by vm_compute. Qed.

(** With a slash at the end the contexts are made and then the empty name is refused. *)
Example trailing_slash_binds_contexts : exists s1,
  bind_name (Some 0%nat) 2 20 (Some 0%nat) (str "x/y/") (Some 2%nat) start = Some (s1, NThrow BadParam)
  /\ exists c, find_context (Some 0%nat) 20 (Some 0%nat) (str "x/y") s1 = Some (s1, NOk (Some c)).
Proof. eexists. split; [by vm_compute|]. eexists. by vm_compute. Qed.

(** A name on the way taken by the object 2. *)
Definition taken : tree := Tree 3 {[ 0%nat := {[ str "o" := 2%nat ]} ]}.

Lemma bind_context_through_object_witness :
  bind_context (Some 0%nat) 5 (Some 0%nat) (path [str "o"; str "c"] false) taken = Some (taken, NNil).
Proof.
  apply (bind_context_through_object tree_bindings tree_live (Some 0%nat) 5 taken 0%nat (str "o") (str "c") 2%nat);
    [lia|reflexivity|by apply is_seg_ok|by apply is_seg_ok|reflexivity|reflexivity].
Defined.
End NamingExamples.
