(* ===== verification/NamingList.v ===== *)
(** * Listing a naming context: TAF/taf/NamingContext, the graph that is printed

    A context is listed in chunks: the first comes from the call that lists it, the others from an iterator, which is destroyed when its
    reference goes out of scope.  The graph of a context is printed line by line, a context that is bound in it below its line, down
    to a depth of ten.  The specification is the text that the bindings of the contexts give; the recursion is on the depth that is left,
    the loop over the chunks has a fuel, for which the number of bindings is enough. *)

From S2P Require Import Prelude CString Text Naming.
From Stdlib Require Import Ascii.

(** ** What is listed *)

Inductive binding_type := nobject | ncontext | unknown_type.

Abbreviation binding := (text * binding_type)%type.

(** The service's calls: a list of at most so many bindings, with an iterator if there are more. *)
Class CosListing (NS Obj It : Type) := {
  ns_list : NS -> Obj -> Z -> NS * nres (list binding * option It);
  next_n : NS -> It -> Z -> NS * nres (bool * list binding);
  destroy : NS -> It -> NS * nres unit;
}.

(** TAF/taf/NamingContext.cpp:31-31 [MAX_GRAPH_DEPTH]. *)
Definition MAX_GRAPH_DEPTH : nat := 10.
(** TAF/taf/NamingContext.cpp:32-32 [MAX_CHUNK]. *)
Definition MAX_CHUNK : Z := 32.

Definition NEWLINE : ascii := ascii_of_nat 10.

(** What the code catches: an exception of the service, or the one it throws itself. *)
Inductive caught := Service (e : naming_exn) | BAD_CONTEXT.

(** How a loop ends early: by an exception that is caught, or with the process, when a destructor throws. *)
Inductive stop := Caught (e : caught) | Terminated.

(** TAF/taf/NamingContext.cpp:53-54 [make_naming_graph]. Also line 78. *)
Definition pads (depth : nat) : text := concat (replicate depth (str "| ")).

(** TAF/taf/NamingContext.cpp:53-69 [make_naming_graph]. A line. *)
Definition line (depth : nat) (b : binding) : text :=
  pads depth ++ str "+ " ++ fst b ++ str " " ++
  match snd b with nobject => str "[ref]" | ncontext => str "[cxt]" | unknown_type => str "[-?-]" end ++ [NEWLINE].

Section listing.
Context {NS Obj It : Type} `{CosNaming NS Obj, CosListing NS Obj It, AceMinMax}.
(** _rep_id() of an exception. *)
Context (rep_id : caught -> text).

(** TAF/taf/NamingContext.cpp:77-81 [make_naming_graph]. *)
Definition complaint (depth : nat) (e : caught) : text := pads depth ++ str "|->" ++ [DQUOTE] ++ rep_id e ++ [DQUOTE; NEWLINE].

(** TAF/taf/NamingContext.cpp:293-299 [NamingContext::list_context]. *)
Definition list_context (w : NS) (this : Obj) (max : Z) : NS * nres (list binding * option It) := ns_list w this (ace_range 1 100 (to_int max)).

(** TAF/taf/NamingContext.cpp:49-71 [make_naming_graph]. The lines of one chunk; [sub] prints a context. *)
Fixpoint rows (sub : option Obj -> NS -> option (NS * option text)) (depth : nat) (cxt : Obj) (bl : list binding) (w : NS) (ss : text)
  : option (NS * text * option stop) :=
  match bl with
  | [] => Some (w, ss, None)
  | b :: bl =>
      let ss := ss ++ line depth b in
      match snd b with
      | ncontext =>
          match ns_resolve w cxt (fst b) with
          | NOk o =>
              if narrow w o then
                r ← sub (Some o) w;
                match r with (w, Some t) => rows sub depth cxt bl w (ss ++ t) | (w, None) => Some (w, ss, Some Terminated) end
              else Some (w, ss, Some (Caught BAD_CONTEXT))
          | NThrow e => Some (w, ss, Some (Caught (Service e)))
          | NNil => None
          end
      | _ => rows sub depth cxt bl w ss
      end
  end.

(** TAF/taf/NamingContext.cpp:43-75 [make_naming_graph]. *)
Fixpoint chunks (fuel : nat) (sub : option Obj -> NS -> option (NS * option text)) (depth : nat) (cxt : Obj) (bl : list binding) (it : option It) (w : NS) (ss : text)
  : option (NS * text * option stop) :=
  match fuel with
  | O => None
  | S fuel =>
      if (length bl =? 0)%nat then Some (w, ss, None)
      else
        r ← rows sub depth cxt bl w ss;
        match r with
        | (w, ss, Some e) => Some (w, ss, Some e)
        | (w, ss, None) =>
            match it with
            | None => Some (w, ss, None)
            | Some i => match next_n w i MAX_CHUNK with
                        | (w, NOk (true, bl)) => chunks fuel sub depth cxt bl it w ss
                        | (w, NOk (false, _)) => Some (w, ss, None)
                        | (w, NThrow e) => Some (w, ss, Some (Caught (Service e)))
                        | (_, NNil) => None
                        end
            end
        end
  end.

(** TAF/taf/NamingContext.cpp:317-322 [BindingIterator::destructor]. An exception does not leave a destructor: false. *)
Definition drop_iterator (it : option It) (w : NS) : NS * bool :=
  match it with
  | Some i => match destroy w i with (w, NOk _) => (w, true) | (w, _) => (w, false) end
  | None => (w, true)
  end.

(** TAF/taf/NamingContext.cpp:34-86 [make_naming_graph]. [n]: the depth that is left, MAX_GRAPH_DEPTH - depth.  No text: the process is terminated. *)
Fixpoint make_naming_graph (n fuel depth : nat) (cxt : option Obj) (w : NS) : option (NS * option text) :=
  match n, cxt with
  | S n, Some c =>
      match list_context w c MAX_CHUNK with
      | (w, NOk (bl, it)) =>
          r ← chunks fuel (make_naming_graph n fuel (S depth)) depth c bl it w [];
          match r with
          | (w, ss, Some Terminated) => Some (w, None)
          | (w, ss, ex) =>
              match drop_iterator it w with
              | (w, true) => Some (w, Some (ss ++ match ex with Some (Caught e) => complaint depth e | _ => [] end))
              | (w, false) => Some (w, None)
              end
          end
      | (w, NThrow e) => Some (w, Some (complaint depth (Service e)))
      | (_, NNil) => None
      end
  | _, _ => Some (w, Some [])
  end.

(** TAF/taf/NamingContext.cpp:88-91 [operator_shl]. With the NUL at the end. *)
Definition print_context (fuel : nat) (cxt : option Obj) (w : NS) : option (NS * option text) :=
  match make_naming_graph MAX_GRAPH_DEPTH fuel 0 cxt w with
  | Some (w, Some t) => Some (w, Some (t ++ [NUL]))
  | r => r
  end.

(** ** What the service promises *)

Context (bindings : NS -> Obj -> list binding) (live : NS -> It -> Prop) (rest : NS -> It -> list binding).

(** A call that changes no binding. *)
Record keeps (w w' : NS) : Prop := {
  kept_bindings : forall o, bindings w' o = bindings w o;
  kept_resolve : forall c n, ns_resolve w' c n = ns_resolve w c n;
  kept_narrow : forall o, narrow w' o = narrow w o;
}.

(** And no iterator that was there before. *)
Definition same_iterators (w w' : NS) : Prop := forall j, live w j -> live w' j /\ rest w' j = rest w j.

Class ListingLaws : Prop := {
  list_law w c max : narrow w c = true -> 0 < max -> exists w' it, ns_list w c max = (w', NOk (take (Z.to_nat max) (bindings w c), it)) /\ keeps w w' /\ same_iterators w w' /\
    match it with
    | Some i => ~ live w i /\ live w' i /\ rest w' i = drop (Z.to_nat max) (bindings w c) /\ forall j, live w' j -> live w j \/ j = i
    | None => Z.of_nat (length (bindings w c)) <= max /\ forall j, live w' j -> live w j
    end;
  next_law w i max : live w i -> 0 < max -> exists w', next_n w i max = (w', NOk (negb (bool_decide (rest w i = [])), take (Z.to_nat max) (rest w i))) /\ keeps w w' /\
    rest w' i = drop (Z.to_nat max) (rest w i) /\ (forall j, live w' j <-> live w j) /\ forall j, j <> i -> live w j -> rest w' j = rest w j;
  destroy_law w i : live w i -> exists w', destroy w i = (w', NOk tt) /\ keeps w w' /\ forall j, (live w' j <-> live w j /\ j <> i) /\ (live w' j -> rest w' j = rest w j);
  resolve_law w c n : narrow w c = true -> ns_resolve w c n <> NNil;
}.

(** ** The text of a graph *)

(** The lines of some bindings and why they end early. *)
Fixpoint body (sub : Obj -> text) (depth : nat) (w : NS) (c : Obj) (bl : list binding) : text * option caught :=
  match bl with
  | [] => ([], None)
  | b :: bl =>
      let more t := let '(t', e) := body sub depth w c bl in (line depth b ++ t ++ t', e) in
      match snd b with
      | ncontext => match ns_resolve w c (fst b) with
                    | NOk o => if narrow w o then more (sub o) else (line depth b, Some BAD_CONTEXT)
                    | NThrow e => (line depth b, Some (Service e))
                    | NNil => (line depth b, Some BAD_CONTEXT)
                    end
      | _ => more []
      end
  end.

Definition ending (depth : nat) (r : text * option caught) : text := fst r ++ match snd r with Some e => complaint depth e | None => [] end.

Fixpoint graph_text (n depth : nat) (w : NS) (c : Obj) : text :=
  match n with
  | O => []
  | S n => ending depth (body (graph_text n (S depth) w) depth w c (bindings w c))
  end.

Lemma keeps_refl w : keeps w w.
Proof. by split. Qed.
Lemma keeps_trans w1 w2 w3 : keeps w1 w2 -> keeps w2 w3 -> keeps w1 w3.
Proof. intros [A1 B1 C1] [A2 B2 C2]. split; intros; congruence. Qed.

Lemma body_ext sub sub' depth w w' c bl : keeps w w' -> (forall o, sub o = sub' o) -> body sub depth w c bl = body sub' depth w' c bl.
Proof.
  intros Hk Hs. induction bl as [|b bl IH]; [done|]. cbn [body]. rewrite IH, (kept_resolve _ _ Hk). repeat case_match; try done.
  all: try (rewrite (kept_narrow _ _ Hk) in *; congruence). all: by rewrite ?Hs in *; simplify_eq.
Qed.

Lemma graph_text_keeps n : forall depth w w' c, keeps w w' -> graph_text n depth w' c = graph_text n depth w c.
Proof.
  induction n as [|n IH]; intros depth w w' c Hk; [done|]. cbn [graph_text]. rewrite (kept_bindings _ _ Hk). f_equal. symmetry.
  apply body_ext; [done|]. intros o. symmetry. by apply IH.
Qed.

Lemma body_app sub depth w c bl bl' : body sub depth w c (bl ++ bl') =
  match body sub depth w c bl with
  | (t, None) => let '(t', e) := body sub depth w c bl' in (t ++ t', e)
  | r => r
  end.
Proof.
  induction bl as [|b bl IH]; [cbn; by destruct (body sub depth w c bl')|]. cbn [app body]. rewrite IH.
  destruct (snd b); try destruct (ns_resolve w c (fst b)) as [o| |]; try destruct (narrow w o); try done.
  all: destruct (body sub depth w c bl) as [t [?|]]; try done; destruct (body sub depth w c bl') as [t' ?]; by rewrite <- !app_assoc.
Qed.

(** A context that is printed leaves the service as it was, all iterators it made destroyed. *)
Record restores (w w' : NS) : Prop := {
  restored_bindings : keeps w w';
  restored_live : forall j, live w' j <-> live w j;
  restored_rest : forall j, live w j -> rest w' j = rest w j;
}.

Lemma restores_refl w : restores w w.
Proof. by split; [apply keeps_refl| |]. Qed.
Lemma restores_trans w1 w2 w3 : restores w1 w2 -> restores w2 w3 -> restores w1 w3.
Proof.
  intros [A1 B1 C1] [A2 B2 C2]. split; [by eapply keeps_trans|intros j; by rewrite B2|].
  intros j Hj. rewrite C2 by (by apply B1). by apply C1.
Qed.

Context `{!AceMinMaxLaws, !ListingLaws}.

Section level.
Context (fuel depth : nat) (sub : option Obj -> NS -> option (NS * option text)) (txt : NS -> Obj -> text).
Context (txt_keeps : forall w w' o, keeps w w' -> txt w' o = txt w o).

Definition room (w : NS) : Prop := forall o, (length (bindings w o) < fuel)%nat.
Context (sub_ok : forall w o, narrow w o = true -> room w -> exists w', sub (Some o) w = Some (w', Some (txt w o)) /\ restores w w').

Lemma room_keeps w w' : keeps w w' -> room w -> room w'.
Proof. intros Hk Hr o. rewrite (kept_bindings _ _ Hk). apply Hr. Qed.

Lemma body_keeps w w' c bl : keeps w w' -> body (txt w') depth w' c bl = body (txt w) depth w c bl.
Proof. intros Hk. symmetry. apply body_ext; [done|]. intros o. symmetry. by apply txt_keeps. Qed.

Lemma rows_spec c bl : forall w ss, narrow w c = true -> room w ->
  exists w', rows sub depth c bl w ss = Some (w', ss ++ fst (body (txt w) depth w c bl), Caught <$> snd (body (txt w) depth w c bl)) /\ restores w w'.
Proof.
  induction bl as [|b bl IH]; intros w ss Hc Hr; [exists w; cbn; rewrite app_nil_r; by split; [|apply restores_refl]|].
  assert (exists w', rows sub depth c bl w (ss ++ line depth b) = Some (w', ss ++ line depth b ++ fst (body (txt w) depth w c bl), Caught <$> snd (body (txt w) depth w c bl)) /\ restores w w') as Hplain.
  { destruct (IH w (ss ++ line depth b) Hc Hr) as (w' & E & Hw). exists w'. by rewrite E, <- app_assoc. }
  cbn [rows body]. destruct (snd b).
  1, 3: destruct (body (txt w) depth w c bl) as [t e]; exact Hplain.
  clear Hplain. destruct (ns_resolve w c (fst b)) as [o|e|] eqn:Eo; [|by exists w; split; [|apply restores_refl]|by apply resolve_law in Eo].
  destruct (narrow w o) eqn:En; [|by exists w; split; [|apply restores_refl]].
  destruct (sub_ok w o En Hr) as (w1 & E1 & Hw1). cbn. rewrite E1. cbn.
  pose proof (restored_bindings _ _ Hw1) as Hk. destruct (IH w1 ((ss ++ line depth b) ++ txt w o)) as (w2 & E2 & Hw2); [by rewrite (kept_narrow _ _ Hk)|by eapply room_keeps|].
  rewrite (body_keeps w w1) in E2 by done. exists w2. rewrite E2. destruct (body (txt w) depth w c bl) as [t e]. cbn [fst snd]. rewrite <- !app_assoc.
  split; [done|]. by eapply restores_trans.
Qed.

(** What a loop over chunks may change: the iterator it reads. *)
Record reads (i : option It) (w w' : NS) : Prop := {
  read_bindings : keeps w w';
  read_live : forall j, live w' j <-> live w j;
  read_rest : forall j, Some j <> i -> live w j -> rest w' j = rest w j;
}.

Lemma reads_trans i w1 w2 w3 : reads i w1 w2 -> reads i w2 w3 -> reads i w1 w3.
Proof.
  intros [A1 B1 C1] [A2 B2 C2]. split; [by eapply keeps_trans|intros j; by rewrite B2|].
  intros j Hj Hl. rewrite C2 by (done || by apply B1). by apply C1.
Qed.
Lemma restores_reads i w w' : restores w w' -> reads i w w'.
Proof. intros [A B C]. split; auto. Qed.

Definition rest_of (w : NS) (it : option It) : list binding := match it with Some i => rest w i | None => [] end.

Lemma chunks_spec c it n : forall bl w ss, narrow w c = true -> room w -> (forall i, it = Some i -> live w i) -> (bl = [] -> rest_of w it = []) ->
  (length (bl ++ rest_of w it) < n)%nat ->
  exists w', chunks n sub depth c bl it w ss =
    Some (w', ss ++ fst (body (txt w) depth w c (bl ++ rest_of w it)), Caught <$> snd (body (txt w) depth w c (bl ++ rest_of w it))) /\ reads it w w'.
Proof.
  induction n as [|n IH]; intros bl w ss Hc Hr Hl He Hn; [lia|]. cbn [chunks]. destruct (Nat.eqb_spec (length bl) 0) as [E0|E0].
  { destruct bl; [|done]. rewrite He by done. exists w. cbn. rewrite app_nil_r. split; [done|]. apply restores_reads, restores_refl. }
  destruct (rows_spec c bl w ss Hc Hr) as (w1 & E1 & Hw1). rewrite E1. cbn [mbind option_bind]. rewrite body_app.
  destruct (body (txt w) depth w c bl) as [t [e|]] eqn:Eb; cbn [fst snd fmap option_fmap option_map].
  { exists w1. split; [done|]. by apply restores_reads. }
  destruct it as [i|]; [|exists w1; cbn; rewrite app_nil_r; by split; [|apply restores_reads]].
  cbn [rest_of] in *. specialize (Hl i eq_refl). pose proof (restored_bindings _ _ Hw1) as Hk1. pose proof (restored_rest _ _ Hw1 i Hl) as Er.
  destruct (next_law w1 i MAX_CHUNK) as (w2 & E2 & Hk2 & Hr2 & Hl2 & Ho2); [by apply (restored_live _ _ Hw1)|done|].
  rewrite E2, Er. clear E2. rewrite Er in Hr2.
  assert (reads (Some i) w w2) as Hw2.
  { eapply reads_trans; [by apply restores_reads|]. split; [done|done|]. intros j Hj Hlj. apply Ho2; congruence. }
  case_bool_decide as Ei; cbn [negb].
  { exists w2. rewrite Ei. cbn. rewrite app_nil_r. by split. }
  destruct (IH (take (Z.to_nat MAX_CHUNK) (rest w i)) w2 (ss ++ t)) as (w3 & E3 & Hw3).
  - by rewrite (kept_narrow _ _ (read_bindings _ _ _ Hw2)).
  - eapply room_keeps; [exact (read_bindings _ _ _ Hw2)|done].
  - intros j [= ->]. by apply (read_live _ _ _ Hw2).
  - intros Et. cbn. rewrite Hr2. destruct (rest w i); [done|]. done.
  - cbn. rewrite Hr2, take_drop. rewrite length_app in Hn. lia.
  - cbn [rest_of] in E3. rewrite Hr2, take_drop, (body_keeps w w2) in E3 by apply (read_bindings _ _ _ Hw2). exists w3. rewrite E3.
    destruct (body (txt w) depth w c (rest w i)) as [t' e]. cbn. rewrite <- app_assoc. split; [done|]. by eapply reads_trans.
Qed.
End level.

(** Printing a context comes to an end with the text its bindings give, changes no binding and leaves no iterator behind. *)
Lemma graph_printed n fuel : forall depth w c, narrow w c = true -> room fuel w ->
  exists w', make_naming_graph n fuel depth (Some c) w = Some (w', Some (graph_text n depth w c)) /\ restores w w'.
Proof.
  induction n as [|n IH]; intros depth w c Hc Hr; [exists w; by split; [|apply restores_refl]|].
  cbn [make_naming_graph graph_text]. unfold list_context. rewrite ace_range_spec. change (Z.min _ 100) with 32.
  destruct (list_law w c 32 Hc) as (w1 & it & E1 & Hk1 & Hs1 & Hit); [done|]. rewrite E1. clear E1.
  assert (forall w w' o, keeps w w' -> graph_text n (S depth) w' o = graph_text n (S depth) w o) as Htxt by (intros; by apply graph_text_keeps).
  assert (take (Z.to_nat 32) (bindings w c) ++ rest_of w1 it = bindings w c) as Eall.
  { destruct it as [i|]; cbn [rest_of]; [destruct Hit as (_ & _ & -> & _); apply take_drop|]. destruct Hit as [Hle _]. rewrite take_ge by lia. apply app_nil_r. }
  destruct (chunks_spec fuel depth (make_naming_graph n fuel (S depth)) (graph_text n (S depth)) Htxt (IH (S depth)) c it fuel
    (take (Z.to_nat 32) (bindings w c)) w1 []) as (w2 & E2 & Hw2).
  - by rewrite (kept_narrow _ _ Hk1).
  - by eapply room_keeps.
  - intros i ->. apply Hit.
  - intros E. rewrite E in Eall. destruct (rest_of w1 it) eqn:Er; [done|]. destruct (bindings w c); [done|]. done.
  - rewrite Eall. apply Hr.
  - rewrite E2, Eall. cbn [mbind option_bind]. rewrite (body_keeps depth (graph_text n (S depth)) Htxt w w1) by done.
    set (r := body _ depth w c (bindings w c)). destruct Hw2 as [Hk2 Hl2 Hr2].
    destruct it as [i|]; cbn [drop_iterator].
    + destruct Hit as (Hnl & Hli & _ & Hback). destruct (destroy_law w2 i) as (w3 & E3 & Hk3 & Hd3); [by apply Hl2|]. rewrite E3.
      exists w3. split; [unfold ending; by destruct r as [t [e|]]|].
      assert (forall j, live w3 j <-> live w j) as Hl3.
      { intros j. rewrite (proj1 (Hd3 j)), Hl2. split; [intros [[Hj| ->]%Hback Hne]; done|]. intros Hj. split; [by apply Hs1|]. congruence. }
      split; [eapply keeps_trans; [|done]; by eapply keeps_trans|done|].
      intros j Hj. rewrite (proj2 (Hd3 j)) by (by apply Hl3). rewrite Hr2; [apply Hs1, Hj|congruence|by apply Hs1].
    + destruct Hit as [_ Hback]. exists w2. split; [unfold ending; by destruct r as [t [e|]]|].
      split; [by eapply keeps_trans|intros j; rewrite Hl2; split; [apply Hback|apply Hs1]|].
      intros j Hj. rewrite Hr2; [apply Hs1, Hj|done|by apply Hs1].
Qed.

(** A context that cannot be resolved ends the lines of its siblings: those behind it are not shown. *)
Lemma unresolved_hides_rest sub depth w c bl id bl' : (forall o, ns_resolve w c id = NOk o -> narrow w o = false) ->
  body sub depth w c (bl ++ (id, ncontext) :: bl') = body sub depth w c (bl ++ [(id, ncontext)]).
Proof.
  intros Hn. rewrite !body_app. destruct (body sub depth w c bl) as [t [?|]]; [done|]. cbn [body fst snd].
  destruct (ns_resolve w c id) as [o| |] eqn:E; [|done|done]. by rewrite (Hn o eq_refl).
Qed.

(** The destructor of the iterator calls the service: when that fails the process ends. *)
Lemma failing_destroy_terminates n fuel depth w c w1 bl i w2 ss w3 e : list_context w c MAX_CHUNK = (w1, NOk (bl, Some i)) ->
  chunks fuel (make_naming_graph n fuel (S depth)) depth c bl (Some i) w1 [] = Some (w2, ss, None) -> destroy w2 i = (w3, NThrow e) ->
  make_naming_graph (S n) fuel depth (Some c) w = Some (w3, None).
Proof. intros E1 E2 E3. cbn [make_naming_graph]. rewrite E1. cbn. rewrite E2. cbn. by rewrite E3. Qed.
End listing.


(** ** A service *)

Record directory := Directory { entries : gmap nat (list (binding * nat)); open_its : gmap nat (list binding) }.

Definition listed (w : directory) (c : nat) : list binding := (default [] (entries w !! c)).*1.

#[local] Instance directory_naming : CosNaming directory nat := {|
  narrow w c := bool_decide (is_Some (entries w !! c));
  ns_resolve w c n := match List.find (fun e => bool_decide (fst (fst e) = n)) (default [] (entries w !! c)) with Some e => NOk (snd e) | None => NThrow NotFound end;
  ns_bind_new_context w _ _ := (w, NThrow OtherException);
  ns_rebind w _ _ _ := (w, NThrow OtherException);
  ns_rebind_context w _ _ _ := (w, NThrow OtherException);
  ns_unbind w _ _ := (w, NThrow OtherException);
|}.

#[local] Instance directory_listing : CosListing directory nat nat := {|
  ns_list w c max :=
    if bool_decide (Z.of_nat (length (listed w c)) <= max) then (w, NOk (listed w c, None))
    else let i := fresh (dom (open_its w)) in
         (Directory (entries w) (<[i := drop (Z.to_nat max) (listed w c)]> (open_its w)), NOk (take (Z.to_nat max) (listed w c), Some i));
  next_n w i max :=
    match open_its w !! i with
    | Some l => (Directory (entries w) (<[i := drop (Z.to_nat max) l]> (open_its w)), NOk (negb (bool_decide (l = [])), take (Z.to_nat max) l))
    | None => (w, NThrow OtherException)
    end;
  destroy w i := (Directory (entries w) (base.delete i (open_its w)), NOk tt);
|}.

Definition is_open (w : directory) (i : nat) : Prop := is_Some (open_its w !! i).
Definition unread (w : directory) (i : nat) : list binding := default [] (open_its w !! i).

Lemma directory_keeps w its : keeps listed w (Directory (entries w) its).
Proof. by split. Qed.

Lemma directory_laws : ListingLaws (It := nat) listed is_open unread.
Proof.
  split.
  - intros w c max _ Hm. cbn. case_bool_decide as Hl.
    + exists w, None. rewrite take_ge by lia. split; [done|]. split; [by split|]. split; [by intros j|]. by split.
    + eexists _, (Some _). split; [done|]. split; [apply directory_keeps|]. pose proof (is_fresh (dom (open_its w))) as Hf. set (i := fresh _) in *.
      assert (open_its w !! i = None) as Ei by (by apply not_elem_of_dom). unfold same_iterators, is_open, unread. cbn. split; [|split; [|split; [|split]]].
      * intros j Hj. rewrite lookup_insert_ne by (intros ->; rewrite Ei in Hj; by destruct Hj). done.
      * rewrite Ei. by intros [].
      * rewrite lookup_insert_eq. by eexists.
      * by rewrite lookup_insert_eq.
      * intros j. destruct (decide (i = j)) as [->|]; [by right|]. rewrite lookup_insert_ne by done. by left.
  - intros w i max [l Ei] Hm. cbn. unfold unread, is_open. rewrite Ei. cbn. eexists. split; [done|]. split; [apply directory_keeps|]. cbn. rewrite lookup_insert_eq. cbn.
    split; [done|]. split.
    + intros j. destruct (decide (i = j)) as [->|]; [rewrite lookup_insert_eq, Ei; split; by eexists|by rewrite lookup_insert_ne].
    + intros j Hj _. by rewrite lookup_insert_ne by congruence.
  - intros w i _. cbn. eexists. split; [done|]. split; [apply directory_keeps|]. unfold is_open, unread. cbn. intros j. destruct (decide (j = i)) as [->|].
    + rewrite lookup_delete_eq. split; [split; [by intros []|by intros [_ []]]|by intros []].
    + rewrite lookup_delete_ne by congruence. split; [|done]. by split; [|intros []].
  - intros w c n _. cbn. by destruct (List.find _ _).
Qed.

(** A context that is bound in itself is shown ten times. *)
Definition looped : directory := Directory {[ 0%nat := [((str "self", ncontext), 0%nat); ((str "clock", nobject), 1%nat)] ]} ∅.

Example graph_of_a_loop : exists t, make_naming_graph (It := nat) (H1 := ace_min_max_std) (fun _ => []) MAX_GRAPH_DEPTH 3 0 (Some 0%nat) looped = Some (looped, Some t)
  /\ count_occ ascii_dec t NEWLINE = 20%nat /\ drop (length t - length (line 0 (str "clock", nobject))) t = line 0 (str "clock", nobject).
Proof. eexists. split; [vm_compute; reflexivity|]. split; vm_compute; reflexivity. Qed.
