(* ===== verification/Ldbc.v ===== *)
(** * Database access: LDBC/SQLite

    Connections, queries and parameters over SQLite.  SQLite is third-party code: [SQLite] has
    the calls the classes make and [SQLiteLaws] what its documentation says of them.  A query
    and its parameters are shared objects, so they are numbered and kept in a store; a
    [Parameter] holds a reference to its query.  The mutex of a connection is always acquired. *)

From S2P Require Import Prelude CString Text DateTime DateFormat.
From Stdlib Require Import Ascii.

Abbreviation text := (list ascii).

(** LDBC/SQLite/SQLiteDefs.h:78-94 [PARAMETER_type]. *)
Inductive PARAMETER_type :=
| PT_UNKNOWN | PT_BOOL | PT_CHAR | PT_BYTE | PT_SHORT | PT_USHORT | PT_LONG | PT_ULONG
| PT_LONGLONG | PT_ULONGLONG | PT_FLOAT | PT_DOUBLE | PT_DATETIME | PT_STRING | PT_BLOB.

(** LDBC/SQLite/SQLiteDefs.h:69-76 [DATA_type]. *)
Inductive DATA_type := DT_UNKNOWN | DT_INTEGER | DT_FLOAT | DT_BLOB | DT_NULL | DT_TEXT.

(** LDBC/Exception.h:28-76 [Exception]. The exceptions of LDBC, and those of DAF that pass through. *)
Inductive ldbc_exn :=
| InternalException | InvalidConfiguration | InitializationException | IllegalArgumentException
| IllegalUseException | RecordNotFound | IndexOutOfRange | DafException (e : daf_exn).

(** The codes of sqlite3.h the classes look at. *)
Definition SQLITE_OK : Z := 0.
Definition SQLITE_ERROR : Z := 1.
Definition SQLITE_MISUSE : Z := 21.
Definition SQLITE_ROW : Z := 100.
Definition SQLITE_DONE : Z := 101.
Definition SQLITE_INTEGER : Z := 1.
Definition SQLITE_FLOAT : Z := 2.
Definition SQLITE3_TEXT : Z := 3.
Definition SQLITE_BLOB : Z := 4.
Definition SQLITE_NULL : Z := 5.

(** ** SQLite *)

(** The values SQLite stores. *)
Inductive sql_value (double : Type) :=
| SNull | SInt (z : Z) | SReal (r : double) | SText (s : text) | SBlob (b : text).
Arguments SNull {double}.
Arguments SInt {double} z.
Arguments SReal {double} r.
Arguments SText {double} s.
Arguments SBlob {double} b.

(** [db] the state of the library and its files, [conn] and [stmt] the handles; the null
    handle is [None]. [sqlite3_bind] is sqlite3_bind_null, _int, _int64, _double, _text and
    _blob with the value they are given. *)
Class SQLite (db conn stmt double : Type) := {
  sqlite3_open_v2 : db -> text -> Z -> db * (Z * option conn);
  sqlite3_close_v2 : db -> conn -> db;                       (* after sqlite3_interrupt *)
  sqlite3_prepare_v2 : db -> option conn -> text -> db * (Z * option stmt);
  sqlite3_reset : db -> option stmt -> db * Z;
  sqlite3_step : db -> option stmt -> db * Z;
  sqlite3_finalize : db -> stmt -> db;
  sqlite3_bind_parameter_count : db -> option stmt -> Z;
  sqlite3_bind_parameter_name : db -> stmt -> Z -> option text;
  sqlite3_bind_parameter_index : db -> option stmt -> text -> Z;
  sqlite3_bind : db -> stmt -> Z -> sql_value double -> db * Z;
  sqlite3_column_count : db -> option stmt -> Z;
  sqlite3_column_name : db -> option stmt -> Z -> option text;
  sqlite3_column_type : db -> option stmt -> Z -> Z;
  sqlite3_column_int : db -> stmt -> Z -> Z;
  sqlite3_column_int64 : db -> stmt -> Z -> Z;
  sqlite3_column_double : db -> stmt -> Z -> double;
  sqlite3_column_text : db -> stmt -> Z -> option text;
  sqlite3_column_bytes : db -> stmt -> Z -> Z;
  sqlite3_column_blob : db -> stmt -> Z -> option text;
  sqlite3_changes : db -> option conn -> Z;
  sqlite3_last_insert_rowid : db -> option conn -> Z;
}.

(** The conversions between float and double, which are not the repository's. *)
Class Floats (single double : Type) := {
  to_double : single -> double;
  to_single : double -> single;
  single_double : forall x, to_single (to_double x) = x;
}.

(** ** State and operations *)

(** LDBC/SQLite/SQLiteParameter.h:73-78 [Parameter]. [stmt_] is a reference to the query. *)
Record parameter := Param { stmt_ : nat; null_ : bool; index_ : Z; type_ : PARAMETER_type; name_ : text }.

(** LDBC/SQLite/SQLiteQuery.h:31-37 [Query]. The handle of the base class, the list of the parameters and the state. *)
Record query (stmt : Type) := Query { handle : option stmt; params : list (option nat); query_state : Z }.
Arguments Query {stmt}.
Arguments handle {stmt}.
Arguments params {stmt}.
Arguments query_state {stmt}.

(** LDBC/SQLite/SQLiteConnection.h:37-41 [Connection]. A connection, its queries and everything they refer to. *)
Record state (db conn stmt : Type) := State {
  sqlite : db;
  connection : option conn;
  connection_name : text;
  connection_queries : list nat;
  queries : gmap nat (query stmt);
  parameters : gmap nat parameter;
  next_id : nat;
}.
Arguments State {db conn stmt}.
Arguments sqlite {db conn stmt}.
Arguments connection {db conn stmt}.
Arguments connection_name {db conn stmt}.
Arguments connection_queries {db conn stmt}.
Arguments queries {db conn stmt}.
Arguments parameters {db conn stmt}.
Arguments next_id {db conn stmt}.

(** What an operation gives; [LGone] is an access to a destroyed object. *)
Inductive lres (A : Type) := LOk (a : A) | LThrow (e : ldbc_exn) | LGone.
Arguments LOk {A} a.
Arguments LThrow {A} e.
Arguments LGone {A}.

Definition LM (S A : Type) : Type := S -> S * lres A.
#[export] Instance LM_ret S : MRet (LM S) := fun A a s => (s, LOk a).
#[export] Instance LM_bind S : MBind (LM S) := fun A B k m s =>
  match m s with
  | (s, LOk a) => k a s
  | (s, LThrow e) => (s, LThrow e)
  | (s, LGone) => (s, LGone)
  end.
Definition lthrow {S A} (e : ldbc_exn) : LM S A := fun s => (s, LThrow e).
Definition gets {S A} (f : S -> A) : LM S A := fun s => (s, LOk (f s)).

(** LDBC/SQLite/SQLiteConnection.cpp:165-173 [assertErrorState]. *)
Definition assertErrorState {S} (state : Z) : LM S Z :=
  if (state =? SQLITE_ERROR) || (state =? SQLITE_MISUSE) then lthrow IllegalUseException else mret state.

Definition ace_max0 (z : Z) : Z := Z.max 0 z.

Section ldbc.
Context {db conn stmt single double : Type} `{SQLite db conn stmt double, Floats single double, AceMinMax}.
Abbreviation st := (state db conn stmt).
Abbreviation M := (LM (state db conn stmt)).

Definition set_sqlite (d : db) (s : st) : st :=
  State d (connection s) (connection_name s) (connection_queries s) (queries s) (parameters s) (next_id s).
Definition set_queries (m : gmap nat (query stmt)) (s : st) : st :=
  State (sqlite s) (connection s) (connection_name s) (connection_queries s) m (parameters s) (next_id s).
Definition set_parameters (m : gmap nat parameter) (s : st) : st :=
  State (sqlite s) (connection s) (connection_name s) (connection_queries s) (queries s) m (next_id s).
Definition set_list (l : list nat) (s : st) : st :=
  State (sqlite s) (connection s) (connection_name s) l (queries s) (parameters s) (next_id s).
Definition set_connection (c : option conn) (n : text) (s : st) : st :=
  State (sqlite s) c n (connection_queries s) (queries s) (parameters s) (next_id s).
Definition bump (s : st) : st :=
  State (sqlite s) (connection s) (connection_name s) (connection_queries s) (queries s) (parameters s) (S (next_id s)).

(** Calls of SQLite. *)
Definition lib {A} (f : db -> db * A) : M A := fun s => let '(d, a) := f (sqlite s) in (set_sqlite d s, LOk a).
Definition lib_ (f : db -> db) : M unit := fun s => (set_sqlite (f (sqlite s)) s, LOk tt).
Definition ask {A} (f : db -> A) : M A := gets (fun s => f (sqlite s)).

Definition modify (f : st -> st) : M unit := fun s => (f s, LOk tt).

(** The object a reference or pointer leads to. *)
Definition the_query (q : nat) : M (query stmt) := fun s =>
  (s, match queries s !! q with Some x => LOk x | None => LGone end).
Definition put_query (q : nat) (x : query stmt) : M unit := fun s => (set_queries (<[q := x]> (queries s)) s, LOk tt).
Definition the_param (p : nat) : M parameter := fun s =>
  (s, match parameters s !! p with Some x => LOk x | None => LGone end).
Definition put_param (p : nat) (x : parameter) : M unit := fun s => (set_parameters (<[p := x]> (parameters s)) s, LOk tt).

Definition alloc_param (x : parameter) : M nat := fun s =>
  (bump (set_parameters (<[next_id s := x]> (parameters s)) s), LOk (next_id s)).
Definition alloc_query (x : query stmt) : M nat := fun s =>
  (bump (set_queries (<[next_id s := x]> (queries s)) s), LOk (next_id s)).

Definition set_handle (q : nat) (h : option stmt) : M unit := x ← the_query q; put_query q (Query h (params x) (query_state x)).
Definition set_params (q : nat) (l : list (option nat)) : M unit := x ← the_query q; put_query q (Query (handle x) l (query_state x)).
Definition set_query_state (q : nat) (z : Z) : M unit := x ← the_query q; put_query q (Query (handle x) (params x) z).

(** *** Parameters *)

(** LDBC/SQLite/SQLiteParameter.cpp:31-42 [Parameter::Parameter]. *)
Definition new_parameter (q : nat) (index : Z) : M nat :=
  x ← the_query q;
  n ← match handle x with
      | Some h => if 0 <? index then ask (fun d => default [] (sqlite3_bind_parameter_name d h index)) else mret []
      | None => mret []
      end;
  alloc_param (Param q false index PT_UNKNOWN n).

(** LDBC/SQLite/SQLiteParameter.cpp:44-47 [Parameter::operator]. Null once the query has been finalized. *)
Definition stmt_handle (p : nat) : M (option stmt) := x ← the_param p; q ← the_query (stmt_ x); mret (handle q).

(** The common shape of the functions below: bind a value and note the type. *)
Definition bind_as (ty : PARAMETER_type) (null : bool) (v : sql_value double) (p : nat) : M unit :=
  h ← stmt_handle p;
  match h with
  | Some h =>
      x ← the_param p;
      rc ← lib (fun d => sqlite3_bind d h (index_ x) v);
      if (rc : Z) =? 0 then put_param p (Param (stmt_ x) null (index_ x) ty (name_ x)) else lthrow InternalException
  | None => lthrow IllegalUseException
  end.

(** LDBC/SQLite/SQLiteParameter.cpp:49-59 [Parameter::bindNull]. *)
Definition bindNull (p : nat) : M unit := bind_as PT_UNKNOWN true SNull p.

(** LDBC/SQLite/SQLiteParameter.cpp:61-71 [Parameter::bind]. *)
Definition bind_BOOL (v : bool) (p : nat) : M unit := bind_as PT_BOOL false (SInt (if v then 1 else 0)) p.
(** LDBC/SQLite/SQLiteParameter.cpp:73-83 [Parameter::bind]. A char is signed. *)
Definition bind_CHAR (v : Z) (p : nat) : M unit := bind_as PT_CHAR false (SInt (to_int v)) p.
(** LDBC/SQLite/SQLiteParameter.cpp:85-95 [Parameter::bind]. *)
Definition bind_BYTE (v : Z) (p : nat) : M unit := bind_as PT_BYTE false (SInt (to_int v)) p.
(** LDBC/SQLite/SQLiteParameter.cpp:97-107 [Parameter::bind]. *)
Definition bind_SHORT (v : Z) (p : nat) : M unit := bind_as PT_SHORT false (SInt (to_int v)) p.
(** LDBC/SQLite/SQLiteParameter.cpp:109-119 [Parameter::bind]. *)
Definition bind_USHORT (v : Z) (p : nat) : M unit := bind_as PT_USHORT false (SInt (to_int v)) p.
(** LDBC/SQLite/SQLiteParameter.cpp:121-131 [Parameter::bind]. *)
Definition bind_LONG (v : Z) (p : nat) : M unit := bind_as PT_LONG false (SInt (to_int v)) p.
(** LDBC/SQLite/SQLiteParameter.cpp:133-143 [Parameter::bind]. *)
Definition bind_ULONG (v : Z) (p : nat) : M unit := bind_as PT_ULONG false (SInt (to_int v)) p.

(** Conversion to sqlite3_int64. *)
Definition to_int64 (z : Z) : Z := (z + 2 ^ 63) mod 2 ^ 64 - 2 ^ 63.

(** LDBC/SQLite/SQLiteParameter.cpp:145-155 [Parameter::bind]. *)
Definition bind_LONGLONG (v : Z) (p : nat) : M unit := bind_as PT_LONGLONG false (SInt (to_int64 v)) p.
(** LDBC/SQLite/SQLiteParameter.cpp:157-167 [Parameter::bind]. *)
Definition bind_ULONGLONG (v : Z) (p : nat) : M unit := bind_as PT_ULONGLONG false (SInt (to_int64 (to_size v))) p.
(** LDBC/SQLite/SQLiteParameter.cpp:169-179 [Parameter::bind]. *)
Definition bind_FLOAT (v : single) (p : nat) : M unit := bind_as PT_FLOAT false (SReal (to_double v)) p.
(** LDBC/SQLite/SQLiteParameter.cpp:181-191 [Parameter::bind]. *)
Definition bind_DOUBLE (v : double) (p : nat) : M unit := bind_as PT_DOUBLE false (SReal v) p.

(** The text SQLite takes from a pointer and a length of type int. *)
Definition text_arg (v : text) : text :=
  let n := to_int (Z.of_nat (length v)) in if n <? 0 then c_str v else take (Z.to_nat n) v.

(** LDBC/SQLite/SQLiteParameter.cpp:193-211 [Parameter::bind]. *)
Definition bind_DATETIME (v : date_time) (p : nat) : M unit :=
  h ← stmt_handle p;
  match h with
  | Some _ =>
      match (dt ← validated v; toDateString dt false) with
      | Ok s => if bool_decide (s = []) then bindNull p else bind_as PT_DATETIME false (SText (text_arg s)) p
      | Throw e => lthrow (if catches DateTimeException e then IllegalArgumentException else DafException e)
      end
  | None => lthrow IllegalUseException
  end.

(** LDBC/SQLite/SQLiteParameter.cpp:213-229 [Parameter::bind]. *)
Definition bind_STRING (v : text) (p : nat) : M unit :=
  h ← stmt_handle p;
  match h with
  | Some _ => if bool_decide (v = []) then bindNull p else bind_as PT_STRING false (SText (text_arg v)) p
  | None => lthrow IllegalUseException
  end.

(** LDBC/SQLite/SQLiteParameter.cpp:231-251 [Parameter::bind]. The pointer is [None] when it is null, and what it points to. *)
Definition bind_BLOB (v : option text) (size : Z) (p : nat) : M unit :=
  h ← stmt_handle p;
  match h with
  | Some _ =>
      let len := to_int size in
      match v with
      | Some b => if 0 <=? len then bind_as PT_BLOB false (SBlob (take (Z.to_nat len) b)) p else bindNull p
      | None => bindNull p
      end
  | None => lthrow IllegalUseException
  end.

(** *** Queries *)

(** LDBC/SQLite/SQLiteQuery.cpp:128-135 [Query::_finalize]. *)
Definition query_finalize (q : nat) : M unit :=
  x ← the_query q;
  match handle x with
  | Some h => lib (fun d => sqlite3_step d (Some h)) ≫= fun _ => lib_ (fun d => sqlite3_finalize d h) ≫= fun _ => set_handle q None
  | None => mret tt
  end ≫= fun _ =>
  set_params q [].

(** LDBC/SQLite/SQLiteQuery.cpp:105-107 [Query::execute_query]. *)
Fixpoint init_params (q : nat) (j : nat) : M unit :=
  match j with
  | O => mret tt
  | S j =>
      p ← new_parameter q (Z.of_nat j + 1);
      x ← the_query q;
      set_params q (<[j := Some p]> (params x)) ≫= fun _ =>
      init_params q j
  end.

(** LDBC/SQLite/SQLiteQuery.cpp:96-117 [Query::execute_query]. handle_out finalizes the statement there was. *)
Definition query_execute (q : nat) (sql : text) : M Z :=
  if (0 <? length sql)%nat then
    c ← gets connection;
    query_finalize q ≫= fun _ => set_handle q None ≫= fun _ =>
    '(state, h) ← lib (fun d => sqlite3_prepare_v2 d c (c_str sql));
    set_handle q h ≫= fun _ =>
    state ← (if (state : Z) =? SQLITE_OK then
               state ← lib (fun d => sqlite3_reset d h);
               i ← ask (fun d => sqlite3_bind_parameter_count d h);
               if 0 <? (i : Z) then
                 set_params q (replicate (Z.to_nat i) None) ≫= fun _ => init_params q (Z.to_nat i) ≫= fun _ => mret state
               else mret (state : Z)
             else mret state);
    set_query_state q state ≫= fun _ => assertErrorState state
  else
    query_finalize q ≫= fun _ => lthrow IllegalArgumentException.

(** LDBC/SQLite/SQLiteQuery.cpp:119-126 [Query::getNext]. *)
Definition getNext (q : nat) : M bool :=
  x ← the_query q;
  rc ← lib (fun d => sqlite3_step d (handle x));
  set_query_state q rc ≫= fun _ => assertErrorState rc ≫= fun rc => mret (rc =? SQLITE_ROW).

(** LDBC/SQLite/SQLiteQuery.cpp:54-61 [Query::column_name]. *)
Definition column_name (q : nat) (column : Z) : M text :=
  x ← the_query q;
  r ← ask (fun d => sqlite3_column_name d (handle x) column);
  match r with Some r => mret r | None => lthrow IndexOutOfRange end.

(** LDBC/SQLite/SQLiteQuery.cpp:63-76 [Query::column_type]. *)
Definition column_type (q : nat) (column : Z) : M DATA_type :=
  x ← the_query q;
  t ← ask (fun d => sqlite3_column_type d (handle x) column);
  if t =? 0 then lthrow IndexOutOfRange
  else mret (if t =? SQLITE_INTEGER then DT_INTEGER else if t =? SQLITE_FLOAT then DT_FLOAT else if t =? SQLITE_BLOB then DT_BLOB
             else if t =? SQLITE_NULL then DT_NULL else if t =? SQLITE3_TEXT then DT_TEXT else DT_UNKNOWN).

(** LDBC/SQLite/SQLiteQuery.cpp:78-82 [Query::query_changes]. *)
Definition query_changes (q : nat) : M Z :=
  the_query q ≫= fun _ => c ← gets connection; n ← ask (fun d => sqlite3_changes d c); mret (ace_max0 n).

(** LDBC/SQLite/SQLiteQuery.cpp:84-88 [Query::column_count]. *)
Definition column_count (q : nat) : M Z := x ← the_query q; n ← ask (fun d => sqlite3_column_count d (handle x)); mret (ace_max0 n).

(** LDBC/SQLite/SQLiteQuery.cpp:90-94 [Query::bind_count]. *)
Definition bind_count (q : nat) : M Z := x ← the_query q; n ← ask (fun d => sqlite3_bind_parameter_count d (handle x)); mret (ace_max0 n).

(** LDBC/SQLite/SQLiteQuery.cpp:302-317 [Query::operator_index]. The const one is the same. *)
Definition param_at (q : nat) (index : Z) : M nat :=
  x ← the_query q;
  if (0 <? index) && (index <=? to_int (Z.of_nat (length (params x)))) then
    match params x !! Z.to_nat (index - 1) with
    | Some (Some p) => mret p
    | _ => lthrow InternalException
    end
  else lthrow IndexOutOfRange.

(** LDBC/SQLite/SQLiteQuery.cpp:325-334 [Query::operator_index]. *)
Definition param_named (q : nat) (n : text) : M nat :=
  x ← the_query q;
  i ← ask (fun d => sqlite3_bind_parameter_index d (handle x) (c_str n));
  param_at q i.

(** *** Reading columns *)

(** What the functions below share: the query must be on a row. *)
Definition on_row (q : nat) : M stmt :=
  x ← the_query q;
  match handle x with
  | Some h => if query_state x =? SQLITE_ROW then mret h else lthrow IllegalUseException
  | None => lthrow IllegalUseException
  end.

(** Conversion to an unsigned integer of [w] bits, and to a signed one. *)
Definition to_unsigned (w z : Z) : Z := z mod 2 ^ w.
Definition to_signed (w z : Z) : Z := (z + 2 ^ (w - 1)) mod 2 ^ w - 2 ^ (w - 1).

(** LDBC/SQLite/SQLiteQuery.cpp:139-146 [Query::getData]. *)
Definition getData_BOOL (q : nat) (index : Z) : M bool :=
  h ← on_row q; v ← ask (fun d => sqlite3_column_int d h index); mret (negb (v =? 0)).
(** LDBC/SQLite/SQLiteQuery.cpp:148-157 [Query::getData]. The first character of the text, or its NUL. *)
Definition getData_CHAR (q : nat) (index : Z) : M Z :=
  h ← on_row q; t ← ask (fun d => sqlite3_column_text d h index);
  match t with Some t => mret (to_signed 8 (code (char_at t 0))) | None => lthrow IllegalUseException end.
(** LDBC/SQLite/SQLiteQuery.cpp:159-168 [Query::getData]. *)
Definition getData_BYTE (q : nat) (index : Z) : M Z :=
  h ← on_row q; t ← ask (fun d => sqlite3_column_text d h index);
  match t with Some t => mret (code (char_at t 0)) | None => lthrow IllegalUseException end.
(** LDBC/SQLite/SQLiteQuery.cpp:170-177 [Query::getData]. *)
Definition getData_SHORT (q : nat) (index : Z) : M Z :=
  h ← on_row q; v ← ask (fun d => sqlite3_column_int d h index); mret (to_signed 16 v).
(** LDBC/SQLite/SQLiteQuery.cpp:179-186 [Query::getData]. *)
Definition getData_USHORT (q : nat) (index : Z) : M Z :=
  h ← on_row q; v ← ask (fun d => sqlite3_column_int d h index); mret (to_unsigned 16 v).
(** LDBC/SQLite/SQLiteQuery.cpp:188-195 [Query::getData]. *)
Definition getData_LONG (q : nat) (index : Z) : M Z :=
  h ← on_row q; v ← ask (fun d => sqlite3_column_int d h index); mret (to_signed 32 v).
(** LDBC/SQLite/SQLiteQuery.cpp:197-204 [Query::getData]. *)
Definition getData_ULONG (q : nat) (index : Z) : M Z :=
  h ← on_row q; v ← ask (fun d => sqlite3_column_int d h index); mret (to_unsigned 32 v).
(** LDBC/SQLite/SQLiteQuery.cpp:206-213 [Query::getData]. *)
Definition getData_LONGLONG (q : nat) (index : Z) : M Z :=
  h ← on_row q; v ← ask (fun d => sqlite3_column_int64 d h index); mret (to_signed 64 v).
(** LDBC/SQLite/SQLiteQuery.cpp:215-222 [Query::getData]. *)
Definition getData_ULONGLONG (q : nat) (index : Z) : M Z :=
  h ← on_row q; v ← ask (fun d => sqlite3_column_int64 d h index); mret (to_unsigned 64 v).
(** LDBC/SQLite/SQLiteQuery.cpp:224-231 [Query::getData]. *)
Definition getData_FLOAT (q : nat) (index : Z) : M single :=
  h ← on_row q; v ← ask (fun d => sqlite3_column_double d h index); mret (to_single v).
(** LDBC/SQLite/SQLiteQuery.cpp:233-240 [Query::getData]. *)
Definition getData_DOUBLE (q : nat) (index : Z) : M double :=
  h ← on_row q; ask (fun d => sqlite3_column_double d h index).
(** LDBC/SQLite/SQLiteQuery.cpp:242-254 [Query::getData]. [junk] is for the parser of dates. *)
Definition getData_DATETIME (junk : Z * Z) (q : nat) (index : Z) : M date_time :=
  h ← on_row q; t ← ask (fun d => sqlite3_column_text d h index);
  match t with
  | Some t => match Date_Time_of_string junk (c_str t) with Ok dt => mret dt | Throw _ => lthrow IllegalUseException end
  | None => lthrow IllegalUseException
  end.
(** LDBC/SQLite/SQLiteQuery.cpp:256-270 [Query::getData]. *)
Definition getData_STRING (q : nat) (index : Z) : M text :=
  h ← on_row q; t ← ask (fun d => sqlite3_column_text d h index); len ← ask (fun d => sqlite3_column_bytes d h index);
  mret (match t with Some t => if 0 <? len then take (Z.to_nat len) t else [] | None => [] end).
(** LDBC/SQLite/SQLiteQuery.cpp:272-284 [Query::getData]. The buffer and its size. *)
Definition getData_BLOB (q : nat) (index : Z) : M (option text * Z) :=
  h ← on_row q; size ← ask (fun d => sqlite3_column_bytes d h index);
  if 0 <=? size then
    b ← ask (fun d => sqlite3_column_blob d h index);
    mret (match b with Some b => (Some b, size) | None => (None, 0) end)
  else mret (None, 0).

(** *** Connections *)

(** LDBC/SQLite/SQLiteConnection.cpp:155-161 [Connection::_finalize]. *)
Definition connection_finalize : M unit :=
  c ← gets connection;
  match c with
  | Some c => lib_ (fun d => sqlite3_close_v2 d c) ≫= fun _ => modify (fun s => set_connection None (connection_name s) s)
  | None => mret tt
  end.

(** LDBC/SQLite/SQLiteConnection.cpp:71-81 [Connection::open]. The handle is set even when opening fails. *)
Definition open (name : text) (flags : Z) : M Z :=
  connection_finalize ≫= fun _ =>
  '(retval, c) ← lib (fun d => sqlite3_open_v2 d (c_str name) flags);
  if (retval : Z) =? 0 then modify (set_connection c name) ≫= fun _ => mret 0
  else modify (set_connection c []) ≫= fun _ => mret retval.

(** LDBC/SQLite/SQLiteConnection.cpp:94-100 [Connection::close]. *)
Fixpoint close_queries (n : nat) : M unit :=
  match n with
  | O => mret tt
  | S n =>
      l ← gets connection_queries;
      match last l with
      | Some q =>
          x ← the_query q;
          match handle x with Some _ => query_finalize q | None => mret tt end ≫= fun _ =>
          modify (set_list (removelast l)) ≫= fun _ => close_queries n
      | None => mret tt
      end
  end.

(** LDBC/SQLite/SQLiteConnection.cpp:83-113 [Connection::close]. *)
Definition close : M Z :=
  l ← gets connection_queries;
  close_queries (length l) ≫= fun _ => connection_finalize ≫= fun _ => mret 0.

(** LDBC/SQLite/SQLiteConnection.cpp:140-153 [Connection::remove_query]. *)
Definition remove_query (p : nat) : M Z := fun s =>
  match list_find (fun q => q = p) (connection_queries s) with
  | Some (i, _) => (set_list (base.delete i (connection_queries s)) s, LOk 0)
  | None => (s, LOk (-1))
  end.

(** LDBC/SQLite/SQLiteQuery.cpp:49-52 [Query::~Query]. The release of the last reference. *)
Definition destroy_query (q : nat) : M unit :=
  query_finalize q ≫= fun _ => remove_query q ≫= fun _ =>
  modify (fun s => set_queries (base.delete q (queries s)) s).

(** LDBC/SQLite/SQLiteQuery.cpp:39-47 [Query::Query]. *)
Definition new_query : M nat := alloc_query (Query None [] SQLITE_OK).

(** What is done on the way out of a block when an exception passes. *)
Definition unwind {A} (cleanup : M unit) (m : M A) : M A := fun s =>
  match m s with
  | (s, LThrow e) => (cleanup ≫= fun _ => lthrow e) s
  | r => r
  end.

(** LDBC/SQLite/SQLiteConnection.cpp:115-132 [Connection::execute_query]. The only reference to the query goes when an exception passes. *)
Definition execute_query (sql : text) : M nat :=
  q ← new_query;
  modify (fun s => set_list (connection_queries s ++ [q]) s) ≫= fun _ =>
  unwind (destroy_query q)
    (rc ← query_execute q (trim sql); if (rc : Z) =? 0 then mret q else lthrow IllegalUseException).

(** LDBC/SQLite/SQLiteConnection.cpp:134-138 [Connection::last_insert_id]. A long has 64 bits. *)
Definition last_insert_id : M Z := c ← gets connection; ask (fun d => sqlite3_last_insert_rowid d c).

(** LDBC/SQLite/SQLiteConnection.cpp:58-64 [Connection::Connection]. When the constructor throws only the base class is destroyed: it
    drops the handle. *)
Definition new_connection (name : text) (flags : Z) : M unit :=
  rc ← open name flags;
  if (rc : Z) =? 0 then mret tt
  else modify (fun s => set_connection None (connection_name s) s) ≫= fun _ => lthrow InitializationException.
End ldbc.
