(* ===== verification/LdbcSpec.v ===== *)
(** * What the database classes promise

    The documented behaviour of SQLite the classes rely on; values bound to parameters and
    read back; the numbering of parameters; what runs when a query is dropped or a connection
    closed; and the invariant of a connection's list of queries. *)

From S2P Require Import Prelude CString Text DateTime DateFormat Ldbc.
From Stdlib Require Import Ascii.

(** ** Lists of parameters, states *)

Section steps.
Context {db conn stmt single double : Type} `{SQLite db conn stmt double, Floats single double, AceMinMax}.
Abbreviation st := (state db conn stmt).
Implicit Types (s : st) (q p : nat).

(** [m] does not change what [I] says of the state, whatever its outcome. *)
Definition keeps {A} (I : st -> Prop) (m : LM st A) : Prop := forall s, I s -> I (m s).1.

Lemma keeps_bind {A B} I (m : LM st A) (k : A -> LM st B) : keeps I m -> (forall a, keeps I (k a)) -> keeps I (m ≫= k).
Proof.
  intros Hm Hk s Hs. specialize (Hm s Hs). unfold mbind, LM_bind. destruct (m s) as [s1 [a|e|]]; cbn in *; [by apply Hk|done..].
Qed.

Lemma keeps_ret {A} I (a : A) : keeps I (mret a).
Proof. by intros s Hs. Qed.
Lemma keeps_throw {A} I e : keeps I (lthrow e : LM st A).
Proof. by intros s Hs. Qed.
Lemma keeps_gets {A} I (f : st -> A) : keeps I (gets f).
Proof. by intros s Hs. Qed.
Lemma keeps_the_query I q : keeps I (the_query q).
Proof. by intros s Hs. Qed.
Lemma keeps_the_param I p : keeps I (the_param p).
Proof. by intros s Hs. Qed.
Lemma keeps_assert I z : keeps I (assertErrorState z).
Proof. unfold assertErrorState. intros s Hs. by destruct (_ || _). Qed.

(** What is left of a query when its statement is finalized. *)
Definition finalized (x : query stmt) : query stmt := Query None [] (query_state x).
Definition finalize_db (d : db) (h : option stmt) : db :=
  match h with Some h => sqlite3_finalize (fst (sqlite3_step d (Some h))) h | None => d end.

Lemma query_finalize_spec q x s : queries s !! q = Some x ->
  query_finalize q s = (set_queries (<[q := finalized x]> (queries s)) (set_sqlite (finalize_db (sqlite s) (handle x)) s), LOk tt).
Proof.
  intros Hq. unfold query_finalize, set_handle, set_params, the_query, put_query, mbind, LM_bind. rewrite Hq.
  destruct (handle x) as [h|] eqn:Eh; cbn.
  - unfold lib, lib_. destruct (sqlite3_step (sqlite s) (Some h)) as [d rc]; cbn. rewrite Hq. cbn. rewrite lookup_insert_eq. cbn.
    rewrite insert_insert_eq. done.
  - rewrite Hq. unfold finalized, set_queries, set_sqlite. cbn. by rewrite Eh.
Qed.

Lemma query_finalize_gone q s : queries s !! q = None -> query_finalize q s = (s, LGone).
Proof. intros Hq. unfold query_finalize, the_query, mbind, LM_bind. by rewrite Hq. Qed.

(** The parameters [init_params] makes, counted down from [n]. *)
Definition made_params (q n : nat) (l : list (option nat)) s s' (l' : list (option nat)) : Prop :=
  length l' = length l
  /\ (forall j, (j < n)%nat -> exists p nm, l' !! j = Some (Some p)
       /\ parameters s' !! p = Some (Param q false (Z.of_nat j + 1) PT_UNKNOWN nm))
  /\ (forall j, (n <= j)%nat -> l' !! j = l !! j)
  /\ (forall p, (p < next_id s)%nat -> parameters s' !! p = parameters s !! p) /\ (next_id s <= next_id s')%nat.

Lemma init_params_spec q n h l z s : queries s !! q = Some (Query h l z) -> (n <= length l)%nat ->
  exists s' l', init_params q n s = (s', LOk tt) /\ queries s' = <[q := Query h l' z]> (queries s)
  /\ sqlite s' = sqlite s /\ connection s' = connection s /\ connection_queries s' = connection_queries s
  /\ connection_name s' = connection_name s /\ made_params q n l s s' l'.
Proof.
  revert l s. induction n as [|n IH]; intros l s Hq Hl.
  { exists s, l. cbn. rewrite insert_id by done. split_and!; try done. unfold made_params. split_and!; try done. intros j Hj. lia. }
  cbn [init_params]. unfold mbind at 1. unfold LM_bind at 1.
  assert (exists nm, new_parameter q (Z.of_nat n + 1) s
    = (bump (set_parameters (<[next_id s := Param q false (Z.of_nat n + 1) PT_UNKNOWN nm]> (parameters s)) s), LOk (next_id s))) as [nm Enew].
  { unfold new_parameter, the_query, mbind, LM_bind. rewrite Hq. cbn [handle]. destruct h as [h|].
    - rewrite (proj2 (Z.ltb_lt 0 (Z.of_nat n + 1))) by lia. by eexists.
    - by eexists. }
  rewrite Enew. set (s1 := bump _). unfold mbind at 1. unfold LM_bind at 1. unfold the_query.
  replace (queries s1) with (queries s) by done. rewrite Hq. cbn [params]. unfold mbind at 1. unfold LM_bind at 1.
  unfold set_params. unfold mbind at 1. unfold LM_bind at 1. unfold the_query. replace (queries s1) with (queries s) by done. rewrite Hq.
  unfold put_query. cbn [handle query_state]. set (s2 := set_queries _ s1).
  destruct (IH (<[n := Some (next_id s)]> l) s2) as (s' & l' & E & Eq & E1 & E2 & E3 & E4 & M1 & M2 & M3 & M4 & M5).
  { unfold s2. cbn. by rewrite lookup_insert_eq. }
  { rewrite length_insert. lia. }
  exists s', l'. split; [exact E|]. split; [rewrite Eq; unfold s2; cbn; by rewrite insert_insert_eq|]. split_and!; try done.
  unfold made_params. rewrite length_insert in M1. cbn in M4, M5. split_and!; [done| | | |lia].
  - intros j Hj. destruct (decide (j = n)) as [->|]; [|apply M2; lia]. exists (next_id s), nm.
    rewrite M3 by lia. rewrite list_lookup_insert_eq by lia. split; [done|]. rewrite M4 by lia. by rewrite lookup_insert_eq.
  - intros j Hj. rewrite M3 by lia. by rewrite list_lookup_insert_ne by lia.
  - intros p Hp. rewrite M4 by lia. by rewrite lookup_insert_ne by lia.
Qed.

(** What [query_execute] does with a text that is not empty: the statement there was is
    finalized, the new one prepared and its parameters made. *)
Lemma query_execute_spec q x sql s : queries s !! q = Some x -> (0 < length sql)%nat ->
  let '(d1, (rc, h)) := sqlite3_prepare_v2 (finalize_db (sqlite s) (handle x)) (connection s) (c_str sql) in
  let '(d2, z) := (if rc =? SQLITE_OK then sqlite3_reset d1 h else (d1, rc)) in
  exists s' l', query_execute q sql s = (s', if (z =? SQLITE_ERROR) || (z =? SQLITE_MISUSE) then LThrow IllegalUseException else LOk z)
  /\ sqlite s' = d2 /\ connection s' = connection s /\ connection_queries s' = connection_queries s
  /\ queries s' = <[q := Query h l' z]> (queries s)
  /\ (next_id s <= next_id s')%nat
  /\ (if (rc =? SQLITE_OK) && (0 <? sqlite3_bind_parameter_count d2 h)
      then length l' = Z.to_nat (sqlite3_bind_parameter_count d2 h)
           /\ (forall j, (j < length l')%nat -> exists p nm, l' !! j = Some (Some p)
                /\ parameters s' !! p = Some (Param q false (Z.of_nat j + 1) PT_UNKNOWN nm))
      else l' = []).
Proof.
  intros Hq Hl. unfold query_execute. rewrite (proj2 (Nat.ltb_lt 0 (length sql)) Hl).
  unfold gets, mbind at 1. unfold LM_bind at 1. unfold mbind at 1. unfold LM_bind at 1.
  rewrite (query_finalize_spec q x s Hq). set (s1 := set_queries _ _).
  assert (queries s1 !! q = Some (finalized x)) as Hq1 by (unfold s1; cbn; by rewrite lookup_insert_eq).
  unfold mbind at 1. unfold LM_bind at 1. unfold set_handle at 1, the_query, mbind at 1. unfold LM_bind at 1. rewrite Hq1.
  unfold put_query. set (s2 := set_queries _ s1).
  assert (queries s2 = <[q := finalized x]> (queries s)) as Hs2.
  { unfold s2, s1. cbn. rewrite insert_insert_eq. done. }
  unfold mbind at 1. unfold LM_bind at 1. unfold lib at 1. replace (sqlite s2) with (finalize_db (sqlite s) (handle x)) by done.
  destruct (sqlite3_prepare_v2 _ (connection s) (c_str sql)) as [d1 [rc h]]. cbv iota beta.
  unfold mbind at 1. unfold LM_bind at 1. unfold set_handle, the_query, mbind at 1. unfold LM_bind at 1.
  set (s3 := set_sqlite d1 s2). replace (queries s3) with (queries s2) by done. rewrite Hs2, lookup_insert_eq. unfold put_query.
  set (s4 := set_queries _ s3).
  assert (queries s4 = <[q := Query h [] (query_state x)]> (queries s)) as Hs4.
  { unfold s4, s3. cbn. rewrite !insert_insert_eq. done. }
  assert (forall s5 l z, queries s5 = <[q := Query h l (query_state x)]> (queries s) ->
    (set_query_state q z ≫= fun _ => assertErrorState z) s5
    = (set_queries (<[q := Query h l z]> (queries s)) s5,
       if (z =? SQLITE_ERROR) || (z =? SQLITE_MISUSE) then LThrow IllegalUseException else LOk z)) as Hend.
  { intros s5 l z E. unfold set_query_state, the_query, put_query, mbind, LM_bind. rewrite E, lookup_insert_eq. cbn.
    rewrite insert_insert_eq. unfold assertErrorState. by destruct (_ || _). }
  unfold mbind at 1. unfold LM_bind at 1. destruct (rc =? SQLITE_OK) eqn:Erc; cbn [andb].
  2: { cbn. exists (set_queries (<[q := Query h [] rc]> (queries s)) s4), [].
       split; [by apply Hend|]. split_and!; done. }
  unfold lib at 1, mbind at 1. unfold LM_bind at 1. replace (sqlite s4) with d1 by done.
  destruct (sqlite3_reset d1 h) as [d2 z]. unfold ask, gets, mbind at 1. unfold LM_bind at 1.
  set (s5 := set_sqlite d2 s4). replace (sqlite s5) with d2 by done.
  destruct (0 <? sqlite3_bind_parameter_count d2 h) eqn:En.
  2: { cbn. exists (set_queries (<[q := Query h [] z]> (queries s)) s5), [].
       split; [by apply Hend|]. split_and!; done. }
  set (n := Z.to_nat (sqlite3_bind_parameter_count d2 h)). unfold mbind at 1. unfold LM_bind at 1.
  unfold set_params at 1, the_query, mbind at 1. unfold LM_bind at 1. replace (queries s5) with (queries s4) by done.
  rewrite Hs4, lookup_insert_eq. unfold put_query. cbn [handle query_state]. set (s6 := set_queries _ s5).
  destruct (init_params_spec q n h (replicate n None) (query_state x) s6) as (s7 & l7 & E & Eq7 & E1 & E2 & E3 & E4 & M1 & M2 & M3 & M4 & M5).
  { unfold s6, s5. cbn. by rewrite lookup_insert_eq. }
  { by rewrite length_replicate. }
  unfold mbind at 1. unfold LM_bind at 1. rewrite E. cbn.
  exists (set_queries (<[q := Query h l7 z]> (queries s)) s7), l7. split.
  { apply Hend. rewrite Eq7. unfold s6, s5, s4, s3, s2, s1. cbn. by rewrite !insert_insert_eq. }
  rewrite length_replicate in M1. split_and!; try done.
  intros j Hj. apply M2. lia.
Qed.

(** SQLite gives a handle also when it fails to open; the constructor then drops it without
    closing it. *)
Lemma failed_open_drops_handle name flags s d rc c : connection s = None ->
  sqlite3_open_v2 (sqlite s) (c_str name) flags = (d, (rc, Some c)) -> rc <> 0 ->
  exists s', new_connection name flags s = (s', LThrow InitializationException) /\ sqlite s' = d /\ connection s' = None.
Proof.
  intros Hc Ho Hrc. unfold new_connection, open, connection_finalize, gets, lib, modify, mbind, LM_bind. rewrite Hc. cbn. rewrite Ho.
  rewrite (proj2 (Z.eqb_neq _ _) Hrc). cbn. rewrite (proj2 (Z.eqb_neq _ _) Hrc). by eexists.
Qed.

(** ** The numbering of parameters *)

(** After a statement has been executed there are as many parameters as SQLite
    counts in it, numbered from 1: an index in range gives the parameter that binds that index
    of the statement, and any other throws IndexOutOfRange. *)
Theorem parameters_numbered q x sql s s' rc : queries s !! q = Some x ->
  query_execute q sql s = (s', LOk rc) -> rc = SQLITE_OK ->
  (forall h, sqlite3_bind_parameter_count (sqlite s') h <= INT_MAX) ->
  exists y, queries s' !! q = Some y
  /\ (forall i, 1 <= i <= sqlite3_bind_parameter_count (sqlite s') (handle y) -> exists p nm,
        param_at q i s' = (s', LOk p) /\ parameters s' !! p = Some (Param q false i PT_UNKNOWN nm))
  /\ (forall i, ~ 1 <= i <= sqlite3_bind_parameter_count (sqlite s') (handle y) -> param_at q i s' = (s', LThrow IndexOutOfRange)).
Proof.
  intros Hq He Hrc Hmax. destruct (decide (0 < length sql)%nat) as [Hl|Hl].
  2: { exfalso. unfold query_execute in He. rewrite (proj2 (Nat.ltb_ge _ _)) in He by lia.
       unfold mbind, LM_bind in He. by rewrite (query_finalize_spec q x s Hq) in He. }
  pose proof (query_execute_spec q x sql s Hq Hl) as Hs.
  destruct (sqlite3_prepare_v2 _ _ _) as [d1 [rc1 h]]. destruct (if rc1 =? SQLITE_OK then _ else _) as [d2 z] eqn:E2.
  destruct Hs as (s1 & l & E & Ed & _ & _ & Eq & _ & Hp). rewrite E in He.
  assert (z = rc /\ s1 = s') as [-> ->] by (by destruct (_ || _); simplify_eq). clear He.
  assert ((rc1 =? SQLITE_OK) = true) as E1 by (destruct (rc1 =? SQLITE_OK) eqn:E0; [done|by simplify_eq]).
  rewrite E1 in Hp. cbn [andb] in Hp. subst d2.
  exists (Query h l rc). rewrite Eq, lookup_insert_eq. split; [done|]. cbn [handle].
  specialize (Hmax h). set (n := sqlite3_bind_parameter_count (sqlite s') h) in *.
  assert (Z.of_nat (length l) = Z.max 0 n) as Hn.
  { destruct (Z.ltb_spec 0 n); [destruct Hp as [-> _]|subst l; cbn]; lia. }
  assert (forall i, param_at q i s' = (s', if (0 <? i) && (i <=? Z.of_nat (length l)) then
      match l !! Z.to_nat (i - 1) with Some (Some p) => LOk p | _ => LThrow InternalException end
    else LThrow IndexOutOfRange)) as Hat.
  { intros i. unfold param_at, the_query, mbind, LM_bind. rewrite Eq, lookup_insert_eq. cbn [params].
    rewrite to_int_small by (unfold INT_MAX in *; lia). destruct (_ && _); [|done].
    destruct (l !! Z.to_nat (i - 1)) as [[p|]|]; done. }
  split; intros i Hi; rewrite Hat.
  - rewrite (proj2 (Z.ltb_lt 0 i)), (proj2 (Z.leb_le i _)) by lia. cbn [andb].
    rewrite (proj2 (Z.ltb_lt 0 n)) in Hp by lia. destruct Hp as [_ Hp].
    destruct (Hp (Z.to_nat (i - 1))) as (p & nm & -> & Hpp); [lia|]. exists p, nm. split; [done|].
    rewrite Hpp. repeat f_equal. lia.
  - destruct ((0 <? i) && (i <=? Z.of_nat (length l))) eqn:Eb; [|done].
    apply andb_true_iff in Eb as [Hi1%Z.ltb_lt Hi2%Z.leb_le]. destruct Hi. lia.
Qed.
End steps.

(** ** What SQLite promises *)

(** What is bound to the parameters of a statement, and what the columns of its row hold. *)
Class SQLiteLaws (db conn stmt double : Type) `{SQLite db conn stmt double}
  (binding : db -> stmt -> Z -> sql_value double) (column_value : db -> stmt -> Z -> sql_value double) (is_nan : double -> bool) : Prop := {
  bind_law : forall d h i v d', sqlite3_bind d h i v = (d', SQLITE_OK) ->
    match v with SText t => NUL ∉ t | SReal r => is_nan r = false | _ => True end -> binding d' h i = v;
  bind_nan_law : forall d h i r d', sqlite3_bind d h i (SReal r) = (d', SQLITE_OK) -> is_nan r = true -> binding d' h i = SNull;
  column_null_double_law : forall d h i, column_value d h i = SNull -> is_nan (sqlite3_column_double d h i) = false;
  column_int_law : forall d h i, sqlite3_column_int d h i = to_int (sqlite3_column_int64 d h i);
  column_int64_law : forall d h i z, column_value d h i = SInt z -> - 2 ^ 63 <= z < 2 ^ 63 -> sqlite3_column_int64 d h i = z;
  column_double_law : forall d h i r, column_value d h i = SReal r -> sqlite3_column_double d h i = r;
  column_text_law : forall d h i, match column_value d h i with
    | SNull => sqlite3_column_text d h i = None /\ sqlite3_column_bytes d h i = 0
    | SInt z => - 2 ^ 63 <= z < 2 ^ 63 -> sqlite3_column_text d h i = Some (fmt_int 0 z)
    | SText t => NUL ∉ t -> sqlite3_column_text d h i = Some t /\ sqlite3_column_bytes d h i = Z.of_nat (length t)
    | SBlob b => sqlite3_column_blob d h i = (if bool_decide (b = []) then None else Some b)
                 /\ sqlite3_column_bytes d h i = Z.of_nat (length b)
    | SReal _ => True
    end;
  column_null_law : forall d h i, column_value d h i = SNull -> sqlite3_column_blob d h i = None;
}.

(** ** Values that are bound and read *)

(** A value of one of the types the overloads of [bind] and [getData] take. *)
Inductive value (single double : Type) :=
| VBool (v : bool) | VChar (v : Z) | VByte (v : Z) | VShort (v : Z) | VUShort (v : Z) | VLong (v : Z) | VULong (v : Z)
| VLongLong (v : Z) | VULongLong (v : Z) | VFloat (v : single) | VDouble (v : double) | VDateTime (v : date_time)
| VString (v : text) | VBlob (v : option text) (size : Z).
Arguments VBool {single double}. Arguments VChar {single double}. Arguments VByte {single double}.
Arguments VShort {single double}. Arguments VUShort {single double}. Arguments VLong {single double}.
Arguments VULong {single double}. Arguments VLongLong {single double}. Arguments VULongLong {single double}.
Arguments VFloat {single double}. Arguments VDouble {single double}. Arguments VDateTime {single double}.
Arguments VString {single double}. Arguments VBlob {single double}.

Section values.
Context {db conn stmt single double : Type} `{SQLite db conn stmt double, Floats single double, AceMinMaxLaws}
  (binding : db -> stmt -> Z -> sql_value double) (column_value : db -> stmt -> Z -> sql_value double)
  (is_nan : double -> bool) `{!SQLiteLaws db conn stmt double binding column_value is_nan}.
Abbreviation st := (state db conn stmt).
Abbreviation val := (value single double).
Implicit Types (s : st) (q p : nat).

(** Overload resolution. *)
Definition bind_value (v : val) : nat -> LM st unit :=
  match v with
  | VBool v => bind_BOOL v | VChar v => bind_CHAR v | VByte v => bind_BYTE v | VShort v => bind_SHORT v
  | VUShort v => bind_USHORT v | VLong v => bind_LONG v | VULong v => bind_ULONG v | VLongLong v => bind_LONGLONG v
  | VULongLong v => bind_ULONGLONG v | VFloat v => bind_FLOAT v | VDouble v => bind_DOUBLE v
  | VDateTime v => bind_DATETIME v | VString v => bind_STRING v | VBlob v n => bind_BLOB v n
  end.

(** [getData] for a variable of the type of [v]. *)
Definition getData_like (junk : Z * Z) (v : val) (q : nat) (i : Z) : LM st val :=
  match v with
  | VBool _ => x ← getData_BOOL q i; mret (VBool x)
  | VChar _ => x ← getData_CHAR q i; mret (VChar x)
  | VByte _ => x ← getData_BYTE q i; mret (VByte x)
  | VShort _ => x ← getData_SHORT q i; mret (VShort x)
  | VUShort _ => x ← getData_USHORT q i; mret (VUShort x)
  | VLong _ => x ← getData_LONG q i; mret (VLong x)
  | VULong _ => x ← getData_ULONG q i; mret (VULong x)
  | VLongLong _ => x ← getData_LONGLONG q i; mret (VLongLong x)
  | VULongLong _ => x ← getData_ULONGLONG q i; mret (VULongLong x)
  | VFloat _ => x ← getData_FLOAT q i; mret (VFloat x)
  | VDouble _ => x ← getData_DOUBLE q i; mret (VDouble x)
  | VDateTime _ => x ← getData_DATETIME junk q i; mret (VDateTime x)
  | VString _ => x ← getData_STRING q i; mret (VString x)
  | VBlob _ _ => '(b, n) ← getData_BLOB q i; mret (VBlob b n)
  end.

(** A value its C++ type can have; no NaN, texts without NUL and lengths an int can hold. *)
Definition ok_value (v : val) : Prop :=
  match v with
  | VBool _ => True | VFloat r => is_nan (to_double r) = false | VDouble r => is_nan r = false
  | VChar z => - 2 ^ 7 <= z < 2 ^ 7 | VByte z => 0 <= z < 2 ^ 8
  | VShort z => - 2 ^ 15 <= z < 2 ^ 15 | VUShort z => 0 <= z < 2 ^ 16
  | VLong z => - 2 ^ 31 <= z < 2 ^ 31 | VULong z => 0 <= z < 2 ^ 32
  | VLongLong z => - 2 ^ 63 <= z < 2 ^ 63 | VULongLong z => 0 <= z < 2 ^ 64
  | VDateTime dt => well_formed dt
  | VString t => (NUL ∉ t) /\ Z.of_nat (length t) <= INT_MAX
  | VBlob b n => n <= INT_MAX /\ match b with Some b => n = Z.of_nat (length b) | None => True end
  end.

(** What the statement is given for it. *)
Definition stored (v : val) : sql_value double :=
  match v with
  | VBool b => SInt (if b then 1 else 0)
  | VChar z | VByte z | VShort z | VUShort z | VLong z | VULong z => SInt (to_int z)
  | VLongLong z => SInt (to_int64 z)
  | VULongLong z => SInt (to_int64 (to_size z))
  | VFloat x => SReal (to_double x)
  | VDouble x => SReal x
  | VDateTime dt => SText (default_text dt)
  | VString t => if bool_decide (t = []) then SNull else SText t
  | VBlob (Some b) _ => SBlob b
  | VBlob None _ => SNull
  end.

(** What reading it as the same type gives: itself, but for characters and bytes, which are
    stored as numbers and read back as the first character of the decimal text, the
    microseconds of dates, and blobs without data. *)
Definition read_back (v : val) : val :=
  match v with
  | VChar z => VChar (code (char_at (fmt_int 0 z) 0))
  | VByte z => VByte (code (char_at (fmt_int 0 z) 0))
  | VDateTime dt => VDateTime (mkDT (dt_day dt) (dt_month dt) (dt_year dt) (dt_hour dt) (dt_minute dt) (dt_second dt) 0 (dt_weekday dt))
  | VBlob (Some []) _ | VBlob None _ => VBlob None 0
  | v => v
  end.

Lemma stmt_handle_spec p s r s' : stmt_handle p s = (s', LOk r) ->
  s' = s /\ exists x y, parameters s !! p = Some x /\ queries s !! stmt_ x = Some y /\ handle y = r.
Proof.
  unfold stmt_handle, the_param, the_query, mbind, LM_bind. destruct (parameters s !! p) as [x|] eqn:Ex; [|done].
  destruct (queries s !! stmt_ x) as [y|] eqn:Ey; [|done]. cbn. intros [= <- <-]. eauto 10.
Qed.

(** The parameter, its query and the statement a binding goes to. *)
Definition bound_at p s (x : parameter) (h : stmt) : Prop :=
  parameters s !! p = Some x /\ exists y, queries s !! stmt_ x = Some y /\ handle y = Some h.

Lemma bind_as_spec ty null v p s s1 : bind_as ty null v p s = (s1, LOk tt) ->
  exists x h, bound_at p s x h /\ sqlite3_bind (sqlite s) h (index_ x) v = (sqlite s1, SQLITE_OK)
  /\ parameters s1 = <[p := Param (stmt_ x) null (index_ x) ty (name_ x)]> (parameters s) /\ queries s1 = queries s.
Proof.
  unfold bind_as, mbind at 1. unfold LM_bind at 1. destruct (stmt_handle p s) as [s0 [[h|]|e|]] eqn:Eh; [|done..].
  apply stmt_handle_spec in Eh as (-> & x & y & Ex & Ey & Hy). unfold the_param, mbind, LM_bind, lib, put_param. rewrite Ex.
  destruct (sqlite3_bind (sqlite s) h (index_ x) v) as [d rc] eqn:Eb. destruct (Z.eqb_spec rc 0) as [->|]; [|done].
  intros [= <-]. exists x, h. unfold bound_at. cbn. eauto 10.
Qed.

Lemma to_int64_small z : - 2 ^ 63 <= z < 2 ^ 63 -> to_int64 z = z.
Proof. unfold to_int64. intros Hz. rewrite Z.mod_small; lia. Qed.

Lemma to_int64_range z : - 2 ^ 63 <= to_int64 z < 2 ^ 63.
Proof. unfold to_int64. pose proof (Z.mod_pos_bound (z + 2 ^ 63) (2 ^ 64) ltac:(lia)). lia. Qed.

Lemma text_arg_id t : Z.of_nat (length t) <= INT_MAX -> text_arg t = t.
Proof.
  intros Hl. unfold text_arg. rewrite to_int_small by (unfold INT_MAX in *; lia).
  rewrite (proj2 (Z.ltb_ge _ 0)) by lia. rewrite Nat2Z.id. by rewrite take_ge.
Qed.

Lemma validated_well_formed dt : well_formed dt -> validated dt = Ok dt.
Proof.
  intros [Hv Hw]. unfold validated. rewrite (proj2 (assertDateRange_valid dt) Hv). cbn.
  unfold with_weekday. change (WEEKDay3 (dt_day dt) (dt_month dt) (dt_year dt)) with (WEEKDay (jday dt)). rewrite <- Hw. by destruct dt.
Qed.

Lemma default_text_no_nul dt : valid dt = true -> NUL ∉ default_text dt.
Proof.
  intros Hv Hin. pose proof (default_text_nonzero dt Hv) as Hn. rewrite Forall_forall in Hn. by apply Hn in Hin.
Qed.

(** Binding a value gives the statement what [stored] says. *)
Lemma bind_value_stored v p s s1 : ok_value v -> bind_value v p s = (s1, LOk tt) ->
  exists x h, bound_at p s x h /\ binding (sqlite s1) h (index_ x) = stored v.
Proof.
  intros Hv He.
  assert (forall ty null w, bind_as ty null w p s = (s1, LOk tt) -> match w with SText t => NUL ∉ t | SReal r => is_nan r = false | _ => True end ->
    exists x h, bound_at p s x h /\ binding (sqlite s1) h (index_ x) = w) as Hb.
  { intros ty null w Hw Hnul. apply bind_as_spec in Hw as (x & h & Hx & Eb & _). exists x, h. split; [done|]. by eapply bind_law. }
  destruct v as [v|v|v|v|v|v|v|v|v|v|v|v|v|[b|] n]; cbn [bind_value stored ok_value] in *; try (by eapply Hb); revert He;
    unfold bind_DATETIME, bind_STRING, bind_BLOB, mbind at 1; unfold LM_bind at 1;
    (destruct (stmt_handle p s) as [s0 [[h|]|e|]] eqn:Eh; [|done..]); apply stmt_handle_spec in Eh as [-> _].
  - rewrite validated_well_formed by done. cbn. destruct (date_string_text (0, 0) v Hv) as [-> _].
    pose proof (default_text_length v (proj1 Hv)) as Hl. rewrite bool_decide_false by (intros E; by rewrite E in Hl).
    rewrite text_arg_id by (rewrite Hl; unfold INT_MAX; lia). intros He. eapply Hb; [done|]. by apply default_text_no_nul, Hv.
  - destruct Hv as [Hn Hl]. case_bool_decide; [intros He; by eapply Hb|]. rewrite text_arg_id by done. intros He. by eapply Hb.
  - destruct Hv as [Hn ->]. rewrite to_int_small by (unfold INT_MAX in *; lia). rewrite (proj2 (Z.leb_le 0 _)) by lia.
    rewrite Nat2Z.id, take_ge by done. intros He. by eapply Hb.
  - intros He. by eapply Hb.
Qed.

Lemma on_row_spec q z h s : queries s !! q = Some z -> handle z = Some h -> query_state z = SQLITE_ROW -> on_row q s = (s, LOk h).
Proof. intros Hq Hh Hz. unfold on_row, the_query, mbind, LM_bind. by rewrite Hq, Hh, Hz. Qed.

Lemma to_int_id w z : 0 <= w <= 31 -> - 2 ^ w <= z < 2 ^ w -> to_int z = z.
Proof.
  intros Hw Hz. pose proof (Z.pow_le_mono_r 2 w 31 ltac:(lia) ltac:(lia)). apply to_int_small. unfold INT_MAX. lia.
Qed.

Lemma to_int_id_u w z : 0 <= w <= 31 -> 0 <= z < 2 ^ w -> to_int z = z.
Proof. intros Hw Hz. apply (to_int_id w); [done|lia]. Qed.

Lemma to_signed_small w z : 0 < w -> - 2 ^ (w - 1) <= z < 2 ^ (w - 1) -> to_signed w z = z.
Proof.
  intros Hw Hz. unfold to_signed. rewrite Z.mod_small; [lia|]. pose proof (Z.pow_succ_r 2 (w - 1) ltac:(lia)) as E.
  replace (Z.succ (w - 1)) with w in E by lia. lia.
Qed.

Lemma to_unsigned_wrap w v z : 0 <= w <= v -> 0 <= z < 2 ^ w -> to_unsigned w ((z + 2 ^ (v - 1)) mod 2 ^ v - 2 ^ (v - 1)) = z.
Proof.
  intros Hw Hz. unfold to_unsigned. rewrite Zminus_mod. replace (2 ^ v) with (2 ^ w * 2 ^ (v - w)) by (rewrite <- Z.pow_add_r by lia; f_equal; lia).
  assert (0 < 2 ^ w) by (apply Z.pow_pos_nonneg; lia). assert (0 < 2 ^ (v - w)) by (apply Z.pow_pos_nonneg; lia).
  rewrite Z.rem_mul_r by lia. rewrite Z.mul_comm, Z.add_mod, Z.mod_mul, Z.add_0_r, !Z.mod_mod by lia.
  rewrite <- Zminus_mod. rewrite Z.add_simpl_r. by apply Z.mod_small.
Qed.

Lemma ndigits_pos k z : (1 <= ndigits k z)%nat.
Proof. destruct k; cbn [ndigits]; [lia|]. destruct (z <? 10); lia. Qed.

(** The first character of a number's text is plain ASCII. *)
Lemma fmt_int_first z : exists c t, fmt_int 0 z = c :: t /\ 0 <= code c < 128.
Proof.
  unfold fmt_int. destruct (z <? 0) eqn:Ez; [by eexists _, _|].
  unfold fmt_nat. apply Z.ltb_ge in Ez. pose proof (digits_w_digits (Nat.max 0 (ndigits 20 z)) z Ez) as Hd.
  pose proof (digits_w_length (Nat.max 0 (ndigits 20 z)) z) as Hl. pose proof (ndigits_pos 20 z) as Hp.
  destruct (digits_w (Nat.max 0 (ndigits 20 z)) z) as [|c t].
  - exfalso. cbn [length] in Hl. lia.
  - exists c, t. split; [done|]. apply Forall_cons in Hd as [Hc _]. unfold isdigit in Hc. lia.
Qed.

(** C22 (roundtrip). A value bound to a parameter of a statement is what [getData] of the same
    type gives for a column that holds what was bound, for all fourteen overloads: every number of an
    integer type (a ULONG is stored negative and comes back), every real that is not a NaN, every valid date (without its microseconds),
    texts without a NUL character and blobs of at most INT_MAX bytes; characters and bytes come back
    as the first digit of their code. *)
Theorem bound_value_reads_back v p s s1 : ok_value v -> bind_value v p s = (s1, LOk tt) ->
  exists x h, bound_at p s x h
  /\ forall junk s2 q z h2 c, queries s2 !! q = Some z -> handle z = Some h2 -> query_state z = SQLITE_ROW ->
       column_value (sqlite s2) h2 c = binding (sqlite s1) h (index_ x) ->
       getData_like junk v q c s2 = (s2, LOk (read_back v)).
Proof.
  intros Hv He. destruct (bind_value_stored v p s s1 Hv He) as (x & h & Hx & Hb). exists x, h. split; [done|].
  intros junk s2 q z h2 c Hq Hh Hz Hc. rewrite Hb in Hc. clear Hb He Hx.
  pose proof (on_row_spec q z h2 s2 Hq Hh Hz) as Hrow. pose proof (column_text_law (sqlite s2) h2 c) as Ht. rewrite Hc in Ht.
  assert (forall k, column_value (sqlite s2) h2 c = SInt (to_int k) -> sqlite3_column_int (sqlite s2) h2 c = to_int k) as Hint.
  { intros k Hk. pose proof (to_int_range k). rewrite column_int_law, (column_int64_law _ _ _ _ Hk) by (unfold INT_MAX in *; lia).
    apply to_int_small. done. }
  destruct v as [v|v|v|v|v|v|v|v|v|v|v|v|v|[b|] n]; cbn [ok_value stored getData_like read_back] in *.
  all: unfold getData_BOOL, getData_CHAR, getData_BYTE, getData_SHORT, getData_USHORT, getData_LONG, getData_ULONG, getData_LONGLONG,
    getData_ULONGLONG, getData_FLOAT, getData_DOUBLE, getData_DATETIME, getData_STRING, getData_BLOB, mbind, LM_bind; rewrite Hrow; unfold ask, gets.
  - assert (sqlite3_column_int (sqlite s2) h2 c = (if v then 1 else 0)) as ->; [|by destruct v].
    rewrite column_int_law, (column_int64_law _ _ _ _ Hc); by destruct v.
  - rewrite (to_int_id 7) in Ht by done. rewrite Ht by lia. destruct (fmt_int_first v) as (a & t & -> & Ha).
    cbn. by rewrite to_signed_small by (simpl; lia).
  - rewrite (to_int_id_u 8) in Ht by done. by rewrite Ht by lia.
  - rewrite (Hint v Hc), (to_int_id 15 v) by done. cbn. by rewrite to_signed_small by done.
  - rewrite (Hint v Hc), (to_int_id_u 16 v) by done. cbn. unfold to_unsigned. by rewrite Z.mod_small.
  - rewrite (Hint v Hc), (to_int_id 31 v) by done. cbn. by rewrite to_signed_small by done.
  - rewrite (Hint v Hc). cbn. by assert (to_unsigned 32 (to_int v) = v) as -> by (by apply (to_unsigned_wrap 32 32 v)).
  - rewrite (column_int64_law _ _ _ _ Hc) by apply to_int64_range. rewrite (to_int64_small v) by done. cbn.
    by rewrite to_signed_small by done.
  - rewrite to_size_small in Hc by (unfold SIZE_MOD; lia).
    rewrite (column_int64_law _ _ _ _ Hc) by apply to_int64_range. cbn.
    by assert (to_unsigned 64 (to_int64 v) = v) as -> by (by apply (to_unsigned_wrap 64 64 v)).
  - rewrite (column_double_law _ _ _ _ Hc). cbn. by rewrite single_double.
  - by rewrite (column_double_law _ _ _ _ Hc).
  - destruct Ht as [-> _]; [by apply default_text_no_nul, Hv|].
    rewrite c_str_id by (apply default_text_nonzero, Hv). by destruct (date_string_text junk v Hv) as [_ ->].
  - case_bool_decide as Hn; subst; [by destruct Ht as [-> _]|]. destruct Ht as [-> ->]; [apply Hv|]. cbn.
    rewrite (proj2 (Z.ltb_lt 0 _)) by (destruct v; [done|simpl; lia]). by rewrite Nat2Z.id, take_ge.
  - destruct Ht as [E1 ->]. cbn. rewrite (proj2 (Z.leb_le 0 _)) by lia. rewrite E1. destruct Hv as [_ ->].
    destruct b; done.
  - destruct Ht as [_ ->]. cbn. by rewrite column_null_law.
Qed.

(** A NaN does not come back: SQLite stores it as NULL, and what is read is a number. *)
Lemma nan_does_not_come_back r p s s1 : is_nan r = true -> bind_value (VDouble r) p s = (s1, LOk tt) ->
  exists x h, bound_at p s x h /\ binding (sqlite s1) h (index_ x) = SNull
  /\ forall junk s2 q z h2 c, queries s2 !! q = Some z -> handle z = Some h2 -> query_state z = SQLITE_ROW ->
       column_value (sqlite s2) h2 c = SNull -> exists r', is_nan r' = false /\ getData_like junk (VDouble r) q c s2 = (s2, LOk (VDouble r')).
Proof.
  intros Hr He. apply bind_as_spec in He as (x & h & Hx & Eb & _). exists x, h. split; [done|]. split; [by eapply bind_nan_law|].
  intros junk s2 q z h2 c Hq Hh Hz Hc. eexists. split; [by apply column_null_double_law, Hc|].
  cbn [getData_like]. unfold getData_DOUBLE, mbind, LM_bind. by rewrite (on_row_spec q z h2 s2 Hq Hh Hz).
Qed.

(** Without a row (before the first getNext, after the last, or once the statement
    is finalized) every overload of [getData] throws IllegalUse and changes nothing, and every
    overload of [bind] does once the statement is finalized; a parameter of a query that no
    longer exists is an access to a destroyed object. *)
Theorem no_row_no_data junk v q y c p x s : queries s !! q = Some y -> handle y = None \/ query_state y <> SQLITE_ROW ->
  parameters s !! p = Some x ->
  getData_like junk v q c s = (s, LThrow IllegalUseException)
  /\ (forall z, queries s !! stmt_ x = Some z -> handle z = None -> bind_value v p s = (s, LThrow IllegalUseException))
  /\ (queries s !! stmt_ x = None -> bind_value v p s = (s, LGone)).
Proof.
  intros Hq Hr Hp. assert (on_row q s = (s, LThrow IllegalUseException)) as Hrow.
  { unfold on_row, the_query, mbind, LM_bind. rewrite Hq. destruct (handle y) as [h|]; [|done].
    destruct Hr as [|Hr]; [done|]. by rewrite (proj2 (Z.eqb_neq _ _) Hr). }
  split.
  - destruct v; cbn [getData_like]; unfold getData_BOOL, getData_CHAR, getData_BYTE, getData_SHORT, getData_USHORT, getData_LONG,
      getData_ULONG, getData_LONGLONG, getData_ULONGLONG, getData_FLOAT, getData_DOUBLE, getData_DATETIME, getData_STRING, getData_BLOB,
      mbind, LM_bind; by rewrite Hrow.
  - assert (stmt_handle p s = (s, match queries s !! stmt_ x with Some z => LOk (handle z) | None => LGone end)) as Hh.
    { unfold stmt_handle, the_param, the_query, mbind, LM_bind. rewrite Hp. by destruct (queries s !! stmt_ x). }
    split; [intros z Hz Hn; rewrite Hz, Hn in Hh|intros Hz; rewrite Hz in Hh];
      destruct v as [v|v|v|v|v|v|v|v|v|v|v|v|v|b n]; cbn [bind_value]; unfold bind_BOOL, bind_CHAR, bind_BYTE, bind_SHORT, bind_USHORT, bind_LONG,
        bind_ULONG, bind_LONGLONG, bind_ULONGLONG, bind_FLOAT, bind_DOUBLE, bind_DATETIME, bind_STRING, bind_BLOB, bind_as, mbind, LM_bind;
      by rewrite Hh.
Qed.
End values.

(** ** Closing a connection *)

Section closing.
Context {db conn stmt single double : Type} `{SQLite db conn stmt double, Floats single double, AceMinMax}.
Abbreviation st := (state db conn stmt).
Implicit Types (s : st) (q : nat).

Definition handle_of s (q : nat) : option stmt := queries s !! q ≫= handle.

Lemma foldr_ext_in {A B} (f g : A -> B -> B) b l : (forall a b, a ∈ l -> f a b = g a b) -> foldr f b l = foldr g b l.
Proof.
  induction l as [|a l IH]; [done|]. intros Hfg. cbn. rewrite IH by (intros; apply Hfg; by right). apply Hfg. by left.
Qed.

(** The statements of the list are finalized one after the other, the last first. *)
Lemma close_queries_spec qs s : connection_queries s = qs -> NoDup qs -> (forall q, q ∈ qs -> is_Some (queries s !! q)) ->
  exists s', close_queries (length qs) s = (s', LOk tt)
  /\ sqlite s' = foldr (fun q d => finalize_db d (handle_of s q)) (sqlite s) qs
  /\ connection_queries s' = [] /\ connection s' = connection s /\ next_id s' = next_id s
  /\ (forall q, q ∈ qs -> exists y, queries s' !! q = Some y /\ handle y = None)
  /\ (forall q, q ∉ qs -> queries s' !! q = queries s !! q).
Proof.
  revert s. induction qs as [|q qs IH] using rev_ind; intros s Hl Hn Hs.
  { exists s. split_and!; try done. by intros q ?%elem_of_nil. }
  apply NoDup_app in Hn as (Hn & Hd & _). destruct (Hs q) as [y Hy]; [apply elem_of_app; right; by left|].
  rewrite length_app, Nat.add_1_r. cbn [close_queries]. unfold gets, the_query, mbind, LM_bind. rewrite Hl, last_snoc, Hy.
  set (s1 := set_queries (<[q := finalized y]> (queries s)) (set_sqlite (finalize_db (sqlite s) (handle y)) s)).
  set (s2 := match handle y with Some _ => s1 | None => s end).
  assert (queries s2 !! q = Some (match handle y with Some _ => finalized y | None => y end)) as Hq2.
  { unfold s2. destruct (handle y); [unfold s1; cbn; by rewrite lookup_insert_eq|done]. }
  assert (forall q', q' <> q -> queries s2 !! q' = queries s !! q') as Hq3.
  { intros q' Hne. unfold s2. destruct (handle y); [unfold s1; cbn; by rewrite lookup_insert_ne|done]. }
  assert (sqlite s2 = finalize_db (sqlite s) (handle y)) as Hd2 by (unfold s2; by destruct (handle y)).
  assert (match handle y with Some _ => query_finalize q | None => mret tt end s = (s2, LOk tt)) as ->.
  { unfold s2. destruct (handle y) eqn:Eh; [|done]. rewrite (query_finalize_spec q y s Hy). unfold s1. by rewrite Eh. }
  unfold modify. rewrite removelast_last.
  assert (forall q', q' ∈ qs -> q' <> q) as Hne by (intros q' Hin ->; eapply (Hd q); [done|by left]).
  destruct (IH (set_list qs s2)) as (s' & E & F1 & F2 & F3 & F4 & F5 & F6); [done|done| |].
  { intros q' Hin. cbn. rewrite Hq3 by auto. apply Hs. apply elem_of_app. by left. }
  exists s'. split; [exact E|]. split_and!; [|done|rewrite F3; unfold s2; by destruct (handle y)|rewrite F4; unfold s2; by destruct (handle y)| |].
  - rewrite F1, foldr_app. cbn. unfold handle_of at 3. rewrite Hy. cbn. rewrite Hd2. apply foldr_ext_in.
    intros q' d Hin. unfold handle_of. cbn. by rewrite Hq3 by auto.
  - intros q' [Hin| ->%list_elem_of_singleton]%elem_of_app; [by apply F5|].
    rewrite F6 by (intros Hin; by apply (Hne q)). cbn. rewrite Hq2. eexists. split; [done|]. by destruct (handle y) eqn:Eh.
  - intros q' [Hin1 Hin2]%not_elem_of_app. rewrite F6 by done. cbn. apply Hq3. intros ->. apply Hin2. by left.
Qed.

Lemma close_spec s : NoDup (connection_queries s) -> (forall q, q ∈ connection_queries s -> is_Some (queries s !! q)) ->
  exists s', close s = (s', LOk 0)
  /\ sqlite s' = (let d := foldr (fun q d => finalize_db d (handle_of s q)) (sqlite s) (connection_queries s) in
                  match connection s with Some c => sqlite3_close_v2 d c | None => d end)
  /\ connection_queries s' = [] /\ connection s' = None /\ next_id s' = next_id s
  /\ (forall q, q ∈ connection_queries s -> exists y, queries s' !! q = Some y /\ handle y = None)
  /\ (forall q, q ∉ connection_queries s -> queries s' !! q = queries s !! q).
Proof.
  intros Hn Hs. destruct (close_queries_spec (connection_queries s) s) as (s1 & E & F1 & F2 & F3 & F4 & F5 & F6); [done..|].
  unfold close, connection_finalize, gets, mbind, LM_bind. rewrite E, F3.
  destruct (connection s) as [c|] eqn:Ec; cbn; eexists; (split; [done|]); cbn; rewrite F1; split_and!; done.
Qed.
End closing.

(** ** What dropping a query runs *)

(** Statements that return no rows: [effect] is what running one does to the data. *)
Class SQLiteRuns (db conn stmt double X : Type) `{SQLite db conn stmt double}
  (data : db -> X) (effect : db -> stmt -> option (X -> X)) : Prop := {
  step_law : forall d h f, effect d h = Some f -> exists d', sqlite3_step d (Some h) = (d', SQLITE_DONE)
    /\ data d' = f (data d) /\ forall h', effect d' h' = effect d h';
  finalize_law : forall d h, data (sqlite3_finalize d h) = data d
    /\ forall h', h' <> h -> effect (sqlite3_finalize d h) h' = effect d h';
  prepare_data : forall d c sql, data (sqlite3_prepare_v2 d c sql).1 = data d;
  reset_data : forall d h, data (sqlite3_reset d h).1 = data d;
  close_data : forall d c, data (sqlite3_close_v2 d c) = data d;
}.

Section runs.
Context {db conn stmt single double X : Type} `{SQLite db conn stmt double, Floats single double, AceMinMax}
  (data : db -> X) (effect : db -> stmt -> option (X -> X)) `{!SQLiteRuns db conn stmt double X data effect}.
Abbreviation st := (state db conn stmt).
Implicit Types (s : st) (q : nat).

Lemma finalize_runs d h f : effect d h = Some f ->
  data (finalize_db d (Some h)) = f (data d) /\ forall h', h' <> h -> effect (finalize_db d (Some h)) h' = effect d h'.
Proof.
  intros Hf. destruct (step_law d h f Hf) as (d' & E & E1 & E2). unfold finalize_db. rewrite E. cbn.
  destruct (finalize_law d' h) as [-> E3]. split; [done|]. intros h' Hne. by rewrite E3, E2.
Qed.

Lemma remove_query_sqlite q s : sqlite (remove_query q s).1 = sqlite s /\ queries (remove_query q s).1 = queries s.
Proof. unfold remove_query. by destruct (list_find _ _) as [[i ?]|]. Qed.

Lemma destroy_query_spec q y s : queries s !! q = Some y -> exists s', destroy_query q s = (s', LOk tt)
  /\ sqlite s' = finalize_db (sqlite s) (handle y) /\ queries s' = base.delete q (queries s).
Proof.
  intros Hq. unfold destroy_query, mbind, LM_bind. rewrite (query_finalize_spec q y s Hq).
  set (s1 := set_queries _ _). pose proof (remove_query_sqlite q s1) as [E1 E2].
  destruct (remove_query q s1) as [s2 r] eqn:Er. assert (exists z, r = LOk z) as [z ->].
  { unfold remove_query in Er. destruct (list_find _ _) as [[i ?]|]; injection Er as _ <-; eauto. }
  eexists. split; [done|]. cbn in *. rewrite E1, E2. split; [done|]. unfold s1. cbn. by rewrite delete_insert_eq.
Qed.

Lemma execute_query_spec sql s s1 q : execute_query sql s = (s1, LOk q) -> q = next_id s /\ exists y,
  queries s1 = <[q := y]> (queries s) /\ connection_queries s1 = connection_queries s ++ [q] /\ connection s1 = connection s
  /\ data (sqlite s1) = data (sqlite s).
Proof.
  unfold execute_query, new_query, alloc_query, modify, unwind, mbind, LM_bind.
  set (s0 := set_list _ _). intros He. cbn [fst snd] in *.
  assert (queries s0 !! next_id s = Some (Query None [] SQLITE_OK)) as Hq0 by (unfold s0; cbn; by rewrite lookup_insert_eq).
  destruct (decide (0 < length (trim sql))%nat) as [Hl|Hl].
  2: { exfalso. revert He. unfold query_execute. rewrite (proj2 (Nat.ltb_ge 0 _)) by lia. unfold mbind, LM_bind.
       rewrite (query_finalize_spec _ _ _ Hq0). unfold lthrow. by destruct (destroy_query _ _) as [s2 [a|e|]]. }
  pose proof (query_execute_spec _ _ (trim sql) s0 Hq0 Hl) as Hs. cbn [handle finalize_db] in Hs.
  pose proof (prepare_data (sqlite s0) (connection s0) (c_str (trim sql))) as Hd1.
  destruct (sqlite3_prepare_v2 _ _ _) as [d1 [rc h]]. cbn in Hd1.
  pose proof (reset_data d1 h) as Hd2. destruct (if rc =? SQLITE_OK then _ else _) as [d2 z] eqn:E2.
  assert (data d2 = data d1) as Hd3.
  { destruct (rc =? SQLITE_OK); [by rewrite E2 in Hd2|by injection E2 as <- _]. }
  destruct Hs as (s2 & l & E & F1 & F2 & F3 & F4 & _). rewrite E in He.
  destruct (_ || _); [exfalso; revert He; unfold lthrow; by destruct (destroy_query _ _) as [s3 [a|e|]]|].
  destruct (z =? 0); [|exfalso; revert He; unfold lthrow; by destruct (destroy_query _ _) as [s3 [a|e|]]].
  unfold mret, LM_ret in He. injection He as <- <-. split; [done|]. eexists. rewrite F4, F3, F2, F1. split; [unfold s0; cbn; by rewrite insert_insert_eq|].
  split; [done|]. split; [done|]. by rewrite Hd3, Hd1.
Qed.

(** Executing a query prepares it and runs nothing; a statement that changes
    data runs when the query is dropped, once; and when getNext was called for it, it runs then
    and once more when the query is dropped. *)
Theorem query_runs_when_dropped sql s s1 q y h f : execute_query sql s = (s1, LOk q) ->
  queries s1 !! q = Some y -> handle y = Some h -> effect (sqlite s1) h = Some f ->
  data (sqlite s1) = data (sqlite s)
  /\ (exists s2, destroy_query q s1 = (s2, LOk tt) /\ queries s2 = base.delete q (queries s1) /\ data (sqlite s2) = f (data (sqlite s)))
  /\ (exists s2 s3, getNext q s1 = (s2, LOk false) /\ data (sqlite s2) = f (data (sqlite s))
       /\ destroy_query q s2 = (s3, LOk tt) /\ data (sqlite s3) = f (f (data (sqlite s)))).
Proof.
  intros He Hq Hh Hf. destruct (execute_query_spec sql s s1 q He) as (_ & _ & _ & _ & _ & Hd).
  split; [done|]. split.
  - destruct (destroy_query_spec q y s1 Hq) as (s2 & E1 & E2 & E3). exists s2. split; [done|]. split; [done|].
    rewrite E2, Hh, <- Hd. by apply finalize_runs.
  - destruct (step_law _ h f Hf) as (d' & E & E1 & E2).
    set (s2 := set_queries (<[q := Query (Some h) (params y) SQLITE_DONE]> (queries s1)) (set_sqlite d' s1)).
    assert (getNext q s1 = (s2, LOk false)) as Hn.
    { unfold getNext, the_query, lib, set_query_state, put_query, mbind, LM_bind. rewrite Hq, Hh, E. cbn. rewrite Hq, Hh. done. }
    destruct (destroy_query_spec q (Query (Some h) (params y) SQLITE_DONE) s2) as (s3 & F1 & F2 & F3).
    { unfold s2. cbn. by rewrite lookup_insert_eq. }
    exists s2, s3. split; [done|]. split; [by rewrite <- Hd|]. split; [done|]. rewrite F2. cbn [handle].
    rewrite (proj1 (finalize_runs (sqlite s2) h f ltac:(unfold s2; cbn; by rewrite E2))). unfold s2. cbn. by rewrite E1, Hd.
Qed.

Lemma close_runs (l : list (nat * option stmt)) (F : nat -> X -> X) d : NoDup l.*1 ->
  (forall q q' h, (q, Some h) ∈ l -> (q', Some h) ∈ l -> q = q') ->
  (forall q h, (q, h) ∈ l -> match h with Some h => effect d h = Some (F q) | None => F q = id end) ->
  data (foldr (fun x d => finalize_db d x.2) d l) = foldr F (data d) l.*1.
Proof.
  revert d. induction l as [|[q h] l IH] using rev_ind; intros d Hn Hi Hf; [done|].
  rewrite fmap_app in *. rewrite !foldr_app. cbn. apply NoDup_app in Hn as (Hn & Hd & _).
  assert (forall x, x ∈ l -> x ∈ l ++ [(q, h)]) as Hin by (intros; apply elem_of_app; by left).
  assert ((q, h) ∈ l ++ [(q, h)]) as Hq by (apply elem_of_app; right; by left).
  pose proof (Hf q h Hq) as Hh.
  assert (data (finalize_db d h) = F q (data d)) as E.
  { destruct h as [h|]; [by apply finalize_runs|]. by rewrite Hh. }
  rewrite IH, E; [done|done| |].
  - intros. eapply Hi; eauto.
  - intros q' h' Hin'. pose proof (Hf q' h' (Hin _ Hin')) as Hf'. destruct h' as [h'|]; [|done].
    destruct h as [h|]; [|done]. rewrite (proj2 (finalize_runs d h (F q) Hh)); [done|]. intros ->.
    assert (q' = q) as -> by eauto. eapply (Hd q); [|by left]. apply list_elem_of_fmap. by exists (q, Some h).
Qed.

(** Closing a connection runs the statement of every query that still has one,
    the newest first, then closes the database; every query of the connection is left without
    statement. *)
Theorem close_runs_outstanding s (F : nat -> X -> X) : NoDup (connection_queries s) ->
  (forall q, q ∈ connection_queries s -> is_Some (queries s !! q)) ->
  (forall q q' h, handle_of s q = Some h -> handle_of s q' = Some h -> q = q') ->
  (forall q, q ∈ connection_queries s -> match handle_of s q with Some h => effect (sqlite s) h = Some (F q) | None => F q = id end) ->
  exists s', close s = (s', LOk 0) /\ data (sqlite s') = foldr F (data (sqlite s)) (connection_queries s)
  /\ connection s' = None /\ connection_queries s' = []
  /\ (forall q, q ∈ connection_queries s -> exists y, queries s' !! q = Some y /\ handle y = None).
Proof.
  intros Hn Hs Hi Hf. destruct (close_spec s Hn Hs) as (s' & E & E1 & E2 & E3 & _ & E4 & _). exists s'. split; [done|].
  split; [|done]. rewrite E1. set (qs := connection_queries s) in *.
  assert (data (foldr (fun q d => finalize_db d (handle_of s q)) (sqlite s) qs) = foldr F (data (sqlite s)) qs) as Hd.
  { assert (((fun q => (q, handle_of s q)) <$> qs).*1 = qs) as Hl.
    { rewrite <- list_fmap_compose. by apply list_fmap_id. }
    pose proof (close_runs ((fun q => (q, handle_of s q)) <$> qs) F (sqlite s)) as Hr. rewrite Hl, foldr_fmap in Hr.
    apply Hr; [done| |].
    - intros q q' h [x [[= -> Hx] _]]%list_elem_of_fmap [x' [[= -> Hx'] _]]%list_elem_of_fmap. by eapply Hi.
    - intros q h [x [[= -> ->] Hx]]%list_elem_of_fmap. by apply Hf. }
  cbn. destruct (connection s); [by rewrite close_data|done].
Qed.
End runs.

(** ** The queries of a connection *)

Create HintDb keeps.

Section tracking.
Context {db conn stmt single double : Type} `{SQLite db conn stmt double, Floats single double, AceMinMax}.
Abbreviation st := (state db conn stmt).
Implicit Types (s : st) (q : nat).

(** Preparing on no connection gives no statement. *)
Context (prepare_null : forall d sql d' rc h, sqlite3_prepare_v2 d (None : option conn) sql = (d', (rc, h)) -> h = (None : option stmt)).

(** The list has queries that exist, once each.  Unless the connection was [reopened] while queries of before were still held, a query that has a
    statement is in the list, and while the connection is open every query is. *)
Record tracks (reopened : bool) s : Prop := {
  t_nodup : NoDup (connection_queries s);
  t_live : forall q, q ∈ connection_queries s -> is_Some (queries s !! q);
  t_stmt : reopened = false -> forall q y, queries s !! q = Some y -> handle y <> None -> q ∈ connection_queries s;
  t_open : reopened = false -> connection s <> None -> forall q, is_Some (queries s !! q) -> q ∈ connection_queries s;
  t_fresh : forall q, is_Some (queries s !! q) -> (q < next_id s)%nat;
}.

Context (reopened : bool).
Abbreviation tracked := (tracks reopened).

Lemma tracked_put s s' q y : tracked s -> is_Some (queries s !! q) -> queries s' = <[q := y]> (queries s) ->
  connection_queries s' = connection_queries s -> connection s' = connection s -> (next_id s <= next_id s')%nat ->
  (reopened = false -> handle y <> None -> q ∈ connection_queries s) -> tracked s'.
Proof.
  intros [T1 T2 T3 T4 T5] Hq Eq El Ec En Hh. split; rewrite ?El, ?Ec, Eq || rewrite ?El; try done.
  - intros q' Hin. apply lookup_insert_is_Some'. right. by apply T2.
  - intros Hr q' y' [[-> ->]|[_ Hy]]%lookup_insert_Some; [by apply Hh|by eapply T3].
  - intros Hr Hc q' [->|Hq']%lookup_insert_is_Some'; by apply T4.
  - intros q' [->|Hq']%lookup_insert_is_Some'; eapply Nat.lt_le_trans; try apply En; by apply T5.
Qed.

Lemma tracked_same s s' : tracked s -> queries s' = queries s -> connection_queries s' = connection_queries s ->
  connection s' = connection s -> (next_id s <= next_id s')%nat -> tracked s'.
Proof.
  intros [T1 T2 T3 T4 T5] Eq El Ec En. split; rewrite ?Eq, ?El, ?Ec; try done.
  intros q Hq. eapply Nat.lt_le_trans; [by apply T5|done].
Qed.

Lemma keeps_lib {A} (f : db -> db * A) : keeps tracked (lib f : LM st A).
Proof. intros s Hs. unfold lib. destruct (f (sqlite s)) as [d a]. by apply (tracked_same s). Qed.
Lemma keeps_put_param p x : keeps tracked (put_param p x : LM st unit).
Proof. intros s Hs. by apply (tracked_same s). Qed.

Lemma keeps_stmt_handle p : keeps tracked (stmt_handle p : LM st (option stmt)).
Proof.
  intros s Hs. destruct (stmt_handle p s) as [s' r] eqn:E. unfold stmt_handle, the_param, the_query, mbind, LM_bind in E.
  destruct (parameters s !! p) as [x|]; [|by injection E as <- _]. by destruct (queries s !! stmt_ x); injection E as <- _.
Qed.

Hint Resolve keeps_bind keeps_ret keeps_throw keeps_gets keeps_the_query keeps_the_param keeps_assert keeps_lib keeps_put_param
  keeps_stmt_handle : keeps.

Lemma keeps_bind_as ty null v p : keeps tracked (bind_as ty null v p : LM st unit).
Proof.
  unfold bind_as. apply keeps_bind; [auto with keeps|]. intros [h|]; [|auto with keeps].
  apply keeps_bind; [auto with keeps|]. intros x. apply keeps_bind; [auto with keeps|]. intros rc. case (rc =? 0); auto with keeps.
Qed.
Hint Resolve keeps_bind_as : keeps.

Lemma keeps_bind_value (v : value single double) p : keeps tracked (bind_value v p : LM st unit).
Proof.
  destruct v as [v|v|v|v|v|v|v|v|v|v|v|v|v|b n]; cbn [bind_value]; unfold bind_BOOL, bind_CHAR, bind_BYTE, bind_SHORT, bind_USHORT, bind_LONG,
    bind_ULONG, bind_LONGLONG, bind_ULONGLONG, bind_FLOAT, bind_DOUBLE, bind_DATETIME, bind_STRING, bind_BLOB; auto with keeps;
    apply keeps_bind; auto with keeps; intros [h|]; auto with keeps; unfold bindNull.
  - destruct (validated v ≫= _); [case_bool_decide|]; auto with keeps.
  - case_bool_decide; auto with keeps.
  - destruct b; [destruct (0 <=? to_int n)|]; auto with keeps.
Qed.

Lemma keeps_query_finalize q : keeps tracked (query_finalize q : LM st unit).
Proof.
  intros s Hs. destruct (queries s !! q) as [y|] eqn:Hq; [|by rewrite query_finalize_gone].
  rewrite (query_finalize_spec q y s Hq). by apply (tracked_put s _ q (finalized y)).
Qed.

Lemma keeps_query_execute q sql : keeps tracked (query_execute q sql : LM st Z).
Proof.
  intros s Hs. destruct (queries s !! q) as [y|] eqn:Hq.
  2: { unfold query_execute. destruct (0 <? length sql)%nat; unfold gets, mbind, LM_bind; by rewrite query_finalize_gone. }
  destruct (decide (0 < length sql)%nat) as [Hl|Hl].
  2: { unfold query_execute. rewrite (proj2 (Nat.ltb_ge 0 _)) by lia. apply (keeps_bind tracked _ _ (keeps_query_finalize q)); [auto with keeps|done]. }
  pose proof (query_execute_spec q y sql s Hq Hl) as Hx.
  destruct (sqlite3_prepare_v2 _ _ _) as [d1 [rc h]] eqn:Ep. destruct (if rc =? SQLITE_OK then _ else _) as [d2 z].
  destruct Hx as (s' & l & -> & _ & Ec & El & Eq & En & _). eapply (tracked_put s s' q); try done. cbn. intros Hr Hh.
  destruct (connection s) as [c|] eqn:Hc; [apply Hs; by rewrite ?Hc|]. by apply prepare_null in Ep as ->.
Qed.

Lemma keeps_destroy_query q : keeps tracked (destroy_query q : LM st unit).
Proof.
  intros s Hs. destruct (queries s !! q) as [y|] eqn:Hq.
  2: { unfold destroy_query, mbind, LM_bind. by rewrite query_finalize_gone. }
  pose proof (keeps_query_finalize q s Hs) as Hs1. unfold destroy_query, mbind, LM_bind.
  rewrite (query_finalize_spec q y s Hq) in *. cbn [fst] in Hs1. set (s1 := set_queries _ _) in *. destruct Hs1 as [T1 T2 T3 T4 T5].
  unfold remove_query. destruct (list_find _ (connection_queries s1)) as [[i q']|] eqn:Ef; cbn.
  - apply list_find_Some in Ef as (Hi & -> & _). apply delete_Permutation in Hi as Hp.
    rewrite Hp in T1. apply NoDup_cons in T1 as [Hnq Hnd].
    split; cbn; [done|..].
    + intros q' Hin. rewrite lookup_delete_ne by (intros ->; done). apply T2. rewrite Hp. by right.
    + intros Hr q' z [Hne Hz]%lookup_delete_Some Hh. apply T3 in Hz; [|done..]. rewrite Hp in Hz. apply elem_of_cons in Hz as [->|]; done.
    + intros Hr Hc q' [z [Hne Hz]%lookup_delete_Some]. specialize (T4 Hr Hc q' (ex_intro _ z Hz)). rewrite Hp in T4.
      apply elem_of_cons in T4 as [->|]; done.
    + intros q' [z [Hne Hz]%lookup_delete_Some]. apply T5. by exists z.
  - assert (q ∉ connection_queries s1) as Hq1.
    { intros Hin. apply list_find_None in Ef. rewrite Forall_forall in Ef. by apply (Ef q). }
    split; cbn; [done|..].
    + intros q' Hin. rewrite lookup_delete_ne by (intros ->; done). by apply T2.
    + intros Hr q' z [Hne Hz]%lookup_delete_Some Hh. by eapply T3.
    + intros Hr Hc q' [z [Hne Hz]%lookup_delete_Some]. apply T4; [done..|by exists z].
    + intros q' [z [Hne Hz]%lookup_delete_Some]. apply T5. by exists z.
Qed.

Lemma keeps_execute_query sql : keeps tracked (execute_query sql : LM st nat).
Proof.
  intros s Hs. unfold execute_query, new_query, alloc_query, modify, mbind at 1 2. unfold LM_bind at 1 2. set (s0 := set_list _ _).
  assert (tracked s0) as Hs0.
  { destruct Hs as [T1 T2 T3 T4 T5]. assert (next_id s ∉ connection_queries s) as Hn.
    { intros Hin%T2%T5. lia. }
    split; cbn.
    - apply NoDup_app. split; [done|]. split; [|apply NoDup_singleton]. intros q Hq ->%list_elem_of_singleton. done.
    - intros q [Hq| ->%list_elem_of_singleton]%elem_of_app; apply lookup_insert_is_Some'; [right; by apply T2|by left].
    - intros Hr q y [[<- <-]|[_ Hy]]%lookup_insert_Some Hh; [done|]. apply elem_of_app. left. by eapply T3.
    - intros Hr Hc q [->|Hq]%lookup_insert_is_Some'; apply elem_of_app; [right; by left|left; by apply T4].
    - intros q [->|Hq]%lookup_insert_is_Some'; [lia|]. apply T5 in Hq. lia. }
  set (m := query_execute _ _ ≫= _).
  assert (keeps tracked m) as Hm.
  { apply keeps_bind; [apply keeps_query_execute|]. intros rc. case (rc =? 0); auto with keeps. }
  specialize (Hm s0 Hs0). unfold unwind. destruct (m s0) as [s1 [a|e|]]; cbn in *; [done| |done].
  by apply (keeps_bind tracked _ _ (keeps_destroy_query _)); [auto with keeps|].
Qed.

Lemma keeps_getNext q : keeps tracked (getNext q : LM st bool).
Proof.
  intros s Hs. unfold getNext, the_query, mbind at 1. unfold LM_bind at 1. destruct (queries s !! q) as [y|] eqn:Hq; [|done].
  unfold mbind at 1. unfold LM_bind at 1, lib. destruct (sqlite3_step (sqlite s) (handle y)) as [d rc].
  unfold set_query_state, the_query, put_query, mbind, LM_bind. cbn. rewrite Hq.
  assert (tracked (set_queries (<[q := Query (handle y) (params y) rc]> (queries s)) (set_sqlite d s))) as Ht.
  { apply (tracked_put s _ q (Query (handle y) (params y) rc)); try done. intros Hr Hh. by eapply Hs. }
  unfold assertErrorState. by destruct (_ || _).
Qed.

Lemma keeps_getData_like junk (v : value single double) q i : keeps tracked (getData_like junk v q i : LM st (value single double)).
Proof.
  assert (keeps tracked (on_row q : LM st stmt)) as Hr.
  { intros s Hs. unfold on_row, the_query, mbind, LM_bind. destruct (queries s !! q) as [y|]; [|done].
    destruct (handle y); [|done]. by destruct (query_state y =? SQLITE_ROW). }
  destruct v as [v|v|v|v|v|v|v|v|v|v|v|v|v|b n]; cbn [getData_like]; unfold getData_BOOL, getData_CHAR, getData_BYTE, getData_SHORT,
    getData_USHORT, getData_LONG, getData_ULONG, getData_LONGLONG, getData_ULONGLONG, getData_FLOAT, getData_DOUBLE, getData_DATETIME,
    getData_STRING, getData_BLOB; (apply keeps_bind; [|intros x; try (destruct x); apply keeps_ret]);
    (apply keeps_bind; [done|]); intros h; (apply keeps_bind; [apply keeps_gets|]) || apply keeps_gets; intros x; try apply keeps_ret.
  - destruct x; [apply keeps_ret|apply keeps_throw].
  - destruct x; [apply keeps_ret|apply keeps_throw].
  - destruct x as [x|]; [destruct (Date_Time_of_string _ _); [apply keeps_ret|apply keeps_throw]|apply keeps_throw].
  - apply keeps_bind; [apply keeps_gets|]. intros y. apply keeps_ret.
  - destruct (0 <=? x); [|apply keeps_ret]. apply keeps_bind; [apply keeps_gets|]. intros y. destruct y; apply keeps_ret.
Qed.

Lemma keeps_close : keeps tracked (close : LM st Z).
Proof.
  intros s [T1 T2 T3 T4 T5]. destruct (close_spec s T1 T2) as (s' & -> & _ & El & Ec & En & F1 & F2). cbn.
  assert (forall q, is_Some (queries s' !! q) -> is_Some (queries s !! q)) as Hsub.
  { intros q Hq. destruct (decide (q ∈ connection_queries s)); [by apply T2|]. by rewrite <- F2. }
  split; rewrite ?El, ?Ec, ?En; [constructor|by intros q ?%elem_of_nil| |done|intros q Hq; by apply T5, Hsub].
  intros Hr q y Hy Hh. exfalso. apply Hh. destruct (decide (q ∈ connection_queries s)) as [Hin|Hin].
  - destruct (F1 q Hin) as (z & Hz & E). congruence.
  - rewrite F2 in Hy by done. destruct (handle y) eqn:Eh; [|done]. destruct Hin. eapply T3; [done..|]. by rewrite Eh.
Qed.

(** Every query that exists is in the list. *)
Definition all_listed s : Prop := forall q, is_Some (queries s !! q) -> q ∈ connection_queries s.

Lemma open_tracked name flags s : tracked s -> (reopened = false -> all_listed s) -> tracked (open name flags s).1.
Proof.
  intros [T1 T2 T3 T4 T5] Hl. unfold open, connection_finalize, gets, lib, lib_, modify, mbind, LM_bind.
  destruct (connection s) as [c|]; cbn; destruct (sqlite3_open_v2 _ _ _) as [d [rc c']]; destruct (rc =? 0); split; cbn; auto;
    intros Hr _; by apply Hl.
Qed.

(** The calls a program makes of a connection, its queries and their parameters. *)
Inductive call :=
| CExecute (sql : text) | CExecuteAgain (q : nat) (sql : text) | CGetNext (q : nat) | CBind (v : value single double) (p : nat)
| CGetData (junk : Z * Z) (v : value single double) (q : nat) (i : Z) | CDrop (q : nat) | CClose | COpen (name : text) (flags : Z).

Definition run_call (c : call) (s : st) : st :=
  match c with
  | CExecute sql => (execute_query sql s).1
  | CExecuteAgain q sql => (query_execute q sql s).1
  | CGetNext q => (getNext q s).1
  | CBind v p => (bind_value v p s).1
  | CGetData junk v q i => (getData_like junk v q i s).1
  | CDrop q => (destroy_query q s).1
  | CClose => (close s).1
  | COpen name flags => (open name flags s).1
  end.

(** Whenever the connection is opened, no query is held that it has forgotten when it was closed. *)
Fixpoint none_left_over (calls : list call) s : Prop :=
  match calls with
  | [] => True
  | c :: calls => match c with COpen _ _ => all_listed s | _ => True end /\ none_left_over calls (run_call c s)
  end.

Lemma run_call_tracked c s : tracked s -> (reopened = false -> match c with COpen _ _ => all_listed s | _ => True end) -> tracked (run_call c s).
Proof.
  intros Hs Hl. destruct c; cbn; [by apply keeps_execute_query|by apply keeps_query_execute|by apply keeps_getNext|by apply keeps_bind_value
    |by apply keeps_getData_like|by apply keeps_destroy_query|by apply keeps_close|by apply open_tracked].
Qed.

Lemma run_calls_tracked calls : forall s, tracked s -> (reopened = false -> none_left_over calls s) -> tracked (foldl (fun s c => run_call c s) s calls).
Proof.
  induction calls as [|c calls IH]; [done|]. intros s Hs Hl. cbn [foldl]. apply IH; [apply run_call_tracked; [done|]|]; intros Hr; by apply Hl.
Qed.

Lemma new_tracked s : queries s = ∅ -> connection_queries s = [] -> tracked s.
Proof. intros Hq Hl. split; rewrite ?Hq, ?Hl; [constructor|by intros q ?%elem_of_nil|by intros|by intros _ _ q []|by intros q []]. Qed.
End tracking.

Section connection.
Context {db conn stmt single double : Type} `{SQLite db conn stmt double, Floats single double, AceMinMax}.
Context (prepare_null : forall d sql d' rc h, sqlite3_prepare_v2 d (None : option conn) sql = (d', (rc, h)) -> h = (None : option stmt)).

(** C27 (invariant). Whatever calls are made of a new connection, of its queries and of their parameters, opening and closing it and
    exceptions included: its list has queries that exist, once each, and closing the connection returns 0, clears the list and takes the
    statement of every query of the list.  As long as the connection is not opened again while a query is held that it forgot when it was closed,
    the list has every query that has a statement and, while the connection is open, every query that exists, so that the close leaves no query
    with a statement. *)
Theorem connection_tracks_queries (calls : list (call (single := single) (double := double))) (s : state db conn stmt) : queries s = ∅ -> connection_queries s = [] ->
  let s1 := foldl (fun s c => run_call c s) s calls in
  tracks true s1 /\ (none_left_over calls s -> tracks false s1) /\
  exists s2, close s1 = (s2, LOk 0) /\ connection s2 = None /\ connection_queries s2 = []
    /\ (forall q, q ∈ connection_queries s1 -> exists y, queries s2 !! q = Some y /\ handle y = None)
    /\ (none_left_over calls s -> forall q y, queries s2 !! q = Some y -> handle y = None).
Proof.
  intros Hq Hl s1. assert (tracks true s1) as Ht by (by apply run_calls_tracked; [done|by apply new_tracked|]).
  assert (none_left_over calls s -> tracks false s1) as Hf by (intros Hn; by apply run_calls_tracked; [done|by apply new_tracked|]).
  split; [done|]. split; [done|]. destruct (close_spec _ (t_nodup _ _ Ht) (t_live _ _ Ht)) as (s2 & E & _ & El & Ec & _ & Ef & _).
  exists s2. split_and!; try done. intros Hn q y Hy. destruct (handle y) eqn:Eh; [|done].
  pose proof (keeps_close false _ (Hf Hn)) as Hc. rewrite E in Hc. cbn in Hc.
  assert (q ∈ connection_queries s2) as Hin by (eapply Hc; [done..|]; by rewrite Eh). rewrite El in Hin. by apply elem_of_nil in Hin.
Qed.
End connection.

(** ** A small SQL engine

    A text that begins with S selects the values of its parameters as one row; any other
    appends them to the table. *)

Module TinySql.
Abbreviation tval := (sql_value Z).
Record program := Program { selects : bool; slots : list tval; row : option (list tval) }.
Record tiny := Tiny { table : list (list tval); programs : gmap nat program; used : nat }.

Definition set_program (d : tiny) (h : nat) (p : program) : tiny := Tiny (table d) (<[h := p]> (programs d)) (used d).
Definition tiny_binding (d : tiny) (h : nat) (i : Z) : tval :=
  match programs d !! h with Some p => default SNull (slots p !! Z.to_nat (i - 1)) | None => SNull end.
Definition tiny_column (d : tiny) (h : nat) (i : Z) : tval :=
  match programs d !! h with Some p => default SNull (default [] (row p) !! Z.to_nat i) | None => SNull end.
Definition tiny_effect (d : tiny) (h : nat) : option (list (list tval) -> list (list tval)) :=
  match programs d !! h with
  | Some p => if selects p then None else Some (fun t => t ++ [slots p])
  | None => None
  end.
Definition int64_of (v : tval) : Z := match v with SInt z => z | _ => 0 end.

#[export] Instance tiny_sqlite : SQLite tiny unit nat Z := {|
  sqlite3_open_v2 d name flags := (d, (if bool_decide (name = []) then SQLITE_ERROR else SQLITE_OK, Some tt));
  sqlite3_close_v2 d c := d;
  sqlite3_prepare_v2 d c sql :=
    match c with
    | Some _ => (Tiny (table d) (<[used d := Program (bool_decide (char_at sql 0 = "S"%char))
                    (replicate (length (filter (fun x => x = "?"%char) sql)) SNull) None]> (programs d)) (S (used d)),
                 (SQLITE_OK, Some (used d)))
    | None => (d, (SQLITE_MISUSE, None))
    end;
  sqlite3_reset d h :=
    match h with
    | Some h => match programs d !! h with
                | Some p => (set_program d h (Program (selects p) (slots p) None), SQLITE_OK)
                | None => (d, SQLITE_MISUSE)
                end
    | None => (d, SQLITE_OK)
    end;
  sqlite3_step d h :=
    match h ≫= (fun h => pair h <$> programs d !! h) with
    | Some (h, p) =>
        if selects p then
          match row p with
          | None => (set_program d h (Program true (slots p) (Some (slots p))), SQLITE_ROW)
          | Some _ => (set_program d h (Program true (slots p) None), SQLITE_DONE)
          end
        else (Tiny (table d ++ [slots p]) (programs d) (used d), SQLITE_DONE)
    | None => (d, SQLITE_MISUSE)
    end;
  sqlite3_finalize d h := Tiny (table d) (base.delete h (programs d)) (used d);
  sqlite3_bind_parameter_count d h :=
    match h ≫= (fun h => programs d !! h) with Some p => Z.min INT_MAX (Z.of_nat (length (slots p))) | None => 0 end;
  sqlite3_bind_parameter_name d h i := None;
  sqlite3_bind_parameter_index d h n := 0;
  sqlite3_bind d h i v :=
    match programs d !! h with
    | Some p => if (1 <=? i) && (i <=? Z.of_nat (length (slots p))) then
                  (set_program d h (Program (selects p) (<[Z.to_nat (i - 1) := v]> (slots p)) (row p)), SQLITE_OK)
                else (d, 25)
    | None => (d, SQLITE_MISUSE)
    end;
  sqlite3_column_count d h := 0;
  sqlite3_column_name d h i := None;
  sqlite3_column_type d h i := match h with
    | Some h => match tiny_column d h i with SInt _ => 1 | SReal _ => 2 | SText _ => 3 | SBlob _ => 4 | SNull => 5 end
    | None => 0
    end;
  sqlite3_column_int d h i := to_int (int64_of (tiny_column d h i));
  sqlite3_column_int64 d h i := int64_of (tiny_column d h i);
  sqlite3_column_double d h i := match tiny_column d h i with SReal r => r | _ => 0 end;
  sqlite3_column_text d h i := match tiny_column d h i with
    | SText t => Some t | SInt z => Some (fmt_int 0 z) | SBlob b => Some b | SReal r => Some (fmt_int 0 r) | SNull => None end;
  sqlite3_column_bytes d h i := match tiny_column d h i with
    | SText t | SBlob t => Z.of_nat (length t) | SInt z | SReal z => Z.of_nat (length (fmt_int 0 z)) | SNull => 0 end;
  sqlite3_column_blob d h i := match tiny_column d h i with
    | SText t | SBlob t => if bool_decide (t = []) then None else Some t | _ => None end;
  sqlite3_changes d c := 0;
  sqlite3_last_insert_rowid d c := 0;
|}.

#[export] Instance tiny_floats : Floats Z Z := {| to_double x := x; to_single x := x; single_double x := eq_refl |}.

#[export] Instance tiny_laws : SQLiteLaws tiny unit nat Z tiny_binding tiny_column (fun _ => false).
Proof.
  split.
  - intros d h i v d'. cbn. unfold tiny_binding. destruct (programs d !! h) as [p|] eqn:Ep; [|done].
    destruct ((1 <=? i) && _) eqn:Ei; [|done]. apply andb_true_iff in Ei as [E1%Z.leb_le E2%Z.leb_le].
    intros [= <-] _. cbn. rewrite lookup_insert_eq. cbn. rewrite list_lookup_insert_eq by lia. done.
  - done.
  - done.
  - done.
  - intros d h i z Hc _. cbn. by rewrite Hc.
  - intros d h i r Hc. cbn. by rewrite Hc.
  - intros d h i. cbn. by destruct (tiny_column d h i).
  - intros d h i Hc. cbn. by rewrite Hc.
Qed.

#[export] Instance tiny_runs : SQLiteRuns tiny unit nat Z (list (list tval)) table tiny_effect.
Proof.
  split.
  - intros d h f. cbn. unfold tiny_effect. destruct (programs d !! h) as [p|]; [|done]. cbn. destruct (selects p); [done|].
    intros [= <-]. eexists. split; [done|]. by split.
  - intros d h. split; [done|]. intros h' Hne. unfold tiny_effect. cbn. by rewrite lookup_delete_ne.
  - intros d [c|] sql; done.
  - intros d [h|]; [|done]. cbn. by destruct (programs d !! h).
  - done.
Qed.

Lemma tiny_prepare_null d sql d' rc h : sqlite3_prepare_v2 d (None : option unit) sql = (d', (rc, h)) -> h = (None : option nat).
Proof. by intros [= _ _ <-]. Qed.
End TinySql.

(** ** Witnesses *)

Module LdbcExamples.
Import TinySql.
#[local] Existing Instance ace_min_max_std.
#[local] Existing Instance ace_min_max_std_laws.

(** An open connection to an empty table. *)
Definition opened : state tiny unit nat := State (Tiny [] ∅ 0) (Some tt) (str "simple.db") [] ∅ ∅ 0.

(** "SELECT ?,?" with its query 0 and the parameters 1 (of index 2) and 2 (of index 1). *)
Definition selecting : state tiny unit nat := (execute_query (str "SELECT ?,?") opened).1.
Definition inserting : state tiny unit nat := (execute_query (str "INSERT ?") opened).1.

Lemma parameters_numbered_witness : exists y, queries selecting !! 0%nat = Some y
  /\ exists p nm, param_at 0 2 selecting = (selecting, LOk p) /\ parameters selecting !! p = Some (Param 0 false 2 PT_UNKNOWN nm).
Proof.
  pose (x := Query None [] SQLITE_OK : query nat).
  pose (s0 := State (Tiny [] ∅ 0) (Some tt) (str "simple.db") [0%nat] {[ 0%nat := x ]} ∅ 1 : state tiny unit nat).
  destruct (parameters_numbered 0 x (str "SELECT ?,?") s0 selecting SQLITE_OK) as (y & Hy & Hp & _); [by vm_compute..| |].
  - intros h. change (sqlite selecting) with (sqlite selecting). unfold sqlite3_bind_parameter_count, tiny_sqlite.
    destruct (h ≫= _); unfold INT_MAX; lia.
  - exists y. split; [exact Hy|]. apply Hp. vm_compute in Hy. injection Hy as <-. vm_compute. split; discriminate.
Defined.

Definition bound : state tiny unit nat := (bind_value (VULong 4294967295 : value Z Z) 2 selecting).1.

(** Read back on the row. *)
Lemma bound_value_reads_back_witness :
  getData_like (0, 0) (VULong 4294967295 : value Z Z) 0 0 (getNext 0 bound).1 = ((getNext 0 bound).1, LOk (VULong 4294967295)).
Proof.
  destruct (bound_value_reads_back tiny_binding tiny_column (fun _ => false) (VULong 4294967295) 2 selecting bound) as (x & h & Hx & Hr);
    [cbn; lia|by vm_compute|].
  destruct Hx as (Ex & y & Ey & Eh). assert (x = Param 0 false 1 PT_UNKNOWN []) as -> by (vm_compute in Ex; by injection Ex as <-).
  assert (h = 0%nat) as -> by (vm_compute in Ey; injection Ey as <-; by injection Eh as <-).
  apply (Hr (0, 0) (getNext 0 bound).1 0%nat (Query (Some 0%nat) [Some 2%nat; Some 1%nat] 100) 0%nat 0); by vm_compute.
Defined.

Lemma no_row_no_data_witness :
  getData_like (0, 0) (VShort 3 : value Z Z) 0 0 selecting = (selecting, LThrow IllegalUseException).
Proof.
  apply (no_row_no_data (0, 0) (VShort 3) 0 (Query (Some 0%nat) [Some 2%nat; Some 1%nat] 0) 0 1 (Param 0 false 2 PT_UNKNOWN []) selecting);
    [by vm_compute|by right|by vm_compute].
Defined.

Lemma query_runs_when_dropped_witness :
  table (sqlite inserting) = [] /\ exists s2 s3, getNext 0 inserting = (s2, LOk false) /\ destroy_query 0 s2 = (s3, LOk tt)
  /\ table (sqlite s3) = [[SNull]; [SNull]].
Proof.
  destruct (query_runs_when_dropped table tiny_effect (str "INSERT ?") opened inserting 0%nat (Query (Some 0%nat) [Some 1%nat] 0) 0%nat
    (fun t => t ++ [[SNull]])) as (E1 & _ & s2 & s3 & E2 & _ & E3 & E4); [by vm_compute..|].
  split; [exact E1|]. exists s2, s3. split; [exact E2|]. split; [exact E3|]. rewrite E4. reflexivity.
Defined.

(** Two inserts that nobody has dropped when the connection is closed. *)
Definition two_inserts : state tiny unit nat := (execute_query (str "INSERT ?,?") inserting).1.

Lemma two_inserts_queries : queries two_inserts = <[2%nat := Query (Some 1%nat) [Some 4%nat; Some 3%nat] 0]>
    {[ 0%nat := Query (Some 0%nat) [Some 1%nat] 0 ]}.
Proof. by vm_compute. Qed.

Lemma two_inserts_handles q :
  handle_of two_inserts q = (if decide (q = 0%nat) then Some 0%nat else if decide (q = 2%nat) then Some 1%nat else None).
Proof.
  unfold handle_of. rewrite two_inserts_queries.
  destruct (decide (q = 2%nat)) as [->|H2]; [by rewrite lookup_insert_eq|]. rewrite lookup_insert_ne by done.
  destruct (decide (q = 0%nat)) as [->|H0]; [by rewrite lookup_singleton_eq|]. by rewrite lookup_singleton_ne.
Qed.

Lemma close_runs_outstanding_witness :
  exists s', close two_inserts = (s', LOk 0) /\ table (sqlite s') = [[SNull; SNull]; [SNull]].
Proof.
  assert (programs (sqlite two_inserts) !! 0%nat = Some (Program false [SNull] None)) as P0 by (by vm_compute).
  assert (programs (sqlite two_inserts) !! 1%nat = Some (Program false [SNull; SNull] None)) as P2 by (by vm_compute).
  destruct (close_runs_outstanding table tiny_effect two_inserts
    (fun q t => t ++ [if bool_decide (q = 0%nat) then [SNull] else [SNull; SNull]])) as (s' & E & E1 & _).
  - change (connection_queries two_inserts) with [0%nat; 2%nat]. apply NoDup_cons. split; [|apply NoDup_singleton].
    intros [=]%list_elem_of_singleton.
  - change (connection_queries two_inserts) with [0%nat; 2%nat].
    intros q [->|[->|Hin]%elem_of_cons]%elem_of_cons. 3: destruct (proj1 (elem_of_nil _) Hin).
    all: rewrite two_inserts_queries; by eexists.
  - intros q q' h. rewrite !two_inserts_handles. repeat case_decide; congruence.
  - change (connection_queries two_inserts) with [0%nat; 2%nat].
    intros q [->|[->|Hin]%elem_of_cons]%elem_of_cons; [..|destruct (proj1 (elem_of_nil _) Hin)];
      rewrite two_inserts_handles; cbn; unfold tiny_effect; by rewrite ?P0, ?P2.
  - exists s'. split; [exact E|]. rewrite E1. reflexivity.
Defined.

Lemma connection_tracks_queries_witness :
  tracks false (foldl (fun s c => run_call c s) opened [CExecute (str "INSERT ?"); CBind (VLong 7 : value Z Z) 1; CGetNext 0; CDrop 0; CClose; COpen (str "a.db") 6]).
Proof.
  assert (Hn : none_left_over [CExecute (str "INSERT ?"); CBind (VLong 7 : value Z Z) 1; CGetNext 0; CDrop 0; CClose; COpen (str "a.db") 6] opened).
  { repeat split. intros q [y Hy]. exfalso. vm_compute in Hy. by destruct q. }
  apply (connection_tracks_queries tiny_prepare_null _ opened eq_refl eq_refl). exact Hn.
Defined.

(** A query of before the close that is executed on the connection opened again has a statement that the next close does not take: the query is not put
    in the list once more. *)
Lemma reopened_leaves_statement : exists s y,
  s = foldl (fun s c => run_call c s) opened [CExecute (str "INSERT ?"); CClose; COpen (str "a.db") 6; CExecuteAgain 0 (str "INSERT ?") : call (single := Z) (double := Z); CClose] /\
  connection s = None /\ queries s !! 0%nat = Some y /\ handle y <> None.
Proof. eexists _, _. split; [reflexivity|]. split; [by vm_compute|]. split; [vm_compute; reflexivity|]. done. Qed.

(** The letter A comes back as the digit 6, of 65. *)
Example char_reads_first_digit : read_back (VChar 65 : value Z Z) = VChar 54.
Proof. by vm_compute. Qed.
End LdbcExamples.
