(* ===== verification/Cdr.v ===== *)
(** * Encoded streams: TAF/taf/CDRStream

    The typed reads and writes of the two stream classes, which swap bytes when the stream's
    order is not the machine's, and the copy of a stream's chain of message blocks.  Bytes are
    numbers below 256; the machine is little-endian.  The streams themselves are TAO's. *)

From S2P Require Import Prelude.

(** ** Numbers as bytes *)

Fixpoint le_bytes (n : nat) (z : Z) : list Z :=
  match n with
  | O => []
  | S n => z mod 256 :: le_bytes n (z / 256)
  end.
Fixpoint le_value (l : list Z) : Z :=
  match l with
  | [] => 0
  | b :: l => b + 256 * le_value l
  end.
Definition be_bytes (n : nat) (z : Z) : list Z := rev (le_bytes n z).
Definition be_value (l : list Z) : Z := le_value (rev l).

(** ** Operations *)

(** TAF/taf/CDRStream.h:53-57 [OutputCDR::write]. Two bytes exchanged by three exclusive ors. *)
Definition xor_swap (i j : nat) (s : list Z) : list Z :=
  let at_ s k := nth k s 0 in
  let s := <[i := Z.lxor (at_ s i) (at_ s j)]> s in
  let s := <[j := Z.lxor (at_ s j) (at_ s i)]> s in
  <[i := Z.lxor (at_ s i) (at_ s j)]> s.

(** TAF/taf/CDRStream.h:53-57 [OutputCDR::write]. *)
Fixpoint swap_loop (fuel i j : nat) (s : list Z) : list Z :=
  match fuel with
  | O => s
  | S fuel => if (i <? j)%nat then swap_loop fuel (i + 1) (j - 1) (xor_swap i j s) else s
  end.

(** TAF/taf/CDRStream.h:46-62 [OutputCDR::write]. What is put in the stream for a value of [n] bytes. *)
Definition write_value (swap : bool) (n : nat) (t : Z) : list Z :=
  let s := le_bytes n t in if swap then swap_loop n 0 (n - 1) s else s.

(** TAF/taf/CDRStream.h:72-89 [InputCDR::read]. The value read from [n] bytes of the stream. *)
Definition read_value (swap : bool) (s : list Z) : Z :=
  le_value (if swap then swap_loop (length s) 0 (length s - 1) s else s).

(** TAF/taf/CDRStream.cpp:47-57 [OutputCDR::copy_buffer]. *)
Fixpoint copy_loop (blocks : list (list Z)) (buf : list Z) (total buf_length : Z) : result (Z * list Z) :=
  match blocks with
  | [] => Ok (total, buf)
  | b :: blocks =>
      let total := total + Z.of_nat (length b) in
      if buf_length <? total then Throw IndexOutOfRange
      else copy_loop blocks (buf ++ b) total buf_length
  end.

(** TAF/taf/CDRStream.cpp:40-63 [OutputCDR::copy_buffer]. The count that is returned and what is in the buffer. *)
Definition copy_buffer (blocks : list (list Z)) (buf_length : Z) : result (Z * list Z) :=
  if buf_length =? 0 then Ok (0, []) else copy_loop blocks [] 0 buf_length.

(** ** Lemmas *)

Lemma le_bytes_length n z : length (le_bytes n z) = n.
Proof. revert z. induction n as [|n IH]; intros z; cbn; [done|by rewrite IH]. Qed.

Lemma be_bytes_length n z : length (be_bytes n z) = n.
Proof. unfold be_bytes. by rewrite length_rev, le_bytes_length. Qed.

Lemma le_bytes_byte n z : Forall is_byte (le_bytes n z).
Proof.
  revert z. induction n as [|n IH]; intros z; cbn; constructor; [|apply IH]. unfold is_byte. apply Z.mod_pos_bound. lia.
Qed.

Lemma le_value_bytes n z : 0 <= z < 256 ^ Z.of_nat n -> le_value (le_bytes n z) = z.
Proof.
  revert z. induction n as [|n IH]; intros z Hz.
  - cbn in *. lia.
  - cbn [le_bytes le_value]. rewrite IH; [pose proof (Z.div_mod z 256); lia|].
    rewrite Nat2Z.inj_succ, Z.pow_succ_r in Hz by lia.
    split; [apply Z.div_pos; lia|]. apply Z.div_lt_upper_bound; lia.
Qed.

Lemma be_value_bytes n z : 0 <= z < 256 ^ Z.of_nat n -> be_value (be_bytes n z) = z.
Proof. intros Hz. unfold be_value, be_bytes. rewrite rev_involutive. by apply le_value_bytes. Qed.

Lemma xor_swap_spec pre a mid b post :
  xor_swap (length pre) (length (pre ++ a :: mid)) (pre ++ a :: mid ++ b :: post) = pre ++ b :: mid ++ a :: post.
Proof.
  unfold xor_swap.
  assert (forall x y, nth (length pre) (pre ++ x :: mid ++ y :: post) 0 = x) as Hi.
  { intros x y. rewrite app_nth2, Nat.sub_diag by lia. done. }
  assert (forall x y, nth (length (pre ++ a :: mid)) (pre ++ x :: mid ++ y :: post) 0 = y) as Hj.
  { intros x y. rewrite app_nth2 by (rewrite length_app; lia). rewrite length_app. cbn [length].
    replace (length pre + S (length mid) - length pre)%nat with (S (length mid)) by lia. cbn [nth].
    rewrite app_nth2, Nat.sub_diag by lia. done. }
  assert (forall x y z, <[length pre := z]> (pre ++ x :: mid ++ y :: post) = pre ++ z :: mid ++ y :: post) as Wi.
  { intros x y z. by rewrite insert_app_r_alt, Nat.sub_diag by lia. }
  assert (forall x y z, <[length (pre ++ a :: mid) := z]> (pre ++ x :: mid ++ y :: post) = pre ++ x :: mid ++ z :: post) as Wj.
  { intros x y z. change (<[length (pre ++ a :: mid) := z]> (pre ++ (x :: mid) ++ y :: post) = pre ++ (x :: mid) ++ z :: post).
    rewrite !(app_assoc pre).
    assert (length (pre ++ a :: mid) = length (pre ++ x :: mid)) as -> by (by rewrite !length_app).
    by rewrite insert_app_r_alt, Nat.sub_diag by lia. }
  repeat (rewrite ?Hi, ?Hj, ?Wi, ?Wj). f_equal. f_equal; [|f_equal; f_equal].
  all: apply Z.bits_inj'; intros k _; rewrite !Z.lxor_spec; by destruct (Z.testbit a k), (Z.testbit b k).
Qed.

(** The exchanges reverse the bytes. *)
Lemma swap_loop_rev fuel pre mid post : (length mid <= fuel)%nat ->
  swap_loop fuel (length pre) (length pre + length mid - 1) (pre ++ mid ++ post) = pre ++ rev mid ++ post.
Proof.
  revert pre mid post. induction fuel as [|fuel IH]; intros pre mid post Hf.
  { destruct mid; [done|simpl in Hf; lia]. }
  cbn [swap_loop]. destruct mid as [|a mid].
  { rewrite (proj2 (Nat.ltb_ge _ _)) by (simpl; lia). done. }
  destruct mid as [|b mid _] using rev_ind.
  { rewrite (proj2 (Nat.ltb_ge _ _)) by (simpl; lia). done. }
  assert (length (a :: mid ++ [b]) = S (S (length mid))) as El by (cbn; rewrite length_app; simpl; lia).
  rewrite El in *. rewrite (proj2 (Nat.ltb_lt _ _)) by lia.
  replace (length pre + S (S (length mid)) - 1)%nat with (length (pre ++ a :: mid)) by (rewrite length_app; simpl; lia).
  replace (pre ++ (a :: mid ++ [b]) ++ post) with (pre ++ a :: mid ++ b :: post) by (by rewrite <- app_comm_cons, <- app_assoc).
  rewrite xor_swap_spec. replace (length pre + 1)%nat with (length (pre ++ [b])) by (rewrite length_app; simpl; lia).
  replace (length (pre ++ a :: mid) - 1)%nat with (length (pre ++ [b]) + length mid - 1)%nat by (rewrite !length_app; simpl; lia).
  change (b :: mid ++ a :: post) with ([b] ++ mid ++ a :: post). rewrite (app_assoc pre).
  rewrite IH by lia. cbn [rev]. rewrite rev_app_distr. cbn. by rewrite <- !app_assoc.
Qed.

Lemma swap_all s : swap_loop (length s) 0 (length s - 1) s = rev s.
Proof.
  pose proof (swap_loop_rev (length s) [] s [] (le_n _)) as E. cbn in E. rewrite !app_nil_r in E. done.
Qed.

(** A swapped stream is the big-endian encoding, and reading it swapped gives the value back. *)
Lemma write_value_big_endian n t : write_value true n t = be_bytes n t.
Proof. unfold write_value, be_bytes. rewrite <- (le_bytes_length n t) at 1 2. apply swap_all. Qed.

Lemma copy_loop_spec blocks buf total len : 0 <= total <= len -> copy_loop blocks buf total len
  = (if len <? total + Z.of_nat (length (concat blocks)) then Throw IndexOutOfRange
     else Ok (total + Z.of_nat (length (concat blocks)), buf ++ concat blocks)).
Proof.
  revert buf total. induction blocks as [|b blocks IH]; intros buf total Ht; cbn [copy_loop concat].
  - rewrite app_nil_r, Z.add_0_r. by rewrite (proj2 (Z.ltb_ge _ _)) by lia.
  - rewrite length_app, Nat2Z.inj_add, Z.add_assoc. destruct (Z.ltb_spec len (total + Z.of_nat (length b))) as [Hl|Hl].
    + by rewrite (proj2 (Z.ltb_lt _ _)) by lia.
    + rewrite IH by lia. by rewrite app_assoc.
Qed.

(** The whole chain, when it fits. *)
Lemma copy_buffer_all blocks : (0 < length (concat blocks))%nat ->
  copy_buffer blocks (Z.of_nat (length (concat blocks))) = Ok (Z.of_nat (length (concat blocks)), concat blocks).
Proof.
  intros Hl. unfold copy_buffer. rewrite (proj2 (Z.eqb_neq _ 0)) by lia. rewrite copy_loop_spec by lia.
  by rewrite (proj2 (Z.ltb_ge _ _)) by lia.
Qed.

(** A value written to a stream and read from one of the same order comes back,
    swapped or not; swapped, the bytes of the stream are the big-endian encoding of the value. *)
Theorem cdr_value_roundtrip swap n t : 0 <= t < 256 ^ Z.of_nat n ->
  read_value swap (write_value swap n t) = t /\ write_value true n t = be_bytes n t /\ Forall is_byte (write_value swap n t).
Proof.
  intros Ht. split; [|split; [apply write_value_big_endian|]].
  - destruct swap.
    + unfold read_value. rewrite write_value_big_endian, swap_all. by apply be_value_bytes.
    + by apply le_value_bytes.
  - destruct swap; [rewrite write_value_big_endian; unfold be_bytes; apply Forall_rev|]; apply le_bytes_byte.
Qed.

Lemma cdr_value_roundtrip_witness : read_value true (write_value true 4 305419896) = 305419896.
Proof. apply (cdr_value_roundtrip true 4 305419896). cbn. lia. Defined.

(** Buffers that are too short are refused. *)
Lemma copy_buffer_spec blocks len : 0 <= len -> copy_buffer blocks len =
  if len =? 0 then Ok (0, [])
  else if len <? Z.of_nat (length (concat blocks)) then Throw IndexOutOfRange
  else Ok (Z.of_nat (length (concat blocks)), concat blocks).
Proof. intros Hl. unfold copy_buffer. destruct (len =? 0); [done|]. by rewrite copy_loop_spec by lia. Qed.
