(* ===== verification/Discovery.v ===== *)
(** * Discovery of services: TAF/taf/extensions/discovery, TAF/taf/IORQueryRepository, IORQueryServant

    A client multicasts a query with the name of a service and the port it listens on; every
    server that has the service replies with the object's reference.  Queries and replies are
    datagrams: a frame length, then the CDR encoding of the structures of Discovery.idl.  The
    code of those structures is generated when the program is built: [DiscoveryStubs] has the
    encoders and decoders, [DiscoveryStubsLaws] says they belong together.  A socket is the queue
    of the datagrams that have arrived: peeking at one leaves it, receiving takes it off. *)

From S2P Require Import Prelude CString Text Cdr.
From Stdlib Require Import Ascii.

Abbreviation text := (list ascii).
Abbreviation bytes := (list Z).

(** ** The repository of services *)

(** What a CORBA call may throw. *)
Inductive corba (A : Type) := COk (a : A) | CThrow.
Arguments COk {A} a.
Arguments CThrow {A}.

(** TAF/taf/IORQueryServant.h:40-56 [IORQueryServant]. *)
Record IORQueryServant (Obj : Type) := Servant { object : option Obj; ident : text }.
Arguments Servant {Obj}.
Arguments object {Obj}.
Arguments ident {Obj}.

Section repository.
Context {Obj : Type}.
Abbreviation servant := (IORQueryServant Obj).

(** TAF/taf/IORQueryRepository.cpp:63-69 [IORServantRepository::registerQueryService]. *)
Fixpoint put_servant (p : Obj) (id : text) (l : list servant) : list servant :=
  match l with
  | [] => [Servant (Some p) id]
  | x :: l => if bool_decide (id = ident x) then Servant (Some p) (ident x) :: l else x :: put_servant p id l
  end.

(** TAF/taf/IORQueryRepository.cpp:52-75 [IORServantRepository::registerQueryService]. *)
Definition registerQueryService (p : option Obj) (name : text) (l : list servant) : Z * list servant :=
  let id := trim name in
  match p with
  | Some p => if bool_decide (id = []) then (-1, l) else (0, put_servant p id l)
  | None => (-1, l)
  end.

(** TAF/taf/IORQueryRepository.cpp:88-92 [IORServantRepository::unregisterQueryService]. *)
Fixpoint drop_servant (id : text) (l : list servant) : option (list servant) :=
  match l with
  | [] => None
  | x :: l => if bool_decide (id = ident x) then Some l else cons x <$> drop_servant id l
  end.

(** TAF/taf/IORQueryRepository.cpp:77-98 [IORServantRepository::unregisterQueryService]. *)
Definition unregisterQueryService (name : text) (l : list servant) : Z * list servant :=
  let id := trim name in
  if bool_decide (id = []) then (-1, l)
  else match drop_servant id l with Some l => (0, l) | None => (-1, l) end.

(** [_is_a] of an object: it may throw. *)
Context (is_a : Obj -> text -> corba bool).

(** TAF/taf/IORQueryServant.cpp:48-67 [IORQueryServant::is_ident]. *)
Definition is_ident (x : servant) (id : text) : corba bool :=
  if bool_decide (id = []) then COk false
  else match object x with
       | None => CThrow
       | Some p => if bool_decide (id = ident x) then COk true
                   else match is_a p (c_str id) with COk b => COk b | CThrow => CThrow end
       end.
End repository.

(** ** Datagrams *)

(** TAF/taf/extensions/discovery/Discovery.idl:33-37 [IORQuery]. *)
Record IORQuery := Query { svc_port : Z; svc_flags : Z; svc_ident : text }.
(** TAF/taf/extensions/discovery/Discovery.idl:39-42 [IORReply]. *)
Record IORReply (Obj : Type) := Reply { reply_ident : text; svc_obj : Obj }.
Arguments Reply {Obj}.
Arguments reply_ident {Obj}.
Arguments svc_obj {Obj}.

(** TAF/taf/extensions/discovery/DiscoveryHandler.h:39-39 [MIN_IOR_REPLY_LENGTH]. ACE_CDR::MAX_ALIGNMENT. *)
Definition MIN_IOR_REPLY_LENGTH : Z := 16.
(** TAF/taf/extensions/discovery/DiscoveryHandler.h:40-40 [MAX_IOR_REPLY_LENGTH]. *)
Definition MAX_IOR_REPLY_LENGTH : Z := 4096.

(** The generated code: what is written after the four bytes of the frame's length, and what is
    read from what follows them. *)
Class DiscoveryStubs (Obj : Type) := {
  write_query : IORQuery -> bytes;
  read_query : bytes -> option IORQuery;
  write_reply : IORReply Obj -> bytes;
  read_reply : bytes -> option (IORReply Obj);
  blocks_of : bytes -> list bytes;            (* how a stream keeps what is written *)
}.

Class DiscoveryStubsLaws (Obj : Type) `{DiscoveryStubs Obj} : Prop := {
  read_write_query : forall q, 0 <= svc_port q < 65536 -> 0 <= svc_flags q < 65536 -> NUL ∉ svc_ident q ->
    Z.of_nat (length (write_query q)) <= MAX_IOR_REPLY_LENGTH -> read_query (write_query q) = Some q;
  read_write_reply : forall r, NUL ∉ reply_ident r ->
    Z.of_nat (length (write_reply r)) <= MAX_IOR_REPLY_LENGTH -> read_reply (write_reply r) = Some r;
  blocks_concat : forall l, concat (blocks_of l) = l;
}.

(** An address on the network: host and port. *)
Record addr := Addr { host : Z; port : Z }.
Definition datagram : Type := bytes * addr.

(** recv with MSG_PEEK: at most [n] bytes of the datagram at the front. *)
Definition peek (sock : list datagram) (n : nat) : option bytes := (fun d => take n d.1) <$> head sock.
(** recv: what does not fit is lost. *)
Definition recv (sock : list datagram) (n : nat) : option (bytes * addr) * list datagram :=
  match sock with
  | [] => (None, [])
  | (d, a) :: sock => (Some (take n d, a), sock)
  end.

Section discovery.
Context {Obj : Type} `{DiscoveryStubs Obj, AceMinMax}.
Abbreviation servant := (IORQueryServant Obj).

(** A frame: the length of the whole, big-endian, and what follows. *)
Definition frame (body : bytes) : bytes := be_bytes 4 (4 + Z.of_nat (length body)) ++ body.

(** TAF/taf/extensions/discovery/DiscoveryHandler.cpp:231-249 [DiscoveryHandler::sendIORQuery]. The datagram, and -1 when there is none. *)
Definition sendIORQuery (reply_port : Z) (id : option text) : option bytes :=
  match id with
  | Some id =>
      let id := c_str id in
      if bool_decide (id = []) then None
      else
        let os := frame (write_query (Query (reply_port mod 65536) 0 id)) in
        let iov_len := Z.of_nat (length os) in
        match copy_buffer (blocks_of os) iov_len with
        | Ok (cpy_len, iov) => if cpy_len =? iov_len then Some iov else None
        | Throw _ => None
        end
  | None => None
  end.

(** TAF/taf/extensions/discovery/DiscoveryService.cpp:101-154 [IORReplySender::run]. *)
Definition IORReplySender_run (x : servant) : option bytes :=
  match object x with
  | None => None
  | Some obj =>
      let io_cdr := frame (write_reply (Reply (c_str (ident x)) obj)) in
      let io_len := Z.of_nat (length io_cdr) in
      match copy_buffer (blocks_of io_cdr) io_len with
      | Ok (n, io_buf) => if n =? io_len then Some io_buf else None
      | Throw _ => None
      end
  end.

(** *** The service *)

Record service := Service {
  active_ : bool;
  sock : list datagram;
  repository : list servant;
  replies : list (servant * addr);          (* handed to the executor *)
}.

Context (is_a : Obj -> text -> corba bool).
(** Whether the executor takes one more job. *)
Context (takes : list (servant * addr) -> bool).

(** TAF/taf/extensions/discovery/DiscoveryService.cpp:275-288 [DiscoveryService::handle_input]. The servants that stay, and the jobs handed off. *)
Fixpoint answer_query (id : text) (to : addr) (l : list servant) (jobs : list (servant * addr)) : list servant * list (servant * addr) :=
  match l with
  | [] => ([], jobs)
  | x :: l =>
      match is_ident is_a x id with
      | COk true =>
          if takes jobs then let '(l, jobs) := answer_query id to l (jobs ++ [(x, to)]) in (x :: l, jobs)
          else (x :: l, jobs)
      | COk false => let '(l, jobs) := answer_query id to l jobs in (x :: l, jobs)
      | CThrow => answer_query id to l jobs
      end
  end.

(** TAF/taf/extensions/discovery/DiscoveryService.cpp:224-301 [DiscoveryService::handle_input]. [mine]: the event is for the socket of the service. *)
Definition handle_input (mine : bool) (s : service) : Z * service :=
  if active_ s then
    if mine then
      match peek (sock s) 4 with
      | Some hdr =>
          if bool_decide (length hdr = 4%nat) then
            let io_len := Z.land 65535 (be_value hdr) in
            if in_range MIN_IOR_REPLY_LENGTH MAX_IOR_REPLY_LENGTH io_len then
              match recv (sock s) (Z.to_nat io_len) with
              | (Some (io, from), q) =>
                  let s := Service (active_ s) q (repository s) (replies s) in
                  if Z.of_nat (length io) =? io_len then
                    if be_value (take 4 io) =? io_len then
                      match read_query (drop 4 io) with
                      | Some ior_query =>
                          let id := svc_ident ior_query in
                          if bool_decide (id = []) then (0, s)
                          else
                            let '(l, jobs) := answer_query id (Addr (host from) (svc_port ior_query)) (repository s) (replies s) in
                            (0, Service (active_ s) q l jobs)
                      | None => (0, s)
                      end
                    else (0, s)
                  else (0, s)
              | (None, q) => (0, s)
              end
            else (0, s)
          else (0, s)
      | None => (0, s)
      end
    else (0, s)
  else (-1, s).

(** *** The client *)

(** MAX_IORQUERY_REPLIES, a constant of the ORB. *)
Context (MAX_IORQUERY_REPLIES : nat).

(** TAF/taf/extensions/discovery/DiscoveryHandler.cpp:85-136 [IORQueryReplyHandler::getIORReply]. [clock k] is the time at the start of the [k]th round and
    [arrive k] what comes in before its peek returns; an empty socket is a timeout. [None]: out of fuel. *)
Fixpoint reply_loop (fuel k : nat) (clock : nat -> Z) (arrive : nat -> list datagram) (time_limit : Z)
    (sock : list datagram) (seq : list (IORReply Obj)) : option (list (IORReply Obj) * list datagram) :=
  match fuel with
  | O => None
  | S fuel =>
      if (length seq <? MAX_IORQUERY_REPLIES)%nat then
        if time_limit <=? clock k then Some (seq, sock)
        else
          let sock := sock ++ arrive k in
          let next := reply_loop fuel (S k) clock arrive time_limit in
          match peek sock 4 with
          | None => Some (seq, sock)
          | Some hdr =>
              if bool_decide (length hdr = 4%nat) then
                let io_len := Z.land 65535 (be_value hdr) in
                if in_range MIN_IOR_REPLY_LENGTH MAX_IOR_REPLY_LENGTH io_len then
                  match recv sock (Z.to_nat io_len) with
                  | (Some (io, _), sock) =>
                      if Z.of_nat (length io) =? io_len then
                        let io_length := be_value (take 2 (drop 2 io)) in
                        if io_len =? io_length then
                          match read_reply (drop 4 io) with
                          | Some r => next sock (seq ++ [r])
                          | None => next sock seq
                          end
                        else next sock seq
                      else next sock seq
                  | (None, sock) => Some (seq, sock)
                  end
                else next sock seq
              else next sock seq
          end
      else Some (seq, sock)
  end.

(** TAF/taf/extensions/discovery/DiscoveryHandler.cpp:78-139 [IORQueryReplyHandler::getIORReply]. *)
Definition getIORReply (fuel : nat) (now timeout : Z) (clock : nat -> Z) (arrive : nat -> list datagram) (sock : list datagram)
  : option (list (IORReply Obj) * list datagram) :=
  reply_loop fuel 0 clock arrive (now + timeout) sock [].
End discovery.

(** ** Lemmas *)

Lemma c_str_nul s : NUL ∉ s -> c_str s = s.
Proof.
  induction s as [|x s IH]; [done|]. intros [Hx Hs]%not_elem_of_cons. cbn [c_str]. rewrite decide_False; [by rewrite IH|].
  intros E. apply Hx. unfold code in E. rewrite <- (ascii_nat_embedding x). by replace (nat_of_ascii x) with 0%nat by lia.
Qed.

Section lemmas.
Context {Obj : Type} `{DiscoveryStubs Obj, !DiscoveryStubsLaws Obj, AceMinMaxLaws}.
Context (is_a : Obj -> text -> corba bool) (takes : list (IORQueryServant Obj * addr) -> bool).
Abbreviation servant := (IORQueryServant Obj).

(** A frame that is neither too short nor too long for the receivers. *)
Definition fits (body : bytes) : Prop := MIN_IOR_REPLY_LENGTH <= 4 + Z.of_nat (length body) <= MAX_IOR_REPLY_LENGTH.

Lemma frame_length body : Z.of_nat (length (frame body)) = 4 + Z.of_nat (length body).
Proof. unfold frame. rewrite length_app, be_bytes_length. lia. Qed.

Lemma frame_take body : take 4 (frame body) = be_bytes 4 (4 + Z.of_nat (length body)).
Proof. unfold frame. by rewrite take_app_length' by (by rewrite be_bytes_length). Qed.

Lemma frame_drop body : drop 4 (frame body) = body.
Proof. unfold frame. by rewrite drop_app_length' by (by rewrite be_bytes_length). Qed.

Lemma frame_header body : fits body -> Z.land 65535 (be_value (take 4 (frame body))) = 4 + Z.of_nat (length body)
  /\ be_value (take 4 (frame body)) = 4 + Z.of_nat (length body)
  /\ be_value (take 2 (drop 2 (frame body))) = 4 + Z.of_nat (length body).
Proof.
  intros [Hlo Hhi]. unfold MIN_IOR_REPLY_LENGTH, MAX_IOR_REPLY_LENGTH in *. rewrite frame_take.
  set (n := 4 + Z.of_nat (length body)) in *. rewrite be_value_bytes by (cbn; lia). split; [|split; [done|]].
  - change 65535 with (Z.ones 16). rewrite Z.land_comm, Z.land_ones by lia. apply Z.mod_small. lia.
  - unfold frame. fold n. rewrite skipn_app, firstn_app. rewrite length_skipn, be_bytes_length. cbn [Nat.sub firstn]. rewrite app_nil_r.
    unfold be_value, be_bytes. cbn [le_bytes rev app skipn firstn le_value].
    pose proof (Z.div_mod n 256 ltac:(lia)). rewrite Z.mul_0_r, Z.add_0_r. rewrite (Z.mod_small (n / 256)); [lia|].
    split; [apply Z.div_pos; lia|]. apply Z.div_lt_upper_bound; lia.
Qed.

Lemma copy_frame body : fits body -> copy_buffer (blocks_of (frame body)) (Z.of_nat (length (frame body)))
  = Ok (Z.of_nat (length (frame body)), frame body).
Proof.
  intros [Hf _]. unfold MIN_IOR_REPLY_LENGTH in Hf. pose proof (frame_length body) as Hl.
  pose proof (copy_buffer_all (blocks_of (frame body))) as E. rewrite blocks_concat in E. apply E. lia.
Qed.

Lemma peek_frame body a q : peek ((frame body, a) :: q) 4 = Some (take 4 (frame body)) /\ length (take 4 (frame body)) = 4%nat.
Proof. split; [done|]. by rewrite frame_take, be_bytes_length. Qed.

Lemma fits_range body : fits body -> in_range MIN_IOR_REPLY_LENGTH MAX_IOR_REPLY_LENGTH (4 + Z.of_nat (length body)) = true.
Proof. intros [Hlo Hhi]. rewrite in_range_spec by (unfold MIN_IOR_REPLY_LENGTH, MAX_IOR_REPLY_LENGTH; lia). by rewrite andb_true_iff, !Z.leb_le. Qed.

Lemma recv_frame body a q : recv ((frame body, a) :: q) (Z.to_nat (4 + Z.of_nat (length body))) = (Some (frame body, a), q).
Proof. unfold recv. rewrite take_ge; [done|]. pose proof (frame_length body). lia. Qed.

(** The servants a query is for, and those that stay in the repository. *)
Definition matches (id : text) (x : servant) : bool := match is_ident is_a x id with COk b => b | CThrow => false end.
Definition reachable (id : text) (x : servant) : bool := match is_ident is_a x id with COk _ => true | CThrow => false end.

Lemma answer_query_spec id to l jobs : (forall jobs, takes jobs = true) ->
  answer_query is_a takes id to l jobs
  = (List.filter (reachable id) l, jobs ++ ((fun x => (x, to)) <$> List.filter (matches id) l)).
Proof.
  intros Ht. revert jobs. induction l as [|x l IH]; intros jobs; cbn [answer_query List.filter]; [by rewrite app_nil_r|].
  unfold reachable at 1, matches at 1. destruct (is_ident is_a x id) as [[|]|]; rewrite ?Ht, IH; [|done|done].
  by rewrite <- app_assoc.
Qed.

Lemma send_query reply_port id : 0 <= reply_port < 65536 -> id <> [] -> NUL ∉ id -> fits (write_query (Query reply_port 0 id)) ->
  sendIORQuery reply_port (Some id) = Some (frame (write_query (Query reply_port 0 id))).
Proof.
  intros Hp Hne Hn Hf. unfold sendIORQuery. rewrite c_str_nul by done. rewrite bool_decide_false by done.
  rewrite Z.mod_small by done. rewrite copy_frame by done. by rewrite Z.eqb_refl.
Qed.

Lemma send_reply x o : object x = Some o -> NUL ∉ ident x -> fits (write_reply (Reply (ident x) o)) ->
  IORReplySender_run x = Some (frame (write_reply (Reply (ident x) o))).
Proof.
  intros Ho Hn Hf. unfold IORReplySender_run. rewrite Ho, c_str_nul by done. rewrite copy_frame by done. by rewrite Z.eqb_refl.
Qed.

(** What the service does with the datagram of a query. *)
Lemma handle_query s from q reply_port id : active_ s = true -> 0 <= reply_port < 65536 -> id <> [] -> NUL ∉ id ->
  fits (write_query (Query reply_port 0 id)) -> sock s = (frame (write_query (Query reply_port 0 id)), from) :: q ->
  handle_input is_a takes true s = (let '(l, jobs) := answer_query is_a takes id (Addr (host from) reply_port) (repository s) (replies s) in
    (0, Service true q l jobs)).
Proof.
  intros Ha Hp Hne Hn Hf Hs. set (body := write_query _) in *. unfold handle_input. rewrite Ha, Hs.
  destruct (peek_frame body from q) as [-> ->]. rewrite bool_decide_true by done.
  destruct (frame_header body Hf) as (-> & Hh & _). rewrite fits_range by done. rewrite recv_frame. rewrite frame_length, Z.eqb_refl.
  rewrite Hh, Z.eqb_refl, frame_drop. unfold body. rewrite read_write_query by (done || cbn; destruct Hf; unfold body in *; lia).
  cbn [svc_ident svc_port active_ repository replies]. by rewrite bool_decide_false.
Qed.

(** Replies that are there are all received, in order. *)
Lemma reply_loop_all max fuel k clock limit (rs seq : list (IORReply Obj)) ds :
  ds.*1 = (fun r => frame (write_reply r)) <$> rs -> Forall (fun r => fits (write_reply r) /\ (NUL ∉ reply_ident r)) rs ->
  (length seq + length rs <= max)%nat -> (length rs < fuel)%nat -> (forall j, (k <= j <= k + length rs)%nat -> clock j < limit) ->
  reply_loop max fuel k clock (fun _ => []) limit ds seq = Some (seq ++ rs, []).
Proof.
  revert fuel k seq ds. induction rs as [|r rs IH]; intros fuel k seq ds Hds Hrs Hm Hf Hc; (destruct fuel as [|fuel]; [lia|]); cbn [reply_loop].
  - destruct ds as [|? ds]; [|done]. destruct (length seq <? max)%nat; [|by rewrite app_nil_r].
    rewrite (proj2 (Z.leb_gt _ _)) by (apply Hc; simpl; lia). cbn. by rewrite app_nil_r.
  - destruct ds as [|[d a] ds]; [done|]. injection Hds as -> Hds. apply Forall_cons in Hrs as [[Hfit Hn] Hrs]. simpl in Hm, Hf.
    rewrite (proj2 (Nat.ltb_lt _ _)) by lia. rewrite (proj2 (Z.leb_gt _ _)) by (apply Hc; simpl; lia). rewrite app_nil_r.
    set (body := write_reply r) in *. destruct (peek_frame body a ds) as [-> ->]. rewrite bool_decide_true by done.
    destruct (frame_header body Hfit) as (-> & _ & Eh). rewrite fits_range by done.
    rewrite recv_frame, frame_length, Z.eqb_refl, Eh, Z.eqb_refl, frame_drop.
    unfold body. rewrite read_write_reply by (done || destruct Hfit; unfold body in *; lia).
    rewrite IH; [by rewrite <- app_assoc|done|done|rewrite length_app; simpl; lia|lia|]. intros j Hj. apply Hc. simpl. lia.
Qed.

(** The reply a servant that answers a query sends. *)
Definition reply_of (x : servant) : list (IORReply Obj) := match object x with Some o => [Reply (ident x) o] | None => [] end.

Lemma matches_object id x : id <> [] -> matches id x = true -> exists o, object x = Some o.
Proof. intros Hne. unfold matches, is_ident. rewrite bool_decide_false by done. destruct (object x); [eauto|done]. Qed.

Lemma replies_frames id l : id <> [] ->
  Forall (fun x => forall o, object x = Some o -> (NUL ∉ ident x) /\ fits (write_reply (Reply (ident x) o))) l ->
  mapM IORReplySender_run (List.filter (matches id) l)
  = Some ((fun r => frame (write_reply r)) <$> (List.filter (matches id) l ≫= reply_of))
  /\ length (List.filter (matches id) l ≫= reply_of) = length (List.filter (matches id) l)
  /\ Forall (fun r => fits (write_reply r) /\ (NUL ∉ reply_ident r)) (List.filter (matches id) l ≫= reply_of).
Proof.
  intros Hne. induction 1 as [|x l Hx Hl IH]; [done|]. cbn [List.filter]. destruct (matches id x) eqn:Em; [|done].
  destruct (matches_object id x Hne Em) as [o Ho]. destruct (Hx o Ho) as [Hn Hf]. destruct IH as (E1 & E2 & E3).
  rewrite bind_cons. assert (reply_of x = [Reply (ident x) o]) as -> by (unfold reply_of; by rewrite Ho).
  split; [|split; [by rewrite length_app, E2|by constructor]].
  cbn. rewrite (send_reply x o) by done. cbn. by rewrite E1.
Qed.

(** C18 (functional). Discovery works from end to end when nothing is lost or refused on the way: if the service is active with
    an empty socket, no name holds a NUL, the frames of the query and of the replies have a length in the range the
    receivers accept (that of a query for one or two characters has not: such a name is never
    found, [short_name_jams]), the executor takes every job, and the replies are no more than the client
    wants and arrive, with nothing else, before its time is over, then the datagram of a query makes the service
    hand off a reply for exactly the servants the name is for, addressed to the port of the
    query at the host it came from, and drop the servants that cannot be contacted; and the
    datagrams of those replies give the client, in order, the name and the object of each. *)
Theorem discovery_end_to_end max s from reply_port id fuel now timeout clock addrs : active_ s = true -> sock s = [] ->
  (forall jobs, takes jobs = true) ->
  0 <= reply_port < 65536 -> id <> [] -> NUL ∉ id -> fits (write_query (Query reply_port 0 id)) ->
  Forall (fun x => forall o, object x = Some o -> (NUL ∉ ident x) /\ fits (write_reply (Reply (ident x) o))) (repository s) ->
  let found := List.filter (matches id) (repository s) in
  length addrs = length found -> (length found <= max)%nat -> (length found < fuel)%nat ->
  (forall j, (j <= length found)%nat -> clock j < now + timeout) ->
  exists query s' frames, sendIORQuery reply_port (Some id) = Some query
  /\ handle_input is_a takes true (Service true [(query, from)] (repository s) (replies s)) = (0, s')
  /\ sock s' = [] /\ repository s' = List.filter (reachable id) (repository s)
  /\ replies s' = replies s ++ ((fun x => (x, Addr (host from) reply_port)) <$> found)
  /\ mapM IORReplySender_run found = Some frames
  /\ getIORReply max fuel now timeout clock (fun _ => []) (zip frames addrs) = Some (found ≫= reply_of, []).
Proof.
  intros Ha Hs Ht Hp Hne Hn Hf Hl found Hlen Hmax Hfuel Hc.
  destruct (replies_frames id (repository s) Hne Hl) as (E1 & E2 & E3). fold found in E1, E2, E3.
  exists (frame (write_query (Query reply_port 0 id))). eexists _, _. split; [by apply send_query|]. split.
  { rewrite (handle_query (Service true [_] (repository s) (replies s)) from [] reply_port id) by done. cbn [repository replies].
    rewrite answer_query_spec by done. reflexivity. }
  cbn [sock repository replies]. split; [done|]. split; [done|]. split; [done|]. split; [exact E1|].
  unfold getIORReply. rewrite (reply_loop_all max fuel 0 clock (now + timeout) (found ≫= reply_of) []); try done; try (rewrite ?E2; simpl; lia).
  - apply fst_zip. rewrite length_fmap. lia.
  - intros j Hj. apply Hc. lia.
Qed.

(** The client stops: when its clock reaches the time limit, when it has as
    many replies as it wants or when nothing comes in, whatever datagrams arrive. *)
Theorem getIORReply_returns max fuel n now timeout clock (arrive : nat -> list datagram) sock : now + timeout <= clock n -> (n < fuel)%nat ->
  exists seq rest, getIORReply max fuel now timeout clock arrive sock = Some (seq, rest) /\ (length seq <= max)%nat.
Proof.
  intros Hn Hf. unfold getIORReply.
  assert (forall fuel k sock (seq : list (IORReply Obj)), (k <= n)%nat -> (n - k < fuel)%nat -> (length seq <= max)%nat ->
    exists seq' rest, reply_loop max fuel k clock arrive (now + timeout) sock seq = Some (seq', rest) /\ (length seq' <= max)%nat) as Hl.
  { clear fuel Hf sock. induction fuel as [|fuel IH]; intros k sock seq Hk Hf Hs; [lia|]. cbn [reply_loop].
    destruct (Nat.ltb_spec (length seq) max); [|eauto]. destruct (Z.leb_spec (now + timeout) (clock k)); [eauto|].
    assert (k <> n) by (intros ->; lia).
    assert (forall sock, exists seq' rest, reply_loop max fuel (S k) clock arrive (now + timeout) sock seq = Some (seq', rest) /\ (length seq' <= max)%nat)
      as Hnext by (intros; apply IH; lia).
    destruct (peek (sock ++ arrive k) 4) as [hdr|]; [|eauto]. case_bool_decide; [|auto]. destruct (in_range _ _ _); [|auto].
    destruct (recv _ _) as [[[io a]|] q]; [|eauto]. destruct (_ =? _); [|auto]. destruct (_ =? _); [|auto].
    destruct (read_reply _) as [r|]; [|auto]. apply IH; try lia. rewrite length_app. simpl. lia. }
  apply Hl; [lia|lia|simpl; lia].
Qed.

(** A datagram that no receiver takes off its socket: too short for a length, or with a length
    outside the range of a frame. *)
Definition jams (d : bytes) : Prop :=
  (length d < 4)%nat \/ in_range MIN_IOR_REPLY_LENGTH MAX_IOR_REPLY_LENGTH (Z.land 65535 (be_value (take 4 d))) = false.

Lemma service_jammed s d a q : sock s = (d, a) :: q -> jams d -> active_ s = true -> handle_input is_a takes true s = (0, s).
Proof.
  intros Hs Hj Ha. unfold handle_input. rewrite Ha, Hs. unfold peek. cbn [head fmap option_fmap option_map fst].
  case_bool_decide as Hl; [|done]. rewrite length_take in Hl. destruct Hj as [Hj|Hj]; [lia|]. by rewrite Hj.
Qed.

Lemma client_jammed max fuel k clock (arrive : nat -> list datagram) limit d a q seq r rest : jams d ->
  reply_loop max fuel k clock arrive limit ((d, a) :: q) seq = Some (r, rest) -> r = seq.
Proof.
  intros Hj. revert k q. induction fuel as [|fuel IH]; intros k q; [done|]. cbn [reply_loop].
  destruct (length seq <? max)%nat; [|by intros [= <- _]]. destruct (limit <=? clock k); [by intros [= <- _]|].
  cbn [app]. unfold peek. cbn [head fmap option_fmap option_map fst].
  case_bool_decide as Hl; [|apply IH]. rewrite length_take in Hl. destruct Hj as [Hj|Hj]; [lia|]. rewrite Hj. apply IH.
Qed.
End lemmas.

(** ** The repository as a map *)

Section repository_spec.
Context {Obj : Type}.
Abbreviation servant := (IORQueryServant Obj).

Definition repo_map (l : list servant) : gmap text (option Obj) := list_to_map ((fun x => (ident x, object x)) <$> l).

Lemma put_servant_spec p id l : NoDup (ident <$> l) -> NoDup (ident <$> put_servant p id l)
  /\ (forall n, n ∈ ident <$> put_servant p id l <-> n = id \/ n ∈ ident <$> l)
  /\ repo_map (put_servant p id l) = <[id := Some p]> (repo_map l).
Proof.
  induction l as [|x l IH]; cbn [put_servant fmap list_fmap]; intros Hd.
  { split; [apply NoDup_singleton|]. split; [|done]. intros n. rewrite list_elem_of_singleton, elem_of_nil. tauto. }
  apply NoDup_cons in Hd as [Hx Hd]. case_bool_decide as E.
  - cbn [fmap list_fmap ident]. split; [by constructor|]. subst. split; [|unfold repo_map; cbn; by rewrite insert_insert_eq].
    intros n. rewrite !elem_of_cons. tauto.
  - destruct (IH Hd) as (I1 & I2 & I3). cbn [fmap list_fmap]. split_and!.
    + constructor; [|done]. rewrite I2. intros [?|?]; congruence.
    + intros n. rewrite !elem_of_cons, I2. tauto.
    + unfold repo_map in *. cbn. rewrite I3. by rewrite insert_insert_ne.
Qed.

Lemma repo_map_absent id (l : list servant) : id ∉ ident <$> l -> repo_map l !! id = None.
Proof. intros Hn. apply not_elem_of_list_to_map. by rewrite <- list_fmap_compose. Qed.

Lemma drop_servant_spec id l : NoDup (ident <$> l) ->
  match drop_servant id l with
  | Some l' => id ∈ ident <$> l /\ NoDup (ident <$> l') /\ (forall n, n ∈ ident <$> l' -> n ∈ ident <$> l)
               /\ repo_map l' = base.delete id (repo_map l)
  | None => id ∉ ident <$> l
  end.
Proof.
  induction l as [|x l IH]; cbn [drop_servant fmap list_fmap]; intros Hd; [by apply not_elem_of_nil|].
  apply NoDup_cons in Hd as [Hx Hd]. case_bool_decide as E.
  - subst. split; [by left|]. split; [done|]. split; [by right|]. unfold repo_map. cbn. rewrite delete_insert_id; [done|]. by apply repo_map_absent.
  - specialize (IH Hd). destruct (drop_servant id l) as [l'|]; cbn.
    + destruct IH as (I1 & I2 & I3 & I4). split; [by right|]. split; [constructor; [|done]; by intros ?%I3|].
      split; [intros n [->|?%I3]%elem_of_cons; [by left|by right]|]. unfold repo_map in *. cbn. rewrite I4. by rewrite delete_insert_ne.
    + apply not_elem_of_cons. done.
Qed.

(** C28 (refinement). The repository of services is a map from trimmed names to objects:
    registering binds the name, replacing what it had, unregistering removes it, and both
    answer -1 and change nothing for a name that is empty once trimmed, a nil object or a name
    that is not there; no two entries ever have the same name. *)
Theorem repository_is_map (l : list servant) p name : NoDup (ident <$> l) ->
  let id := trim name in
  (let '(rc, l') := registerQueryService p name l in NoDup (ident <$> l')
     /\ match p with
        | Some o => if bool_decide (id = []) then rc = -1 /\ l' = l else rc = 0 /\ repo_map l' = <[id := Some o]> (repo_map l)
        | None => rc = -1 /\ l' = l
        end)
  /\ (let '(rc, l') := unregisterQueryService name l in NoDup (ident <$> l')
     /\ repo_map l' = (if bool_decide (id = []) then repo_map l else base.delete id (repo_map l))
     /\ (rc = 0 <-> id <> [] /\ id ∈ ident <$> l) /\ (rc = 0 \/ rc = -1 /\ l' = l)).
Proof.
  intros Hd id. unfold registerQueryService, unregisterQueryService. fold id. split.
  - destruct p as [o|]; [|done]. case_bool_decide; [done|]. destruct (put_servant_spec o id l Hd) as (? & _ & ?). done.
  - case_bool_decide as E; [split; [done|]; split; [done|]; split; [split; [done|by intros []]|by right]|]. pose proof (drop_servant_spec id l Hd) as Hs.
    destruct (drop_servant id l) as [l'|]; [destruct Hs as (? & ? & _ & ?); split; [done|]; split; [done|]; split; [done|by left]|].
    split; [done|]. split; [rewrite delete_id; [done|by apply repo_map_absent]|].
    split; [split; [done|by intros [_ ?]]|by right].
Qed.
End repository_spec.

(** ** The CDR encoding *)

Module CdrDiscovery.
Definition codes (s : text) : bytes := code <$> s.
Definition chars (l : bytes) : text := (fun z => ascii_of_nat (Z.to_nat z)) <$> l.

(** A string: its length with the NUL, its characters and the NUL; what follows is aligned. *)
Definition write_string (s : text) : bytes := be_bytes 4 (Z.of_nat (length s) + 1) ++ codes s ++ [0].
Definition read_string (l : bytes) : option (text * bytes) :=
  let n := Z.to_nat (be_value (take 4 l)) in
  if ((4 <=? length l) && (1 <=? n) && (n <=? length (drop 4 l)))%nat
  then Some (chars (take (n - 1) (drop 4 l)), drop n (drop 4 l))
  else None.
Definition pad (n : nat) : nat := ((4 - n mod 4) mod 4)%nat.

(** An object is its stringified reference. *)
#[export] Instance cdr_stubs : DiscoveryStubs text := {|
  write_query q := be_bytes 2 (svc_port q) ++ be_bytes 2 (svc_flags q) ++ write_string (svc_ident q);
  read_query l :=
    '(s, _) ← read_string (drop 4 l); Some (Query (be_value (take 2 l)) (be_value (take 2 (drop 2 l))) s);
  write_reply r := let s := write_string (reply_ident r) in s ++ replicate (pad (length s)) 0 ++ write_string (svc_obj r);
  read_reply l :=
    '(s, rest) ← read_string l;
    '(o, _) ← read_string (drop (pad (length l - length rest)) rest);
    Some (Reply s o);
  blocks_of l := [take 8 l; drop 8 l];
|}.

Lemma chars_codes s : chars (codes s) = s.
Proof.
  unfold chars, codes. rewrite <- list_fmap_compose. rewrite <- (list_fmap_id s) at 2. apply list_fmap_ext. intros i x _.
  cbn. unfold code. rewrite Nat2Z.id. apply ascii_nat_embedding.
Qed.

Lemma write_string_length s : length (write_string s) = (length s + 5)%nat.
Proof. unfold write_string, codes. rewrite !length_app, be_bytes_length, length_fmap. simpl. lia. Qed.

Lemma read_write_string s rest : Z.of_nat (length s) < 4096 -> read_string (write_string s ++ rest) = Some (s, rest).
Proof.
  intros Hl. unfold read_string, write_string. rewrite <- !app_assoc.
  rewrite take_app_length', drop_app_length' by (by rewrite be_bytes_length).
  rewrite be_value_bytes by (cbn; lia). assert (length (codes s) = length s) as Hc by (unfold codes; by rewrite length_fmap).
  replace (Z.to_nat (Z.of_nat (length s) + 1)) with (S (length s)) by lia.
  assert (((4 <=? length (be_bytes 4 (Z.of_nat (length s) + 1) ++ codes s ++ [0%Z] ++ rest)) && (1 <=? S (length s))
    && (S (length s) <=? length (codes s ++ [0%Z] ++ rest)))%nat = true) as ->.
  { rewrite !andb_true_iff, !Nat.leb_le, !length_app, be_bytes_length, Hc. simpl. lia. }
  do 2 f_equal.
  - replace (S (length s) - 1)%nat with (length (codes s)) by lia. rewrite take_app_length. apply chars_codes.
  - rewrite app_assoc. apply drop_app_length'. rewrite length_app, Hc. simpl. lia.
Qed.

#[export] Instance cdr_laws : DiscoveryStubsLaws text.
Proof.
  split.
  - intros [p f s]. cbn [write_query read_query cdr_stubs svc_port svc_flags svc_ident]. intros Hp Hf _ Hl. rewrite !length_app, write_string_length in Hl. unfold MAX_IOR_REPLY_LENGTH in Hl.
    pose proof (be_bytes_length 2 p) as L1. pose proof (be_bytes_length 2 f) as L2.
    
    assert (drop 4 (be_bytes 2 p ++ be_bytes 2 f ++ write_string s) = write_string s) as ->.
    { rewrite app_assoc. apply drop_app_length'. rewrite length_app. lia. }
    pose proof (read_write_string s [] ltac:(lia)) as Hs. rewrite app_nil_r in Hs. rewrite Hs. unfold mbind, option_bind.
    rewrite (take_app_length' (be_bytes 2 p)), (drop_app_length' (be_bytes 2 p)), (take_app_length' (be_bytes 2 f)) by done.
    by rewrite !be_value_bytes by (cbn; lia).
  - intros [s o]. cbn [write_reply read_reply cdr_stubs reply_ident svc_obj]. intros _ Hl. rewrite !length_app, !write_string_length in Hl. unfold MAX_IOR_REPLY_LENGTH in Hl.
    rewrite read_write_string by lia. unfold mbind, option_bind. rewrite !length_app, length_replicate, !write_string_length.
    replace (length s + 5 + (pad (length s + 5) + (length o + 5)) - (pad (length s + 5) + (length o + 5)))%nat with (length s + 5)%nat by lia.
    rewrite (drop_app_length' (replicate _ 0)) by (by rewrite length_replicate).
    pose proof (read_write_string o [] ltac:(lia)) as Ho. rewrite app_nil_r in Ho. by rewrite Ho.
  - intros l. cbn. rewrite app_nil_r. apply take_drop.
Qed.

(** The frame of a name of one or two characters is shorter than any the receivers accept. *)
Lemma short_name_jams `{AceMinMaxLaws} reply_port id d : 0 <= reply_port < 65536 -> NUL ∉ id -> (length id <= 2)%nat ->
  sendIORQuery reply_port (Some id) = Some d -> jams d.
Proof.
  intros Hp Hn Hl. unfold sendIORQuery. rewrite c_str_nul by done. case_bool_decide; [done|].
  set (body := write_query _). assert (Z.of_nat (length body) = 9 + Z.of_nat (length id)) as Hb.
  { unfold body. cbn [write_query cdr_stubs svc_port svc_flags svc_ident]. rewrite !length_app, write_string_length, !be_bytes_length. lia. }
  pose proof (frame_length body) as Hf. pose proof (copy_buffer_all (blocks_of (frame body))) as E. rewrite blocks_concat in E.
  rewrite E by lia. rewrite Z.eqb_refl. intros [= <-]. right.
  assert (256 ^ Z.of_nat 4 = 4294967296) as H256 by done. rewrite frame_take, be_value_bytes by lia.
  change 65535 with (Z.ones 16). rewrite Z.land_comm, Z.land_ones by lia. rewrite Z.mod_small by lia.
  rewrite in_range_spec by (unfold MIN_IOR_REPLY_LENGTH, MAX_IOR_REPLY_LENGTH; lia).
  unfold MIN_IOR_REPLY_LENGTH. apply andb_false_iff. left. apply Z.leb_gt. lia.
Qed.
End CdrDiscovery.

(** ** Witnesses *)

Module DiscoveryExamples.
Import CdrDiscovery.
#[local] Existing Instance ace_min_max_std.
#[local] Existing Instance ace_min_max_std_laws.

Definition time_server : IORQueryServant text := Servant (Some (str "IOR:0001")) (str "TimeService").
Definition dead_server : IORQueryServant text := Servant None (str "Gone").
Definition other_server : IORQueryServant text := Servant (Some (str "IOR:0002")) (str "Other").
(** An object implements the interface Clock when its reference ends in 2. *)
Definition is_clock (o : text) (id : text) : corba bool := COk (bool_decide (o = str "IOR:0002" /\ id = str "Clock")).
Definition running : service := Service true [] [time_server; dead_server; other_server] [].

Lemma discovery_end_to_end_witness : exists query s' frames,
  sendIORQuery 5000 (Some (str "Clock")) = Some query
  /\ handle_input is_clock (fun _ => true) true (Service true [(query, Addr 7 99)] (repository running) []) = (0, s')
  /\ repository s' = [time_server; other_server]
  /\ getIORReply 100 5 0 10 (fun _ => 1) (fun _ => []) (zip frames [Addr 8 1]) = Some ([Reply (str "Other") (str "IOR:0002")], []).
Proof.
  destruct (discovery_end_to_end is_clock (fun _ => true) 100 running (Addr 7 99) 5000 (str "Clock") 5 0 10 (fun _ => 1) [Addr 8 1])
    as (query & s' & frames & E1 & E2 & _ & E3 & _ & _ & E4);
    [reflexivity|reflexivity|reflexivity|lia|discriminate|apply (bool_decide_unpack _); by vm_compute| | |reflexivity|vm_compute; lia|vm_compute; lia| |].
  - unfold fits. vm_compute. split; discriminate.
  - change (repository running) with [time_server; dead_server; other_server]. rewrite !Forall_cons.
    split; [|split; [|split; [|constructor]]]; intros o Ho; vm_compute in Ho; try discriminate; injection Ho as <-;
      (split; [apply (bool_decide_unpack _); by vm_compute|unfold fits; vm_compute; split; discriminate]).
  - intros. lia.
  - exists query, s', frames. split; [exact E1|]. split; [exact E2|]. split; [rewrite E3; by vm_compute|]. rewrite E4. by vm_compute.
Defined.

Lemma getIORReply_returns_witness : exists seq rest,
  getIORReply 3 9 0 5 (fun k => Z.of_nat k) (fun _ => [([1; 2], Addr 0 0)]) [] = Some (seq : list (IORReply text), rest) /\ (length seq <= 3)%nat.
Proof. apply (getIORReply_returns 3 9 5 0 5 Z.of_nat (fun _ => [([1; 2], Addr 0 0)]) []); lia. Defined.

Lemma repository_is_map_witness :
  (registerQueryService (Some (str "IOR:0003")) (str " Other ") [time_server; other_server]).1 = 0
  /\ NoDup (ident <$> (registerQueryService (Some (str "IOR:0003")) (str " Other ") [time_server; other_server]).2).
Proof.
  split; [by vm_compute|].
  assert (NoDup (ident <$> [time_server; other_server])) as Hd by (apply (bool_decide_unpack _); by vm_compute).
  destruct (repository_is_map [time_server; other_server] (Some (str "IOR:0003")) (str " Other ") Hd) as [Hm _].
  destruct (registerQueryService (Some (str "IOR:0003")) (str " Other ") [time_server; other_server]) as [rc l]. exact (proj1 Hm).
Defined.
End DiscoveryExamples.
