(* ===== verification/DiscoveryNet.v ===== *)
(** * The sockets of discovery: DiscoveryHandler and DiscoveryService of TAF/taf/extensions/discovery

    The address that a handler joins, which may name a network interface, and the start and end of the service.  The sockets and the
    reactor are parameters of the steps: whether an address can be set, whether a group can be joined.  What goes over the sockets is [Discovery]'s. *)

From S2P Require Import Prelude CString Text Discovery.
From Stdlib Require Import Ascii.

Abbreviation text := (list ascii).
Definition AT : ascii := "@"%char.
Definition COLON : ascii := ":"%char.

(** ** The address *)

(** TAF/taf/extensions/discovery/DiscoveryHandler.cpp:172-181 [DiscoveryHandler::open_handler]. The address and the interface of what is given. *)
Definition split_address (mcast_addr : text) : text * text :=
  let mcast_address := trim (c_str mcast_addr) in
  match find_char AT mcast_address with
  | Some pos =>
      let real_address := take pos mcast_address in
      let mcast_nic := drop (S pos) mcast_address in
      match find_char COLON mcast_nic with
      | Some (S p) => (real_address ++ drop (S p) mcast_nic, take (S p) mcast_nic)
      | _ => (real_address, mcast_nic)
      end
  | None => (mcast_address, [])
  end.

(** The calls on the socket, in order. *)
Inductive socket_call := Join (nic : option text) | SetTTL (ttl : Z).

(** TAF/taf/extensions/discovery/DiscoveryHandler.cpp:192-218 [DiscoveryHandler::open_handler]. [joins]: a group can be joined on this interface; the ttl is given as a char, a byte. *)
Definition join_group (joins : option text -> bool) (ttl : Z) (net_if : text) : list socket_call * Z :=
  let nic := if (0 <? length (c_str net_if))%nat then Some (c_str net_if) else None in
  if joins nic then ([Join nic; SetTTL (ttl mod 256)], 0) else ([Join nic], -1).

(** TAF/taf/extensions/discovery/DiscoveryHandler.cpp:169-190 [DiscoveryHandler::open_handler]. [valid]: ACE can set this address. *)
Definition open_handler (valid : text -> bool) (joins : text -> option text -> bool) (ttl : Z) (mcast_addr : text) : list socket_call * Z :=
  let '(address, nic) := split_address mcast_addr in
  if valid (c_str address) then join_group (joins address) ttl nic else ([], -1).

(** TAF/taf/extensions/discovery/DiscoveryHandler.cpp:153-159 [DiscoveryHandler::DiscoveryHandler]. [false]: BAD_OPERATION is thrown. *)
Definition constructed (r : list socket_call * Z) : bool := snd r =? 0.

(** TAF/taf/extensions/discovery/DiscoveryHandler.cpp:43-59 [IORQueryReplyHandler::IORQueryReplyHandler]. [opened]: the socket could be opened; [port]: its local address, if it has one.
    [None]: BAD_OPERATION. *)
Definition reply_handler (opened : bool) (port : option Z) : option Z := if opened then port else None.

(** ** The service *)

(** TAF/taf/extensions/discovery/DiscoveryService.cpp:159-162 [DiscoveryService]. With the property TAFDiscoveryEndpoint, and whether its handler is with the reactor. *)
Record service := Service { active_ : bool; endpoint : option text; with_reactor : bool; joined : bool }.

(** TAF/taf/extensions/discovery/DiscoveryService.cpp:168-193 [DiscoveryService::init]. [opens]: the result of opening the handler, [None] when it throws; [registers]: of the reactor. *)
Definition service_init (enabled : bool) (default_endpoint : text) (opens : text -> option Z) (registers : Z) (s : service) : service * Z :=
  if enabled then
    let address := default default_endpoint (endpoint s) in
    match opens address with
    | Some 0 =>
        let s := Service (active_ s) (Some address) (with_reactor s) true in
        if registers =? 0 then (Service true (Some address) true true, 0) else (s, -1)
    | _ => (s, -1)
    end
  else (s, -1).

(** TAF/taf/extensions/discovery/DiscoveryService.cpp:195-205 [DiscoveryService::fini]. *)
Definition service_fini (s : service) : service := if active_ s then Service false (endpoint s) false (joined s) else s.

(** ** What they do *)

(** An address with an interface and a port: the port goes with the address. *)
Lemma address_with_nic host nic port : tidy (host ++ AT :: nic ++ COLON :: port) -> NUL ∉ host ++ AT :: nic ++ COLON :: port -> AT ∉ host -> COLON ∉ nic -> nic <> [] ->
  split_address (host ++ AT :: nic ++ COLON :: port) = (host ++ COLON :: port, nic).
Proof.
  intros Ht Hn Hh Hc Hne. unfold split_address. rewrite c_str_nul, tidy_trim by done. rewrite find_char_cut by done. rewrite take_app_length.
  rewrite drop_app_ge by lia. replace (S (length host) - length host)%nat with 1%nat by lia. cbn [drop]. rewrite drop_0.
  rewrite find_char_cut by done. destruct nic as [|x nic]; [done|]. cbn [length]. change (S (length nic)) with (length (x :: nic)).
  by rewrite drop_app_length, take_app_length.
Qed.

(** And without an interface it is what was given. *)
Lemma address_alone host : tidy host -> NUL ∉ host -> AT ∉ host -> split_address host = (host, []).
Proof. intros Ht Hn Hh. unfold split_address. rewrite c_str_nul, tidy_trim by done. by rewrite find_char_absent. Qed.

(** With an empty interface the port is taken for one: the address has none. *)
Example empty_nic_takes_port : split_address (str "224.9.9.2@:9999") = (str "224.9.9.2", str ":9999").
Proof. reflexivity. Qed.

(** A handler is constructed exactly when the address is valid and its group can be joined on the interface it names. *)
Lemma open_handler_spec valid joins ttl addr : constructed (open_handler valid joins ttl addr) = true <->
  let '(address, nic) := split_address addr in valid (c_str address) = true /\ joins address (if (0 <? length (c_str nic))%nat then Some (c_str nic) else None) = true.
Proof.
  unfold open_handler, constructed, join_group. destruct (split_address addr) as [a n]. destruct (valid (c_str a)); cbn; [|by split; [|intros [? _]]].
  destruct (joins a _); cbn; by split; [|intros [_ ?]].
Qed.

(** The service is active exactly when its initialisation succeeded, and the endpoint it used can then be read from the properties; when it is ended nothing
    of it is with the reactor. *)
Lemma service_init_spec enabled dflt opens registers s s' r : active_ s = false -> service_init enabled dflt opens registers s = (s', r) ->
  (active_ s' = true <-> r = 0) /\ (r = 0 -> endpoint s' = Some (default dflt (endpoint s)) /\ with_reactor s' = true) /\ (r = 0 -> with_reactor (service_fini s') = false /\ active_ (service_fini s') = false).
Proof.
  intros Ha. unfold service_init. destruct enabled; [|intros [= <- <-]; by rewrite Ha]. destruct (opens _) as [[| |]|]; [destruct (registers =? 0)|..]; intros [= <- <-]; cbn; by rewrite ?Ha.
Qed.

(** A handler that has joined its group but cannot be registered stays in the group. *)
Lemma unregistered_stays_joined dflt opens registers s : registers <> 0 -> opens (default dflt (endpoint s)) = Some 0 ->
  let '(s', r) := service_init true dflt opens registers s in r = -1 /\ joined s' = true.
Proof. intros Hr%Z.eqb_neq Ho. unfold service_init. by rewrite Ho, Hr. Qed.
