(* ===== verification/Binders.v ===== *)
(** * Binding of objects: TAF/taf/IORBinder, ObjectStubRef_T, CORBAInterfaceHandler_T

    An interface handler activates its servant with a POA and binds the reference it gets to a
    name with each of the binders of its sequence: in the IOR table, the ORB's initial
    references, the repository of discovery queries, a naming context or a file.  The ORB, the
    POA and the file system are not part of the repository; [Orb] has the calls that are made of
    them and [OrbLaws] what their specifications say.  Binders are shared objects, kept in a
    store. *)

From S2P Require Import Prelude CString Text Configurator Naming Discovery.
From Stdlib Require Import Ascii.

Abbreviation text := (list ascii).

(** What a call gives; [Crashed] is an access through a nil reference. *)
Inductive outcome (A : Type) := Done (a : A) | Raised | Crashed.
Arguments Done {A} a.
Arguments Raised {A}.
Arguments Crashed {A}.

(** What activating a servant gives. *)
Inductive activation (Oid : Type) := Activated (oid : Oid) | AlreadyActive | Refused.
Arguments Activated {Oid} oid.
Arguments AlreadyActive {Oid}.
Arguments Refused {Oid}.

Class Orb (W Obj Sv Oid : Type) := {
  object_to_string : W -> option Obj -> outcome text;
  string_to_object : W -> text -> outcome (option Obj);
  table_rebind : W -> text -> text -> W * outcome unit;
  table_unbind : W -> text -> W * outcome unit;
  register_initial_reference : W -> text -> option Obj -> W * outcome unit;
  unregister_initial_reference : W -> text -> W * outcome unit;
  resolve_initial_references : W -> text -> outcome (option Obj);
  file_create : W -> text -> W * bool;                       (* an ofstream on the file *)
  file_put : W -> text -> text -> W;
  file_text : W -> text -> option text;                      (* an ifstream on the file, all of it *)
  file_remove : W -> text -> W * Z;
  default_POA : W -> Sv -> bool;                             (* not nil *)
  activate_object : W -> Sv -> W * activation Oid;
  activate_object_with_id : W -> Oid -> Sv -> W * activation unit;
  id_to_reference : W -> Oid -> outcome (option Obj);
  servant_to_reference : W -> Sv -> outcome (option Obj);
  servant_to_id : W -> Sv -> outcome Oid;
  deactivate_object : W -> Oid -> W * outcome unit;
  stub_narrow : W -> option Obj -> outcome (option Obj);     (* _narrow to the stub's interface *)
}.

(** ** Binders *)

Definition DOT : ascii := ".".
Definition BACKSLASH : ascii := "\".
Definition QUOTE1 : ascii := "'".

(** TAF/taf/IORBinder.h:99-139 [IORBinder]. The classes of binders with their members. *)
Inductive binder (Obj : Type) :=
| PlainBinder
| RegisterIORTableBinder
| RegisterInitReferenceBinder
| RegisterIORQueryBinder
| NamingServiceBinder (context_ : option Obj)
| IORFileBinder (directory_ filename_ : text).
Arguments PlainBinder {Obj}.
Arguments RegisterIORTableBinder {Obj}.
Arguments RegisterInitReferenceBinder {Obj}.
Arguments RegisterIORQueryBinder {Obj}.
Arguments NamingServiceBinder {Obj} context_.
Arguments IORFileBinder {Obj} directory_ filename_.

(** TAF/taf/IORBinder.cpp:195-207 [IORFileBinder::IORFileBinder]. [bind_dir]: the argument with its properties substituted. *)
Definition bind_directory (bind_dir : text) : text :=
  match last bind_dir with
  | None => []
  | Some c => (if bool_decide (c = BACKSLASH \/ c = SLASH) then removelast bind_dir else bind_dir) ++ [SLASH]
  end.

(** TAF/taf/IORBinder.cpp:210-217 [IORFileBinder::make_bind_name]. *)
Definition file_bind_name (name : text) : text :=
  match find_char DOT name with
  | Some (S _) => name
  | _ => name ++ str ".ior"
  end.

(** TAF/taf/IORBinder.cpp:224-230 [IORFileBinder::init_bind]. *)
Definition bind_filename (directory name : text) : text :=
  let filename := trim (directory ++ name) in
  match find_char SPACE filename with
  | Some (S _) => QUOTE1 :: filename ++ [QUOTE1]
  | _ => filename
  end.

(** Everything the binders work on: the outside, the repository of queries and the binders. *)
Record world (W Obj : Type) := World {
  ext : W;
  servants : list (IORQueryServant Obj);
  binders : gmap nat (binder Obj);
}.
Arguments World {W Obj}.
Arguments ext {W Obj}.
Arguments servants {W Obj}.
Arguments binders {W Obj}.

(** TAF/taf/IORBinder.h:73-95 [IORBinderSequence]. *)
Record IORBinderSequence := Sequence { bind_name_ : text; refs : list (option nat) }.

Section binders.
Context {W Obj Sv Oid : Type} `{Orb W Obj Sv Oid, CosNaming W Obj}.
Context (root : option Obj).
Abbreviation wd := (world W Obj).

Definition set_ext (e : W) (w : wd) : wd := World e (servants w) (binders w).
Definition set_servants (l : list (IORQueryServant Obj)) (w : wd) : wd := World (ext w) l (binders w).
Definition set_binder (b : nat) (x : binder Obj) (w : wd) : wd := World (ext w) (servants w) (<[b := x]> (binders w)).

(** [f(...); return 0;] with a call of the outside. *)
Definition call_ext (r : W * outcome unit) (w : wd) : wd * outcome Z :=
  (set_ext r.1 w, match r.2 with Done _ => Done 0 | Raised => Raised | Crashed => Crashed end).

(** A call of a naming context. *)
Definition call_naming (r : option (W * nres unit)) (w : wd) : wd * outcome Z :=
  match r with
  | Some (e, NOk _) => (set_ext e w, Done 0)
  | Some (e, NThrow _) => (set_ext e w, Raised)
  | Some (e, NNil) => (set_ext e w, Crashed)
  | None => (w, Crashed)
  end.

Definition make_bind_name (x : binder Obj) (name : text) : text :=
  match x with IORFileBinder _ _ => file_bind_name name | _ => name end.

(** TAF/taf/IORBinder.cpp:219-241 [IORFileBinder::init_bind]. *)
Definition file_init_bind (b : nat) (directory name : text) (p : option Obj) (w : wd) : wd * outcome Z :=
  match p with
  | Some _ =>
      if bool_decide (name = []) then (w, Done (-1))
      else
        let filename := bind_filename directory name in
        if bool_decide (filename = []) then (w, Done (-1))
        else match file_create (ext w) (c_str filename) with
             | (e, true) =>
                 let w := set_binder b (IORFileBinder directory filename) (set_ext e w) in
                 match object_to_string (ext w) p with
                 | Done s => (set_ext (file_put (ext w) (c_str filename) s) w, Done 0)
                 | Raised => (w, Done (-1))
                 | Crashed => (w, Crashed)
                 end
             | (e, false) => (set_ext e w, Done (-1))
             end
  | None => (w, Done (-1))
  end.

(** TAF/taf/IORBinder.cpp:132-183 [IORBinder::init_bind]. Of the class of the binder; the last is [file_init_bind]. *)
Definition binder_init_bind (b : nat) (x : binder Obj) (name : text) (p : option Obj) (w : wd) : wd * outcome Z :=
  match x with
  | PlainBinder => (w, Done 0)
  | RegisterIORTableBinder =>
      match object_to_string (ext w) p with
      | Done s => call_ext (table_rebind (ext w) (c_str name) (c_str s)) w
      | Raised => (w, Raised)
      | Crashed => (w, Crashed)
      end
  | RegisterInitReferenceBinder => call_ext (register_initial_reference (ext w) (c_str name) p) w
  | RegisterIORQueryBinder => (set_servants (registerQueryService p name (servants w)).2 w, Done 0)
  | NamingServiceBinder context =>
      match p with
      | Some o => call_naming (bind_name root 2 (S (length name)) context name (Some o) (ext w)) w
      | None => (w, Done (-1))
      end
  | IORFileBinder directory _ => file_init_bind b directory name p w
  end.

(** TAF/taf/IORBinder.cpp:138-189 [IORBinder::fini_bind]. And 243-247 for the file. *)
Definition binder_fini_bind (x : binder Obj) (name : text) (w : wd) : wd * outcome Z :=
  match x with
  | PlainBinder => (w, Done 0)
  | RegisterIORTableBinder => call_ext (table_unbind (ext w) (c_str name)) w
  | RegisterInitReferenceBinder => call_ext (unregister_initial_reference (ext w) (c_str name)) w
  | RegisterIORQueryBinder => (set_servants (unregisterQueryService name (servants w)).2 w, Done 0)
  | NamingServiceBinder context => call_naming (unbind_name root 2 (S (length name)) context name (ext w)) w
  | IORFileBinder _ filename =>
      if bool_decide (filename = []) then (w, Done 0)
      else let '(e, rc) := file_remove (ext w) (c_str filename) in (set_ext e w, Done rc)
  end.

(** *** Sequences *)

(** TAF/taf/IORBinder.cpp:57-61 [IORBinderSequence::add_binding]. *)
Definition add_binding (r : option nat) (q : IORBinderSequence) : IORBinderSequence :=
  match r with Some b => Sequence (bind_name_ q) (refs q ++ [Some b]) | None => q end.

(** TAF/taf/IORBinder.cpp:70-93 [IORBinderSequence::init_bind]. The references that stay, and the errors; [None] in the second
    place: the program has crashed. *)
Fixpoint init_loop (name : text) (p : option Obj) (l : list (option nat)) (w : wd) : wd * option (list (option nat) * Z) :=
  match l with
  | [] => (w, Some ([], 0))
  | r :: l =>
      match r ≫= (fun b => binders w !! b) with
      | Some x =>
          match binder_init_bind (default 0%nat r) x (make_bind_name x name) p w with
          | (w, Done 0) => let '(w, q) := init_loop name p l w in (w, (fun '(l, e) => (r :: l, e)) <$> q)
          | (w, Crashed) => (w, None)
          | (w, _) => let '(w, q) := init_loop name p l w in (w, (fun '(l, e) => (l, e + 1)) <$> q)
          end
      | None => init_loop name p l w
      end
  end.

(** TAF/taf/IORBinder.cpp:63-96 [IORBinderSequence::init_bind]. *)
Definition sequence_init_bind (q : IORBinderSequence) (name : text) (p : option Obj) (w : wd) : wd * option (IORBinderSequence * Z) :=
  let n := trim name in
  let '(w, r) := init_loop n p (refs q) w in
  (w, (fun '(l, errors) => (Sequence n l, errors)) <$> r).

(** TAF/taf/IORBinder.cpp:103-124 [IORBinderSequence::fini_bind]. *)
Fixpoint fini_loop (name : text) (l : list (option nat)) (w : wd) : wd * option Z :=
  match l with
  | [] => (w, Some 0)
  | r :: l =>
      match r ≫= (fun b => binders w !! b) with
      | Some x =>
          match binder_fini_bind x (make_bind_name x name) w with
          | (w, Done 0) => fini_loop name l w
          | (w, Crashed) => (w, None)
          | (w, _) => let '(w, e) := fini_loop name l w in (w, Z.add 1 <$> e)
          end
      | None => (w, None)
      end
  end.

(** TAF/taf/IORBinder.cpp:98-127 [IORBinderSequence::fini_bind]. *)
Definition sequence_fini_bind (q : IORBinderSequence) (w : wd) : wd * option Z := fini_loop (bind_name_ q) (rev (refs q)) w.

(** ** Activation *)

(** The stub of a reference. *)
Definition narrow_stub (w : wd) (r : outcome (option Obj)) : outcome (option Obj) :=
  match r with Done o => stub_narrow (ext w) o | Raised => Raised | Crashed => Crashed end.

(** TAF/taf/ObjectStubRef_T.cpp:30-41 [ObjectStubTraits::stub_reference]. *)
Definition stub_reference (p : option Sv) (w : wd) : outcome (option Obj) :=
  match p with
  | Some sv =>
      if default_POA (ext w) sv then
        match narrow_stub w (servant_to_reference (ext w) sv) with
        | Raised => Done None
        | r => r
        end
      else Done None
  | None => Done None
  end.

(** TAF/taf/ObjectStubRef_T.cpp:43-57 [ObjectStubTraits::activate]. NoServant and the POA's other exceptions are [Raised]. *)
Definition activate (p : option Sv) (w : wd) : wd * outcome (option Obj) :=
  match p with
  | Some sv =>
      if default_POA (ext w) sv then
        match activate_object (ext w) sv with
        | (e, Activated oid) => let w := set_ext e w in (w, narrow_stub w (id_to_reference e oid))
        | (e, AlreadyActive) => let w := set_ext e w in (w, stub_reference p w)
        | (e, Refused) => (set_ext e w, Raised)
        end
      else (w, Raised)
  | None => (w, Raised)
  end.

(** TAF/taf/ObjectStubRef_T.cpp:59-73 [ObjectStubTraits::activate_with_id]. *)
Definition activate_with_id (p : option Sv) (oid : Oid) (w : wd) : wd * outcome (option Obj) :=
  match p with
  | Some sv =>
      if default_POA (ext w) sv then
        match activate_object_with_id (ext w) oid sv with
        | (e, Activated _) => let w := set_ext e w in (w, narrow_stub w (id_to_reference e oid))
        | (e, AlreadyActive) => let w := set_ext e w in (w, stub_reference p w)
        | (e, Refused) => (set_ext e w, Raised)
        end
      else (w, Raised)
  | None => (w, Raised)
  end.

(** TAF/taf/ObjectStubRef_T.cpp:75-85 [ObjectStubTraits::deactivate]. *)
Definition deactivate (p : option Sv) (w : wd) : wd :=
  match p with
  | Some sv =>
      if default_POA (ext w) sv then
        match servant_to_id (ext w) sv with
        | Done oid => set_ext (deactivate_object (ext w) oid).1 w
        | _ => w
        end
      else w
  | None => w
  end.

(** ** Interface handlers *)

(** TAF/taf/CORBAInterfaceHandler_T.h:45-91 [CORBAInterfaceHandler_T]. [me] is the servant the handler is. *)
Record handler := Handler { me : Sv; ior_binder_ : IORBinderSequence; stub_reference_ : option Obj; stub_activated_ : bool }.

(** TAF/taf/CORBAInterfaceHandler_T.cpp:87-94 [CORBAInterfaceHandler_T::init_bind_i]. *)
Definition init_bind_i (name : text) (h : handler) (w : wd) : wd * option (handler * Z) :=
  match stub_reference_ h with
  | Some o =>
      let '(w, r) := sequence_init_bind (ior_binder_ h) name (Some o) w in
      (w, (fun '(q, errors) => (Handler (me h) q (Some o) true, errors)) <$> r)
  | None => (w, Some (h, -1))
  end.

(** What both overloads of init_bind do with the reference activation gives. *)
Definition bind_activated (name : text) (h : handler) (r : wd * outcome (option Obj)) : wd * option (handler * Z) :=
  match r with
  | (w, Done o) =>
      let h := Handler (me h) (ior_binder_ h) o (stub_activated_ h) in
      match o with Some _ => init_bind_i name h w | None => (w, Some (h, -1)) end
  | (w, Raised) => (w, Some (h, -1))
  | (w, Crashed) => (w, None)
  end.

(** TAF/taf/CORBAInterfaceHandler_T.cpp:44-56 [CORBAInterfaceHandler_T::init_bind]. *)
Definition init_bind (name : text) (h : handler) (w : wd) : wd * option (handler * Z) :=
  if stub_activated_ h then (w, Some (h, -1)) else bind_activated name h (activate (Some (me h)) w).

(** TAF/taf/CORBAInterfaceHandler_T.cpp:58-70 [CORBAInterfaceHandler_T::init_bind]. *)
Definition init_bind_with_id (name : text) (id : Oid) (h : handler) (w : wd) : wd * option (handler * Z) :=
  if stub_activated_ h then (w, Some (h, -1)) else bind_activated name h (activate_with_id (Some (me h)) id w).

(** TAF/taf/CORBAInterfaceHandler_T.cpp:72-85 [CORBAInterfaceHandler_T::fini_bind]. *)
Definition fini_bind (h : handler) (w : wd) : wd * option (handler * Z) :=
  if stub_activated_ h then
    let h := Handler (me h) (ior_binder_ h) (stub_reference_ h) false in
    match sequence_fini_bind (ior_binder_ h) w with
    | (w, Some rtn) => (deactivate (Some (me h)) w, Some (h, rtn))
    | (w, None) => (w, None)
    end
  else (w, Some (h, -1)).
End binders.

(** ** What the ORB promises *)

(** What can be seen of the outside: the IOR table, the initial references, the files and the
    active objects. *)
Record orb_view (Obj Sv Oid : Type) `{Countable Sv} := OrbView {
  table : gmap text text;
  initial : gmap text Obj;
  files : gmap text text;
  active : gmap Sv Oid;
}.
Arguments OrbView {Obj Sv Oid _ _}.
Arguments table {Obj Sv Oid _ _}.
Arguments initial {Obj Sv Oid _ _}.
Arguments files {Obj Sv Oid _ _}.
Arguments active {Obj Sv Oid _ _}.

(** [ior] is the text of a reference and [obj_of] the reference of an object's id. *)
Class OrbLaws (W Obj Sv Oid : Type) `{Countable Sv, Orb W Obj Sv Oid} (view : W -> orb_view Obj Sv Oid)
  (ior : Obj -> text) (obj_of : Oid -> Obj) : Prop := {
  object_to_string_law : forall w o, object_to_string w (Some o) = Done (ior o);
  ior_law : forall o, (NUL ∉ ior o) /\ ior o <> [];
  string_to_object_law : forall w o, string_to_object w (ior o) = Done (Some o);
  table_rebind_law : forall w n s, exists w', table_rebind w n s = (w', Done tt)
    /\ view w' = OrbView (<[n := s]> (table (view w))) (initial (view w)) (files (view w)) (active (view w));
  table_unbind_law : forall w n, n ∈ dom (table (view w)) -> exists w', table_unbind w n = (w', Done tt)
    /\ view w' = OrbView (base.delete n (table (view w))) (initial (view w)) (files (view w)) (active (view w));
  register_law : forall w n o, match initial (view w) !! n with
    | Some _ => register_initial_reference w n (Some o) = (w, Raised)
    | None => exists w', register_initial_reference w n (Some o) = (w', Done tt)
        /\ view w' = OrbView (table (view w)) (<[n := o]> (initial (view w))) (files (view w)) (active (view w))
    end;
  unregister_law : forall w n, n ∈ dom (initial (view w)) -> exists w', unregister_initial_reference w n = (w', Done tt)
    /\ view w' = OrbView (table (view w)) (base.delete n (initial (view w))) (files (view w)) (active (view w));
  file_put_law : forall w f s w', file_create w f = (w', true) ->
    view (file_put w' f s) = OrbView (table (view w)) (initial (view w)) (<[f := s]> (files (view w))) (active (view w));
  file_text_law : forall w f, file_text w f = files (view w) !! f;
  file_remove_law : forall w f, f ∈ dom (files (view w)) -> exists w', file_remove w f = (w', 0)
    /\ view w' = OrbView (table (view w)) (initial (view w)) (base.delete f (files (view w))) (active (view w));
  activate_law : forall w sv, default_POA w sv = true -> match active (view w) !! sv with
    | Some _ => activate_object w sv = (w, AlreadyActive)
    | None => exists w' oid, activate_object w sv = (w', Activated oid)
        /\ view w' = OrbView (table (view w)) (initial (view w)) (files (view w)) (<[sv := oid]> (active (view w)))
    end;
  id_to_reference_law : forall w sv oid, active (view w) !! sv = Some oid -> id_to_reference w oid = Done (Some (obj_of oid));
  servant_to_id_law : forall w sv oid, active (view w) !! sv = Some oid -> servant_to_id w sv = Done oid;
  deactivate_law : forall w sv oid, active (view w) !! sv = Some oid ->
    view (deactivate_object w oid).1 = OrbView (table (view w)) (initial (view w)) (files (view w)) (base.delete sv (active (view w)));
  stub_narrow_law : forall w o, stub_narrow w (Some o) = Done (Some o);
  default_POA_law : forall w w' sv, default_POA w sv = default_POA w' sv;
}.

Section laws.
Context {W Obj Sv Oid : Type} `{Countable Sv, Orb W Obj Sv Oid, CosNaming W Obj} (view : W -> orb_view Obj Sv Oid)
  (ior : Obj -> text) (obj_of : Oid -> Obj) `{!OrbLaws W Obj Sv Oid view ior obj_of}.
Context (root : option Obj).
Abbreviation wd := (world W Obj).
Implicit Types (w : wd).

Lemma trim_no_nul s : NUL ∉ trim s.
Proof.
  unfold trim. destruct (trim_string_spec s SPACE) as (pre & mid & post & _ & -> & _).
  intros [x [E _]]%list_elem_of_fmap. unfold uncontrol in E. destruct (iscntrl x) eqn:Ex; [done|]. by subst.
Qed.

Lemma trim_trim s : trim (trim s) = trim s.
Proof. apply trim_string_idempotent. Qed.

(** The three binders of TAF_DEFAULT_IOR_BINDER, in the store. *)
Definition default_binders (q : IORBinderSequence) w : Prop :=
  exists b1 b2 b3, refs q = [Some b1; Some b2; Some b3] /\ binders w !! b1 = Some RegisterIORTableBinder
  /\ binders w !! b2 = Some RegisterInitReferenceBinder /\ binders w !! b3 = Some RegisterIORQueryBinder.

(** What binding the name [n] to [o] with the default binders makes of the view. *)
Definition bound_view (n : text) (o : Obj) (v : orb_view Obj Sv Oid) : orb_view Obj Sv Oid :=
  OrbView (<[n := ior o]> (table v)) (match initial v !! n with Some _ => initial v | None => <[n := o]> (initial v) end) (files v) (active v).

Lemma init_default q name o w : default_binders q w -> trim name <> [] ->
  exists w' l, sequence_init_bind root q name (Some o) w
    = (w', Some (Sequence (trim name) l, match initial (view (ext w)) !! trim name with Some _ => 1 | None => 0 end))
  /\ view (ext w') = bound_view (trim name) o (view (ext w)) /\ binders w' = binders w
  /\ servants w' = put_servant o (trim name) (servants w)
  /\ l = match initial (view (ext w)) !! trim name with
         | Some _ => match refs q with [a; _; c] => [a; c] | l => l end
         | None => refs q
         end.
Proof.
  intros (b1 & b2 & b3 & Er & E1 & E2 & E3) Hn. set (n := trim name) in *.
  assert (c_str n = n) as Hcn by (apply c_str_nul, trim_no_nul). assert (trim n = n) as Htn by apply trim_trim.
  destruct (table_rebind_law (ext w) n (c_str (ior o))) as (e1 & T1 & V1).
  pose proof (register_law e1 n o) as Hr. rewrite V1 in Hr. cbn [initial table files active] in Hr.
  assert (c_str (ior o) = ior o) as Hi by (apply c_str_nul, ior_law).
  unfold sequence_init_bind. fold n. rewrite Er. cbn [init_loop mbind option_bind]. rewrite E1. cbn [binder_init_bind make_bind_name].
  rewrite object_to_string_law, Hcn, T1. unfold call_ext. cbn [fst snd binders ext set_ext]. rewrite E2. cbn [binder_init_bind make_bind_name].
  rewrite Hcn. cbn [ext set_ext].
  assert (registerQueryService (Some o) n (servants w) = (0, put_servant o n (servants w))) as Hq.
  { unfold registerQueryService. rewrite Htn. by rewrite bool_decide_false. }
  destruct (initial (view (ext w)) !! n) as [o'|] eqn:En.
  - rewrite Hr. cbn [init_loop mbind option_bind binder_init_bind make_bind_name call_ext fst snd binders ext servants set_ext set_servants default]. rewrite E3.
    cbn [init_loop mbind option_bind binder_init_bind make_bind_name call_ext fst snd binders ext servants set_ext set_servants default]. rewrite Hq. cbn. eexists _, _. split; [done|]. cbn. rewrite V1, Hi. unfold bound_view. rewrite En. done.
  - destruct Hr as (e2 & -> & V2). cbn [init_loop mbind option_bind binder_init_bind make_bind_name call_ext fst snd binders ext servants set_ext set_servants default]. rewrite E3.
    cbn [init_loop mbind option_bind binder_init_bind make_bind_name call_ext fst snd binders ext servants set_ext set_servants default]. rewrite Hq. cbn. eexists _, _. split; [done|]. cbn. rewrite V2, Hi. unfold bound_view. rewrite En. done.
Qed.

Lemma fini_default (had : bool) n b1 b2 b3 w : NUL ∉ n -> n <> [] -> trim n = n ->
  binders w !! b1 = Some RegisterIORTableBinder -> binders w !! b2 = Some RegisterInitReferenceBinder ->
  binders w !! b3 = Some RegisterIORQueryBinder -> n ∈ dom (table (view (ext w))) -> (had = false -> n ∈ dom (initial (view (ext w)))) ->
  exists w', sequence_fini_bind root (Sequence n (if had then [Some b1; Some b3] else [Some b1; Some b2; Some b3])) w = (w', Some 0)
  /\ view (ext w') = OrbView (base.delete n (table (view (ext w))))
       (if had then initial (view (ext w)) else base.delete n (initial (view (ext w)))) (files (view (ext w))) (active (view (ext w)))
  /\ binders w' = binders w /\ servants w' = (unregisterQueryService n (servants w)).2.
Proof.
  intros Hn Hne Ht E1 E2 E3 Hd1 Hd2. assert (c_str n = n) as Hcn by (by apply c_str_nul).
  unfold sequence_fini_bind. destruct had; cbn [refs rev app fini_loop mbind option_bind bind_name_]; rewrite E3; cbn [binder_fini_bind];
    cbn [fini_loop mbind option_bind binders set_servants make_bind_name].
  - rewrite E1. cbn [binder_fini_bind make_bind_name ext set_servants]. rewrite Hcn.
    destruct (table_unbind_law (ext w) n Hd1) as (e1 & -> & V1). cbn. eexists. split; [done|]. cbn. by rewrite V1.
  - rewrite E2. cbn [binder_fini_bind make_bind_name ext set_servants]. rewrite Hcn.
    destruct (unregister_law (ext w) n (Hd2 eq_refl)) as (e1 & -> & V1).
    cbn [call_ext fst snd fini_loop mbind option_bind binders ext servants set_ext set_servants].
    rewrite E1. cbn [binder_fini_bind make_bind_name ext set_ext]. rewrite Hcn.
    destruct (table_unbind_law e1 n) as (e2 & -> & V2); [by rewrite V1|]. cbn. eexists. split; [done|]. cbn. by rewrite V2, V1.
Qed.

(** C23 (roundtrip). An interface handler with the default binders, whose servant has a POA and is not active, bound to a name that is not blank
    and unbound: once bound its servant is active under an id, the handler keeps the reference of that id, and the IOR table and the
    repository of queries lead from the name to that reference, as do the initial references unless the name was registered there before,
    which is the one error; nothing else of the ORB has changed.  Binding again is refused; and unbinding leaves the servant
    inactive, the initial references as they were, and the name in neither table nor repository. *)
Theorem handler_bind_roundtrip name h w : stub_activated_ h = false -> default_binders (ior_binder_ h) w -> trim name <> [] ->
  default_POA (ext w) (me h) = true -> active (view (ext w)) !! me h = None -> NoDup (ident <$> servants w) ->
  let n := trim name in
  exists w1 h1 oid, init_bind root name h w = (w1, Some (h1, match initial (view (ext w)) !! n with Some _ => 1 | None => 0 end))
  /\ stub_reference_ h1 = Some (obj_of oid)
  /\ view (ext w1) = OrbView (<[n := ior (obj_of oid)]> (table (view (ext w))))
       (match initial (view (ext w)) !! n with Some _ => initial (view (ext w)) | None => <[n := obj_of oid]> (initial (view (ext w))) end)
       (files (view (ext w))) (<[me h := oid]> (active (view (ext w))))
  /\ repo_map (servants w1) = <[n := Some (obj_of oid)]> (repo_map (servants w))
  /\ init_bind root name h1 w1 = (w1, Some (h1, -1))
  /\ exists w2 h2, fini_bind root h1 w1 = (w2, Some (h2, 0)) /\ stub_activated_ h2 = false
    /\ view (ext w2) = OrbView (base.delete n (table (view (ext w)))) (initial (view (ext w))) (files (view (ext w))) (active (view (ext w)))
    /\ repo_map (servants w2) = base.delete n (repo_map (servants w)).
Proof.
  intros Hact Hdb Hne Hpoa Hina Hd n. pose proof Hdb as (b1 & b2 & b3 & Er & E1 & E2 & E3).
  pose proof (activate_law (ext w) (me h) Hpoa) as Ha. rewrite Hina in Ha. destruct Ha as (e1 & oid & Ea & Va).
  set (o := obj_of oid). assert (c_str n = n) as Hcn by (apply c_str_nul, trim_no_nul).
  destruct (init_default (ior_binder_ h) name o (set_ext e1 w)) as (w1 & l & F1 & F2 & F3 & F4 & F5); [by exists b1, b2, b3|done|].
  fold n in F1, F2, F4, F5. cbn [ext set_ext servants] in F1, F2, F4, F5. rewrite Va in F1, F2, F5. cbn [initial] in F1, F5.
  set (errors := match initial (view (ext w)) !! n with Some _ => 1 | None => 0 end) in *.
  set (h1 := Handler (me h) (Sequence n l) (Some o) true).
  assert (init_bind root name h w = (w1, Some (h1, errors))) as Hi.
  { unfold init_bind, bind_activated, activate, narrow_stub. rewrite Hact, Hpoa, Ea.
    assert (active (view e1) !! me h = Some oid) as Hoid by (rewrite Va; cbn; by rewrite lookup_insert_eq).
    rewrite (id_to_reference_law e1 (me h) oid Hoid), stub_narrow_law. unfold init_bind_i. cbn [stub_reference_ ior_binder_ me]. fold o. by rewrite F1. }
  pose proof (put_servant_spec o n (servants w) Hd) as (P1 & P2 & P3). rewrite <- F4 in P1, P2, P3.
  exists w1, h1, oid. split; [exact Hi|]. split; [done|]. split; [exact F2|]. split; [exact P3|]. split; [done|].
  set (had := match initial (view (ext w)) !! n with Some _ => true | None => false end).
  assert (l = (if had then [Some b1; Some b3] else [Some b1; Some b2; Some b3])) as El.
  { rewrite F5, Er. unfold had. by destruct (initial (view (ext w)) !! n). }
  destruct (fini_default had n b1 b2 b3 w1) as (w2 & G1 & G2 & G3 & G4); rewrite ?F3; try done.
  { apply trim_no_nul. } { apply trim_trim. }
  { rewrite F2. cbn. apply elem_of_dom. rewrite lookup_insert_eq. by eexists. }
  { intros Hh. rewrite F2. cbn. apply elem_of_dom. unfold had in Hh. destruct (initial (view (ext w)) !! n); [done|]. rewrite lookup_insert_eq. by eexists. }
  exists (deactivate (Some (me h)) w2), (Handler (me h) (Sequence n l) (Some o) false). split; [|split; [done|]].
  - unfold fini_bind. cbn [stub_activated_ h1 me ior_binder_ stub_reference_]. rewrite El, G1. done.
  - assert (active (view (ext w2)) !! me h = Some oid) as Hoid by (rewrite G2, F2; cbn; by rewrite lookup_insert_eq).
    unfold deactivate. rewrite (default_POA_law (ext w2) (ext w)), Hpoa, (servant_to_id_law _ _ _ Hoid). cbn [ext set_ext servants].
    rewrite (deactivate_law _ _ _ Hoid), G2, F2, G4. cbn [bound_view table initial files active]. split.
    + rewrite delete_insert_eq, delete_insert_id by done. f_equal.
      unfold had. destruct (initial (view (ext w)) !! n) eqn:En; [done|]. by rewrite delete_insert_id.
    + pose proof (drop_servant_spec n (servants w1) P1) as Hdrop. assert (trim n = n) as Htn by apply trim_trim.
      unfold unregisterQueryService. rewrite Htn, bool_decide_false by done.
      assert (n ∈ ident <$> servants w1) as Hin by (apply P2; by left).
      destruct (drop_servant n (servants w1)) as [l'|]; [|done]. destruct Hdrop as (_ & _ & _ & E). cbn [snd]. rewrite E, P3. by rewrite delete_insert_eq.
Qed.
End laws.

(** ** An ORB *)

(** An ORB that keeps its tables and activates a servant under the servant's own number; the
    number of an object is the length of its reference. *)
Module SmallOrb.
Record orb := MkOrb {
  o_table : gmap text text;
  o_initial : gmap text nat;
  o_files : gmap text text;
  o_active : gmap nat unit;
}.
Definition orb_tables (w : orb) : orb_view nat nat nat :=
  OrbView (o_table w) (o_initial w) (o_files w) (map_imap (fun sv _ => Some sv) (o_active w)).

Definition prefix : text := str "IOR:".
Definition ior_text (o : nat) : text := prefix ++ replicate o "."%char.
Definition initial_orb : orb := MkOrb ∅ ∅ ∅ ∅.

Definition with_table t (w : orb) : orb := MkOrb t (o_initial w) (o_files w) (o_active w).
Definition with_initial i (w : orb) : orb := MkOrb (o_table w) i (o_files w) (o_active w).
Definition with_files f (w : orb) : orb := MkOrb (o_table w) (o_initial w) f (o_active w).
Definition with_active a (w : orb) : orb := MkOrb (o_table w) (o_initial w) (o_files w) a.

Definition raised_if (b : bool) : outcome unit := if b then Raised else Done tt.
Definition missing {A} (m : gmap text A) (n : text) : bool := match m !! n with Some _ => false | None => true end.
Definition found_as (w : orb) (sv : nat) : outcome nat := match o_active w !! sv with Some _ => Done sv | None => Raised end.

#[export] Instance small_orb : Orb orb nat nat nat := {|
  object_to_string _ o := match o with Some o => Done (ior_text o) | None => Done prefix end;
  string_to_object _ s := if bool_decide (take 4 s = prefix) then Done (Some (length s - 4)%nat) else Raised;
  table_rebind w n s := (with_table (<[n := s]> (o_table w)) w, Done tt);
  table_unbind w n := (with_table (base.delete n (o_table w)) w, raised_if (missing (o_table w) n));
  register_initial_reference w n o :=
    match o, o_initial w !! n with
    | Some o, None => (with_initial (<[n := o]> (o_initial w)) w, Done tt)
    | _, _ => (w, Raised)
    end;
  unregister_initial_reference w n := (with_initial (base.delete n (o_initial w)) w, raised_if (missing (o_initial w) n));
  resolve_initial_references w n := match o_initial w !! n with Some o => Done (Some o) | None => Raised end;
  file_create w f := (w, true);
  file_put w f s := with_files (<[f := s]> (o_files w)) w;
  file_text w f := o_files w !! f;
  file_remove w f := (with_files (base.delete f (o_files w)) w, if missing (o_files w) f then -1 else 0);
  default_POA _ _ := true;
  activate_object w sv :=
    match o_active w !! sv with
    | Some _ => (w, AlreadyActive)
    | None => (with_active (<[sv := tt]> (o_active w)) w, Activated sv)
    end;
  activate_object_with_id w oid sv :=
    match o_active w !! sv with
    | Some _ => (w, AlreadyActive)
    | None => if bool_decide (oid = sv) then (with_active (<[sv := tt]> (o_active w)) w, Activated tt) else (w, Refused)
    end;
  id_to_reference _ oid := Done (Some oid);
  servant_to_reference w sv := match found_as w sv with Done o => Done (Some o) | _ => Raised end;
  servant_to_id := found_as;
  deactivate_object w oid := (with_active (base.delete oid (o_active w)) w, Done tt);
  stub_narrow _ o := Done o;
|}.

Lemma in_domain {A} (m : gmap text A) n : n ∈ dom m -> missing m n = false.
Proof. intros [x Hx]%elem_of_dom. unfold missing. by rewrite Hx. Qed.

Lemma active_lookup w sv : active (orb_tables w) !! sv = (fun _ => sv) <$> (o_active w !! sv).
Proof. cbn. rewrite map_lookup_imap. by destruct (o_active w !! sv). Qed.

Lemma active_is w sv oid : active (orb_tables w) !! sv = Some oid -> oid = sv /\ found_as w sv = Done sv.
Proof. rewrite active_lookup. unfold found_as. by destruct (o_active w !! sv); [intros [= <-]|]. Qed.

#[export] Instance small_orb_laws : OrbLaws orb nat nat nat orb_tables ior_text id.
Proof.
  split; try (intros; reflexivity).
  - intros o. split; [|done]. cbn. rewrite !not_elem_of_cons, elem_of_replicate. split_and!; try done. by intros [? _].
  - intros w o. cbn. by rewrite bool_decide_true, length_replicate, Nat.sub_0_r.
  - intros w n s. by eexists.
  - intros w n Hn. cbn [table_unbind small_orb]. rewrite in_domain by done. by eexists.
  - intros w n o. cbn [initial orb_tables register_initial_reference small_orb]. destruct (o_initial w !! n); [done|]. by eexists.
  - intros w n Hn. cbn [unregister_initial_reference small_orb]. rewrite in_domain by done. by eexists.
  - intros w f s w' [= <-]. done.
  - intros w f Hf. cbn [file_remove small_orb]. rewrite in_domain by done. by eexists.
  - intros w sv _. rewrite active_lookup. cbn [activate_object small_orb]. destruct (o_active w !! sv); [done|].
    eexists _, sv. split; [done|]. unfold orb_tables, with_active. cbn. f_equal. apply map_eq. intros k.
    rewrite map_lookup_imap. destruct (decide (k = sv)) as [->|Hne]; [by rewrite !lookup_insert_eq|].
    by rewrite !lookup_insert_ne, map_lookup_imap by done.
  - intros w sv oid Ha. apply active_is in Ha as [-> E]. exact E.
  - intros w sv oid Ha. apply active_is in Ha as [-> _]. unfold orb_tables, with_active. cbn. f_equal. apply map_eq. intros k.
    rewrite map_lookup_imap. destruct (decide (k = sv)) as [->|Hne]; [by rewrite !lookup_delete_eq|].
    by rewrite !lookup_delete_ne, map_lookup_imap by done.
Qed.

(** There is no naming service. *)
#[export] Instance no_naming : CosNaming orb nat := {|
  narrow _ _ := false;
  ns_resolve _ _ _ := NThrow NotFound;
  ns_bind_new_context w _ _ := (w, NThrow NotFound);
  ns_rebind w _ _ _ := (w, NThrow NotFound);
  ns_rebind_context w _ _ _ := (w, NThrow NotFound);
  ns_unbind w _ _ := (w, NThrow NotFound);
|}.

(** A handler of servant 7 with the default binders, and the name registered by another object
    before. *)
Definition defaults : IORBinderSequence := Sequence [] [Some 0%nat; Some 1%nat; Some 2%nat].
Definition start : world orb nat :=
  World (with_initial {[ str "Clock" := 3%nat ]} initial_orb) []
    {[ 0%nat := RegisterIORTableBinder; 1%nat := RegisterInitReferenceBinder; 2%nat := RegisterIORQueryBinder ]}.
Definition clock : handler (Obj := nat) (Sv := nat) := Handler 7%nat defaults None false.

Lemma start_default : default_binders defaults start.
Proof. exists 0%nat, 1%nat, 2%nat. by vm_compute. Qed.

Lemma handler_bind_roundtrip_witness : exists w1 h1 w2 h2,
  init_bind None (str " Clock ") clock start = (w1, Some (h1, 1)) /\ repo_map (servants w1) = <[str "Clock" := Some 7%nat]> ∅
  /\ fini_bind None h1 w1 = (w2, Some (h2, 0)) /\ stub_activated_ h2 = false.
Proof.
  destruct (handler_bind_roundtrip orb_tables ior_text id None (str " Clock ") clock start)
    as (w1 & h1 & oid & E1 & _ & E0 & E2 & _ & w2 & h2 & E3 & E4 & _).
  - reflexivity.
  - exact start_default.
  - discriminate.
  - reflexivity.
  - reflexivity.
  - constructor.
  - assert (oid = 7%nat) as ->.
    { assert (active (orb_tables (ext w1)) !! 7%nat = Some oid) as Ea by (by rewrite E0). by apply active_is in Ea as [-> _]. }
    exists w1, h1, w2, h2. split; [exact E1|]. split; [exact E2|]. split; [exact E3|exact E4].
Defined.
End SmallOrb.
