(* ===== verification/StubRefs.v ===== *)
(** * References that activate their servant: TAF/taf/ObjectStubRef_T, ObjectStubRef

    An ObjectStubRef keeps a servant and the reference of the object it is activated as; it activates the servant when it is given one and
    deactivates it when it goes or is given another, if it is told to.  Activation and deactivation are those of
    [Binders]; the reference counts of servants are left out. *)

From S2P Require Import Prelude CString Text Configurator Naming Discovery Binders.

Section stub.
Context {W Obj Sv Oid : Type} `{Countable Sv, Orb W Obj Sv Oid}.
Abbreviation wd := (world W Obj).

(** TAF/taf/ObjectStubRef_T.h:66-94 [ObjectStubRef]. *)
Record stub_ref := StubRef { auto_deactivate_ : bool; servant_ref_ : option Sv; stub_of : option Obj }.

(** TAF/taf/ObjectStubRef_T.cpp:87-95 [ObjectStubRef::ObjectStubRef]. The other constructor, at lines 97-105, is the same. *)
Definition construct (impl : option Sv) (auto_deactivate : bool) (w : wd) : wd * outcome stub_ref :=
  match impl with
  | None => (w, Done (StubRef auto_deactivate None None))
  | Some sv =>
      match activate (Some sv) w with
      | (w, Done o) => (w, Done (StubRef auto_deactivate (Some sv) o))
      | (w, Raised) => (w, Raised)
      | (w, Crashed) => (w, Crashed)
      end
  end.

(** TAF/taf/ObjectStubRef_T.cpp:107-113 [ObjectStubRef::destructor]. *)
Definition destroy (s : stub_ref) (w : wd) : wd :=
  match servant_ref_ s with Some sv => if auto_deactivate_ s then deactivate (Some sv) w else w | None => w end.

(** TAF/taf/ObjectStubRef_T.cpp:115-134 [ObjectStubRef::reset]. The other overload, at lines 136-155, is the same.  [true]: the activation threw. *)
Definition reset (impl : option Sv) (auto_deactivate : bool) (s : stub_ref) (w : wd) : wd * outcome (stub_ref * bool) :=
  if bool_decide (servant_ref_ s = impl) then (w, Done (StubRef auto_deactivate impl (stub_of s), false))
  else
    let w := destroy s w in
    match impl with
    | None => (w, Done (StubRef auto_deactivate None None, false))
    | Some sv =>
        match activate (Some sv) w with
        | (w, Done o) => (w, Done (StubRef auto_deactivate (Some sv) o, false))
        | (w, Raised) => (w, Done (StubRef (auto_deactivate_ s) (Some sv) (stub_of s), true))
        | (w, Crashed) => (w, Crashed)
        end
    end.

(** TAF/taf/ObjectStubRef_T.cpp:178-183 [ObjectStubRef::release_impl]. *)
Definition release_impl (s : stub_ref) : stub_ref * option Sv := (StubRef (auto_deactivate_ s) None (stub_of s), servant_ref_ s).

(** ** What they do *)

Context (view : W -> orb_view Obj Sv Oid) (ior : Obj -> text) (obj_of : Oid -> Obj) `{!OrbLaws W Obj Sv Oid view ior obj_of}.
Context (poa : forall w sv, default_POA w sv = true).
Context (reference_law : forall w sv oid, active (view w) !! sv = Some oid -> servant_to_reference w sv = Done (Some (obj_of oid))).

Definition active_in (w : wd) : gmap Sv Oid := active (view (ext w)).

(** The reference is that of the object the servant is active as. *)
Definition holds (s : stub_ref) (w : wd) : Prop :=
  match servant_ref_ s with
  | Some sv => exists oid, active_in w !! sv = Some oid /\ stub_of s = Some (obj_of oid)
  | None => stub_of s = None
  end.

Lemma activate_spec sv w : exists w' oid, activate (Some sv) w = (w', Done (Some (obj_of oid))) /\ active_in w' !! sv = Some oid /\
  forall sv', sv' <> sv -> active_in w' !! sv' = active_in w !! sv'.
Proof.
  unfold activate. rewrite poa. pose proof (activate_law (ext w) sv (poa _ _)) as Hl. unfold active_in. destruct (active (view (ext w)) !! sv) as [oid|] eqn:E.
  - rewrite Hl. exists (set_ext (ext w) w), oid. split; [|by split]. unfold stub_reference. cbn. rewrite poa, (reference_law _ _ _ E). cbn. by rewrite stub_narrow_law.
  - destruct Hl as (w' & oid & -> & Ev). exists (set_ext w' w), oid. split; [|split].
    + rewrite (id_to_reference_law _ sv oid) by (rewrite Ev; apply lookup_insert_eq). cbn. by rewrite stub_narrow_law.
    + cbn. rewrite Ev. apply lookup_insert_eq.
    + intros sv' Hne. cbn. rewrite Ev. by apply lookup_insert_ne.
Qed.

Lemma deactivate_spec sv w oid : active_in w !! sv = Some oid -> active_in (deactivate (Some sv) w) = base.delete sv (active_in w).
Proof. intros E. unfold deactivate. rewrite poa, (servant_to_id_law _ _ _ E). unfold active_in. cbn. by rewrite (deactivate_law _ _ _ E). Qed.

(** A reference that is made for a servant refers to its object. *)
Lemma construct_holds impl b w : exists w' s, construct impl b w = (w', Done s) /\ servant_ref_ s = impl /\ holds s w'.
Proof.
  unfold construct. destruct impl as [sv|]; [|by eexists _, _]. destruct (activate_spec sv w) as (w' & oid & -> & Ea & _). eexists _, _. split; [done|]. split; [done|]. by exists oid.
Qed.

(** Given another servant it refers to that, and the one before is active no longer if the reference was told to deactivate it; no other servant is touched. *)
Lemma reset_holds impl b s w : holds s w -> servant_ref_ s <> impl -> exists w' s', reset impl b s w = (w', Done (s', false)) /\ servant_ref_ s' = impl /\ auto_deactivate_ s' = b /\ holds s' w' /\
  (forall sv, servant_ref_ s = Some sv -> active_in w' !! sv = if auto_deactivate_ s then None else active_in w !! sv) /\
  forall sv, Some sv <> servant_ref_ s -> Some sv <> impl -> active_in w' !! sv = active_in w !! sv.
Proof.
  intros Hs Hne. unfold reset. rewrite bool_decide_false by done. unfold holds in Hs. set (w1 := destroy s w).
  assert ((forall sv, servant_ref_ s = Some sv -> active_in w1 !! sv = if auto_deactivate_ s then None else active_in w !! sv) /\
    forall sv, Some sv <> servant_ref_ s -> active_in w1 !! sv = active_in w !! sv) as [Hd Ho].
  { subst w1. unfold destroy. destruct (servant_ref_ s) as [sv0|] eqn:Es; [|done]. destruct Hs as (oid & Ea & _). destruct (auto_deactivate_ s) eqn:Eb; [|done].
    rewrite (deactivate_spec sv0 w oid Ea). split; [intros ? [= <-]; apply lookup_delete_eq|]. intros sv Hx. by rewrite lookup_delete_ne by congruence. }
  destruct impl as [sv|]; [|eexists _, _; split; [done|]; do 3 (split; [done|]); split; [exact Hd|auto]].
  destruct (activate_spec sv w1) as (w2 & oid & -> & Ea & Hx). eexists _, _. split; [done|]. do 2 (split; [done|]). split; [by exists oid|]. split.
  - intros sv0 E0. rewrite Hx by congruence. by apply Hd.
  - intros sv0 H1 H2. rewrite Hx by congruence. by apply Ho.
Qed.

(** Two references for one servant: when the first goes the servant is deactivated, and the second refers to an object that is not there. *)
Lemma shared_servant_cut sv w : exists w1 w2 s1 s2, construct (Some sv) true w = (w1, Done s1) /\ construct (Some sv) true w1 = (w2, Done s2) /\ stub_of s1 = stub_of s2 /\
  active_in (destroy s1 w2) !! sv = None /\ ~ holds s2 (destroy s1 w2).
Proof.
  unfold construct. destruct (activate_spec sv w) as (w1 & oid & E1 & Ea & _). rewrite E1.
  destruct (activate_spec sv w1) as (w2 & oid2 & E2 & Ea2 & _). exists w1, w2, (StubRef true (Some sv) (Some (obj_of oid))), (StubRef true (Some sv) (Some (obj_of oid2))).
  split; [done|]. rewrite E2. split; [done|]. assert (active_in w2 !! sv = Some oid) as Ew.
  { revert E2. unfold activate. rewrite poa. pose proof (activate_law (ext w1) sv (poa _ _)) as Hl. unfold active_in in *. rewrite Ea in Hl. rewrite Hl. by intros [= <- _]. }
  assert (oid2 = oid) as -> by congruence. cbn [stub_of]. split; [done|]. unfold destroy. cbn [servant_ref_ auto_deactivate_].
  assert (active_in (deactivate (Some sv) w2) !! sv = None) as Hn by (rewrite (deactivate_spec sv w2 oid Ew); apply lookup_delete_eq).
  split; [done|]. unfold holds. cbn [servant_ref_]. rewrite Hn. by intros (? & ? & _).
Qed.

(** The servant that is released is deactivated by no one, and the reference goes on referring to its object. *)
Lemma released_stays sv s w : servant_ref_ s = Some sv -> stub_of (fst (release_impl s)) = stub_of s /\ destroy (fst (release_impl s)) w = w.
Proof. done. Qed.
End stub.
