(* ===== verification/Resolver.v ===== *)
(** * Resolving references: TAF/taf/IORResolver_T

    A chain runs its resolvers on the threads of an executor and waits on a monitor for one of
    them to have found the reference: in a file, the initial references or a naming context.
    What each resolver finds is a function of the world of [Binders]; the chain is a step
    relation between the thread in [resolve] and the threads of the resolvers. *)

From S2P Require Import Prelude CString Text Configurator Naming Discovery Binders.
From Stdlib Require Import Ascii.

Abbreviation text := (list ascii).

(** ** What the resolvers find *)

(** The result a [run] leaves in the resolver, and whether it signals the monitor. *)
Record found (Obj : Type) := Found { result_ : option Obj; signals : bool }.
Arguments Found {Obj}.
Arguments result_ {Obj}.
Arguments signals {Obj}.

(** TAF/taf/IORResolver_T.cpp:171-175 [FileResolver_T::FileResolver_T]. *)
Definition resolver_filename (name : text) : text :=
  match find_char DOT name with
  | Some (S _) => name
  | _ => name ++ str ".ior"
  end.

(** TAF/taf/IORResolver_T.cpp:153-169 [FileResolver_T::FileResolver_T]. *)
Definition resolver_directory (bindDirectory : text) : text := bind_directory bindDirectory.

Section resolvers.
Context {W Obj Sv Oid : Type} `{Orb W Obj Sv Oid, CosNaming W Obj}.
Context (root : option Obj).

(** Nothing found. *)
Definition not_found : found Obj := Found None false.

(** TAF/taf/IORResolver_T.cpp:185-224 [FileResolver_T::run]. It signals whatever _narrow gives. *)
Definition run_file (directory name : text) (w : W) : outcome (found Obj) :=
  let filename := trim (directory ++ resolver_filename name) in
  if bool_decide (filename = []) then Done not_found
  else match file_text w (c_str filename) with
       | Some iorFileString =>
           if bool_decide (iorFileString = []) then Done not_found
           else match string_to_object w (c_str iorFileString) with
                | Done obj => match stub_narrow w obj with
                              | Done r => Done (Found r true)
                              | Raised => Done not_found
                              | Crashed => Crashed
                              end
                | Raised => Done not_found
                | Crashed => Crashed
                end
       | None => Done not_found
       end.

(** What the other two do with the object they get. *)
Definition narrow_found (w : W) (obj : option Obj) : outcome (found Obj) :=
  match stub_narrow w obj with
  | Done (Some r) => Done (Found (Some r) true)
  | Done None => Done not_found
  | Raised => Done not_found
  | Crashed => Crashed
  end.

(** TAF/taf/IORResolver_T.cpp:240-271 [InitialRefResolver_T::run]. *)
Definition run_initial_ref (name : text) (w : W) : outcome (found Obj) :=
  match resolve_initial_references w (c_str name) with
  | Done obj => narrow_found w obj
  | Raised => Done not_found
  | Crashed => Crashed
  end.

(** TAF/taf/IORResolver_T.cpp:288-324 [NamingResolver_T::run]. *)
Definition run_naming (context : option Obj) (name : text) (w : W) : outcome (found Obj) :=
  match resolve_name root 2 (S (length name)) context (c_str name) w with
  | Some (w, NOk obj) => narrow_found w (Some obj)
  | Some (_, NThrow _) => Done not_found
  | Some (_, NNil) => Crashed
  | None => Crashed
  end.
End resolvers.

(** ** Files written by the binder *)

Section files.
Context {W Obj Sv Oid : Type} `{Countable Sv, Orb W Obj Sv Oid, CosNaming W Obj} (view : W -> orb_view Obj Sv Oid)
  (ior : Obj -> text) (obj_of : Oid -> Obj) `{!OrbLaws W Obj Sv Oid view ior obj_of}.
Context (root : option Obj).

(** Characters of a file name: no spaces and no control characters. *)
Definition plain_text (s : text) : Prop := Forall (fun c => iscntrl c = false /\ c <> SPACE) s.

Lemma plain_text_trim s : plain_text s -> plain_text (trim s).
Proof.
  intros Hs. unfold trim. destruct (trim_string_spec s SPACE) as (pre & mid & post & -> & -> & _).
  unfold plain_text in *. rewrite !Forall_app in Hs. destruct Hs as (_ & Hm & _). rewrite Forall_fmap.
  eapply Forall_impl; [exact Hm|]. intros c [Hc Hne]. unfold compose, uncontrol. by rewrite Hc.
Qed.

Lemma plain_text_no s : plain_text s -> (SPACE ∉ s) /\ NUL ∉ s.
Proof. intros Hs. unfold plain_text in Hs. rewrite Forall_forall in Hs. split; intros Hin; destruct (Hs _ Hin); done. Qed.

Lemma resolver_filename_plain name : plain_text name -> plain_text (resolver_filename name) /\ DOT ∈ resolver_filename name.
Proof.
  intros Hn. assert (plain_text (str ".ior")) as He by (repeat constructor; discriminate).
  unfold resolver_filename. destruct (find_char DOT name) as [[|i]|] eqn:Ei.
  1,3: split; [unfold plain_text in *; by apply Forall_app|apply elem_of_app; right; by left].
  split; [done|]. apply find_char_Some in Ei as (s1 & s2 & -> & _). apply elem_of_app. right. by left.
Qed.

(** A text with a dot is not trimmed away. *)
Lemma trim_dot s : DOT ∈ s -> trim s <> [].
Proof.
  intros Hd. unfold trim. destruct (trim_string_spec s SPACE) as (pre & mid & post & -> & -> & _ & H1' & H2').
  rewrite !elem_of_app in Hd. rewrite Forall_forall in H1', H2'.
  assert (~ removable SPACE DOT) as Hr by (intros [?|?]; done).
  destruct Hd as [Hd|[Hd|Hd]]; [by apply H1' in Hd| |by apply H2' in Hd]. by destruct mid; [apply elem_of_nil in Hd|].
Qed.

(** What the binder writes to is what the resolver reads. *)
Lemma file_name_agrees directory name : plain_text directory -> plain_text name ->
  let f := trim (directory ++ resolver_filename name) in
  bind_filename directory (file_bind_name name) = f /\ f <> [] /\ c_str f = f /\ file_bind_name name <> [].
Proof.
  intros Hd Hn f. change (file_bind_name name) with (resolver_filename name).
  destruct (resolver_filename_plain name Hn) as [Hp Hdot].
  assert (plain_text f) as Hf by (apply plain_text_trim; by apply Forall_app). apply plain_text_no in Hf as [Hsp Hnul].
  assert (f <> []) by (apply trim_dot; apply elem_of_app; by right).
  split_and!; [|done|by apply c_str_nul|by intros E; rewrite E in Hdot; apply elem_of_nil in Hdot].
  unfold bind_filename. fold f. by rewrite find_char_absent.
Qed.

(** The reference a file binder writes for a name is the one a file resolver with
    the same directory finds for it, while it is bound; once it is unbound the resolver finds
    nothing. *)
Theorem file_binding_resolves b directory filename name o w : plain_text directory -> plain_text name ->
  (file_create (ext w) (trim (directory ++ resolver_filename name))).2 = true ->
  let x := IORFileBinder directory filename in
  exists w1 y, binder_init_bind root b x (make_bind_name x name) (Some o) w = (w1, Done 0)
  /\ binders w1 !! b = Some y /\ run_file directory name (ext w1) = Done (Found (Some o) true)
  /\ exists w2, binder_fini_bind root y (make_bind_name y name) w1 = (w2, Done 0)
     /\ run_file directory name (ext w2) = Done not_found.
Proof.
  intros Hd Hn Hc x. destruct (file_name_agrees directory name Hd Hn) as (Ef & Hne & Hcf & Hb).
  set (f := trim (directory ++ resolver_filename name)) in *.
  destruct (file_create (ext w) f) as [e b'] eqn:Ec. cbn in Hc. subst b'.
  pose proof (file_put_law (ext w) f (ior o) e Ec) as Vp. set (e1 := file_put e f (ior o)) in *.
  destruct (ior_law (OrbLaws := OrbLaws0) o) as [Hio Hio'].
  exists (set_ext e1 (set_binder b (IORFileBinder directory f) (set_ext e w))), (IORFileBinder directory f). split.
  { unfold x. cbn [binder_init_bind make_bind_name]. unfold file_init_bind. rewrite bool_decide_false by done.
    rewrite Ef, Hcf, Ec. rewrite bool_decide_false by done. cbn [ext set_binder set_ext]. by rewrite object_to_string_law. }
  cbn [binders set_ext set_binder ext]. split; [by rewrite lookup_insert_eq|].
  assert (forall e', run_file directory name e' = match files (view e') !! f with
      | Some s => if bool_decide (s = []) then Done not_found else match string_to_object e' (c_str s) with
          | Done obj => match stub_narrow e' obj with Done r => Done (Found r true) | Raised => Done not_found | Crashed => Crashed end
          | Raised => Done not_found | Crashed => Crashed end
      | None => Done not_found end) as Hrun.
  { intros e'. unfold run_file. fold f. rewrite bool_decide_false by done. by rewrite Hcf, file_text_law. }
  split.
  { rewrite Hrun, Vp. cbn. rewrite lookup_insert_eq. rewrite bool_decide_false by done. rewrite c_str_nul by done.
    by rewrite string_to_object_law, stub_narrow_law. }
  cbn [binder_fini_bind make_bind_name ext set_ext]. rewrite bool_decide_false by done. rewrite Hcf.
  destruct (file_remove_law e1 f) as (e2 & -> & V2).
  { rewrite Vp. cbn. apply elem_of_dom. rewrite lookup_insert_eq. by eexists. }
  eexists. split; [done|]. cbn [ext set_ext]. rewrite Hrun, V2. cbn. by rewrite lookup_delete_eq.
Qed.
End files.

Module ResolverExamples.
Import SmallOrb.
Lemma file_binding_resolves_witness : exists w1 y,
  binder_init_bind None 3 (IORFileBinder (str "iors/") []) (str "Clock.ior") (Some 7%nat) start = (w1, Done 0)
  /\ binders w1 !! 3%nat = Some y /\ run_file (str "iors/") (str "Clock") (ext w1) = Done (Found (Some 7%nat) true).
Proof.
  destruct (file_binding_resolves orb_tables ior_text id None 3 (str "iors/") [] (str "Clock") 7%nat start) as (w1 & y & E1 & E2 & E3 & _).
  - apply (bool_decide_unpack _); by vm_compute.
  - apply (bool_decide_unpack _); by vm_compute.
  - reflexivity.
  - exists w1, y. split; [exact E1|]. split; [exact E2|exact E3].
Defined.
End ResolverExamples.

(** The binder puts a file name with a space between quotes, which become part of the name of
    the file; the resolver does not. *)
Example quoted_file_name :
  bind_filename (str "my iors/") (file_bind_name (str "Clock")) = str "'my iors/Clock.ior'"
  /\ trim (str "my iors/" ++ resolver_filename (str "Clock")) = str "my iors/Clock.ior".
Proof. by vm_compute. Qed.

(** ** The chain *)

(** A resolver's thread: not started, running, about to signal, or done. *)
Inductive resolver_state := Idle | Running | Signalling | Finished.

(** The thread in [resolve]: starting the [k]th resolver, at the head of the loop, waiting,
    notified, looking at the [k]th resolver with the monitor held, or returned. *)
Inductive main_state (Obj : Type) :=
| Starting (k : nat) | Looping | Waiting | Notified | Looking (k : nat) | Returned (r : option Obj).
Arguments Starting {Obj} k.
Arguments Looping {Obj}.
Arguments Waiting {Obj}.
Arguments Notified {Obj}.
Arguments Looking {Obj} k.
Arguments Returned {Obj} r.

(** TAF/taf/IORResolver_T.h:54-76 [IORResolverChain_T]. With the members of its resolvers. *)
Record chain (Obj : Type) := Chain {
  threads : list resolver_state;
  results : list (option Obj);
  main : main_state Obj;
}.
Arguments Chain {Obj}.
Arguments threads {Obj}.
Arguments results {Obj}.
Arguments main {Obj}.

Section chain.
Context {Obj : Type}.
(** What each resolver of the chain finds when it runs. *)
Context (finds : list (found Obj)).

(** The monitor is held while the results are looked at. *)
Definition monitor_held (m : main_state Obj) : bool := match m with Looking _ => true | _ => false end.

(** TAF/taf/IORResolver_T.cpp:97-144 [IORResolverChain_T::resolve]. With the [run] of the
    resolvers, which set their result before they take the monitor. A signal that finds nobody
    waiting is lost; a wait ends without a signal when its time is over or it is interrupted. *)
Inductive step : chain Obj -> chain Obj -> Prop :=
| step_execute k ts rs : ts !! k = Some Idle ->
    step (Chain ts rs (Starting k)) (Chain (<[k := Running]> ts) rs (Starting (S k)))
| step_not_executed k ts rs : ts !! k = Some Idle ->                         (* the executor refuses *)
    step (Chain ts rs (Starting k)) (Chain ts rs (Starting (S k)))
| step_started ts rs : step (Chain ts rs (Starting (length ts))) (Chain ts rs Looping)
| step_wait ts rs : step (Chain ts rs Looping) (Chain ts rs Waiting)
| step_timeout ts rs : step (Chain ts rs Waiting) (Chain ts rs (Returned None))
| step_awake ts rs : step (Chain ts rs Notified) (Chain ts rs (Looking 0))
| step_return k o ts rs : rs !! k = Some (Some o) ->
    step (Chain ts rs (Looking k)) (Chain ts rs (Returned (Some o)))
| step_next k ts rs : rs !! k = Some None -> step (Chain ts rs (Looking k)) (Chain ts rs (Looking (S k)))
| step_again ts rs : step (Chain ts rs (Looking (length rs))) (Chain ts rs Looping)
| step_find i f ts rs m : ts !! i = Some Running -> finds !! i = Some f ->
    step (Chain ts rs m) (Chain (<[i := if signals f then Signalling else Finished]> ts) (<[i := result_ f]> rs) m)
| step_signal i ts rs m : ts !! i = Some Signalling -> monitor_held m = false ->
    step (Chain ts rs m) (Chain (<[i := Finished]> ts) rs (match m with Waiting => Notified | m => m end)).

Definition initial_chain : chain Obj := Chain (replicate (length finds) Idle) (replicate (length finds) None) (Starting 0).

Definition reachable (s : chain Obj) : Prop := rtc step initial_chain s.

(** Every result is what its resolver finds, and what is returned is a result. *)
Record chain_ok (s : chain Obj) : Prop := {
  ok_threads : length (threads s) = length finds;
  ok_results : length (results s) = length finds;
  ok_found : forall i o, results s !! i = Some (Some o) -> exists f, finds !! i = Some f /\ result_ f = Some o;
  ok_returned : forall o, main s = Returned (Some o) -> exists i, results s !! i = Some (Some o);
}.

Lemma chain_ok_step s s' : chain_ok s -> step s s' -> chain_ok s'.
Proof.
  intros [Ht Hr Hf Hm] Hs. destruct Hs as [k ts rs Hk|k ts rs Hk|ts rs|ts rs|ts rs|ts rs|k o ts rs Hk|k ts rs Hk|ts rs|i f ts rs m Hi Hfi|i ts rs m Hi Hh];
    cbn in *; split; cbn; rewrite ?length_insert; try done.
  - intros o' [= <-]. by exists k.
  - intros j o Hj. rewrite list_lookup_insert in Hj. case_decide as Hd; [|by eauto].
    destruct Hd as [-> _]. injection Hj as E. by exists f.
  - intros o ->. destruct (Hm o eq_refl) as [j Hj]. destruct (Hf j o Hj) as (g & Hg & Eg).
    destruct (decide (i = j)) as [->|Hne]; [|exists j; by rewrite list_lookup_insert_ne].
    exists j. rewrite list_lookup_insert_eq; [congruence|]. by eapply lookup_lt_Some.
  - intros o E. destruct m; try done. by apply Hm.
Qed.

Lemma chain_ok_reachable s : reachable s -> chain_ok s.
Proof.
  unfold reachable. intros Hr. cut (chain_ok initial_chain).
  - induction Hr as [|s1 s2 s3 Hstep Hrest IH]; [done|]. intros Hok. eapply IH, chain_ok_step; done.
  - split; cbn; rewrite ?length_replicate; try done. intros i o [? _]%lookup_replicate. done.
Qed.

(** The steps a resolver's thread and the thread in [resolve] have left once [resolve] was woken. *)
Definition thread_left (t : resolver_state) : nat := match t with Running => 2 | Signalling => 1 | Idle | Finished => 0 end.
Definition main_left (n : nat) (m : main_state Obj) : nat := match m with Notified => S (S n) | Looking k => S n - k | _ => 0 end.
Definition steps_left (s : chain Obj) : nat := sum_list_with thread_left (threads s) + main_left (length (results s)) (main s).

Lemma thread_left_insert ts i t t' : ts !! i = Some t ->
  (sum_list_with thread_left (<[i := t']> ts) + thread_left t = sum_list_with thread_left ts + thread_left t')%nat.
Proof.
  revert i. induction ts as [|x ts IH]; intros [|i] Hi; [done..| |].
  - injection Hi as ->. change (sum_list_with thread_left (t' :: ts) + thread_left t = sum_list_with thread_left (t :: ts) + thread_left t')%nat. cbn [sum_list_with]. lia.
  - specialize (IH i Hi). change (sum_list_with thread_left (x :: <[i := t']> ts) + thread_left t = sum_list_with thread_left (x :: ts) + thread_left t')%nat. cbn [sum_list_with]. lia.
Qed.

(** The thread in [resolve] was woken by resolver [i], which has a result, and has not looked past it. *)
Record woken (i : nat) (s : chain Obj) : Prop := {
  wk_result : exists o, results s !! i = Some (Some o);
  wk_thread : threads s !! i = Some Finished;
  wk_length : length (threads s) = length finds;
  wk_main : main s = Notified \/ (exists k, main s = Looking k /\ (k <= i)%nat) \/ exists o, main s = Returned (Some o);
}.

Lemma woken_step i s s' : woken i s -> step s s' -> woken i s' /\ (steps_left s' < steps_left s)%nat.
Proof.
  intros [[o Ho] Hf Hl Hm] Hs. assert (i < length (results s))%nat as Hi by (by eapply lookup_lt_Some).
  destruct Hs as [k ts rs Hk|k ts rs Hk|ts rs|ts rs|ts rs|ts rs|k o' ts rs Hk|k ts rs Hk|ts rs|j f ts rs m Hj Hfj|j ts rs m Hj Hh];
    unfold steps_left, main_left; cbn [threads results main] in *; try (by destruct Hm as [?|[(? & ? & _)|[? ?]]]).
  - split; [|lia]. split; cbn; eauto. right. left. exists 0%nat. split; [done|lia].
  - split; [|destruct Hm as [?|[(? & [= <-] & ?)|[? ?]]]; [done|lia|done]]. split; cbn; eauto.
  - destruct Hm as [?|[(k' & [= <-] & Hle)|[? ?]]]; [done| |done]. split; [|lia]. split; cbn; eauto. right. left. exists (S k). split; [done|].
    destruct (decide (k = i)) as [->|]; [congruence|lia].
  - exfalso. destruct Hm as [?|[(k' & [= <-] & Hle)|[? ?]]]; [done|lia|done].
  - assert (i <> j) by congruence. pose proof (thread_left_insert ts j Running (if signals f then Signalling else Finished) Hj) as Hw.
    split; [|rewrite length_insert; destruct (signals f); cbn [thread_left] in *; lia].
    split; cbn; rewrite ?length_insert; try done; [exists o|]; by rewrite list_lookup_insert_ne.
  - assert (i <> j) by congruence. pose proof (thread_left_insert ts j Signalling Finished Hj) as Hw.
    assert (match m with Waiting => Notified | m => m end = m) as Em by (by destruct Hm as [->|[(? & -> & _)|[? ->]]]). rewrite Em.
    split; [|cbn [thread_left] in *; lia]. split; cbn; rewrite ?length_insert; [by exists o|by rewrite list_lookup_insert_ne|done|done].
Qed.

Lemma woken_steps i n s s' : nsteps step n s s' -> woken i s -> woken i s' /\ (n + steps_left s' <= steps_left s)%nat.
Proof.
  induction 1 as [s|n s1 s2 s3 Hs _ IH]; intros Hw; [split; [done|lia]|]. destruct (woken_step i s1 s2 Hw Hs) as [Hw2 Hl].
  destruct (IH Hw2) as [Hw3 Hl3]. split; [done|lia].
Qed.

(** Until it has returned it can go on. *)
Lemma woken_goes_on i s : woken i s -> (exists o, main s = Returned (Some o)) \/ exists s', step s s'.
Proof.
  intros [[o Ho] _ _ Hm]. destruct s as [ts rs m]. cbn in *. destruct Hm as [->|[(k & -> & Hk)|?]]; [right; eexists; apply step_awake| |by left].
  right. destruct (rs !! k) as [[o'|]|] eqn:Ek; [eexists; by apply step_return|eexists; by apply step_next|].
  apply lookup_lt_Some in Ho. apply lookup_ge_None in Ek. lia.
Qed.

(** C24 (liveness). Whatever [resolve] returns was found by one of the resolvers.  And when a resolver that has a result signals while the thread
    in [resolve] waits, then however the threads go on, [resolve] neither waits again nor returns nil: there is a bound on the steps that can follow,
    and where no step is left it has returned a reference.  (A signal that comes before the wait is lost; a wait whose time is over before the signal
    returns nil.) *)
Theorem chain_resolves s : reachable s ->
  (forall o, main s = Returned (Some o) -> exists i f, finds !! i = Some f /\ result_ f = Some o)
  /\ (forall i o s1, main s = Waiting -> threads s !! i = Some Signalling -> results s !! i = Some (Some o) ->
      step s s1 -> threads s1 !! i = Some Finished ->
      (exists bound, forall n s', nsteps step n s1 s' -> (n <= bound)%nat)
      /\ forall s', rtc step s1 s' -> main s' <> Waiting /\ main s' <> Looping /\ main s' <> Returned None
           /\ ((forall s2, ~ step s' s2) -> exists o' j f, main s' = Returned (Some o') /\ finds !! j = Some f /\ result_ f = Some o')).
Proof.
  intros Hr. assert (forall s o, reachable s -> main s = Returned (Some o) -> exists i f, finds !! i = Some f /\ result_ f = Some o) as Hs.
  { intros s' o Hr' Hm. pose proof (chain_ok_reachable s' Hr') as Hok. destruct (ok_returned s' Hok o Hm) as [i Hi].
    destruct (ok_found s' Hok i o Hi) as (f & Hf & E). by exists i, f. }
  split; [intros o; by apply Hs|]. intros i o s1 Hm Hi Ho Hstep Hf1.
  assert (reachable s1) as Hr1 by (unfold reachable in *; by eapply rtc_r).
  assert (woken i s1) as Hw.
  { pose proof (ok_threads _ (chain_ok_reachable s1 Hr1)) as Hl1.
    destruct Hstep as [| | | | | | | | |j f ts rs m Hj Hfj|j ts rs m Hj Hh]; cbn in *; try congruence.
    - exfalso. assert (i <> j) by congruence. rewrite list_lookup_insert_ne in Hf1 by done. congruence.
    - destruct (decide (i = j)) as [->|Hne]; [|rewrite list_lookup_insert_ne in Hf1 by done; congruence].
      split; cbn; [by exists o|done|done|]. subst m. by left. }
  split; [exists (steps_left s1); intros n s' Hn; destruct (woken_steps i n s1 s' Hn Hw); lia|].
  intros s' Hs'. pose proof Hs' as [n Hn]%rtc_nsteps. destruct (woken_steps i n s1 s' Hn Hw) as [Hw' _].
  assert (main s' <> Waiting /\ main s' <> Looping /\ main s' <> Returned None) as (H1 & H2 & H3) by (by destruct Hw' as [_ _ _ [->|[(k & -> & _)|[o' ->]]]]).
  split; [done|]. split; [done|]. split; [done|]. intros Hend.
  destruct (woken_goes_on i s' Hw') as [[o' Eo]|[s2 Hs2]]; [|by destruct (Hend s2)].
  destruct (Hs s' o') as (j & f & Hj & Ef); [unfold reachable in *; by etrans|done|]. by exists o', j, f.
Qed.
End chain.

(** The signal of a resolver that is done before [resolve] waits is lost: with one resolver,
    which has found the reference, nothing but the end of its time wakes [resolve], and it
    returns nil. *)
Lemma signal_before_wait {Obj} (o : Obj) :
  let s := Chain [Finished] [Some o] Waiting in
  reachable [Found (Some o) true] s /\ forall s', step [Found (Some o) true] s s' -> s' = Chain [Finished] [Some o] (Returned None).
Proof.
  split.
  - eapply rtc_l; [by apply (step_execute _ 0)|]. cbn.
    eapply rtc_l; [by apply (step_find _ 0 (Found (Some o) true))|]. cbn. eapply rtc_l; [by apply (step_signal _ 0)|]. cbn.
    eapply rtc_l; [by apply step_started|]. by apply rtc_once, step_wait.
  - intros s' Hs. inversion Hs as [| | | | | | | | |i f ts rs m Hi|i ts rs m Hi]; subst; [done| |]; by destruct i.
Qed.

Lemma chain_resolves_witness :
  let finds := [Found (Some 7%nat) true] in let s := Chain [Signalling] [Some 7%nat] Waiting in let s1 := Chain [Finished] [Some 7%nat] Notified in
  reachable finds s /\ step finds s s1 /\ exists bound, forall n s', nsteps (step finds) n s1 s' -> (n <= bound)%nat.
Proof.
  intros finds s s1. assert (reachable finds s) as Hr.
  { eapply rtc_l; [by apply (step_execute _ 0)|]. cbn. eapply rtc_l; [by apply step_started|].
    eapply rtc_l; [by apply step_wait|]. apply rtc_once. by apply (step_find finds 0 (Found (Some 7%nat) true)). }
  assert (step finds s s1) as Hs by (by apply (step_signal finds 0)). split; [exact Hr|]. split; [exact Hs|].
  exact (proj1 (proj2 (chain_resolves finds s Hr) 0%nat 7%nat s1 eq_refl eq_refl eq_refl Hs eq_refl)).
Defined.
