(* ===== verification/Services.v ===== *)
(** * Services over CORBA: TAF/taf/GestaltService_impl

    The servant in front of a service gestalt: the operations of [Gestalt] with the exception a
    client gets for each [errno], the descriptors that are sent for services, and the loading of a
    configuration file, from the sections of [Configurator] through the entries of
    [ServiceLoader] to the gestalt.  The strings of a request are [option text], [None] for a
    null pointer; what a service object is, its information and its reference are ACE's and the
    POA's, the class [ServiceObjects]. *)

From S2P Require Import Prelude CString Text Properties Configurator Gestalt ServiceLoader.
From Stdlib Require Import Ascii.

(** ** Exceptions *)

Inductive corba_exn :=
| TIMEOUT | BAD_PARAM | INV_IDENT | OBJECT_NOT_EXIST | NO_IMPLEMENT | NO_RESOURCES | NO_PERMISSION | INVALID_ACTIVITY | BAD_OPERATION.

#[export] Instance corba_exn_eq_dec : EqDecision corba_exn.
Proof. solve_decision. Defined.

(** What a client gets; [Escaped] is an exception of another kind that leaves the servant. *)
Inductive reply (A : Type) := Replied (a : A) | Raised (e : corba_exn) | Escaped (e : daf_exn).
Arguments Replied {A} a.
Arguments Raised {A} e.
Arguments Escaped {A} e.

(** TAF/taf/GestaltService_impl.cpp:36-52 [throw_last_error]. [None]: it returns. *)
Definition throw_last_error (error : errno) : option corba_exn :=
  match error with
  | Enone => None
  | ETIME => Some TIMEOUT
  | EINVAL => Some BAD_PARAM
  | ENOENT => Some INV_IDENT
  | EEXIST => Some OBJECT_NOT_EXIST
  | ENOTSUP => Some NO_IMPLEMENT
  | ENOLCK => Some NO_RESOURCES
  | EACCES => Some NO_PERMISSION
  | ENOEXEC => Some INVALID_ACTIVITY
  | Eother n => Some BAD_OPERATION
  end.

(** [ident && strlen(ident) > 0]. *)
Definition given (ident : option text) : option text :=
  match ident with
  | Some s => if bool_decide (c_str s = []) then None else Some (c_str s)
  | None => None
  end.

(** [parameters ? parameters : ""]. *)
Definition or_empty (s : option text) : text := default [] (c_str <$> s).

(** ** Descriptors *)

(** TAF/taf/EntityDescriptor.idl:34-43 [EntityDescriptor]. The load time is one number. *)
Record EntityDescriptor (Obj : Type) := Entity {
  e_ident : text;
  e_libpathname : text;
  e_objectclass : text;
  e_parameters : text;
  e_info : text;
  e_obj : option Obj;
  e_loadTime : Z;
  e_flags : Z;
}.
Arguments Entity {Obj}.
Arguments e_ident {Obj} e.
Arguments e_libpathname {Obj} e.
Arguments e_objectclass {Obj} e.
Arguments e_parameters {Obj} e.
Arguments e_info {Obj} e.
Arguments e_obj {Obj} e.
Arguments e_loadTime {Obj} e.
Arguments e_flags {Obj} e.

(** TAF/taf/EntityDescriptor.idl:45-47 [SVC_Flags]. *)
Inductive SVC_Flags := SVC_EXECUTE | SVC_STATIC | SVC_DYNAMIC | SVC_OBJECT | SVC_MODULE | SVC_STREAM | SVC_ACTIVE | SVC_FINIED.

(** The position of a flag. *)
Definition flag_bit (f : SVC_Flags) : Z :=
  match f with
  | SVC_EXECUTE => 0 | SVC_STATIC => 1 | SVC_DYNAMIC => 2 | SVC_OBJECT => 3
  | SVC_MODULE => 4 | SVC_STREAM => 5 | SVC_ACTIVE => 6 | SVC_FINIED => 7
  end.

(** The kinds of entries of ACE's repository. *)
Inductive svc_kind := MODULE | STREAM | SERVICE_OBJECT.

(** What ACE has of a service: its kind, the information the object gives of itself ([None] when
    that throws), and the reference the POA has for it when it is a servant. *)
Class ServiceObjects (G Obj : Type) := {
  service_kind : G -> text -> option svc_kind;
  service_info : G -> text -> option text;
  service_reference : G -> text -> option Obj;
}.

Definition raise_flag (f : SVC_Flags) (b : bool) (flags : Z) : Z := if b then Z.lor flags (Z.shiftl 1 (flag_bit f)) else flags.

Section servant.
Context {G Obj : Type} `{AceGestalt G, ServiceObjects G Obj} (classic : bool).
Implicit Types (g : gestalt G) (s : system G).

(** TAF/taf/GestaltService_impl.cpp:231-239 [GestaltService_impl::makeEntityDescriptor]. *)
Definition load_flags (svc_desc : descriptor) : Z :=
  raise_flag SVC_DYNAMIC (Z.testbit (loadflags_ svc_desc) 2)
    (raise_flag SVC_STATIC (Z.testbit (loadflags_ svc_desc) 1)
      (raise_flag SVC_EXECUTE (Z.testbit (loadflags_ svc_desc) 0) 0)).

(** TAF/taf/GestaltService_impl.cpp:217-281 [GestaltService_impl::makeEntityDescriptor]. [lock]: the repository's lock is taken. *)
Definition make_descriptor (lock : bool) (svc_desc : descriptor) g : reply (EntityDescriptor Obj) :=
  let id := c_str (ident_ svc_desc) in
  let ed info obj flags :=
    Entity id (c_str (libpathname_ svc_desc)) (c_str (objectclass_ svc_desc)) (c_str (parameters_ svc_desc))
      info obj (loadtime_ svc_desc) flags in
  let flags := load_flags svc_desc in
  if negb lock then Raised NO_RESOURCES
  else match ace_find (ace g) id with
       | None => Replied (ed [] None flags)
       | Some svc_type =>
           let flags := raise_flag SVC_FINIED (fini_called svc_type) (raise_flag SVC_ACTIVE (active svc_type) flags) in
           match service_kind (ace g) id with
           | None => Replied (ed [] None flags)
           | Some MODULE => Replied (ed [] None (raise_flag SVC_MODULE true flags))
           | Some STREAM => Replied (ed [] None (raise_flag SVC_STREAM true flags))
           | Some SERVICE_OBJECT =>
               let flags := raise_flag SVC_OBJECT true flags in
               match service_info (ace g) id with
               | Some info => Replied (ed info (service_reference (ace g) id) flags)
               | None => Replied (ed [] None flags)
               end
           end
       end.

(** TAF/taf/GestaltService_impl.cpp:205-215 [GestaltService_impl::makeEntityDescriptor]. By name; both locks are taken or not. *)
Definition makeEntityDescriptor (lock : bool) (ident : text) g : reply (EntityDescriptor Obj) :=
  if negb lock then Raised NO_RESOURCES
  else match descriptors g !! ident with
       | Some svc_desc => make_descriptor lock svc_desc g
       | None => Raised OBJECT_NOT_EXIST
       end.

(** TAF/taf/GestaltService_impl.cpp:70-78 [GestaltService_impl::findService]. *)
Definition findService (lock : bool) (svc_ident : option text) g : reply (EntityDescriptor Obj) :=
  match given svc_ident with
  | Some ident => makeEntityDescriptor lock ident g
  | None => Raised BAD_PARAM
  end.

(** TAF/taf/GestaltService_impl.cpp:88-91 [GestaltService_impl::listServices]. *)
Fixpoint describe_all (lock : bool) (service_list : list descriptor) g : reply (list (EntityDescriptor Obj)) :=
  match service_list with
  | [] => Replied []
  | sd :: service_list =>
      match make_descriptor lock sd g with
      | Replied ed => match describe_all lock service_list g with Replied sd => Replied (ed :: sd) | r => r end
      | Raised e => Raised e
      | Escaped e => Escaped e
      end
  end.

(** TAF/taf/GestaltService_impl.cpp:80-94 [GestaltService_impl::listServices]. *)
Definition listServices (lock : bool) g : reply (list (EntityDescriptor Obj)) :=
  describe_all lock (list_service_repository false g) g.

(** ** Operations

    Each takes the thread's [errno] and gives the one it leaves. *)

(** TAF/taf/GestaltService_impl.cpp:140-146 [GestaltService_impl::suspend]. What all of them make of the gestalt's result. *)
Definition report (r : system G * Z * errno) : system G * reply unit * errno :=
  let '(s, r, e) := r in
  (s, if r =? 0 then Replied tt else match throw_last_error e with Some ex => Raised ex | None => Replied tt end, e).

(** TAF/taf/GestaltService_impl.cpp:140-152 [GestaltService_impl::suspend]. With the operation of the gestalt. *)
Definition call (op : text -> errno -> system G -> system G * Z * errno) (ident : option text) (e : errno) s
  : system G * reply unit * errno :=
  match given ident with
  | Some ident => report (op ident e s)
  | None => (s, Raised BAD_PARAM, EINVAL)
  end.

(** TAF/taf/GestaltService_impl.cpp:140-152 [GestaltService_impl::suspend]. *)
Definition suspend (how : execution) : option text -> errno -> system G -> system G * reply unit * errno :=
  call (suspendService classic how).
(** TAF/taf/GestaltService_impl.cpp:154-166 [GestaltService_impl::resume]. *)
Definition resume (how : execution) : option text -> errno -> system G -> system G * reply unit * errno :=
  call (resumeService classic how).
(** TAF/taf/GestaltService_impl.cpp:168-180 [GestaltService_impl::remove]. *)
Definition remove (how : execution) : option text -> errno -> system G -> system G * reply unit * errno :=
  call (removeService classic how).

(** TAF/taf/GestaltService_impl.cpp:182-198 [GestaltService_impl::suspend_all]. And the two others. *)
Definition suspend_all (how : text -> execution) (e : errno) s : system G * Z * errno :=
  let '(s, n, e) := suspendServiceAll classic how e s in (s, to_int n, e).
Definition resume_all (how : text -> execution) (e : errno) s : system G * Z * errno :=
  let '(s, n, e) := resumeServiceAll classic how e s in (s, to_int n, e).
Definition remove_all (how : text -> execution) (e : errno) s : system G * Z * errno :=
  let '(s, n, e) := removeServiceAll classic how e s in (s, to_int n, e).

Section loading.
Context `{Platform} (fuel : nat).

(** An operation that reads properties. *)
Definition call_loading (op : text -> PM (system G * Z * errno)) (ident : option text) (e : errno) s
  : PM (system G * reply unit * errno) :=
  match given ident with
  | Some ident => fun st =>
      match op ident st with
      | Some (st, Ok r) => Some (st, Ok (report r))
      | Some (st, Throw ex) => Some (st, Ok (s, Escaped ex, e))
      | None => None
      end
  | None => mret (s, Raised BAD_PARAM, EINVAL)
  end.

(** TAF/taf/GestaltService_impl.cpp:112-124 [GestaltService_impl::loadStatic]. *)
Definition load_static (how : execution) (now : Z) (ident parameters : option text) (e : errno) s : PM (system G * reply unit * errno) :=
  call_loading (fun ident => loadStatic classic fuel how now ident (or_empty parameters) e s) ident e s.

(** TAF/taf/GestaltService_impl.cpp:126-138 [GestaltService_impl::loadDynamic]. *)
Definition load_dynamic (how : execution) (now : Z) (ident : option text) (libpathname objectclass : text) (parameters : option text)
    (e : errno) s : PM (system G * reply unit * errno) :=
  call_loading (fun ident =>
    loadDynamic classic fuel how now ident (c_str libpathname) (c_str objectclass) (or_empty parameters) e s) ident e s.
End loading.
End servant.

(** ** Configuration files *)

Section files.
Context `{Platform} (files : text -> option (list text)) (fuel : nat).

(** daf/Configurator.cpp:271-276 [Configurator::load_file_sections]. With the loader's own [load_property]. *)
Definition remember_entries (l : loader_state) (es : entries) : loader_state :=
  foldl (fun l e => remember_property (fst e) (parse_args (snd e) false true) l) l es.

(** daf/Configurator.cpp:263-282 [Configurator::load_file_sections]. *)
Fixpoint remember_sections (db : sections_map) (sections : list text) (l : loader_state) : loader_state :=
  match sections with
  | [] => l
  | sec :: sections =>
      match db !! sec with
      | Some es => remember_sections (base.delete sec db) sections (remember_entries l es)
      | None => remember_sections db sections l
      end
  end.

(** A loader with its load count. *)
Definition counted := (loader_state * Z)%type.

(** daf/Configurator.cpp:202-249 [Configurator::load_file_profile]. *)
Fixpoint loader_profiles (profiles : list text) (l : counted) : PM (counted * Z) :=
  match profiles with
  | [] => mret (l, 0)
  | profile :: profiles => fun s =>
      let '(filename, section_args) := split_profile profile in
      match load_file files fuel filename s with
      | None => None
      | Some (s, Ok db) =>
          loader_profiles profiles
            (remember_sections db (make_config_sections section_args standard_sections) (fst l), snd l + 1) s
      | Some (s, Throw e) => if catches NotFoundException e then loader_profiles profiles l s else Some (s, Ok (l, -1))
      end
  end.

(** daf/Configurator.cpp:195-256 [Configurator::load_file_profile]. Inherited by ServiceGestaltLoader. *)
Definition loader_file_profile (profile_arg : text) (l : counted) : PM (counted * Z) :=
  match make_config_profiles profile_arg with
  | [] => mret (l, -1)
  | profiles => loader_profiles profiles l
  end.

(** A new loader. *)
Definition new_loader : counted := (LoaderState ∅ [], 0).

(** The configurator a loader is. *)
Definition as_config (l : counted) : config := Config (entries_ (fst l)) (snd l).

(** A loader's run as the run of a configurator. *)
Definition configured (r : option (store * result (counted * Z))) : option (store * result (config * Z)) :=
  match r with
  | Some (st, Ok (l, z)) => Some (st, Ok (as_config l, z))
  | Some (st, Throw e) => Some (st, Throw e)
  | None => None
  end.

Section config_file.
Context {G : Type} `{AceGestalt G} (classic : bool).

(** TAF/taf/GestaltService_impl.cpp:96-110 [GestaltService_impl::loadConfigFile]. The count and the result. *)
Definition loadConfigFile (how : text -> execution) (now : Z) (profile_arg : option text) (s : system G) : PM (system G * (Z * Z)) :=
  match given profile_arg with
  | Some arg => fun st =>
      match loader_file_profile (trim arg) new_loader st with
      | Some (st, Ok ((l, _), r)) =>
          if r =? 0 then
            match process_directives fuel (gestalt_load fuel classic how now) l s st with
            | Some (st, Ok (_, s, failed)) => Some (st, Ok (s, (to_int (Z.of_nat (size (entries_ l))), to_int failed)))
            | Some (st, Throw _) => Some (st, Ok (s, (0, -1)))
            | None => None
            end
          else Some (st, Ok (s, (0, -1)))
      | Some (st, Throw _) => Some (st, Ok (s, (0, -1)))
      | None => None
      end
  | None => mret (s, (0, -1))
  end.
End config_file.

(** *** The loader's entries *)

Definition names_listed (l : loader_state) : Prop := forall k, k ∈ dom (entries_ l) -> k ∈ ident_list_ l.

Lemma remember_property_entries key val l : entries_ (remember_property key val l) = load_entry (entries_ l) (key, val).
Proof. done. Qed.

Lemma load_entry_dom s e k : k ∈ dom (load_entry s e) -> k ∈ dom s \/ k = fst e.
Proof.
  unfold load_entry, load_property. destruct (_ || _); [|by left]. destruct e as [key val]. cbn.
  intros [x Hx]%elem_of_dom. apply lookup_insert_Some in Hx as [[<- _]|[_ Hx]]; [by right|left]. apply elem_of_dom. by eexists.
Qed.

Lemma remember_property_listed key val l : names_listed l -> names_listed (remember_property key val l).
Proof.
  intros Hl k Hk. cbn [remember_property entries_ ident_list_] in *. apply elem_of_app.
  apply load_entry_dom in Hk as [Hk | ->]; [left; by apply Hl|right; by apply list_elem_of_singleton].
Qed.

Lemma remember_entries_spec es l :
  entries_ (remember_entries l es) = load_entries (entries_ l) es /\ (names_listed l -> names_listed (remember_entries l es)).
Proof.
  revert l. induction es as [|e es IH]; intros l; [done|]. cbn [remember_entries load_entries foldl].
  destruct (IH (remember_property (fst e) (parse_args (snd e) false true) l)) as [E Hl]. split; [exact E|].
  intros H'. by apply Hl, remember_property_listed.
Qed.

Lemma remember_sections_spec db sections l :
  entries_ (remember_sections db sections l) = load_sections db sections (entries_ l)
  /\ (names_listed l -> names_listed (remember_sections db sections l)).
Proof.
  revert db l. induction sections as [|sec sections IH]; intros db l; [done|]. cbn [remember_sections load_sections].
  destruct (db !! sec) as [es|]; [|apply IH]. destruct (remember_entries_spec es l) as [E Hl].
  destruct (IH (base.delete sec db) (remember_entries l es)) as [E' Hl']. rewrite E', E. tauto.
Qed.

Lemma loader_profiles_spec profiles l s :
  (configured (loader_profiles profiles l s) = load_profiles files fuel profiles (as_config l) s)
  /\ (names_listed (fst l) -> forall s' l' r, loader_profiles profiles l s = Some (s', Ok (l', r)) -> names_listed (fst l')).
Proof.
  revert l s. induction profiles as [|profile profiles IH]; intros l s.
  { split; [done|]. by intros Hl s' l' r [= <- <- <-]. }
  cbn [loader_profiles load_profiles]. destruct (split_profile profile) as [filename section_args].
  unfold load_file_sections, mbind, PM_bind. destruct (load_file files fuel filename s) as [[s1 [db|e]]|]; [| |done].
  - unfold mret, PM_ret. cbv beta iota. rewrite Z.eqb_refl. destruct (remember_sections_spec db (make_config_sections section_args standard_sections) (fst l)) as [E Hl].
    destruct (IH (remember_sections db (make_config_sections section_args standard_sections) (fst l), snd l + 1) s1) as [E' Hl'].
    split; [rewrite E'; unfold as_config; cbn [fst snd props load_count_]; by rewrite E|]. intros H'. apply Hl'. by apply Hl.
  - destruct (catches NotFoundException e); [apply IH|]. split; [done|]. by intros Hl s' l' r [= <- <- <-].
Qed.

(** The loader reads a profile as the configurator does, and lists the name of every entry. *)
Lemma loader_file_profile_spec arg l s :
  (configured (loader_file_profile arg l s) = load_file_profile files fuel arg (as_config l) s)
  /\ (names_listed (fst l) -> forall s' l' r, loader_file_profile arg l s = Some (s', Ok (l', r)) -> names_listed (fst l')).
Proof.
  unfold loader_file_profile, load_file_profile. destruct (make_config_profiles arg) as [|p ps]; [|apply loader_profiles_spec].
  split; [done|]. by intros Hl s' l' r [= <- <- <-].
Qed.

Lemma nub_spec (l : list text) : NoDup (nub l) /\ forall x, x ∈ nub l <-> x ∈ l.
Proof.
  induction l as [|x l [Hd Hl]]; cbn; [split; [constructor|done]|]. split.
  - constructor; [|by apply NoDup_filter]. rewrite list_elem_of_filter. tauto.
  - intros y. rewrite !elem_of_cons, list_elem_of_filter, Hl. destruct (decide (y = x)); tauto.
Qed.

(** When all names are listed every entry is requested once. *)
Lemma requests_all l : names_listed l -> requests (ident_list_ l) (entries_ l) ≡ₚ map_to_list (entries_ l).
Proof.
  intros Hl. assert (forall (ids : list text) (m : gmap text text), NoDup ids ->
    NoDup (omap (fun ident => (fun val => (ident, val)) <$> m !! ident) ids)) as Hnd.
  { intros ids m Hd. induction Hd as [|x ids Hx Hd IH]; cbn; [constructor|]. destruct (m !! x) as [v|] eqn:E; [|done].
    cbn. constructor; [|done]. intros (y & Hy & E')%list_elem_of_omap. destruct (m !! y); [|done]. injection E' as -> _. done. }
  apply NoDup_Permutation; [apply Hnd, nub_spec|apply NoDup_map_to_list|].
  intros [k v]. unfold requests. rewrite list_elem_of_omap, elem_of_map_to_list. split.
  - intros (x & _ & E). destruct (entries_ l !! x) eqn:Ex; [|done]. by injection E as <- <-.
  - intros E. exists k. rewrite E. split; [|done]. apply nub_spec, Hl. by apply elem_of_dom.
Qed.
End files.

(** ** Errors *)

Section errors.
Context {G : Type} `{AceGestalt G} (classic : bool) `{!AceGestaltLaws G classic}.
Implicit Types (g : gestalt G) (s : system G).
(** A call replies exactly when its operation returned 0 or left no error number. *)
Lemma report_replied (r : system G * Z * errno) : (report r).1.2 = Replied tt <-> r.1.2 = 0 \/ r.2 = Enone.
Proof. destruct r as [[s z] e]. cbn. destruct (Z.eqb_spec z 0); [by split; [left|]|]. destruct e; cbn; naive_solver. Qed.

(** What an operation on a loaded service does to a valid name, up to the point where ACE is
    asked. *)
Definition early_result (how : execution) (act : activity) (n : text) s : option (system G * corba_exn * errno) :=
  match how with
  | TimedOut k => Some (abandon classic k act s, TIMEOUT, ETIME)
  | Interrupted k => Some (abandon classic k act s, INVALID_ACTIVITY, ENOEXEC)
  | Refused => Some (s, INVALID_ACTIVITY, ENOEXEC)
  | InTime false => Some (s, NO_RESOURCES, ENOLCK)
  | InTime true =>
      match ace_find (ace (home s)) n with
      | None => Some (s, OBJECT_NOT_EXIST, EEXIST)
      | Some t => if fini_called t then Some (s, NO_PERMISSION, EACCES) else None
      end
  end.

(** C32 (error). What a client of suspend, resume and remove gets: a name that is missing or not
    valid is BAD_PARAM; a service ACE does not have is OBJECT_NOT_EXIST, one that is being removed
    NO_PERMISSION; an operation that takes too long is TIMEOUT and goes on, one that cannot run is
    INVALID_ACTIVITY or NO_RESOURCES; and the call returns normally exactly when the gestalt's
    operation returned 0 or failed with 0 in errno (which the directive of a service may leave there, ServiceGestalt.h:70: that failure is not
    reported). *)
Theorem service_exceptions how ident e s op make :
  (op, make) = (suspend classic how, SuspendActivity) \/ (op, make) = (resume classic how, ResumeActivity)
  \/ (op, make) = (remove classic how, RemoveActivity) ->
  (given ident = None -> op ident e s = (s, Raised BAD_PARAM, EINVAL))
  /\ forall id, given ident = Some id ->
     (bad_ident (trim id) = true -> op ident e s = (s, Raised BAD_PARAM, EINVAL))
     /\ (bad_ident (trim id) = false -> forall s' ex e', early_result how (make (trim id)) (trim id) s = Some (s', ex, e') ->
         op ident e s = (s', Raised ex, e'))
     /\ ((op ident e s).1.2 = Replied tt <-> exists s' r e', service_action classic make how id e s = (s', r, e') /\ (r = 0 \/ e' = Enone)).
Proof.
  intros Hop. assert (op = call (service_action classic make how)) as ->.
  { by destruct Hop as [[= -> ->]|[[= -> ->]|[= -> ->]]]. }
  assert (make = SuspendActivity \/ make = ResumeActivity \/ make = RemoveActivity) as Hmake.
  { destruct Hop as [[= _ ->]|[[= _ ->]|[= _ ->]]]; tauto. }
  clear Hop. unfold call. split; [by intros ->|]. intros id ->. split_and!.
  - intros Hb. unfold service_action. by rewrite Hb.
  - intros Hb s' ex e' He. pose proof (valid_trim _ Hb) as Hv. unfold service_action. rewrite Hb. destruct s as [g l].
    destruct how as [[|]|k|k|]; cbn [early_result process_svc_action home late] in *; [| |by injection He as <- <- <-..].
    + destruct (ace_find (ace g) (trim id)) as [t|] eqn:Ef.
      * destruct (fini_called t) eqn:Et; [|done]. injection He as <- <- <-.
        destruct Hmake as [->|[->| ->]]; cbn [run_activity]; unfold switch_run, RemoveActivity_run; cbn [negb];
          rewrite find_valid, Ef, Et by done; done.
      * injection He as <- <- <-.
        destruct Hmake as [->|[->| ->]]; cbn [run_activity]; unfold switch_run, RemoveActivity_run; cbn [negb];
          rewrite find_valid, Ef by done; done.
    + injection He as <- <- <-. by destruct Hmake as [->|[->| ->]].
  - destruct (service_action classic make how id e s) as [[s1 r1] e1] eqn:E. rewrite report_replied. cbn [fst snd].
    split; [intros Hr; by exists s1, r1, e1|]. by intros (? & ? & ? & [= _ -> ->] & Hr).
Qed.
End errors.

(** ** Loading *)

Section loads.
Context {G : Type} `{AceGestalt G} (classic : bool) `{!AceGestaltLaws G classic} `{Platform}.
Implicit Types (g : gestalt G) (s : system G).

(** Formatting throws nothing. *)
Lemma format_property_args_throws_nothing fuel args : holds (fun _ => False) (format_property_args fuel args).
Proof.
  apply format_args_holds. intros n s s' r Hr. apply get_property_holds in Hr as [Hg Ht]. split; [done|].
  intros e He. by eapply lookup_exn_caught, Ht.
Qed.

(** A load that ends is answered: no exception leaves the servant. *)
Lemma load_answered fuel how now ident lib cls params e s st st' r :
  (load_static classic fuel how now ident params e s st = Some (st', r)
   \/ load_dynamic classic fuel how now ident lib cls params e s st = Some (st', r)) ->
  exists s' p e', r = Ok (s', p, e') /\ forall ex, p <> Escaped ex.
Proof.
  assert (forall z : system G * Z * errno, report z = ((report z).1.1, (report z).1.2, (report z).2) /\ forall ex, (report z).1.2 <> @Escaped unit ex) as Hrep.
  { intros [[s0 z] e0]. cbn. split; [done|]. destruct (z =? 0); [done|]. by destruct (throw_last_error e0). }
  assert (forall op : text -> PM (system G * Z * errno), (forall id, holds (fun _ => False) (op id)) -> call_loading op ident e s st = Some (st', r) ->
    exists s' p e', r = Ok (s', p, e') /\ forall ex, p <> Escaped ex) as Hcall.
  { intros op Hop. unfold call_loading. destruct (given ident) as [id|]; [|by intros [= <- <-]; eexists _, _, _].
    destruct (op id st) as [[st1 [z|ex]]|] eqn:E; intros [= <- <-].
    - destruct (Hrep z) as [-> Hz]. by eexists _, _, _.
    - apply Hop in E as [_ Ht]. by destruct (Ht ex eq_refl). }
  intros [Hc|Hc]; apply Hcall in Hc; [done| |done|]; intros id.
  - unfold loadStatic. destruct (bad_ident _); [apply holds_ret|]. apply holds_bind; [apply format_property_args_throws_nothing|].
    intros a. destruct (process_svc_action _ _ _ _ _) as [[? ?] ?]. apply holds_ret.
  - unfold loadDynamic. destruct (bad_ident _); [apply holds_ret|]. repeat (case_match; [apply holds_ret|]).
    apply holds_bind; [apply format_property_args_throws_nothing|]. intros a. destruct (process_svc_action _ _ _ _ _) as [[? ?] ?]. apply holds_ret.
Qed.

(** Loading a service that ACE has already is answered with OBJECT_NOT_EXIST. *)
Lemma load_existing_says_missing fuel now ident id params e s st st' t r :
  given ident = Some id -> bad_ident (trim id) = false -> ace_find (ace (home s)) (trim id) = Some t ->
  load_static classic fuel (InTime true) now ident params e s st = Some (st', r) -> r = Ok (s, Raised OBJECT_NOT_EXIST, EEXIST).
Proof.
  intros Hi Hb Hf. unfold load_static, call_loading. rewrite Hi. unfold loadStatic. rewrite Hb. unfold mbind, PM_bind.
  destruct (format_property_args _ _ _) as [[st1 [a|ex]]|] eqn:Ef; [| |done].
  - cbn [process_svc_action run_activity]. unfold LoadActivity_run. cbn [negb ident_]. rewrite find_valid, Hf by (by apply valid_trim).
    intros [= _ <-]. by destruct s.
  - apply format_property_args_throws_nothing in Ef as [_ Ht]. by destruct (Ht ex eq_refl).
Qed.

(** A load ends when the formatting of its arguments does. *)
Lemma loadDynamic_ends fuel how now ident lib cls params e s st :
  is_Some (format_property_args fuel params st) -> is_Some (loadDynamic classic fuel how now ident lib cls params e s st).
Proof.
  intros [[st1 r] E]. unfold loadDynamic. repeat (case_match; [by eexists|]). unfold mbind, PM_bind. rewrite E.
  destruct r; [|by eexists]. destruct (process_svc_action _ _ _ _ _) as [[? ?] ?]. by eexists.
Qed.

(** Loading a configuration file asks the gestalt once for every entry of the
    sections that were read, in some order, whatever the single loads do, and reports how many
    entries there were and how many failed, unless the file could not be processed. *)
Theorem load_config_file files fuel how now arg a (s : system G) st st1 l n z :
  given arg = Some a -> loader_file_profile files fuel (trim a) new_loader st = Some (st1, Ok ((l, n), z)) ->
  (forall kv s st, kv ∈ map_to_list (entries_ l) -> is_Some (attempt fuel (gestalt_load fuel classic how now) kv s st)) ->
  load_file_profile files fuel (trim a) (Config ∅ 0) st = Some (st1, Ok (Config (entries_ l) n, z))
  /\ exists st' s' count rc, loadConfigFile files fuel classic how now arg s st = Some (st', Ok (s', (count, rc)))
  /\ if z =? 0 then
       count = to_int (Z.of_nat (size (entries_ l)))
       /\ exists reqs loaded, reqs ≡ₚ map_to_list (entries_ l) /\ length loaded = size (entries_ l) /\ rc = to_int (failures loaded)
          /\ attempts fuel (gestalt_load fuel classic how now) reqs s st1 = Some (st', s', loaded)
     else (st', s', count, rc) = (st1, s, 0, -1).
Proof.
  intros Ha Hl Hent. destruct (loader_file_profile_spec files fuel (trim a) new_loader st) as [E Hn].
  rewrite Hl in E. cbn [configured] in E. split; [exact (eq_sym E)|].
  assert (names_listed l) as Hnl by (apply (Hn ltac:(done) st1 (l, n) z Hl)).
  unfold loadConfigFile. rewrite Ha, Hl. destruct (z =? 0); [|by eexists _, _, _, _].
  pose proof (requests_all files l Hnl) as Hp.
  destruct (attempts_end fuel (gestalt_load fuel classic how now) (requests (ident_list_ l) (entries_ l)) s st1) as (st' & s' & loaded & E1 & E2).
  { intros req s0 st0 Hin. apply Hent. by rewrite <- Hp. }
  unfold process_directives, mbind, PM_bind. rewrite (process_loop_attempts _ _ _ _ _ _ _ _ _ _ E1). eexists _, _, _, _. split; [done|]. split; [done|].
  exists (requests (ident_list_ l) (entries_ l)), loaded. split; [done|]. split; [|done]. by rewrite E2, (Permutation_length Hp), length_map_to_list.
Qed.
End loads.

(** ** Descriptors of services *)

Section describing.
Context {G Obj : Type} `{AceGestalt G, ServiceObjects G Obj}.
Implicit Types (g : gestalt G).

Lemma raise_flag_bit f b flags k : 0 <= k -> Z.testbit (raise_flag f b flags) k = Z.testbit flags k || (b && (k =? flag_bit f)).
Proof.
  intros Hk. unfold raise_flag. destruct b; cbn [andb]; [|by rewrite orb_false_r].
  rewrite Z.lor_spec, Z.shiftl_1_l, Z.pow2_bits_eqb, Z.eqb_sym by (by destruct f). done.
Qed.

(** The flags that are sent: how the service was loaded, its kind, and its state in the
    repository. *)
Definition sent_flag g (d : descriptor) (f : SVC_Flags) : bool :=
  match ace_find (ace g) (c_str (ident_ d)), f with
  | _, SVC_EXECUTE => Z.testbit (loadflags_ d) 0
  | _, SVC_STATIC => Z.testbit (loadflags_ d) 1
  | _, SVC_DYNAMIC => Z.testbit (loadflags_ d) 2
  | Some t, SVC_ACTIVE => active t
  | Some t, SVC_FINIED => fini_called t
  | Some _, SVC_OBJECT => match service_kind (ace g) (c_str (ident_ d)) with Some SERVICE_OBJECT => true | _ => false end
  | Some _, SVC_MODULE => match service_kind (ace g) (c_str (ident_ d)) with Some MODULE => true | _ => false end
  | Some _, SVC_STREAM => match service_kind (ace g) (c_str (ident_ d)) with Some STREAM => true | _ => false end
  | None, _ => false
  end.

Lemma make_descriptor_sent d g : exists ed : EntityDescriptor Obj, make_descriptor true d g = Replied ed
  /\ e_ident ed = c_str (ident_ d) /\ e_libpathname ed = c_str (libpathname_ d) /\ e_objectclass ed = c_str (objectclass_ d)
  /\ e_parameters ed = c_str (parameters_ d) /\ e_loadTime ed = loadtime_ d
  /\ forall f, Z.testbit (e_flags ed) (flag_bit f) = sent_flag g d f.
Proof.
  unfold make_descriptor, sent_flag. cbn [negb]. destruct (ace_find _ _) as [t|];
    [destruct (service_kind _ _) as [[| |]|]; [| |destruct (service_info _ _)|]|];
    (eexists; split; [done|]; split_and!; [done..|]; intros f; cbn [e_flags]; unfold load_flags;
     rewrite ?raise_flag_bit by (by destruct f); destruct f; cbn; rewrite ?orb_false_r, ?andb_true_r, ?andb_false_r, ?orb_false_r; done).
Qed.

(** The descriptor of a registered service says whether the service is active, and every
    registered service is listed once. *)
Lemma services_described g ident d : mirrors g -> descriptors g !! ident = Some d ->
  (exists ed : EntityDescriptor Obj, findService true (Some ident) g = Replied ed /\ e_ident ed = ident
     /\ Z.testbit (e_flags ed) (flag_bit SVC_ACTIVE) = flag_active d)
  /\ (forall other, given (Some other) = Some other -> descriptors g !! other = None ->
      findService true (Some other) g = @Raised (EntityDescriptor Obj) OBJECT_NOT_EXIST)
  /\ exists l : list (EntityDescriptor Obj), listServices true g = Replied l
     /\ e_ident <$> l = (fun d => c_str (ident_ d)) <$> list_service_repository false g.
Proof.
  intros Hm Hd. destruct (Hm _ _ Hd) as (Hi & Hv & t & Ht & Ha). split_and!.
  - destruct (make_descriptor_sent d g) as (ed & E & Ei & _ & _ & _ & _ & Ef). exists ed.
    unfold findService, given. rewrite c_str_valid by done. rewrite bool_decide_false by apply Hv.
    unfold makeEntityDescriptor. cbn [negb]. rewrite Hd. split; [done|]. rewrite Ei, Ef, Hi, c_str_valid by done.
    split; [done|]. unfold sent_flag. by rewrite Hi, c_str_valid, Ht by done.
  - intros other Ho Hn. unfold findService. rewrite Ho. unfold makeEntityDescriptor. cbn [negb]. by rewrite Hn.
  - unfold listServices. induction (list_service_repository false g) as [|sd l IH]; [by exists []|]. cbn [describe_all].
    destruct (make_descriptor_sent sd g) as (ed & -> & Ei & _). destruct IH as (l' & -> & E). exists (ed :: l').
    split; [done|]. cbn. by rewrite Ei, E.
Qed.
End describing.

(** ** Witnesses *)

Module ServiceExamples.
#[local] Existing Instances table_gestalt table_laws words_platform.

Lemma service_exceptions_witness :
  suspend true (InTime true) (Some (str "Clock")) Enone with_logger = (with_logger, Raised OBJECT_NOT_EXIST, EEXIST)
  /\ suspend true (TimedOut 2) (Some (str "Logger")) Enone with_logger
     = (abandon true 2 (SuspendActivity (str "Logger")) with_logger, Raised TIMEOUT, ETIME)
  /\ (suspend true (InTime true) (Some (str "Logger")) Enone with_logger).1.2 = Replied tt.
Proof.
  assert (forall how id, given (Some id) = Some id -> bad_ident (trim id) = false -> trim id = id ->
    (forall s' ex e', early_result true how (SuspendActivity id) id with_logger = Some (s', ex, e') ->
      suspend true how (Some id) Enone with_logger = (s', Raised ex, e'))
    /\ ((suspend true how (Some id) Enone with_logger).1.2 = Replied tt
        <-> exists s' r e', suspendService true how id Enone with_logger = (s', r, e') /\ (r = 0 \/ e' = Enone))) as Hs.
  { intros how id Hg Hb Ht.
    destruct (service_exceptions true how (Some id) Enone with_logger (suspend true how) SuspendActivity) as [_ H1]; [by left|].
    destruct (H1 id Hg) as (_ & H2 & H3). rewrite Ht in H2. split; [apply H2; by rewrite <- Ht|exact H3]. }
  destruct (Hs (InTime true) (str "Clock")) as [H1 _]; [by vm_compute..|].
  destruct (Hs (TimedOut 2) (str "Logger")) as [H2 _]; [by vm_compute..|].
  destruct (Hs (InTime true) (str "Logger")) as [_ H3]; [by vm_compute..|].
  assert (ace_find (ace (home with_logger)) (str "Clock") = None) as Hf by (by vm_compute).
  split; [apply H1; unfold early_result; rewrite Hf; reflexivity|]. split; [exact (H2 _ _ _ eq_refl)|].
  apply H3. exists logger_suspended, 0, Enone. split; [exact suspend_logger_ok|by left].
Defined.

(** A service whose suspension fails and leaves 0 in errno. *)
Definition silent_gestalt : AceGestalt (gmap text svc_type) := {|
  ace_find := @ace_find _ table_gestalt;
  ace_names := @ace_names _ table_gestalt;
  ace_set_active := @ace_set_active _ table_gestalt;
  ace_process := fun _ a => (a, 1, Some Enone);
|}.

(** The client is told that it is suspended. *)
Lemma silent_failure_replies :
  let s := @suspendService _ silent_gestalt true (InTime true) (str "Logger") Enone with_logger in
  snd (fst s) = -1 /\ (@suspend _ silent_gestalt true (InTime true) (Some (str "Logger")) Enone with_logger).1.2 = Replied tt
  /\ (active <$> ace_find (ace (home (fst (fst s)))) (str "Logger")) = Some true.
Proof. by vm_compute. Qed.

(** A second load of the logger. *)
Lemma load_existing_says_missing_witness : exists st,
  load_static true 10 (InTime true) 0 (Some (str "Logger")) None Enone with_logger ∅
  = Some (st, Ok (with_logger, Raised OBJECT_NOT_EXIST, EEXIST)).
Proof.
  assert (ace_find (ace (home with_logger)) (trim (str "Logger")) = Some (SvcType true false)) as Hf by (by vm_compute).
  assert (given (Some (str "Logger")) = Some (str "Logger")) as Hg by (by vm_compute).
  assert (bad_ident (trim (str "Logger")) = false) as Hb by (by vm_compute).
  pose proof (fun st' r => load_existing_says_missing true 10 0 _ _ None Enone with_logger ∅ st' _ r Hg Hb Hf) as Hl.
  assert (is_Some (load_static true 10 (InTime true) 0 (Some (str "Logger")) None Enone with_logger ∅)) as [[st r] E].
  { unfold load_static, call_loading. rewrite Hg. unfold loadStatic. rewrite Hb. unfold mbind, PM_bind.
    assert (format_property_args 10 (or_empty None) ∅ = Some (∅, Ok [])) as Ef by (by vm_compute). rewrite Ef.
    destruct (process_svc_action _ _ _ _ _) as [[? ?] ?]. by eexists. }
  exists st. by rewrite (Hl st r E) in E.
Defined.

Definition service_files (name : text) : option (list text) :=
  if bool_decide (name = str "svc.conf") then Some [str "[common]"; str "Logger=liblog:_make_Logger"; str "Broken=nothing"] else None.

Abbreviation load_one k v s st :=
  (attempt 60 (gestalt_load 60 true (fun _ => InTime true) 0) (str k, str v) (s : system (gmap text svc_type)) (st : store)).

Lemma broken_ends s st : is_Some (load_one "Broken" "nothing" s st).
Proof.
  unfold attempt.
  assert (format_property_args 60 (str "nothing") st = Some (st, Ok (str "nothing"))) as E by (by vm_compute). cbn [snd]. rewrite E.
  assert (parse_service (str "nothing") = None) as E2 by (by vm_compute). rewrite E2. by eexists.
Qed.

Lemma logger_ends s st : is_Some (load_one "Logger" "liblog:_make_Logger" s st).
Proof.
  unfold attempt.
  assert (format_property_args 60 (str "liblog:_make_Logger") st = Some (st, Ok (str "liblog:_make_Logger"))) as E by (by vm_compute).
  cbn [snd]. rewrite E.
  assert (parse_service (str "liblog:_make_Logger") = Some (str "liblog", str "_make_Logger", [])) as E2 by (by vm_compute). rewrite E2.
  unfold gestalt_load, mbind, PM_bind.
  assert (is_Some (format_property_args 60 [] st)) as Hf by (by vm_compute; eexists).
  destruct (loadDynamic_ends true 60 (InTime true) 0 (str "Logger") (str "liblog") (str "_make_Logger") [] Enone s st Hf) as [[st1 r] E4].
  change (fst (str "Logger", str "liblog:_make_Logger")) with (str "Logger"). rewrite E4. destruct r as [[[? ?] ?]|ex]; by eexists.
Qed.

Lemma load_config_file_witness : exists st s',
  loadConfigFile service_files 60 true (fun _ => InTime true) 0 (Some (str "svc.conf")) no_services ∅ = Some (st, Ok (s', (2, 1))).
Proof.
  destruct (loader_file_profile service_files 60 (trim (str "svc.conf")) new_loader ∅) as [[st1 [[[l n] z]|ex]]|] eqn:E;
    [|by vm_compute in E|by vm_compute in E].
  destruct (load_config_file true service_files 60 (fun _ => InTime true) 0 (Some (str "svc.conf")) (str "svc.conf") no_services ∅ st1 l n z
    eq_refl E) as (_ & st' & s' & count & rc & E1 & _).
  - intros [k v] s st Hin. apply elem_of_map_to_list in Hin.
    assert (entries_ l = {[ str "Broken" := str "nothing"; str "Logger" := str "liblog:_make_Logger" ]}) as El.
    { assert (entries_ <$> (match loader_file_profile service_files 60 (trim (str "svc.conf")) new_loader ∅ with
        Some (_, Ok ((l, _), _)) => Some l | _ => None end) = Some {[ str "Broken" := str "nothing"; str "Logger" := str "liblog:_make_Logger" ]})
        as H by (vm_compute; reflexivity). rewrite E in H. by injection H. }
    rewrite El in Hin. apply lookup_insert_Some in Hin as [[<- <-]|[_ Hin]].
    + exact (broken_ends s st).
    + apply lookup_singleton_Some in Hin as [<- <-]. exact (logger_ends s st).
  - exists st', s'. rewrite E1. assert (snd <$> (match loadConfigFile service_files 60 true (fun _ => InTime true) 0 (Some (str "svc.conf")) no_services ∅ with
      Some (_, Ok r) => Some r | _ => None end) = Some (2, 1)) as H by (vm_compute; reflexivity). rewrite E1 in H. by injection H as -> ->.
Defined.
End ServiceExamples.
