(* ===== verification/PropertyServer.v ===== *)
(** * Properties over CORBA: TAF/taf/PropertyServer_impl

    The servant in front of the property repository: what a client of get_property, set_property and
    del_property gets for each outcome of the repository's operation in [Properties]. *)

From S2P Require Import Prelude CString Text Properties Configurator Gestalt ServiceLoader Services.
From Stdlib Require Import Ascii.

Section servant.
Context `{Platform} (fuel : nat).

(** A clause of the handlers: the first of the listed exceptions that catches. *)
Fixpoint handled (clauses : list (daf_exn * corba_exn)) (e : daf_exn) : corba_exn :=
  match clauses with
  | [] => INVALID_ACTIVITY                                   (* DAF_CATCH_ALL *)
  | (h, ex) :: clauses => if catches h e then ex else handled clauses e
  end.

(** A request for a name: [INV_IDENT] without one. *)
Definition request {A} (clauses : list (daf_exn * corba_exn)) (ident : option text) (m : text -> PM (reply A)) : PM (reply A) :=
  match given ident with
  | None => mret (Raised INV_IDENT)
  | Some id => fun st =>
      match m id st with
      | Some (st, Throw e) => Some (st, Ok (Raised (handled clauses e)))
      | r => r
      end
  end.

(** TAF/taf/PropertyServer_impl.cpp:29-43 [PropertyServer_impl::get_property]. *)
Definition server_get_property (ident : option text) : PM (reply text) :=
  request [(NotFoundException, INV_IDENT); (IllegalArgumentException, BAD_PARAM); (IllegalThreadStateException, BAD_OPERATION)] ident
    (fun id => v ← get_property fuel id true; mret (Replied (c_str v))).

(** TAF/taf/PropertyServer_impl.cpp:45-60 [PropertyServer_impl::set_property]. *)
Definition server_set_property (ident value : option text) : PM (reply unit) :=
  request [(IllegalThreadStateException, BAD_OPERATION); (IllegalArgumentException, BAD_PARAM)] ident
    (fun id => r ← set_property id (or_empty value); mret (if r =? 0 then Replied tt else Raised INV_IDENT)).

(** TAF/taf/PropertyServer_impl.cpp:62-75 [PropertyServer_impl::del_property]. *)
Definition server_del_property (ident : option text) : PM (reply unit) :=
  request [(IllegalThreadStateException, BAD_OPERATION); (IllegalArgumentException, BAD_PARAM)] ident
    (fun id => _ ← del_property id; mret (Replied tt)).

(** What a client gets, on every branch: a name that is missing is INV_IDENT and one that is
    blank BAD_PARAM; get_property gives the meaning of the property, INV_IDENT when there is none;
    set_property stores the value, or answers INV_IDENT and changes nothing when the value is blank
    and there is one already; del_property of a property that is not there is no error. *)
Theorem property_requests st rank L n ident value :
  layered st rank L -> (forall id, given ident = Some id -> own st id /\ (rank (trim id) + L < fuel)%nat /\ (rank (trim id) < n)%nat) ->
  server_get_property ident st
  = Some (st, Ok (match given ident with
                  | None => Raised INV_IDENT
                  | Some id => match meaning st n true id with
                               | Some v => Replied (c_str v)
                               | None => Raised (if decide (trim id = []) then BAD_PARAM else INV_IDENT)
                               end
                  end))
  /\ server_set_property ident value st
  = Some (match given ident with
          | None => (st, Ok (Raised INV_IDENT))
          | Some id =>
              if decide (trim id = []) then (st, Ok (Raised BAD_PARAM))
              else match decide (trim (or_empty value) = []), st !! trim id with
                   | left _, Some _ => (st, Ok (Raised INV_IDENT))
                   | _, _ => (<[trim id := trim (or_empty value)]> st, Ok (Replied tt))
                   end
          end)
  /\ server_del_property ident st
  = Some (match given ident with
          | None => (st, Ok (Raised INV_IDENT))
          | Some id => if decide (trim id = []) then (st, Ok (Raised BAD_PARAM)) else (base.delete (trim id) st, Ok (Replied tt))
          end).
Proof.
  intros Hl Hid. unfold server_get_property, server_set_property, server_del_property, request.
  destruct (given ident) as [id|]; [|done]. destruct (Hid id eq_refl) as (Ho & Hf & Hn). unfold mbind, PM_bind.
  destruct (set_del_property_spec id (or_empty value) st) as [-> ->].
  rewrite (get_property_outcome st rank L fuel n id true Hl (fun _ => Ho) Hf Hn). unfold lookup_outcome. split_and!.
  - destruct (meaning st n true id); [done|]. by destruct (decide _).
  - destruct (decide (trim id = [])); [done|]. by destruct (decide _), (st !! trim id).
  - by destruct (decide _).
Qed.
End servant.

Lemma property_requests_witness :
  (fun r => snd r) <$> server_get_property (H := calm_platform) 16 (Some (str "name")) greeting
  = Some (match meaning (H := calm_platform) greeting 2 true (str "name") with Some v => Ok (Replied (c_str v)) | None => Ok (Raised INV_IDENT) end).
Proof.
  destruct (@property_requests calm_platform 16 greeting greet_rank 14 2 (Some (str "name")) None greeting_calm_layered) as (E & _).
  - intros id [= <-]. split; [by intros _ env [=]|]. vm_compute. split; lia.
  - rewrite E. by vm_compute.
Defined.
