(* ===== verification/OrbContexts.v ===== *)
(** * The root and base naming contexts: TAF/taf/ORBManager, rootContext and baseContext

    The ORB keeps the context it found at the naming service and the one that the property
    TAFBaseContext names below it; both are tested each time they are asked for and forgotten when
    the service does not answer.  What the initial references give and whether a context answers
    are parameters. *)

From S2P Require Import Prelude CString Text Configurator Naming.
From Stdlib Require Import Ascii.

(** TAF/taf/ORBManager.cpp:60-60 [rootContext_]. And [baseContext_]. *)
Record contexts (Obj : Type) := Contexts { rootContext_ : option Obj; baseContext_ : option Obj }.
Arguments Contexts {Obj}.
Arguments rootContext_ {Obj} c.
Arguments baseContext_ {Obj} c.

Section contexts.
Context {NS Obj : Type} `{CosNaming NS Obj}.
(** The context the initial reference narrows to, if any; and whether [_is_a] answers true. *)
Context (initial_context : NS -> option Obj) (answers : NS -> Obj -> bool).

Definition none_kept : contexts Obj := Contexts None None.

(** TAF/taf/ORBManager.cpp:206-243 [ORB::rootContext]. [None]: it throws NotFound. *)
Definition rootContext (st : contexts Obj) (w : NS) : contexts Obj * option Obj :=
  match rootContext_ st with
  | None =>
      match initial_context w with
      | Some root => (Contexts (Some root) None, Some root)
      | None => (none_kept, None)
      end
  | Some root => if answers w root then (st, Some root) else (none_kept, None)
  end.

(** TAF/taf/ORBManager.cpp:245-277 [ORB::baseContext]. [base_path]: the property, or the exception its look-up throws. *)
Definition baseContext (fuel : nat) (base_path : result text) (st : contexts Obj) (w : NS)
  : option (NS * contexts Obj * nres (option Obj)) :=
  match baseContext_ st with
  | None =>
      match rootContext st w with
      | (st, None) => Some (w, st, NThrow NotFound)
      | (st, Some root) =>
          let keep w b := Some (w, Contexts (rootContext_ st) b, NOk b) in
          match base_path with
          | Throw _ => keep w (Some root)
          | Ok path =>
              match bind_context (Some root) fuel (Some root) path w with
              | Some (w, NOk b) => keep w b
              | Some (w, NThrow _) => keep w (Some root)
              | Some (w, NNil) => Some (w, st, NNil)
              | None => None
              end
          end
      end
  | Some b => if answers w b then Some (w, st, NOk (Some b)) else Some (w, none_kept, NThrow NotFound)
  end.

(** A base context is kept only along with a root context. *)
Definition contexts_ok (st : contexts Obj) : Prop := is_Some (baseContext_ st) -> is_Some (rootContext_ st).

(** What is returned is what is kept, and it is returned again as long as it answers; after
    NotFound nothing is kept, so that the next call asks the initial references again. *)
Lemma root_context_kept st w : contexts_ok st ->
  contexts_ok (rootContext st w).1
  /\ match rootContext st w with
     | (st', Some c) => rootContext_ st' = Some c /\ forall w', rootContext st' w' = if answers w' c then (st', Some c) else (none_kept, None)
     | (st', None) => st' = none_kept /\ forall w', (rootContext st' w').2 = initial_context w'
     end.
Proof.
  intros Hok. unfold rootContext, contexts_ok in *. destruct (rootContext_ st) as [r|] eqn:Er.
  - destruct (answers w r).
    + cbn. rewrite Er. split; [by eexists|done].
    + split; [by intros [? [=]]|]. split; [done|]. intros w'. cbn. by destruct (initial_context w').
  - destruct (initial_context w) as [r|].
    + split; [by intros [? [=]]|done].
    + split; [by intros [? [=]]|]. split; [done|]. intros w'. cbn. by destruct (initial_context w').
Qed.

Lemma base_context_kept fuel path st w w' st' r : contexts_ok st -> baseContext fuel path st w = Some (w', st', r) ->
  contexts_ok st'
  /\ match r with
     | NOk (Some c) => baseContext_ st' = Some c
         /\ forall v, baseContext fuel path st' v = if answers v c then Some (v, st', NOk (Some c)) else Some (v, none_kept, NThrow NotFound)
     | NOk None => baseContext_ st' = None
     | NThrow e => st' = none_kept /\ e = NotFound
     | NNil => True
     end.
Proof.
  intros Hok. pose proof (root_context_kept st w Hok) as [Hr1 Hr2]. unfold baseContext.
  assert (forall c r0, contexts_ok (Contexts (Some r0) (Some c)) /\ baseContext_ (Contexts (Some r0) (Some c)) = Some c
    /\ forall v, baseContext fuel path (Contexts (Some r0) (Some c)) v
       = if answers v c then Some (v, Contexts (Some r0) (Some c), NOk (Some c)) else Some (v, none_kept, NThrow NotFound)) as Hk.
  { intros c r0. split; [by eexists|]. by split. }
  destruct (baseContext_ st) as [b|] eqn:Eb.
  - destruct (answers w b); intros [= <- <- <-]; [|by split; [intros [? [=]]|]]. split; [done|]. split; [done|]. intros v. by rewrite Eb.
  - destruct (rootContext st w) as [st1 [root|]]; [|destruct Hr2 as [-> _]; intros [= <- <- <-]; by split; [intros [? [=]]|]].
    destruct Hr2 as [E _]. rewrite E. destruct path as [path|e]; [|intros [= <- <- <-]; apply Hk].
    destruct (bind_context _ _ _ _ _) as [[w1 [[b|]|e|]]|]; [| | | |done]; intros [= <- <- <-]; [apply Hk| |apply Hk|done].
    split; [by intros [? [=]]|done].
Qed.
End contexts.
