(* ===== verification/Startup.v ===== *)
(** * Command lines of a server: TAF/taf/PropertyLoader, ORB::init and _init_TAFServer

    What becomes of the arguments of a process: profiles of properties and single properties are
    taken out of them and loaded ([PropertyLoader]), the arguments of the extension are put in, and
    the rest is divided between the ORB and the service ([ORB::init]).  The scanner of arguments is the
    one of [ConfigLoad]; an argument vector is the list of its arguments, and what is not consumed is
    what stays in it. *)

From S2P Require Import Prelude CString Text Properties Configurator ConfigLoad.
From Stdlib Require Import Ascii.

(** [cur_arg_strncasecmp(flag) >= 0]: the current argument begins with the flag, in any case. *)
Class ArgPrefix (Sh : Type) := {
  begins : text -> text -> bool;
  cur_arg_begins : text -> Sh -> bool;
}.

Class ArgPrefixLaws (Sh : Type) `{ArgPrefix Sh} (left : Sh -> list text) : Prop := {
  prefix_left : forall sh arg l, left sh = arg :: l -> forall flag, cur_arg_begins flag sh = begins flag arg;
}.

Definition CORBA_ORB_ARGUMENT_SPECIFIER : text := str "-ORB".
Definition TAF_PROPERTIES : text := str "TAFProperties".
Definition TAF_PROPERTIES_FLAG : text := str "-TAFProperties".
Definition TAF_EXTENSIONARGS : text := str "TAFExtensionArgs".
Definition TAF_SERVICE_ARGS : text := str "TAFServiceArgs".
Definition TAF_ORBINITARGS : text := str "TAFOrbInitArgs".

(** TAF/taf/PropertyLoader.cpp:32-54 [property_options]. Without security. *)
Definition property_options : list text :=
  str <$> ["TAFResolveTimeout"; "TAFDiscoveryEnable"; "TAFDiscoveryEndpoint"; "TAFOrbThreads"; "TAFBaseContext"; "TAFServerName";
           "ACEBaseThreads"; "ACEDebug"; "TAODebug"; "DAFDebug"; "TAFDebug"; "TAOrbDebug"]%string.

(** TAF/taf/ORBManager.cpp:283-287 [ORB::init]. *)
Definition orb_defaults : list text := str <$> ["-ORBDottedDecimalAddresses"; "1"; "-ORBObjRefStyle"; "IOR"]%string.

Section startup.
Context {Sh : Type} `{ArgShifter Sh, ArgPrefix Sh, Platform}.

(** ** The loader of properties *)

Section loader.
Context (load_file_profile : text -> CM config Z) (pfuel : nat).

Definition load_count : CM config Z := fun c s => Some (c, s, Ok (load_count_ c)).

(** TAF/taf/PropertyLoader.cpp:65-75 [PropertyLoader::PropertyLoader]. *)
Fixpoint profile_params (fuel : nat) (sh : Sh) : CM config Sh :=
  match fuel with
  | O => starve
  | S fuel =>
      if is_parameter_next sh then
        _ ← ctry (fun _ => true) (load_file_profile (get_current sh)) (mret (-1));
        profile_params fuel (consume_arg sh)
      else mret sh
  end.

(** TAF/taf/PropertyLoader.cpp:61-80 [PropertyLoader::PropertyLoader]. [kept]: the arguments passed over. *)
Fixpoint profile_scan (fuel : nat) (sh : Sh) (kept : list text) : CM config (list text) :=
  match fuel with
  | O => starve
  | S fuel =>
      if is_anything_left sh then
        if is_option_next sh && cur_arg_matches TAF_PROPERTIES_FLAG sh then
          sh ← profile_params (S fuel) (consume_arg sh);
          profile_scan fuel sh kept
        else profile_scan fuel (ignore_arg sh) (kept ++ [get_current sh])
      else mret kept
  end.

(** TAF/taf/PropertyLoader.cpp:57-99 [PropertyLoader::PropertyLoader]. The arguments that stay. *)
Definition PropertyLoader (fuel : nat) (argv : list text) (use_env : bool) : CM config (list text) :=
  kept ← (if bool_decide (argv = []) then mret [] else profile_scan fuel (shifter argv) []);
  n ← load_count;
  _ ← (if if negb (n =? 0) then false else use_env then
         match getenv TAF_PROPERTIES with
         | Some properties => ctry (fun _ => true) (load_file_profile properties) (mret (-1))
         | None => mret 0
         end
       else mret 0);
  mret kept.

(** [ARGV::add] of one argument, quoted. *)
Definition vec_add (subst : bool) (vec : list text) (arg : text) : list text := vec ++ argv_add subst arg.

(** [for (; shifter.is_parameter_next(); shifter.ignore_arg())]: the parameters passed over. *)
Fixpoint pass_params (fuel : nat) (sh : Sh) (passed : list text) : Sh * list text :=
  match fuel with
  | O => (sh, passed)
  | S fuel =>
      if is_parameter_next sh then pass_params fuel (ignore_arg sh) (passed ++ [get_current sh]) else (sh, passed)
  end.

(** All that is left. *)
Fixpoint pass_all (fuel : nat) (sh : Sh) (passed : list text) : list text :=
  match fuel with
  | O => passed
  | S fuel => if is_anything_left sh then pass_all fuel (ignore_arg sh) (passed ++ [get_current sh]) else passed
  end.

(** TAF/taf/PropertyLoader.cpp:102-130 [PropertyLoader::parse_args]. *)
Definition parse_args (argv : list text) : CM config (list text) :=
  let fuel := S (length argv) in
  '(sh, front) ← ctry (catches NotFoundException)
    (cmdLineEx ← of_PM (get_property pfuel TAF_EXTENSIONARGS false);
     let cmdLine_argv := argv_of_string false (c_str cmdLineEx) in
     if bool_decide (cmdLine_argv = []) then mret (shifter argv, [])
     else let '(sh, passed) := pass_params fuel (shifter argv) [] in mret (sh, passed ++ cmdLine_argv))
    (mret (shifter argv, []));
  mret (foldl (vec_add false) [] (front ++ pass_all fuel sh [])).

(** TAF/taf/PropertyLoader.cpp:193-197 [PropertyLoader::load_property]. On the configurator's own map, then on the repository. *)
Definition set_both (key val : text) : CM config Z := fun c s =>
  match Properties.load_property key val (props c) with
  | Some (p, Ok 0) => of_PM (set_property key val) (Config p (load_count_ c)) s
  | Some (p, _) => Some (Config p (load_count_ c), s, Ok (-1))
  | None => None
  end.

(** [for (...; shifter.is_parameter_next(); shifter.consume_arg())]: the parameters consumed. *)
Fixpoint take_params (fuel : nat) (sh : Sh) (taken : list text) : Sh * list text :=
  match fuel with
  | O => (sh, taken)
  | S fuel =>
      if is_parameter_next sh then take_params fuel (consume_arg sh) (taken ++ [get_current sh]) else (sh, taken)
  end.

(** TAF/taf/PropertyLoader.cpp:168-179 [PropertyLoader::load_properties]. The value of an option with the given parameters. *)
Definition option_value (params : list text) : text :=
  let param_argv := argv_of_args false params in
  if bool_decide (param_argv = []) then str "1" else parse_argv param_argv true.

(** TAF/taf/PropertyLoader.cpp:160-166 [PropertyLoader::load_properties]. The option of the list that the current argument is. *)
Definition current_option (sh : Sh) : option text :=
  head (filter (fun arg_option => cur_arg_matches (MINUS :: arg_option) sh = true) property_options).

(** TAF/taf/PropertyLoader.cpp:140-188 [PropertyLoader::load_properties]. [kept]: the arguments passed over. *)
Fixpoint property_scan (fuel : nat) (sh : Sh) (kept : list text) : CM config (list text) :=
  match fuel with
  | O => starve
  | S fuel =>
      if is_anything_left sh then
        if is_parameter_next sh then property_scan fuel (ignore_arg sh) (kept ++ [get_current sh])
        else if cur_arg_begins CORBA_ORB_ARGUMENT_SPECIFIER sh then property_scan fuel (ignore_arg sh) (kept ++ [get_current sh])
        else if cur_arg_matches TAF_PROPERTIES_FLAG sh then
          property_scan fuel (fst (take_params (S fuel) (consume_arg sh) [])) kept
        else match current_option sh with
             | Some arg_option =>
                 let '(sh, params) := take_params (S fuel) (consume_arg sh) [] in
                 _ ← set_both arg_option (option_value params);
                 property_scan fuel sh kept
             | None => property_scan fuel (ignore_arg sh) (kept ++ [get_current sh])
             end
      else mret kept
  end.

(** TAF/taf/PropertyLoader.cpp:132-191 [PropertyLoader::load_properties]. The arguments that stay. *)
Definition load_properties (argv : list text) : CM config (list text) :=
  args ← parse_args argv;
  property_scan (S (length args)) (shifter args) [].
End loader.

(** ** The ORB *)

(** TAF/taf/ORBManager.cpp:350-352 [ORB::init]. The parameters of an option for the service. *)
Definition svc_params (fuel : nat) (sh : Sh) : Sh * list text := pass_params fuel (ignore_arg sh) [].

(** TAF/taf/ORBManager.cpp:346-357 [ORB::init]. And 328-340, for the arguments of the extension. *)
Fixpoint split_args (fuel : nat) (sh : Sh) (orb_args svc_args : list text) : list text * list text :=
  match fuel with
  | O => (orb_args, svc_args)
  | S fuel =>
      if is_anything_left sh then
        if is_option_next sh && negb (cur_arg_begins CORBA_ORB_ARGUMENT_SPECIFIER sh) then
          let '(sh', params) := svc_params fuel sh in
          split_args fuel sh' orb_args (foldl (vec_add false) (vec_add false svc_args (get_current sh)) params)
        else split_args fuel (consume_arg sh) (vec_add true orb_args (get_current sh)) svc_args
      else (orb_args, svc_args)
  end.

(** TAF/taf/ORBManager.cpp:304-357 [ORB::init]. The arguments of the ORB and of the service. *)
Definition organise_args (ext_params : text) (argv : list text) : list text * list text :=
  let fuel := S (length argv) in
  let '(sh, leading) := pass_params fuel (shifter argv) [] in
  let orb_args := foldl (vec_add true) [] leading ++ (trim <$> argv_of_args true orb_defaults) in
  let svc_args := foldl (vec_add false) [] leading in
  let '(orb_args, svc_args) :=
    if bool_decide (ext_params = []) then (orb_args, svc_args)
    else let ext_argv := argv_of_string false (c_str ext_params) in
         split_args (S (length ext_argv)) (shifter ext_argv) orb_args svc_args in
  split_args fuel sh orb_args svc_args.

(** TAF/taf/ORBManager.cpp:359-364 [ORB::init]. The properties that are set. *)
Definition publish_args (orb_args svc_args : list text) : PM unit :=
  _ ← set_property TAF_SERVICE_ARGS (parse_argv svc_args true);
  _ ← set_property TAF_ORBINITARGS (parse_argv orb_args true);
  mret tt.

(** TAF/taf/ORBManager.cpp:508-524 [ORBManager::init]. From the arguments of the process to the vectors of the ORB and the service. *)
Definition server_args (load_file_profile : text -> CM config Z) (pfuel : nat) (ext_params : text) (argv : list text)
  : CM config (list text * list text) :=
  kept ← PropertyLoader load_file_profile (S (length argv)) argv true;
  args ← load_properties pfuel kept;
  mret (organise_args ext_params args).

(** *** A server in another process *)

Section hosting.
Context `{AceMinMax} (atoi : text -> Z).

(** TAF/taf/TAFServer_impl.cpp:548-556 [_init_TAFServer]. In seconds. *)
Definition loader_timeout (timeout : Z) (load_timeout : option text) : Z :=
  match load_timeout with
  | Some t =>
      match trim t with
      | c :: tm => if isdigit c then ace_range 30 300 (atoi (c :: tm)) else timeout
      | [] => timeout
      end
  | None => timeout
  end.

Definition LOAD_TIMEOUT_FLAG : text := str "-TAFServerLoadTimeout".

(** TAF/taf/TAFServer_impl.cpp:562-575 [_init_TAFServer]. [first]: no argument was looked at yet. *)
Fixpoint init_scan (fuel : nat) (sh : Sh) (first : bool) (initArgs : list text) (timeout : Z) : list text * Z :=
  match fuel with
  | O => (initArgs, timeout)
  | S fuel =>
      if is_anything_left sh then
        if negb first || is_option_next sh then
          if is_option_next sh && cur_arg_matches LOAD_TIMEOUT_FLAG sh then
            let sh := consume_arg sh in
            if is_parameter_next sh then init_scan fuel (consume_arg sh) false initArgs (loader_timeout timeout (Some (get_current sh)))
            else init_scan fuel sh false initArgs timeout
          else init_scan fuel (ignore_arg sh) false (initArgs ++ [get_current sh]) timeout
        else init_scan fuel (ignore_arg sh) false initArgs timeout
      else (initArgs, timeout)
  end.

(** TAF/taf/TAFServer_impl.cpp:546-575 [_init_TAFServer]. What is added to the loader's arguments behind its name, and the timeout; [timeout]
    is the one of the last call. *)
Definition init_TAFServer_args (argv : list text) (timeout : Z) : list text * Z :=
  init_scan (S (length argv)) (shifter argv) true [] timeout.
End hosting.
End startup.

(** ** Arguments and the options they belong to *)

(** Each argument with the option it is or follows; none for the parameters in front. *)
Fixpoint governed (cur : option text) (argv : list text) : list (option text * text) :=
  match argv with
  | [] => []
  | arg :: argv => if is_option arg then (Some arg, arg) :: governed (Some arg) argv else (cur, arg) :: governed cur argv
  end.

(** The arguments whose option is of a kind. *)
Definition of_kind (kind : option text -> bool) (gs : list (option text * text)) : list text :=
  snd <$> filter (fun x => kind (fst x) = true) gs.

(** The parameters up to the next option; [behind] is what follows. *)
Fixpoint params_of (argv : list text) : list text :=
  match argv with
  | arg :: argv => if is_option arg then [] else arg :: params_of argv
  | [] => []
  end.

Lemma params_behind argv : params_of argv ++ behind argv = argv.
Proof. induction argv as [|arg argv IH]; [done|]. cbn. destruct (is_option arg); [done|]. cbn. by rewrite IH. Qed.

(** After the parameters the option in force does not matter. *)
Lemma governed_behind cur cur' argv : governed cur argv = ((fun arg => (cur, arg)) <$> params_of argv) ++ governed cur' (behind argv).
Proof.
  induction argv as [|arg argv IH]; [done|]. cbn [governed params_of behind]. destruct (is_option arg) eqn:E.
  - cbn [fmap list_fmap app governed]. by rewrite E.
  - rewrite IH. done.
Qed.

Lemma governed_snd cur argv : snd <$> governed cur argv = argv.
Proof. revert cur. induction argv as [|arg argv IH]; intros cur; [done|]. cbn. destruct (is_option arg); cbn; by rewrite IH. Qed.

Lemma of_kind_cons kind x gs : of_kind kind (x :: gs) = if kind (fst x) then snd x :: of_kind kind gs else of_kind kind gs.
Proof. unfold of_kind. rewrite filter_cons. by destruct (kind (fst x)). Qed.

Lemma of_kind_app kind gs1 gs2 : of_kind kind (gs1 ++ gs2) = of_kind kind gs1 ++ of_kind kind gs2.
Proof. unfold of_kind. by rewrite filter_app, fmap_app. Qed.

Lemma of_kind_params kind cur params :
  of_kind kind ((fun arg => (cur, arg)) <$> params) = if kind cur then params else [].
Proof.
  induction params as [|arg params IH]; [by destruct (kind cur)|]. cbn [fmap list_fmap]. rewrite of_kind_cons, IH. cbn.
  by destruct (kind cur).
Qed.

(** Kinds that exclude each other divide the arguments. *)
Lemma of_kind_divides kind gs : of_kind kind gs ++ of_kind (fun o => negb (kind o)) gs ≡ₚ snd <$> gs.
Proof.
  induction gs as [|x gs IH]; [done|]. rewrite !of_kind_cons. cbn. destruct (kind (fst x)); cbn; [by rewrite IH|].
  by rewrite <- IH, Permutation_middle.
Qed.

(** What is kept of a command line is again a command line: its arguments belong to the options
    they belonged to. *)
Lemma governed_of_kind kind cur argv : kind cur = true ->
  governed cur (of_kind kind (governed cur argv)) = filter (fun x => kind (fst x) = true) (governed cur argv).
Proof.
  assert (forall argv cur c, kind c = true ->
    (kind cur = true -> governed cur (of_kind kind (governed cur argv)) = filter (fun x => kind (fst x) = true) (governed cur argv))
    /\ (kind cur = false -> governed c (of_kind kind (governed cur argv)) = filter (fun x => kind (fst x) = true) (governed cur argv))) as Hg;
    [|intros Hk; exact (proj1 (Hg argv cur cur Hk) Hk)].
  clear cur argv. intros argv. induction argv as [|arg argv IH]; intros cur c Hc; [done|]. cbn [governed].
  destruct (is_option arg) eqn:E; rewrite of_kind_cons, filter_cons; cbn [fst snd].
  - destruct (kind (Some arg)) eqn:Ek.
    + rewrite decide_True by done. destruct (IH (Some arg) c Hc) as [IH1 _]. cbn [governed]. rewrite E, IH1 by done. done.
    + rewrite decide_False by done. split; intros Hk.
      * destruct (IH (Some arg) cur Hk) as [_ IH2]. by apply IH2.
      * destruct (IH (Some arg) c Hc) as [_ IH2]. by apply IH2.
  - destruct (kind cur) eqn:Ek.
    + rewrite decide_True by done. split; [|done]. intros _. destruct (IH cur c Hc) as [IH1 _]. cbn [governed]. rewrite E, IH1 by done. done.
    + rewrite decide_False by done. split; [done|]. intros _. destruct (IH cur c Hc) as [_ IH2]. by apply IH2.
Qed.

Lemma of_kind_filter kind kind' gs :
  of_kind kind (filter (fun x => kind' (fst x) = true) gs) = of_kind (fun o => kind' o && kind o) gs.
Proof.
  induction gs as [|x gs IH]; [done|]. rewrite filter_cons. destruct (kind' (fst x)) eqn:E; case_decide; try done;
    rewrite !of_kind_cons, ?E; cbn [andb]; by rewrite IH.
Qed.

Lemma of_kind_ext kind kind' gs : Forall (fun x => kind (fst x) = kind' (fst x)) gs -> of_kind kind gs = of_kind kind' gs.
Proof. induction 1 as [|x gs E _ IH]; [done|]. by rewrite !of_kind_cons, E, IH. Qed.

Lemma of_kind_eq kind kind' gs : (forall o, kind o = kind' o) -> of_kind kind gs = of_kind kind' gs.
Proof. intros E. apply of_kind_ext, Forall_forall. intros x _. apply E. Qed.

(** The parameters in front of all options. *)
Definition in_front (o : option text) : bool := match o with Some _ => false | None => true end.

Lemma governed_some o argv : Forall (fun x => in_front (fst x) = false) (governed (Some o) argv).
Proof. revert o. induction argv as [|arg argv IH]; intros o; cbn; [constructor|]. by destruct (is_option arg); constructor. Qed.

Lemma behind_cases argv : behind argv = [] \/ exists arg l, behind argv = arg :: l /\ is_option arg = true.
Proof. induction argv as [|arg argv IH]; [by left|]. cbn. destruct (is_option arg) eqn:E; [right; by eexists _, _|done]. Qed.

Lemma behind_governed cur argv : Forall (fun x => in_front (fst x) = false) (governed cur (behind argv)).
Proof.
  destruct (behind_cases argv) as [->|(arg & l & -> & E)]; cbn; [constructor|]. rewrite E. constructor; [done|]. apply governed_some.
Qed.

Lemma params_of_front argv : params_of argv = of_kind in_front (governed None argv).
Proof.
  rewrite (governed_behind None None), of_kind_app, of_kind_params. cbn [in_front].
  rewrite (of_kind_ext _ (fun _ => false)) by apply behind_governed.
  assert (forall gs, of_kind (fun _ => false) gs = []) as -> by (intros gs; induction gs as [|x gs IH]; [done|]; by rewrite of_kind_cons).
  by rewrite app_nil_r.
Qed.

Lemma of_kind_behind kind argv : of_kind kind (governed None (behind argv)) = of_kind (fun o => negb (in_front o) && kind o) (governed None argv).
Proof.
  rewrite (governed_behind None None argv), of_kind_app, of_kind_params. cbn.
  apply of_kind_ext. eapply Forall_impl; [apply behind_governed|]. intros x E. cbn. by rewrite E.
Qed.

(** ** What becomes of a command line *)

Section spec.
Context {Sh : Type} `{ArgShifter Sh, ArgPrefix Sh, Platform} (left : Sh -> list text)
  `{!ArgShifterLaws Sh left, !ArgPrefixLaws Sh left}.

Definition quoted (subst : bool) (args : list text) : list text := args ≫= argv_add subst.

Lemma foldl_vec_add subst args vec : foldl (vec_add subst) vec args = vec ++ quoted subst args.
Proof.
  revert vec. induction args as [|arg args IH]; intros vec; cbn; [by rewrite app_nil_r|]. by rewrite IH, app_assoc.
Qed.

Lemma pass_params_spec fuel sh passed : (length (left sh) < fuel)%nat ->
  left (fst (pass_params fuel sh passed)) = behind (left sh) /\ snd (pass_params fuel sh passed) = passed ++ params_of (left sh).
Proof.
  revert sh passed. induction fuel as [|fuel IH]; intros sh passed Hf; [lia|]. cbn [pass_params]. rewrite parameter_next.
  destruct (left sh) as [|arg l] eqn:El; cbn; [by rewrite El, app_nil_r|].
  destruct (is_option arg) eqn:Eo; cbn; [by rewrite El, app_nil_r|].
  destruct (current_left sh arg l El) as [-> _]. destruct (IH (ignore_arg sh) (passed ++ [arg])) as [E1 E2].
  { rewrite left_ignore, El. cbn in *. lia. }
  rewrite left_ignore, El in E1, E2. cbn in E1, E2. by rewrite E1, E2, <- app_assoc.
Qed.

Lemma take_params_spec fuel sh taken : (length (left sh) < fuel)%nat ->
  left (fst (take_params fuel sh taken)) = behind (left sh) /\ snd (take_params fuel sh taken) = taken ++ params_of (left sh).
Proof.
  revert sh taken. induction fuel as [|fuel IH]; intros sh taken Hf; [lia|]. cbn [take_params]. rewrite parameter_next.
  destruct (left sh) as [|arg l] eqn:El; cbn; [by rewrite El, app_nil_r|].
  destruct (is_option arg) eqn:Eo; cbn; [by rewrite El, app_nil_r|].
  destruct (current_left sh arg l El) as [-> _]. destruct (IH (consume_arg sh) (taken ++ [arg])) as [E1 E2].
  { rewrite left_consume, El. cbn in *. lia. }
  rewrite left_consume, El in E1, E2. cbn in E1, E2. by rewrite E1, E2, <- app_assoc.
Qed.

Lemma pass_all_spec fuel sh passed : (length (left sh) < fuel)%nat -> pass_all fuel sh passed = passed ++ left sh.
Proof.
  revert sh passed. induction fuel as [|fuel IH]; intros sh passed Hf; [lia|]. cbn [pass_all]. rewrite anything_left.
  destruct (left sh) as [|arg l] eqn:El; [by rewrite bool_decide_true, app_nil_r|]. rewrite bool_decide_false by done. cbn [negb].
  destruct (current_left sh arg l El) as [-> _]. rewrite IH; rewrite left_ignore, El; cbn in *; [|lia]. by rewrite <- app_assoc.
Qed.

(** The options of the ORB; parameters without an option go to it too. *)
Definition to_orb (o : option text) : bool := match o with Some o => begins CORBA_ORB_ARGUMENT_SPECIFIER o | None => true end.
Definition to_svc (o : option text) : bool := negb (to_orb o).

Lemma split_args_spec fuel sh orb svc cur : (length (left sh) < fuel)%nat -> to_orb cur = true ->
  split_args fuel sh orb svc
  = (orb ++ quoted true (of_kind to_orb (governed cur (left sh))), svc ++ quoted false (of_kind to_svc (governed cur (left sh)))).
Proof.
  revert sh orb svc cur. induction fuel as [|fuel IH]; intros sh orb svc cur Hf Hc; [lia|]. cbn [split_args].
  rewrite anything_left, option_next. destruct (left sh) as [|arg l] eqn:El.
  { rewrite bool_decide_true by done. cbn. by rewrite !app_nil_r. }
  rewrite bool_decide_false by done. destruct (current_left sh arg l El) as [Ec _]. cbn [negb governed length] in *.
  rewrite (prefix_left (left := left) sh arg l El), Ec.
  assert (forall c, to_orb c = true -> split_args fuel (consume_arg sh) (vec_add true orb arg) svc
    = (orb ++ quoted true (arg :: of_kind to_orb (governed c l)), svc ++ quoted false (of_kind to_svc (governed c l)))) as Horb.
  { intros c Hc'. rewrite (IH _ _ _ c); rewrite ?left_consume, ?El; cbn [tail]; [|lia|done]. unfold vec_add. by rewrite <- app_assoc. }
  destruct (is_option arg) eqn:Eo; cbn [andb].
  - destruct (begins CORBA_ORB_ARGUMENT_SPECIFIER arg) eqn:Eb; cbn [negb].
    + rewrite (Horb (Some arg)) by done. rewrite !of_kind_cons. cbn [fst snd to_orb to_svc]. unfold to_svc. cbn [to_orb]. by rewrite Eb.
    + unfold svc_params. destruct (pass_params_spec fuel (ignore_arg sh) []) as [E1 E2]; [rewrite left_ignore, El; cbn; lia|].
      rewrite left_ignore, El in E1, E2. cbn [tail] in E1, E2. destruct (pass_params fuel (ignore_arg sh) []) as [sh' params].
      cbn [fst snd] in *. subst params. rewrite (IH _ _ _ None); [|rewrite E1; pose proof (behind_length l); lia|done].
      rewrite E1, foldl_vec_add. rewrite (governed_behind (Some arg) None l).
      assert (to_orb (Some arg) = false) as Hto by exact Eb. assert (to_svc (Some arg) = true) as Hts by (unfold to_svc; by rewrite Hto).
      rewrite !of_kind_cons, !of_kind_app, !of_kind_params. cbn [fst snd]. rewrite Hto, Hts. cbn [app].
      unfold vec_add, quoted. cbn [mbind list_bind app]. rewrite bind_app, <- !app_assoc. done.
  - rewrite (Horb cur) by done. rewrite !of_kind_cons. cbn [fst snd]. unfold to_svc. by rewrite Hc.
Qed.

(** The two vectors of [ORB::init]. *)
Lemma organise_args_spec ext argv :
  let e := if bool_decide (ext = []) then [] else argv_of_string false (c_str ext) in
  organise_args (Sh := Sh) ext argv
  = (quoted true (params_of argv) ++ (trim <$> argv_of_args true orb_defaults)
       ++ quoted true (of_kind to_orb (governed None e)) ++ quoted true (of_kind to_orb (governed None (behind argv))),
     quoted false (params_of argv) ++ quoted false (of_kind to_svc (governed None e))
       ++ quoted false (of_kind to_svc (governed None (behind argv)))).
Proof.
  intros e. unfold organise_args. destruct (pass_params_spec (S (length argv)) (shifter argv) []) as [E1 E2]; [rewrite left_shifter; lia|].
  rewrite left_shifter in E1, E2. destruct (pass_params (S (length argv)) (shifter argv) []) as [sh leading]. cbn in E1, E2. subst leading.
  rewrite !foldl_vec_add. cbn [app].
  assert (forall o v, split_args (S (length argv)) sh o v
    = (o ++ quoted true (of_kind to_orb (governed None (behind argv))), v ++ quoted false (of_kind to_svc (governed None (behind argv))))) as Hs.
  { intros o v. rewrite (split_args_spec _ _ _ _ None); rewrite ?E1; [done| |done]. pose proof (behind_length argv). lia. }
  unfold e. case_bool_decide; rewrite ?(split_args_spec _ _ _ _ None), ?left_shifter by (rewrite ?left_shifter; done || lia);
    rewrite Hs, <- ?app_assoc; done.
Qed.

(** The property an option sets, and the arguments that are no properties. *)
Definition option_of (arg : text) : option text :=
  head (filter (fun arg_option => same_flag (Sh := Sh) (MINUS :: arg_option) arg = true) property_options).
Definition stays (o : option text) : bool :=
  match o with
  | Some o => begins (Sh := Sh) CORBA_ORB_ARGUMENT_SPECIFIER o
              || (negb (same_flag (Sh := Sh) TAF_PROPERTIES_FLAG o) && bool_decide (option_of o = None))
  | None => true
  end.

(** Arguments that set a property, and those of -TAFProperties, which set none here. *)
Definition sets (o : option text) : bool :=
  match o with
  | Some o => negb (begins (Sh := Sh) CORBA_ORB_ARGUMENT_SPECIFIER o) && negb (same_flag (Sh := Sh) TAF_PROPERTIES_FLAG o)
              && bool_decide (is_Some (option_of o))
  | None => false
  end.
Definition dropped (o : option text) : bool :=
  match o with
  | Some o => negb (begins (Sh := Sh) CORBA_ORB_ARGUMENT_SPECIFIER o) && same_flag (Sh := Sh) TAF_PROPERTIES_FLAG o
  | None => false
  end.

Lemma taken_fates o : stays o = negb (sets o || dropped o) /\ sets o && dropped o = false.
Proof.
  destruct o as [o|]; [|done]. cbn. destruct (begins _ o), (same_flag _ o); cbn; try done. split; [|by rewrite andb_false_r].
  rewrite orb_false_r. destruct (option_of o); by case_bool_decide; case_bool_decide as E; try done; destruct E.
Qed.

(** The properties a command line sets, in its order. *)
Fixpoint settings (argv : list text) : list (text * text) :=
  match argv with
  | [] => []
  | arg :: argv =>
      match is_option arg && sets (Some arg), option_of arg with
      | true, Some key => (key, option_value (params_of argv)) :: settings argv
      | _, _ => settings argv
      end
  end.

Fixpoint set_all (l : list (text * text)) : CM config unit :=
  match l with
  | [] => mret tt
  | (key, val) :: l => cbind (set_both key val) (fun _ => set_all l)
  end.

Lemma settings_behind argv : settings (behind argv) = settings argv.
Proof. induction argv as [|arg argv IH]; [done|]. cbn [behind settings]. destruct (is_option arg) eqn:E; [|done]. cbn [settings]. by rewrite E. Qed.

Lemma current_option_left sh arg l : left sh = arg :: l -> current_option sh = option_of arg.
Proof.
  intros El. unfold current_option, option_of. f_equal. apply list_filter_iff. intros opt.
  by rewrite (proj2 (current_left sh arg l El)).
Qed.

Lemma property_scan_spec fuel sh kept cur c s : (length (left sh) < fuel)%nat -> stays cur = true ->
  property_scan fuel sh kept c s
  = cbind (set_all (settings (left sh))) (fun _ => mret (kept ++ of_kind stays (governed cur (left sh)))) c s.
Proof.
  revert sh kept cur c s. induction fuel as [|fuel IH]; intros sh kept cur c s Hf Hc; [lia|]. cbn [property_scan].
  rewrite anything_left, parameter_next. destruct (left sh) as [|arg l] eqn:El.
  { rewrite bool_decide_true by done. cbn. by rewrite app_nil_r. }
  rewrite bool_decide_false by done. destruct (current_left sh arg l El) as [Ec Em]. cbn [negb governed length settings] in *.
  rewrite (prefix_left (left := left) sh arg l El), Em, (current_option_left sh arg l El), Ec.
  assert (forall o, stays o = true -> property_scan fuel (ignore_arg sh) (kept ++ [arg]) c s
    = cbind (set_all (settings l)) (fun _ => mret (kept ++ arg :: of_kind stays (governed o l))) c s) as Hpass.
  { intros o Ho. rewrite (IH _ _ o); rewrite ?left_ignore, ?El; cbn [tail]; [by rewrite <- app_assoc|lia|done]. }
  destruct (is_option arg) eqn:Eo; cbn [negb andb]; [|rewrite (Hpass cur) by done; by rewrite of_kind_cons; cbn [fst snd]; rewrite Hc].
  destruct (take_params_spec (S fuel) (consume_arg sh) []) as [E1 E2]; [rewrite left_consume, El; cbn; lia|].
  rewrite left_consume, El in E1, E2. cbn [tail app] in E1, E2.
  assert (forall c s, stays (Some arg) = false -> property_scan fuel (fst (take_params (S fuel) (consume_arg sh) [])) kept c s
    = cbind (set_all (settings l)) (fun _ => mret (kept ++ of_kind stays (governed (Some arg) l))) c s) as Htake.
  { intros c0 s0 Hs. rewrite (IH _ _ None); [|rewrite E1; pose proof (behind_length l); lia|done].
    rewrite E1, settings_behind. rewrite (governed_behind (Some arg) None l), of_kind_app, of_kind_params, Hs. done. }
  rewrite of_kind_cons. cbn [fst snd]. destruct (taken_fates (Some arg)) as [Hst _]. cbn [sets dropped] in Hst |- *.
  destruct (begins _ arg) eqn:Eb; cbn [negb andb orb] in *; [rewrite Hst; by apply Hpass|].
  destruct (same_flag TAF_PROPERTIES_FLAG arg) eqn:En; cbn [negb andb orb] in *; [rewrite Hst; by apply Htake|]. rewrite orb_false_r in Hst.
  destruct (option_of arg) as [key|] eqn:Ek.
  - rewrite bool_decide_true in * by done. rewrite Hst. destruct (take_params (S fuel) (consume_arg sh) []) as [sh' params] eqn:Et.
    cbn [fst snd] in *. subst params. cbn [set_all]. unfold mbind, CM_bind. rewrite cbind_assoc. apply cbind_ext; [done|]. intros _ c' s'. by apply Htake.
  - rewrite bool_decide_false in * by (by intros [? ?]). rewrite Hst. by apply Hpass.
Qed.

(** *** Profiles *)

Section profiles.
Context (load_file_profile : text -> CM config Z).

Definition names_profiles (o : option text) : bool := match o with Some o => same_flag (Sh := Sh) TAF_PROPERTIES_FLAG o | None => false end.

(** The profiles behind the switch, in their order. *)
Fixpoint named_profiles (on : bool) (argv : list text) : list text :=
  match argv with
  | [] => []
  | arg :: argv =>
      if is_option arg then named_profiles (same_flag (Sh := Sh) TAF_PROPERTIES_FLAG arg) argv
      else if on then arg :: named_profiles true argv else named_profiles false argv
  end.

(** Loading them one after another, whatever becomes of each. *)
Fixpoint try_each (profiles : list text) : CM config unit :=
  match profiles with
  | [] => mret tt
  | p :: profiles => cbind (ctry (fun _ => true) (load_file_profile p) (mret (-1))) (fun _ => try_each profiles)
  end.

Lemma try_each_app l1 l2 c s : try_each (l1 ++ l2) c s = cbind (try_each l1) (fun _ => try_each l2) c s.
Proof.
  revert c s. induction l1 as [|p l1 IH]; intros c s; [done|]. cbn [app try_each]. rewrite cbind_assoc.
  apply cbind_ext; [done|]. intros _ c' s'. apply IH.
Qed.

Lemma named_profiles_on argv : named_profiles true argv = params_of argv ++ named_profiles false (behind argv).
Proof.
  induction argv as [|arg argv IH]; [done|]. cbn [named_profiles params_of behind].
  destruct (is_option arg) eqn:E; cbn [app named_profiles]; [by rewrite E|]. by rewrite IH.
Qed.

Lemma profile_params_spec fuel sh : (length (left sh) < fuel)%nat ->
  exists sh', left sh' = behind (left sh)
  /\ forall c s, profile_params load_file_profile fuel sh c s = cbind (try_each (params_of (left sh))) (fun _ => mret sh') c s.
Proof.
  revert sh. induction fuel as [|fuel IH]; intros sh Hf; [lia|]. cbn [profile_params]. rewrite parameter_next.
  destruct (left sh) as [|arg l] eqn:El; cbn [params_of behind]; [by exists sh|].
  destruct (is_option arg) eqn:Eo; cbn [negb]; [by exists sh|].
  destruct (IH (consume_arg sh)) as (sh' & H1' & H2'); rewrite left_consume, El in *; cbn [tail length] in *; [lia|].
  exists sh'. split; [done|]. intros c s. destruct (current_left sh arg l El) as [-> _]. cbn [try_each]. unfold mbind, CM_bind.
  rewrite cbind_assoc. apply cbind_ext; [done|]. intros r c' s'. apply H2'.
Qed.

Lemma profile_scan_spec fuel sh kept cur c s : (length (left sh) < fuel)%nat -> names_profiles cur = false ->
  profile_scan load_file_profile fuel sh kept c s
  = cbind (try_each (named_profiles false (left sh)))
      (fun _ => mret (kept ++ of_kind (fun o => negb (names_profiles o)) (governed cur (left sh)))) c s.
Proof.
  revert sh kept cur c s. induction fuel as [|fuel IH]; intros sh kept cur c s Hf Hc; [lia|]. cbn [profile_scan].
  rewrite anything_left, option_next. destruct (left sh) as [|arg l] eqn:El.
  { rewrite bool_decide_true by done. cbn. by rewrite app_nil_r. }
  rewrite bool_decide_false by done. destruct (current_left sh arg l El) as [Ec Em]. cbn [negb governed length named_profiles] in *.
  rewrite Em, Ec.
  assert (forall o, names_profiles o = false -> profile_scan load_file_profile fuel (ignore_arg sh) (kept ++ [arg]) c s
    = cbind (try_each (named_profiles false l)) (fun _ => mret (kept ++ arg :: of_kind (fun o => negb (names_profiles o)) (governed o l))) c s) as Hpass.
  { intros o Ho. rewrite (IH _ _ o); rewrite ?left_ignore, ?El; cbn [tail]; [by rewrite <- app_assoc|lia|done]. }
  destruct (is_option arg) eqn:Eo; cbn [andb]; [|rewrite (Hpass cur) by done; by rewrite of_kind_cons; cbn [fst snd]; rewrite Hc].
  rewrite of_kind_cons. cbn [fst snd names_profiles]. destruct (same_flag TAF_PROPERTIES_FLAG arg) eqn:Ef; cbn [negb]; [|by apply Hpass].
  destruct (profile_params_spec (S fuel) (consume_arg sh)) as (sh' & H1' & H2'); rewrite left_consume, El in *; cbn [tail] in *; [lia|].
  rewrite named_profiles_on, (governed_behind (Some arg) None l), of_kind_app, of_kind_params. cbn [names_profiles]. rewrite Ef. cbn [negb app].
  unfold mbind, CM_bind. erewrite (cbind_ext _ _ _ _ c s (H2' c s) (fun _ _ _ => eq_refl)). rewrite cbind_assoc.
  rewrite (cbind_ext (try_each (params_of l ++ named_profiles false (behind l))) _ _ _ c s (try_each_app _ _ c s) (fun _ _ _ => eq_refl)).
  rewrite cbind_assoc. apply cbind_ext; [done|]. intros _ c' s'. cbn.
  rewrite (IH _ _ None); rewrite ?H1'; [done| |done]. pose proof (behind_length l). lia.
Qed.

(** The constructor tries the profiles behind the switch in their order and takes them out of the
    arguments with it; what the environment names is tried only when none of them could be loaded. *)
Lemma PropertyLoader_spec argv use_env c s :
  PropertyLoader load_file_profile (S (length argv)) argv use_env c s
  = cbind (try_each (named_profiles false argv)) (fun _ =>
      cbind load_count (fun n =>
        cbind (if if negb (n =? 0) then false else use_env then
                 match getenv TAF_PROPERTIES with
                 | Some properties => ctry (fun _ => true) (load_file_profile properties) (mret (-1))
                 | None => mret 0
                 end
               else mret 0) (fun _ => mret (of_kind (fun o => negb (names_profiles o)) (governed None argv))))) c s.
Proof.
  unfold PropertyLoader, mbind, CM_bind. case_bool_decide as E; [by subst|].
  assert (profile_scan load_file_profile (S (length argv)) (shifter argv) [] c s
    = cbind (try_each (named_profiles false argv)) (fun _ => mret (of_kind (fun o => negb (names_profiles o)) (governed None argv))) c s) as Hscan.
  { rewrite (profile_scan_spec _ _ _ None); rewrite ?left_shifter; [done|lia|done]. }
  erewrite (cbind_ext _ _ _ _ c s Hscan (fun _ _ _ => eq_refl)). rewrite cbind_assoc. done.
Qed.
End profiles.

(** Arguments for the ORB and for the service. *)
Definition for_orb (o : option text) : bool := negb (in_front o) && (stays o && to_orb o).
Definition for_svc (o : option text) : bool := stays o && to_svc o.

(** C33 (functional). The arguments [a] that load_properties is left with, up to the vectors of the ORB and the
    service: an option of the list sets its property, in the order of the command line, and is taken out with its
    parameters; -TAFProperties, which does not belong there, is dropped with its parameters and sets nothing;
    the parameters in front of all options go to both, an option that begins with -ORB goes to the ORB with its
    parameters, behind the defaults and what the extension has for it, and every other option goes to the service
    with its parameters; each argument has exactly one of these five fates. (When setting a property throws, so
    does the whole.) *)
Theorem command_line_divided ext a c s :
  let g := governed None a in
  let e := if bool_decide (ext = []) then [] else argv_of_string false (c_str ext) in
  cbind (property_scan (S (length a)) (shifter a) []) (fun kept => mret (organise_args (Sh := Sh) ext kept)) c s
  = cbind (set_all (settings a)) (fun _ => mret
      (quoted true (of_kind in_front g) ++ (trim <$> argv_of_args true orb_defaults)
         ++ quoted true (of_kind to_orb (governed None e)) ++ quoted true (of_kind for_orb g),
       quoted false (of_kind in_front g) ++ quoted false (of_kind to_svc (governed None e)) ++ quoted false (of_kind for_svc g))) c s
  /\ of_kind in_front g ++ of_kind for_orb g ++ of_kind for_svc g ++ of_kind sets g ++ of_kind dropped g ≡ₚ a.
Proof.
  intros g e. split.
  - subst g. pose proof (governed_of_kind stays None a eq_refl) as Hg. set (g := governed None a) in *.
    unfold cbind at 1. rewrite (property_scan_spec _ _ _ None) by (rewrite ?left_shifter; done || lia). rewrite left_shifter. fold g.
    unfold cbind. destruct (set_all (settings a) c s) as [[[c' s'] [[]|ex]]|]; [|done..]. cbn [mret CM_ret app].
    unfold mret, CM_ret. do 2 f_equal. rewrite organise_args_spec. fold e. rewrite params_of_front, !of_kind_behind, Hg, !of_kind_filter.
    rewrite (of_kind_eq (fun o => stays o && in_front o) in_front) by (intros [o|]; cbn; by rewrite ?andb_false_r).
    rewrite (of_kind_eq (fun o => stays o && (negb (in_front o) && to_orb o)) for_orb) by (intros [o|]; cbn; by rewrite ?andb_false_r).
    rewrite (of_kind_eq (fun o => stays o && (negb (in_front o) && to_svc o)) for_svc) by (by intros [o|]). done.
  - transitivity (snd <$> g); [|unfold g; by rewrite governed_snd]. clear. induction g as [|x g IH]; [done|].
    rewrite !of_kind_cons. unfold for_orb at 1, for_svc at 1, to_svc at 1.
    destruct (taken_fates (fst x)) as [-> Hex]. destruct (in_front (fst x)) eqn:Ef; cbn [negb andb].
    + destruct (fst x) eqn:Ex; [done|]. cbn. by rewrite IH.
    + destruct (sets (fst x)), (dropped (fst x)); try done; cbn [negb andb orb]; [..|destruct (to_orb (fst x)); cbn [negb]]; cbn; rewrite <- IH;
        rewrite ?Permutation_middle; done.
Qed.

(** The timeout of a hosted server is the old one or between half a minute and five minutes. *)
Lemma init_timeout_bounds `{AceMinMax, !AceMinMaxLaws} atoi fuel sh first initArgs timeout :
  (init_scan (Sh := Sh) atoi fuel sh first initArgs timeout).2 = timeout
  \/ 30 <= (init_scan (Sh := Sh) atoi fuel sh first initArgs timeout).2 <= 300.
Proof.
  assert (forall t v, loader_timeout atoi t v = t \/ 30 <= loader_timeout atoi t v <= 300) as Hl.
  { intros t [v|]; [|by left]. cbn. destruct (trim v) as [|x l]; [by left|]. destruct (isdigit x); [|by left]. right. rewrite ace_range_spec. lia. }
  revert sh first initArgs timeout. induction fuel as [|fuel IH]; intros sh first initArgs timeout; [by left|]. cbn [init_scan].
  destruct (is_anything_left sh); [|by left]. destruct (negb first || is_option_next sh); [|apply IH].
  destruct (is_option_next sh && _); [|apply IH]. destruct (is_parameter_next _); [|apply IH].
  destruct (IH (consume_arg (consume_arg sh)) false initArgs (loader_timeout atoi timeout (Some (get_current (consume_arg sh))))) as [->|]; [apply Hl|by right].
Qed.
End spec.

(** ** A command line *)

#[export] Instance list_prefix : ArgPrefix (list text) := {|
  begins := fun flag arg => caseless flag (take (length flag) arg);
  cur_arg_begins := fun flag sh => match sh with [] => false | arg :: _ => caseless flag (take (length flag) arg) end;
|}.

#[export] Instance list_prefix_laws : ArgPrefixLaws (list text) (fun sh => sh).
Proof. split. by intros sh arg l ->. Qed.

Definition server_argv : list text :=
  str <$> ["server"; "-ORBListenEndpoints"; "iiop://:1234"; "-tafdebug"; "3"; "-TAFProperties"; "x.conf"; "-f"; "a"; "-DAFDebug"]%string.

Definition first_of {C A} (r : option (C * store * result A)) : option A := match r with Some (_, _, Ok a) => Some a | _ => None end.

Lemma command_line_divided_witness :
  first_of (cbind (property_scan (H1 := words_platform) (S (length server_argv)) (shifter server_argv) [])
    (fun kept => mret (organise_args (H1 := words_platform) (Sh := list text) [] kept)) (Config ∅ 0) ∅)
  = Some (str <$> ["server"; "-ORBDottedDecimalAddresses"; "1"; "-ORBObjRefStyle"; "IOR"; "-ORBListenEndpoints"; "iiop://:1234"]%string,
          str <$> ["server"; "-f"; "a"]%string).
Proof.
  rewrite (proj1 (command_line_divided (H1 := words_platform) (fun sh => sh) [] server_argv (Config ∅ 0) ∅)). vm_compute. reflexivity.
Defined.
