(* ===== verification/OrbLife.v ===== *)
(** * The life of the ORB: TAF/taf/ORBManager, from its initialisation to its end

    The ORB's references are set while TAO initialises it, in post_init, which its initialiser calls; its threads run it until it is shut
    down, and closing it shuts it down and forgets the references.  What TAO's calls give is a parameter of each step: a reference, nil,
    or an exception. *)

From S2P Require Import Prelude.

(** What a call into TAO gives. *)
Inductive got := Reference (o : nat) | Nil | Raises.

(** How an operation of ours ends. *)
Inductive ending := Returns (r : Z) | INTERNAL | Passes.     (* Passes: an exception of TAO's goes on *)

(** TAF/taf/ORBManager.h:63-68 [ORB]. With the contexts that rootContext and baseContext keep, whether the POA manager is active, and the initialiser's flag
    that post_init has been called. *)
Record orb := Orb {
  orb_ : option nat;
  rootPOA_ : option nat;
  defaultPOA_ : option nat;
  IORTable_ : option nat;
  rootContext_ : option nat;
  baseContext_ : option nat;
  seed_threads : Z;
  activated : bool;
  post_init_ : bool;
}.

Definition no_orb : orb := Orb None None None None None None 0 false false.

(** TAO's answers during post_init, in order: whether there is a core, its ORB, the root POA, the POA for defaults (if the library is built with one), the
    registration of the default, the table of references; whether the threads start, the activation of the POA manager. *)
Record answers := Answers {
  has_core : bool;
  its_orb : got;
  its_root : got;
  unique_default : option got;
  registers : bool;
  its_table : got;
  threads_start : bool;
  activates : bool;
}.

Definition TAF_MIN_THREADS : Z := 2.

(** TAF/taf/ORBManager.cpp:103-169 [ORB::post_init]. *)
Definition post_init (a : answers) (s : orb) : orb * ending :=
  if negb (has_core a) then (s, INTERNAL)
  else match its_orb a with
  | Raises => (s, Passes)
  | Nil => (Orb None (rootPOA_ s) (defaultPOA_ s) (IORTable_ s) (rootContext_ s) (baseContext_ s) (seed_threads s) (activated s) (post_init_ s), INTERNAL)
  | Reference o =>
      let s := Orb (Some o) (rootPOA_ s) (defaultPOA_ s) (IORTable_ s) (rootContext_ s) (baseContext_ s) (seed_threads s) (activated s) (post_init_ s) in
      match its_root a with
      | Raises => (s, Passes)
      | Nil => (s, INTERNAL)
      | Reference root =>
          let with_default d := Orb (Some o) (Some root) (Some d) (IORTable_ s) (rootContext_ s) (baseContext_ s) (seed_threads s) (activated s) (post_init_ s) in
          match unique_default a with
          | Some Raises => (with_default root, Passes)
          | u =>
              let d := match u with Some (Reference d) => d | _ => root end in
              let s := with_default d in
              if negb (registers a) then (s, Passes)
              else match its_table a with
              | Raises => (s, Passes)
              | Nil => (s, INTERNAL)
              | Reference t =>
                  let s := Orb (Some o) (Some root) (Some d) (Some t) (rootContext_ s) (baseContext_ s)
                               (seed_threads s + (if threads_start a then TAF_MIN_THREADS else 0)) (activated s) (post_init_ s) in
                  if activates a then
                    (Orb (Some o) (Some root) (Some d) (Some t) (rootContext_ s) (baseContext_ s) (seed_threads s) true (post_init_ s), Returns 0)
                  else (s, Passes)
              end
          end
      end
  end.

(** TAF/taf/ORBManager.h:146-151 [ORBInitializer::post_init]. *)
Definition initializer_post_init (a : answers) (s : orb) : orb * ending :=
  if post_init_ s then (s, Returns 0)
  else post_init a (Orb (orb_ s) (rootPOA_ s) (defaultPOA_ s) (IORTable_ s) (rootContext_ s) (baseContext_ s) (seed_threads s) (activated s) true).

(** TAF/taf/ORBManager.cpp:366-387 [ORB::init]. [nil]: ORB_init gives nil although the initialiser returned. *)
Definition orb_init (nil : bool) (a : answers) (s : orb) : orb * Z :=
  match initializer_post_init a s with
  | (s, Returns _) => (s, if nil then -1 else 0)
  | (s, _) => (s, -1)
  end.

(** One round of an ORB's thread: the ORB has been shut down, run() returned, or it threw. *)
Inductive round := HasShutdown | RunReturns | RunThrows.

(** TAF/taf/ORBManager.cpp:187-204 [ORB::svc]. [available] and [rounds]: what each round finds; [None]: the fuel is used up. *)
Fixpoint orb_svc (fuel : nat) (available : nat -> bool) (rounds : nat -> round) (i : nat) : option Z :=
  match fuel with
  | O => None
  | S fuel =>
      if available i then
        match rounds i with RunThrows => orb_svc fuel available rounds (S i) | _ => Some 0 end
      else Some 0
  end.

(** What closing calls. *)
Inductive call := Shutdown | CloseTasks (flags : Z).

(** TAF/taf/ORBManager.cpp:389-417 [ORB::close]. [core]: the ORB has a core; [has_shutdown]: it has been shut down before. *)
Definition orb_close (core has_shutdown : bool) (flags : Z) (s : orb) : orb * list call :=
  if flags =? 0 then (s, [CloseTasks flags])
  else match orb_ s with
  | Some _ =>
      if negb core || has_shutdown then (s, [CloseTasks flags])
      else (Orb (orb_ s) None None None None None (seed_threads s) (activated s) (post_init_ s), [Shutdown; CloseTasks flags])
  | None => (s, [CloseTasks flags])
  end.

(** TAF/taf/ORBManager.cpp:419-433 [ORB::resolve_initial_references]. The seconds and microseconds to wait; [number]: the property TAFResolveTimeout. *)
Definition resolve_timeout (timeout : option (Z * Z)) (number : option Z) (default_secs : Z) : Z * Z :=
  match timeout with
  | Some t => t
  | None => (default default_secs number, 0)
  end.

(** ** What they do *)

(** The ORB is initialised exactly when every answer is a reference (the default POA may be nil: then it is the root), and then everything is set. *)
Definition good (a : answers) : bool :=
  has_core a && match its_orb a with Reference _ => true | _ => false end && match its_root a with Reference _ => true | _ => false end
  && match unique_default a with Some Raises => false | _ => true end && registers a && match its_table a with Reference _ => true | _ => false end && activates a.

Lemma post_init_good a s : (snd (post_init a s) = Returns 0 <-> good a = true) /\
  (good a = true -> let s' := fst (post_init a s) in
     is_Some (orb_ s') /\ is_Some (rootPOA_ s') /\ is_Some (defaultPOA_ s') /\ is_Some (IORTable_ s') /\ activated s' = true /\
     seed_threads s' = seed_threads s + if threads_start a then TAF_MIN_THREADS else 0).
Proof.
  destruct a as [hc io ir ud rg it th ac]. unfold post_init, good. cbn. destruct hc; [|by cbn]. destruct io; [|by cbn..]. destruct ir; [|by cbn..].
  destruct ud as [[]|]; destruct rg; cbn; try done; destruct it; cbn; try done; destruct ac; cbn; try done; (split; [done|]; intros _; repeat split; by eexists).
Qed.

Lemma post_init_kept a s : post_init_ (fst (post_init a s)) = post_init_ s.
Proof. unfold post_init. repeat case_match; done. Qed.

Lemma post_init_bad a s : good a = false -> activated (fst (post_init a s)) = activated s /\ forall r, snd (post_init a s) <> Returns r.
Proof.
  intros Hg. destruct a as [hc io ir ud rg it th ac]. unfold post_init, good in *. cbn in *. destruct hc; [|done]. destruct io; [|done..]. destruct ir; [|done..].
  destruct ud as [[]|]; destruct rg; cbn in *; try done; destruct it; cbn in *; try done; destruct ac; done.
Qed.

(** An initialisation that fails says so, but the flag is set all the same: the next one says that it has succeeded without doing anything. *)
Lemma second_init_empty a a' s : post_init_ s = false -> activated s = false -> good a = false ->
  let '(s1, r1) := orb_init false a s in r1 = -1 /\ activated s1 = false /\ orb_init false a' s1 = (s1, 0).
Proof.
  intros Ef Ea Hg. unfold orb_init, initializer_post_init. rewrite Ef. set (s0 := Orb _ _ _ _ _ _ _ _ true).
  destruct (post_init_bad a s0 Hg) as [Ha Hr]. pose proof (post_init_kept a s0) as Hk. destruct (post_init a s0) as [s1 e]. cbn in *.
  destruct e as [r| |]; [by destruct (Hr r)|..]; rewrite Hk; by rewrite Ha.
Qed.

(** A thread of the ORB ends when the ORB is shut down or its threads are no longer wanted, however often run() throws before. *)
Lemma orb_svc_ends available rounds n : available n = false \/ rounds n <> RunThrows -> forall i, (i <= n)%nat -> orb_svc (S (n - i)) available rounds i = Some 0.
Proof.
  intros Hn i Hi. remember (n - i)%nat as k eqn:Ek. revert i Hi Ek. induction k as [|k IH]; intros i Hi Ek; cbn [orb_svc].
  - replace i with n by lia. destruct (available n); [|done]. destruct Hn as [Hn|Hn]; [done|]. by destruct (rounds n).
  - destruct (available i); [|done]. destruct (rounds i); [done|done|]. apply IH; lia.
Qed.

(** Closing forgets every reference, unless the ORB has been shut down by someone else: then those of the POAs, the table and the naming contexts stay. *)
Lemma orb_close_spec o core has_shutdown flags s : orb_ s = Some o -> flags <> 0 ->
  let '(s', calls) := orb_close core has_shutdown flags s in
  if core && negb has_shutdown then (rootPOA_ s' = None /\ defaultPOA_ s' = None /\ IORTable_ s' = None /\ rootContext_ s' = None /\ baseContext_ s' = None) /\ calls = [Shutdown; CloseTasks flags]
  else s' = s /\ calls = [CloseTasks flags].
Proof. intros Eo Hf%Z.eqb_neq. unfold orb_close. rewrite Hf, Eo. by destruct core, has_shutdown. Qed.

(** ** The policies of a POA *)

(** The values that TAO makes a policy from. *)
Inductive policy_value :=
  | ThreadPolicy (v : Z) | LifespanPolicy (v : Z) | IdUniquenessPolicy (v : Z) | IdAssignmentPolicy (v : Z)
  | ServantRetentionPolicy (v : Z) | RequestProcessingPolicy (v : Z) | ImplicitActivationPolicy (v : Z).

(** TAF/taf/POAPolicyList.h:29-54 [POAPolicyList]. *)
Record policy_list := PolicyList { poa_ : nat; policies : list nat }.

(** TAF/taf/POAPolicyList.cpp:29-35 [POAPolicyList::POAPolicyList]. *)
Definition policy_list_construct (poa : option nat) : result policy_list :=
  match poa with Some p => Ok (PolicyList p []) | None => Throw IllegalArgumentException end.

(** TAF/taf/POAPolicyList.cpp:53-56 [POAPolicyList::append]. *)
Definition policy_append (p : nat) (l : policy_list) : policy_list := PolicyList (poa_ l) (policies l ++ [p]).

(** TAF/taf/POAPolicyList.cpp:58-98 [POAPolicyList::operator +=]. [create]: the policy that the POA makes from a value, [None] when it throws. *)
Definition policy_add (create : nat -> policy_value -> option nat) (v : policy_value) (l : policy_list) : option policy_list :=
  match create (poa_ l) v with Some p => Some (policy_append p l) | None => None end.

(** TAF/taf/POAPolicyList.cpp:44-51 [POAPolicyList::createPOA]. [manager]: of the POA, if there is one; [create_POA]: TAO's, which may throw. *)
Definition createPOA {R} (manager : nat -> option nat) (create_POA : nat -> nat -> list nat -> R) (l : policy_list) : result R :=
  match manager (poa_ l) with Some m => Ok (create_POA (poa_ l) m (policies l)) | None => Throw IllegalStateException end.

(** TAF/taf/POAPolicyList.cpp:37-42 [POAPolicyList::destructor]. The policies that are destroyed, in order. *)
Definition policy_list_destroy (l : policy_list) : list nat := (fun i => default 0%nat (policies l !! i)) <$> seq 0 (length (policies l)).

(** A caller that adds values one after the other and goes on when one throws. *)
Definition policy_add_all (create : nat -> policy_value -> option nat) (l : policy_list) (vs : list policy_value) : policy_list :=
  foldl (fun l v => default l (policy_add create v l)) l vs.

(** The POA is made with the policies of the values that gave one, in their order, and each of these is destroyed once when the list goes. *)
Lemma policies_created_destroyed {R} create manager (create_POA : nat -> nat -> list nat -> R) m p vs l : policy_list_construct (Some p) = Ok l -> manager p = Some m ->
  let l' := policy_add_all create l vs in
  createPOA manager create_POA l' = Ok (create_POA p m (omap (create p) vs)) /\ policy_list_destroy l' = omap (create p) vs.
Proof.
  intros [= <-] Hm. cbn zeta. assert (forall ps, policy_add_all create (PolicyList p ps) vs = PolicyList p (ps ++ omap (create p) vs)) as Hall.
  { unfold policy_add_all. induction vs as [|v vs IH]; intros ps; cbn; [by rewrite app_nil_r|]. unfold policy_add. cbn [poa_].
    destruct (create p v) as [q|]; cbn [default policy_append poa_ policies from_option]; unfold id, policy_append; cbn; rewrite IH; [by rewrite <- app_assoc|done]. }
  rewrite Hall. cbn [app]. unfold createPOA, policy_list_destroy. cbn [poa_ policies]. rewrite Hm. split; [done|].
  apply list_eq. intros i. rewrite list_lookup_fmap. destruct (decide (i < length (omap (create p) vs))%nat) as [Hi|Hi].
  - rewrite lookup_seq_lt by done. cbn. by destruct (lookup_lt_is_Some_2 _ _ Hi) as [x ->].
  - rewrite lookup_seq_ge by lia. cbn. by rewrite lookup_ge_None_2 by lia.
Qed.
