(* ===== verification/ServerLife.v ===== *)
(** * The life of a server: TAFServer of TAF/taf/TAFServer_impl, and the names of the server and its ORB

    A TAFServer initialises the ORB manager and the service that is its object, and takes both down when it is closed.  The names are read from
    properties, with a default that has the number of the process. *)

From S2P Require Import Prelude CString Text Properties.
From Stdlib Require Import Ascii.

Definition TAF_SERVERNAME : text := str "TAFServerName".
Definition TAF_ORBNAME : text := str "TAFOrbName".
Definition TAF_SERVICE_ARGS : text := str "TAFServiceArgs".

Section names.
Context `{Platform}.

(** TAF/taf/ORBManager.cpp:51-62 [tafORBName]. *)
Definition orb_name (fuel : nat) : PM text :=
  name ← get_property_default fuel TAF_ORBNAME (str "TAFOrb:%P") true;
  _ ← set_property TAF_ORBNAME name;
  mret name.

(** TAF/taf/TAFServer_impl.cpp:65-79 [tafServerName]. [oid]: the server's identifier, a constant of its interface. *)
Definition server_name (fuel : nat) (oid : text) : PM text :=
  let def_name := oid ++ str ":%P" in
  ptry NotFoundException
    (name ← get_property_default fuel TAF_SERVERNAME def_name true; mret (trim_string name QUOTE))
    (name ← format_args (fun prop => get_property fuel prop true) fuel def_name true true;
     _ ← set_property TAF_SERVERNAME name;
     mret name).

(** Reading with a default throws nothing and changes nothing but for what the environment has. *)
Lemma default_holds fuel ident default_val b : holds (fun _ => False) (get_property_default fuel ident default_val b).
Proof.
  unfold get_property_default. apply holds_bind.
  - eapply holds_try; [apply get_property_holds|apply holds_ret|]. intros e He Hc. by rewrite (lookup_exn_caught ident e He) in Hc.
  - intros v. case_bool_decide; [apply holds_ret|]. apply format_args_holds. intros n s s' r Hr. apply get_property_holds in Hr as [G T].
    split; [done|]. intros e He. eapply lookup_exn_caught, T, He.
Qed.

(** The name of the ORB is a property once it is known. *)
Lemma orb_name_published fuel s s' name : orb_name fuel s = Some (s', Ok name) -> trim name <> [] -> s' !! TAF_ORBNAME = Some (trim name).
Proof.
  unfold orb_name, mbind, PM_bind. destruct (get_property_default _ _ _ _ s) as [[s1 [n|e]]|]; [|done..]. unfold set_property.
  change (trim TAF_ORBNAME) with TAF_ORBNAME. rewrite bool_decide_false by done. unfold load_property.
  destruct (bool_decide (trim n <> []) || _) eqn:E; intros [= <- <-] Hne; [apply lookup_insert_eq|].
  apply orb_false_iff in E as [E _]. by apply bool_decide_eq_false in E.
Qed.

(** The name of the server is not: what would set it waits for an exception that reading with a default never throws. *)
Lemma server_name_unpublished fuel oid s s' r : server_name fuel oid s = Some (s', r) -> (exists name, r = Ok name) /\
  (s !! TAF_SERVERNAME = None -> getenv TAF_SERVERNAME = None -> s' !! TAF_SERVERNAME = None).
Proof.
  unfold server_name, ptry. assert (holds (fun _ => False) (name ← get_property_default fuel TAF_SERVERNAME (oid ++ str ":%P") true; mret (trim_string name QUOTE))) as Hh.
  { apply holds_bind; [apply default_holds|]. intros a. apply holds_ret. }
  match type of Hh with holds _ ?m => destruct (m s) as [[s1 [n|e]]|] eqn:E end; [| |done]; apply Hh in E as [[_ Hg] He]; [|by destruct (He e)].
  intros [= <- <-]. split; [by exists n|]. intros Hs Henv. destruct (s1 !! TAF_SERVERNAME) as [v|] eqn:Ev; [|done].
  apply Hg in Ev as [Ev|(env & Ee & _)]; congruence.
Qed.
End names.

(** ** TAFServer *)

(** A call that returns or throws. *)
Inductive did := Gave (r : Z) | Threw.

(** What is done, in order. *)
Inductive server_call := AddService | InitManager | InitService (args : text) | SendShutdown | RemoveService | CloseManager (flags : Z).

Section server.
(** What the calls give: the service is added to ACE's, the manager is initialised, the arguments are read ([None]: not there), the service is initialised. *)
Context (add manager : did) (args : option text) (service : did).

(** TAF/taf/TAFServer_impl.cpp:365-380 [TAFServer::init]. *)
Definition server_init : list server_call * Z :=
  match add with
  | Threw => ([AddService], -1)
  | Gave _ =>
      match manager with
      | Gave 0 =>
          match args with
          | Some a => ([AddService; InitManager; InitService a], match service with Gave 0 => 0 | _ => -1 end)
          | None => ([AddService; InitManager], -1)
          end
      | _ => ([AddService; InitManager], -1)
      end
  end.

(** TAF/taf/TAFServer_impl.cpp:347-352 [TAFServer::TAFServer]. *)
Definition server_construct : result unit := if snd server_init =? 0 then Ok tt else Throw InitializationException.

(** TAF/taf/TAFServer_impl.cpp:398-414 [TAFServer::close]. A service that cannot be removed is only reported. *)
Definition server_close (flags : Z) : list server_call :=
  (if flags =? 0 then [] else [SendShutdown; RemoveService]) ++ [CloseManager flags].

(** A server is initialised exactly when its manager and its service are, in this order, the service with the arguments that are a property then. *)
Lemma server_life_init a : args = Some a -> (snd server_init = 0 <-> (exists r, add = Gave r) /\ manager = Gave 0 /\ service = Gave 0) /\
  (snd server_init = 0 -> fst server_init = [AddService; InitManager; InitService a]).
Proof.
  intros Ea. unfold server_init. rewrite Ea. destruct add as [r|]; cbn; [|split; [split; [done|by intros [[? [=]] _]]|done]].
  destruct manager as [[]|]; cbn; try (split; [split; [done|by intros (_ & [=] & _)]|done]).
  destruct service as [[]|]; cbn; try (split; [split; [done|by intros (_ & _ & [=])]|done]). split; [split; [intros _; split; [by exists r|done]|done]|done].
Qed.

(** The server is told to shut down before its service is removed, and the manager is closed last. *)
Lemma server_close_order flags : flags <> 0 -> server_close flags = [SendShutdown; RemoveService; CloseManager flags].
Proof. intros Hf%Z.eqb_neq. unfold server_close. by rewrite Hf. Qed.
End server.
