(* ===== verification/Tty.v ===== *)
(** * Streams of a terminal: TTY_Asynch/TTY_Stream

    A stream is a circular buffer of [size_] characters, one of which stays unused, with the index
    [head_] where characters are put and [tail_] where they are got.  Writers and readers fill and
    empty it in pieces, and asynchronous operations on the device move characters between it and
    the terminal.  The specification is the list of characters between tail and head. *)

From S2P Require Import Prelude CString Text.
From Stdlib Require Import Ascii.

Abbreviation text := (list ascii).

(** ** The buffer *)

(** TTY_Asynch/TTY_Stream.h:40-112 [TTY_Stream]. [sema_free]: no asynchronous operation is under way. *)
Record stream := Stream {
  buffer_ : text;
  size_ : nat;
  head_ : nat;
  tail_ : nat;
  sema_free : bool;
  active_ : bool;
}.

Definition with_head (h : nat) (s : stream) : stream := Stream (buffer_ s) (size_ s) h (tail_ s) (sema_free s) (active_ s).
Definition with_tail (t : nat) (s : stream) : stream := Stream (buffer_ s) (size_ s) (head_ s) t (sema_free s) (active_ s).
Definition with_buffer (b : text) (s : stream) : stream := Stream b (size_ s) (head_ s) (tail_ s) (sema_free s) (active_ s).
Definition with_sema (f : bool) (s : stream) : stream := Stream (buffer_ s) (size_ s) (head_ s) (tail_ s) f (active_ s).
Definition with_active (a : bool) (s : stream) : stream := Stream (buffer_ s) (size_ s) (head_ s) (tail_ s) (sema_free s) a.

(** TTY_Asynch/TTY_Stream.cpp:35-44 [TTY_Stream::TTY_Stream]. The characters of a new buffer are the filler's. *)
Definition new_stream (filler : ascii) (size : nat) : stream := Stream (replicate (size + 1) filler) (size + 1) 0 0 true true.

(** TTY_Asynch/TTY_Stream.cpp:50-54 [TTY_Stream::is_full]. *)
Definition is_full (s : stream) : bool := (((head_ s + size_ s + 1) mod size_ s) =? tail_ s)%nat.
(** TTY_Asynch/TTY_Stream.cpp:56-60 [TTY_Stream::is_empty]. *)
Definition is_empty (s : stream) : bool := (head_ s =? tail_ s)%nat.
(** TTY_Asynch/TTY_Stream.cpp:62-66 [TTY_Stream::size]. *)
Definition capacity (s : stream) : nat := (size_ s - 1)%nat.
(** TTY_Asynch/TTY_Stream.cpp:68-72 [TTY_Stream::length]. *)
Definition length_ (s : stream) : nat := if is_empty s then 0%nat else ((size_ s + head_ s - tail_ s) mod size_ s)%nat.

(** TTY_Asynch/TTY_Stream.cpp:80-92 [TTY_Stream::put_bump]. *)
Fixpoint put_bump (len : nat) (s : stream) : stream * nat :=
  match len with
  | O => (s, 0%nat)
  | S len =>
      if is_full s then (s, 0%nat)
      else let '(s, n) := put_bump len (with_head ((head_ s + 1) mod size_ s) s) in (s, S n)
  end.

(** TTY_Asynch/TTY_Stream.cpp:94-106 [TTY_Stream::get_bump]. *)
Fixpoint get_bump (len : nat) (s : stream) : stream * nat :=
  match len with
  | O => (s, 0%nat)
  | S len =>
      if is_empty s then (s, 0%nat)
      else let '(s, n) := get_bump len (with_tail ((tail_ s + 1) mod size_ s) s) in (s, S n)
  end.

(** TTY_Asynch/TTY_Stream.cpp:111-120 [TTY_Stream::find]. [tail]: the copy that moves forward. *)
Fixpoint find_loop (fuel : nat) (c : ascii) (s : stream) (off : Z) (tail : nat) (pos : Z) : Z :=
  match fuel with
  | O => -1
  | S fuel =>
      if (tail =? head_ s)%nat then -1
      else if (off <=? 0) && bool_decide (nth tail (buffer_ s) NUL = c) then pos
      else find_loop fuel c s (if 0 <? off then off - 1 else off) ((tail + 1) mod size_ s)%nat (pos + 1)
  end.

(** TTY_Asynch/TTY_Stream.cpp:108-123 [TTY_Stream::find]. *)
Definition find (c : ascii) (off : Z) (s : stream) : Z := find_loop (S (size_ s)) c s off (tail_ s) 0.

(** TTY_Asynch/TTY_Stream.cpp:133-149 [TTY_Stream::put]. The head of [s] is the loop's [head]; each round takes its length off [iov_len]
    twice.  [None]: the loop goes on. *)
Fixpoint put_loop (fuel : nat) (iov : text) (s : stream) (iov_len put_len : Z) : option (stream * Z) :=
  match fuel with
  | O => None
  | S fuel =>
      if iov_len <=? 0 then Some (s, put_len)
      else
        let blen := Z.of_nat (size_ s) - Z.of_nat (head_ s) in
        let io_len := to_int (Z.of_nat (tail_ s) - Z.of_nat (head_ s) - 1) in
        if io_len =? 0 then Some (s, put_len)
        else
          let io_len := if 0 <? io_len then io_len else io_len + Z.of_nat (size_ s) in
          if 0 <? io_len then
            let io_len := Z.min (Z.min iov_len io_len) blen in
            let data := take (Z.to_nat io_len) (drop (Z.to_nat put_len) iov) in
            put_loop fuel iov
              (with_head ((head_ s + Z.to_nat io_len) mod size_ s)%nat (with_buffer (list_inserts (head_ s) data (buffer_ s)) s))
              (iov_len - io_len - io_len) (put_len + io_len)
          else put_loop fuel iov s (iov_len - io_len) put_len
  end.

(** TTY_Asynch/TTY_Stream.cpp:125-153 [TTY_Stream::put]. *)
Definition put (fuel : nat) (iov : text) (s : stream) : option (stream * Z) :=
  (fun '(s', n) => (with_buffer (buffer_ s') s, n)) <$> put_loop fuel iov s (Z.of_nat (length iov)) 0.

(** TTY_Asynch/TTY_Stream.cpp:163-180 [TTY_Stream::get]. The tail of [s] is the loop's [tail]. *)
Fixpoint get_loop (fuel : nat) (s : stream) (iov_len : Z) (got : text) : option text :=
  match fuel with
  | O => None
  | S fuel =>
      if iov_len <=? 0 then Some got
      else
        let blen := Z.of_nat (size_ s) - Z.of_nat (tail_ s) in
        let io_len := to_int (Z.of_nat (head_ s) - Z.of_nat (tail_ s)) in
        if io_len =? 0 then Some got
        else
          let io_len := if 0 <? io_len then io_len else io_len + Z.of_nat (size_ s) in
          if 0 <? io_len then
            let io_len := Z.min (Z.min iov_len io_len) blen in
            get_loop fuel (with_tail ((tail_ s + Z.to_nat io_len) mod size_ s)%nat s) (iov_len - io_len - io_len)
              (got ++ take (Z.to_nat io_len) (drop (tail_ s) (buffer_ s)))
          else get_loop fuel s (iov_len - io_len) got
  end.

(** TTY_Asynch/TTY_Stream.cpp:155-184 [TTY_Stream::get]. *)
Definition get (fuel : nat) (iov_len : nat) (s : stream) : option text := get_loop fuel s (Z.of_nat iov_len) [].

(** ** Asynchronous operations *)

(** TTY_Asynch/TTY_Stream.cpp:186-203 [TTY_Stream::recv_notify]. And [send_notify], with the bump of each. *)
Definition recv_notify (len : nat) (s : stream) : stream := with_sema true (put_bump len s).1.
Definition send_notify (len : nat) (s : stream) : stream := with_sema true (get_bump len s).1.

(** TTY_Asynch/TTY_Stream.cpp:205-237 [TTY_Stream::signal_writer]. [starts]: the operation can be started. The characters the device is
    given, if it is. *)
Definition signal_writer (starts : bool) (s : stream) : stream * Z * option text :=
  if is_empty s || negb (sema_free s) then (s, 0, None)
  else
    let s := with_sema false (if is_empty s then with_tail 0 (with_head 0 s) else s) in
    let blen := (size_ s - tail_ s)%nat in
    let io_len := to_int (Z.of_nat (head_ s) - Z.of_nat (tail_ s)) in
    let io_len := if 0 <? io_len then io_len else io_len + Z.of_nat (size_ s) in
    if active_ s && (0 <? io_len) then
      let len := Nat.min (Nat.min (Z.to_nat io_len) blen) (capacity s / 2) in
      if negb (len =? 0)%nat && starts then (s, 0, Some (take len (drop (tail_ s) (buffer_ s))))
      else (with_sema true s, -1, None)
    else (with_sema true s, -1, None).

(** TTY_Asynch/TTY_Stream.cpp:239-271 [TTY_Stream::signal_reader]. The number of characters the device may put at the head, if it is started. *)
Definition signal_reader (starts : bool) (s : stream) : stream * Z * option nat :=
  if is_full s || negb (sema_free s) then (s, 0, None)
  else
    let s := with_sema false (if is_empty s then with_tail 0 (with_head 0 s) else s) in
    let blen := (size_ s - head_ s)%nat in
    let io_len := to_int (Z.of_nat (tail_ s) - Z.of_nat (head_ s) - 1) in
    let io_len := if 0 <? io_len then io_len else io_len + Z.of_nat (size_ s) in
    if active_ s && (0 <? io_len) then
      let len := Nat.min (Nat.min (Z.to_nat io_len) blen) (capacity s / 2) in
      if negb (len =? 0)%nat && starts then (s, 0, Some len) else (with_sema true s, -1, None)
    else (with_sema true s, -1, None).

(** ** The buffer as a list *)

(** The indices are in range, and lengths fit an [int]. *)
Record ring_ok (s : stream) : Prop := {
  rk_buffer : length (buffer_ s) = size_ s;
  rk_size : (0 < size_ s)%nat /\ Z.of_nat (size_ s) <= 2 ^ 30;
  rk_head : (head_ s < size_ s)%nat;
  rk_tail : (tail_ s < size_ s)%nat;
}.

(** The place of the [i]th character. *)
Definition place (s : stream) (i : nat) : nat := if (tail_ s + i <? size_ s)%nat then (tail_ s + i)%nat else (tail_ s + i - size_ s)%nat.

(** The characters between tail and head. *)
Definition contents (s : stream) : text := (fun i => nth (place s i) (buffer_ s) NUL) <$> seq 0 (length_ s).

Definition room (s : stream) : nat := (capacity s - length_ s)%nat.

Lemma mod_once a b : (a < 2 * b)%nat -> (a mod b = if a <? b then a else a - b)%nat.
Proof.
  intros Ha. destruct (Nat.ltb_spec a b); [by apply Nat.mod_small|]. symmetry. apply (Nat.mod_unique _ _ 1); lia.
Qed.

(** Case analysis on the comparisons of natural numbers that are in the way. *)
Ltac ring_cases :=
  repeat match goal with
  | |- context [Nat.leb ?a ?b] => destruct (Nat.leb_spec a b)
  | |- context [Nat.ltb ?a ?b] => destruct (Nat.ltb_spec a b)
  | |- context [Nat.eqb ?a ?b] => destruct (Nat.eqb_spec a b)
  end.


Lemma length_spec s : ring_ok s -> length_ s = if (tail_ s <=? head_ s)%nat then (head_ s - tail_ s)%nat else (size_ s + head_ s - tail_ s)%nat.
Proof.
  intros [_ [? _] ? ?]. unfold length_, is_empty. rewrite mod_once by lia. ring_cases; lia.
Qed.

Lemma length_le s : ring_ok s -> (length_ s <= capacity s)%nat.
Proof. intros Hok. rewrite length_spec by done. destruct Hok as [_ [? _] ? ?]. unfold capacity. ring_cases; lia. Qed.

Lemma is_empty_spec s : ring_ok s -> is_empty s = (length_ s =? 0)%nat.
Proof. intros Hok. rewrite length_spec by done. destruct Hok as [_ [? _] ? ?]. unfold is_empty. ring_cases; lia. Qed.

Lemma is_full_spec s : ring_ok s -> is_full s = (room s =? 0)%nat.
Proof.
  intros Hok. unfold room. rewrite length_spec by done. destruct Hok as [_ [? _] ? ?]. unfold is_full, capacity.
  replace (head_ s + size_ s + 1)%nat with (head_ s + 1 + 1 * size_ s)%nat by lia. rewrite Nat.Div0.mod_add, mod_once by lia. ring_cases; lia.
Qed.

Lemma ring_contents_length s : ring_ok s -> length (contents s) = length_ s.
Proof. intros _. unfold contents. by rewrite length_fmap, length_seq. Qed.

Lemma ring_contents_lookup s i : ring_ok s -> (i < length_ s)%nat -> contents s !! i = Some (nth (place s i) (buffer_ s) NUL).
Proof. intros _ Hi. unfold contents. rewrite list_lookup_fmap, lookup_seq_lt by done. done. Qed.

Lemma place_lt s i : ring_ok s -> (i < length_ s)%nat -> (place s i < size_ s)%nat.
Proof. intros Hok Hi. pose proof (length_le s Hok). destruct Hok as [_ [? _] ? ?]. unfold place, capacity in *. ring_cases; lia. Qed.

(** Copying a piece in at the head appends it. *)
Lemma copy_in s data : ring_ok s -> (length data <= room s)%nat -> (head_ s + length data <= size_ s)%nat ->
  let s' := with_head ((head_ s + length data) mod size_ s)%nat (with_buffer (list_inserts (head_ s) data (buffer_ s)) s) in
  ring_ok s' /\ contents s' = contents s ++ data /\ length_ s' = (length_ s + length data)%nat.
Proof.
  intros Hok Hr Hh s'. pose proof (length_le s Hok) as Hle. pose proof (length_spec s Hok) as Hls. pose proof Hok as [Hb [Hs Hs2] Hhd Htl].
  assert (ring_ok s') as Hok'.
  { split; cbn; [by rewrite length_inserts|done| |done]. by apply Nat.mod_upper_bound; lia. }
  assert (length_ s' = (length_ s + length data)%nat) as El.
  { rewrite (length_spec s' Hok'). unfold room, capacity in Hr. rewrite Hls in Hr |- *. cbn. rewrite mod_once by lia.
    revert Hr. ring_cases; lia. }
  split; [done|]. split; [|done]. apply list_eq. intros i.
  destruct (Nat.lt_ge_cases i (length_ s)) as [Hi|Hi].
  - rewrite lookup_app_l by (rewrite ring_contents_length by exact Hok; lia). rewrite (ring_contents_lookup s) by done.
    unfold contents. rewrite list_lookup_fmap, lookup_seq_lt by (rewrite El; lia). cbn. f_equal.
    assert (place s' i = place s i) as -> by done. pose proof (place_lt s i Hok Hi) as Hp.
    rewrite !nth_lookup. f_equal.
    destruct (Nat.lt_ge_cases (place s i) (head_ s)) as [Hlt|Hge]; [by apply list_lookup_inserts_lt|].
    apply list_lookup_inserts_ge. revert Hge Hi Hls Hr. unfold place, room, capacity in *. ring_cases; lia.
  - rewrite lookup_app_r by (rewrite ring_contents_length by exact Hok; lia). rewrite ring_contents_length by done.
    destruct (Nat.lt_ge_cases i (length_ s + length data)) as [Hi2|Hi2].
    + unfold contents. rewrite list_lookup_fmap, lookup_seq_lt by (rewrite El; lia). cbn.
      assert (place s' i = head_ s + (i - length_ s))%nat as ->.
      { change (place s' i) with (place s i). revert Hi Hi2 Hls Hr Hh. unfold place, room, capacity in *. ring_cases; lia. }
      rewrite nth_lookup. rewrite list_lookup_inserts by lia.
      replace (head_ s + (i - length_ s) - head_ s)%nat with (i - length_ s)%nat by lia.
      destruct (data !! (i - length_ s)%nat) eqn:Ed; [done|]. apply lookup_ge_None in Ed. lia.
    + rewrite !lookup_ge_None_2; [done|lia|]. unfold contents. rewrite length_fmap, length_seq. lia.
Qed.

(** Characters put at the head, but not bumped, are not in the list. *)
Lemma buffer_ahead s data : ring_ok s -> (length data <= room s)%nat -> (head_ s + length data <= size_ s)%nat ->
  let s' := with_buffer (list_inserts (head_ s) data (buffer_ s)) s in ring_ok s' /\ contents s' = contents s.
Proof.
  intros Hok Hr Hh s'. destruct (copy_in s data Hok Hr Hh) as (_ & Hc & Hl). split; [destruct Hok; split; cbn; [by rewrite length_inserts|done..]|].
  rewrite <- (take_app_length (contents s) data), <- Hc, ring_contents_length by done. unfold contents. rewrite Hl, <- fmap_take, seq_app, take_app_length'.
  - done.
  - by rewrite length_seq.
Qed.

(** Copying a piece out at the tail takes it from the front. *)
Lemma copy_out s n : ring_ok s -> (n <= length_ s)%nat -> (tail_ s + n <= size_ s)%nat ->
  let s' := with_tail ((tail_ s + n) mod size_ s)%nat s in
  ring_ok s' /\ take n (drop (tail_ s) (buffer_ s)) = take n (contents s) /\ contents s' = drop n (contents s)
  /\ length_ s' = (length_ s - n)%nat.
Proof.
  intros Hok Hn Ht s'. pose proof (length_le s Hok) as Hle. pose proof (length_spec s Hok) as Hls. pose proof Hok as [Hb [Hs Hs2] Hhd Htl].
  assert (ring_ok s') as Hok'. { split; cbn; [done|done|done|]. by apply Nat.mod_upper_bound; lia. }
  assert (length_ s' = (length_ s - n)%nat) as El.
  { rewrite (length_spec s' Hok'). rewrite Hls in Hn |- *. cbn. rewrite mod_once by lia. revert Hn. ring_cases; lia. }
  split; [done|]. split; [|split; [|done]]; apply list_eq; intros i.
  - destruct (Nat.lt_ge_cases i n) as [Hi|Hi]; [|by rewrite !lookup_take_ge].
    rewrite !lookup_take_lt, lookup_drop, ring_contents_lookup by (done || lia). rewrite nth_lookup.
    assert (place s i = tail_ s + i)%nat as -> by (unfold place; ring_cases; lia).
    destruct (buffer_ s !! (tail_ s + i)%nat) eqn:Eb; [done|]. apply lookup_ge_None in Eb. lia.
  - rewrite lookup_drop. destruct (Nat.lt_ge_cases (n + i) (length_ s)) as [Hi|Hi].
    + rewrite (ring_contents_lookup s) by (done || lia). unfold contents. rewrite list_lookup_fmap, lookup_seq_lt by (rewrite El; lia). cbn.
      change (buffer_ s') with (buffer_ s). do 2 f_equal.
      unfold place. change (tail_ s') with ((tail_ s + n) mod size_ s)%nat. change (size_ s') with (size_ s).
      rewrite mod_once by lia. revert Hi Hle. unfold capacity. ring_cases; lia.
    + rewrite !lookup_ge_None_2; [done|rewrite ring_contents_length by done; lia|]. unfold contents. rewrite length_fmap, length_seq. lia.
Qed.

(** The room at the head, as [put] finds it out: at least one, or a full buffer. *)
Lemma put_io s : ring_ok s -> let d := Z.of_nat (tail_ s) - Z.of_nat (head_ s) - 1 in
  to_int d = d /\ (d = 0 <-> room s = 0%nat /\ tail_ s <> 0%nat) /\ (d <> 0 -> (if 0 <? d then d else d + Z.of_nat (size_ s)) = Z.of_nat (room s)).
Proof.
  intros Hok d. pose proof (length_spec s Hok) as Hls. destruct Hok as [_ [? ?] ? ?]. subst d. split; [apply to_int_small; unfold INT_MAX; lia|].
  unfold room, capacity. revert Hls. destruct (Nat.leb_spec (tail_ s) (head_ s)); intros ->; (split; [lia|]); intros Hd; destruct (Z.ltb_spec 0 (Z.of_nat (tail_ s) - Z.of_nat (head_ s) - 1)); lia.
Qed.

(** The characters at the tail, as [get] finds them out. *)
Lemma get_io s : ring_ok s -> let d := Z.of_nat (head_ s) - Z.of_nat (tail_ s) in
  to_int d = d /\ (d = 0 <-> length_ s = 0%nat) /\ (d <> 0 -> (if 0 <? d then d else d + Z.of_nat (size_ s)) = Z.of_nat (length_ s)).
Proof.
  intros Hok d. pose proof (length_spec s Hok) as Hls. destruct Hok as [_ [? ?] ? ?]. subst d. split; [apply to_int_small; unfold INT_MAX; lia|].
  revert Hls. destruct (Nat.leb_spec (tail_ s) (head_ s)); intros ->; (split; [lia|]); intros Hd; destruct (Z.ltb_spec 0 (Z.of_nat (head_ s) - Z.of_nat (tail_ s))); lia.
Qed.

(** What a round of [put] copies. *)
Definition put_io_len (s : stream) (iov_len : Z) : nat := Nat.min (Nat.min (Z.to_nat iov_len) (room s)) (size_ s - head_ s).

(** A round of [put] where there is room. *)
Lemma put_loop_round fuel iov s iov_len put_len : ring_ok s -> 0 < iov_len -> (0 < room s)%nat ->
  let n := put_io_len s iov_len in
  put_loop (S fuel) iov s iov_len put_len
  = put_loop fuel iov
      (with_head ((head_ s + n) mod size_ s)%nat (with_buffer (list_inserts (head_ s) (take n (drop (Z.to_nat put_len) iov)) (buffer_ s)) s))
      (iov_len - 2 * Z.of_nat n) (put_len + Z.of_nat n).
Proof.
  intros Hok Hl Hr n. destruct (put_io s Hok) as (Ei & Hz & Hio). pose proof (rk_head s Hok) as Hh. cbn [put_loop]. rewrite (proj2 (Z.leb_gt _ _)) by done.
  rewrite Ei. destruct (Z.eqb_spec (Z.of_nat (tail_ s) - Z.of_nat (head_ s) - 1) 0) as [E|E]; [apply Hz in E; lia|].
  rewrite Hio by done. rewrite (proj2 (Z.ltb_lt _ _)) by lia.
  assert (Z.min (Z.min iov_len (Z.of_nat (room s))) (Z.of_nat (size_ s) - Z.of_nat (head_ s)) = Z.of_nat n) as -> by (unfold n, put_io_len; lia).
  rewrite Nat2Z.id. f_equal; lia.
Qed.

(** A full buffer ends [put], unless its tail is at the beginning. *)
Lemma put_loop_full fuel iov s iov_len put_len : ring_ok s -> 0 < iov_len -> room s = 0%nat ->
  put_loop (S fuel) iov s iov_len put_len = if (tail_ s =? 0)%nat then put_loop fuel iov s iov_len put_len else Some (s, put_len).
Proof.
  intros Hok Hl Hr. destruct (put_io s Hok) as (Ei & Hz & Hio). cbn [put_loop]. rewrite (proj2 (Z.leb_gt _ _)) by done. rewrite Ei.
  destruct (Nat.eqb_spec (tail_ s) 0) as [E|E].
  - destruct (Z.eqb_spec (Z.of_nat (tail_ s) - Z.of_nat (head_ s) - 1) 0) as [Ez|Ez]; [apply Hz in Ez; lia|].
    rewrite Hio, Hr by done. cbn [Z.ltb]. cbn. f_equal. lia.
  - rewrite (proj2 Hz) by done. done.
Qed.

(** A buffer keeps everything but its contents. *)
Record same_stream (s s' : stream) : Prop := {
  ss_size : size_ s' = size_ s;
  ss_tail : tail_ s' = tail_ s;
  ss_sema : sema_free s' = sema_free s;
  ss_active : active_ s' = active_ s;
}.

(** The result of the loop from [s]: the characters it adds, starting at [off]. *)
Record put_done (iov : text) (s : stream) (off : nat) (s' : stream) (k : nat) : Prop := {
  pd_ok : ring_ok s';
  pd_same : same_stream s s';
  pd_head : head_ s' = ((head_ s + k) mod size_ s)%nat;
  pd_contents : contents s' = contents s ++ take k (drop off iov);
  pd_length : length_ s' = (length_ s + k)%nat;
  pd_room : (k <= room s)%nat;
}.

(** The loop ends when it cannot find a full buffer whose tail is at the beginning. *)
Lemma put_loop_spec iov fuel : forall s len off,
  ring_ok s -> (off + len <= length iov)%nat -> (tail_ s = 0%nat -> (len <= 2 * room s)%nat) -> (len < fuel)%nat ->
  exists s' k, put_loop fuel iov s (Z.of_nat len) (Z.of_nat off) = Some (s', Z.of_nat (off + k))
    /\ put_done iov s off s' k /\ (k <= len)%nat /\ (0 < len -> 0 < room s -> put_io_len s (Z.of_nat len) <= k)%nat.
Proof.
  induction fuel as [|fuel IH]; intros s len off Hok Hoff Htl Hf; [lia|].
  assert (put_done iov s off s 0) as Hnone.
  { split; [done|done| |by rewrite take_0, app_nil_r|lia|lia]. rewrite Nat.add_0_r. symmetry. apply Nat.mod_small, (rk_head s Hok). }
  destruct (Nat.eq_dec len 0) as [->|Hl]; [exists s, 0%nat; split; [cbn; by rewrite Nat.add_0_r|]; split; [done|lia]|].
  destruct (Nat.eq_dec (room s) 0) as [Hr|Hr].
  { rewrite put_loop_full by (done || lia). destruct (Nat.eqb_spec (tail_ s) 0) as [E|E]; [specialize (Htl E); lia|].
    exists s, 0%nat. rewrite Nat.add_0_r. split; [done|]. split; [done|lia]. }
  rewrite put_loop_round by (done || lia). set (n := put_io_len s (Z.of_nat len)). rewrite Nat2Z.id.
  pose proof (rk_head s Hok) as Hh. assert (0 < n <= len /\ n <= room s /\ head_ s + n <= size_ s)%nat as (Hn & Hnr & Hnh) by (unfold n, put_io_len; lia).
  assert (length (take n (drop off iov)) = n) as Ed by (rewrite length_take, length_drop; lia).
  destruct (copy_in s (take n (drop off iov)) Hok) as (Hok1 & Hc1 & Hl1); [lia|lia|]. rewrite Ed in Hok1, Hc1, Hl1.
  set (s1 := with_head _ _) in *. assert (room s1 = (room s - n)%nat) as Hr1 by (unfold room; rewrite Hl1; unfold capacity; cbn; lia).
  destruct (Nat.lt_ge_cases (len - n) n) as [Hlast|Hmore].
  { exists s1, n. destruct fuel as [|fuel]; [lia|]. cbn [put_loop]. rewrite (proj2 (Z.leb_le _ _)) by lia.
    split; [do 2 f_equal; lia|]. split; [by split|]. split; lia. }
  replace (Z.of_nat len - 2 * Z.of_nat n) with (Z.of_nat (len - 2 * n)) by lia. replace (Z.of_nat off + Z.of_nat n) with (Z.of_nat (off + n)) by lia.
  destruct (IH s1 (len - 2 * n)%nat (off + n)%nat) as (s' & k & Ep & Hd & Hk & _); [done|lia| |lia|].
  { intros E. change (tail_ s1) with (tail_ s) in E. specialize (Htl E). pose proof (length_spec s Hok) as Hls.
    rewrite E in Hls. cbn in Hls. revert Hmore. unfold n, put_io_len. revert Htl Hr. unfold room, capacity in *. lia. }
  exists s', (n + k)%nat. split; [rewrite Ep; do 3 f_equal; lia|]. split; [|split; [lia|lia]]. destruct Hd as [? [] ? ? ? ?]. split.
  - done.
  - by split.
  - rewrite pd_head0. change (head_ s1) with ((head_ s + n) mod size_ s)%nat. change (size_ s1) with (size_ s).
    rewrite Nat.Div0.add_mod_idemp_l. f_equal. lia.
  - rewrite pd_contents0, Hc1, <- app_assoc. f_equal. rewrite <- drop_drop, take_take_drop. done.
  - lia.
  - lia.
Qed.

Lemma head_moves s : ring_ok s -> (0 < room s)%nat ->
  let s' := with_head ((head_ s + 1) mod size_ s)%nat s in ring_ok s' /\ length_ s' = S (length_ s) /\ room s' = (room s - 1)%nat.
Proof.
  intros Hok Hr s'. pose proof Hok as [Hb [? ?] ? ?]. assert (ring_ok s') as Hok' by (split; cbn; [done|done|apply Nat.mod_upper_bound; lia|done]).
  assert (length_ s' = S (length_ s)) as El.
  { rewrite (length_spec s' Hok'). revert Hr. unfold room, capacity. rewrite (length_spec s Hok). cbn. rewrite mod_once by lia. destruct (Nat.ltb_spec (head_ s + 1) (size_ s)); ring_cases; lia. }
  split; [done|]. split; [done|]. unfold room. rewrite El. unfold capacity. cbn. lia.
Qed.

Lemma tail_moves s : ring_ok s -> (0 < length_ s)%nat ->
  let s' := with_tail ((tail_ s + 1) mod size_ s)%nat s in ring_ok s' /\ length_ s' = (length_ s - 1)%nat.
Proof.
  intros Hok Hl s'. pose proof Hok as [Hb [? ?] ? ?]. assert (ring_ok s') as Hok' by (split; cbn; [done|done|done|apply Nat.mod_upper_bound; lia]).
  split; [done|]. rewrite (length_spec s' Hok'). revert Hl. rewrite (length_spec s Hok). cbn. rewrite mod_once by lia. destruct (Nat.ltb_spec (tail_ s + 1) (size_ s)); ring_cases; lia.
Qed.

(** [put_bump] moves the head as far as there is room. *)
Lemma put_bump_spec k : forall s, ring_ok s ->
  put_bump k s = (with_head ((head_ s + Nat.min k (room s)) mod size_ s)%nat s, Nat.min k (room s)).
Proof.
  induction k as [|k IH]; intros s Hok; cbn [put_bump]; pose proof (rk_head s Hok).
  - rewrite Nat.add_0_r, Nat.mod_small by done. by destruct s.
  - rewrite is_full_spec by done. destruct (Nat.eqb_spec (room s) 0) as [->|Hr].
    + cbn. rewrite Nat.add_0_r, Nat.mod_small by done. by destruct s.
    + destruct (head_moves s Hok) as (Hok1 & _ & Hr1); [lia|]. rewrite IH by done. rewrite Hr1. unfold with_head. cbn.
      rewrite Nat.Div0.add_mod_idemp_l. destruct (room s) as [|r]; [done|]. cbn. rewrite Nat.sub_0_r, <- Nat.add_assoc. done.
Qed.

(** [get_bump] moves the tail as far as there are characters. *)
Lemma get_bump_spec k : forall s, ring_ok s ->
  get_bump k s = (with_tail ((tail_ s + Nat.min k (length_ s)) mod size_ s)%nat s, Nat.min k (length_ s)).
Proof.
  induction k as [|k IH]; intros s Hok; cbn [get_bump]; pose proof (rk_tail s Hok).
  - rewrite Nat.add_0_r, Nat.mod_small by done. by destruct s.
  - rewrite is_empty_spec by done. destruct (Nat.eqb_spec (length_ s) 0) as [->|Hr].
    + cbn. rewrite Nat.add_0_r, Nat.mod_small by done. by destruct s.
    + destruct (tail_moves s Hok) as (Hok1 & Hl1); [lia|]. rewrite IH by done. rewrite Hl1. unfold with_tail. cbn.
      rewrite Nat.Div0.add_mod_idemp_l. destruct (length_ s) as [|r]; [done|]. cbn. rewrite Nat.sub_0_r, <- Nat.add_assoc. done.
Qed.

(** Moving the tail drops the characters, over the end of the buffer too. *)
Lemma contents_drop s n : ring_ok s -> (n <= length_ s)%nat ->
  let s' := with_tail ((tail_ s + n) mod size_ s)%nat s in ring_ok s' /\ contents s' = drop n (contents s) /\ length_ s' = (length_ s - n)%nat.
Proof.
  intros Hok Hn s'. pose proof (length_le s Hok) as Hle. unfold capacity in Hle. pose proof Hok as [Hb [? ?] ? ?].
  destruct (Nat.le_gt_cases (tail_ s + n) (size_ s)) as [Ht|Ht]; [destruct (copy_out s n Hok Hn Ht) as (? & _ & ? & ?); done|].
  set (m := (size_ s - tail_ s)%nat). destruct (copy_out s m Hok) as (Hok1 & _ & Hc1 & Hl1); [lia|lia|].
  set (s1 := with_tail ((tail_ s + m) mod size_ s)%nat s) in *. assert (tail_ s1 = 0%nat) as E1.
  { unfold s1, m. cbn. replace (tail_ s + (size_ s - tail_ s))%nat with (size_ s) by lia. apply Nat.Div0.mod_same. }
  destruct (copy_out s1 (n - m) Hok1) as (Hok2 & _ & Hc2 & Hl2); [lia|rewrite E1; change (size_ s1) with (size_ s); lia|].
  assert (with_tail ((tail_ s1 + (n - m)) mod size_ s1)%nat s1 = s') as E2.
  { rewrite E1. change (size_ s1) with (size_ s). unfold s', s1, with_tail. cbn. f_equal.
    replace (tail_ s + n)%nat with (n - m + 1 * size_ s)%nat by lia. by rewrite Nat.Div0.mod_add. }
  rewrite E2 in Hok2, Hc2, Hl2. split; [done|]. split; [|lia]. rewrite Hc2, Hc1, drop_drop. f_equal. lia.
Qed.

(** [put] and the bump of what it put append a piece of the characters, a piece of some length when there is room. *)
Lemma put_spec s iov : ring_ok s -> (tail_ s = 0%nat -> (length iov <= 2 * room s)%nat) ->
  exists s' k s'', put (S (length iov)) iov s = Some (s', Z.of_nat k) /\ put_bump k s' = (s'', k) /\ ring_ok s'' /\ same_stream s s''
    /\ contents s'' = contents s ++ take k iov /\ (k <= Nat.min (length iov) (room s))%nat
    /\ (0 < length iov -> 0 < room s -> 0 < k)%nat.
Proof.
  intros Hok Htl. destruct (put_loop_spec iov (S (length iov)) s (length iov) 0 Hok) as (s1 & k & Ep & [? [] ? ? ? ?] & Hk & Hpos); [lia|done|lia|].
  pose proof Hok as [Hb ? ? ?]. assert (ring_ok (with_buffer (buffer_ s1) s)) as Hok'.
  { split; cbn; [rewrite (rk_buffer s1) by done; done|done|done|done]. }
  change (Z.of_nat 0) with 0 in Ep. rewrite Nat.add_0_l in Ep. exists (with_buffer (buffer_ s1) s), k, s1. unfold put. rewrite Ep. split; [done|]. split.
  { rewrite put_bump_spec by done. change (room (with_buffer (buffer_ s1) s)) with (room s). rewrite Nat.min_l by done. f_equal.
    destruct s1, s. unfold with_head, with_buffer in *. cbn in *. by subst. }
  split; [done|]. split; [by split|]. split; [done|]. split; [lia|]. intros ? Hr. specialize (Hpos ltac:(lia) Hr). revert Hpos. unfold put_io_len. lia.
Qed.

(** With the tail at the beginning, [put] of more than twice the room never returns. *)
Lemma put_hangs s iov : ring_ok s -> tail_ s = 0%nat -> (2 * room s < length iov)%nat -> forall fuel, put fuel iov s = None.
Proof.
  intros Hok Ht Hl fuel. unfold put. destruct (put_loop fuel iov s (Z.of_nat (length iov)) 0) eqn:Ep; [|done]. exfalso. revert Ep.
  assert (forall f s1 len off, ring_ok s1 -> tail_ s1 = 0%nat -> room s1 = 0%nat -> 0 < len -> put_loop f iov s1 len off = None) as Hstuck.
  { induction f as [|f IH]; intros s1 len off Hok1 Ht1 Hr1 Hlen; [done|]. rewrite put_loop_full, Ht1 by done. cbn. by apply IH. }
  destruct (Nat.eq_dec (room s) 0) as [Hr|Hr]; [by rewrite Hstuck by (done || lia)|].
  destruct fuel as [|fuel]; [done|]. rewrite put_loop_round by (done || lia). cbn [drop Z.to_nat]. rewrite drop_0.
  pose proof (length_spec s Hok) as Hls. rewrite Ht in Hls. cbn in Hls. pose proof (rk_head s Hok) as Hh.
  assert (put_io_len s (Z.of_nat (length iov)) = room s) as -> by (unfold put_io_len, room, capacity in *; lia).
  assert (length (take (room s) iov) = room s) as Ed by (rewrite length_take; lia).
  destruct (copy_in s (take (room s) iov) Hok) as (Hok1 & _ & Hl1); [lia|unfold room, capacity in *; lia|]. rewrite Ed in Hok1, Hl1.
  rewrite Hstuck; [done|done|done| |lia]. unfold room at 1. rewrite Hl1. unfold room, capacity in *. cbn. lia.
Qed.

Lemma get_loop_spec fuel : forall s len got, ring_ok s -> (len < fuel)%nat ->
  exists k, get_loop fuel s (Z.of_nat len) got = Some (got ++ take k (contents s)) /\ (k <= Nat.min len (length_ s))%nat
    /\ (0 < len -> 0 < length_ s -> 0 < k)%nat.
Proof.
  induction fuel as [|fuel IH]; intros s len got Hok Hf; [lia|].
  assert (forall r, r = Some got -> exists k, r = Some (got ++ take k (contents s)) /\ (k <= Nat.min len (length_ s))%nat /\ k = 0%nat) as Hnone.
  { intros r ->. exists 0%nat. rewrite take_0, app_nil_r. repeat split; lia. }
  cbn [get_loop]. destruct (Z.leb_spec (Z.of_nat len) 0) as [Hl|Hl].
  { destruct (Hnone _ eq_refl) as (k & Ek & Hk & ->). exists 0%nat. split; [done|lia]. }
  destruct (get_io s Hok) as (Ei & Hz & Hio). rewrite Ei.
  destruct (Z.eqb_spec (Z.of_nat (head_ s) - Z.of_nat (tail_ s)) 0) as [E|E].
  { apply Hz in E. destruct (Hnone _ eq_refl) as (k & Ek & Hk & ->). exists 0%nat. split; [done|lia]. }
  rewrite Hio by done. assert (0 < length_ s)%nat as Hpos by (apply Nat.neq_0_lt_0; intros ?; apply E, Hz; done).
  rewrite (proj2 (Z.ltb_lt _ _)) by lia. pose proof (rk_tail s Hok) as Ht.
  set (n := Nat.min (Nat.min len (length_ s)) (size_ s - tail_ s)).
  assert (Z.min (Z.min (Z.of_nat len) (Z.of_nat (length_ s))) (Z.of_nat (size_ s) - Z.of_nat (tail_ s)) = Z.of_nat n) as -> by (unfold n; lia).
  assert (0 < n <= len /\ n <= length_ s /\ tail_ s + n <= size_ s)%nat as (Hn & Hn2 & Hn3) by (unfold n; lia). rewrite Nat2Z.id.
  destruct (copy_out s n Hok Hn2 Hn3) as (Hok1 & Ho & Hc & Hl1). rewrite Ho. set (s1 := with_tail _ _) in *.
  destruct (Nat.lt_ge_cases (len - n) n) as [Hlast|Hmore].
  { exists n. destruct fuel as [|fuel]; [lia|]. cbn [get_loop]. rewrite (proj2 (Z.leb_le _ _)) by lia. split; [done|lia]. }
  replace (Z.of_nat len - Z.of_nat n - Z.of_nat n) with (Z.of_nat (len - 2 * n)) by lia.
  destruct (IH s1 (len - 2 * n)%nat (got ++ take n (contents s)) Hok1) as (k & Eg & Hk & _); [lia|].
  exists (n + k)%nat. rewrite Eg, Hc, <- app_assoc, take_take_drop. split; [done|lia].
Qed.

(** [get] always returns, with the characters in front. *)
Lemma get_spec s n : ring_ok s ->
  exists k, get (S n) n s = Some (take k (contents s)) /\ (k <= Nat.min n (length_ s))%nat /\ (0 < n -> 0 < length_ s -> 0 < k)%nat.
Proof. intros Hok. by destruct (get_loop_spec (S n) s n [] Hok) as (k & ? & ?); [lia|]; exists k. Qed.

(** What does not move the characters. *)
Lemma with_active_ok a s : ring_ok s -> ring_ok (with_active a s).
Proof. intros []. by split. Qed.

Lemma with_sema_ok b s : ring_ok s -> ring_ok (with_sema b s).
Proof. intros []. by split. Qed.
