(* ===== verification/TtyWrite.v ===== *)
(** * Writing to a terminal: TTY_Asynch/TTY_WriteStream, TTY_Handler

    The threads that share a stream take its mutex for one round at a time: a writer puts what there
    is room for and starts a transfer, the proactor's thread takes what the terminal has
    accepted off the buffer and starts the next.  Their moves are executable functions of a choice,
    so that a run is the list of its choices.  The terminal is what it has been sent. *)

From S2P Require Import Prelude CString Text Tty.
From Stdlib Require Import Ascii.

(** ** Starting a transfer *)

(** [signal_writer] leaves the characters alone and gives the device the first of them. *)
Lemma signal_writer_spec starts s s' r f : ring_ok s -> signal_writer starts s = (s', r, f) ->
  ring_ok s' /\ contents s' = contents s /\ length_ s' = length_ s /\ active_ s' = active_ s /\ size_ s' = size_ s /\
  match f with
  | Some t => sema_free s = true /\ sema_free s' = false /\ t <> [] /\ t = take (length t) (contents s)
  | None => sema_free s' = sema_free s
  end.
Proof.
  intros Hok. unfold signal_writer. rewrite is_empty_spec by done.
  destruct (Nat.eqb_spec (length_ s) 0) as [El|El]; [cbn; intros [= <- <- <-]; done|].
  destruct (sema_free s) eqn:Es; cbn [orb negb]; [|intros [= <- <- <-]; done].
  assert (forall b, ring_ok (with_sema b s)) as Hok' by (intros b; destruct Hok; by split).
  destruct (get_io s Hok) as (Ei & Hz & Hio). cbn [head_ tail_ size_ active_ with_sema buffer_].
  rewrite Ei, Hio by (rewrite Hz; done). intros H.
  assert ((with_sema true (with_sema false s), -1, None) = (s', r, f) -> s' = s /\ f = None) as Hno.
  { intros [= <- <- <-]. split; [|done]. destruct s; cbn in *. by subst. }
  destruct (active_ s && (0 <? Z.of_nat (length_ s))) eqn:Ea; [|destruct (Hno H) as [-> ->]; done].
  revert H. set (n := Nat.min _ _). destruct (negb (n =? 0)%nat && starts) eqn:En; [|intros H; destruct (Hno H) as [-> ->]; done].
  intros [= <- <- <-]. apply andb_prop in En as [En _]. apply negb_true_iff, Nat.eqb_neq in En. pose proof (rk_tail s Hok).
  destruct (copy_out s n Hok) as (_ & Ho & _ & _); [unfold n; lia|unfold n; lia|].
  assert (length (take n (contents s)) = n) as Et by (rewrite length_take, ring_contents_length by done; unfold n; lia).
  do 7 (split; [done|]). rewrite Ho. split; [intros E; rewrite E in Et; cbn in Et; lia|by rewrite Et].
Qed.

(** It does start one when there are characters, the buffer holds two or more and none is under way. *)
Lemma signal_writer_starts s : ring_ok s -> (0 < length_ s)%nat -> (2 <= capacity s)%nat -> sema_free s = true -> active_ s = true ->
  exists s' t, signal_writer true s = (s', 0, Some t).
Proof.
  intros Hok Hl Hc Es Ha. unfold signal_writer. rewrite is_empty_spec by done. destruct (Nat.eqb_spec (length_ s) 0); [lia|]. rewrite Es. cbn [orb negb].
  destruct (get_io s Hok) as (Ei & Hz & Hio). cbn [head_ tail_ size_ active_ with_sema buffer_]. rewrite Ei, Hio by (rewrite Hz; lia).
  rewrite Ha, (proj2 (Z.ltb_lt _ _)) by lia. cbn [andb]. pose proof (rk_tail s Hok).
  change (capacity (with_sema false s)) with (capacity s). pose proof (Nat.div_str_pos (capacity s) 2).
  destruct (Nat.eqb_spec (Nat.min (Nat.min (Z.to_nat (Z.of_nat (length_ s))) (size_ s - tail_ s)) (capacity s / 2)) 0); [lia|]. by eexists _, _.
Qed.

(** ** Writing *)

(** What the thread that calls [write_data] is at: nothing, the loop with [send_len] of the characters accepted, or back with its result. *)
Inductive writer :=
| Idle
| Writing (iov : text) (send_len : nat)
| Returned (iov : text) (r : Z).

(** The stream, the transfer under way, what the terminal has been sent and what [write_data] has accepted. *)
Record wsys := WSys { str : stream; flight : option text; sent : text; accepted : text; thread : writer }.

(** TTY_Asynch/TTY_WriteStream.cpp:44-55 [TTY_WriteStream::open_stream]. The signal it ends with, which every other operation sends too. *)
Definition signal (starts : bool) (w : wsys) : wsys :=
  let '(s, _, f) := signal_writer starts (str w) in
  WSys s (match f with Some t => Some t | None => flight w end) (sent w) (accepted w) (thread w).

(** TTY_Asynch/TTY_WriteStream.cpp:57-61 [TTY_WriteStream::close_stream]. Also TTY_Stream.cpp:273-280; the cancelled transfer never completes. *)
Definition close_stream (w : wsys) : wsys :=
  WSys (with_active false (str w)) (flight w) (sent w) (accepted w) (thread w).

(** TTY_Asynch/TTY_WriteStream.cpp:87-91 [TTY_WriteStream::write_data]. A round of the loop where the buffer is not full: [put], [put_bump] and the
    signal.  [None]: [put] does not return. *)
Definition write_round (starts : bool) (iov : text) (send_len : nat) (w : wsys) : option wsys :=
  '(s, n) ← put (S (length (drop send_len iov))) (drop send_len iov) (str w);
  let '(s, io_len) := put_bump (Z.to_nat n) s in
  let w' := WSys s (flight w) (sent w) (accepted w ++ take io_len (drop send_len iov)) (Writing iov (send_len + io_len)) in
  if (io_len =? 0)%nat then Some (WSys s (flight w) (sent w) (accepted w) (Returned iov (if active_ s then Z.of_nat send_len else -1)))
  else Some (signal starts w').

(** Who moves.  [starts]: the operating system accepts the transfer. *)
Inductive wchoice :=
| CWrite (iov : text)                          (* write_data is called *)
| CRound (starts : bool)                       (* the writer takes the mutex *)
| CTimeout                                     (* its wait for room ends *)
| CClose
| CResult (success : bool) (n : nat) (starts : bool).   (* the transfer of n characters is over *)

(** TTY_Asynch/TTY_Handler.cpp:119-130 [TTY_Handler::handle_write_stream]. [success]: the result is a success and the handler is active. *)
Definition handle_write_stream (success : bool) (n : nat) (starts : bool) (w : wsys) : wsys :=
  if success then signal starts (WSys (send_notify n (str w)) (flight w) (sent w) (accepted w) (thread w)) else w.

(** TTY_Asynch/TTY_WriteStream.cpp:63-101 [TTY_WriteStream::write_data]. One move: of the writer, between two times it takes the mutex, or of the
    proactor.  A full buffer is signalled again and waited for. *)
Definition next (c : wchoice) (w : wsys) : option wsys :=
  match c, thread w with
  | CWrite iov, (Idle | Returned _ _) => Some (WSys (str w) (flight w) (sent w) (accepted w) (Writing iov 0))
  | CRound starts, Writing iov send_len =>
      if (send_len <? length iov)%nat && active_ (str w) then
        if is_full (str w) then Some (signal starts w) else write_round starts iov send_len w
      else Some (WSys (str w) (flight w) (sent w) (accepted w) (Returned iov (if active_ (str w) then Z.of_nat send_len else -1)))
  | CTimeout, Writing iov send_len =>
      if is_full (str w) then Some (WSys (str w) (flight w) (sent w) (accepted w) (Returned iov (Z.of_nat send_len))) else None
  | CClose, _ => Some (close_stream w)
  | CResult success n starts, _ =>
      t ← flight w;
      if (n <=? length t)%nat then Some (handle_write_stream success n starts (WSys (str w) None (sent w ++ take n t) (accepted w) (thread w)))
      else None
  | _, _ => None
  end.

Fixpoint run (cs : list wchoice) (w : wsys) : option wsys :=
  match cs with [] => Some w | c :: cs => w ← next c w; run cs w end.

(** TTY_Asynch/TTY_Stream.h:45-48 [TTY_Stream]. A stream before anything is written, of any size. *)
Definition start (filler : ascii) (size : nat) : wsys := WSys (new_stream filler size) None [] [] Idle.

(** ** What the terminal gets *)

(** What the calls so far are at, given all that has been accepted. *)
Definition thread_ok (acc : text) (p : writer) : Prop :=
  match p with
  | Idle => True
  | Writing iov n => exists before, acc = before ++ take n iov /\ (n <= length iov)%nat
  | Returned iov r => r = -1 \/ exists before k, acc = before ++ take k iov /\ (k <= length iov)%nat /\ r = Z.of_nat k
  end.

(** [k]: how many characters the terminal has been sent by a transfer that was then not acted on. *)
Record winv (k : nat) (w : wsys) : Prop := {
  wi_ring : ring_ok (str w);
  wi_fifo : exists gone, accepted w = gone ++ contents (str w) /\ sent w = gone ++ take k (contents (str w));
  wi_k : (k <= length_ (str w))%nat;
  wi_flight : match flight w with
    | Some t => sema_free (str w) = false /\ t = take (length t) (contents (str w)) /\ k = 0%nat
    | None => sema_free (str w) = true -> k = 0%nat
    end;
  wi_thread : thread_ok (accepted w) (thread w);
}.

Lemma signal_winv starts w k : winv k w -> winv k (signal starts w).
Proof.
  intros [Hok (gone & Ha & Hs) Hk Hf Ht]. unfold signal. destruct (signal_writer starts (str w)) as [[s' r] f] eqn:E.
  destruct (signal_writer_spec starts _ _ _ _ Hok E) as (Hok' & Hc & Hl & _ & _ & Hf').
  assert (exists gone, accepted w = gone ++ contents s' /\ sent w = gone ++ take k (contents s')) as Hq by (rewrite Hc; by exists gone).
  destruct f as [t|].
  - destruct Hf' as (Hfree & Hs' & _ & Et). destruct (flight w); [destruct Hf; congruence|]. split; cbn; [done|done|lia|rewrite Hc; auto|done].
  - split; cbn; [done|done|lia|rewrite Hf', Hc; done|done].
Qed.

(** A round accepts something, and appends it, before it signals. *)
Lemma write_round_winv starts iov n w w' k : winv k w -> thread w = Writing iov n -> (n < length iov)%nat ->
  is_full (str w) = false -> write_round starts iov n w = Some w' ->
  exists m w1, w' = signal starts w1 /\ (0 < m)%nat /\ winv k w1 /\ thread w1 = Writing iov (n + m) /\ flight w1 = flight w
    /\ size_ (str w1) = size_ (str w) /\ sema_free (str w1) = sema_free (str w) /\ active_ (str w1) = active_ (str w)
    /\ sent w1 = sent w.
Proof.
  intros [Hok (gone & Ha & Hs) Hk Hf Ht] Ep Hn Hfull. unfold write_round. rewrite is_full_spec in Hfull by done. apply Nat.eqb_neq in Hfull.
  set (rest := drop n iov). assert (0 < length rest)%nat as Hrest by (unfold rest; rewrite length_drop; lia).
  destruct (decide (tail_ (str w) = 0%nat /\ (2 * room (str w) < length rest)%nat)) as [[Hz Hlong]|Hput]; [rewrite put_hangs by done; done|].
  destruct (put_spec (str w) rest Hok) as (s1 & m & s2 & -> & Eb & Hok2 & [? ? Hse Hac] & Hc2 & Hm & Hpos).
  { intros ?. destruct (Nat.le_gt_cases (length rest) (2 * room (str w))); [done|]. by destruct Hput. }
  specialize (Hpos Hrest ltac:(lia)). cbn. rewrite Nat2Z.id, Eb. rewrite (proj2 (Nat.eqb_neq _ _)) by lia. intros [= <-].
  assert (length rest = (length iov - n)%nat) as El by apply length_drop.
  assert (length_ s2 = (length_ (str w) + m)%nat) as Hl2.
  { rewrite <- !ring_contents_length by done. rewrite Hc2, length_app, length_take. lia. }
  eexists m, _. split; [reflexivity|]. split; [lia|]. split; [|done]. split; cbn; [done| |lia| |].
  - exists gone. rewrite Hc2, Ha, Hs, <- app_assoc. split; [done|]. f_equal. rewrite take_app_le; [done|]. by rewrite ring_contents_length.
  - destruct (flight w) as [t|]; rewrite Hse; [|done]. destruct Hf as (? & Et & ?). split; [done|]. split; [|done].
    rewrite Hc2, take_app_le; [done|]. rewrite Et, length_take. lia.
  - rewrite Ep in Ht. destruct Ht as (before & Hb & _). exists before. unfold rest. rewrite Hb, <- app_assoc, take_take_drop. split; [done|lia].
Qed.

(** What [send_notify] leaves when a transfer is over, before the next is signalled. *)
Definition notified (n : nat) (t : text) (w : wsys) : wsys := WSys (send_notify n (str w)) None (sent w ++ take n t) (accepted w) (thread w).

Lemma notified_winv n t w k : winv k w -> flight w = Some t -> (n <= length t)%nat ->
  winv 0 (notified n t w) /\ length_ (str (notified n t w)) = (length_ (str w) - n)%nat /\ (length t <= length_ (str w))%nat
  /\ size_ (str (notified n t w)) = size_ (str w) /\ active_ (str (notified n t w)) = active_ (str w).
Proof.
  intros [Hok (gone & Ha & Hs) Hk Hf Ht] Ef Hn. rewrite Ef in Hf. destruct Hf as (Hse & Et & ->). rewrite take_0, app_nil_r in Hs.
  assert (take n t = take n (contents (str w))) as Etn by (rewrite Et, take_take; f_equal; lia).
  assert (length t <= length_ (str w))%nat as Htl by (rewrite <- ring_contents_length by done; apply (f_equal length) in Et; rewrite length_take in Et; lia).
  unfold notified, send_notify. rewrite get_bump_spec, Nat.min_l by (done || lia). cbn [fst].
  destruct (contents_drop (str w) n Hok) as (Hok' & Hc & Hl); [lia|]. set (s' := with_tail _ _) in *.
  split; [|split; [done|split; [done|done]]]. split; cbn; [by apply with_sema_ok| |lia|done|done]. exists (gone ++ take n (contents (str w))).
  change (contents (with_sema true s')) with (contents s'). rewrite Hc, take_0, app_nil_r, <- app_assoc, take_drop, Hs, Etn. done.
Qed.

(** A transfer that fails, or that the handler does not act on. *)
Definition fails (c : wchoice) : bool := match c with CResult success n _ => negb success && negb (n =? 0)%nat | _ => false end.

Lemma next_winv c w w' k : winv k w -> next c w = Some w' -> exists k', winv k' w' /\ (k = 0%nat -> fails c = false -> k' = 0%nat).
Proof.
  intros Hi. pose proof Hi as [Hok (gone & Ha & Hs) Hk Hf Ht]. unfold next. destruct c as [iov|starts| | |success n starts].
  - destruct (thread w) as [|iov' n'|iov' r]; [|done|]; intros [= <-]; exists k; (split; [|done]); (split; cbn; [done|by exists gone|done|done|]);
      exists (accepted w); (split; [by rewrite take_0, app_nil_r|lia]).
  - destruct (thread w) as [|iov n|] eqn:Ep; [done| |done]. pose proof Ht as (before & Hb & Hn).
    destruct ((n <? length iov)%nat && active_ (str w)) eqn:Eg.
    + apply andb_prop in Eg as [Eg Eact]. apply Nat.ltb_lt in Eg. destruct (is_full (str w)) eqn:Efull.
      * intros [= <-]. exists k. split; [by apply signal_winv|done].
      * intros H. exists k. split; [|done]. destruct (write_round_winv starts iov n w w' k) as (? & w1 & -> & _ & ? & _); [done..|]. by apply signal_winv.
    + intros [= <-]. exists k. split; [|done]. split; cbn; [done|by exists gone|done|done|]. destruct (active_ (str w)); [right; by exists before, n|by left].
  - destruct (thread w) as [|iov n|] eqn:Ep; [done| |done]. pose proof Ht as (before & Hb & Hn). destruct (is_full (str w)); [|done].
    intros [= <-]. exists k. split; [|done]. split; cbn; [done|by exists gone|done|done|]. right. by exists before, n.
  - intros [= <-]. exists k. split; [|done]. split; cbn; [by apply with_active_ok|by exists gone|done|done|done].
  - destruct (flight w) as [t|] eqn:Ef; [|done]. cbn. destruct (Nat.leb_spec n (length t)) as [Hn|]; [|done].
    unfold handle_write_stream. destruct success; intros [= <-].
    + exists 0%nat. split; [|done]. apply signal_winv. apply (notified_winv n t w k Hi Ef Hn).
    + destruct Hf as (Hse & Et & ->). assert (length t <= length (contents (str w)))%nat as Htl by (apply (f_equal length) in Et; rewrite length_take in Et; lia).
      rewrite ring_contents_length in Htl by done. exists n. split; [|cbn; intros _ E; by apply negb_false_iff, Nat.eqb_eq in E].
      split; cbn; [done| |lia|congruence|done]. exists gone. rewrite Hs, take_0, app_nil_r, Et, take_take, Nat.min_l by done. done.
Qed.

Lemma run_winv cs : forall w w' k, winv k w -> run cs w = Some w' ->
  exists k', winv k' w' /\ (k = 0%nat -> Forall (fun c => fails c = false) cs -> k' = 0%nat).
Proof.
  induction cs as [|c cs IH]; intros w w' k Hi; cbn [run]; [intros [= <-]; by exists k|]. destruct (next c w) as [w1|] eqn:E; [|done].
  intros Hr. destruct (next_winv _ _ _ _ Hi E) as (k1 & Hi1 & H1). destruct (IH _ _ _ Hi1 Hr) as (k' & Hi' & H2). exists k'. split; [done|].
  intros Hk Hall. apply Forall_cons in Hall as [? ?]. by apply H2; [apply H1|].
Qed.

Lemma start_winv filler size : Z.of_nat (size + 1) <= 2 ^ 30 -> winv 0 (start filler size).
Proof.
  intros Hs. assert (ring_ok (new_stream filler size)) as Hok by (split; cbn; [apply length_replicate|split; [lia|done]|lia|lia]).
  split; cbn; [done|by exists []|lia|done|done].
Qed.

(** C29 (refinement). The write stream is a queue between writers and terminal: at any moment what the terminal has been sent is a prefix of
    what [write_data] has accepted, what is left of it is what the buffer holds as long as no transfer has failed, and a call that returns a
    number has had that many of its characters accepted, in order. *)
Theorem terminal_gets_what_was_written filler size cs w : Z.of_nat (size + 1) <= 2 ^ 30 -> run cs (start filler size) = Some w ->
  sent w `prefix_of` accepted w /\ (Forall (fun c => fails c = false) cs -> accepted w = sent w ++ contents (str w))
  /\ (length (contents (str w)) <= length (buffer_ (str w)) - 1)%nat /\ thread_ok (accepted w) (thread w).
Proof.
  intros Hs Hr. destruct (run_winv cs _ _ 0 (start_winv filler size Hs) Hr) as (k & [Hok (gone & Ha & Hse) _ _ Ht] & Hk).
  split; [|split; [|split; [|done]]].
  - rewrite Ha, Hse. apply prefix_app. exists (drop k (contents (str w))). by rewrite take_drop.
  - intros Hall. rewrite Ha, Hse, (Hk eq_refl Hall), take_0, app_nil_r. done.
  - rewrite ring_contents_length, (rk_buffer _ Hok) by done. apply (length_le _ Hok).
Qed.

(** ** The output drains *)

(** A choice with no trouble in it. *)
Definition smooth (c : wchoice) : bool := match c with CRound starts => starts | CResult success _ starts => success && starts | CClose => false | _ => true end.

(** What smooth moves keep: a buffer with characters in it has a transfer under way. *)
Record busy (w : wsys) : Prop := {
  bz_active : active_ (str w) = true;
  bz_size : (2 <= capacity (str w))%nat;
  bz_flight : flight w = None -> sema_free (str w) = true /\ length_ (str w) = 0%nat;
  bz_some : forall t, flight w = Some t -> t <> [];
}.

Lemma signal_busy w k : winv k w -> active_ (str w) = true -> (2 <= capacity (str w))%nat ->
  (flight w = None -> sema_free (str w) = true) -> (forall t, flight w = Some t -> t <> []) -> busy (signal true w).
Proof.
  intros [Hok _ _ Hf _] Ha Hc Hfree Hne. unfold signal. destruct (signal_writer true (str w)) as [[s' r] f] eqn:E.
  destruct (signal_writer_spec true _ _ _ _ Hok E) as (_ & _ & Hl & Ha' & Hs' & Hf').
  split; cbn; [by rewrite Ha'|unfold capacity in *; by rewrite Hs'| |].
  - destruct f as [t|]; [done|]. intros Hn. rewrite Hf', Hl. split; [by apply Hfree|].
    destruct (Nat.eq_dec (length_ (str w)) 0) as [|Hp]; [done|]. destruct (signal_writer_starts (str w) Hok) as (? & ? & E'); [lia|done|by apply Hfree|done|]. congruence.
  - destruct f as [t|]; [destruct Hf' as (_ & _ & ? & _); by intros ? [= <-]|done].
Qed.

Lemma smooth_step c w w' k : winv k w -> busy w -> smooth c = true -> next c w = Some w' -> busy w'.
Proof.
  intros Hi Hb Hc. pose proof Hb as [Hact Hcap Hfl Hne].
  assert (forall p, busy (WSys (str w) (flight w) (sent w) (accepted w) p)) as Hsame by (intros; by split).
  unfold next. destruct c as [iov|starts| | |success n starts]; cbn in Hc; [| | |done|].
  - destruct (thread w); [|done|]; intros [= <-]; apply Hsame.
  - subst starts. destruct (thread w) as [|iov n|] eqn:Ep; [done| |done].
    destruct ((n <? length iov)%nat && active_ (str w)) eqn:Eg; [|intros [= <-]; apply Hsame].
    apply andb_prop in Eg as [Eg _]. apply Nat.ltb_lt in Eg. destruct (is_full (str w)) eqn:Efull.
    + intros [= <-]. apply (signal_busy w k); [done..| |done]. intros H. by apply Hfl.
    + intros H. destruct (write_round_winv _ _ _ _ _ _ Hi Ep Eg Efull H) as (m & w1 & -> & _ & Hi1 & _ & E1 & E2 & E3 & E4 & _).
      apply (signal_busy w1 k); [done|by rewrite E4|unfold capacity in *; by rewrite E2| |by rewrite E1]. rewrite E1, E3. intros H1. by apply Hfl.
  - destruct (thread w) as [|iov n|] eqn:Ep; [done| |done]. destruct (is_full (str w)); [|done]. intros [= <-]; apply Hsame.
  - apply andb_prop in Hc as [-> ->]. destruct (flight w) as [t|] eqn:Ef; [|done]. cbn.
    destruct (Nat.leb_spec n (length t)) as [Hn|]; [|done]. unfold handle_write_stream. intros [= <-].
    destruct (notified_winv n t w k Hi Ef Hn) as (Hi1 & _ & _ & E2 & E4).
    apply (signal_busy (notified n t w) 0); [done|by rewrite E4|unfold capacity in *; by rewrite E2|done|done].
Qed.

Lemma smooth_run cs : forall w w', winv 0 w -> busy w -> Forall (fun c => smooth c = true) cs -> run cs w = Some w' -> winv 0 w' /\ busy w'.
Proof.
  induction cs as [|c cs IH]; intros w w' Hi Hb Hall; cbn [run]; [by intros [= <-]|]. apply Forall_cons in Hall as [Hc Hall].
  destruct (next c w) as [w1|] eqn:E; [|done]. destruct (next_winv _ _ _ _ Hi E) as (k & Hi1 & Hk).
  rewrite Hk in Hi1; [|done|]. { apply (IH w1); [done|by apply (smooth_step c w w1 0)|done]. }
  destruct c; try done. cbn in *. by destruct success.
Qed.

(** A transfer that succeeds, carries something and is followed by the next. *)
Definition carries (c : wchoice) : Prop := exists n, (0 < n)%nat /\ c = CResult true n true.

Lemma carry_step c w w' : winv 0 w -> busy w -> carries c -> next c w = Some w' ->
  winv 0 w' /\ busy w' /\ accepted w' = accepted w /\ (S (length (contents (str w'))) <= length (contents (str w)))%nat.
Proof.
  intros Hi Hb (n & Hn & ->) E. destruct (next_winv _ _ _ _ Hi E) as (k & Hi' & Hk). rewrite Hk in Hi' by done.
  split; [done|]. split; [by apply (smooth_step _ _ _ _ Hi Hb) in E|]. revert E. unfold next. destruct (flight w) as [t|] eqn:Ef; [|done]. cbn.
  destruct (Nat.leb_spec n (length t)) as [Hle|]; [|done]. unfold handle_write_stream. intros [= <-].
  destruct (notified_winv n t w 0 Hi Ef Hle) as (Hi1 & Hl1 & Hlt & _). fold (notified n t w). unfold signal.
  destruct (signal_writer true (str (notified n t w))) as [[s' r] f] eqn:E2.
  destruct (signal_writer_spec _ _ _ _ _ (wi_ring _ _ Hi1) E2) as (_ & Ec & _). cbn [accepted str]. split; [done|].
  rewrite Ec, (ring_contents_length (str w)), ring_contents_length, Hl1 by (apply (wi_ring _ _ Hi) || apply (wi_ring _ _ Hi1)). lia.
Qed.

Lemma carry_run cs : forall w w', winv 0 w -> busy w -> Forall carries cs -> run cs w = Some w' ->
  winv 0 w' /\ busy w' /\ accepted w' = accepted w /\ (length cs + length (contents (str w')) <= length (contents (str w)))%nat.
Proof.
  induction cs as [|c cs IH]; intros w w' Hi Hb Hall; cbn [run length]; [by intros [= <-]|]. apply Forall_cons in Hall as [Hc Hall].
  destruct (next c w) as [w1|] eqn:E; [|done]. destruct (carry_step c w w1 Hi Hb Hc E) as (Hi1 & Hb1 & Ha & Hl). intros Hr.
  destruct (IH w1 w' Hi1 Hb1 Hall Hr) as (Hi' & Hb' & Ha' & Hl'). split; [done|]. split; [done|]. split; [congruence|lia].
Qed.

(** C31 (liveness). Output is not stranded, in a stream of two characters or more.  After any moves in which transfers start and succeed, whatever
    sizes they have, and no write is one on which [put] never returns (see [put_hangs]), let only transfers that carry something complete, in
    whatever portions.  There are at most as many as the buffer has characters; while one is left to come it has been started and is not empty;
    and when none is under way the terminal has been sent everything that was accepted.  (A transfer that fails, a buffer of one character or a
    writer that [put] never returns to strands the output.) *)
Theorem output_drains filler size cs w : (2 <= size)%nat -> Z.of_nat (size + 1) <= 2 ^ 30 -> Forall (fun c => smooth c = true) cs ->
  run cs (start filler size) = Some w ->
  forall cs' w', Forall carries cs' -> run cs' w = Some w' ->
  accepted w' = accepted w /\ (length cs' + length (contents (str w')) <= length (contents (str w)))%nat /\
  match flight w' with
  | Some t => t <> [] /\ exists w2, next (CResult true (length t) true) w' = Some w2
  | None => sent w' = accepted w /\ contents (str w') = []
  end.
Proof.
  intros H2 Hs Hall Hr cs' w' Hc Hr'. assert (busy (start filler size)) as Hb by (split; cbn; [done|unfold capacity; cbn; lia|done|done]).
  destruct (smooth_run cs _ _ (start_winv filler size Hs) Hb Hall Hr) as [Hi Hb']. destruct (carry_run cs' w w' Hi Hb' Hc Hr') as (Hi' & Hb2 & Ha & Hl).
  split; [done|]. split; [done|]. destruct (flight w') as [t|] eqn:Ef.
  - split; [by apply (bz_some w' Hb2)|]. unfold next. rewrite Ef. cbn. rewrite Nat.leb_refl. by eexists.
  - destruct (bz_flight w' Hb2 Ef) as [_ Hz]. destruct Hi' as [Hok (gone & Ha' & Hs') _ _ _]. rewrite take_0, app_nil_r in Hs'.
    assert (contents (str w') = []) as Ec by (apply length_zero_iff_nil; by rewrite ring_contents_length).
    split; [|done]. by rewrite <- Ha, Ha', Ec, Hs', app_nil_r.
Qed.

(** With the semaphore taken and no transfer to give it back, nothing is started. *)
Lemma stuck_step c w w' k : winv k w -> flight w = None -> sema_free (str w) = false -> next c w = Some w' ->
  flight w' = None /\ sema_free (str w') = false /\ sent w' = sent w.
Proof.
  intros Hi Hf Hse. assert (forall starts w1, flight w1 = None -> sema_free (str w1) = false -> signal starts w1 = w1) as Hst.
  { intros starts w1 H1 H2. unfold signal, signal_writer. rewrite H2, orb_true_r. rewrite H1. by destruct w1; cbn in *; subst. }
  unfold next. destruct c as [iov|starts| | |success n starts].
  - destruct (thread w); [|done|]; by intros [= <-].
  - destruct (thread w) as [|iov n|] eqn:Ep; [done| |done]. destruct ((n <? length iov)%nat && active_ (str w)) eqn:Eg; [|by intros [= <-]].
    apply andb_prop in Eg as [Eg _]. apply Nat.ltb_lt in Eg. destruct (is_full (str w)) eqn:Efull; [rewrite Hst by done; by intros [= <-]|].
    intros H. destruct (write_round_winv _ _ _ _ _ _ Hi Ep Eg Efull H) as (m & w1 & -> & _ & _ & _ & E1 & _ & E3 & _ & E5).
    rewrite Hst by congruence. split; [congruence|]. split; congruence.
  - destruct (thread w) as [|iov n|]; [done| |done]. destruct (is_full (str w)); [|done]. by intros [= <-].
  - by intros [= <-].
  - by rewrite Hf.
Qed.

(** A transfer that fails is the last: the result handler gives the semaphore back only after a success, and nothing else does, so
    the terminal is sent nothing more, however much is written. *)
Theorem failed_transfer_is_the_last filler size cs n starts w w' cs' : Z.of_nat (size + 1) <= 2 ^ 30 ->
  run cs (start filler size) = Some w -> next (CResult false n starts) w = Some w' -> forall w2, run cs' w' = Some w2 -> sent w2 = sent w'.
Proof.
  intros Hs Hr En. destruct (run_winv cs _ _ 0 (start_winv filler size Hs) Hr) as (k & Hi & _).
  destruct (next_winv _ _ _ _ Hi En) as (k' & Hi' & _). revert En. unfold next. destruct (flight w) as [t|] eqn:Ef; [|done]. cbn.
  destruct (n <=? length t)%nat; [|done]. intros [= <-]. pose proof (wi_flight _ _ Hi) as Hf. rewrite Ef in Hf. destruct Hf as [Hse _].
  set (w' := WSys _ _ _ _ _) in *. assert (flight w' = None /\ sema_free (str w') = false) as [Hf' Hse'] by done.
  clearbody w'. clear -Hi' Hf' Hse'. revert w' k' Hi' Hf' Hse'. induction cs' as [|c cs' IH]; intros w' k' Hi Hf Hse w2; cbn [run]; [by intros [= <-]|].
  destruct (next c w') as [w1|] eqn:E; [|done]. intros Hr. destruct (stuck_step c _ _ _ Hi Hf Hse E) as (Hf1 & Hse1 & <-).
  destruct (next_winv _ _ _ _ Hi E) as (k1 & Hi1 & _). by apply (IH w1 k1 Hi1).
Qed.

(** ** Examples *)

Definition five : text := ["h"; "e"; "l"; "l"; "o"]%char.
Definition ten : text := ["0"; "1"; "2"; "3"; "4"; "5"; "6"; "7"; "8"; "9"]%char.

Definition session : list wchoice :=
  [CWrite five; CRound true; CResult true 2 true; CResult true 2 true; CRound true; CResult true 1 true].

Lemma terminal_gets_what_was_written_witness :
  exists w, run session (start NUL 6) = Some w /\ sent w = five /\ accepted w = five /\ sent w `prefix_of` accepted w
    /\ thread w = Returned five 5.
Proof.
  destruct (run session (start NUL 6)) as [w|] eqn:E; [|by vm_compute in E].
  exists w. pose proof (terminal_gets_what_was_written NUL 6 session w ltac:(vm_compute; congruence) E) as (Hp & Hq & _ & _).
  split; [done|]. vm_compute in E. injection E as <-. split; [done|]. split; [done|]. split; [exact Hp|done].
Defined.

(** The hang: twelve characters and more to a stream of five. *)
Lemma long_write_hangs_witness : forall fuel, put fuel (ten ++ five) (new_stream NUL 5) = None.
Proof. apply (put_hangs (new_stream NUL 5) (ten ++ five)); [split; cbn; lia|done|cbn; lia]. Defined.

Lemma output_drains_witness :
  exists w w', run [CWrite five; CRound true] (start NUL 6) = Some w /\ sent w = [] /\
    run [CResult true 3 true; CResult true 1 true; CResult true 1 true] w = Some w' /\ sent w' = accepted w /\ accepted w = five.
Proof.
  set (write := [CWrite five; CRound true]). set (transfers := [CResult true 3 true; CResult true 1 true; CResult true 1 true]).
  assert ((fun w => (sent w, accepted w)) <$> run write (start NUL 6) = Some ([], five)) as H1 by (vm_compute; reflexivity).
  assert (flight <$> (w ← run write (start NUL 6); run transfers w) = Some None) as H2 by (vm_compute; reflexivity).
  destruct (run write (start NUL 6)) as [w|] eqn:E; [|done]. cbn [mbind option_bind] in H2. destruct (run transfers w) as [w'|] eqn:E'; [|done].
  injection H1 as Hs Ha. injection H2 as Hf.
  destruct (output_drains NUL 6 write w ltac:(lia) ltac:(vm_compute; congruence) ltac:(by repeat constructor) E transfers w'
    ltac:(repeat constructor; eexists; (split; [|reflexivity]); lia) E') as (_ & _ & Hd).
  rewrite Hf in Hd. exists w, w'. split; [reflexivity|]. split; [exact Hs|]. split; [exact E'|]. split; [exact (proj1 Hd)|exact Ha].
Defined.
