(* ===== verification/TtyRead.v ===== *)
(** * Reading from a terminal: TTY_Asynch/TTY_ReadStream, TTY_Handler

    The converse of [TtyWrite]: the device puts characters at the head of the stream's buffer, the
    proactor's thread moves the head past them and starts the next transfer, and a reader takes what
    there is in rounds.  The terminal is what it has sent. *)

From S2P Require Import Prelude CString Text Tty.
From Stdlib Require Import Ascii.

(** ** Starting a transfer *)

(** An empty buffer may start over. *)
Lemma rewound s : ring_ok s -> length_ s = 0%nat ->
  let s' := with_tail 0 (with_head 0 s) in ring_ok s' /\ contents s' = contents s /\ length_ s' = 0%nat.
Proof.
  intros Hok El s'. pose proof Hok as [Hb [? ?] ? ?]. assert (ring_ok s') as Hok' by (split; cbn; done).
  assert (length_ s' = 0%nat) as El' by done. split; [done|]. split; [|done]. unfold contents. by rewrite El, El'.
Qed.

(** [signal_reader] gives the device places at the head that are free. *)
Lemma signal_reader_spec starts s s' r f : ring_ok s -> signal_reader starts s = (s', r, f) ->
  ring_ok s' /\ contents s' = contents s /\ length_ s' = length_ s /\ active_ s' = active_ s /\
  match f with
  | Some n => sema_free s = true /\ sema_free s' = false /\ (0 < n <= room s')%nat /\ (head_ s' + n <= size_ s')%nat
  | None => sema_free s' = sema_free s
  end.
Proof.
  intros Hok. unfold signal_reader. rewrite is_full_spec by done.
  destruct (Nat.eqb_spec (room s) 0) as [Er|Er]; [cbn; intros [= <- <- <-]; done|].
  destruct (sema_free s) eqn:Es; cbn [orb negb]; [|intros [= <- <- <-]; done].
  rewrite is_empty_spec by done. set (s1 := if _ : bool then _ else s).
  assert (ring_ok s1 /\ contents s1 = contents s /\ length_ s1 = length_ s /\ active_ s1 = active_ s /\ size_ s1 = size_ s) as (Hok1 & Hc1 & Hl1 & Ha1 & Hs1).
  { unfold s1. destruct (Nat.eqb_spec (length_ s) 0) as [El|El]; [|done]. destruct (rewound s Hok El) as (? & ? & Hl0). rewrite Hl0, El. by split_and!. }
  assert (room s1 = room s) as Hr1 by (unfold room, capacity; by rewrite Hl1, Hs1).
  assert (forall b, ring_ok (with_sema b s1)) as Hok' by (intros b; destruct Hok1; by split).
  destruct (put_io s1 Hok1) as (Ei & Hz & Hio). cbn [head_ tail_ size_ active_ with_sema buffer_]. rewrite Ei.
  assert (forall r : Z, (with_sema true (with_sema false s1), r, None) = (s', r, f) -> ring_ok s' /\ contents s' = contents s /\ length_ s' = length_ s
    /\ active_ s' = active_ s /\ sema_free s' = true /\ f = None) as Hno by (intros r' [= <- <-]; specialize (Hok' true); done).
  set (io := if 0 <? _ then _ else _). intros H. assert (0 < io -> io = Z.of_nat (room s)) as Hio'.
  { unfold io. destruct (Z.eqb_spec (Z.of_nat (tail_ s1) - Z.of_nat (head_ s1) - 1) 0) as [E|E]; [apply Hz in E; lia|]. rewrite Hio by done. lia. }
  destruct (active_ s1 && (0 <? io)) eqn:Ea; [|assert (r = -1) as -> by congruence; by destruct (Hno _ H) as (? & ? & ? & ? & ? & ->)].
  apply andb_prop in Ea as [_ Ea]. apply Z.ltb_lt in Ea. specialize (Hio' Ea). revert H. set (n := Nat.min _ _).
  destruct (negb (n =? 0)%nat && starts) eqn:En; [|intros H; assert (r = -1) as -> by congruence; by destruct (Hno _ H) as (? & ? & ? & ? & ? & ->)].
  intros [= <- <- <-]. apply andb_prop in En as [En _]. apply negb_true_iff, Nat.eqb_neq in En. pose proof (rk_head s1 Hok1).
  split; [apply Hok'|]. split; [done|]. split; [done|]. split; [done|]. split; [done|]. split; [done|].
  change (room (with_sema false s1)) with (room s1). rewrite Hr1. cbn [head_ size_ with_sema]. unfold n in *. rewrite Hio' in *. lia.
Qed.

(** ** Reading *)

(** What the thread that calls [read_data] is at: the loop, with the characters it has got of those wanted, or back with its result. *)
Inductive reader :=
| Idle
| Reading (want : nat) (got : text)
| Returned (want : nat) (got : text) (r : Z).

(** The stream, the places the transfer under way may fill, what the terminal has sent in transfers that succeeded and what [read_data] has got.  The
    characters of a transfer that is over without success are not in [arrived]: the handler does not act on it, whatever it has brought
    (TTY_Handler.cpp:96). *)
Record rsys := RSys { str : stream; flight : option nat; arrived : text; delivered : text; thread : reader }.

(** TTY_Asynch/TTY_ReadStream.cpp:43-50 [TTY_ReadStream::open_stream]. The signal it ends with, which every other operation sends too. *)
Definition signal (starts : bool) (w : rsys) : rsys :=
  let '(s, _, f) := signal_reader starts (str w) in
  RSys s (match f with Some n => Some n | None => flight w end) (arrived w) (delivered w) (thread w).

(** TTY_Asynch/TTY_ReadStream.cpp:52-56 [TTY_ReadStream::close_stream]. *)
Definition close_stream (w : rsys) : rsys := RSys (with_active false (str w)) (flight w) (arrived w) (delivered w) (thread w).

(** TTY_Asynch/TTY_ReadStream.cpp:82-86 [TTY_ReadStream::read_data]. A round of the loop where the buffer is not empty: [get], [get_bump] and the signal. *)
Definition read_round (starts : bool) (want : nat) (got : text) (w : rsys) : option rsys :=
  let rest := (want - length got)%nat in
  iov ← get (S rest) rest (str w);
  let '(s, io_len) := get_bump (length iov) (str w) in
  if (io_len =? 0)%nat then Some (RSys s (flight w) (arrived w) (delivered w) (Returned want got (if active_ s then Z.of_nat (length got) else -1)))
  else Some (signal starts (RSys s (flight w) (arrived w) (delivered w ++ iov) (Reading want (got ++ iov)))).

(** Who moves.  [starts]: the operating system accepts the transfer. *)
Inductive rchoice :=
| CRead (want : nat)                                      (* read_data is called *)
| CRound (starts : bool)                                  (* the reader takes the mutex *)
| CTimeout                                                (* its wait for characters ends *)
| CClose
| CResult (success : bool) (data : text) (starts : bool). (* the transfer is over, with these characters *)

(** TTY_Asynch/TTY_Handler.cpp:93-104 [TTY_Handler::handle_read_stream]. *)
Definition handle_read_stream (success : bool) (n : nat) (starts : bool) (w : rsys) : rsys :=
  if success then signal starts (RSys (recv_notify n (str w)) (flight w) (arrived w) (delivered w) (thread w)) else w.

(** TTY_Asynch/TTY_ReadStream.cpp:58-96 [TTY_ReadStream::read_data]. One move: of the reader, between two times it takes the mutex, or of the
    proactor.  The device puts the characters at the head before the result comes. *)
Definition next (c : rchoice) (w : rsys) : option rsys :=
  match c, thread w with
  | CRead want, (Idle | Returned _ _ _) => Some (RSys (str w) (flight w) (arrived w) (delivered w) (Reading want []))
  | CRound starts, Reading want got =>
      if (length got <? want)%nat && active_ (str w) then
        if is_empty (str w) then Some (signal starts w) else read_round starts want got w
      else Some (RSys (str w) (flight w) (arrived w) (delivered w) (Returned want got (if active_ (str w) then Z.of_nat (length got) else -1)))
  | CTimeout, Reading want got =>
      if is_empty (str w) then Some (RSys (str w) (flight w) (arrived w) (delivered w) (Returned want got (Z.of_nat (length got)))) else None
  | CClose, _ => Some (close_stream w)
  | CResult success data starts, _ =>
      n ← flight w;
      if (length data <=? n)%nat then
        let s := with_buffer (list_inserts (head_ (str w)) data (buffer_ (str w))) (str w) in
        Some (handle_read_stream success (length data) starts
          (RSys s None (if success then arrived w ++ data else arrived w) (delivered w) (thread w)))
      else None
  | _, _ => None
  end.

Fixpoint run (cs : list rchoice) (w : rsys) : option rsys :=
  match cs with [] => Some w | c :: cs => w ← next c w; run cs w end.

Definition start (filler : ascii) (size : nat) : rsys := RSys (new_stream filler size) None [] [] Idle.

(** ** What the callers get *)

Definition thread_ok (del : text) (p : reader) : Prop :=
  match p with
  | Idle => True
  | Reading want got => got `suffix_of` del /\ (length got <= want)%nat
  | Returned want got r => got `suffix_of` del /\ (length got <= want)%nat /\ (r = -1 \/ r = Z.of_nat (length got))
  end.

Record rinv (w : rsys) : Prop := {
  ri_ring : ring_ok (str w);
  ri_fifo : arrived w = delivered w ++ contents (str w);
  ri_flight : forall n, flight w = Some n -> sema_free (str w) = false /\ (n <= room (str w))%nat /\ (head_ (str w) + n <= size_ (str w))%nat;
  ri_thread : thread_ok (delivered w) (thread w);
}.

Lemma signal_rinv starts w : rinv w -> rinv (signal starts w).
Proof.
  intros [Hok Ha Hf Ht]. unfold signal. destruct (signal_reader starts (str w)) as [[s' r] f] eqn:E.
  destruct (signal_reader_spec starts _ _ _ _ Hok E) as (Hok' & Hc & Hl & _ & Hf'). destruct f as [n|].
  - split; cbn; [done|by rewrite Hc| |done]. destruct Hf' as (_ & ? & [_ ?] & ?). by intros ? [= <-].
  - split; cbn; [done|by rewrite Hc| |done]. intros n En. destruct (Hf n En) as (Hse & Hn & Hh).
    (* nothing has moved: the semaphore is taken *)
    revert E. unfold signal_reader. rewrite Hse, orb_true_r. intros [= <- <-]. done.
Qed.

Lemma read_round_rinv starts want got w w' : rinv w -> thread w = Reading want got -> (length got < want)%nat ->
  is_empty (str w) = false -> read_round starts want got w = Some w' -> rinv w'.
Proof.
  intros [Hok Ha Hf Ht] Ep Hn He. unfold read_round. rewrite is_empty_spec in He by done. apply Nat.eqb_neq in He.
  set (rest := (want - length got)%nat). destruct (get_spec (str w) rest Hok) as (k & -> & Hk & Hpos). specialize (Hpos ltac:(lia) ltac:(lia)). cbn.
  assert (length (take k (contents (str w))) = k) as -> by (rewrite length_take, ring_contents_length by done; lia).
  rewrite get_bump_spec, Nat.min_l by (done || lia). rewrite (proj2 (Nat.eqb_neq _ _)) by lia. intros [= <-]. apply signal_rinv.
  destruct (contents_drop (str w) k Hok) as (Hok' & Hc & Hl); [lia|]. set (s' := with_tail _ _) in *. split; cbn; [done| | |].
  - by rewrite Hc, <- app_assoc, take_drop.
  - intros n En. destruct (Hf n En) as (? & ? & ?). split; [done|]. split; [|done]. unfold room, capacity in *. rewrite Hl. change (size_ s') with (size_ (str w)). lia.
  - rewrite Ep in Ht. destruct Ht as [[l ->] Hw]. split; [exists l; by rewrite app_assoc|]. rewrite length_app, length_take. lia.
Qed.

Lemma next_rinv c w w' : rinv w -> next c w = Some w' -> rinv w'.
Proof.
  intros Hi. pose proof Hi as [Hok Ha Hf Ht]. unfold next. destruct c as [want|starts| | |success data starts].
  - assert (rinv (RSys (str w) (flight w) (arrived w) (delivered w) (Reading want []))) as Hr.
    { split; cbn; [done|done|done|]. split; [by exists (delivered w); rewrite app_nil_r|cbn; lia]. }
    destruct (thread w); [|done|]; by intros [= <-].
  - destruct (thread w) as [|want got|] eqn:Ep; [done| |done]. pose proof Ht as [Hs Hl].
    destruct ((length got <? want)%nat && active_ (str w)) eqn:Eg.
    + apply andb_prop in Eg as [Eg _]. apply Nat.ltb_lt in Eg. destruct (is_empty (str w)) eqn:Ee; [intros [= <-]; by apply signal_rinv|].
      by apply read_round_rinv.
    + intros [= <-]. split; cbn; [done|done|done|]. destruct (active_ (str w)); auto.
  - destruct (thread w) as [|want got|] eqn:Ep; [done| |done]. destruct (is_empty (str w)); [|done]. intros [= <-]. destruct Ht. split; cbn; auto.
  - intros [= <-]. split; cbn; [by apply with_active_ok|done|done|done].
  - destruct (flight w) as [n|] eqn:Ef; [|done]. cbn. destruct (Nat.leb_spec (length data) n) as [Hd|]; [|done]. destruct (Hf n eq_refl) as (Hse & Hn & Hh).
    destruct (copy_in (str w) data Hok) as (Hok' & Hc & Hl); [lia|lia|]. set (b := list_inserts _ _ _) in *.
    destruct (buffer_ahead (str w) data Hok) as (Hokb & Hcb); [lia|lia|]. fold b in Hokb, Hcb.
    unfold handle_read_stream. destruct success; intros [= <-].
    + apply signal_rinv. cbn. unfold recv_notify. rewrite put_bump_spec by done. change (room (with_buffer b (str w))) with (room (str w)).
      rewrite Nat.min_l by lia. cbn [fst]. set (s' := with_head _ _) in *. split; cbn; [apply with_sema_ok, Hok'| |done|done].
      change (contents (with_sema true s')) with (contents s'). rewrite Hc, Ha, app_assoc. done.
    + split; cbn; [done|by rewrite Hcb|done|done].
Qed.

(** C30 (invariant). The read stream is a queue between terminal and readers: at any moment the characters that have arrived in transfers that succeeded are those the callers
    of [read_data] have got followed by those in the buffer, in order, and a call that returns a number has that many of them, no
    more than it asked for. *)
Theorem readers_get_what_arrived filler size cs w : Z.of_nat (size + 1) <= 2 ^ 30 -> run cs (start filler size) = Some w ->
  arrived w = delivered w ++ contents (str w) /\ (length (contents (str w)) <= length (buffer_ (str w)) - 1)%nat /\ thread_ok (delivered w) (thread w).
Proof.
  intros Hs. assert (rinv (start filler size)) as Hi.
  { split; cbn; [|done|done|done]. split; cbn; [apply length_replicate|split; [lia|done]|lia|lia]. }
  generalize dependent (start filler size). induction cs as [|c cs IH]; intros w0 Hi; cbn [run].
  - intros [= <-]. destruct Hi as [Hok Ha _ Ht]. split; [done|]. split; [|done]. rewrite ring_contents_length, (rk_buffer _ Hok) by done. apply (length_le _ Hok).
  - destruct (next c w0) as [w1|] eqn:E; [|done]. intros Hr. apply (IH w1); [by apply (next_rinv c w0)|done].
Qed.

Definition session : list rchoice :=
  [CRead 4; CRound true; CResult true ["a"; "b"; "c"]%char true; CRound true; CResult true ["d"; "e"; "f"]%char true; CRound true; CRound true].

Lemma readers_get_what_arrived_witness :
  exists w, run session (start NUL 7) = Some w /\ delivered w = ["a"; "b"; "c"; "d"]%char /\ contents (str w) = ["e"; "f"]%char
    /\ arrived w = delivered w ++ contents (str w) /\ thread w = Returned 4 ["a"; "b"; "c"; "d"]%char 4.
Proof.
  destruct (run session (start NUL 7)) as [w|] eqn:E; [|by vm_compute in E].
  exists w. pose proof (readers_get_what_arrived NUL 7 session w ltac:(vm_compute; congruence) E) as (Hp & _ & _).
  split; [done|]. vm_compute in E. injection E as <-. split; [done|]. split; [done|]. split; [exact Hp|done].
Defined.
