(* ===== verification/TtyConfig.v ===== *)
(** * The configuration of a terminal: TTY_Asynch/TTY_Device

    [parse_config] reads a device name and parameters [name=value], separated by commas, into the
    serial parameters the device is opened with.  The build is the POSIX one.  The comparison of names
    without regard to case and the conversion of numbers are those of the C library; the parameters before
    the call are the ones ACE sets. *)

From S2P Require Import Prelude CString Text.
From Stdlib Require Import Ascii String.
Close Scope string_scope.
Open Scope list_scope.

Abbreviation text := (list ascii).
Abbreviation length := List.length.

Definition COMMA : ascii := ",".
Definition COLON : ascii := ":".
Definition EQUALS : ascii := "=".

(** ** The C library *)

(** [strcasecmp(a, b) == 0]. *)
Definition caseless_eq (a b : text) : bool := bool_decide (tolower <$> c_str a = tolower <$> c_str b).

(** [atoi], for numbers that fit an [int]; C leaves others undefined. *)
Definition atoi (s : text) : Z := match scan_int None (c_str s) with Some (v, _) => to_int v | None => 0 end.

(** ** The parameters *)

(** TTY_Asynch/TTY_Device.cpp:127-140 [TTY_PARITY]. *)
Inductive parity := ParityNone | ParityOdd | ParityEven.

(** The fields of [ACE_TTY_IO::Serial_Params] that the device sets. *)
Record serial_params := SerialParams {
  baudrate : Z; paritymode : parity; databits : Z; stopbits : Z; readtimeoutmsec : Z;
  xinenb : bool; xoutenb : bool; xonlim : Z; xofflim : Z; dsrenb : bool; ctsenb : bool; dtrdisable : bool; rtsenb : Z; modem : bool;
}.

Definition with_line (b : Z) (y : parity) (d s t : Z) (p : serial_params) : serial_params :=
  SerialParams b y d s t (xinenb p) (xoutenb p) (xonlim p) (xofflim p) (dsrenb p) (ctsenb p) (dtrdisable p) (rtsenb p) (modem p).
Definition with_flow (xi xo : bool) (xn xf : Z) (p : serial_params) : serial_params :=
  SerialParams (baudrate p) (paritymode p) (databits p) (stopbits p) (readtimeoutmsec p) xi xo xn xf (dsrenb p) (ctsenb p) (dtrdisable p) (rtsenb p) (modem p).
Definition with_lines (dsr cts dtr : bool) (rts : Z) (m : bool) (p : serial_params) : serial_params :=
  SerialParams (baudrate p) (paritymode p) (databits p) (stopbits p) (readtimeoutmsec p) (xinenb p) (xoutenb p) (xonlim p) (xofflim p) dsr cts dtr rts m.

Section parse.
Context `{AceMinMax}.

(** TTY_Asynch/TTY_Device.cpp:279-279 [TTY_Device::parse_config]. [param_val[0] == c], or the word. *)
Definition says (c : ascii) (word : string) (val : text) : bool := bool_decide (char_at val 0 = c) || caseless_eq val (str word).

(** TTY_Asynch/TTY_Device.cpp:275-277 [TTY_Device::parse_config]. [atoi], or the default when it is not positive. *)
Definition positive (dflt : Z) (val : text) : Z := if 0 <? atoi val then atoi val else dflt.

(** TTY_Asynch/TTY_Device.cpp:248-259 [TTY_Device::parse_config]. *)
Definition parity_of (val : text) : parity :=
  if bool_decide (char_at val 0 = "1"%char) || bool_decide (val = str "O") || caseless_eq val (str "odd") then ParityOdd
  else if bool_decide (char_at val 0 = "2"%char) || bool_decide (val = str "E") || caseless_eq val (str "even") then ParityEven
  else ParityNone.

(** TTY_Asynch/TTY_Device.cpp:243-329 [TTY_Device::parse_config]. [None]: the parameter is unknown. *)
Definition set_param (arg val : text) (p : serial_params) : option serial_params :=
  let named name := caseless_eq arg (str name) in
  if named "baud" then Some (with_line (if 0 <? atoi val then ace_range 50 256000 (atoi val) else 9600) (paritymode p) (databits p) (stopbits p) (readtimeoutmsec p) p)
  else if named "parity" then Some (with_line (baudrate p) (parity_of val) (databits p) (stopbits p) (readtimeoutmsec p) p)
  else if named "data" then
    Some (with_line (baudrate p) (paritymode p) (if (4 <=? atoi val) && (atoi val <=? 8) then atoi val else 8) (stopbits p) (readtimeoutmsec p) p)
  else if named "stop" then
    Some (with_line (baudrate p) (paritymode p) (databits p) (if (1 <=? atoi val) && (atoi val <=? 2) then atoi val else 1) (readtimeoutmsec p) p)
  else if named "to" then Some (with_line (baudrate p) (paritymode p) (databits p) (stopbits p) (positive 10000 val) p)
  else if named "xon" then Some (with_flow (says "1" "on" val) (says "1" "on" val) (xonlim p) (xofflim p) p)
  else if named "xin" then Some (with_flow (says "1" "on" val) (xoutenb p) (xonlim p) (xofflim p) p)
  else if named "xout" then Some (with_flow (xinenb p) (says "1" "on" val) (xonlim p) (xofflim p) p)
  else if named "xonlim" then Some (with_flow (xinenb p) (xoutenb p) (positive 0 val) (xofflim p) p)
  else if named "xofflim" then Some (with_flow (xinenb p) (xoutenb p) (xonlim p) (positive 0 val) p)
  else if named "odsr" then
    let p := if says "1" "on" val then with_lines true (ctsenb p) (dtrdisable p) (rtsenb p) (modem p) p else p in
    Some (with_lines false (ctsenb p) (dtrdisable p) (rtsenb p) (modem p) p)
  else if named "octs" then
    let p := if says "1" "on" val then with_lines (dsrenb p) true (dtrdisable p) (rtsenb p) (modem p) p else p in
    Some (with_lines (dsrenb p) false (dtrdisable p) (rtsenb p) (modem p) p)
  else if named "dtr" then
    let p := if says "1" "on" val then with_lines (dsrenb p) (ctsenb p) true (rtsenb p) (modem p) p else p in
    Some (with_lines (dsrenb p) (ctsenb p) false (rtsenb p) (modem p) p)
  else if named "rts" then
    Some (with_lines (dsrenb p) (ctsenb p) (dtrdisable p)
      (if says "1" "on" val then 1 else if says "2" "hs" val then 2 else if says "3" "tg" val then 3 else 0) (modem p) p)
  else if named "idsr" then
    let p := if says "1" "on" val then with_lines true (ctsenb p) (dtrdisable p) (rtsenb p) (modem p) p else p in
    Some (with_lines false (ctsenb p) (dtrdisable p) (rtsenb p) (modem p) p)
  else if named "modem" then
    let p := if says "1" "on" val then with_lines (dsrenb p) (ctsenb p) (dtrdisable p) (rtsenb p) true p else p in
    Some (with_lines (dsrenb p) (ctsenb p) (dtrdisable p) (rtsenb p) false p)
  else None.

(** TTY_Asynch/TTY_Device.cpp:227-330 [TTY_Device::parse_config]. The loop over the parameters.  The outer [None]: it goes on; the inner one:
    [std::out_of_range], which the text of the warning about an unknown parameter throws after the last comma, where [pos] is -1. *)
Fixpoint parse_params (fuel : nat) (tty_config : text) (pos : nat) (p : serial_params) : option (option serial_params) :=
  match fuel with
  | O => None
  | S fuel =>
      let e := find_int COMMA tty_config pos in
      match substr tty_config pos (if 0 <=? e then (Z.to_nat e - pos)%nat else length tty_config) with
      | None => Some None
      | Some field =>
          let param := trim field in
          let eq_pos := find_int EQUALS param 0 in
          let next p := if 0 <? e then parse_params fuel tty_config (S (Z.to_nat e)) p else Some (Some p) in
          if eq_pos <=? 0 then next p
          else
            let param_arg := trim (take (Z.to_nat eq_pos) param) in
            let param_val := trim (drop (S (Z.to_nat eq_pos)) param) in
            if (length param_arg =? 0)%nat || (length param_val =? 0)%nat then next p
            else match set_param param_arg param_val p with
                 | Some p => next p
                 | None => if 0 <=? e then next p else Some None
                 end
      end
  end.

(** What [parse_config] comes to. *)
Inductive parsed :=
| Parsed (device : text) (p : serial_params)
| Invalid                        (* an error is logged, -1 *)
| OutOfRange.                    (* std::out_of_range *)

(** TTY_Asynch/TTY_Device.cpp:197-333 [TTY_Device::parse_config]. *)
Definition parse_config (fuel : nat) (config_arg : text) (p : serial_params) : option parsed :=
  let tty_config := trim_string config_arg DQUOTE in
  let pos := find_int COLON tty_config 0 in
  if pos <? 0 then
    if (0 <? length tty_config)%nat then Some (Parsed (trim_string tty_config BACKSLASH) p) else Some Invalid
  else
    let device := trim_string (take (Z.to_nat pos) tty_config) BACKSLASH in
    (fun r => match r with Some p => Parsed device p | None => OutOfRange end) <$> parse_params fuel tty_config (S (Z.to_nat pos)) p.
End parse.

(** ** What a configuration sets *)

(** Parameters as they are written. *)
Definition written (f : text * text) : text := f.1 ++ EQUALS :: f.2.

Fixpoint fields (fs : list (text * text)) : text :=
  match fs with
  | [] => []
  | [f] => written f
  | f :: fs => written f ++ COMMA :: fields fs
  end.

(** Names and values without blanks around them, or the characters that separate. *)
Definition field_ok (f : text * text) : Prop := tidy f.1 /\ tidy f.2 /\ (EQUALS ∉ fst f) /\ ~ (COMMA ∈ written f).

(** The names of parameters, in any case of letters. *)
Definition names : list text :=
  str <$> ["baud"; "parity"; "data"; "stop"; "to"; "xon"; "xin"; "xout"; "xonlim"; "xofflim"; "odsr"; "octs"; "dtr"; "rts"; "idsr"; "modem"]%string.

Definition known (arg : text) : bool := existsb (caseless_eq arg) names.

Lemma set_param_known `{AceMinMax} arg val p : is_Some (set_param arg val p) <-> known arg = true.
Proof.
  unfold set_param, known, names. cbn [fmap list_fmap existsb].
  repeat match goal with |- context [caseless_eq arg ?w] => destruct (caseless_eq arg w); [by split; [|intros _; eexists]|] end.
  cbn. split; [by intros [? ?]|done].
Qed.

Definition apply_param `{AceMinMax} (p : serial_params) (f : text * text) : serial_params := default p (set_param f.1 f.2 p).

Lemma written_trim f : field_ok f -> trim (written f) = written f.
Proof.
  intros (H1 & H2 & _ & _). apply tidy_trim. apply (tidy_app f.1 [EQUALS] f.2); [done|done|]. intros c ->%list_elem_of_singleton. done.
Qed.

(** One round of the loop, at the beginning of a field. *)
Lemma parse_field `{AceMinMax} fuel pre f rest p : field_ok f -> (rest = [] \/ exists r, rest = COMMA :: r) -> (0 < length pre)%nat ->
  let s := pre ++ written f ++ rest in
  let next p := if (length rest =? 0)%nat then Some (Some p) else parse_params fuel s (length pre + length (written f) + 1) p in
  parse_params (S fuel) s (length pre) p
  = match set_param f.1 f.2 p with
    | Some p => next p
    | None => if (length rest =? 0)%nat then Some None else next p
    end.
Proof.
  intros Hf Hrest Hpre s next. pose proof Hf as (Ht1 & Ht2 & Heq & Hcm).
  assert (find_int COMMA s (length pre) = if (length rest =? 0)%nat then -1 else Z.of_nat (length pre + length (written f))) as Ee.
  { unfold find_int, s. rewrite find_from_app. destruct Hrest as [->|[r ->]]; cbn [length Nat.eqb].
    - by rewrite app_nil_r, find_char_absent.
    - by rewrite find_char_cut. }
  cbn [parse_params]. rewrite Ee. subst s.
  assert (forall n, (n = length (written f) \/ (rest = [] /\ length (written f) <= n)%nat) -> substr (pre ++ written f ++ rest) (length pre) n = Some (written f)) as Hsub.
  { intros n Hn. unfold substr. rewrite decide_True by (rewrite length_app; lia). f_equal. rewrite drop_app_length.
    destruct Hn as [->|[-> Hn]]; [by rewrite take_app_length|]. rewrite app_nil_r. by apply take_ge. }
  assert (find_int EQUALS (written f) 0 = Z.of_nat (length f.1)) as Eq.
  { unfold find_int, find_from. rewrite drop_0. unfold written. by rewrite find_char_cut by done. }
  assert (forall n, (0 < n)%nat -> (Z.of_nat n <=? 0) = false) as Hpos by lia.
  assert (forall t, tidy t -> (length t =? 0)%nat = false /\ (0 < length t)%nat) as Hne by (intros t (? & _); destruct t; [done|cbn; lia]).
  destruct (Hne _ Ht1) as [E1 Hl1]. destruct (Hne _ Ht2) as [E2 _].
  assert (trim (take (length f.1) (written f)) = f.1 /\ trim (drop (S (length f.1)) (written f)) = f.2) as [Ea Ev].
  { unfold written. rewrite take_app_length. rewrite (cons_middle EQUALS), app_assoc, (drop_app_length' (f.1 ++ [EQUALS])) by (rewrite length_app; cbn; lia).
    split; by apply tidy_trim. }
  destruct (length rest =? 0)%nat eqn:Er.
  - apply Nat.eqb_eq, nil_length_inv in Er as ->. change (0 <=? -1) with false. cbv iota. rewrite Hsub by (right; split; [done|rewrite app_nil_r, (length_app pre); lia]).
    rewrite written_trim by done. rewrite Eq, Hpos, Nat2Z.id, Ea, Ev, E1, E2 by done. cbn. by destruct (set_param _ _ _).
  - rewrite (proj2 (Z.leb_le 0 _)) by lia. rewrite Nat2Z.id, Hsub by (left; lia).
    rewrite written_trim by done. rewrite Eq, Hpos, Nat2Z.id, Ea, Ev, E1, E2 by done. cbn [orb].
    rewrite (proj2 (Z.ltb_lt 0 _)) by lia. unfold next.
    replace (S (length pre + length (written f))) with (length pre + length (written f) + 1)%nat by lia. by destruct (set_param _ _ _).
Qed.

(** The loop over fields: all of them are applied, unless the last is unknown. *)
Lemma parse_fields `{AceMinMax} f fs : forall fuel pre p, Forall field_ok (f :: fs) -> (0 < length pre)%nat -> (length fs < fuel)%nat ->
  parse_params fuel (pre ++ fields (f :: fs)) (length pre) p
  = Some (if known (default f (last fs)).1 then Some (foldl apply_param p (f :: fs)) else None).
Proof.
  revert f. induction fs as [|g fs IH]; intros f fuel pre p Hall Hpre Hf; apply Forall_cons in Hall as [Hok Hall]; (destruct fuel as [|fuel]; [lia|]).
  - cbn [fields]. pose proof (parse_field fuel pre f [] p Hok (or_introl eq_refl) Hpre) as E. rewrite app_nil_r in E. cbv zeta in E. rewrite E.
    cbn [length Nat.eqb last default foldl]. pose proof (set_param_known f.1 f.2 p) as Hk. unfold apply_param.
    destruct (set_param f.1 f.2 p) as [p'|]; [by rewrite (proj1 Hk)|]. destruct (known f.1); [|done]. by destruct (proj2 Hk eq_refl).
  - set (rest := fields (g :: fs)). change (fields (f :: g :: fs)) with (written f ++ COMMA :: rest).
    rewrite parse_field by (eauto || done). cbn [length Nat.eqb].
    assert (forall q, parse_params fuel (pre ++ written f ++ COMMA :: rest) (length pre + length (written f) + 1) q
      = Some (if known (default g (last fs)).1 then Some (foldl apply_param q (g :: fs)) else None)) as E.
    { intros q. replace (pre ++ written f ++ COMMA :: rest) with ((pre ++ written f ++ [COMMA]) ++ rest) by (by rewrite <- !app_assoc).
      replace (length pre + length (written f) + 1)%nat with (length (pre ++ written f ++ [COMMA])) by (rewrite !length_app; cbn; lia).
      apply IH; [done|rewrite length_app; lia|cbn [length] in Hf; lia]. }
    assert (default f (last (g :: fs)) = default g (last fs)) as ->.
    { destruct fs as [|h fs']; [done|]. rewrite last_cons_cons. destruct (last (h :: fs')) eqn:El; [done|by apply last_None in El]. }
    change (foldl apply_param p (f :: g :: fs)) with (foldl apply_param (apply_param p f) (g :: fs)).
    unfold apply_param at 2. destruct (set_param f.1 f.2 p); apply E.
Qed.

(** A configuration of a device and parameters gives the device's name and what the parameters set one after the other, the later ones over the
    earlier; but when the last is unknown the warning about it throws [std::out_of_range]. *)
Theorem configuration_applied `{AceMinMax} arg dev f fs p :
  trim_string arg DQUOTE = dev ++ COLON :: fields (f :: fs) -> (COLON ∉ dev) -> Forall field_ok (f :: fs) ->
  parse_config (S (length fs)) arg p
  = Some (if known (default f (last fs)).1 then Parsed (trim_string dev BACKSLASH) (foldl apply_param p (f :: fs)) else OutOfRange).
Proof.
  intros Et Hd Hall. unfold parse_config. rewrite Et. unfold find_int, find_from. rewrite drop_0, find_char_cut by done. cbn [fmap option_fmap option_map].
  rewrite (proj2 (Z.ltb_ge _ 0)) by lia. rewrite Nat2Z.id. change (0 + length dev)%nat with (length dev). rewrite (take_app_length dev).
  replace (dev ++ COLON :: fields (f :: fs)) with ((dev ++ [COLON]) ++ fields (f :: fs)) by (by rewrite <- app_assoc).
  replace (S (length dev)) with (length (dev ++ [COLON])) by (rewrite length_app; cbn; lia).
  rewrite (parse_fields f fs); [|done|rewrite (length_app dev); cbn; lia|lia]. cbn [fmap option_fmap option_map]. by destruct (known _).
Qed.

(** The flow control of data set ready, clear to send and data terminal ready, and the modem's, cannot be switched on: what a parameter says is
    overwritten, as an [else] is missing. *)
Theorem lines_always_off `{AceMinMax} val p p' :
  (set_param (str "odsr") val p = Some p' -> dsrenb p' = false) /\ (set_param (str "octs") val p = Some p' -> ctsenb p' = false)
  /\ (set_param (str "dtr") val p = Some p' -> dtrdisable p' = false) /\ (set_param (str "idsr") val p = Some p' -> dsrenb p' = false)
  /\ (set_param (str "modem") val p = Some p' -> modem p' = false).
Proof.
  repeat split; unfold set_param; cbv zeta;
    repeat match goal with
    | |- context [caseless_eq (str ?a) (str ?b)] =>
        let v := eval vm_compute in (caseless_eq (str a) (str b)) in change (caseless_eq (str a) (str b)) with v; cbv iota
    end; by intros [= <-].
Qed.

(** ** Examples *)

Definition defaults : serial_params := SerialParams 9600 ParityNone 8 1 10000 false false 0 0 false false false 0 false.

Definition plain_fields : list (text * text) := [(str "baud", str "115200"); (str "Parity", str "even"); (str "stop", str "2"); (str "rts", str "hs")].

Lemma tidy_by_check s : match s with [] => false | _ => negb (blank (char_at s 0)) && negb (blank (char_at s (length s - 1))) && forallb (fun c => negb (iscntrl c)) s end = true -> tidy s.
Proof.
  destruct s as [|x s]; [done|]. rewrite !andb_true_iff, !negb_true_iff, forallb_forall. intros [[H1 H2] H3]. split; [done|]. split; [done|]. split; [done|].
  intros c Hc. apply negb_true_iff, H3. by apply list_elem_of_In.
Qed.

Definition quoted (s : string) : text := DQUOTE :: str s ++ [DQUOTE].

Lemma configuration_applied_witness :
  parse_config (H := ace_min_max_std) 4 (quoted "/dev/ttyS0:baud=115200,Parity=even,stop=2,rts=hs") defaults
  = Some (Parsed (str "/dev/ttyS0") (SerialParams 115200 ParityEven 8 2 10000 false false 0 0 false false false 2 false)).
Proof.
  pose proof (configuration_applied (H := ace_min_max_std) (quoted "/dev/ttyS0:baud=115200,Parity=even,stop=2,rts=hs") (str "/dev/ttyS0")
    (str "baud", str "115200") (tail plain_fields) defaults) as E.
  cbn [plain_fields tail length] in E. rewrite E; [vm_compute; reflexivity|vm_compute; reflexivity|by apply (bool_decide_unpack _)|].
  repeat constructor; try (apply tidy_by_check; vm_compute; reflexivity); by apply (bool_decide_unpack _).
Defined.

(** A slip in the last name. *)
Lemma unknown_last_throws : parse_config (H := ace_min_max_std) 1 (str "/dev/ttyS0:buad=1200") defaults = Some OutOfRange.
Proof. vm_compute. reflexivity. Qed.
