(* ===== verification/TtyDevice.v ===== *)
(** * Terminal devices: TTY_Asynch/TTY_Device and TTY_Handler, opening and closing

    The options a device is started with, its time-outs, the bits of the modem's status, and the opening of the device with its handler's two
    streams.  What the system calls give is a parameter; the options are the sequence that ACE_Get_Opt finds. *)

From S2P Require Import Prelude CString Text TtyConfig.
From Stdlib Require Import Ascii.

(** ** The modem's status *)

(** The masks of the platform for CTS, DSR, RING and RLSD. *)
Record modem_masks := ModemMasks { MODEM_CTS_ON : Z; MODEM_DSR_ON : Z; MODEM_RING_ON : Z; MODEM_RLSD_ON : Z }.

Definition has (status mask : Z) : bool := negb (Z.land status mask =? 0).

(** TTY_Asynch/TTY_Device.cpp:89-93 [ModemStatus::CTS]. *)
Definition CTS (m : modem_masks) (status : Z) : bool := has status (MODEM_CTS_ON m).
(** TTY_Asynch/TTY_Device.cpp:95-99 [ModemStatus::DSR]. *)
Definition DSR (m : modem_masks) (status : Z) : bool := has status (MODEM_DSR_ON m).
(** TTY_Asynch/TTY_Device.cpp:101-105 [ModemStatus::RING]. *)
Definition RING (m : modem_masks) (status : Z) : bool := has status (MODEM_RING_ON m).
(** TTY_Asynch/TTY_Device.cpp:107-111 [ModemStatus::RLSD]. *)
Definition RLSD (m : modem_masks) (status : Z) : bool := has status (MODEM_RLSD_ON m).

Definition NEWLINE : ascii := ascii_of_nat 10.
Definition bit_text (b : bool) : text := if b then str "1" else str "0".

(** TTY_Asynch/TTY_Device.cpp:113-123 [operator_shl]. *)
Definition print_status (m : modem_masks) (status : Z) : text :=
  NEWLINE :: str "{CTS=" ++ bit_text (CTS m status) ++ str "}{DSR=" ++ bit_text (DSR m status) ++ str "}{RING=" ++ bit_text (RING m status) ++
  str "}{RLSD=" ++ bit_text (RLSD m status) ++ str "}" ++ [NEWLINE].

(** TTY_Asynch/TTY_Device.cpp:178-195 [TTY_Device::get_status]. [read]: what the control call gives, [None] when it fails. *)
Definition get_status (read : option Z) : Z := default 0 read.

(** ** Time-outs *)

Section device.
Context `{AceMinMax}.

Definition TTY_MIN_TIMEOUT_MSEC : Z := 1.
Definition TTY_MAX_TIMEOUT_MSEC : Z := 500.

(** TTY_Asynch/TTY_Device.cpp:71-74 [TTY_IO_TIMEOUT]. [tenths]: ten times the spacing, 50 or 15.  The division is of doubles, cut to an int; for rates between 1
    and 256000 the quotient of integers is the same. *)
Definition TTY_IO_TIMEOUT (baudrate tenths : Z) : Z := ace_range TTY_MIN_TIMEOUT_MSEC TTY_MAX_TIMEOUT_MSEC (Z.quot (tenths * 1000) baudrate).

(** ** Options *)

(** What ACE_Get_Opt finds, in order. *)
Inductive found := Opt_a (address : text) | Opt_z (level : option text) | Opt_help | Opt_unknown.

(** TTY_Asynch/TTY_Device.cpp:355-360 [TTY_Device::parse_args]. *)
Definition debug_level (level : option text) : Z :=
  match level with
  | Some l => if isdigit (char_at l 0) then ace_range 1 10 (atoi l) else 1
  | None => 1
  end.

(** TTY_Asynch/TTY_Device.cpp:335-375 [TTY_Device::parse_args]. The address and the debug level when the options are used up; usage texts are left out. *)
Fixpoint parse_options (opts : list found) (config : text) (debug : Z) : text * Z :=
  match opts with
  | [] => (config, debug)
  | Opt_a address :: opts => parse_options opts (c_str address) debug
  | Opt_z level :: opts => parse_options opts config (debug_level level)
  | _ :: opts => parse_options opts config debug
  end.

(** TTY_Asynch/TTY_Device.cpp:377-386 [TTY_Device::init]. *)
Definition device_init (fuel : nat) (opts : list found) (config : text) (p : serial_params) : option (parsed * Z) :=
  let '(config, debug) := parse_options opts config 0 in
  (fun r => (r, match r with Parsed _ _ => debug | _ => -1 end)) <$> parse_config fuel config p.

(** ** Opening and closing *)

(** TTY_Asynch/TTY_Device.h:41-50 [TTY_Device]. With the handle and what its handler has open. *)
Record device := Device { handle_open : bool; device_active_ : bool; write_open : bool; read_open : bool; handler_active : bool; svc_threads : Z; rd_timeout : Z }.

Definition closed_device : device := Device false false false false false 0 0.

(** TTY_Asynch/TTY_Handler.cpp:60-74 [TTY_Handler::open]. [writes], [reads]: the streams can be opened; [execute]: the result of starting the thread. *)
Definition handler_open (writes reads : bool) (execute : Z) (d : device) : device * Z :=
  if writes then
    let d := Device (handle_open d) (device_active_ d) true (read_open d) (handler_active d) (svc_threads d) (rd_timeout d) in
    if reads then
      (Device (handle_open d) (device_active_ d) true true true (svc_threads d + (if execute =? 0 then 1 else 0)) (rd_timeout d), execute)
    else (d, -1)
  else (d, -1).

(** TTY_Asynch/TTY_Device.cpp:388-432 [TTY_Device::open]. [opened]: the device can be opened; [control]: the parameters are accepted. *)
Definition device_open (opened control writes reads : bool) (execute baudrate : Z) (d : device) : device * Z :=
  let d := Device opened (device_active_ d) (write_open d) (read_open d) (handler_active d) (svc_threads d) (rd_timeout d) in
  if opened then
    let d := Device opened (device_active_ d) (write_open d) (read_open d) (handler_active d) (svc_threads d) (TTY_IO_TIMEOUT baudrate 50) in
    if control then
      handler_open writes reads execute (Device opened true (write_open d) (read_open d) (handler_active d) (svc_threads d) (rd_timeout d))
    else (d, -1)
  else (d, -1).

(** TTY_Asynch/TTY_Handler.cpp:76-91 [TTY_Handler::close]. *)
Definition handler_close (flags : Z) (d : device) : device :=
  if flags =? 0 then d else Device (handle_open d) (device_active_ d) false false false (svc_threads d) (rd_timeout d).

(** TTY_Asynch/TTY_Device.cpp:434-442 [TTY_Device::close]. module_closed() closes the handler with a flag that is not 0. *)
Definition device_close (flags : Z) (d : device) : device :=
  if flags =? 0 then d
  else handler_close 1 (Device (handle_open d) false (write_open d) (read_open d) (handler_active d) (svc_threads d) (rd_timeout d)).

(** What the proactor's event loop does when it is run. *)
Inductive loop_end := LoopReturns | LoopThrows.

(** TTY_Asynch/TTY_Handler.cpp:145-159 [TTY_Handler::svc]. The rounds that are left, and how many times the loop was run; the handler is not active behind it. *)
Fixpoint svc_rounds (n : nat) (is_active : bool) (ends : list loop_end) : nat :=
  match n with
  | O => 0
  | S n => if is_active then match ends with LoopThrows :: ends => S (svc_rounds n is_active ends) | _ => 1 end else 0
  end.
Definition PROACTOR_RUN_RETRY : nat := 2.

(** ** What they do *)

Lemma timeout_bounds `{!AceMinMaxLaws} baudrate tenths : 1 <= TTY_IO_TIMEOUT baudrate tenths <= 500.
Proof. unfold TTY_IO_TIMEOUT, TTY_MIN_TIMEOUT_MSEC, TTY_MAX_TIMEOUT_MSEC. rewrite ace_range_spec. lia. Qed.

(** The time-out is that of five characters of ten bits, in milliseconds, where that is between the bounds. *)
Lemma timeout_of_five `{!AceMinMaxLaws} baudrate : 100 <= baudrate <= 50000 ->
  TTY_IO_TIMEOUT baudrate 50 * baudrate <= 5 * 10 * 1000 < (TTY_IO_TIMEOUT baudrate 50 + 1) * baudrate.
Proof.
  intros Hb. unfold TTY_IO_TIMEOUT, TTY_MIN_TIMEOUT_MSEC, TTY_MAX_TIMEOUT_MSEC. rewrite ace_range_spec. rewrite Z.quot_div_nonneg by lia.
  pose proof (Z.div_mod (50 * 1000) baudrate ltac:(lia)). pose proof (Z.mod_pos_bound (50 * 1000) baudrate ltac:(lia)).
  assert (1 <= 50 * 1000 / baudrate <= 500) by (split; [apply Z.div_le_lower_bound|apply Z.div_le_upper_bound]; lia). nia.
Qed.

(** The bits of the status are those that were put in, where the masks are single bits. *)
Lemma status_bits m bits : (forall x, x ∈ [MODEM_CTS_ON m; MODEM_DSR_ON m; MODEM_RING_ON m; MODEM_RLSD_ON m] -> exists k, 0 <= k /\ x = 2 ^ k) ->
  forall x, x ∈ [MODEM_CTS_ON m; MODEM_DSR_ON m; MODEM_RING_ON m; MODEM_RLSD_ON m] -> has (Z.lor bits x) x = true /\
  forall y, y ∈ [MODEM_CTS_ON m; MODEM_DSR_ON m; MODEM_RING_ON m; MODEM_RLSD_ON m] -> y <> x -> has (Z.lor bits x) y = has bits y.
Proof.
  assert (forall s k, 0 <= k -> has s (2 ^ k) = Z.testbit s k) as Hh.
  { intros s k Hk. unfold has. destruct (Z.eqb_spec (Z.land s (2 ^ k)) 0) as [E|E].
    - symmetry. apply (f_equal (fun z => Z.testbit z k)) in E. rewrite Z.land_spec, Z.pow2_bits_true, Z.bits_0, andb_true_r in E by done. done.
    - destruct (Z.testbit s k) eqn:Et; [done|]. exfalso. apply E. apply Z.bits_inj'. intros n Hn. rewrite Z.land_spec, Z.bits_0. destruct (decide (n = k)) as [->|Hne].
      + by rewrite Et.
      + by rewrite Z.pow2_bits_false, andb_false_r by congruence. }
  intros Hp x Hx. destruct (Hp x Hx) as (k & Hk & ->). split.
  - rewrite Hh, Z.lor_spec, Z.pow2_bits_true by done. apply orb_true_r.
  - intros y Hy Hne. destruct (Hp y Hy) as (j & Hj & ->). rewrite !Hh, Z.lor_spec, Z.pow2_bits_false by (done || congruence). apply orb_false_r.
Qed.

(** The last address and the last debug level count. *)
Lemma last_options opts address level config debug : parse_options (opts ++ [Opt_a address; Opt_z level]) config debug = (c_str address, debug_level level).
Proof. revert config debug. induction opts as [|[]]; intros; cbn; auto. Qed.

(** A device that was opened is active with both streams and a thread, and closing it ends all of that but for the handle. *)
Lemma opened_then_closed baudrate flags d d' : flags <> 0 -> device_open true true true true 0 baudrate d = (d', 0) ->
  (device_active_ d' && handler_active d' && write_open d' && read_open d' = true) /\ svc_threads d' = svc_threads d + 1 /\
  let c := device_close flags d' in device_active_ c || handler_active c || write_open c || read_open c = false /\ handle_open c = true.
Proof. intros Hf%Z.eqb_neq. unfold device_open, handler_open. cbn. intros [= <-]. cbn. unfold device_close. by rewrite Hf. Qed.

(** When the handler cannot be opened the device says that it failed and is active all the same; a write stream that was opened stays so. *)
Lemma failed_handler_stays_active writes baudrate d : let '(d', r) := device_open true true writes false 0 baudrate d in
  r = -1 /\ device_active_ d' = true /\ (writes = true -> write_open d' = true).
Proof. unfold device_open, handler_open. cbn. by destruct writes. Qed.

(** When the parameters are refused the handle stays open, and the next open forgets it. *)
Lemma refused_parameters_leak writes reads execute baudrate d : let '(d', r) := device_open true false writes reads execute baudrate d in r = -1 /\ handle_open d' = true.
Proof. done. Qed.

(** The event loop is run again after an exception, but once only. *)
Lemma svc_twice ends : svc_rounds PROACTOR_RUN_RETRY true (LoopThrows :: LoopThrows :: ends) = 2%nat /\ svc_rounds PROACTOR_RUN_RETRY true (LoopReturns :: ends) = 1%nat.
Proof. done. Qed.
End device.
