(* ===== verification/Dds.v ===== *)
(** * Shared entities of a publisher: TAF/dds/DDSManagedType_T, DDSPubSub

    Participants, types and topics are shared: a factory keeps a map from keys to the holders of those that
    are in use, counts the references to a holder, and takes it out of the map and destroys the entity
    when the last reference is gone.  Requests and the removal hold the factory's lock; the count of a holder
    has a lock of its own, so that between the last release and the removal others may come.  The moves of
    the threads are an executable function of a choice.  What DDS gives is part of the choice; a key is a
    hash, ACE's, of the text that names the entity. *)

From S2P Require Import Prelude CString.
From Stdlib Require Import Ascii.

Abbreviation text := (list ascii).
Abbreviation loc := nat.

(** ** Holders *)

Section home.
Context {I K : Type} `{EqDecision I, Countable K} (key : I -> K).

(** TAF/dds/DDSManagedType_T.h:49-67 [DDS_Domain_holder::DDS_holder]. [made_for]: what it was requested with. *)
Record holder := Holder { made_for : I; count_ : nat }.

(** TAF/dds/DDSManagedType_T.h:35-91 [DDS_Domain_holder]. With the holders that exist, the references of the clients, the holders whose last
    reference is gone but that are still in the map, and those taken out of it that are still to be deleted. *)
Record factory := Factory {
  home : gmap K loc;
  holders : gmap loc holder;
  held : list loc;
  removing : list loc;
  deleting : list loc;
  fresh : loc;
}.

(** What DDS does when an entity is created: its default QoS is there, and the entity is. *)
Record dds_answer := Answer { qos_ok : bool; entity_ok : bool }.

(** TAF/dds/DDSManagedType_T.h:93-101 [DDS_Domain_holder::locate_holder]. And [RefCount::_add_ref]: the count of a holder that is being
    removed is zero. *)
Definition locate_holder (k : K) (s : factory) : factory * result loc :=
  match home s !! k with
  | None => (s, Throw NotFoundException)
  | Some l =>
      match holders s !! l with
      | Some h =>
          if (0 <? count_ h)%nat then
            (Factory (home s) (<[l := Holder (made_for h) (S (count_ h))]> (holders s)) (l :: held s) (removing s) (deleting s) (fresh s), Ok l)
          else (s, Throw ObjectNotExistException)
      | None => (s, Throw ObjectNotExistException)
      end
  end.

(** TAF/dds/DDSManagedType_T.h:103-113 [DDS_Domain_holder::create_holder]. The new holder's reference is the client's. *)
Definition create_holder (i : I) (s : factory) : factory * result loc :=
  match home s !! key i with
  | Some _ => (s, Throw ObjectNotExistException)
  | None =>
      (Factory (<[key i := fresh s]> (home s)) (<[fresh s := Holder i 1]> (holders s)) (fresh s :: held s) (removing s) (deleting s) (S (fresh s)),
       Ok (fresh s))
  end.

(** TAF/dds/DDSPubSub.cpp:255-280 [DDS_Topic_factory::create_topic]. From the lock on; participants (lines 178-202) and types (lines 309-317) are
    created the same way, a type without asking DDS. *)
Definition create (i : I) (dds : dds_answer) (s : factory) : factory * result loc :=
  match locate_holder (key i) s with
  | (s, Throw NotFoundException) =>
      if negb (qos_ok dds) then (s, Throw InitializationException)
      else if negb (entity_ok dds) then (s, Throw ObjectNotExistException)
      else create_holder i s
  | r => r
  end.

(** daf/RefCount.cpp:57-77 [RefCount::_remove_ref]. Of the client's reference number [j]; after the last one the holder is to be removed. *)
Definition drop_ref (j : nat) (s : factory) : option factory :=
  l ← held s !! j;
  h ← holders s !! l;
  let n := (count_ h - 1)%nat in
  Some (Factory (home s) (<[l := Holder (made_for h) n]> (holders s)) (base.delete j (held s))
          (if (n =? 0)%nat then l :: removing s else removing s) (deleting s) (fresh s)).

(** TAF/dds/DDSManagedType_T.h:115-125 [DDS_Domain_holder::remove_holder]. By the thread that released holder number [j] of those to be removed, whichever
    comes to it first; the holder is in the map under one key. *)
Definition remove_holder (j : nat) (s : factory) : option factory :=
  l ← removing s !! j;
  Some (Factory (filter (fun e => snd e <> l) (home s)) (holders s) (held s) (base.delete j (removing s)) (l :: deleting s) (fresh s)).

(** TAF/dds/DDSManagedType_T.h:63-66 [DDS_Domain_holder::DDS_holder::__remove]. The deletion behind the removal, with the entity's, of number [j] of
    those that have been removed. *)
Definition delete_holder (j : nat) (s : factory) : option factory :=
  l ← deleting s !! j;
  Some (Factory (home s) (base.delete l (holders s)) (held s) (removing s) (base.delete j (deleting s)) (fresh s)).

(** A move: a request, the release of a reference, the removal and the deletion of a holder.  What a request gives. *)
Inductive choice :=
| CCreate (i : I) (dds : dds_answer)
| CDrop (j : nat)
| CRemove (j : nat)
| CDelete (j : nat).

Definition next (c : choice) (s : factory) : option (factory * option (result loc)) :=
  match c with
  | CCreate i dds => let '(s, r) := create i dds s in Some (s, Some r)
  | CDrop j => (fun s => (s, None)) <$> drop_ref j s
  | CRemove j => (fun s => (s, None)) <$> remove_holder j s
  | CDelete j => (fun s => (s, None)) <$> delete_holder j s
  end.

Inductive step (s s' : factory) : Prop :=
| step_next c r : next c s = Some (s', r) -> step s s'.

Definition start : factory := Factory ∅ ∅ [] [] [] 0%nat.

Definition reachable (s : factory) : Prop := rtc step start s.

(** ** What the factory keeps *)

(** How many references a holder has. *)
Definition refs_to (l : loc) (ls : list loc) : nat := length (filter (fun x => x = l) ls).

(** A holder that is going. *)
Definition going (l : loc) (s : factory) : Prop := l ∈ removing s \/ l ∈ deleting s.

Record fok (s : factory) : Prop := {
  fk_home : forall k l, home s !! k = Some l -> exists h, holders s !! l = Some h /\ key (made_for h) = k /\ l ∉ deleting s;
  fk_count : forall l h, holders s !! l = Some h -> count_ h = refs_to l (held s);
  fk_live : forall l h, holders s !! l = Some h -> ~ going l s -> (0 < count_ h)%nat /\ home s !! key (made_for h) = Some l;
  fk_removing : forall l, l ∈ removing s -> exists h, holders s !! l = Some h /\ count_ h = 0%nat /\ home s !! key (made_for h) = Some l;
  fk_deleting : forall l, l ∈ deleting s -> exists h, holders s !! l = Some h /\ count_ h = 0%nat;
  fk_held : forall l, l ∈ held s -> is_Some (holders s !! l);
  fk_nodup : NoDup (removing s ++ deleting s);
  fk_fresh : forall l, is_Some (holders s !! l) -> (l < fresh s)%nat;
}.

Lemma refs_to_cons l x ls : refs_to l (x :: ls) = (if decide (x = l) then S (refs_to l ls) else refs_to l ls).
Proof. unfold refs_to. rewrite filter_cons. by destruct (decide (x = l)). Qed.

Lemma refs_to_pos l ls : (0 < refs_to l ls)%nat <-> (l ∈ ls).
Proof.
  induction ls as [|x ls IH]; [cbn; split; [lia|by intros ?%elem_of_nil]|]. rewrite refs_to_cons, elem_of_cons.
  destruct (decide (x = l)) as [->|Hx]; [split; [by left|lia]|]. rewrite IH. split; [by right|by intros [|]].
Qed.

Lemma refs_to_delete l j x ls : ls !! j = Some x -> refs_to l ls = refs_to l (x :: base.delete j ls).
Proof. intros Hj. unfold refs_to. by rewrite (delete_Permutation ls j x Hj) at 1. Qed.

Lemma start_ok : fok start.
Proof. split; cbn; try done; try (intros; by destruct (lookup_empty_Some _ _ H)); try (by intros ? ?%elem_of_nil); try constructor. all: try (intros ? []; done). Qed.

(** A reference more to a holder that is not going. *)
Lemma locate_ok k s s' r : fok s -> locate_holder k s = (s', r) ->
  fok s' /\ match r with
            | Ok l => home s !! k = Some l /\ l ∈ held s' /\ home s' = home s /\ (exists h, holders s !! l = Some h /\ key (made_for h) = k /\ (0 < count_ h)%nat)
            | Throw e => s' = s /\ (e = NotFoundException <-> home s !! k = None)
            end.
Proof.
  intros Hok. pose proof Hok as [Hh Hc Hl Hr Hd Hhe Hn Hf]. unfold locate_holder. destruct (home s !! k) as [l|] eqn:Ek; [|by intros [= <- <-]].
  destruct (Hh k l Ek) as (h & Eh & Hk & Hdel). rewrite Eh. destruct (Nat.ltb_spec 0 (count_ h)) as [Hpos|]; [|by intros [= <- <-]]. intros [= <- <-].
  assert (l ∉ removing s) as Hrem by (intros Hin; destruct (Hr l Hin) as (h' & Eh' & ? & _); rewrite Eh in Eh'; injection Eh' as <-; lia).
  split; [|split; [done|]; split; [by left|]; split; [done|]; by exists h]. split; cbn [home holders held removing deleting fresh].
  - intros k' l' E'. destruct (Hh k' l' E') as (h' & Eh' & ? & ?). destruct (decide (l' = l)) as [->|].
    + rewrite Eh in Eh'. injection Eh' as <-. rewrite lookup_insert_eq. by eexists.
    + rewrite lookup_insert_ne by done. by exists h'.
  - intros l' h'. rewrite refs_to_cons. destruct (decide (l = l')) as [<-|Hne]; [rewrite lookup_insert_eq; intros [= <-]; cbn; by rewrite (Hc l h Eh)|].
    rewrite lookup_insert_ne by done. apply Hc.
  - intros l' h'. destruct (decide (l = l')) as [<-|Hne]; [rewrite lookup_insert_eq; intros [= <-] _; cbn; split; [lia|]; by rewrite Hk|].
    rewrite lookup_insert_ne by done. apply Hl.
  - intros l' Hin. assert (l <> l') by (intros ->; done). rewrite lookup_insert_ne by done. by apply Hr.
  - intros l' Hin. assert (l <> l') by (intros ->; done). rewrite lookup_insert_ne by done. by apply Hd.
  - intros l' [->|Hin]%elem_of_cons; [rewrite lookup_insert_eq; by eexists|]. apply lookup_insert_is_Some'. right. by apply Hhe.
  - done.
  - intros l' [<-|Hs]%lookup_insert_is_Some'; [by apply Hf|by apply Hf].
Qed.

(** A new holder. *)
Lemma create_holder_ok i s s' r : fok s -> home s !! key i = None -> create_holder i s = (s', r) ->
  fok s' /\ r = Ok (fresh s) /\ fresh s ∈ held s' /\ home s' = <[key i := fresh s]> (home s) /\ holders s' !! fresh s = Some (Holder i 1).
Proof.
  intros Hok En. pose proof Hok as [Hh Hc Hl Hr Hd Hhe Hn Hf]. unfold create_holder. rewrite En. intros [= <- <-].
  assert (holders s !! fresh s = None) as Hfr by (destruct (holders s !! fresh s) eqn:E; [|done]; assert (fresh s < fresh s)%nat by (apply Hf; by eexists); lia).
  split; [|split; [done|]; split; [by left|]; split; [done|]; apply lookup_insert_eq]. split; cbn [home holders held removing deleting fresh].
  - intros k' l' [[<- <-]|[Hk E']]%lookup_insert_Some.
    + rewrite lookup_insert_eq. eexists. split; [done|]. split; [done|]. intros Hin. destruct (Hd _ Hin) as (? & E & _). congruence.
    + destruct (Hh k' l' E') as (h' & Eh' & ? & ?). exists h'. rewrite lookup_insert_ne by congruence. done.
  - intros l' h'. rewrite refs_to_cons. destruct (decide (fresh s = l')) as [<-|Hne]; [|rewrite lookup_insert_ne by done; apply Hc].
    rewrite lookup_insert_eq. intros [= <-]. cbn. f_equal. destruct (refs_to (fresh s) (held s)) eqn:E; [done|].
    destruct (Hhe (fresh s)) as [h Eh]; [apply refs_to_pos; lia|congruence].
  - intros l' h' E Hgo. destruct (decide (fresh s = l')) as [<-|Hne]; [rewrite lookup_insert_eq in E; injection E as <-; cbn; split; [lia|apply lookup_insert_eq]|].
    rewrite lookup_insert_ne in E by done. destruct (Hl l' h' E Hgo) as [? E']. split; [done|]. rewrite lookup_insert_ne by congruence. done.
  - intros l' Hin. destruct (Hr l' Hin) as (h & Eh & ? & E'). exists h. rewrite lookup_insert_ne by congruence. rewrite lookup_insert_ne by congruence. done.
  - intros l' Hin. destruct (Hd l' Hin) as (h & Eh & ?). exists h. rewrite lookup_insert_ne by congruence. done.
  - intros l' [->|Hin]%elem_of_cons; [rewrite lookup_insert_eq; by eexists|]. apply lookup_insert_is_Some'. right. by apply Hhe.
  - done.
  - intros l' [<-|Hs]%lookup_insert_is_Some'; [lia|]. specialize (Hf _ Hs). lia.
Qed.

Lemma create_ok i dds s s' r : fok s -> create i dds s = (s', r) ->
  fok s' /\ match r with
            | Ok l => l ∈ held s' /\ home s' !! key i = Some l /\ exists h, holders s' !! l = Some h /\ key (made_for h) = key i
            | Throw e => s' = s
            end.
Proof.
  intros Hok. unfold create. destruct (locate_holder (key i) s) as [s1 r1] eqn:E. destruct (locate_ok _ _ _ _ Hok E) as [Hok1 Hr].
  destruct r1 as [l|e].
  - intros [= <- <-]. split; [done|]. destruct Hr as (Eh & Hin & Ehm & (h & _ & _ & _)). split; [done|]. rewrite Ehm. split; [done|].
    rewrite <- Ehm in Eh. destruct (fk_home _ Hok1 _ _ Eh) as (h1 & ? & ? & _). by exists h1.
  - destruct Hr as [-> He]. destruct e; try (intros [= <- <-]; done). destruct (qos_ok dds); [|by intros [= <- <-]].
    destruct (entity_ok dds); [|by intros [= <- <-]]. cbn [negb]. intros Hc.
    destruct (create_holder_ok i s s' r Hok) as (? & -> & ? & Ehm & Eh); [by apply He|done|].
    split; [done|]. split; [done|]. split; [rewrite Ehm; apply lookup_insert_eq|]. by eexists.
Qed.

Lemma drop_ok j s s' : fok s -> drop_ref j s = Some s' -> fok s'.
Proof.
  intros Hok. pose proof Hok as [Hh Hc Hl Hr Hd Hhe Hn Hf]. unfold drop_ref. destruct (held s !! j) as [l|] eqn:Ej; [|done]. cbn.
  destruct (holders s !! l) as [h|] eqn:Eh; [|done]. cbn. intros [= <-].
  pose proof (refs_to_delete l j l (held s) Ej) as Ed. rewrite refs_to_cons, decide_True in Ed by done. rewrite <- (Hc l h Eh) in Ed.
  assert (~ going l s) as Hgo.
  { intros [Hin|Hin]; [destruct (Hr l Hin) as (h' & E & ? & _)|destruct (Hd l Hin) as (h' & E & ?)]; rewrite Eh in E; injection E as <-; lia. }
  destruct (Hl l h Eh Hgo) as [Hpos Ehome]. unfold going in Hgo.
  assert (forall x, x ∈ (if (count_ h - 1 =? 0)%nat then l :: removing s else removing s) <-> (x = l /\ count_ h = 1%nat) \/ x ∈ removing s) as Hrem.
  { intros x. destruct (Nat.eqb_spec (count_ h - 1) 0); [rewrite elem_of_cons|]; split; intros; intuition lia. }
  split; cbn [home holders held removing deleting fresh].
  - intros k' l' E'. destruct (Hh k' l' E') as (h' & Eh' & ? & ?). destruct (decide (l = l')) as [<-|].
    + rewrite Eh in Eh'. injection Eh' as <-. rewrite lookup_insert_eq. by eexists.
    + rewrite lookup_insert_ne by done. by exists h'.
  - intros l' h'. destruct (decide (l = l')) as [<-|Hne]; [rewrite lookup_insert_eq; intros [= <-]; cbn; lia|].
    rewrite lookup_insert_ne by done. intros E'. rewrite (Hc l' h' E'), (refs_to_delete l' j l (held s) Ej), refs_to_cons, decide_False by done. done.
  - intros l' h' E' Hg'. unfold going in Hg'. cbn [removing deleting] in Hg'. rewrite Hrem in Hg'. destruct (decide (l = l')) as [<-|Hne].
    + rewrite lookup_insert_eq in E'. injection E' as <-. cbn. split; [|done]. destruct (Nat.eq_dec (count_ h) 1); [tauto|lia].
    + rewrite lookup_insert_ne in E' by done. apply Hl; [done|]. unfold going. tauto.
  - intros l' [[-> Hone]|Hin]%Hrem; [rewrite lookup_insert_eq; eexists; split; [done|]; cbn; split; [lia|done]|].
    assert (l <> l') by (intros ->; tauto). rewrite lookup_insert_ne by done. by apply Hr.
  - intros l' Hin. assert (l <> l') by (intros ->; tauto). rewrite lookup_insert_ne by done. by apply Hd.
  - intros l' Hin. apply lookup_insert_is_Some'. right. apply Hhe. rewrite (delete_Permutation _ _ _ Ej). by right.
  - destruct (count_ h - 1 =? 0)%nat; [|done]. cbn. constructor; [|done]. rewrite elem_of_app. tauto.
  - intros l' [<-|Hs]%lookup_insert_is_Some'; [apply Hf; by eexists|by apply Hf].
Qed.

(** One of a list, and the others. *)
Lemma taken_out (j : nat) (l : loc) ls : ls !! j = Some l -> (forall x, x ∈ ls <-> x = l \/ x ∈ base.delete j ls) /\ ls ≡ₚ l :: base.delete j ls.
Proof. intros Hj. pose proof (delete_Permutation ls j l Hj) as Hp. split; [|done]. intros x. rewrite <- elem_of_cons, !list_elem_of_In.
  split; apply Permutation_in; [done|by symmetry].
Qed.

Lemma remove_ok j s s' : fok s -> remove_holder j s = Some s' -> fok s'.
Proof.
  intros Hok. pose proof Hok as [Hh Hc Hl Hr Hd Hhe Hn Hf]. unfold remove_holder. destruct (removing s !! j) as [l|] eqn:Ej; [|done]. intros [= <-].
  destruct (taken_out j l _ Ej) as [Hin Hp]. rewrite Hp in Hn. set (ls := base.delete j (removing s)) in *.
  cbn in Hn. apply NoDup_cons in Hn as [Hnl Hn]. rewrite elem_of_app in Hnl.
  destruct (Hr l) as (h & Eh & E0 & _); [apply Hin; by left|].
  assert (forall k x, filter (fun e : K * loc => e.2 <> l) (home s) !! k = Some x <-> home s !! k = Some x /\ x <> l) as Hflt by (intros; apply map_lookup_filter_Some).
  split; cbn [home holders held removing deleting fresh].
  - intros k' l' [E' Hne]%Hflt. destruct (Hh k' l' E') as (h' & ? & ? & ?). exists h'. split; [done|]. split; [done|]. rewrite elem_of_cons. tauto.
  - done.
  - intros l' h' E' Hgo. unfold going in Hgo. cbn [removing deleting] in Hgo. rewrite elem_of_cons in Hgo.
    destruct (Hl l' h' E') as [? E'']; [unfold going; rewrite Hin; tauto|]. split; [done|]. apply Hflt. split; [done|]. intros ->. tauto.
  - intros l' Hin'. destruct (Hr l') as (h' & ? & ? & E'); [apply Hin; by right|]. exists h'. split; [done|]. split; [done|]. apply Hflt. split; [done|]. intros ->. tauto.
  - intros l' [->|Hin']%elem_of_cons; [by exists h|by apply Hd].
  - done.
  - rewrite <- Permutation_middle. constructor; [|done]. rewrite elem_of_app. tauto.
  - done.
Qed.

Lemma delete_ok j s s' : fok s -> delete_holder j s = Some s' -> fok s'.
Proof.
  intros Hok. pose proof Hok as [Hh Hc Hl Hr Hd Hhe Hn Hf]. unfold delete_holder. destruct (deleting s !! j) as [l|] eqn:Ej; [|done]. intros [= <-].
  destruct (taken_out j l _ Ej) as [Hin Hp]. rewrite Hp in Hn. set (ls := base.delete j (deleting s)) in *.
  assert ((l ∉ removing s) /\ (l ∉ ls)) as [Hnr Hnl].
  { apply NoDup_app in Hn as (_ & Hx & Hn). apply NoDup_cons in Hn as [? _]. split; [|done]. intros Hx'. apply (Hx l Hx'). by left. }
  destruct (Hd l) as (h & Eh & E0); [apply Hin; by left|].
  split; cbn [home holders held removing deleting fresh].
  - intros k' l' E'. destruct (Hh k' l' E') as (h' & ? & ? & Hx). rewrite Hin in Hx. exists h'. rewrite lookup_delete_ne by (intros ->; tauto). tauto.
  - intros l' h' [_ E']%lookup_delete_Some. by apply Hc.
  - intros l' h' [Hne E']%lookup_delete_Some Hgo. apply Hl; [done|]. unfold going in *. cbn [removing deleting] in Hgo. rewrite Hin. intros [?|[?|?]]; [tauto|congruence|tauto].
  - intros l' Hx. destruct (Hr l' Hx) as (h' & ? & ?). exists h'. rewrite lookup_delete_ne by (intros ->; done). done.
  - intros l' Hx. destruct (Hd l') as (h' & ? & ?); [apply Hin; by right|]. exists h'. rewrite lookup_delete_ne by (intros ->; done). done.
  - intros l' Hx. destruct (Hhe l' Hx) as [h' E']. exists h'. rewrite lookup_delete_ne; [done|]. intros ->. apply refs_to_pos in Hx.
    rewrite <- (Hc _ _ E') in Hx. rewrite Eh in E'. injection E' as ->. lia.
  - apply NoDup_app in Hn as (? & Hx & Hn'). apply NoDup_cons in Hn' as [_ ?]. apply NoDup_app. split; [done|]. split; [|done]. intros x Hi Hi'. apply (Hx x Hi). by right.
  - intros l' [h' [_ E']%lookup_delete_Some]. apply Hf. by eexists.
Qed.

Lemma fok_reachable s : reachable s -> fok s.
Proof.
  apply rtc_ind_r; [apply start_ok|]. intros s1 s2 _ [c r E] Hok. destruct c as [i dds|j|j|j]; cbn in E.
  - destruct (create i dds s1) as [s3 r3] eqn:Ec. injection E as <- <-. apply (create_ok _ _ _ _ _ Hok Ec).
  - destruct (drop_ref j s1) eqn:Ed; [|done]. injection E as <- <-. by apply (drop_ok j s1).
  - destruct (remove_holder j s1) eqn:Ed; [|done]. injection E as <- <-. by apply (remove_ok j s1).
  - destruct (delete_holder j s1) eqn:Ed; [|done]. injection E as <- <-. by apply (delete_ok j s1).
Qed.

(** What no thread uses is not kept: the destructor's assertion that the map is empty. *)
Lemma unused_is_gone s : fok s -> held s = [] -> removing s = [] -> deleting s = [] -> home s = ∅ /\ holders s = ∅.
Proof.
  intros Hok Eh Er Ed. assert (holders s = ∅) as Hs.
  { apply map_empty. intros l. destruct (holders s !! l) as [h|] eqn:E; [|done]. exfalso.
    destruct (fk_live _ Hok l h E) as [Hp _]; [unfold going; rewrite Er, Ed; intros [Hx|Hx]; by apply elem_of_nil in Hx|].
    rewrite (fk_count _ Hok l h E), Eh in Hp. cbn in Hp. lia. }
  split; [|done]. apply map_empty. intros k. destruct (home s !! k) as [l|] eqn:E; [|done].
  destruct (fk_home _ Hok k l E) as (h & Eh' & _). by rewrite Hs, lookup_empty in Eh'.
Qed.

(** A holder that is referenced is the one its key gives. *)
Lemma held_is_home s l h : fok s -> l ∈ held s -> holders s !! l = Some h -> home s !! key (made_for h) = Some l.
Proof.
  intros Hok Hin E. destruct (decide (count_ h = 0%nat)) as [E0|E0].
  - apply refs_to_pos in Hin. rewrite <- (fk_count _ Hok l h E) in Hin. lia.
  - apply (fk_live _ Hok l h E). intros [Hg|Hg].
    + destruct (fk_removing _ Hok l Hg) as (h' & E' & ? & _). rewrite E in E'. by injection E' as <-.
    + destruct (fk_deleting _ Hok l Hg) as (h' & E' & ?). rewrite E in E'. by injection E' as <-.
Qed.

(** A request that DDS grants fails only while the key's last holder is on its way out of the map. *)
Lemma create_fails_dying i s s' e : fok s -> create i (Answer true true) s = (s', Throw e) ->
  e = ObjectNotExistException /\ exists l, home s !! key i = Some l /\ l ∈ removing s.
Proof.
  intros Hok. unfold create, locate_holder. destruct (home s !! key i) as [l|] eqn:Ek; [|unfold create_holder; cbn; by rewrite Ek].
  destruct (fk_home _ Hok _ _ Ek) as (h & Eh & Hk & Hdel). rewrite Eh. destruct (Nat.ltb_spec 0 (count_ h)) as [|H0]; [done|].
  intros [= <- <-]. split; [done|]. exists l. split; [done|]. destruct (decide (l ∈ removing s)) as [|Hn]; [done|].
  destruct (fk_live _ Hok l h Eh) as [? _]; [intros [?|?]; done|lia].
Qed.

(** C19 (safety). Whatever order threads request entities, release them, and run the removals and the deletions of the holders that are going in, a request that succeeds gets a holder
    that exists, is referenced and has the request's key, and every reference with that key is to this holder; a holder's
    count is the number of references to it, so that none is destroyed while it is used; a request that DDS grants fails only while
    the key's last holder is on its way out of the map; and when no thread holds or removes anything the map is empty. *)
Theorem holders_shared s : reachable s ->
  (forall i dds s' l, create i dds s = (s', Ok l) ->
     l ∈ held s' /\ (exists h, holders s' !! l = Some h /\ key (made_for h) = key i) /\
     forall l' h', l' ∈ held s' -> holders s' !! l' = Some h' -> key (made_for h') = key i -> l' = l) /\
  (forall l, l ∈ held s -> exists h, holders s !! l = Some h /\ count_ h = refs_to l (held s)) /\
  (forall i s' e, create i (Answer true true) s = (s', Throw e) -> e = ObjectNotExistException /\ exists l, home s !! key i = Some l /\ l ∈ removing s) /\
  (held s = [] -> removing s = [] -> deleting s = [] -> home s = ∅ /\ holders s = ∅).
Proof.
  intros Hr. pose proof (fok_reachable s Hr) as Hok. split; [|split; [|split]].
  - intros i dds s' l Hc. destruct (create_ok _ _ _ _ _ Hok Hc) as (Hok' & Hin & Ek & Hex). split; [done|]. split; [done|].
    intros l' h' Hin' E' Hk. pose proof (held_is_home _ _ _ Hok' Hin' E') as E2. rewrite Hk, Ek in E2. by injection E2.
  - intros l Hin. destruct (fk_held _ Hok l Hin) as [h E]. exists h. split; [done|]. apply (fk_count _ Hok l h E).
  - intros i s' e. by apply create_fails_dying.
  - by apply unused_is_gone.
Qed.
End home.

(** Keys that are the requests themselves. *)
Definition by_name : nat -> nat := fun i => i.

(** Two clients of one entity, one of another; the first entity is released and removed. *)
Definition three_clients : factory (I := nat) (K := nat) :=
  default (start (K := nat))
    (s1 ← next by_name (CCreate 7%nat (Answer true true)) start; s2 ← next by_name (CCreate 7%nat (Answer true true)) s1.1;
     s3 ← next by_name (CCreate 8%nat (Answer true true)) s2.1; s4 ← next by_name (CDrop 1) s3.1; Some s4.1).

Lemma three_reachable : reachable by_name three_clients.
Proof.
  eapply rtc_l; [eapply step_next with (c := CCreate 7%nat (Answer true true)); reflexivity|].
  eapply rtc_l; [eapply step_next with (c := CCreate 7%nat (Answer true true)); reflexivity|].
  eapply rtc_l; [eapply step_next with (c := CCreate 8%nat (Answer true true)); reflexivity|].
  eapply rtc_l; [eapply step_next with (c := CDrop 1); reflexivity|]. vm_compute. apply rtc_refl.
Qed.

Lemma holders_shared_witness : reachable by_name three_clients /\ held three_clients = [1%nat; 0%nat] /\
  exists h, holders three_clients !! 0%nat = Some h /\ count_ h = 1%nat.
Proof.
  split; [apply three_reachable|]. split; [vm_compute; reflexivity|].
  destruct (holders_shared by_name three_clients three_reachable) as (_ & Hh & _). destruct (Hh 0%nat) as (h & Eh & Ec).
  { replace (held three_clients) with [1%nat; 0%nat] by (vm_compute; reflexivity). apply elem_of_cons. right. apply elem_of_cons. by left. }
  exists h. split; [done|]. rewrite Ec. vm_compute. reflexivity.
Defined.

(** ** While an entity goes *)

(** A request that comes after the last release and before the removal from the map fails, although DDS would give the entity:
    [locate_holder] duplicates a reference that is dead, and only its [NotFoundException] is caught. *)
Lemma dying_throws :
  exists s s' s'', next by_name (CCreate 7%nat (Answer true true)) start = Some (s, Some (Ok 0%nat)) /\ next by_name (CDrop 0) s = Some (s', None) /\
    create by_name 7%nat (Answer true true) s' = (s'', Throw ObjectNotExistException).
Proof. do 3 eexists. split; [reflexivity|]. split; [reflexivity|]. vm_compute. reflexivity. Qed.

(** Between the removal from the map and the deletion the entity may be made again: the old holder's destructor then runs beside a
    live one of the same key, and what it undoes by name (a type's registration) the new one had done. *)
Lemma dying_beside_live :
  exists s, reachable by_name s /\ deleting s = [0%nat] /\ held s = [1%nat] /\
    holders s !! 0%nat = Some (Holder 7%nat 0) /\ holders s !! 1%nat = Some (Holder 7%nat 1).
Proof.
  eexists. split.
  { eapply rtc_l; [eapply step_next with (c := CCreate 7%nat (Answer true true)); reflexivity|].
    eapply rtc_l; [eapply step_next with (c := CDrop 0); reflexivity|]. eapply rtc_l; [eapply step_next with (c := CRemove 0); reflexivity|].
    eapply rtc_l; [eapply step_next with (c := CCreate 7%nat (Answer true true)); reflexivity|]. apply rtc_refl. }
  vm_compute. done.
Qed.

(** ** The keys of participants, types and topics *)

Section keys.
Context `{AceMinMax} (hash_pjw : text -> Z).

(** TAF/dds/DDSPubSub.h:408-411 [is_valid_dcps_domain]. *)
Definition is_valid_dcps_domain (dcps_domain : Z) : bool := ace_range 0 230 dcps_domain =? dcps_domain.

(** TAF/dds/DDSPubSub.cpp:171-219 [DDS_DomainParticipant_factory::create_participant]. The domain is the key; a participant that DDS does not give is an
    [ObjectNotExistException] too. *)
Definition create_participant (domain_id : Z) (dds : dds_answer) (s : factory (I := Z) (K := Z)) : factory * result loc :=
  if is_valid_dcps_domain domain_id then create (fun d => d) domain_id dds s else (s, Throw IllegalArgumentException).

(** TAF/dds/DDSPubSub.cpp:305-307 [DDS_Type_factory::register_type]. The key: the type's name and the domain. *)
Definition type_key (t : text * Z) : Z := hash_pjw (fst t ++ str "|" ++ fmt_int 0 (snd t)).

(** TAF/dds/DDSPubSub.cpp:302-318 [DDS_Type_factory::register_type]. No DDS call can fail here. *)
Definition register_type (t : text * Z) (s : factory (I := text * Z) (K := Z)) : factory * result loc := create type_key t (Answer true true) s.

(** A topic: its name, the name of its type, the domain of its participant. *)
Record topic := Topic { topic_name : text; type_name : text; domain_id : Z }.

(** TAF/dds/DDSPubSub.cpp:251-253 [DDS_Topic_factory::create_topic]. The key. *)
Definition topic_key (t : topic) : Z := hash_pjw (topic_name t ++ str "|" ++ type_name t ++ str "|" ++ fmt_int 0 (domain_id t)).

(** TAF/dds/DDSPubSub.cpp:244-280 [DDS_Topic_factory::create_topic]. A name that is a null pointer is [None]. *)
Definition create_topic (name : option text) (type : text) (domain : Z) (dds : dds_answer) (s : factory (I := topic) (K := Z)) : factory * result loc :=
  match name with
  | None | Some [] => (s, Throw IllegalArgumentException)
  | Some n => create topic_key (Topic n type domain) dds s
  end.

Lemma is_valid_dcps_domain_spec `{!AceMinMaxLaws} d : is_valid_dcps_domain d = true <-> 0 <= d <= 230.
Proof. unfold is_valid_dcps_domain. rewrite ace_range_spec. bcase; lia. Qed.

(** Participants exist only for the domains of the range. *)
Lemma create_participant_range `{!AceMinMaxLaws} d dds s s' l : create_participant d dds s = (s', Ok l) -> 0 <= d <= 230.
Proof. unfold create_participant. destruct (is_valid_dcps_domain d) eqn:E; [by rewrite is_valid_dcps_domain_spec in E|done]. Qed.

(** Two topics whose texts have the same hash are one: the second request gets the first one's topic, of another name or type. *)
Lemma topics_collide n1 t1 n2 t2 d : n1 <> [] -> n2 <> [] -> topic_key (Topic n1 t1 d) = topic_key (Topic n2 t2 d) ->
  exists s s', create_topic (Some n1) t1 d (Answer true true) start = (s, Ok 0%nat) /\
    create_topic (Some n2) t2 d (Answer true true) s = (s', Ok 0%nat) /\ made_for <$> holders s' !! 0%nat = Some (Topic n1 t1 d).
Proof.
  intros H1 H2 Hk. destruct n1 as [|c1 n1]; [done|]. destruct n2 as [|c2 n2]; [done|]. cbn [create_topic].
  unfold create, locate_holder, create_holder, start. cbn [home holders]. rewrite lookup_empty. cbn. rewrite lookup_empty. cbn. do 2 eexists. split; [reflexivity|].
  cbn [home holders]. rewrite <- Hk, lookup_insert_eq. cbn. rewrite lookup_insert_eq. cbn. split; [reflexivity|]. cbn. by rewrite lookup_insert_eq.
Qed.
End keys.
