(* ===== verification/DdsEntities.v ===== *)
(** * Publishers, subscribers, writers and readers: TAF/dds/DDSPubSub_T

    The wrappers that a client initialises, writes through and is called back by.  DDS and the client's virtual
    functions (getQos, getStatusMask) are parameters: each call returns a value or throws, whatever the type of the
    exception.  The samples a reader takes are handed to the client one by one. *)

From S2P Require Import Prelude.

(** What DDS and the wrappers return. *)
Inductive return_code :=
| RETCODE_OK
| RETCODE_ERROR
| RETCODE_BAD_PARAMETER
| RETCODE_PRECONDITION_NOT_MET
| RETCODE_OUT_OF_RESOURCES
| RETCODE_other (n : nat).

#[export] Instance return_code_eq_dec : EqDecision return_code.
Proof. solve_decision. Defined.

(** A call of code that is not here. *)
Inductive call (A : Type) :=
| Returns (a : A)
| Throws.
Arguments Returns {A} a.
Arguments Throws {A}.

Abbreviation entity := nat.

(** The calls that an initialisation makes, in order: the default QoS, the client's getQos, the creation (with the client's getStatusMask); a
    nil reference is [None]. *)
Record vendor := Vendor { default_qos : call return_code; getQos : call return_code; create_entity : call (option entity) }.

(** The try block of the initialisations: what is created, or the code that is returned.  [r_code] is what the default QoS gave. *)
Definition try_create (v : vendor) (r_code : return_code) : (option (option entity)) * return_code :=
  if negb (bool_decide (r_code = RETCODE_OK)) then (None, r_code)
  else match getQos v with
       | Throws => (None, r_code)
       | Returns r_code =>
           if negb (bool_decide (r_code = RETCODE_OK)) then (None, r_code)
           else match create_entity v with
                | Throws => (None, r_code)
                | Returns (Some e) => (Some (Some e), RETCODE_OK)
                | Returns None => (Some None, RETCODE_ERROR)
                end
       end.

(** TAF/dds/DDSPubSub_T.cpp:56-84 [DDS_Publisher::init]. Of the publisher's handle [h]; [participant] is not null.  [DDS_Subscriber::init] (lines
    157-184) is the same with a subscriber. *)
Definition publisher_init (participant : bool) (v : vendor) (h : option entity) : option entity * call return_code :=
  if negb participant then (h, Returns RETCODE_BAD_PARAMETER)
  else match default_qos v with
       | Throws => (h, Throws)
       | Returns r_code =>
           match try_create v r_code with
           | (Some (Some e), r_code) => (Some e, Returns r_code)
           | (_, r_code) => (h, Returns r_code)
           end
       end.

(** A writer: the entity of DDS, the publisher and the topic it was made with. *)
Record writer := Writer { writer_ : option entity; made_with : option (entity * entity) }.

(** TAF/dds/DDSPubSub_T.cpp:99-126 [DDS_Writer::init]. [DDS_Reader::init] (lines 188-214) is the same with a subscriber and a reader. *)
Definition writer_init (publisher topic : option entity) (v : vendor) (w : writer) : writer * call return_code :=
  match publisher, topic with
  | Some p, Some t =>
      match default_qos v with
      | Throws => (w, Throws)
      | Returns r_code =>
          match try_create v r_code with
          | (Some (Some e), r_code) => (Writer (Some e) (Some (p, t)), Returns r_code)
          | (Some None, r_code) => (Writer None (made_with w), Returns r_code)
          | (None, r_code) => (w, Returns r_code)
          end
      end
  | _, _ => (w, Returns RETCODE_BAD_PARAMETER)
  end.

(** TAF/dds/DDSPubSub_T.cpp:88-97 [DDS_Writer::~DDS_Writer]. What DDS is asked to delete; a reader's destructor (lines 216-225) does the same. *)
Definition writer_delete (w : writer) : list entity := match writer_ w with Some e => [e] | None => [] end.

(** TAF/dds/DDSPubSub_T.cpp:128-153 [DDS_Writer::publish]. [lock]: the writer's mutex is acquired; [write e]: what registering the instance and writing the data
    through [e] gives. *)
Definition publish (w : writer) (lock : bool) (write : entity -> call return_code) : return_code :=
  match writer_ w with
  | None => RETCODE_PRECONDITION_NOT_MET
  | Some e =>
      if negb lock then RETCODE_OUT_OF_RESOURCES
      else match write e with
           | Throws => RETCODE_ERROR
           | Returns r => if bool_decide (r = RETCODE_OK) then RETCODE_OK else r
           end
  end.

(** ** Samples *)

Section samples.
Context {D S : Type} (on_data : D -> S -> S * call return_code).

(** TAF/dds/DDSPubSub_T.cpp:292-300 [TOPICReaderListener::on_data_available]. The loop over the samples: an exception of the client is
    ignored, and so is its return code. *)
Definition deliver (data_t : list D) (si : list bool) (st : S) : S :=
  foldl (fun st i => match si !! i, data_t !! i with
                     | Some true, Some d => fst (on_data d st)
                     | _, _ => st
                     end) st (seq 0 (Nat.min (length si) (length data_t))).

(** TAF/dds/DDSPubSub_T.cpp:244-306 [TOPICReaderListener::on_data_available]. The build that takes a sequence of samples; [narrowed]: the reader is one of the
    type's; [take]: what DDS gives with its code.  Whether the samples are given back. *)
Definition on_data_available (narrowed : bool) (take : call (return_code * list D * list bool)) (st : S) : S * bool :=
  if negb narrowed then (st, false)
  else match take with
       | Returns (RETCODE_OK, data_t, si) => (deliver data_t si st, true)
       | _ => (st, false)
       end.

(** TAF/dds/DDSPubSub_T.cpp:252-261 [TOPICReaderListener::on_data_available]. The build that takes one sample a call. *)
Definition on_next_sample (take_next : return_code * D * bool) (st : S) : S :=
  match take_next with
  | (RETCODE_OK, data_t, true) => fst (on_data data_t st)
  | _ => st
  end.

(** TAF/dds/DDSPubSub_T.cpp:227-234 [DDS_Reader::on_data_available]. The mutex is tried, not waited for. *)
Definition reader_notify (locked : bool) (narrowed : bool) (take : call (return_code * list D * list bool)) (st : S) : S * bool :=
  if locked then on_data_available narrowed take st else (st, false).

(** The loop over indexes is a pass over the pairs. *)
Lemma deliver_zip data_t si st :
  deliver data_t si st = foldl (fun st p => if fst p : bool then fst (on_data (snd p) st) else st) st (zip si data_t).
Proof.
  unfold deliver. revert data_t st. induction si as [|v si IH]; intros [|d ds] st; try done.
  cbn [length Nat.min seq foldl]. rewrite <- seq_shift. cbn [zip zip_with foldl fst snd]. rewrite <- IH. cbn [lookup list_lookup].
  generalize (seq 0 (Nat.min (length si) (length ds))). intros l. destruct v; cbn; generalize st.
  - intros st0. generalize (fst (on_data d st0)). induction l as [|x l IHl]; intros s0; [done|]. cbn. apply IHl.
  - intros st0. revert st0. induction l as [|x l IHl]; intros s0; [done|]. cbn. apply IHl.
Qed.
End samples.

(** When DDS hands over samples each valid one is given to the client exactly once and in order, the invalid ones to none, whatever the
    client returns or throws for those before it, and what DDS has lent is given back. *)
Theorem samples_delivered {D} (app : D -> call return_code) data_t si seen :
  on_data_available (fun d seen => (seen ++ [d], app d)) true (Returns (RETCODE_OK, data_t, si)) seen =
  (seen ++ map snd (filter (fun p => fst p = true) (zip si data_t)), true).
Proof.
  cbn. rewrite deliver_zip. f_equal. generalize (zip si data_t). intros l. revert seen. induction l as [|[v d] l IH]; intros seen; [by rewrite app_nil_r|].
  rewrite filter_cons. cbn. destruct v; cbn; [|by rewrite IH]. rewrite IH. by rewrite <- app_assoc.
Qed.

(** ** Initialisations and their codes *)

(** An initialisation in which nothing throws reports what it did: [RETCODE_OK] exactly when the entity is there. *)
Lemma publisher_init_reports q u c h : exists h' r, publisher_init true (Vendor (Returns q) (Returns u) (Returns c)) h = (h', Returns r) /\
  (r = RETCODE_OK <-> q = RETCODE_OK /\ u = RETCODE_OK /\ is_Some c) /\ (r = RETCODE_OK -> h' = c) /\ (r <> RETCODE_OK -> h' = h).
Proof.
  unfold publisher_init, try_create. cbn. destruct (bool_decide_reflect (q = RETCODE_OK)) as [->|Hq]; cbn.
  2: { do 2 eexists. split; [done|]. tauto. }
  destruct (bool_decide_reflect (u = RETCODE_OK)) as [->|Hu]; cbn; [|do 2 eexists; split; [done|]; tauto].
  destruct c as [e|]; do 2 eexists; (split; [done|]); [split; [split; eauto|done]|]. split; [|done]. split; [done|]. by intros (_ & _ & [? ?]).
Qed.

Lemma writer_init_reports p t q u c w : exists w' r, writer_init (Some p) (Some t) (Vendor (Returns q) (Returns u) (Returns c)) w = (w', Returns r) /\
  (r = RETCODE_OK <-> q = RETCODE_OK /\ u = RETCODE_OK /\ is_Some c) /\ (r = RETCODE_OK -> w' = Writer c (Some (p, t))).
Proof.
  unfold writer_init, try_create. cbn. destruct (bool_decide_reflect (q = RETCODE_OK)) as [->|Hq]; cbn.
  2: { do 2 eexists. split; [done|]. tauto. }
  destruct (bool_decide_reflect (u = RETCODE_OK)) as [->|Hu]; cbn; [|do 2 eexists; split; [done|]; tauto].
  destruct c as [e|]; do 2 eexists; (split; [done|]); [split; [split; eauto|done]|]. split; [|done]. split; [done|]. by intros (_ & _ & [? ?]).
Qed.

(** When the client's getQos throws, or DDS when it creates the entity, the exception is swallowed and the code returned is the one of the call before, which is
    [RETCODE_OK]: there is no publisher, and the caller is told that there is. *)
Lemma init_exception_ok : 
  (forall c h, publisher_init true (Vendor (Returns RETCODE_OK) Throws c) h = (h, Returns RETCODE_OK)) /\
  (forall h, publisher_init true (Vendor (Returns RETCODE_OK) (Returns RETCODE_OK) Throws) h = (h, Returns RETCODE_OK)) /\
  (forall p t c w, writer_init (Some p) (Some t) (Vendor (Returns RETCODE_OK) Throws c) w = (w, Returns RETCODE_OK)).
Proof. done. Qed.

(** The writer that was reported ready then refuses to publish. *)
Lemma ready_writer_refuses p t c lock write : forall w r, writer_init (Some p) (Some t) (Vendor (Returns RETCODE_OK) Throws c) (Writer None None) = (w, r) ->
  r = Returns RETCODE_OK /\ publish w lock write = RETCODE_PRECONDITION_NOT_MET.
Proof. by intros w r [= <- <-]. Qed.

(** An initialisation of a writer that has one already forgets it: nothing deletes it. *)
Lemma second_init_forgets p t e e' : forall w r,
  writer_init (Some p) (Some t) (Vendor (Returns RETCODE_OK) (Returns RETCODE_OK) (Returns (Some e'))) (Writer (Some e) (Some (p, t))) = (w, r) -> writer_delete w = [e'].
Proof. by intros w r [= <- <-]. Qed.

(** A writer that is initialised publishes exactly what DDS accepts. *)
Lemma publish_reports w e write : writer_ w = Some e -> (publish w true write = RETCODE_OK <-> write e = Returns RETCODE_OK).
Proof.
  intros E. unfold publish. rewrite E. cbn. destruct (write e) as [r|]; [|done]. destruct (bool_decide_reflect (r = RETCODE_OK)) as [->|Hr]; [done|].
  split; [done|]. by intros [= ->].
Qed.

(** A notification that comes while the reader's mutex is taken hands nothing over, and takes nothing. *)
Lemma busy_notify_skips {D S} (on_data : D -> S -> S * call return_code) narrowed take st : reader_notify on_data false narrowed take st = (st, false).
Proof. done. Qed.
