(* ===== verification/Idl.v ===== *)
(** * The back end of the IDL compiler: TAF/idl, its tree, its utilities and the enumeration helpers

    The compiler's front end is TAO's; the back end visits the syntax tree and writes C++ text.  The tree here has what the
    visitors look at: modules, enumerations, enumerators and structures with their local and full names; all other
    declarations have the empty visits of [Visitor].  The helpers for enumerations are functions from names to values
    and back; the text that is written for them is read back by [IdlEnum]. *)

From S2P Require Import Prelude CString Text.
From Stdlib Require Import Ascii.

Abbreviation text := (list ascii).

Definition NL : ascii := ascii_of_nat 10.
Definition DOT : ascii := ascii_of_nat 46.

(** A C++ string literal. *)
Definition quoted (t : text) : text := DQUOTE :: t ++ [DQUOTE].

(** What [out << t << std::endl] appends. *)
Definition endl (t : text) : text := t ++ [NL].

(** ** The tree *)

(** A declaration, with what a visitor asks it for: local and full name, whether it comes from an included file, whether a structure
    is a topic's type.  [Scope] is a declaration that has others in it and that no visitor enters: interfaces, valuetypes, event types, components,
    homes, unions, exceptions (Visitor.cpp:163, 177, 191, 205, 219, 249, 298).  Typedefs, forward declarations and the like are [Other]. *)
Inductive decl :=
| Module (local_name full_name : text) (imported : bool) (decls : list decl)
| Enum (local_name full_name : text) (vals : list (text * text))
| EnumVal (local_name full_name : text)
| Structure (local_name : text) (imported dcps : bool) (decls : list decl)
| Scope (decls : list decl)
| PreDefined
| Other.

(** ** VisitorUtils *)

(** Characters of the "C" locale. *)
Definition upper (c : ascii) : ascii := if (97 <=? code c) && (code c <=? 122) then ascii_of_nat (Z.to_nat (code c - 32)) else c.
Definition ispunct (c : ascii) : bool :=
  (33 <=? code c) && (code c <=? 47) || (58 <=? code c) && (code c <=? 64) || (91 <=? code c) && (code c <=? 96) || (123 <=? code c) && (code c <=? 126).
Definition UNDERSCORE : ascii := ascii_of_nat 95.

(** TAF/idl/VisitorUtils.cpp:39-46 [VisitorUtils::char_convert]. *)
Definition char_convert (c : ascii) : ascii :=
  let v := upper c in
  let v := if isspace v then UNDERSCORE else v in
  if ispunct v then UNDERSCORE else v.

(** TAF/idl/VisitorUtils.cpp:101-117 [VisitorUtils::create_header_id]. *)
Definition create_header_id (date_string name : text) (unique : bool) : text :=
  char_convert <$> (if unique then name ++ UNDERSCORE :: date_string else name).

(** TAF/idl/VisitorUtils.cpp:49-54 [VisitorUtils::header_guard_start]. *)
Definition header_guard_start (name : text) : text := endl (str "#ifndef " ++ name) ++ endl (str "#define " ++ name) ++ endl [].

(** TAF/idl/VisitorUtils.cpp:57-61 [VisitorUtils::header_guard_end]. *)
Definition header_guard_end (name : text) : text := endl [] ++ endl (str "#endif //" ++ name).

(** TAF/idl/be_global.cpp:38-46 [create_date]. Of the fields of the time the compiler was started. *)
Definition create_date (year month day hour minute second : Z) : text :=
  fmt_int 0 year ++ fmt_int 0 month ++ fmt_int 0 day ++ UNDERSCORE :: fmt_int 0 hour ++ fmt_int 0 minute ++ fmt_int 0 second.

(** What the back end is told: the options, the main file and the files it includes, the versions. *)
Record globals := Globals {
  stripped_filename : text;
  included_idl_files : list text;
  date_string : text;
  output_dir : text;
  taf_support : bool;
  taf_support_ext : text;
  enum_support : bool;
  enum_support_ext : text;
  versions : text * text * text;
}.

(** TAF/idl/VisitorUtils.cpp:119-132 [VisitorUtils::generation_comment]. *)
Definition generation_comment (g : globals) (generator_name : text) : text :=
  endl [] ++ endl (str "/******************************************************") ++
  endl (str "* Code generated by LASAGNE IDL Compiler") ++
  endl (str "* LASAGNE BE Version : " ++ fst (fst (versions g))) ++
  endl (str "* TAO_IDL FE Version : " ++ snd (fst (versions g))) ++
  endl (str "* LASAGNE Build Time : " ++ snd (versions g)) ++
  endl (str "* Generation Visitor : " ++ generator_name) ++
  endl (str "* Creation Date      : " ++ date_string g) ++
  endl (str "* Input File         : " ++ stripped_filename g) ++
  endl (str "******************************************************/") ++ endl [].

(** [s.substr(0, s.find("."))]: all of it when there is no dot. *)
Definition up_to_dot (s : text) : text := match find_char DOT s with Some i => take i s | None => s end.

(** TAF/idl/VisitorEnumSupport.cpp:87-107 [VisitorEnumSupport::visit_root]. The inclusion of what is generated for the included files; VisitorTafSupport.cpp:79-99 is the
    same with its own extension. *)
Definition idl_includes (ext : text) (files : list text) : text :=
  match files with
  | [] => []
  | _ => endl (str "// IDL Includes " ++ fmt_int 0 (Z.of_nat (length files))) ++
      (files ≫= (fun f => match find_char DOT f with
                         | Some i => endl (str "#include " ++ quoted (take i f ++ ext ++ str ".h") ++ str " // " ++ f)
                         | None => []
                         end))
  end.

(** ** VisitorEnumSupport *)

(** TAF/idl/VisitorEnumSupport.h:51-56 [GeneratorFunction_E]. *)
Inductive generator_function := STRING_TO_ENUM | ENUM_TO_STRING | ERR.

(** TAF/idl/VisitorEnumSupport.h:43-68 [VisitorEnumSupport]. *)
Record enum_visitor := EnumVisitor {
  header_ : text;
  current_enum_ : text;
  current_enum_val_ : text;
  enums_num_ : Z;
  which_function_ : generator_function;
  indentation_count_ : nat;
}.

Definition indent_size_ : nat := 3.

Definition put (t : text) (s : enum_visitor) : enum_visitor :=
  EnumVisitor (header_ s ++ t) (current_enum_ s) (current_enum_val_ s) (enums_num_ s) (which_function_ s) (indentation_count_ s).
Definition with_enum (e : text) (s : enum_visitor) : enum_visitor :=
  EnumVisitor (header_ s) e (current_enum_val_ s) (enums_num_ s) (which_function_ s) (indentation_count_ s).
Definition with_val (v : text) (s : enum_visitor) : enum_visitor :=
  EnumVisitor (header_ s) (current_enum_ s) v (enums_num_ s) (which_function_ s) (indentation_count_ s).
Definition with_num (n : Z) (s : enum_visitor) : enum_visitor :=
  EnumVisitor (header_ s) (current_enum_ s) (current_enum_val_ s) n (which_function_ s) (indentation_count_ s).
Definition with_function (w : generator_function) (s : enum_visitor) : enum_visitor :=
  EnumVisitor (header_ s) (current_enum_ s) (current_enum_val_ s) (enums_num_ s) w (indentation_count_ s).
Definition deeper (s : enum_visitor) : enum_visitor :=
  EnumVisitor (header_ s) (current_enum_ s) (current_enum_val_ s) (enums_num_ s) (which_function_ s) (indentation_count_ s + indent_size_).
Definition shallower (s : enum_visitor) : enum_visitor :=
  EnumVisitor (header_ s) (current_enum_ s) (current_enum_val_ s) (enums_num_ s) (which_function_ s) (indentation_count_ s - indent_size_).

(** TAF/idl/VisitorEnumSupport.cpp:292-302 [VisitorEnumSupport::indent]. *)
Definition indent (n : nat) : text := replicate n SPACE.

(** [header_ << indent() << t << std::endl]. *)
Definition line (t : text) (s : enum_visitor) : enum_visitor := put (indent (indentation_count_ s) ++ endl t) s.

Infix "▷" := (fun s (f : enum_visitor -> enum_visitor) => f s) (at level 40, left associativity, only parsing).

(** TAF/idl/VisitorEnumSupport.cpp:258-273 [VisitorEnumSupport::create_stringToEnum]. The counter is an [int]. *)
Definition create_stringToEnum (full : text) (s : enum_visitor) : enum_visitor :=
  s ▷ line (str "if(" ++ quoted (current_enum_val_ s) ++ str " == typeString)") ▷ line (str "{")
    ▷ with_num (to_int (enums_num_ s + 1)) ▷ deeper ▷ line (str "return " ++ full ++ str ";") ▷ shallower ▷ line (str "}" ++ [NL]).

(** TAF/idl/VisitorEnumSupport.cpp:276-290 [VisitorEnumSupport::create_enumToString]. *)
Definition create_enumToString (full : text) (s : enum_visitor) : enum_visitor :=
  s ▷ line (str "if(" ++ full ++ str " == typeEnum)") ▷ line (str "{") ▷ deeper ▷ line (str "return " ++ quoted (current_enum_val_ s) ++ str ";")
    ▷ shallower ▷ line (str "}" ++ [NL]).

(** TAF/idl/VisitorEnumSupport.cpp:224-255 [VisitorEnumSupport::visit_enum_val]. *)
Definition visit_enum_val (v : text * text) (s : enum_visitor) : enum_visitor :=
  let s := with_val (fst v) s in
  match which_function_ s with
  | STRING_TO_ENUM => s ▷ deeper ▷ create_stringToEnum (snd v) ▷ shallower
  | ENUM_TO_STRING => s ▷ deeper ▷ create_enumToString (snd v) ▷ shallower
  | ERR => s
  end.

(** TAF/idl/VisitorEnumSupport.cpp:305-323 [VisitorEnumSupport::howManyEnums]. *)
Definition howManyEnums (s : enum_visitor) : enum_visitor :=
  s ▷ deeper ▷ line (str "int " ++ current_enum_ s ++ str "Size(void)") ▷ line (str "{") ▷ deeper ▷ line (str "return " ++ fmt_int 0 (enums_num_ s) ++ str ";")
    ▷ shallower ▷ line (str "} " ++ [NL]) ▷ shallower ▷ with_num 0.

(** The texts of the two functions' ends, for an enumeration's full name. *)
Definition no_name (full : text) : text := str "ERROR: The input string has not been matched to any of the " ++ full ++ str " enumerator values \n".
Definition no_value (full : text) : text := str "ERROR: There is no " ++ full ++ str " enumerator value matching the input enumerator value \n".

(** TAF/idl/VisitorEnumSupport.cpp:169-222 [VisitorEnumSupport::visit_enum]. The visits of the enumerators never fail. *)
Definition visit_enum (local full : text) (vals : list (text * text)) (s : enum_visitor) : enum_visitor :=
  let s := s ▷ with_enum local ▷ with_function STRING_TO_ENUM ▷ deeper
             ▷ line (str "enum " ++ full ++ str " " ++ str "StringTo" ++ local ++ str "(const std::string &typeString)") ▷ line (str "{") in
  let s := foldl (fun s v => visit_enum_val v s) s vals in
  let s := s ▷ deeper
             ▷ line (str "ACE_ERROR((LM_ERROR, " ++ quoted (str "ERROR: %N, %l : The input string has not been matched to any of the " ++ full ++ str " enumerator values \n")
                       ++ str ", __FILE__, __LINE__)); " ++ [NL])
             ▷ line (str "std::runtime_error exception(" ++ quoted (no_name full) ++ str ");")
             ▷ line (str "throw exception; " ++ [NL]) ▷ shallower
             ▷ line (str "} // end function stringTo" ++ local ++ str " " ++ [NL])
             ▷ with_function ENUM_TO_STRING
             ▷ line (str "std::string " ++ local ++ str "ToString(enum " ++ full ++ str " typeEnum)") ▷ line (str "{") in
  let s := foldl (fun s v => visit_enum_val v s) s vals in
  s ▷ deeper
    ▷ line (str "ACE_ERROR((LM_ERROR, " ++ quoted (no_value full) ++ str ")); " ++ [NL])
    ▷ line (str "return " ++ quoted (no_value full) ++ str ";") ▷ shallower
    ▷ line (str "} // end function " ++ local ++ str "ToString " ++ [NL; NL]) ▷ shallower
    ▷ with_function ERR ▷ howManyEnums.

(** TAF/idl/VisitorEnumSupport.cpp:145-165 [VisitorEnumSupport::visit_module]. And the dispatch of a visit on a declaration; a module's scope
    ([Visitor::visit_scope]) is visited in order. *)
Fixpoint visit (d : decl) (s : enum_visitor) : enum_visitor :=
  match d with
  | Module _ full imported decls =>
      if imported then s
      else
        let s := s ▷ deeper ▷ line (str "namespace " ++ full) ▷ line (str "{") in
        let s := foldl (fun s d => visit d s) s decls in
        s ▷ shallower ▷ line (str "} // namespace " ++ full)
  | Enum local full vals => visit_enum local full vals s
  | EnumVal local full => visit_enum_val (local, full) s
  | Structure _ _ _ _ | Scope _ | PreDefined | Other => s
  end.

(** TAF/idl/Visitor.cpp:73-122 [Visitor::visit_scope]. *)
Definition visit_scope (decls : list decl) (s : enum_visitor) : enum_visitor := foldl (fun s d => visit d s) s decls.

Definition generator_name : text := str "LASAGNE_EnumSupport".

(** TAF/idl/VisitorEnumSupport.cpp:68-143 [VisitorEnumSupport::visit_root]. The file that is written, if it can be opened, and the state left; the
    result is 0 either way. *)
Definition visit_root (g : globals) (decls : list decl) : (text * text) * enum_visitor :=
  let filename := up_to_dot (stripped_filename g) in
  let header_id := create_header_id (date_string g) filename true ++ generator_name in
  let s := EnumVisitor [] [] [] 0 ERR 0
             ▷ put (header_guard_start header_id) ▷ put (generation_comment g generator_name)
             ▷ put (idl_includes (enum_support_ext g) (included_idl_files g)) ▷ visit_scope decls ▷ put (header_guard_end header_id) in
  ((output_dir g ++ filename ++ enum_support_ext g ++ str ".h", header_ s), s).
