(* ===== verification/IdlEnum.v ===== *)
(** * What the generated enumeration helpers do

    The header that [Idl] writes is read back here: its lines, the functions StringToE, EToString and ESize by the line that heads
    them, and their bodies, which are ifs that return, run on an argument.  The specification is the table of
    names and values that the IDL file declares. *)

From S2P Require Import Prelude CString Text Idl.
From Stdlib Require Import Ascii.

(** ** Lines *)

Fixpoint lines_of (s : text) : list text :=
  match s with
  | [] => [[]]
  | c :: s => if decide (c = NL) then [] :: lines_of s else match lines_of s with l :: ls => (c :: l) :: ls | [] => [[c]] end
  end.

Definition unlines (ls : list text) : text := concat (map endl ls).

(** A text that is empty or ends a line. *)
Definition ended (t : text) : Prop := t = [] \/ exists x, t = x ++ [NL].

Lemma unlines_nil : unlines [] = [].
Proof. done. Qed.

Lemma unlines_cons l ls : unlines (l :: ls) = l ++ NL :: unlines ls.
Proof. unfold unlines, endl. cbn. by rewrite <- app_assoc. Qed.

Lemma unlines_app ls ls' : unlines (ls ++ ls') = unlines ls ++ unlines ls'.
Proof. unfold unlines. by rewrite map_app, concat_app. Qed.

Lemma ended_app s t : ended s -> ended t -> ended (s ++ t).
Proof.
  intros [->|[x ->]] [->|[y ->]]; rewrite ?app_nil_r; try (by left); right; [by exists y|by exists x|].
  exists ((x ++ [NL]) ++ y). by rewrite app_assoc.
Qed.

Lemma ended_endl t : ended (endl t).
Proof. right. by exists t. Qed.

Lemma ended_unlines ls : ended (unlines ls).
Proof. induction ls as [|l ls IH]; [by left|]. change (unlines (l :: ls)) with (endl l ++ unlines ls). by apply ended_app; [apply ended_endl|]. Qed.

#[export] Hint Resolve ended_app ended_endl ended_unlines : daf.

Lemma lines_of_not_nil s : lines_of s <> [].
Proof. destruct s as [|c s]; cbn; [done|]. destruct (decide (c = NL)); [done|]. by destruct (lines_of s). Qed.

Lemma lines_of_app s t : lines_of (s ++ NL :: t) = lines_of s ++ lines_of t.
Proof.
  induction s as [|c s IH]; cbn [app lines_of]; [by rewrite decide_True|]. rewrite IH. destruct (decide (c = NL)); [done|].
  destruct (lines_of s) eqn:E; [by apply lines_of_not_nil in E|done].
Qed.

Lemma lines_of_clean s : NL ∉ s -> lines_of s = [s].
Proof.
  induction s as [|c s IH]; [done|]. rewrite not_elem_of_cons. intros [Hc Hs]. cbn. by rewrite decide_False, IH by congruence.
Qed.

Lemma lines_of_ended s t : ended s -> exists pre, lines_of (s ++ t) = pre ++ lines_of t.
Proof. intros [->|[x ->]]; [by exists []|]. exists (lines_of x). rewrite <- app_assoc. cbn. apply lines_of_app. Qed.

Lemma lines_of_unlines ls t : Forall (fun l => NL ∉ l) ls -> lines_of (unlines ls ++ t) = ls ++ lines_of t.
Proof.
  induction 1 as [|l ls Hl _ IH]; [done|]. rewrite unlines_cons, <- app_assoc. cbn [app]. by rewrite lines_of_app, lines_of_clean, IH.
Qed.

(** ** Running the functions *)

Fixpoint strip_prefix (p l : text) : option text :=
  match p, l with
  | [], _ => Some l
  | x :: p, y :: l => if decide (x = y) then strip_prefix p l else None
  | _ :: _, [] => None
  end.

(** The condition of a line that is an if, on the argument of the function. *)
Definition test_name (typeString t : text) : option bool :=
  rest ← strip_prefix (str "if(" ++ [DQUOTE]) t; Some (bool_decide (rest = typeString ++ DQUOTE :: str " == typeString)")).
Definition test_value (typeEnum t : text) : option bool :=
  rest ← strip_prefix (str "if(") t; Some (bool_decide (rest = typeEnum ++ str " == typeEnum)")).

(** The expression that a body returns, [None] when it throws or ends; while [skip], in the braces of an if whose condition is false. *)
Fixpoint run (test : text -> option bool) (skip : bool) (ls : list text) : option text :=
  match ls with
  | [] => None
  | l :: ls =>
      let t := skip_space l in
      if bool_decide (t = str "}") then run test false ls
      else if skip then run test skip ls
      else match test t with
           | Some b => run test (negb b) ls
           | None =>
               match strip_prefix (str "return ") t with
               | Some v => Some (removelast v)
               | None => match strip_prefix (str "throw ") t with Some _ => None | None => run test false ls end
               end
           end
  end.

(** The lines behind the one that is [head]. *)
Fixpoint body_of (head : text) (ls : list text) : list text :=
  match ls with
  | [] => []
  | l :: ls => if bool_decide (skip_space l = head) then ls else body_of head ls
  end.

Definition StringTo (local full : text) (ls : list text) (typeString : text) : option text :=
  run (test_name typeString) false (body_of (str "enum " ++ full ++ str " " ++ str "StringTo" ++ local ++ str "(const std::string &typeString)") ls).
Definition ToString (local full : text) (ls : list text) (typeEnum : text) : option text :=
  run (test_value typeEnum) false (body_of (str "std::string " ++ local ++ str "ToString(enum " ++ full ++ str " typeEnum)") ls).
Definition Size (local : text) (ls : list text) : option text :=
  run (fun _ => None) false (body_of (str "int " ++ local ++ str "Size(void)") ls).

(** ** The lines that a visit writes *)

Definition chunk (i : nat) (test value : text) : list text :=
  [indent i ++ test; indent i ++ str "{"; indent (i + 3) ++ str "return " ++ value ++ str ";"; indent i ++ str "}"; []].

Definition name_chunk (i : nat) (v : text * text) : list text := chunk i (str "if(" ++ quoted (fst v) ++ str " == typeString)") (snd v).
Definition value_chunk (i : nat) (v : text * text) : list text := chunk i (str "if(" ++ snd v ++ str " == typeEnum)") (quoted (fst v)).

Definition to_enum_lines (i : nat) (local full : text) (vals : list (text * text)) : list text :=
  [indent i ++ str "enum " ++ full ++ str " " ++ str "StringTo" ++ local ++ str "(const std::string &typeString)"; indent i ++ str "{"]
  ++ (vals ≫= name_chunk (i + 3)) ++
  [indent (i + 3) ++ str "ACE_ERROR((LM_ERROR, " ++ quoted (str "ERROR: %N, %l : The input string has not been matched to any of the " ++ full ++ str " enumerator values \n")
     ++ str ", __FILE__, __LINE__)); "; [];
   indent (i + 3) ++ str "std::runtime_error exception(" ++ quoted (no_name full) ++ str ");"; indent (i + 3) ++ str "throw exception; "; [];
   indent i ++ str "} // end function stringTo" ++ local ++ str " "; []].

Definition to_string_lines (i : nat) (local full : text) (vals : list (text * text)) : list text :=
  [indent i ++ str "std::string " ++ local ++ str "ToString(enum " ++ full ++ str " typeEnum)"; indent i ++ str "{"]
  ++ (vals ≫= value_chunk (i + 3)) ++
  [indent (i + 3) ++ str "ACE_ERROR((LM_ERROR, " ++ quoted (no_value full) ++ str ")); "; [];
   indent (i + 3) ++ str "return " ++ quoted (no_value full) ++ str ";"; indent i ++ str "} // end function " ++ local ++ str "ToString "; []; []].

Definition size_lines (i : nat) (local : text) (n : Z) : list text :=
  [indent i ++ str "int " ++ local ++ str "Size(void)"; indent i ++ str "{"; indent (i + 3) ++ str "return " ++ fmt_int 0 n ++ str ";"; indent i ++ str "} "; []].

Definition enum_lines (i : nat) (local full : text) (vals : list (text * text)) : list text :=
  to_enum_lines i local full vals ++ to_string_lines i local full vals ++ size_lines i local (Z.of_nat (length vals)).

Fixpoint decl_lines (i : nat) (d : decl) : list text :=
  match d with
  | Module _ full imported decls =>
      if imported then []
      else [indent (i + 3) ++ str "namespace " ++ full; indent (i + 3) ++ str "{"] ++ concat (map (decl_lines (i + 3)) decls) ++ [indent i ++ str "} // namespace " ++ full]
  | Enum local full vals => enum_lines (i + 3) local full vals
  | _ => []
  end.

(** ** The visits write these lines *)

(** What a visit of enumerators leaves as it was, with what it appends. *)
Record writes (ls : list text) (s s' : enum_visitor) : Prop := {
  wr_header : header_ s' = header_ s ++ unlines ls;
  wr_indent : indentation_count_ s' = indentation_count_ s;
  wr_which : which_function_ s' = which_function_ s;
  wr_enum : current_enum_ s' = current_enum_ s;
}.

#[local] Opaque str indent.

(** Texts are equal when they are when written out from left to right. *)
Ltac spell := unfold endl; repeat (rewrite ?unlines_app, ?unlines_cons, ?unlines_nil, ?app_nil_r, <- ?app_assoc; cbn [app]); try reflexivity.

Ltac fields := cbn [header_ current_enum_ current_enum_val_ enums_num_ which_function_ indentation_count_ put with_enum with_val with_num with_function deeper shallower line].

Lemma write_name v s : which_function_ s = STRING_TO_ENUM ->
  writes (name_chunk (indentation_count_ s + 3) v) s (visit_enum_val v s) /\ enums_num_ (visit_enum_val v s) = to_int (enums_num_ s + 1).
Proof.
  intros Ew. unfold visit_enum_val. fields. rewrite Ew. unfold create_stringToEnum. fields. split; [|done].
  split; fields; [|unfold indent_size_; lia|done|done]. unfold name_chunk, chunk, indent_size_. rewrite !Nat.add_sub. spell.
Qed.

Lemma write_value v s : which_function_ s = ENUM_TO_STRING ->
  writes (value_chunk (indentation_count_ s + 3) v) s (visit_enum_val v s) /\ enums_num_ (visit_enum_val v s) = enums_num_ s.
Proof.
  intros Ew. unfold visit_enum_val. fields. rewrite Ew. unfold create_enumToString. fields. split; [|done].
  split; fields; [|unfold indent_size_; lia|done|done]. unfold value_chunk, chunk, indent_size_. rewrite !Nat.add_sub. spell.
Qed.

Lemma writes_trans ls ls' s1 s2 s3 : writes ls s1 s2 -> writes ls' s2 s3 -> writes (ls ++ ls') s1 s3.
Proof. intros [? ? ? ?] [H1 H2 H3 H4]. split; try congruence. rewrite H1, wr_header0. spell. Qed.

Lemma write_names vals s : which_function_ s = STRING_TO_ENUM -> 0 <= enums_num_ s -> enums_num_ s + Z.of_nat (length vals) < 2 ^ 31 ->
  let s' := foldl (fun s v => visit_enum_val v s) s vals in
  writes (vals ≫= name_chunk (indentation_count_ s + 3)) s s' /\ enums_num_ s' = enums_num_ s + Z.of_nat (length vals).
Proof.
  revert s. induction vals as [|v vals IH]; intros s Ew H0 Hn; cbn [foldl length] in *; [split; [split; [spell|done|done|done]|lia]|].
  destruct (write_name v s Ew) as [Hw Hv]. rewrite to_int_small in Hv by (unfold INT_MAX; lia).
  destruct (IH (visit_enum_val v s)) as [Hws Hvs]; [by rewrite (wr_which _ _ _ Hw)|lia|lia|]. rewrite (wr_indent _ _ _ Hw) in Hws.
  rewrite bind_cons. split; [by eapply writes_trans|lia].
Qed.

Lemma write_values vals s : which_function_ s = ENUM_TO_STRING ->
  let s' := foldl (fun s v => visit_enum_val v s) s vals in
  writes (vals ≫= value_chunk (indentation_count_ s + 3)) s s' /\ enums_num_ s' = enums_num_ s.
Proof.
  revert s. induction vals as [|v vals IH]; intros s Ew; cbn [foldl length] in *; [split; [split; [spell|done|done|done]|lia]|].
  destruct (write_value v s Ew) as [Hw Hv].
  destruct (IH (visit_enum_val v s)) as [Hws Hvs]; [by rewrite (wr_which _ _ _ Hw)|]. rewrite (wr_indent _ _ _ Hw) in Hws.
  rewrite bind_cons. split; [by eapply writes_trans|lia].
Qed.

(** Between declarations the visitor counts nothing and writes no function. *)
Record resting (s : enum_visitor) : Prop := { rs_num : enums_num_ s = 0; rs_which : which_function_ s = ERR }.

Lemma write_enum local full vals s : resting s -> Z.of_nat (length vals) < 2 ^ 31 ->
  let s' := visit_enum local full vals s in
  header_ s' = header_ s ++ unlines (enum_lines (indentation_count_ s + 3) local full vals) /\ indentation_count_ s' = indentation_count_ s /\ resting s'.
Proof.
  intros [E0 _] Hn. cbn zeta. unfold visit_enum, howManyEnums. fields.
  match goal with |- context [foldl (fun s v => visit_enum_val v s) ?s0 vals] =>
    match s0 with context [foldl] => fail 1 | _ => set (a1 := s0) end end.
  destruct (write_names vals a1 eq_refl) as [[Hh1 Hi1 _ He1] Hn1]; [cbn; lia|change (enums_num_ a1) with (enums_num_ s); rewrite E0; lia|].
  set (b1 := foldl _ a1 vals) in *. fields.
  match goal with |- context [foldl (fun s v => visit_enum_val v s) ?s0 vals] => set (a2 := s0) end.
  destruct (write_values vals a2 eq_refl) as [[Hh2 Hi2 _ He2] Hn2]. set (b2 := foldl _ a2 vals) in *.
  cbn [a1 a2 header_ indentation_count_ current_enum_ enums_num_] in *. rewrite Hi2, Hh2, He2, Hn2. subst a2. fields. rewrite Hi1, Hh1, He1, Hn1. subst a1. fields.
  rewrite !Nat.add_sub, E0, Z.add_0_l.
  split; [|split; [unfold indent_size_; lia|by split]]. unfold enum_lines, to_enum_lines, to_string_lines, size_lines, indent_size_. spell.
Qed.

(** A property of declarations holds when a module has it as soon as its declarations do. *)
Lemma decl_rect_list (P : decl -> Prop) :
  (forall l f i ds, Forall P ds -> P (Module l f i ds)) -> (forall l f vs, P (Enum l f vs)) -> (forall l f, P (EnumVal l f)) ->
  (forall l i d ds, P (Structure l i d ds)) -> (forall ds, P (Scope ds)) -> P PreDefined -> P Other -> forall d, P d.
Proof.
  intros HM HE HV HS HC HP HO. fix IH 1. intros [l f i ds|l f vs|l f|l i d ds|ds| |]; [|apply HE|apply HV|apply HS|apply HC|apply HP|apply HO].
  apply HM. induction ds as [|d ds IHds]; constructor; [apply IH|apply IHds].
Qed.

(** The enumerations whose functions are written: those outside of modules and those in modules that are not imported; not those declared in an
    interface, a structure or another declaration that is no module. *)
Fixpoint enums_of (d : decl) : list (text * text * list (text * text)) :=
  match d with
  | Module _ _ imported decls => if imported then [] else concat (map enums_of decls)
  | Enum local full vals => [(local, full, vals)]
  | _ => []
  end.

(** The counter is an [int]. *)
Definition countable (d : decl) : Prop := forall e, e ∈ enums_of d -> Z.of_nat (length (snd e)) < 2 ^ 31.

Definition visits (d : decl) : Prop := countable d -> forall s, resting s ->
  header_ (visit d s) = header_ s ++ unlines (decl_lines (indentation_count_ s) d) /\ indentation_count_ (visit d s) = indentation_count_ s /\ resting (visit d s).

Lemma visit_list ds : Forall visits ds -> (forall d, d ∈ ds -> countable d) -> forall s, resting s ->
  let s' := foldl (fun s d => visit d s) s ds in
  header_ s' = header_ s ++ unlines (concat (map (decl_lines (indentation_count_ s)) ds)) /\ indentation_count_ s' = indentation_count_ s /\ resting s'.
Proof.
  induction 1 as [|d ds Hd _ IH]; intros Hc s Hs; cbn [foldl map concat]; [by rewrite unlines_nil, app_nil_r|].
  destruct (Hd (Hc d ltac:(by left)) s Hs) as (Eh & Ei & Hs1). destruct (IH (fun d' H => Hc d' ltac:(by right)) (visit d s) Hs1) as (Eh2 & Ei2 & Hs2).
  split; [|split; [congruence|done]]. rewrite Eh2, Eh, Ei. spell.
Qed.

Lemma visit_spec d : visits d.
Proof.
  induction d as [l f i ds IH|l f vs|l f|l i d ds|ds| |] using decl_rect_list; intros Hc s Hs; cbn [visit decl_lines];
    try (by rewrite unlines_nil, app_nil_r).
  - destruct i; [by rewrite unlines_nil, app_nil_r|]. fields.
    destruct (visit_list ds IH) with (s := line (str "{") (line (str "namespace " ++ f) (deeper s))) as (Eh & Ei & Hr).
    + intros d Hd e He. apply Hc. cbn. apply list_elem_of_In, in_concat. exists (enums_of d). split; [by apply in_map, list_elem_of_In|by apply list_elem_of_In].
    + destruct Hs. by split.
    + fields. rewrite Ei, Eh. fields. rewrite !Nat.add_sub. split; [unfold indent_size_; spell|]. split; [done|]. destruct Hr. by split.
  - apply write_enum; [done|]. apply (Hc (l, f, vs)). by left.
  - unfold visit_enum_val. fields. destruct Hs as [? E]. fields. rewrite E. fields. rewrite unlines_nil, app_nil_r. split; [done|]. split; [done|]. by split.
Qed.

(** The lines of every enumeration are among those of the tree. *)
Lemma enum_among d : forall i l f vs, (l, f, vs) ∈ enums_of d -> exists j pre post, decl_lines i d = pre ++ enum_lines j l f vs ++ post.
Proof.
  induction d as [l f i ds IH|l f vs|l f|l i d ds|ds| |] using decl_rect_list; intros k l' f' vs'; cbn [enums_of decl_lines]; try (by intros ?%elem_of_nil).
  - destruct i; [by intros ?%elem_of_nil|]. intros Hin.
    assert (exists j pre post, concat (map (decl_lines (k + 3)) ds) = pre ++ enum_lines j l' f' vs' ++ post) as (j & pre & post & E).
    { induction IH as [|d ds Hd _ IHds]; cbn [map concat] in *; [by apply elem_of_nil in Hin|]. apply elem_of_app in Hin as [Hin|Hin].
      - destruct (Hd (k + 3)%nat _ _ _ Hin) as (j & pre & post & ->). exists j, pre, (post ++ concat (map (decl_lines (k + 3)) ds)). by rewrite <- !app_assoc.
      - destruct (IHds Hin) as (j & pre & post & ->). exists j, (decl_lines (k + 3) d ++ pre), post. by rewrite <- !app_assoc. }
    rewrite E. eexists j, (_ :: _ :: pre), (post ++ _).
    generalize (enum_lines j l' f' vs'). intros body. cbn [app]. rewrite <- !app_assoc. cbn [app]. reflexivity.
  - intros [= -> -> ->]%list_elem_of_singleton. eexists (k + 3)%nat, [], []. by rewrite app_nil_r.
Qed.

(** ** Running what was written *)

#[local] Transparent str indent.

Lemma skip_indent n t : skip_space (indent n ++ t) = skip_space t.
Proof. induction n as [|n IH]; [done|]. exact IH. Qed.

Section run.
Context (test : text -> option bool).

(** The first line of a text that begins with a letter is the statement. *)
Lemma run_line n t ls skip : skip_space t = t ->
  run test skip ((indent n ++ t) :: ls) =
  if bool_decide (t = str "}") then run test false ls
  else if skip then run test skip ls
  else match test t with
       | Some b => run test (negb b) ls
       | None => match strip_prefix (str "return ") t with
                 | Some v => Some (removelast v)
                 | None => match strip_prefix (str "throw ") t with Some _ => None | None => run test false ls end
                 end
       end.
Proof. intros E. cbn [run]. by rewrite skip_indent, E. Qed.

Lemma run_blank ls : test [] = None -> run test false ([] :: ls) = run test false ls.
Proof. intros E. cbn [run skip_space]. rewrite bool_decide_eq_false_2 by done. rewrite E. done. Qed.

(** A line that is neither an if, a brace, a return nor a throw is passed over. *)
Lemma run_other n t ls : skip_space t = t -> strip_prefix (str "}") t = None -> test t = None -> strip_prefix (str "return ") t = None ->
  strip_prefix (str "throw ") t = None -> run test false ((indent n ++ t) :: ls) = run test false ls.
Proof.
  intros Es Eb Et Er Ew. rewrite run_line by done. rewrite bool_decide_eq_false_2 by (intros ->; done). by rewrite Et, Er, Ew.
Qed.

Lemma run_return n v ls : test (str "return " ++ v ++ str ";") = None -> run test false ((indent n ++ str "return " ++ v ++ str ";") :: ls) = Some v.
Proof.
  intros Et. rewrite run_line by done. rewrite bool_decide_eq_false_2 by done. rewrite Et.
  change (strip_prefix (str "return ") (str "return " ++ v ++ str ";")) with (Some (v ++ str ";")). cbn. by rewrite removelast_last.
Qed.

(** An if that returns. *)
Lemma run_chunk i cond value b ls : test [] = None -> test (str "{") = None -> test (str "return " ++ value ++ str ";") = None ->
  skip_space cond = cond -> cond <> str "}" -> test cond = Some b ->
  run test false (chunk i cond value ++ ls) = if b then Some value else run test false ls.
Proof.
  intros E0 E1 E2 Es Hc Et. unfold chunk. cbn [app]. rewrite run_line, bool_decide_eq_false_2, Et by done.
  destruct b; cbn [negb].
  - rewrite run_other by done. by apply run_return.
  - rewrite run_line, bool_decide_eq_false_2 by done. rewrite run_line, bool_decide_eq_false_2 by done.
    rewrite <- (app_nil_r (str "}")) at 1. change (str "}" ++ []) with (str "}"). rewrite run_line, bool_decide_eq_true_2 by done. by apply run_blank.
Qed.
End run.

Lemma test_name_if t l : test_name t (str "if(" ++ quoted l ++ str " == typeString)") = Some (bool_decide (l = t)).
Proof.
  unfold test_name, quoted. change (strip_prefix (str "if(" ++ [DQUOTE]) (str "if(" ++ (DQUOTE :: l ++ [DQUOTE]) ++ str " == typeString)"))
    with (Some ((l ++ [DQUOTE]) ++ str " == typeString)")). cbn [mbind option_bind]. f_equal. apply bool_decide_ext.
  rewrite <- app_assoc. split; [|by intros ->]. apply app_inv_tail.
Qed.

Lemma test_value_if t f : test_value t (str "if(" ++ f ++ str " == typeEnum)") = Some (bool_decide (f = t)).
Proof.
  unfold test_value. change (strip_prefix (str "if(") (str "if(" ++ f ++ str " == typeEnum)")) with (Some (f ++ str " == typeEnum)")). cbn [mbind option_bind]. f_equal.
  apply bool_decide_ext. split; [|by intros ->]. apply app_inv_tail.
Qed.

Lemma run_name t i v ls : run (test_name t) false (name_chunk i v ++ ls) = if bool_decide (v.1 = t) then Some v.2 else run (test_name t) false ls.
Proof. apply run_chunk; try done. apply test_name_if. Qed.

Lemma run_value t i v ls : run (test_value t) false (value_chunk i v ++ ls) = if bool_decide (v.2 = t) then Some (quoted v.1) else run (test_value t) false ls.
Proof. apply run_chunk; try done. apply test_value_if. Qed.

(** The chunks of a table: the one of a key, when no other has it, and none when nothing has it. *)
Section table.
Context {K V : Type} `{EqDecision K} (f : text * text -> K) (g : text * text -> text) (test : text -> option bool) (ck : text * text -> list text) (k : K).
Context (Hck : forall v ls, run test false (ck v ++ ls) = if bool_decide (f v = k) then Some (g v) else run test false ls).

Lemma run_table vals v ls : NoDup (map f vals) -> v ∈ vals -> f v = k -> run test false ((vals ≫= ck) ++ ls) = Some (g v).
Proof.
  intros Hn Hin Hv. induction vals as [|w vals IH]; [by apply elem_of_nil in Hin|]. cbn [map] in Hn. apply NoDup_cons in Hn as [Hw Hn].
  rewrite bind_cons, <- app_assoc, Hck. apply elem_of_cons in Hin as [<-|Hin]; [by rewrite bool_decide_eq_true_2|].
  rewrite bool_decide_eq_false_2; [by apply IH|]. intros Ew. apply Hw. rewrite Ew, <- Hv. by apply list_elem_of_In, in_map, list_elem_of_In.
Qed.

Lemma run_no_key vals ls : k ∉ map f vals -> run test false ((vals ≫= ck) ++ ls) = run test false ls.
Proof.
  induction vals as [|w vals IH]; [done|]. cbn [map]. rewrite not_elem_of_cons. intros [Hw Hn]. rewrite bind_cons, <- app_assoc, Hck, bool_decide_eq_false_2 by congruence.
  by apply IH.
Qed.
End table.

(** Lines that head no later function of an enumeration's helpers. *)
Definition inner (l : text) : bool :=
  match strip_prefix (str "std::string ") (skip_space l), strip_prefix (str "int ") (skip_space l) with None, None => true | _, _ => false end.

Lemma body_of_skip head ls ls' : Forall (fun l => inner l = true) ls ->
  is_Some (strip_prefix (str "std::string ") head) \/ is_Some (strip_prefix (str "int ") head) -> body_of head (ls ++ ls') = body_of head ls'.
Proof.
  intros Hls Hh. induction Hls as [|l ls Hl _ IH]; [done|]. cbn [app body_of]. rewrite bool_decide_eq_false_2; [done|]. intros E. unfold inner in Hl. rewrite E in Hl.
  destruct Hh as [[x Ex]|[x Ex]]; rewrite Ex in Hl; [done|]. by destruct (strip_prefix (str "std::string ") head).
Qed.

Lemma body_of_head head i ls : skip_space head = head -> body_of head ((indent i ++ head) :: ls) = ls.
Proof. intros E. cbn [body_of]. by rewrite skip_indent, E, bool_decide_eq_true_2. Qed.

Lemma inner_line i t : inner t = true -> inner (indent i ++ t) = true.
Proof. unfold inner. by rewrite skip_indent. Qed.

Lemma inner_chunks {V} (ck : V -> list text) vals : (forall v, Forall (fun l => inner l = true) (ck v)) -> Forall (fun l => inner l = true) (vals ≫= ck).
Proof. intros H. induction vals as [|v vals IH]; [constructor|]. rewrite bind_cons. by apply Forall_app. Qed.

Lemma inner_to_enum i local full vals : Forall (fun l => inner l = true) (to_enum_lines i local full vals).
Proof.
  unfold to_enum_lines. repeat apply Forall_app_2; [|apply inner_chunks; intros v; unfold name_chunk, chunk|]; repeat constructor; try (by apply inner_line); done.
Qed.

Lemma inner_to_string i local full vals : Forall (fun l => inner l = true) (tail (to_string_lines i local full vals)).
Proof.
  unfold to_string_lines. cbn [app tail]. constructor; [by apply inner_line|]. apply Forall_app_2; [apply inner_chunks; intros v; unfold value_chunk, chunk|];
    repeat constructor; try (by apply inner_line); done.
Qed.

Section helpers.
Context (i : nat) (local full : text) (vals : list (text * text)).

Lemma StringTo_run t : exists end_, StringTo local full (enum_lines i local full vals) t = run (test_name t) false ((vals ≫= name_chunk (i + 3)) ++ end_) /\
  run (test_name t) false end_ = None.
Proof.
  eexists. unfold StringTo, enum_lines, to_enum_lines. cbn [app]. rewrite body_of_head by reflexivity. split.
  { rewrite run_other by reflexivity. rewrite <- app_assoc. reflexivity. }
  cbn [app]. rewrite run_other, run_blank, run_other by reflexivity. rewrite run_line by reflexivity. by rewrite bool_decide_eq_false_2.
Qed.

Lemma ToString_run t : exists end_, ToString local full (enum_lines i local full vals) t = run (test_value t) false ((vals ≫= value_chunk (i + 3)) ++ end_) /\
  run (test_value t) false end_ = Some (quoted (no_value full)).
Proof.
  eexists. unfold ToString, enum_lines. rewrite body_of_skip by (apply inner_to_enum || (left; by eexists)). unfold to_string_lines. cbn [app].
  rewrite body_of_head by reflexivity. split.
  { rewrite run_other by reflexivity. rewrite <- app_assoc. reflexivity. }
  cbn [app]. rewrite run_other, run_blank by reflexivity. by apply run_return.
Qed.

Lemma Size_run : Size local (enum_lines i local full vals) = Some (fmt_int 0 (Z.of_nat (length vals))).
Proof.
  unfold Size, enum_lines. rewrite body_of_skip by (apply inner_to_enum || (right; by eexists)).
  replace (to_string_lines i local full vals) with
    ([indent i ++ str "std::string " ++ local ++ str "ToString(enum " ++ full ++ str " typeEnum)"] ++ tail (to_string_lines i local full vals)) by reflexivity.
  rewrite <- app_assoc. cbn [app body_of]. rewrite skip_indent, bool_decide_eq_false_2 by done. rewrite body_of_skip by (apply inner_to_string || (right; by eexists)).
  unfold size_lines. rewrite body_of_head by reflexivity. rewrite run_other by reflexivity. by apply run_return.
Qed.
End helpers.

(** The header is text that ends a line, the lines of an enumeration and the rest. *)
Lemma root_among g decls local full vals : (forall d, d ∈ decls -> countable d) -> (exists d, d ∈ decls /\ (local, full, vals) ∈ enums_of d) ->
  exists i before after, ended before /\ snd (fst (visit_root g decls)) = before ++ unlines (enum_lines i local full vals) ++ after.
Proof.
  intros Hc (d & Hd & Hin). unfold visit_root, visit_scope. cbn zeta. cbn [fst snd].
  match goal with |- context [foldl _ ?s0 decls] => set (s1 := s0) end.
  destruct (visit_list decls) with (s := s1) as (Eh & _ & _); [apply Forall_forall; intros; apply visit_spec|done|by split|].
  cbn [header_ put]. fold s1. rewrite Eh.
  destruct (list_elem_of_split _ _ Hd) as (ds1 & ds2 & ->). destruct (enum_among d (indentation_count_ s1) _ _ _ Hin) as (j & pre & post & El).
  rewrite map_app, concat_app. cbn [map concat]. rewrite El.
  eexists j, (header_ s1 ++ unlines (concat (map (decl_lines (indentation_count_ s1)) ds1) ++ pre)), _. split.
  - apply ended_app; [|apply ended_unlines]. subst s1. cbn [header_ put]. unfold header_guard_start, generation_comment, idl_includes. cbn [app].
    repeat (apply ended_endl || apply ended_app); try (by left). destruct (included_idl_files g) as [|f0 fs]; [by left|]. apply ended_app; [apply ended_endl|].
    generalize (f0 :: fs). intros fs'. induction fs' as [|f fs' IH]; [by left|]. rewrite bind_cons. apply ended_app; [|done].
    destruct (find_char DOT f); [apply ended_endl|by left].
  - rewrite !unlines_app, <- !app_assoc. reflexivity.
Qed.

(** A name of IDL has no line break. *)
Definition clean (t : text) : Prop := NL ∉ t.

Lemma clean_app s t : clean s -> clean t -> clean (s ++ t).
Proof. unfold clean. rewrite elem_of_app. tauto. Qed.

Lemma clean_const t : forallb (fun c => negb (bool_decide (c = NL))) t = true -> clean t.
Proof. intros H Hin. rewrite forallb_forall in H. apply list_elem_of_In, H in Hin. by rewrite bool_decide_eq_true_2 in Hin. Qed.

Lemma clean_indent n t : clean t -> clean (indent n ++ t).
Proof. intros Ht. apply clean_app; [|done]. intros Hin. apply elem_of_replicate in Hin as [? _]. done. Qed.

Lemma clean_quoted t : clean t -> clean (quoted t).
Proof. intros Ht. unfold quoted. apply (clean_app [DQUOTE]); [by apply clean_const|]. apply clean_app; [done|by apply clean_const]. Qed.

Lemma clean_number n : 0 <= n -> clean (fmt_int 0 n).
Proof.
  intros Hn Hin. unfold fmt_int in Hin. rewrite (proj2 (Z.ltb_ge n 0)) in Hin by lia. unfold fmt_nat in Hin.
  pose proof (digits_w_digits (Nat.max 0 (ndigits 20 n)) n Hn) as Hd. apply (proj1 (Forall_forall _ _) Hd) in Hin.
  vm_compute in Hin. done.
Qed.

Ltac tidy_line := repeat (apply clean_indent || apply clean_quoted || (apply clean_const; reflexivity) || assumption || apply clean_app).

Lemma clean_chunks ck (vals : list (text * text)) : (forall v, clean v.1 -> clean v.2 -> Forall clean (ck v)) ->
  Forall (fun v => clean v.1 /\ clean v.2) vals -> Forall clean (vals ≫= ck).
Proof. intros Hck. induction 1 as [|v vals [H1 H2] _ IH]; [constructor|]. rewrite bind_cons. apply Forall_app_2; [by apply Hck|done]. Qed.

Lemma clean_lines i local full vals : clean local -> clean full -> Forall (fun v => clean v.1 /\ clean v.2) vals -> Forall clean (enum_lines i local full vals).
Proof.
  intros Hl Hf Hv. unfold enum_lines, to_enum_lines, to_string_lines, size_lines, no_name, no_value.
  repeat apply Forall_app_2; try (apply clean_chunks; [intros v H1 H2; unfold name_chunk, value_chunk, chunk|done]); repeat constructor; tidy_line.
  apply clean_number. lia.
Qed.

(** C20 (roundtrip). For every enumeration that is declared outside of modules or in a module that is not imported - one that is declared in an
    interface, a valuetype, a structure or a union gets no helpers - with names and values that differ, as IDL requires, the header that the back
    end writes has a block of lines in which StringToE gives the enumerator of each declared name and throws on any other text, EToString gives
    back the name of each enumerator and an error text for any other value, and ESize returns their number, as long as every enumeration of the
    file has fewer than 2^31 enumerators. *)
Theorem enum_helpers_roundtrip g decls local full vals :
  (forall d, d ∈ decls -> countable d) -> (exists d, d ∈ decls /\ (local, full, vals) ∈ enums_of d) ->
  NoDup (map fst vals) -> NoDup (map snd vals) -> clean local -> clean full -> Forall (fun v => clean v.1 /\ clean v.2) vals ->
  exists pre body post, lines_of (snd (fst (visit_root g decls))) = pre ++ body ++ post /\
    (forall l f, (l, f) ∈ vals -> StringTo local full body l = Some f /\ ToString local full body f = Some (quoted l)) /\
    (forall t, t ∉ map fst vals -> StringTo local full body t = None) /\
    (forall t, t ∉ map snd vals -> ToString local full body t = Some (quoted (no_value full))) /\
    Size local body = Some (fmt_int 0 (Z.of_nat (length vals))).
Proof.
  intros Hc Hin Hn1 Hn2 Hl Hf Hv. destruct (root_among g decls local full vals Hc Hin) as (i & before & after & Hb & E).
  destruct (lines_of_ended before (unlines (enum_lines i local full vals) ++ after) Hb) as [pre E2].
  exists pre, (enum_lines i local full vals), (lines_of after). split; [|split; [|split; [|split]]].
  - rewrite E, E2. f_equal. apply lines_of_unlines. by apply clean_lines.
  - intros l f Hlf. split.
    + destruct (StringTo_run i local full vals l) as (end_ & -> & _). by apply (run_table fst snd _ _ l (run_name l _) vals (l, f)).
    + destruct (ToString_run i local full vals f) as (end_ & -> & _).
      by apply (run_table snd (fun v => quoted v.1) _ _ f (run_value f _) vals (l, f)).
  - intros t Ht. destruct (StringTo_run i local full vals t) as (end_ & -> & Hend). by rewrite (run_no_key fst snd _ _ t (run_name t _)).
  - intros t Ht. destruct (ToString_run i local full vals t) as (end_ & -> & Hend). by rewrite (run_no_key snd (fun v => quoted v.1) _ _ t (run_value t _)).
  - apply Size_run.
Qed.

(** A file with a module of one enumeration. *)
Definition vehicle_file : globals :=
  Globals (str "vehicle.idl") [str "units.idl"] (str "2017111_000") [] true (str "TAFSupport") true (str "EnumHelper") (str "1.0", str "2.4", str "Jan").
Definition states : list (text * text) := [(str "IDLE", str "Fleet::IDLE"); (str "MOVING", str "Fleet::MOVING")].
Definition vehicle : list decl := [Module (str "Fleet") (str "Fleet") false [Enum (str "State") (str "Fleet::State") states; Structure (str "Position") false true []]].

Lemma enum_helpers_roundtrip_witness :
  enums_of (nth 0 vehicle Other) = [(str "State", str "Fleet::State", states)] /\
  exists pre body post, lines_of (snd (fst (visit_root vehicle_file vehicle))) = pre ++ body ++ post /\
    StringTo (str "State") (str "Fleet::State") body (str "MOVING") = Some (str "Fleet::MOVING").
Proof.
  split; [vm_compute; reflexivity|].
  destruct (enum_helpers_roundtrip vehicle_file vehicle (str "State") (str "Fleet::State") states) as (pre & body & post & E & H & _).
  - intros d [->|Hd]%elem_of_cons; [|by apply elem_of_nil in Hd]. intros e [->|He]%elem_of_cons; [vm_compute; reflexivity|by apply elem_of_nil in He].
  - eexists. split; [apply elem_of_cons; left; reflexivity|]. apply elem_of_cons. left. reflexivity.
  - apply (bool_decide_eq_true_1 _). vm_compute. reflexivity.
  - apply (bool_decide_eq_true_1 _). vm_compute. reflexivity.
  - apply clean_const. reflexivity.
  - apply clean_const. reflexivity.
  - repeat constructor; apply clean_const; reflexivity.
  - exists pre, body, post. split; [exact E|]. apply (H (str "MOVING") (str "Fleet::MOVING")). apply elem_of_cons. right. apply elem_of_cons. left. reflexivity.
Defined.

(** ** Where the header is not what was meant *)

Definition header_lines (g : globals) (decls : list decl) : list text := lines_of (snd (fst (visit_root g decls))).

(** What is declared in an interface, a structure or the like is not visited: an enumeration there gets no helpers. *)
Lemma nested_enums_get_no_helpers g ds ds' : header_lines g [Scope ds] = header_lines g [] /\
  forall l f i dcps, header_lines g [Module l f false [Structure l i dcps ds']] = header_lines g [Module l f false []].
Proof. done. Qed.

(** A module in a module: its helpers are put in the namespace of its full name inside that of the outer one, A::A::B for A::B. *)
Definition nested_modules : list decl := [Module (str "A") (str "A") false [Module (str "B") (str "A::B") false [Enum (str "E") (str "A::B::E") [(str "X", str "A::B::X")]]]].

Definition opens (l : text) : bool := match strip_prefix (str "namespace ") (skip_space l) with Some _ => true | None => false end.

Lemma nested_namespaces : List.filter opens (header_lines vehicle_file nested_modules) = [str "   namespace A"; str "      namespace A::B"].
Proof. vm_compute. reflexivity. Qed.

(** An enumeration outside of modules is written whether its file is the main one or an included one: the visit does not ask. *)
Lemma global_enum_always local full vals g : exists i before after, snd (fst (visit_root g [Enum local full vals])) = before ++ unlines (enum_lines i local full vals) ++ after
  \/ ~ (Z.of_nat (length vals) < 2 ^ 31).
Proof.
  destruct (Z.lt_ge_cases (Z.of_nat (length vals)) (2 ^ 31)) as [Hn|Hn]; [|exists 0%nat, [], []; right; lia].
  destruct (root_among g [Enum local full vals] local full vals) as (i & before & after & _ & E).
  - intros d [->|Hd]%elem_of_cons; [|by apply elem_of_nil in Hd]. intros e [->|He]%elem_of_cons; [done|by apply elem_of_nil in He].
  - eexists. split; [apply elem_of_cons; by left|]. apply elem_of_cons. by left.
  - exists i, before, after. by left.
Qed.

(** The name of an included file is cut at its first dot: of one in a directory above, nothing is left. *)
Lemma include_of_parent ext rest : idl_includes ext [str "../" ++ rest] =
  endl (str "// IDL Includes 1") ++ endl (str "#include " ++ quoted (ext ++ str ".h") ++ str " // " ++ str "../" ++ rest).
Proof. unfold idl_includes. rewrite bind_cons. cbn [mbind list_bind]. by rewrite app_nil_r. Qed.

(** The date in the guards is not padded: two days of a year may have the same text. *)
Lemma dates_not_padded : create_date 2017 1 11 0 0 0 = create_date 2017 11 1 0 0 0.
Proof. reflexivity. Qed.

(** ** The guards *)

(** What may stand in an identifier. *)
Definition word_char (c : ascii) : bool := isdigit c || (65 <=? code c) && (code c <=? 90) || (97 <=? code c) && (code c <=? 122) || (code c =? 95).

Definition printable (c : ascii) : bool := (32 <=? code c) && (code c <=? 126).

(** Whatever printable characters the file's name has, the macro that guards the header is made of letters, digits and underscores. *)
Lemma header_id_word date name : Forall (fun c => printable c = true) name -> Forall (fun c => printable c = true) date ->
  Forall (fun c => word_char c = true) (create_header_id date name true).
Proof.
  intros Hn Hd. unfold create_header_id. apply Forall_fmap. eapply Forall_impl; [apply Forall_app_2; [exact Hn|constructor; [|exact Hd]]|]; [done|].
  intros c Hc. cbn. destruct c as [[] [] [] [] [] [] [] []]; vm_compute in Hc |- *; congruence.
Qed.
