(* ===== verification/IdlTaf.v ===== *)
(** * The back end of the IDL compiler: data support for topics, options, the files it writes

    For every structure that is a topic's type the back end writes the declarations of its support, publisher, reader and writer
    types, in the namespaces of the modules around it.  The options are taken from the compiler's command line with ACE's scanner of
    arguments, [ConfigLoad.ArgShifter]. *)

From S2P Require Import Prelude CString Text ConfigLoad Idl IdlEnum.
From Stdlib Require Import Ascii.

(** ** VisitorTafSupport *)

(** TAF/idl/VisitorTafSupport.h:36-61 [VisitorTafSupport]. *)
Record taf_visitor := TafVisitor { theader_ : text; timpl_ : text; current_namespace_ : text; tindentation_count_ : nat }.

Definition puth (t : text) (s : taf_visitor) : taf_visitor := TafVisitor (theader_ s ++ t) (timpl_ s) (current_namespace_ s) (tindentation_count_ s).
Definition puti (t : text) (s : taf_visitor) : taf_visitor := TafVisitor (theader_ s) (timpl_ s ++ t) (current_namespace_ s) (tindentation_count_ s).
Definition in_namespace (m : text) (n : nat) (s : taf_visitor) : taf_visitor := TafVisitor (theader_ s) (timpl_ s) m n.

(** TAF/idl/VisitorTafSupport.cpp:225-229 [VisitorTafSupport::data_support_name]. *)
Definition data_support_name (name : text) : text := name ++ str "_DataSupport".

(** TAF/idl/VisitorTafSupport.cpp:174-181 [VisitorTafSupport::visit_structure]. The types of the topic's data, before they are indented. *)
Definition data_types (ns name : text) : list text :=
  let ds := data_support_name name in
  [str "typedef DEFINE_DDS_TYPESUPPORT(" ++ ns ++ str ", " ++ name ++ str ") " ++ ds ++ str ";";
   str "//typedef " ++ ds ++ str "::_data_holder_type" ++ name ++ str "_HolderType";
   str "typedef " ++ ds ++ str "::_data_type    " ++ name ++ str "_TopicType;";
   str "typedef " ++ ds ++ str "::_data_type    " ++ name ++ str "_CORBAType;";
   str "typedef " ++ ds ++ str "::_data_type    " ++ name ++ str "_TopicAdapter;";
   str "typedef " ++ ds ++ str "::_data_type    " ++ name ++ str "_CORBAAdapter;"].

(** TAF/idl/VisitorTafSupport.cpp:183-188 [VisitorTafSupport::visit_structure]. The types of its entities. *)
Definition entity_types (name : text) : list text :=
  let ds := data_support_name name in
  [str "typedef class TAFDDS::TOPICReaderListener< " ++ ds ++ str " > " ++ name ++ str "_DataListener; ";
   str "typedef class TAFDDS::DDS_Subscriber< TAFDDS::SubscriberListener > " ++ name ++ str "_Subscriber;";
   str "typedef class TAFDDS::DDS_Publisher< TAFDDS::PublisherListener > " ++ name ++ str "_Publisher;";
   str "typedef class TAFDDS::DDS_Topic< " ++ ds ++ str " > " ++ name ++ str "_Topic;";
   str "typedef class TAFDDS::DDS_Reader< " ++ name ++ str "_Topic, " ++ name ++ str "_DataListener > " ++ name ++ str "_Reader;";
   str "typedef class TAFDDS::DDS_Writer< " ++ ds ++ str " > " ++ name ++ str "_Writer;"].

Definition indented (n : nat) (ls : list text) : list text := map (fun l => indent n ++ l) ls.

(** TAF/idl/VisitorTafSupport.cpp:159-192 [VisitorTafSupport::visit_structure]. *)
Definition visit_structure (local : text) (imported dcps : bool) (s : taf_visitor) : taf_visitor :=
  if imported then s
  else if dcps then
    let n := tindentation_count_ s in
    puth (unlines (indented n (data_types (current_namespace_ s) local) ++ [[]] ++ indented n (entity_types local) ++ [[]])) s
  else s.

(** TAF/idl/VisitorTafSupport.cpp:195-223 [VisitorTafSupport::visit_module]. And the dispatch of a visit on a declaration. *)
Fixpoint taf_visit (d : decl) (s : taf_visitor) : taf_visitor :=
  match d with
  | Module module_name _ imported decls =>
      if imported then s
      else
        let n := tindentation_count_ s in
        let s := puth (endl [] ++ endl (indent n ++ str "namespace " ++ module_name) ++ endl (indent n ++ str "{")) s in
        let s := puti (endl [] ++ endl (str "namespace " ++ module_name) ++ endl (str "{")) s in
        let s := in_namespace module_name (n + 3) s in
        let s := foldl (fun s d => taf_visit d s) s decls in
        let s := in_namespace (current_namespace_ s) (tindentation_count_ s - 3) s in
        let s := puth (endl (indent (tindentation_count_ s) ++ str "} // namespace " ++ module_name)) s in
        puti (endl (str "} // namespace " ++ module_name)) s
  | Structure local imported dcps _ => visit_structure local imported dcps s
  | _ => s
  end.

(** TAF/idl/VisitorUtils.cpp:63-99 [VisitorUtils::data_support_includes]. *)
Definition data_support_includes (filename : text) : text :=
  let include (pre post : text) := endl (str "#include " ++ quoted (pre ++ filename ++ post)) in
  [NL] ++ endl (str "#if defined(TAF_USES_DDSCORBA)") ++ [NL] ++ [NL] ++ include [] (str "C.h") ++ include [] (str "S.h") ++
  [NL] ++ endl (str "#elif defined(TAF_USES_NDDS)") ++ [NL] ++ include [] (str ".h") ++
  [NL] ++ endl (str "#elif defined(TAF_USES_COREDX)") ++ [NL] ++ include [] (str ".hh") ++
  [NL] ++ endl (str "#elif defined(TAF_USES_OPENSPLICE)") ++ [NL] ++ include (str "ccpp_") (str ".h") ++
  [NL] ++ endl (str "#endif") ++ [NL] ++
  endl (str "#if defined(TAF_USES_OPENDDS)") ++ [NL] ++ include [] (str "TypeSupportC.h") ++ include [] (str "TypeSupportS.h") ++ include [] (str "TypeSupportImpl.h") ++
  [NL] ++ endl (str "#elif defined(TAF_USES_NDDS)") ++ [NL] ++ include [] (str "Support.h") ++ include [] (str "Plugin.h") ++
  [NL] ++ endl (str "#elif defined(TAF_USES_COREDX)") ++ [NL] ++ include [] (str "TypeSupport.hh") ++ include [] (str "DataReader.hh") ++ include [] (str "DataWriter.hh") ++
  [NL] ++ endl (str "#elif defined(TAF_USES_OPENSPLICE)") ++ [NL] ++
  [NL] ++ endl (str "#if defined(TAF_USES_DDSCORBA)") ++ [NL] ++ include [] (str "DcpsC.h") ++
  [NL] ++ endl (str "#else") ++ [NL] ++ include [] (str "Dcps.h") ++ [NL] ++ endl (str "#endif") ++ include [] (str "Dcps_Impl.h") ++
  [NL] ++ endl (str "#else") ++ endl (str "#error ERROR : You have not set TAF DDS flags for your build") ++ [NL] ++ endl (str "#endif") ++ [NL].

(** TAF/idl/VisitorUtils.cpp:134-139 [VisitorUtils::taf_dds_headers]. *)
Definition taf_dds_headers : text := endl [] ++ endl (str "#include " ++ quoted (str "dds/DDSPubSub.h")) ++ endl [].

Definition taf_generator_name : text := str "LASAGNE_TAFSupport".

(** TAF/idl/VisitorTafSupport.cpp:63-157 [VisitorTafSupport::visit_root]. The header and the implementation file. *)
Definition taf_visit_root (g : globals) (decls : list decl) : list (text * text) :=
  let filename := up_to_dot (stripped_filename g) in
  let header_id := create_header_id (date_string g) filename true ++ taf_generator_name in
  let s := puth (header_guard_start header_id ++ generation_comment g taf_generator_name ++ idl_includes (taf_support_ext g) (included_idl_files g)
                   ++ data_support_includes filename ++ taf_dds_headers) (TafVisitor [] [] [] 0) in
  let filename := filename ++ taf_support_ext g in
  let s := puti (str "#include " ++ quoted (filename ++ str ".h") ++ [NL; NL]) s in
  let s := foldl (fun s d => taf_visit d s) s decls in
  let s := puth (header_guard_end header_id) s in
  [(output_dir g ++ filename ++ str ".h", theader_ s); (output_dir g ++ filename ++ str ".cpp", timpl_ s)].

(** TAF/idl/be_produce.cpp:49-81 [BE_produce]. The files that are written, in order. *)
Definition BE_produce (g : globals) (root : list decl) : list (text * text) :=
  (if taf_support g then taf_visit_root g root else []) ++ (if enum_support g then [fst (visit_root g root)] else []).

(** ** The namespaces of the support header *)

(** The namespaces open behind some lines, [None] when one is closed that is not the last opened. *)
Fixpoint nest (open_ : list text) (ls : list text) : option (list text) :=
  match ls with
  | [] => Some open_
  | l :: ls =>
      match strip_prefix (str "namespace ") (skip_space l), strip_prefix (str "} // namespace ") (skip_space l) with
      | Some m, _ => nest (m :: open_) ls
      | None, Some m => match open_ with x :: open_ => if decide (x = m) then nest open_ ls else None | [] => None end
      | None, None => nest open_ ls
      end
  end.

Lemma nest_app open_ ls ls' : nest open_ (ls ++ ls') = nest open_ ls ≫= (fun o => nest o ls').
Proof.
  revert open_. induction ls as [|l ls IH]; intros o; [done|]. cbn [app nest]. destruct (strip_prefix (str "namespace ") _); [apply IH|].
  destruct (strip_prefix (str "} // namespace ") _); [|apply IH]. destruct o as [|x o]; [done|]. destruct (decide (x = _)); [apply IH|done].
Qed.

(** Lines that open and close nothing in the end. *)
Definition level (ls : list text) : Prop := forall open_, nest open_ ls = Some open_.

Lemma level_app ls ls' : level ls -> level ls' -> level (ls ++ ls').
Proof. intros H1 H2 o. rewrite nest_app, H1. apply H2. Qed.

Lemma nest_open o n m ls : nest o ((indent n ++ str "namespace " ++ m) :: ls) = nest (m :: o) ls.
Proof. cbn [nest]. by rewrite skip_indent. Qed.

Lemma nest_close o n m ls : nest (m :: o) ((indent n ++ str "} // namespace " ++ m) :: ls) = nest o ls.
Proof.
  cbn [nest]. rewrite skip_indent. change (strip_prefix (str "namespace ") (skip_space (str "} // namespace " ++ m))) with (@None text).
  change (strip_prefix (str "} // namespace ") (skip_space (str "} // namespace " ++ m))) with (Some m). cbv iota. by rewrite decide_True.
Qed.

(** Lines that are neither. *)
Definition plain (t : text) : Prop := strip_prefix (str "namespace ") (skip_space t) = None /\ strip_prefix (str "} // namespace ") (skip_space t) = None.

Lemma nest_plain o n t ls : plain t -> nest o ((indent n ++ t) :: ls) = nest o ls.
Proof. intros [E1 E2]. cbn [nest]. by rewrite skip_indent, E1, E2. Qed.

Lemma level_module n k m ls : level ls -> level ([[]; indent n ++ str "namespace " ++ m; indent n ++ str "{"] ++ ls ++ [indent k ++ str "} // namespace " ++ m]).
Proof.
  intros Hl o. cbn [app]. change (@nil ascii) with (indent 0 ++ []). rewrite nest_plain by done. rewrite nest_open, nest_plain by done.
  rewrite nest_app, Hl. cbn [mbind option_bind]. apply nest_close.
Qed.

(** The lines that a visit of a declaration adds to the header; those of a structure depend on the namespace the visitor is in. *)
Record adds (hs is_ : list text) (s s' : taf_visitor) : Prop := {
  ad_header : theader_ s' = theader_ s ++ unlines hs;
  ad_impl : timpl_ s' = timpl_ s ++ unlines is_;
  ad_indent : tindentation_count_ s' = tindentation_count_ s;
}.

Lemma adds_nil s : adds [] [] s s.
Proof. split; rewrite ?unlines_nil, ?app_nil_r; done. Qed.

Lemma adds_trans hs is_ hs' is' s1 s2 s3 : adds hs is_ s1 s2 -> adds hs' is' s2 s3 -> adds (hs ++ hs') (is_ ++ is') s1 s3.
Proof. intros [H1 H2 H3] [H4 H5 H6]. split; [| |congruence]; rewrite unlines_app, app_assoc; congruence. Qed.

Definition level_visit (d : decl) : Prop := forall s, exists hs is_, adds hs is_ s (taf_visit d s) /\ level hs /\ level is_.

Lemma level_nil : level [].
Proof. intros o. reflexivity. Qed.

Lemma level_list ds : Forall level_visit ds -> forall s, exists hs is_, adds hs is_ s (foldl (fun s d => taf_visit d s) s ds) /\ level hs /\ level is_.
Proof.
  induction 1 as [|d ds Hd _ IH]; intros s; cbn [foldl]; [exists [], []; split; [apply adds_nil|split; apply level_nil]|].
  destruct (Hd s) as (h1 & i1 & Ha & Hl1 & Hl2). destruct (IH (taf_visit d s)) as (h2 & i2 & Ha2 & Hl3 & Hl4).
  exists (h1 ++ h2), (i1 ++ i2). split; [by eapply adds_trans|]. split; by apply level_app.
Qed.

Lemma level_plain n ts : Forall plain ts -> level (indented n ts).
Proof. unfold indented. induction 1 as [|t ts Ht _ IH]; intros o; [done|]. cbn [map]. rewrite nest_plain by done. apply IH. Qed.

Lemma level_structure n ns name : level (indented n (data_types ns name) ++ [[]] ++ indented n (entity_types name) ++ [[]]).
Proof.
  repeat apply level_app; try (intros o; reflexivity); apply level_plain; repeat constructor.
Qed.

Lemma visit_level d : level_visit d.
Proof.
  induction d as [l f i ds IH|l f vs|l f|l i d ds|ds| |] using decl_rect_list; intros s; cbn [taf_visit];
    try (exists [], []; split; [apply adds_nil|split; apply level_nil]).
  - destruct i; [exists [], []; split; [apply adds_nil|split; apply level_nil]|].
    match goal with |- context [foldl _ ?s0 ds] => set (s1 := s0) end.
    destruct (level_list ds IH s1) as (hs & is_ & [Hh Hi Hn] & L1 & L2). set (s2 := foldl _ s1 ds) in *. clearbody s2.
    exists ([[]; indent (tindentation_count_ s) ++ str "namespace " ++ l; indent (tindentation_count_ s) ++ str "{"] ++ hs ++
             [indent (tindentation_count_ s) ++ str "} // namespace " ++ l]),
           ([[]; indent 0 ++ str "namespace " ++ l; indent 0 ++ str "{"] ++ is_ ++ [indent 0 ++ str "} // namespace " ++ l]).
    split; [|split; by apply level_module].
    split; cbn [theader_ timpl_ tindentation_count_ puth puti in_namespace]; rewrite ?Hn; [rewrite Hh|rewrite Hi|]; subst s1;
      cbn [theader_ timpl_ tindentation_count_ puth puti in_namespace]; [| |lia]; rewrite ?Nat.add_sub; spell.
  - unfold visit_structure. destruct i; [exists [], []; split; [apply adds_nil|split; apply level_nil]|].
    destruct d; [|exists [], []; split; [apply adds_nil|split; apply level_nil]].
    eexists _, []. split; [|split; [apply level_structure|apply level_nil]]. split; cbn; [reflexivity|by rewrite app_nil_r|done].
Qed.

(** The namespaces that the support files open for the modules are closed in the reverse order, each by its name, whatever the files declare. *)
Lemma supports_nested decls s : exists hs is_, adds hs is_ s (foldl (fun s d => taf_visit d s) s decls) /\
  nest [] hs = Some [] /\ nest [] is_ = Some [].
Proof.
  destruct (level_list decls) with (s := s) as (hs & is_ & Ha & H1 & H2); [apply Forall_forall; intros; apply visit_level|].
  exists hs, is_. split; [done|]. split; [apply H1|apply H2].
Qed.

(** A structure behind an inner module gets the inner module's name for its namespace: the visitor does not put the outer one back. *)
Definition after_inner : list decl :=
  [Module (str "A") (str "A") false [Structure (str "First") false true []; Module (str "B") (str "A::B") false []; Structure (str "Second") false true []]].

Definition supports (g : globals) (decls : list decl) : list text :=
  List.filter (fun l => match strip_prefix (str "typedef DEFINE_DDS_TYPESUPPORT(") (skip_space l) with Some _ => true | None => false end)
    (lines_of (snd (nth 0 (taf_visit_root g decls) ([], [])))).

Lemma namespace_not_restored : supports vehicle_file after_inner =
  [str "   typedef DEFINE_DDS_TYPESUPPORT(A, First) First_DataSupport;"; str "   typedef DEFINE_DDS_TYPESUPPORT(B, Second) Second_DataSupport;"].
Proof. vm_compute. reflexivity. Qed.

(** ** Options *)

(** TAF/idl/be_global.cpp:49-60 [BE_GlobalData]. With the settings that the options change. *)
Record be_options := BeOptions { o_output_dir : text; o_taf : bool; o_taf_ext : text; o_enum : bool; o_enum_ext : text; o_debug : Z }.

Definition be_defaults : be_options := BeOptions [] true (str "TAFSupport") false (str "EnumHelper") 0.

Section options.
Context {Sh : Type} `{ArgShifter Sh}.

(** TAF/idl/be_init.cpp:44-95 [BE_init]. The loop over the arguments; [None] when the fuel is used up. *)
Fixpoint be_scan (fuel : nat) (sh : Sh) (o : be_options) : option be_options :=
  match fuel with
  | O => None
  | S fuel =>
      if negb (is_anything_left sh) then Some o
      else if is_parameter_next sh then be_scan fuel (ignore_arg sh) o
      else if cur_arg_matches (str "-notaf") sh then be_scan fuel (consume_arg sh) (BeOptions (o_output_dir o) false (o_taf_ext o) (o_enum o) (o_enum_ext o) (o_debug o))
      else if cur_arg_matches (str "-tafext") sh then
        let sh := consume_arg sh in
        if is_parameter_next sh then be_scan fuel (consume_arg sh) (BeOptions (o_output_dir o) (o_taf o) (get_current sh) (o_enum o) (o_enum_ext o) (o_debug o))
        else be_scan fuel sh o
      else if cur_arg_matches (str "-enum") sh then be_scan fuel (consume_arg sh) (BeOptions (o_output_dir o) (o_taf o) (o_taf_ext o) true (o_enum_ext o) (o_debug o))
      else if cur_arg_matches (str "-enumext") sh then
        let sh := consume_arg sh in
        if is_parameter_next sh then be_scan fuel (consume_arg sh) (BeOptions (o_output_dir o) (o_taf o) (o_taf_ext o) (o_enum o) (get_current sh) (o_debug o))
        else be_scan fuel sh o
      else if cur_arg_matches (str "--debug") sh then be_scan fuel (consume_arg sh) (BeOptions (o_output_dir o) (o_taf o) (o_taf_ext o) (o_enum o) (o_enum_ext o) 10)
      else be_scan fuel (ignore_arg sh) o
  end.

(** TAF/idl/be_init.cpp:36-99 [BE_init]. *)
Definition BE_init (fuel : nat) (argv : list text) : option be_options :=
  if bool_decide (argv = []) then Some be_defaults else be_scan fuel (shifter argv) be_defaults.
End options.

(** What TAO's driver is told besides: the flag to print the usage, the flags it passes on. *)
Record parsed_arg := ParsedArg { p_index : nat; p_options : be_options; p_usage : bool; p_flags : list text }.

(** TAF/idl/be_global.cpp:110-174 [BE_GlobalData::parse_args]. Of the option number [i]; [mkdir] says whether the directory is there afterwards. [None]: the option's
    directory is missing, a null pointer is read. *)
Definition parse_args (mkdir : text -> bool) (av : list text) (i : nat) (o : be_options) : option parsed_arg :=
  arg ← av !! i;
  if bool_decide (char_at arg 1 = "o"%char) then
    if bool_decide (char_at arg 2 = NUL) then
      dir ← av !! S i;
      if mkdir dir then Some (ParsedArg (S i) (BeOptions dir (o_taf o) (o_taf_ext o) (o_enum o) (o_enum_ext o) (o_debug o)) false [dir])
      else Some (ParsedArg i o false [dir])
    else Some (ParsedArg i o false [])
  else if bool_decide (char_at arg 1 = "G"%char) then
    if bool_decide (char_at arg 2 = "t"%char /\ char_at arg 3 = "a"%char /\ char_at arg 4 = "f"%char) then
      Some (ParsedArg i (BeOptions (o_output_dir o) true (o_taf_ext o) (o_enum o) (o_enum_ext o) (o_debug o)) false [])
    else Some (ParsedArg i o false [])
  else Some (ParsedArg i o true []).

(** ** What the options do *)

Section spec.
Context {Sh : Type} `{!ArgShifter Sh} (left : Sh -> list text) `{!ArgShifterLaws Sh left}.

Definition with_taf (b : bool) (o : be_options) : be_options := BeOptions (o_output_dir o) b (o_taf_ext o) (o_enum o) (o_enum_ext o) (o_debug o).
Definition with_taf_ext (e : text) (o : be_options) : be_options := BeOptions (o_output_dir o) (o_taf o) e (o_enum o) (o_enum_ext o) (o_debug o).
Definition with_enum_on (o : be_options) : be_options := BeOptions (o_output_dir o) (o_taf o) (o_taf_ext o) true (o_enum_ext o) (o_debug o).
Definition with_enum_ext (e : text) (o : be_options) : be_options := BeOptions (o_output_dir o) (o_taf o) (o_taf_ext o) (o_enum o) e (o_debug o).
Definition with_debug (n : Z) (o : be_options) : be_options := BeOptions (o_output_dir o) (o_taf o) (o_taf_ext o) (o_enum o) (o_enum_ext o) n.

(** The arguments read from left to right. *)
Fixpoint be_args (args : list text) (o : be_options) : be_options :=
  match args with
  | [] => o
  | a :: rest =>
      if negb (is_option a) then be_args rest o
      else if same_flag (str "-notaf") a then be_args rest (with_taf false o)
      else if same_flag (str "-tafext") a then
        match rest with
        | e :: rest' => if is_option e then be_args rest o else be_args rest' (with_taf_ext e o)
        | [] => o
        end
      else if same_flag (str "-enum") a then be_args rest (with_enum_on o)
      else if same_flag (str "-enumext") a then
        match rest with
        | e :: rest' => if is_option e then be_args rest o else be_args rest' (with_enum_ext e o)
        | [] => o
        end
      else if same_flag (str "--debug") a then be_args rest (with_debug 10 o)
      else be_args rest o
  end.

Lemma be_scan_spec fuel : forall sh o, (length (left sh) < fuel)%nat -> be_scan fuel sh o = Some (be_args (left sh) o).
Proof.
  induction fuel as [|fuel IH]; intros sh o Hf; [lia|]. cbn [be_scan]. rewrite anything_left, parameter_next.
  destruct (left sh) as [|a rest] eqn:E; [done|]. rewrite bool_decide_eq_false_2 by done. cbn [negb be_args length] in *.
  destruct (current_left sh a rest E) as [_ Ec]. rewrite !Ec.
  assert (forall o, be_scan fuel (consume_arg sh) o = Some (be_args rest o)) as IHc by (intros o'; rewrite IH; rewrite left_consume, E; [done|cbn; lia]).
  assert (forall o, be_scan fuel (ignore_arg sh) o = Some (be_args rest o)) as IHi by (intros o'; rewrite IH; rewrite left_ignore, E; [done|cbn; lia]).
  assert (forall (f : text -> be_options), (if is_parameter_next (consume_arg sh) then be_scan fuel (consume_arg (consume_arg sh)) (f (get_current (consume_arg sh)))
             else be_scan fuel (consume_arg sh) o) =
           Some (match rest with e :: rest' => if is_option e then be_args rest o else be_args rest' (f e) | [] => o end)) as IHp.
  { intros f. rewrite parameter_next, IHc, left_consume, E. cbn [tail]. destruct rest as [|e rest']; [done|]. destruct (is_option e); [done|]. cbn [negb].
    destruct (current_left (consume_arg sh) e rest') as [-> _]; [by rewrite left_consume, E|].
    rewrite IH; rewrite left_consume, left_consume, E; [done|cbn in *; lia]. }
  destruct (is_option a); [|apply IHi]. cbn [negb]. destruct (same_flag (str "-notaf") a); [apply IHc|].
  destruct (same_flag (str "-tafext") a); [apply (IHp (fun e => with_taf_ext e o))|]. destruct (same_flag (str "-enum") a); [apply IHc|].
  destruct (same_flag (str "-enumext") a); [apply (IHp (fun e => with_enum_ext e o))|]. destruct (same_flag (str "--debug") a); [apply IHc|apply IHi].
Qed.

(** The options are read in one pass, and as many steps as there are arguments are enough. *)
Lemma BE_init_spec argv : BE_init (S (length argv)) argv = Some (be_args argv be_defaults).
Proof.
  unfold BE_init. case_bool_decide as E; [by rewrite E|]. rewrite be_scan_spec by (rewrite left_shifter; lia). by rewrite left_shifter.
Qed.
End spec.

(** The usage text gives EnumSupport.h as what is generated for enumerations; the extension is another one. *)
Lemma enum_ext_default : o_enum_ext be_defaults = str "EnumHelper" /\ o_enum_ext be_defaults <> str "EnumSupport".
Proof. split; [done|]. vm_compute. discriminate. Qed.

(** An output directory that is not given is a null pointer read. *)
Lemma output_dir_missing mkdir o : parse_args mkdir [str "tao_idl"; str "-o"] 1 o = None.
Proof. reflexivity. Qed.

(** A directory that cannot be made stays on the command line: the index is not moved behind it. *)
Lemma output_dir_refused dir o : parse_args (fun _ => false) [str "tao_idl"; str "-o"; dir] 1 o = Some (ParsedArg 1 o false [dir]).
Proof. reflexivity. Qed.

(** The files that are written for a run of the back end: the two of the data support unless -notaf, the enumerations' with -enum. *)
Lemma produced_files g root : length (BE_produce g root) = ((if taf_support g then 2 else 0) + (if enum_support g then 1 else 0))%nat.
Proof. unfold BE_produce, taf_visit_root. destruct (taf_support g), (enum_support g); reflexivity. Qed.
