(* ===== verification/TafServer.v ===== *)
(** * The server: TAF/taf/TAFServer_impl, ORBManager, TAFServer in a process of its own or of another

    The initialisation of the server object, the description it gives of itself, the threads that are started for the ORB, and the
    entry points for a process that is not the library's: there a thread of the library looks the server up and runs it, and the
    caller waits for its answer on a semaphore, for a time. *)

From S2P Require Import Prelude CString Text Properties ConfigLoad Services.
From Stdlib Require Import Ascii.

(** ** Initialisation *)

Definition CLI_HELP_SHORT_SPECIFIER : text := str "-?".
Definition CLI_HELP_LONG_SPECIFIER : text := str "--help".
Definition TAFSERVER_OID : text := str "TAFServer".

Section init.
Context {Sh : Type} `{ArgShifter Sh}.

(** TAF/taf/TAFServer_impl.cpp:110-129 [TAFServer_impl::parse_args]. Whether help is asked for. *)
Fixpoint help_scan (fuel : nat) (argShifter : Sh) (displayHelp : bool) : option bool :=
  match fuel with
  | O => None
  | S fuel =>
      if is_anything_left argShifter then
        if is_option_next argShifter then
          help_scan fuel (ignore_arg argShifter)
            (if cur_arg_matches CLI_HELP_SHORT_SPECIFIER argShifter then true
             else if cur_arg_matches CLI_HELP_LONG_SPECIFIER argShifter then true else displayHelp)
        else help_scan fuel (ignore_arg argShifter) displayHelp
      else Some displayHelp
  end.

(** TAF/taf/TAFServer_impl.cpp:104-180 [TAFServer_impl::parse_args]. The text of the help is left out. *)
Definition parse_args (fuel : nat) (argv : list text) : option Z :=
  displayHelp ← help_scan fuel (shifter argv) false; Some (if displayHelp : bool then -1 else 0).

(** What the server is built from: the binding of its reference, the loader of services with its directives.  An operation that throws is
    [None]. *)
Class ServerParts (St : Type) := {
  init_bind : text -> text -> St -> St * option Z;
  load_config_args : list text -> St -> St * option Z;
  process_directives : St -> St * option Z;
}.

(** TAF/taf/TAFServer_impl.cpp:285-310 [TAFServer_impl::init]. Behind the binding; a load that fails in part is a warning. *)
Definition load_services `{ServerParts St} (argv : list text) (s : St) : St * Z :=
  match load_config_args argv s with
  | (s, None) => (s, -1)
  | (s, Some svc_loads) =>
      if 0 <? svc_loads then
        match process_directives s with
        | (s, None) => (s, -1)
        | (s, Some svc_failures) => (s, if svc_failures <? 0 then -1 else 0)
        end
      else (s, 0)
  end.

(** TAF/taf/TAFServer_impl.cpp:261-321 [TAFServer_impl::init]. Without security. *)
Definition server_init `{ServerParts St} (fuel : nat) (argv : list text) (s : St) : option (St * Z) :=
  help ← parse_args fuel argv;
  if negb (help =? 0) then Some (s, -1)
  else match init_bind TAFSERVER_OID TAFSERVER_OID s with
       | (s, Some 0) => Some (load_services argv s)
       | (s, _) => Some (s, -1)
       end.

(** Whether one of the arguments asks for help. *)
Definition asks_help (argv : list text) : bool :=
  existsb (fun arg => is_option arg && (same_flag CLI_HELP_SHORT_SPECIFIER arg || same_flag CLI_HELP_LONG_SPECIFIER arg)) argv.

Lemma help_scan_spec (left : Sh -> list text) `{!ArgShifterLaws Sh left} fuel : forall sh b, (length (left sh) < fuel)%nat ->
  help_scan fuel sh b = Some (b || asks_help (left sh)).
Proof.
  induction fuel as [|fuel IH]; intros sh b Hf; [lia|]. cbn [help_scan]. rewrite anything_left, option_next.
  destruct (left sh) as [|arg rest] eqn:E; [by rewrite bool_decide_eq_true_2, orb_false_r|]. rewrite bool_decide_eq_false_2 by done. cbn [negb asks_help existsb] in *.
  destruct (current_left sh arg rest E) as [_ Ec]. rewrite !Ec, !IH by (rewrite left_ignore, E; cbn in *; lia). rewrite left_ignore, E. cbn [tail].
  fold (asks_help rest). destruct (is_option arg), (same_flag CLI_HELP_SHORT_SPECIFIER arg), (same_flag CLI_HELP_LONG_SPECIFIER arg), b; done.
Qed.

(** The server comes up exactly when no argument asks for help, its reference could be bound, and neither the reading of the services' files nor
    their directives broke down; services that fail to load do not matter. *)
Lemma server_init_spec (left : Sh -> list text) `{!ArgShifterLaws Sh left} `{ServerParts St} argv (s : St) :
  exists s' r, server_init (S (length argv)) argv s = Some (s', r) /\
  (r = 0 <-> asks_help argv = false /\ exists s1, init_bind TAFSERVER_OID TAFSERVER_OID s = (s1, Some 0) /\
     exists s2 n, load_config_args argv s1 = (s2, Some n) /\ (0 < n -> exists s3 m, process_directives s2 = (s3, Some m) /\ 0 <= m)) /\ (r = 0 \/ r = -1).
Proof.
  unfold server_init, parse_args. rewrite (help_scan_spec left) by (rewrite left_shifter; lia). rewrite left_shifter. cbn [orb mbind option_bind].
  destruct (asks_help argv) eqn:Eh; cbn [negb Z.eqb]; [do 2 eexists; split; [done|]; split; [split; [done|by intros [? _]]|by right]|].
  destruct (init_bind TAFSERVER_OID TAFSERVER_OID s) as [s1 [b|]] eqn:Eb.
  2: { exists s1, (-1). split; [reflexivity|]. split; [split; [done|by intros (_ & ? & ? & _)]|by right]. }
  destruct (decide (b = 0)) as [->|Hb].
  2: { exists s1, (-1). split; [by destruct b|]. split; [split; [done|]|by right]. intros (_ & ? & [= <- ->] & _). done. }
  unfold load_services. destruct (load_config_args argv s1) as [s2 [n|]] eqn:El.
  2: { do 2 eexists. split; [done|]. split; [split; [done|]|by right]. intros (_ & ? & [= <-] & ? & ? & ? & _). congruence. }
  destruct (Z.ltb_spec 0 n).
  2: { do 2 eexists. split; [done|]. split; [split; [|done]|by left]. intros _. split; [done|]. exists s1. split; [done|]. exists s2, n. split; [done|]. lia. }
  destruct (process_directives s2) as [s3 [m|]] eqn:Ep.
  - do 2 eexists. split; [done|]. destruct (Z.ltb_spec m 0); (split; [split|tauto]); try done.
    + intros (_ & ? & [= <-] & ? & ? & E & Hx). rewrite El in E. injection E as <- <-. destruct (Hx ltac:(lia)) as (? & ? & E2 & ?). rewrite Ep in E2. injection E2 as _ <-. lia.
    + intros _. split; [done|]. exists s1. split; [done|]. exists s2, n. split; [done|]. intros _. by exists s3, m.
  - do 2 eexists. split; [done|]. split; [split; [done|]|by right]. intros (_ & ? & [= <-] & ? & ? & E & Hx). rewrite El in E. injection E as <- <-.
    destruct (Hx ltac:(lia)) as (? & ? & E2 & _). congruence.
Qed.
End init.

(** ** The description of the server *)

(** [int(s.find_last_of(c))]: -1 when there is none. *)
Fixpoint find_last (c : ascii) (s : text) (pos found : Z) : Z :=
  match s with
  | [] => found
  | x :: s => find_last c s (pos + 1) (if decide (x = c) then pos else found)
  end.

Definition find_last_of (c : ascii) (s : text) : Z := find_last c s 0 (-1).

Definition SLASH : ascii := ascii_of_nat 47.

(** TAF/taf/TAFServer_impl.cpp:204-211 [TAFServer_impl::entity_descriptor]. The directory and the name of the program, from the first argument. *)
Definition cut_path `{AceMinMax} (argv0 : text) : text * text :=
  let rpos := find_last_of SLASH argv0 in
  let lpos := find_last_of BACKSLASH argv0 in
  let pos := ace_max rpos lpos in
  if 0 <? pos then (take (Z.to_nat pos) argv0, drop (Z.to_nat (pos + 1)) argv0) else ([], argv0).

(** TAF/taf/TAFServer_impl.cpp:182-225 [TAFServer_impl::entity_descriptor]. [info]: what the server says of itself ([None]: it fails); [reference]: what the POA has
    for it; [server_args]: the arguments the property holds. *)
Definition entity_descriptor {Obj} `{AceMinMax, Platform} (name : text) (info : option text) (reference : option Obj) (loadTime : Z) (server_args : list text)
  : EntityDescriptor Obj :=
  let flags := fold_right Z.lor 0 ((fun f => Z.shiftl 1 (flag_bit f)) <$> [SVC_OBJECT; SVC_STATIC; SVC_ACTIVE; SVC_EXECUTE]) in
  let ed path cls pars := Entity name path cls pars (default [] info) reference loadTime flags in
  match server_args with
  | [] => ed [] [] []
  | argv0 :: arg_v =>
      let parameters := match arg_v with [] => [] | _ => parse_argv (argv_of_args true arg_v) true end in
      let '(path, cls) := cut_path argv0 in ed path cls parameters
  end.

Lemma cut_last_app c s t pos found : c ∉ t -> find_last c (s ++ t) pos found = find_last c s pos found.
Proof.
  intros Ht. revert pos found. induction s as [|x s IH]; intros pos found; cbn; [|apply IH].
  revert pos found. induction t as [|x t IHt]; intros pos found; [done|]. apply not_elem_of_cons in Ht as [Hx Ht]. cbn. rewrite decide_False by congruence. by apply IHt.
Qed.

Lemma find_last_snoc c s pos found : find_last c (s ++ [c]) pos found = pos + Z.of_nat (length s).
Proof.
  revert pos found. induction s as [|x s IH]; intros pos found; cbn; [rewrite decide_True by done; lia|]. rewrite IH. lia.
Qed.

Lemma find_last_bound c s pos found : found < pos + Z.of_nat (length s) \/ s = [] -> find_last c s pos found < pos + Z.of_nat (length s) \/ s = [].
Proof.
  revert pos found. induction s as [|x s IH]; intros pos found Hf; [by right|]. left. cbn [find_last length].
  destruct (IH (pos + 1) (if decide (x = c) then pos else found)) as [Hlt| ->]; [|lia|].
  - destruct s as [|y s]; [by right|]. left. cbn in *. destruct Hf; [|done]. destruct (decide (x = c)); lia.
  - cbn. destruct Hf; [|done]. cbn in *. destruct (decide (x = c)); lia.
Qed.

(** A program in a directory is cut at the last separator, of either kind: the directory in front of it, the name behind it. *)
Lemma cut_path_spec `{AceMinMaxLaws} dir sep name : dir <> [] -> sep = SLASH \/ sep = BACKSLASH -> SLASH ∉ name -> BACKSLASH ∉ name ->
  cut_path (dir ++ sep :: name) = (dir, name).
Proof.
  intros Hd Hsep Hn1 Hn2. unfold cut_path, find_last_of. rewrite ace_max_spec. change (dir ++ sep :: name) with (dir ++ [sep] ++ name). rewrite !app_assoc.
  rewrite (cut_last_app SLASH), (cut_last_app BACKSLASH) by done.
  assert (Z.max (find_last SLASH (dir ++ [sep]) 0 (-1)) (find_last BACKSLASH (dir ++ [sep]) 0 (-1)) = Z.of_nat (length dir)) as ->.
  { assert (forall c, c <> sep -> find_last c (dir ++ [sep]) 0 (-1) < Z.of_nat (length dir)) as Ho.
    { intros c Hc. rewrite cut_last_app by (intros Hx; apply list_elem_of_singleton in Hx; congruence).
      destruct (find_last_bound c dir 0 (-1)) as [?| ->]; [left; lia|lia|done]. }
    destruct Hsep as [-> | ->]; rewrite find_last_snoc; [specialize (Ho BACKSLASH ltac:(done))|specialize (Ho SLASH ltac:(done))]; lia. }
  assert (0 < length dir)%nat by (destruct dir; [done|cbn; lia]). rewrite (proj2 (Z.ltb_lt 0 _)) by lia.
  rewrite Nat2Z.id. rewrite <- !app_assoc, take_app_length. f_equal. rewrite app_assoc.
  replace (Z.to_nat (Z.of_nat (length dir) + 1)) with (length (dir ++ [sep])) by (rewrite length_app; cbn; lia). apply drop_app_length.
Qed.

(** ** Threads *)

Definition TAF_MIN_THREADS : Z := 2.
Definition TAF_MAX_ACETHREADS : Z := 20.
Definition TAF_MAX_ORBTHREADS : Z := 200.

(** TAF/taf/ORBManager.h:198-233 [ORBManager]. With the threads that run the ORB and the reactor. *)
Record manager := Manager { orbThreads_ : Z; is_available : bool; orb_running : Z; ace_running : Z }.

Section threads.
Context `{AceMinMax}.

(** TAF/taf/ORBManager.cpp:455-459 [ORBManager::set_orb_threads]. *)
Definition set_orb_threads (threads : Z) (m : manager) : manager :=
  Manager (ace_range TAF_MIN_THREADS TAF_MAX_ORBTHREADS threads) (is_available m) (orb_running m) (ace_running m).

(** TAF/taf/ORBManager.cpp:171-185 [ORB::run]. [execute]: the threads could be started. *)
Definition orb_run (execute : bool) (orb_threads : Z) (m : manager) : manager * Z :=
  if TAF_MIN_THREADS <? orb_threads then
    if execute then (Manager (orbThreads_ m) (is_available m) (orb_running m + (orb_threads - TAF_MIN_THREADS)) (ace_running m), 0) else (m, -1)
  else (m, 0).

(** TAF/taf/ORBManager.cpp:488-497 [ORBManager::run]. [shutdown]: the result of waiting for the shutdown. *)
Definition manager_run (execute : bool) (shutdown : Z) (orb_threads : Z) (wait_for_completion : bool) (m : manager) : manager * Z :=
  if is_available m then
    let m := set_orb_threads orb_threads m in
    match orb_run execute (orbThreads_ m) m with
    | (m, 0) => (m, if wait_for_completion then shutdown else 0)
    | (m, _) => (m, -1)
    end
  else (m, -1).

(** TAF/taf/TAFServer_impl.cpp:359-363 [TAFServer::run]. *)
Definition server_run (execute : bool) (shutdown : Z) (wait_for_completion : bool) (m : manager) : manager * Z :=
  if is_available m then manager_run execute shutdown (orbThreads_ m) wait_for_completion m else (m, -1).

(** TAF/taf/ORBManager.cpp:510-535 [ORBManager::init]. [loaded]: the result of loading the properties; [orb_threads] and [ace_threads]: their values; [orb_init]: the
    ORB's initialisation, which starts its first threads, [None] when it throws. *)
Definition manager_init (loaded : Z) (orb_threads ace_threads : Z) (execute : bool) (orb_init : option Z) (m : manager) : manager * Z :=
  if is_available m && (loaded =? 0) then
    let m := set_orb_threads orb_threads m in
    if execute then
      let m := Manager (orbThreads_ m) (is_available m) (orb_running m) (ace_running m + ace_range TAF_MIN_THREADS TAF_MAX_ACETHREADS ace_threads) in
      match orb_init with
      | Some 0 => (Manager (orbThreads_ m) (is_available m) (orb_running m + TAF_MIN_THREADS) (ace_running m), 0)
      | _ => (m, -1)
      end
    else (m, -1)
  else (m, -1).

(** A server that is initialised and run has as many threads for the ORB and the reactor as the properties say, within the bounds; whatever they
    say. *)
Lemma threads_started `{!AceMinMaxLaws} orb_threads ace_threads shutdown wait m0 m1 m2 r :
  orb_running m0 = 0 -> ace_running m0 = 0 -> manager_init 0 orb_threads ace_threads true (Some 0) m0 = (m1, 0) -> server_run true shutdown wait m1 = (m2, r) ->
  orb_running m2 = Z.min (Z.max 2 orb_threads) 200 /\ ace_running m2 = Z.min (Z.max 2 ace_threads) 20 /\ r = if wait then shutdown else 0.
Proof.
  intros E1 E2. unfold manager_init. destruct (is_available m0) eqn:Ea; [|done]. cbn [andb Z.eqb set_orb_threads orbThreads_ is_available orb_running ace_running].
  rewrite !ace_range_spec. unfold TAF_MIN_THREADS, TAF_MAX_ORBTHREADS, TAF_MAX_ACETHREADS in *. intros [= <-]. unfold server_run, manager_run, orb_run. cbn [is_available]. rewrite Ea.
  unfold set_orb_threads. cbn [orbThreads_ is_available orb_running ace_running]. rewrite ace_range_spec. unfold TAF_MIN_THREADS, TAF_MAX_ORBTHREADS. bcase; intros [= <- <-];
    cbn [orb_running ace_running]; split; try lia; split; try lia; done.
Qed.

(** Running it once more adds the threads once more: the bound is on one call. *)
Lemma run_twice_adds `{!AceMinMaxLaws} m0 m1 m2 r1 r2 : orbThreads_ m0 = 200 -> orb_running m0 = 2 -> is_available m0 = true ->
  server_run true 0 false m0 = (m1, r1) -> server_run true 0 false m1 = (m2, r2) -> orb_running m2 = 398.
Proof.
  intros E1 E2 Ea. unfold server_run, manager_run, orb_run, set_orb_threads. rewrite Ea, E1, E2. cbn [orbThreads_ is_available orb_running]. rewrite ace_range_spec.
  intros [= <- <-]. cbn [is_available orbThreads_ orb_running]. rewrite ace_range_spec. intros [= <- <-]. done.
Qed.
End threads.

(** ** A server in another process *)

(** Where the caller is in [wait_result]. *)
Inductive caller_pc :=
| WActivate
| WAcquire
| WRead
| WRelease (result : Z)
| WDone (result : Z).

(** Where the thread of [svc] is. *)
Inductive svc_pc :=
| SNone                 (* not started *)
| SLook                 (* the look-up of the server *)
| SFor                  (* for (...; tafServer;) *)
| SResult               (* initResult_ = 0 *)
| SPost                 (* initLock_.release() *)
| SRun                  (* tafServer->run(true) *)
| SFail                 (* initLock_.release() behind the handlers *)
| SEnd (result : Z).

(** TAF/taf/TAFServer_impl.cpp:430-462 [TAFServerInitializer]. With the two threads that use it, and the variable [tafServer] of [svc]: whether
    it points to a server; [None] before the look-up. *)
Record initializer := Initializer { initActive_ : bool; initResult_ : Z; initLock_ : Z; caller : caller_pc; svc : svc_pc; tafServer : option bool }.

(** What the system decides: whether the thread starts, whether the waiting is over, whether the server is found, how its run ends. *)
Inductive decision :=
| Activated (ok : bool)
| Acquired
| TimedOut
| CallerGoes
| Found (ok : bool)
| RunEnds (result : option Z)
| SvcGoes.

(** TAF/taf/TAFServer_impl.cpp:504-513 [TAFServerInitializer::wait_result]. *)
Definition wait_result_next (d : decision) (s : initializer) : option initializer :=
  let go lock c := Initializer (initActive_ s) (initResult_ s) lock c (svc s) (tafServer s) in
  match caller s, d with
  | WActivate, Activated true => Some (Initializer true (initResult_ s) (initLock_ s) WAcquire SLook (tafServer s))
  | WActivate, Activated false => Some (go (initLock_ s) (WDone (-1)))
  | WAcquire, Acquired => if 0 <? initLock_ s then Some (go (initLock_ s - 1) WRead) else None
  | WAcquire, TimedOut => Some (go (initLock_ s) (WDone (-1)))
  | WRead, CallerGoes => Some (go (initLock_ s) (WRelease (initResult_ s)))
  | WRelease r, CallerGoes => Some (go (initLock_ s + 1) (WDone r))
  | _, _ => None
  end.

(** TAF/taf/TAFServer_impl.cpp:515-535 [TAFServerInitializer::svc]. *)
Definition svc_next (d : decision) (s : initializer) : option initializer :=
  let go result lock p := Initializer (initActive_ s) result lock (caller s) p (tafServer s) in
  match svc s, d with
  | SLook, Found server => Some (Initializer (initActive_ s) (initResult_ s) (initLock_ s) (caller s) SFor (Some server))
  | SFor, SvcGoes => Some (go (initResult_ s) (initLock_ s) (if decide (tafServer s = Some true) then SResult else SFail))
  | SResult, SvcGoes => Some (go 0 (initLock_ s) SPost)
  | SPost, SvcGoes => Some (go (initResult_ s) (initLock_ s + 1) SRun)
  | SRun, RunEnds (Some r) => Some (go (initResult_ s) (initLock_ s) (SEnd r))
  | SRun, RunEnds None => Some (go (initResult_ s) (initLock_ s) SFail)
  | SFail, SvcGoes => Some (go (initResult_ s) (initLock_ s + 1) (SEnd (-1)))
  | _, _ => None
  end.

Inductive hstep (s s' : initializer) : Prop :=
| hstep_caller d : wait_result_next d s = Some s' -> hstep s s'
| hstep_svc d : svc_next d s = Some s' -> hstep s s'.

(** TAF/taf/TAFServer_impl.cpp:466-480 [TAFServerInitializer::TAFServerInitializer]. *)
Definition new_initializer : initializer := Initializer false (-1) 0 WActivate SNone None.

Definition hosted (s : initializer) : Prop := rtc hstep new_initializer s.

(** Nothing is posted yet: the caller waits or has given up. *)
Definition unposted (lock : Z) (c : caller_pc) : Prop := lock = 0 /\ (c = WAcquire \/ c = WDone (-1)).

(** The semaphore was released: the caller can take it, and what it reads and returns is the result. *)
Definition posted (r lock : Z) (c : caller_pc) : Prop :=
  match c with
  | WActivate => False
  | WAcquire => 1 <= lock
  | WRead => 0 <= lock
  | WRelease r' => r' = r /\ 0 <= lock
  | WDone r' => (r' = r \/ r' = -1) /\ 0 <= lock
  end.

Definition hok (s : initializer) : Prop :=
  let r := initResult_ s in let l := initLock_ s in let c := caller s in
  match svc s with
  | SNone => r = -1 /\ l = 0 /\ (c = WActivate \/ c = WDone (-1))
  | SLook | SFor => r = -1 /\ unposted l c
  | SResult => r = -1 /\ unposted l c /\ tafServer s = Some true
  | SPost => r = 0 /\ unposted l c /\ tafServer s = Some true
  | SRun => r = 0 /\ posted r l c /\ tafServer s = Some true
  | SFail => r = -1 /\ unposted l c \/ r = 0 /\ posted r l c /\ tafServer s = Some true
  | SEnd _ => (r = -1 \/ r = 0 /\ tafServer s = Some true) /\ posted r l c
  end.

(** One move of either thread. *)
Ltac pick := repeat match goal with
  | H : _ /\ _ |- _ => destruct H
  | H : _ \/ _ |- _ => destruct H
  | H : False |- _ => destruct H
  | H : WDone _ = WDone _ |- _ => injection H as H
  | H : _ = _ :> caller_pc |- _ => first [discriminate H | subst]
  end.

Lemma hok_caller d s s' : hok s -> wait_result_next d s = Some s' -> hok s'.
Proof.
  destruct s as [a r l c p t]. unfold hok, wait_result_next. cbn. intros Hok.
  destruct c, d as [[]| | | | | |]; try done; unfold unposted, posted in *;
    try (destruct (Z.ltb_spec 0 l); [|done]); intros [= <-]; cbn; destruct p; cbn in *; pick; try done; try lia; try tauto; try (split; [lia|]; tauto); intuition lia.
Qed.

Lemma hok_svc d s s' : hok s -> svc_next d s = Some s' -> hok s'.
Proof.
  destruct s as [a r l c p t]. unfold hok, svc_next. cbn. intros Hok.
  destruct p, d as [[]| | | |[]|[]|]; try done; intros [= <-]; cbn; try destruct (decide (t = Some true)); unfold unposted, posted in *; pick; subst; try tauto; try (destruct c; cbn in *; pick; subst; try done; try lia; intuition lia); cbn in *; intuition lia.
Qed.

Lemma hok_hosted s : hosted s -> hok s.
Proof.
  apply rtc_ind_r; [cbn; tauto|]. intros s1 s2 _ [d E|d E] Hok; [by eapply hok_caller|by eapply hok_svc].
Qed.

(** C21 (safety). The caller that starts a server in another process is told that it is there only when the look-up of the thread that was started
    gave a server, and a thread runs a server only when the look-up gave one; the caller is told nothing but 0 or -1; once the look-up is over, however it ended, the caller is not left waiting; and if the server is running by then the
    caller that does not give up reads that it is there. *)
Theorem hosting_handshake s : hosted s ->
  (forall r, caller s = WDone r -> (r = 0 -> initResult_ s = 0 /\ tafServer s = Some true) /\ (r = 0 \/ r = -1)) /\
  (svc s = SRun -> tafServer s = Some true) /\
  (svc s = SRun \/ (exists r, svc s = SEnd r) -> caller s = WAcquire -> exists s', wait_result_next Acquired s = Some s' /\ caller s' = WRead) /\
  (svc s = SRun -> caller s = WRead -> initResult_ s = 0).
Proof.
  intros Hh. apply hok_hosted in Hh. destruct s as [a r l c p t]. unfold hok in Hh. cbn in *. unfold unposted, posted in Hh. split; [|split; [|split]].
  - intros r' ->. destruct p; cbn in *; pick; subst; try done; (split; [intros E|]); try lia; try done; auto.
  - intros ->. tauto.
  - intros Hp ->. unfold wait_result_next. cbn. exists (Initializer a r (l - 1) WRead p t).
    assert (1 <= l) by (destruct Hp as [->|[x ->]]; cbn in Hh; tauto). by rewrite (proj2 (Z.ltb_lt 0 l)) by lia.
  - intros -> ->. tauto.
Qed.

(** The thread finds the server before the caller's time is over. *)
Definition found_in_time : initializer := Initializer true 0 1 (WDone 0) SRun (Some true).

Lemma found_hosted : hosted found_in_time.
Proof.
  eapply rtc_l; [eapply (hstep_caller _ _ (Activated true)); reflexivity|]. eapply rtc_l; [eapply (hstep_svc _ _ (Found true)); reflexivity|]. eapply rtc_l; [eapply (hstep_svc _ _ SvcGoes); reflexivity|].
  eapply rtc_l; [eapply (hstep_svc _ _ SvcGoes); reflexivity|]. eapply rtc_l; [eapply (hstep_svc _ _ SvcGoes); reflexivity|].
  eapply rtc_l; [eapply (hstep_caller _ _ Acquired); reflexivity|]. eapply rtc_l; [eapply (hstep_caller _ _ CallerGoes); reflexivity|].
  eapply rtc_l; [eapply (hstep_caller _ _ CallerGoes); reflexivity|]. apply rtc_refl.
Qed.

Lemma hosting_handshake_witness : hosted found_in_time /\ caller found_in_time = WDone 0 /\ initResult_ found_in_time = 0 /\ tafServer found_in_time = Some true.
Proof.
  split; [apply found_hosted|]. split; [reflexivity|]. destruct (hosting_handshake found_in_time found_hosted) as (H & _ & _). by apply (H 0 eq_refl).
Defined.

(** ** The entry points *)

(** What the process has: the initializer that is kept, the flag of the shutdown, whether the server's service is registered. *)
Record process := Process { tafServerInitRepo_ : option initializer; shutdown_sent : bool; registered : bool }.

(** TAF/taf/TAFServer_impl.cpp:487-502 [TAFServerInitializer::close]. With a flag, [module_closed]; then the thread is waited for. *)
Definition close_initializer (i : initializer) (p : process) : process :=
  if initActive_ i then Process (tafServerInitRepo_ p) true false else p.

(** TAF/taf/TAFServer_impl.cpp:613-619 [_fini_TAFServer]. *)
Definition fini_TAFServer (p : process) : process * Z :=
  match tafServerInitRepo_ p with
  | Some i => (close_initializer i (Process None (shutdown_sent p) (registered p)), 0)
  | None => (p, 0)
  end.

(** TAF/taf/TAFServer_impl.cpp:577-599 [_init_TAFServer]. Behind the arguments; [made]: the service could be registered and initialised; [i]: the initializer when
    [wait_result] is over, with its result; otherwise it is destroyed. *)
Definition init_TAFServer (made : bool) (i : initializer) (result : Z) (p : process) : process * Z :=
  let p := match tafServerInitRepo_ p with Some old => close_initializer old (Process None (shutdown_sent p) (registered p)) | None => p end in
  let p := Process (tafServerInitRepo_ p) false (registered p) in
  if made then
    let p := Process (tafServerInitRepo_ p) (shutdown_sent p) true in
    if result =? 0 then (Process (Some i) (shutdown_sent p) (registered p), 0) else (close_initializer i p, result)
  else (p, -1).

(** TAF/taf/TAFServer_impl.cpp:601-611 [_wait_TAFServer]. [in_time]: the shutdown comes before the seconds are over; [None] when it would wait for ever. *)
Definition wait_TAFServer (secs : Z) (in_time comes : bool) (p : process) : option (process * Z) :=
  let p := if secs =? 0 then p
           else if shutdown_sent p || in_time then Process (tafServerInitRepo_ p) true (registered p)
           else Process (tafServerInitRepo_ p) true (registered p) in
  if shutdown_sent p || comes then Some (fini_TAFServer p) else None.

(** A call that gives up leaves nothing behind: no server is kept, and the service that was registered is removed. *)
Lemma failed_init_cleans made i result p p' r : initActive_ i = true -> init_TAFServer made i result p = (p', r) -> r <> 0 ->
  tafServerInitRepo_ p' = None /\ (made = true -> registered p' = false /\ shutdown_sent p' = true).
Proof.
  intros Ea. unfold init_TAFServer. destruct made; cbn [registered tafServerInitRepo_ shutdown_sent].
  - destruct (Z.eqb_spec result 0); [by intros [= <- <-]|]. intros [= <- <-] _. unfold close_initializer. rewrite Ea. cbn. split; [|done].
    by destruct (tafServerInitRepo_ p) as [[[] ? ? ? ? ?]|] eqn:E.
  - intros [= <- <-] _. cbn. split; [|done]. by destruct (tafServerInitRepo_ p) as [[[] ? ? ? ? ?]|] eqn:E.
Qed.

(** A server that was started is closed by [_fini_TAFServer], once; a wait with a time always comes back and closes it too. *)
Lemma fini_closes i p p' r : initActive_ i = true -> tafServerInitRepo_ p = Some i -> fini_TAFServer p = (p', r) ->
  r = 0 /\ tafServerInitRepo_ p' = None /\ registered p' = false /\ shutdown_sent p' = true /\ fini_TAFServer p' = (p', 0).
Proof. intros Ea Ei. unfold fini_TAFServer, close_initializer. rewrite Ei, Ea. by intros [= <- <-]. Qed.

Lemma timed_wait_returns secs in_time comes p : secs <> 0 -> is_Some (wait_TAFServer secs in_time comes p).
Proof. intros Hs. unfold wait_TAFServer. rewrite (proj2 (Z.eqb_neq secs 0) Hs). destruct (shutdown_sent p || in_time); cbn; by eexists. Qed.

(** Where the thread could not be started the flag is down and the close does nothing: the service stays registered. *)
Lemma unstarted_stays_registered i p : initActive_ i = false -> registered (fst (init_TAFServer true i (-1) p)) = true.
Proof. intros Ea. unfold init_TAFServer, close_initializer. by rewrite Ea. Qed.
