(* ===== verification/PropertyList.v ===== *)
(** * Listing properties: list_properties and print_properties of daf/PropertyManager, and the servant's list

    The repository is walked in the order of its map, each value is formatted, those that cannot be are left out, and the list is
    sorted by name without regard to case.  Formatting a value may add properties of the environment while the walk is
    under way; the walk goes on with the least name behind the one it is at. *)

From S2P Require Import Prelude CString Text Properties Configurator Gestalt ServiceLoader Services PropertyServer.
From Stdlib Require Import Ascii Sorting.Sorted.

(** ** Orders on names *)

(** std::less on strings: by the values of their bytes. *)
Fixpoint bytes_lt (a b : text) : bool :=
  match a, b with
  | _, [] => false
  | [], _ :: _ => true
  | x :: a, y :: b => (code x <? code y) || ((code x =? code y) && bytes_lt a b)
  end.

(** daf/PropertyManager.cpp:32-36 [AlphabeticalPredicate]. *)
Definition alphabetical (l r : text * text) : bool := bytes_lt (tolower <$> c_str (fst l)) (tolower <$> c_str (fst r)).

(** A stable sort. *)
Section sort.
Context {A : Type} (lt : A -> A -> bool).

Fixpoint insert_sorted (x : A) (l : list A) : list A :=
  match l with
  | [] => [x]
  | y :: l => if lt y x then y :: insert_sorted x l else x :: y :: l
  end.

Definition sort (l : list A) : list A := foldr insert_sorted [] l.

Lemma insert_sorted_perm x l : insert_sorted x l ≡ₚ x :: l.
Proof. induction l as [|y l IH]; [done|]. cbn. destruct (lt y x); [|done]. rewrite IH. apply Permutation_swap. Qed.

Lemma sort_perm l : sort l ≡ₚ l.
Proof. induction l as [|x l IH]; [done|]. change (sort (x :: l)) with (insert_sorted x (sort l)). by rewrite insert_sorted_perm, IH. Qed.

(** Nothing behind an element is less than it. *)
Definition in_order (l : list A) : Prop := StronglySorted (fun x y => lt y x = false) l.

Context (Htrans : forall x y z, lt x y = true -> lt y z = true -> lt x z = true) (Hneg : forall x y z, lt x y = false -> lt y z = false -> lt x z = false)
        (Hirr : forall x, lt x x = false).

Lemma insert_in_order x l : in_order l -> in_order (insert_sorted x l).
Proof.
  induction 1 as [|y l Hl IH Hy]; [by repeat constructor|]. cbn. destruct (lt y x) eqn:E.
  - constructor; [done|]. rewrite insert_sorted_perm. constructor; [|done].
    destruct (lt x y) eqn:E2; [|done]. by rewrite (Htrans _ _ _ E E2) in Hirr || (pose proof (Htrans _ _ _ E E2) as H3; rewrite Hirr in H3).
  - constructor; [by constructor|]. constructor; [done|]. eapply Forall_impl; [exact Hy|]. cbn. intros z Hz. by eapply Hneg.
Qed.

Lemma sort_in_order l : in_order (sort l).
Proof. induction l as [|x l IH]; [constructor|]. change (sort (x :: l)) with (insert_sorted x (sort l)). by apply insert_in_order. Qed.
End sort.

Lemma bytes_lt_irr a : bytes_lt a a = false.
Proof. induction a as [|x a IH]; [done|]. cbn. rewrite IH. bcase; lia. Qed.

Lemma bytes_lt_trans a : forall b c, bytes_lt a b = true -> bytes_lt b c = true -> bytes_lt a c = true.
Proof.
  induction a as [|x a IH]; intros [|y b] [|z c]; cbn; try done. rewrite !orb_true_iff, !andb_true_iff, !Z.ltb_lt, !Z.eqb_eq.
  intros [?|[? H1]] [?|[? H2]]; [left; lia..|]. right. split; [lia|]. by eapply IH.
Qed.

Lemma code_inj x y : code x = code y -> x = y.
Proof. unfold code. intros E. rewrite <- (ascii_nat_embedding x), <- (ascii_nat_embedding y). f_equal. lia. Qed.

Lemma bytes_lt_total a : forall b, bytes_lt a b = false -> bytes_lt b a = false -> a = b.
Proof.
  induction a as [|x a IH]; intros [|y b]; cbn; try done. rewrite !orb_false_iff, !andb_false_iff, !Z.ltb_ge, !Z.eqb_neq.
  intros [? H1] [? H2]. assert (x = y) as -> by (apply code_inj; lia). f_equal. apply IH; [by destruct H1|by destruct H2].
Qed.

Lemma bytes_lt_neg a b c : bytes_lt a b = false -> bytes_lt b c = false -> bytes_lt a c = false.
Proof.
  intros H1 H2. destruct (bytes_lt a c) eqn:E; [|done]. destruct (bytes_lt b a) eqn:E2.
  - by rewrite (bytes_lt_trans _ _ _ E2 E) in H2.
  - pose proof (bytes_lt_total _ _ H1 E2) as ->. congruence.
Qed.

(** ** The walk *)

Definition by_name (l r : text * text) : bool := bytes_lt (fst l) (fst r).

(** The entries of the map in its order. *)
Definition entries (s : store) : list (text * text) := sort by_name (map_to_list s).

Definition behind (last : option text) (e : text * text) : bool := match last with Some k => bytes_lt k (fst e) | None => true end.

Section list.
Context `{Platform}.

(** daf/PropertyManager.cpp:109-111 [PropertyManager::list_properties]. [last]: the name the walk is at. *)
Fixpoint list_loop (walk fuel : nat) (last : option text) (value_list : list (text * text)) : PM (list (text * text)) := fun s =>
  match walk with
  | O => None
  | S walk =>
      match List.filter (behind last) (entries s) with
      | [] => Some (s, Ok value_list)
      | (k, v) :: _ =>
          match format_args (fun prop => get_property fuel prop true) fuel v true true s with
          | Some (s, Ok t) => list_loop walk fuel (Some k) (value_list ++ [(k, t)]) s
          | Some (s, Throw _) => list_loop walk fuel (Some k) value_list s
          | None => None
          end
      end
  end.

(** daf/PropertyManager.cpp:103-115 [PropertyManager::list_properties]. *)
Definition list_properties (walk fuel : nat) : PM (list (text * text)) :=
  value_list ← list_loop walk fuel None []; mret (sort alphabetical value_list).

Definition NL : ascii := ascii_of_nat 10.

(** daf/PropertyManager.cpp:117-141 [PropertyManager::print_properties]. What is printed, and the count. *)
Definition print_properties `{AceMinMax} (walk fuel : nat) : PM (text * Z) :=
  properties ← list_properties walk fuel;
  let line (it : text * text) :=
    fst it ++ replicate (Z.to_nat (ace_max 1 (to_int (24 - Z.of_nat (length (fst it)))))) SPACE ++ str "= " ++ snd it ++ [NL] in
  let out := match properties with [] => [] | _ => concat (map line properties) ++ [NL] end in
  mret (out, to_int (Z.of_nat (length properties))).

(** TAF/taf/PropertyServer_impl.cpp:76-94 [PropertyServer_impl::list_properties]. The sequence grows by one for each element. *)
Definition server_list_properties (walk fuel : nat) : PM (reply (list (text * text))) := fun s =>
  match list_properties walk fuel s with
  | Some (s, Ok property_list) => Some (s, Ok (Replied (map (fun it => (c_str (fst it), c_str (snd it))) property_list)))
  | Some (s, Throw _) => Some (s, Ok (Raised BAD_OPERATION))
  | None => None
  end.

Lemma entries_sorted s : StronglySorted (fun x y => by_name x y = true) (entries s).
Proof.
  assert (in_order by_name (entries s)) as Ho.
  { apply sort_in_order; unfold by_name; intros *; [apply bytes_lt_trans|apply bytes_lt_neg|apply bytes_lt_irr]. }
  assert (NoDup (fst <$> entries s)) as Hn by (unfold entries; rewrite (sort_perm by_name); apply NoDup_fst_map_to_list).
  induction Ho as [|x l Hl IH Hx]; [constructor|]. cbn in Hn. apply NoDup_cons in Hn as [Hnx Hn]. constructor; [by apply IH|].
  apply Forall_forall. intros y Hy. rewrite Forall_forall in Hx. specialize (Hx y Hy). unfold by_name in *. destruct (bytes_lt (fst x) (fst y)) eqn:E; [done|].
  exfalso. apply Hnx. rewrite (bytes_lt_total _ _ E Hx). by apply list_elem_of_fmap_2.
Qed.

Lemma behind_rest pre k v post : StronglySorted (fun x y => by_name x y = true) (pre ++ (k, v) :: post) ->
  List.filter (behind (Some k)) (pre ++ (k, v) :: post) = post.
Proof.
  induction pre as [|x pre IH]; cbn [app List.filter].
  - intros Hs. inversion_clear Hs as [|? ? Hs' Hf]. cbn [behind fst]. rewrite bytes_lt_irr. clear Hs'. induction Hf as [|y post Hy _ IH]; [done|].
    cbn [List.filter behind]. unfold by_name in Hy. cbn [fst] in Hy. by rewrite Hy, IH.
  - intros Hs. inversion_clear Hs as [|? ? Hs' Hf]. apply Forall_app in Hf as [_ Hf]. inversion_clear Hf as [|? ? Hxk _]. unfold by_name in Hxk. cbn [fst] in Hxk.
    cbn [behind]. destruct (bytes_lt k (fst x)) eqn:E; [|by apply IH]. pose proof (bytes_lt_trans _ _ _ Hxk E) as H3. by rewrite bytes_lt_irr in H3.
Qed.

(** Where every value formats, the walk passes over all entries in their order. *)
Lemma list_loop_all (f : text -> text) fuel s : (forall k v, s !! k = Some v -> format_args (fun prop => get_property fuel prop true) fuel v true true s = Some (s, Ok (f v))) ->
  forall post walk last acc, List.filter (behind last) (entries s) = post -> (exists pre, entries s = pre ++ post) -> (length post < walk)%nat ->
  list_loop walk fuel last acc s = Some (s, Ok (acc ++ map (fun e => (fst e, f (snd e))) post)).
Proof.
  intros Hf. induction post as [|[k v] post IH]; intros walk last acc E [pre Ep] Hw; (destruct walk as [|walk]; [cbn in Hw; lia|]); cbn [list_loop]; rewrite E;
    [by rewrite app_nil_r|].
  assert (s !! k = Some v) as Hkv.
  { apply elem_of_map_to_list. rewrite <- (sort_perm by_name). change (sort by_name (map_to_list s)) with (entries s). rewrite Ep. apply elem_of_app. right. by left. }
  rewrite (Hf k v Hkv). cbn in Hw. rewrite (IH walk (Some k)); [|rewrite Ep; apply behind_rest; rewrite <- Ep; apply entries_sorted| |lia].
  - by rewrite <- app_assoc.
  - exists (pre ++ [(k, v)]). by rewrite <- app_assoc.
Qed.

(** C36 (functional). In a repository whose names are trimmed, whose references have no cycle and refer to no variable of the environment
    that is not an entry, and where nothing that is put in has a percent sign, the listing comes to an end and changes nothing: it has
    every property once, with the text that a look-up of it gives, in alphabetical order whatever the case; the servant sends these, as C
    strings. (A value that refers to a variable of the environment that is no entry makes it one: [listing_adds_variable].) *)
Theorem properties_listed st rank L n fuel : layered st rank L -> (forall k v, st !! k = Some v -> trim k = k /\ k <> [] /\ (rank k + L < fuel)%nat /\ (rank k < n)%nat) ->
  exists l, list_properties (S (size st)) fuel st = Some (st, Ok l) /\
    server_list_properties (S (size st)) fuel st = Some (st, Ok (Replied (map (fun it => (c_str (fst it), c_str (snd it))) l))) /\
    in_order alphabetical l /\ map fst l ≡ₚ map fst (map_to_list st) /\ (forall k v, (k, v) ∈ l -> meaning st n true k = Some v).
Proof.
  intros Hl Hk. set (f := formatted (meaning st (pred n) true) true).
  assert (forall k v, st !! k = Some v -> format_args (fun prop => get_property fuel prop true) fuel v true true st = Some (st, Ok (f v)) /\ meaning st n true k = Some (f v)) as Hf.
  { intros k v Hkv. destruct (Hk k v Hkv) as (Et & Hne & Hr & Hn). destruct n as [|n]; [lia|]. split.
    - apply format_args_spec; [by apply Hl|]. apply Forall_forall. intros a Ha. split; [pose proof (ly_short _ _ _ Hl _ _ _ _ Hkv Ha); lia|].
      intros m Hm. pose proof (ly_rank _ _ _ Hl _ _ _ _ _ Hkv Ha Hm). apply lookup_outcome_looks_up; [by eapply (ly_calm _ _ _ Hl)|].
      cbn [pred]. eapply get_property_outcome; [done|intros _; by eapply (ly_env _ _ _ Hl)|lia|lia].
    - cbn [meaning]. rewrite Et, decide_False by done. rewrite Hkv. done. }
  assert (list_properties (S (size st)) fuel st = Some (st, Ok (sort alphabetical (map (fun e => (fst e, f (snd e))) (entries st))))) as El.
  { unfold list_properties, mbind, PM_bind. rewrite (list_loop_all f fuel st) with (post := entries st); [done|intros k v Hkv; by apply (Hf k v Hkv)| | |].
    - cbn. generalize (entries st). intros l. induction l as [|x l IH]; [done|]. cbn. by rewrite IH.
    - by exists [].
    - unfold entries. pose proof (Permutation_length (sort_perm by_name (map_to_list st))) as Hlen. pose proof (length_map_to_list st). unfold store in *. lia. }
  eexists. split; [exact El|]. split; [unfold server_list_properties; by rewrite El|]. split; [|split].
  - apply sort_in_order; unfold alphabetical; intros *; [apply bytes_lt_trans|apply bytes_lt_neg|apply bytes_lt_irr].
  - rewrite (Permutation_map fst (sort_perm alphabetical _)), map_map. cbn [fst]. change (map (fun x : text * text => fst x) (entries st)) with (map fst (entries st)).
    apply Permutation_map, sort_perm.
  - intros k v Hin. rewrite (sort_perm alphabetical) in Hin. apply list_elem_of_In, in_map_iff in Hin as ([k' v'] & [= <- <-] & Hin).
    apply list_elem_of_In in Hin. unfold entries in Hin. rewrite (sort_perm by_name) in Hin. apply elem_of_map_to_list in Hin. by apply (Hf k' v').
Qed.
End list.

Lemma properties_listed_witness : layered (H := calm_platform) greeting greet_rank 14 /\
  exists l, list_properties (H := calm_platform) (S (size greeting)) 17 greeting = Some (greeting, Ok l) /\ map fst l ≡ₚ map fst (map_to_list greeting).
Proof.
  split; [exact greeting_calm_layered|].
  destruct (@properties_listed calm_platform greeting greet_rank 14 2 17 greeting_calm_layered) as (l & E & _ & _ & Hp & _).
  - intros k v Hk. unfold greeting, store in Hk. rewrite !lookup_insert_Some in Hk. rewrite lookup_empty in Hk.
    destruct Hk as [[<- <-]|[_ [[<- <-]|[_ ?]]]]; [| |done]; vm_compute; split_and!; done || lia.
  - exists l. by split.
Defined.

(** A property that refers to a variable of the environment: the walk adds the variable, and comes to it, or not, by its name. *)
Definition user_store (k : text) : store := {[ k := str "by %p{USER}" ]}.

Lemma listing_adds_variable :
  list_properties (H := words_platform) 5 20 (user_store (str "A"))
    = Some (<[str "USER" := str "ann"]> (user_store (str "A")), Ok [(str "A", str "by ann"); (str "USER", str "ann")])
  /\ list_properties (H := words_platform) 5 20 (user_store (str "Z"))
    = Some (<[str "USER" := str "ann"]> (user_store (str "Z")), Ok [(str "Z", str "by ann")]).
Proof. split; apply (bool_decide_unpack _); vm_compute; exact I. Qed.

(** Names that differ in case only keep the order of their bytes; others do not. *)
Example alphabetical_order : sort alphabetical [(str "Zoo", []); (str "alpha", []); (str "Beta", [])] = [(str "alpha", []); (str "Beta", []); (str "Zoo", [])].
Proof. reflexivity. Qed.
