(* ===== verification/Security.v ===== *)
(** * Security: TAF/TAFSecurity/TAFSecurityLoader, and the naming service of TAF/orbsvcs

    Before the ORB is made the loader turns the security properties into the arguments of TAO's SSLIOP factory and writes them to a
    file of service directives that the ORB is told to read.  The properties, ACE's texts of directives and the ORB's security
    objects are parameters.  Behind it the entry points of the naming service, over TAO's server. *)

From S2P Require Import Prelude CString Text Configurator ConfigLoad TtyConfig.
From Stdlib Require Import Ascii.

Definition TAF_SECURITY_FLAG : text := str "-TAFSecurity".
Definition SSL_NOPROTECTION : text := str "SSLNoProtection".

(** TAF/TAFSecurity/TAFSecurityLoader.cpp:55-72 [ssliop_options]. *)
Definition ssliop_options : list text :=
  str <$> ["SSLAuthenticate"; "SSLPrivateKey"; "SSLCertificate"; "SSLAcceptTimeout"; "SSLDHparams"; "SSLCAfile"; "SSLCApath"; "SSLrand";
           "SSLServerCipherOrder"; "SSLCipherList"; "SSLVersionList"; "SSLPassword"; "SSLCheckHost"]%string.

(** Arguments with a space between two of them. *)
Definition append_arg (args arg : text) : text := (if (0 <? length args)%nat then args ++ [SPACE] else args) ++ arg.

(** daf/PropertyManager.h:173-181 [PropertyManager::get_numeric_property]. A text that begins with "true", in any case, or a number other than 0. *)
Definition bool_of_text (val : text) : bool :=
  bool_decide (tolower <$> take 4 (c_str val) = str "true") || negb (atoi val =? 0).

Section loader.
Context (get_property : text -> option text).

(** daf/PropertyManager.h:184-193 [PropertyManager::get_numeric_property]. *)
Definition get_bool (ident : text) (default_val : bool) : bool :=
  match get_property ident with Some val => bool_of_text val | None => default_val end.

(** TAF/TAFSecurity/TAFSecurityLoader.cpp:193-205 [Loader::init]. One option; one that is not set is passed over. *)
Definition add_option (args option_ : text) : text :=
  match get_property option_ with
  | Some ssliop_arg => append_arg args (str "-" ++ trim (option_ ++ [SPACE] ++ ssliop_arg))
  | None => args
  end.

(** TAF/TAFSecurity/TAFSecurityLoader.cpp:174-207 [Loader::init]. [debug]: the debug level is above 2. *)
Definition ssliop_args (debug : bool) : text :=
  let args := if debug || get_bool (str "verbose") false then append_arg [] (str "-verbose") else [] in
  if get_bool SSL_NOPROTECTION false then append_arg args (str "-" ++ SSL_NOPROTECTION)
  else foldl add_option args (drop 1 ssliop_options).

(** [sprintf] into a buffer of 512 characters: [None] when the text and its NUL do not fit. *)
Definition sprintf512 (t : text) : option text := if (length t <? 512)%nat then Some t else None.

Definition NL : ascii := ascii_of_nat 10.

(** TAF/TAFSecurity/TAFSecurityLoader.cpp:169-231 [Loader::init]. [directive args] and [resource]: the two directives; [conf]: the file's name; [opened]: it could be opened.  The
    file, the parameters for the ORB, the result. *)
Definition Loader_init (directive : text -> text) (resource conf : text) (opened debug : bool) (orb_params : text) : option (text * text * Z) :=
  let args := ssliop_args debug in
  if opened then
    d1 ← sprintf512 (directive (trim args)); d2 ← sprintf512 resource;
    d3 ← sprintf512 (str "-ORBSvcConf '" ++ conf ++ str "'");
    Some (d1 ++ [NL] ++ d2 ++ [NL], append_arg orb_params d3, 0)
  else Some ([], orb_params, -1).

(** The option of a name as the factory reads it. *)
Definition written_option (option_ : text) : list text :=
  match get_property option_ with Some v => [str "-" ++ trim (option_ ++ [SPACE] ++ v)] | None => [] end.

Lemma options_written options args : foldl add_option args options = foldl append_arg args (options ≫= written_option).
Proof.
  revert args. induction options as [|o options IH]; intros args; [done|]. rewrite bind_cons, foldl_app. cbn [foldl]. rewrite IH. f_equal.
  unfold add_option, written_option. by destruct (get_property o).
Qed.
End loader.

(** Unless protection is switched off every security property that is set is handed to the factory, once, in the order of the table, behind "-verbose" if
    that is asked for; but for the first of the table. *)
Lemma ssliop_args_spec get debug : get_bool get SSL_NOPROTECTION false = false ->
  ssliop_args get debug = foldl append_arg [] ((if debug || get_bool get (str "verbose") false then [str "-verbose"] else []) ++ (tail ssliop_options ≫= written_option get)).
Proof. intros E. unfold ssliop_args. rewrite E, options_written, foldl_app. by destruct (debug || _). Qed.

(** The loop over the options starts at the second: whether a peer has to authenticate itself, SSLAuthenticate, is never passed on. *)
Lemma authenticate_ignored get get' debug : (forall o, o <> str "SSLAuthenticate" -> get o = get' o) -> ssliop_args get debug = ssliop_args get' debug.
Proof.
  intros H. unfold ssliop_args, get_bool. rewrite !H by (vm_compute; discriminate). destruct (match get' SSL_NOPROTECTION with Some v => bool_of_text v | None => false end); [done|].
  rewrite !options_written. f_equal. change (drop 1 ssliop_options) with (tail ssliop_options).
  assert (Forall (fun o => written_option get o = written_option get' o) (tail ssliop_options)) as Hf.
  { repeat constructor; unfold written_option; rewrite H by (vm_compute; discriminate); done. }
  generalize dependent (tail ssliop_options). intros l. induction 1 as [|o l Ho _ IH]; [done|]. by rewrite !bind_cons, Ho, IH.
Qed.

Lemma append_arg_length args arg : (length arg <= length (append_arg args arg))%nat.
Proof. unfold append_arg. rewrite length_app. lia. Qed.

(** The directives are printed into 512 characters: where the options are longer the buffer overflows. *)
Lemma long_options_overflow get directive resource conf debug orb_params : (512 <= length (directive (trim (ssliop_args get debug))))%nat ->
  Loader_init get directive resource conf true debug orb_params = None.
Proof. intros Hl. unfold Loader_init, sprintf512. by rewrite (proj2 (Nat.ltb_ge _ _) Hl). Qed.

(** What the constructor leaves for the connections: the profile's options, protection without options, none. *)
Inductive protection := Configured | Protected | NoProtection.

(** TAF/TAFSecurity/TAFSecurityLoader.cpp:135-161 [Loader::Loader]. Behind the arguments: [profile] is the result of loading the profile the property names, [None] when
    that throws; [empty]: there are no properties then; [ssl_protection]: the property, [None] when its look-up throws. *)
Definition loader_protection (load_count : Z) (use_property : bool) (profile : option Z) (empty : bool) (ssl_protection : option bool) : protection :=
  let loaded := if (if load_count =? 0 then use_property else false) then match profile with Some r => r =? 0 | None => false end else true in
  if negb loaded then NoProtection
  else if empty then match ssl_protection with Some true => Protected | _ => NoProtection end
  else Configured.

(** A profile that is named but cannot be loaded switches protection off, whatever the property for protection says. *)
Lemma broken_profile_unprotected profile empty ssl : profile <> Some 0 -> loader_protection 0 true profile empty ssl = NoProtection.
Proof. intros H. unfold loader_protection. cbn. destruct profile as [r|]; [|done]. destruct (Z.eqb_spec r 0); [congruence|done]. Qed.

(** TAF/TAFSecurity/TAFSecurityLoader.cpp:257-318 [Loader::post_init]. For the first call: [managers]: the ORB has a security manager with an access decision; the
    default decision is handed over, [None] when that throws.  The decision made and whether security is active; [None]: the ORB's information is
    nil or security is active already, which throws. *)
Definition post_init (tao_info active managers : bool) (default_decision : option bool) : option (option bool * bool) :=
  if negb tao_info || active then None
  else match managers, default_decision with
       | true, Some d => Some (Some d, true)
       | _, _ => Some (None, false)
       end.

(** TAF/TAFSecurity/TAFSecurity.cpp:146-158 [AccessDecision::set_servant_access]. The loop over the POA: [added i] is whether the object can be added at the [i]-th attempt; an
    exception of the attempt is caught inside. *)
Fixpoint access_loop (fuel : nat) (added : nat -> bool) (i : nat) : option Z :=
  match fuel with
  | O => None
  | S fuel => if added i then Some 0 else access_loop fuel added (S i)
  end.

(** TAF/TAFSecurity/TAFSecurity.cpp:142-161 [AccessDecision::set_servant_access]. [servant], [poa]: neither is null. *)
Definition set_servant_access (fuel : nat) (servant poa : bool) (added : nat -> bool) : option Z :=
  if servant then if poa then access_loop fuel added 0 else Some (-1) else Some (-1).

(** When the object cannot be added the exception is caught inside of the loop, whose condition still holds: the call never returns. *)
Lemma refused_access_loops added fuel : (forall i, added i = false) -> set_servant_access fuel true true added = None.
Proof.
  intros Ha. unfold set_servant_access. generalize 0%nat. induction fuel as [|fuel IH]; intros i; [done|]. cbn. by rewrite Ha.
Qed.

(** ** The naming service *)

(** TAF/orbsvcs/NamingService/NamingService.cpp:126-160 [NamingService::init]. [started]: the result of TAO's server; [bound]: the result of binding the service's reference;
    [None]: they throw. *)
Definition naming_init (started bound : option Z) : Z :=
  match started with
  | Some 0 => match bound with Some _ => 0 | None => -1 end
  | _ => -1
  end.

(** TAF/orbsvcs/NamingService/NamingService.cpp:174-184 [NamingService::fini]. *)
Definition naming_fini (fini_bind : Z) (server_fini : option Z) : Z := match server_fini with Some r => r | None => fini_bind end.

(** A naming service that could not be bound says that it is initialised. *)
Lemma unbound_naming_starts : naming_init (Some 0) (Some (-1)) = 0.
Proof. done. Qed.
